(* ===== verification/_CoqProject ===== *)
-Q . S2P
Prelude.v
F64.v
Str.v
Decimal.v
Files.v
Trace.v
PolicyV2.v
Json.v
Strategy.v
PolicyV3.v
SecretPolicy.v
Names.v
Envelope.v
Bytes.v
PolicyV1.v
Rlp.v
Frame.v
DemoText.v
Chain.v
KeyCache.v
Telemetry.v
WalletFile.v
Vault.v
MapStore.v
Generations.v
Journal.v
SecretTypes.v
SecretEntry.v
SecretStore.v
SecretSafety.v
SecretRefine.v
SecretCrud.v
SecretDemo.v
Base32.v
Otp.v
Approvals.v
ApprovalsDemo.v
Sim.v
Nonce.v
AuditChain.v
AuditMerge.v
Passkey.v
SessionKeys.v
Proto.v
Net.v
ChainKey.v
Enclave.v
Hd.v
Derivation.v
Credential.v
WalletWorld.v
PolicyStore.v
KeyStore.v
WalletOps.v
KeyOps.v
WalletSign.v
WalletVault.v
WalletGate.v
WalletDemo.v
SiwxMessage.v
SiwxParse.v
SiwxAuth.v
WcAuth.v
Intent.v
IntentSpec.v
Router.v
RouterSafety.v
RouterDemo.v
Agent.v
AgentRules.v
Handlers.v
SignSiwx.v
Dispatch.v
Authority.v
AgentSafety.v
Challenges.v
Ends.v
AgentDemo.v
