(* ===== verification/Prelude.v ===== *)
(** * A verified model of OneCipher's policy, signing-protocol and agent core

    OneCipher is a local-first wallet for AI agents.  A request to pay, to sign or
    to read a secret reaches the Key-Agent process over a Unix socket, is checked
    against passkeys, session keys, nonces and the policy engines, and only then
    signed; a person signs in with a CAIP-122 message.  This library models the
    parts that decide and that encode, function by function, and proves what each
    promises.

    ** Parts of the program and files of the library

    Shared ground.
    - [Prelude]: results ([Result] and the [?] operator), computations that may
      panic ([outcome]), and the tactics that walk through them.  [F64]: binary64.
      [Str]: Rust strings as byte strings, with the [std] functions the code
      calls.  [Decimal]: printed integers and their parsing.  [Bytes]: byte slices,
      [usize] and big-endian integers.  [Json]: [serde_json::Value].  [DemoText]:
      hexadecimal and one-line texts for the witnesses.
    - [Files] (oc-core/src/paths.rs): the disk as a map and [write_atomic] as the
      list of disks it goes through, so a crash leaves any of them.  [Trace]: such
      operations in sequence.  [MapStore]: the
      [load] and [save] that nonce_store.rs, passkey.rs and session_keys.rs share.
      [Names] (paths.rs): wallet ids, secret names and their file names, the state
      directory.

    Policies.
    - [PolicyV2] (crates/oc-policy/src/v2.rs): the eleven-step evaluator
      [evaluate_11_step] over the counters of [PolicyState]: sliding windows for
      rate limits and daily/monthly caps, the cumulative spend, the deny streak
      with its alert and cooldown, [load] and the atomic [persist].
    - [Strategy] (native_strategy.rs): the registry of strategy plugins, a map
      sorted by name, and [registry_evaluate], which consults them in that order.
    - [PolicyV3] (v3.rs): attribute rules evaluated after the v2 flow
      ([evaluate_v3]), then the plugins ([evaluate_v3_with_strategies]), whose deny
      refunds the allow that v2 has already recorded through [rollback_allow].
    - [PolicyV1] (oc-core/src/policy.rs, v1.rs, executable.rs): declarative
      transaction policies and the policy programs they start.
    - [SecretPolicy] (secret.rs): the ordered rules for an agent's access to a
      secret, and their glob matcher.

    Encodings and protocols.
    - [Rlp] (oc-signer/src/rlp.rs, chains/evm.rs): RLP and the assembly of signed
      legacy and typed EVM transactions from unsigned bytes supplied by a client.
    - [Frame] (oc-keyagent/src/frame.rs, server.rs, response.rs, socket_guard.rs):
      length-prefixed frames, the connection loop [handle_conn], the client's
      [send_request], and the checks on the socket before anything is sent.
    - [SiwxMessage] (oc-siwx/src/message.rs, nonce.rs, error.rs): messages, field
      checks, builders and nonces; [SiwxParse] (parser.rs, formatter.rs): the
      signing string; [SiwxAuth] (validate.rs, verifier.rs, auth.rs):
      [authenticate].
    - [Chain] (oc-core/src/chain.rs, caip.rs): chain families, [parse_chain] and
      the bounded interner of parsed ids.  [Proto] (oc-keyagent/src/proto.rs): the
      messages of the wire.

    The stores of the Key-Agent.
    - [Nonce] (nonce_store.rs), [SessionKeys] (session_keys.rs), [Passkey]
      (passkey.rs, crates/oc-crypto's verifier): single-use messages, session keys,
      passkeys with their challenges.
    - [AuditChain], [AuditMerge] (audit.rs): the hash-chained, device-signed log.
    - [Telemetry] (telemetry.rs): the redacting record buffer.  [KeyCache]
      (oc-crypto/src/key_cache.rs): the cache of derived keys.
    - [WalletFile] (oc-core/src/wallet_file.rs) and [Vault] (oc-vault/src/vault.rs):
      the wallet directory.

    Wallets and API keys (crates/oc-wallet over oc-signer, oc-vault and oc-core).
    - [Hd] (oc-signer/src/mnemonic.rs, hd.rs, chains/): phrases, paths, derivation and
      its cache; [Derivation] (oc-core/src/derivation.rs): named path styles, an
      interface ([DerivationStyle]) with four instances.
    - [Credential] (oc-core/src/credential.rs, api_key.rs, oc-vault/src/crypto/
      envelope.rs): passphrases and tokens, key records, age envelopes.
    - [WalletWorld] (oc-wallet/src/error.rs): errors and the file calls of the stores.
      [PolicyStore] (policy_store.rs): signed policies; [KeyStore] (key_store.rs): key
      files, found by the hash of a token.
    - [WalletOps], [WalletSign] (ops.rs, broadcast.rs): wallets from creation to
      signature, with the process ([Proc]) they share; [KeyOps] (key_ops.rs): the gate
      between a token and a key.  [WalletGate], [WalletVault]: the theorems;
      [WalletDemo]: a wallet, a key and a signature run.

    Secrets (oc-core/src/secret.rs, text.rs; crates/oc-secret).
    - [SecretTypes]: kinds, envelopes, metadata, the edit distance of the fuzzy
      search.  [Envelope] (envelope.rs): the header around a payload.
      [SecretEntry] (entry.rs, age.rs, path.rs): an entry sealed for its name and
      generation.  [Generations] (generations.rs, protection.rs): the generation map
      that peers exchange.  [Journal] (journal.rs): the write-ahead journal.
    - [SecretStore] (store.rs): entry files and their index with its tombstones;
      [SecretCrud] (crud.rs): creation, update, copy and census over it.
      [SecretSafety]: generations and replays over histories; [SecretRefine]: the
      store as a map from names to entries; [SecretDemo]: concrete stores.
    - [Base32], [Otp] (totp.rs): one-time passwords and their [otpauth] URIs.

    Approvals, intents and the network agent.
    - [Approvals] (oc-core/src/approval.rs, approval_log.rs, oc-webui/src/
      approval_queue.rs, lib.rs): requests that wait for the user, their log, and the
      queue, an operation of which is a task of atomic steps that interleave
      ([sys_step]).  [ApprovalsDemo]: concrete runs.
    - [Sim] (oc-netagent/src/sim): what the approval card reads of a transaction.
    - [Net]: the calls of the network agent on the world, programs over them
      ([Prog]), and the calculus [wp] for what must come before a call.
      [Intent] (oc-netagent/src/intent): what a payment is made into, its execution
      and simulation; [IntentSpec]: what the transaction does.
    - [WcAuth] (oc-walletconnect/src/auth.rs): sign-in requests and their text.
    - [Router] (oc-netagent/src/wc_method_router.rs, approval.rs): from a
      WalletConnect method and its parameters, through policy, simulation and
      approval, to a request to the Key-Agent and the answer.  [RouterSafety]: what
      it lets through; [RouterDemo]: concrete requests.

    The agent itself (oc-keyagent/src/handler.rs, enclave.rs).
    - [ChainKey]: device key, unlock token, decryption of a wallet, message signing.
      [Enclave]: the child process that signs, both sides of its pipe.
    - [Agent]: [AgentContext] with the process-wide state and the monad [Ag] of the
      handlers, a computation that reads the [World] of one request (clock readings,
      generator, child processes, directory listings), changes the agent and goes on
      or stops with the answer.  [Handlers] and [SignSiwx]: every handler.
      [Dispatch]: [dispatch_with] and [open_default].
    - [AgentRules]: an invariant is preserved by all handlers when the few steps that
      change the agent preserve it ([Stable]).  [Authority], [AgentSafety],
      [Challenges], [Ends]: the theorems over requests and over histories of
      requests, crashes and restarts ([AgentSafety.runs]).  [AgentDemo]: concrete
      runs of an agent below /home/a.

    Names are those of the source.  A Rust method is a definition that takes the
    receiver first and, when it has [&mut self], returns the new state; a panic
    is [Panic]; the wall clock, the random source and the process id are
    arguments, one per reading, so that two readings in one call may differ.

    ** What the theorems show

    - Payments: [allow_iff_admissible] characterises an allow as the conjunction
      of all checks; [budget_never_exceeded] and [rate_limit_enforced] are
      invariants over every history of evaluations, the former in binary64 with
      rounding; [cooldown_blocks] gives the behaviour after a deny,
      [persist_atomic] the state file after a crash.  [v3_allow_iff] and
      [plugins_additive] say that rules and plugins can only restrict;
      [plugin_deny_refunds], [v3_rule_deny_keeps_allow],
      [plugin_deny_late_keeps_slot] and [refund_is_not_exact] say exactly what a
      later deny gives back, and what it does not.
    - Transaction policies and secrets: [executable_rule_fail_closed];
      [glob_match_spec] (the segment search decides the declarative relation).
    - Encodings: [split_items_encode], [signed_legacy_tx_spec] and
      [signed_legacy_tx_no_panic]; [signed_typed_tx_panics] is the hostile input
      that the typed path does not survive.  [secret_filename_roundtrip].
    - Transport: [handle_conn_serves], [handle_conn_terminates] for a connection;
      [request_response] composes client and server, and
      [insecure_socket_sends_nothing] covers the socket.
    - Sign-in: [parse_to_sign_string] and [from_str_canonical] make parser and
      formatter inverse to each other, so the bytes a signature covers determine
      the message; [constructed_shape_ok] is the type invariant and
      [authenticate_iff] the whole flow.  [address_line_injection] and
      [tagged_statement_does_not_parse] show why [parse_to_sign_string] needs
      [line_safe].
    - Stores: [cache_refines_lru], [vault_refines_map] and [verify_ok_iff] refine
      or characterise a store by a simpler one; [interner_bounded],
      [parsed_chain_well_typed], [drained_redacted] are their invariants;
      [verify_chain_iff], [tamper_evident] and [merge_spec] say what the audit log
      proves and what merging keeps.  Where SHA-256 matters ([tamper_evident],
      [cached_same], [created_signs]) the alternative is a collision of two texts
      that the logs or the cache at hand hold, not the existence of one.
    - Secrets: [store_refines] (the store is a map, on success of every operation),
      [floors_never_fall] and [replay_refused] over histories with failures and
      crashes, [decrypt_binding] (what a ciphertext is bound to, errors included),
      [re_encrypt_keeps], [crud_reads_back], [census_agrees]; [peers_converge],
      [parse_rendered], [bump_generation_spec] and [merged_protects] for generations;
      [journal_loses_nothing] and [recovery_decides] for the journal;
      [edit_distance_levenshtein]; [otpauth_roundtrip], [verify_window],
      [truncate_code_spec] and [codes_agree] for one-time passwords.
    - Approvals: [answered_once] over every interleaving, [restart_recovers] and
      [gc_keeps] for the log.  [card_reads_signed], [format_wei_exact] and
      [user_cache_never_relabels]: what the card shows is what is signed.
      [payment_moves_amount] composes intents, the encoder of transactions and the
      decoder of the card, with the numerals an amount may be spelled as declared
      apart from the parser ([parse_amount_spells]); [pay_to_nobody] is the native
      payment without a recipient.  [siwe_built_iff]; [siwe_refused] and
      [siwe_not_injective] show what that text is not.
    - Wallets: [signature_gated] (what stands between a token and a signature),
      [token_signs_as_owner] (the two roads to a key agree), [names_unique] over
      histories with failures and crashes, [created_signs], [save_policy_atomic] and
      [load_policy_iff]; [default_path_derives], [derive_many_spec] and [cached_same]
      for derivation, [style_roundtrip] for the styles.  [amount_cap_blind],
      [recipients_blind] and [contracts_blind] show which policy rules see nothing of
      what a token signs, [refused_path_answered] a key the cache confuses.
    - The router: [signing_gated] (over every sequence of answers of the world, no
      signing request without policy, user and proof) and [answers_relayed];
      [intent_execute_panics] and [contracts_from_params] show two gaps.
    - The agent: [dispatch_authorized] (no payload without its proof),
      [signature_recorded] (no signature without its entry in the log),
      [handle_sign_siwx_ok] (the sign-in handler, both directions),
      [enclave_answers] (parent and child compose), and over histories
      [revoked_never_signs], [signed_once], [proof_used_once] and
      [audit_log_lasts].  [dispatch_ends]: no request leaves the agent looping.
      [registration_takes_over], [verifier_outlives_registration] and
      [expired_message_signed_twice] are concrete runs that show the limits of
      these promises.

    Each theorem with hypotheses has a witness, a lemma of the same name ending in
    [_witness], that applies it to a concrete run.

    ** Fuel and bounds

    The loops of the source that are not structural run on fuel that their
    callers compute, and a theorem shows it to be enough: the bytes of the payload
    for [split_loop] (every item has at least one byte); [20 * timeout + 2] polls
    for [wait_loop] (50 ms apart) and likewise for the polls of an enclave child;
    the node limit plus one for [count_loop], where the source stops too; the number
    of nodes plus one for [touches_loop]; the bytes and events left in the stream
    plus one for [conn_loop]; the pending challenges plus one for the drawing of a
    challenge; the length of the text for trimming; the length of the payload for
    the items of [Sim].  The loop that verifies a one-time password takes its fuel as an
    argument and is [None] when it is spent; [verify_window] has its answer under any
    fuel from one turn per step of the window on.  [u32], [u64], [u128] and
    [usize] are [Z] with saturation, wrap-around or a checked failure written out
    as in the code; sizes of real slices are below [isize_max], which the theorems
    about panics assume.

    ** What is a parameter

    serde_json numbers and deserialization, prost, jiff, iri-string, lower-casing
    beyond ASCII, SHA-256, Ed25519 and signature verification, HKDF, wallet
    decryption and the signers, tap_caip, age, HMAC, the builder of totp-rs, hex,
    alloy's ABI decoder and typed data, Keccak-256, BIP-39 and BIP-32, the parsing of
    floats, RPC nodes, child processes, the file system and the streams are arguments:
    classes with their documented laws ([SerdeNumber],
    [External] and [ExternalLaws], [AuditEnv] and [AuditLaws], [Signers], ...) or
    section variables.  Of a world a theorem may assume that it is [quiet] (no file
    operation is disturbed), [whole] (no append is torn), [in_time] (clocks do not
    run past an expiry), [fresh] (the generator does not draw a given challenge) or
    [lively] (time passes between polls and drawn challenges differ).  Every law and
    every such assumption a theorem uses is met by a concrete instance in its
    witness.

    ** What is not modelled

    Cryptography, raw file and network access, process hardening, child processes
    (git, pass, the browser bridge) and the user interfaces are calls into other
    libraries or the system.  Of the core logic, these parts are not here:
    EIP-712 and the encodings of the chains other than EVM, which are mostly calls into
    curve and hash libraries; the HTTP requests that post a signed transaction; the relay, sessions and
    encryption of WalletConnect; recipients, password generation, migration and recovery of secrets;
    configuration. *)

From Stdlib Require Import ZArith Lia Ascii String Sorting.Sorted.
From stdpp Require Import base list strings.

(** ** Results and panics *)

(** Rust's [Result<A, E>]. *)
Inductive result (E A : Type) : Type :=
| Ok (a : A)
| Err (e : E).
Arguments Ok {E A} a.
Arguments Err {E A} e.

(** A computation that may panic (slice out of range, checked overflow). *)
Inductive outcome (A : Type) : Type :=
| Ret (a : A)
| Panic.
Arguments Ret {A} a.
Arguments Panic {A}.

Declare Scope oc_scope.
Delimit Scope oc_scope with oc.

(** The [?] operator on [Result]. *)
Definition result_bind {E A B} (r : result E A) (k : A -> result E B) : result E B :=
  match r with
  | Ok a => k a
  | Err e => Err e
  end.

(** The [?] operator inside a function that may also panic. *)
Definition comp_bind {E A B} (c : outcome (result E A)) (k : A -> outcome (result E B))
  : outcome (result E B) :=
  match c with
  | Ret (Ok a) => k a
  | Ret (Err e) => Ret (Err e)
  | Panic => Panic
  end.

Notation "'let?' x ':=' c 'in' k" := (result_bind c (fun x => k))
  (at level 10, x name, c at level 100, k at level 200) : oc_scope.
Notation "'let?' ' x ':=' c 'in' k" := (result_bind c (fun x => k))
  (at level 10, x strict pattern, c at level 100, k at level 200) : oc_scope.
Notation "'let!' x ':=' c 'in' k" := (comp_bind c (fun x => k))
  (at level 10, x name, c at level 100, k at level 200) : oc_scope.
Notation "'let!' ' x ':=' c 'in' k" := (comp_bind c (fun x => k))
  (at level 10, x strict pattern, c at level 100, k at level 200) : oc_scope.

(** A mutex-guarded value, or that its holder panicked. *)
Inductive lock (A : Type) := Held (a : A) | Poisoned.
Arguments Held {A} a.
Arguments Poisoned {A}.

Definition is_ok {E A} (r : result E A) : bool :=
  match r with Ok _ => true | Err _ => false end.

Definition result_map {E A B} (f : A -> B) (r : result E A) : result E B :=
  match r with Ok a => Ok (f a) | Err e => Err e end.

Definition result_map_err {E F A} (f : E -> F) (r : result E A) : result F A :=
  match r with Ok a => Ok a | Err e => Err (f e) end.

(** [Option<A>::ok_or(e)]. *)
Definition ok_or {E A} (e : E) (o : option A) : result E A :=
  match o with Some a => Ok a | None => Err e end.

(** [Option<Result<A, E>>::transpose]. *)
Definition transpose {E A} (o : option (result E A)) : result E (option A) :=
  match o with
  | None => Ok None
  | Some (Ok a) => Ok (Some a)
  | Some (Err e) => Err e
  end.

Lemma result_bind_ok {E A B} (r : result E A) (k : A -> result E B) b :
  result_bind r k = Ok b <-> exists a, r = Ok a /\ k a = Ok b.
Proof. destruct r; simpl; split; [eauto|intros (?&?&?); congruence|done|intros (?&?&?); congruence]. Qed.

Lemma comp_bind_ok {E A B} (c : outcome (result E A)) (k : A -> outcome (result E B)) b :
  comp_bind c k = Ret (Ok b) <-> exists a, c = Ret (Ok a) /\ k a = Ret (Ok b).
Proof.
  destruct c as [[?|?]|]; simpl; split; try done; [eauto| | |];
    intros (?&?&?); congruence.
Qed.

(** [Vec::is_empty]. *)
Definition is_nil {A} (l : list A) : bool :=
  match l with [] => true | _ => false end.

(** ** Lists *)

Lemma Forall_filter {A} (R P : A -> Prop) `{forall x, Decision (P x)} l :
  Forall R l -> Forall R (filter P l).
Proof.
  rewrite !Forall_forall. intros H' x [_ Hx]%list_elem_of_filter. by apply H'.
Qed.

Lemma filter_all {A} (P : A -> Prop) `{forall x, Decision (P x)} l : Forall P l -> filter P l = l.
Proof. induction 1 as [|x l Hx _ IH]; [done|]. rewrite filter_cons_True by done. by rewrite IH. Qed.

Lemma sorted_filter {A} (R : A -> A -> Prop) (P : A -> Prop) `{forall x, Decision (P x)} l :
  StronglySorted R l -> StronglySorted R (filter P l).
Proof.
  induction 1 as [|x l Hs IH Hx]; [constructor|]. rewrite filter_cons.
  destruct (decide (P x)); [|done]. constructor; [done|]. by apply Forall_filter.
Qed.

Lemma fmap_filter {A B} (f : A -> B) (P : A -> Prop) (Q : B -> Prop)
    `{forall x, Decision (P x)} `{forall x, Decision (Q x)} l :
  Forall (fun x => P x <-> Q (f x)) l -> f <$> filter P l = filter Q (f <$> l).
Proof.
  induction 1 as [|x l Hx _ IH]; [done|]. rewrite fmap_cons, !filter_cons.
  destruct (decide (P x)), (decide (Q (f x))); try tauto; cbn; by rewrite IH.
Qed.

Lemma filter_Forall_iff {A} (P Q : A -> Prop) `{forall x, Decision (P x)} `{forall x, Decision (Q x)} l :
  Forall (fun x => P x <-> Q x) l -> filter P l = filter Q l.
Proof. intros Hl. by rewrite <- (list_fmap_id (filter P l)), (fmap_filter id P Q), list_fmap_id. Qed.

(** ** Machine integers *)

Definition u8_max : Z := 2 ^ 8 - 1.
Definition u32_max : Z := 2 ^ 32 - 1.
Definition u64_max : Z := 2 ^ 64 - 1.
Definition u128_max : Z := 2 ^ 128 - 1.

Definition saturating_sub (a b : Z) : Z := Z.max 0 (a - b).
Definition saturating_add64 (a b : Z) : Z := Z.min u64_max (a + b).
Definition saturating_mul64 (a b : Z) : Z := Z.min u64_max (a * b).

(** Plain [+] on [u32] in the release profile: wraps modulo [2^32]. *)
Definition wrapping_add32 (a b : Z) : Z := (a + b) mod 2 ^ 32.

Definition checked_add64 (a b : Z) : option Z :=
  if (a + b <=? u64_max)%Z then Some (a + b)%Z else None.
Definition checked_mul64 (a b : Z) : option Z :=
  if (a * b <=? u64_max)%Z then Some (a * b)%Z else None.

Lemma wrapping_add32_small a b :
  (0 <= a + b <= u32_max)%Z -> wrapping_add32 a b = (a + b)%Z.
Proof. unfold wrapping_add32, u32_max. intros ?. apply Z.mod_small. lia. Qed.

Lemma saturating_mul64_mono a b c :
  (0 <= c -> a <= b -> saturating_mul64 a c <= saturating_mul64 b c)%Z.
Proof. unfold saturating_mul64. nia. Qed.

(** ** Tactics *)

(** Case split on the scrutinees of the goal, then of the hypotheses. *)
Ltac split_match :=
  repeat match goal with
  | |- context [match ?x with _ => _ end] => destruct x eqn:?; simplify_eq/=
  end.
Ltac split_match_in H :=
  repeat match type of H with
  | context [match ?x with _ => _ end] => destruct x eqn:?; simplify_eq/=
  end.

(** Turns boolean facts of the code into propositions. *)
Ltac bool_to_prop :=
  repeat match goal with
  | H : andb _ _ = true |- _ => apply andb_true_iff in H as [? ?]
  | H : orb _ _ = false |- _ => apply orb_false_iff in H as [? ?]
  | H : negb _ = true |- _ => apply negb_true_iff in H
  | H : negb _ = false |- _ => apply negb_false_iff in H
  | H : (_ <? _)%Z = true |- _ => apply Z.ltb_lt in H
  | H : (_ <? _)%Z = false |- _ => apply Z.ltb_ge in H
  | H : (_ <=? _)%Z = true |- _ => apply Z.leb_le in H
  | H : (_ <=? _)%Z = false |- _ => apply Z.leb_gt in H
  | H : (_ =? _)%Z = true |- _ => apply Z.eqb_eq in H
  | H : (_ =? _)%Z = false |- _ => apply Z.eqb_neq in H
  | H : (_ =? _)%string = true |- _ => apply String.eqb_eq in H
  | H : (_ =? _)%string = false |- _ => apply String.eqb_neq in H
  end.

(** Peels the [Ok] layers of a chain of [?] operators. *)
Ltac bind_ok H :=
  repeat match type of H with
  | result_bind _ _ = Ok _ =>
      let a := fresh "a" in let Ha := fresh "Hok" in
      apply result_bind_ok in H; destruct H as (a & Ha & H)
  end.

(** Peels one layer, naming its value and its equation. *)
Ltac bind1 H a Ha := apply result_bind_ok in H; destruct H as (a & Ha & H).

(** Evaluates an equation.  The virtual machine compares the two sides without
    normalising the types, which may mention a whole environment. *)
Ltac runs := match goal with |- @eq ?A ?x ?y => exact (@eq_refl A y <: @eq A x y) end.
