(* ===== verification/F64.v ===== *)
(** * IEEE 754 binary64

    Rust's [f64] is [SpecFloat.spec_float] at precision 53 and maximal exponent
    1024, so every addition, subtraction, multiplication and comparison of the
    model rounds exactly as the hardware does.  NaN payloads are not modelled:
    no modelled function inspects one. *)

From Stdlib Require Import ZArith Lia Bool Floats.SpecFloat.
From stdpp Require Import base list.
From S2P Require Import Prelude.

Definition f64 : Type := spec_float.

Definition f64_zero : f64 := S754_zero false.
Definition f64_neg_zero : f64 := S754_zero true.

Definition f64_add (a b : f64) : f64 := SFadd 53 1024 a b.
Definition f64_sub (a b : f64) : f64 := SFsub 53 1024 a b.
Definition f64_mul (a b : f64) : f64 := SFmul 53 1024 a b.
Definition f64_abs (a : f64) : f64 := SFabs a.
Definition f64_lt (a b : f64) : bool := SFltb a b.
Definition f64_le (a b : f64) : bool := SFleb a b.
Definition f64_eq (a b : f64) : bool := SFeqb a b.

Definition f64_is_nan (a : f64) : bool :=
  match a with S754_nan => true | _ => false end.

Definition f64_is_finite (a : f64) : bool :=
  match a with S754_zero _ | S754_finite _ _ _ => true | _ => false end.

(** [f64::max]: a NaN operand is ignored. *)
Definition f64_max (a b : f64) : f64 :=
  if f64_is_nan a then b
  else if f64_is_nan b then a
  else if f64_lt a b then b else a.

(** [Iterator::sum::<f64>()]: a left fold that starts from [-0.0]. *)
Definition f64_sum (l : list f64) : f64 := fold_left f64_add l f64_neg_zero.

(** An integer as [f64], rounded to nearest even. *)
Definition f64_of_Z (z : Z) : f64 := binary_normalize 53 1024 z 0 false.

(** The literal [1e-9]: mantissa 4835703278458517, exponent -82. *)
Definition f64_1e_9 : f64 := S754_finite false 4835703278458517 (-82).

(** Comparable values: neither operand is a NaN. *)
Definition f64_nonneg (a : f64) : bool :=
  match a with
  | S754_zero _ | S754_infinity false | S754_finite false _ _ => true
  | _ => false
  end.

(** ** Rounding never produces a NaN *)

Local Lemma shr_1_nonneg mrs : (0 <= shr_m mrs -> 0 <= shr_m (shr_1 mrs))%Z.
Proof. destruct mrs as [[|[]|] r s]; simpl; lia. Qed.

Local Lemma iter_pos_nonneg n mrs :
  (0 <= shr_m mrs -> 0 <= shr_m (SpecFloat.iter_pos shr_1 n mrs))%Z.
Proof.
  revert mrs. induction n; intros mrs H; simpl; auto using shr_1_nonneg.
Qed.

Local Lemma shr_fexp_nonneg m e l :
  (0 <= m -> 0 <= shr_m (fst (shr_fexp 53 1024 m e l)))%Z.
Proof.
  intros H. unfold shr_fexp, shr.
  assert (Hm : (0 <= shr_m (shr_record_of_loc m l))%Z) by (destruct l as [|[]]; done).
  destruct (_ - _)%Z; simpl; auto using iter_pos_nonneg.
Qed.

Local Lemma round_nearest_even_nonneg m l : (0 <= m -> 0 <= round_nearest_even m l)%Z.
Proof. destruct l as [|[]]; simpl; try lia. destruct (Z.even m); lia. Qed.

Lemma binary_round_aux_shape s m e l :
  (0 <= m)%Z ->
  match binary_round_aux 53 1024 s m e l with
  | S754_zero s' | S754_infinity s' | S754_finite s' _ _ => s' = s
  | S754_nan => False
  end.
Proof.
  intros H. unfold binary_round_aux.
  pose proof (shr_fexp_nonneg m e l H) as H1.
  destruct (shr_fexp 53 1024 m e l) as [mrs' e'].
  pose proof (shr_fexp_nonneg _ e' loc_Exact
    (round_nearest_even_nonneg _ (loc_of_shr_record mrs') H1)) as H2.
  destruct (shr_fexp _ _ _ e' loc_Exact) as [mrs'' e'']. simpl in H2.
  destruct (shr_m mrs''); [done| |lia]. by destruct (_ <=? _)%Z.
Qed.

Lemma binary_round_shape s m e :
  match binary_round 53 1024 s m e with
  | S754_zero s' | S754_infinity s' | S754_finite s' _ _ => s' = s
  | S754_nan => False
  end.
Proof.
  unfold binary_round. destruct (shl_align _ _ _) as [mz ez].
  apply binary_round_aux_shape. lia.
Qed.

Lemma binary_normalize_not_nan m e s :
  f64_is_nan (binary_normalize 53 1024 m e s) = false.
Proof.
  destruct m as [|m|m]; [done| |]; simpl.
  - pose proof (binary_round_shape false m e). by destruct (binary_round _ _ _ _ _).
  - pose proof (binary_round_shape true m e). by destruct (binary_round _ _ _ _ _).
Qed.

Lemma binary_normalize_nonneg m e :
  (0 <= m)%Z -> f64_nonneg (binary_normalize 53 1024 m e false) = true.
Proof.
  destruct m as [|m|m]; [done| |lia]. intros _. simpl.
  pose proof (binary_round_shape false m e) as H.
  destruct (binary_round _ _ _ _ _) as [| [] | | [] ]; done.
Qed.

(** ** Facts the policy engines use *)

Lemma f64_add_not_nan a b :
  f64_is_finite a = true -> f64_is_finite b = true -> f64_is_nan (f64_add a b) = false.
Proof.
  destruct a as [[]| | |], b as [[]| | |]; try done; intros _ _.
  apply binary_normalize_not_nan.
Qed.

Lemma f64_add_nonneg a b :
  f64_is_finite a = true -> f64_is_finite b = true ->
  f64_nonneg a = true -> f64_nonneg b = true -> f64_nonneg (f64_add a b) = true.
Proof.
  destruct a as [[]|[]| |[]], b as [[]|[]| |[]]; try done; intros _ _ _ _.
  apply binary_normalize_nonneg. simpl. lia.
Qed.

(** Comparisons are total on non-NaN values: [!(a > b)] is [a <= b]. *)
Lemma f64_not_lt_iff_le a b :
  f64_is_nan a = false -> f64_is_nan b = false -> (f64_lt b a = false <-> f64_le a b = true).
Proof.
  unfold f64_lt, f64_le, SFltb, SFleb.
  destruct a as [[]|[]| |[] m e], b as [[]|[]| |[] m' e']; try done; simpl; intros _ _;
    change (Pos.compare_cont Eq m' m) with (Pos.compare m' m);
    change (Pos.compare_cont Eq m m') with (Pos.compare m m');
    rewrite (Z.compare_antisym e e'), (Pos.compare_antisym m m');
    by destruct (Z.compare e e'), (Pos.compare m m').
Qed.

Lemma f64_not_lt_le a b :
  f64_is_nan a = false -> f64_is_nan b = false -> f64_lt b a = false -> f64_le a b = true.
Proof. intros Ha Hb. by apply f64_not_lt_iff_le. Qed.

Lemma f64_le_not_nan a b :
  f64_le a b = true -> f64_is_nan a = false /\ f64_is_nan b = false.
Proof. by destruct a as [[]|[]| |[]], b as [[]|[]| |[]]. Qed.

(** What is below a finite value and above zero is finite. *)
Lemma f64_le_finite a b :
  f64_le a b = true -> f64_nonneg a = true -> f64_is_finite b = true -> f64_is_finite a = true.
Proof. by destruct a as [[]|[]| |[]], b as [[]|[]| |[]]. Qed.

Lemma f64_zero_le_nonneg a : f64_le f64_zero a = f64_nonneg a.
Proof. by destruct a as [[]|[]| |[]]. Qed.

Lemma f64_le_refl a : f64_is_nan a = false -> f64_le a a = true.
Proof.
  unfold f64_le, SFleb.
  destruct a as [[]|[]| |[] m e]; simpl; try done;
    rewrite Z.compare_refl; change (Pos.compare_cont Eq m m) with (Pos.compare m m);
    by rewrite Pos.compare_refl.
Qed.

Lemma f64_eq_refl a : f64_is_nan a = false -> f64_eq a a = true.
Proof.
  unfold f64_eq, SFeqb.
  destruct a as [[]|[]| |[] m e]; simpl; try done;
    rewrite Z.compare_refl; change (Pos.compare_cont Eq m m) with (Pos.compare m m);
    by rewrite Pos.compare_refl.
Qed.

Create HintDb f64.
#[export] Hint Resolve f64_add_not_nan f64_add_nonneg f64_not_lt_le f64_le_refl : f64.
