(* ===== verification/Str.v ===== *)
(** * Rust [str] as a byte string

    A Rust [String]/[&str] is a [string] whose characters are its UTF-8 bytes,
    so [len] counts bytes, indexing is by byte, and a predicate that holds of
    ASCII characters only is tested byte by byte (every byte of a multi-byte
    character is above 0x7f). *)

From Stdlib Require Import ZArith Lia Ascii String Bool.
From stdpp Require Import base list strings pretty.
From S2P Require Import Prelude.

#[global] Arguments String.append : simpl nomatch.

(** ** Characters *)

Definition byte_of (c : ascii) : N := N_of_ascii c.

Definition in_range (lo hi : ascii) (c : ascii) : bool :=
  (byte_of lo <=? byte_of c)%N && (byte_of c <=? byte_of hi)%N.

Definition is_ascii_digit (c : ascii) : bool := in_range "0" "9" c.
Definition is_ascii_lowercase (c : ascii) : bool := in_range "a" "z" c.
Definition is_ascii_uppercase (c : ascii) : bool := in_range "A" "Z" c.
Definition is_ascii_alphabetic (c : ascii) : bool :=
  is_ascii_lowercase c || is_ascii_uppercase c.
Definition is_ascii_alphanumeric (c : ascii) : bool :=
  is_ascii_alphabetic c || is_ascii_digit c.
Definition is_ascii_hexdigit (c : ascii) : bool :=
  is_ascii_digit c || in_range "a" "f" c || in_range "A" "F" c.

Definition to_ascii_lowercase (c : ascii) : ascii :=
  if is_ascii_uppercase c then ascii_of_N (byte_of c + 32) else c.

(** ** Strings *)

Definition str_len (s : string) : Z := Z.of_nat (String.length s).

Definition is_empty (s : string) : bool :=
  match s with EmptyString => true | _ => false end.

Lemma is_empty_true s : is_empty s = true <-> s = "".
Proof. destruct s; cbn; split; congruence. Qed.

Lemma is_empty_false s : is_empty s = false <-> s <> "".
Proof. by destruct s. Qed.

Fixpoint all_bytes (p : ascii -> bool) (s : string) : bool :=
  match s with
  | EmptyString => true
  | String c s' => p c && all_bytes p s'
  end.

Fixpoint eq_ignore_ascii_case (a b : string) : bool :=
  match a, b with
  | EmptyString, EmptyString => true
  | String x a', String y b' =>
      Ascii.eqb (to_ascii_lowercase x) (to_ascii_lowercase y) && eq_ignore_ascii_case a' b'
  | _, _ => false
  end.

(** [s.strip_prefix(p)]. *)
Fixpoint strip_prefix (p s : string) : option string :=
  match p, s with
  | EmptyString, _ => Some s
  | String x p', String y s' => if Ascii.eqb x y then strip_prefix p' s' else None
  | String _ _, EmptyString => None
  end.

Definition starts_with (p s : string) : bool :=
  match strip_prefix p s with Some _ => true | None => false end.

(** [s.strip_suffix(suf)]: the shortest prefix whose remainder is [suf]. *)
Fixpoint strip_suffix (suf s : string) : option string :=
  if String.eqb s suf then Some EmptyString
  else match s with
       | EmptyString => None
       | String c s' => match strip_suffix suf s' with
                        | Some r => Some (String c r)
                        | None => None
                        end
       end.

Definition ends_with (suf s : string) : bool :=
  match strip_suffix suf s with Some _ => true | None => false end.

(** [s.split_once(pat)]: around the first occurrence of [pat].  [s.find(pat)]
    followed by the two slices is the same pair. *)
Fixpoint split_once (pat s : string) : option (string * string) :=
  match strip_prefix pat s with
  | Some rest => Some (EmptyString, rest)
  | None =>
      match s with
      | EmptyString => None
      | String c s' => match split_once pat s' with
                       | Some (l, r) => Some (String c l, r)
                       | None => None
                       end
      end
  end.

Definition contains (pat s : string) : bool :=
  match split_once pat s with Some _ => true | None => false end.

Definition contains_byte (c : ascii) (s : string) : bool :=
  negb (all_bytes (fun x => negb (Ascii.eqb x c)) s).

(** [s.split(c)] for a one-byte separator: never empty. *)
Fixpoint split_char (c : ascii) (s : string) : list string :=
  match s with
  | EmptyString => [EmptyString]
  | String x s' =>
      if Ascii.eqb x c then EmptyString :: split_char c s'
      else match split_char c s' with
           | [] => [String x EmptyString]
           | l :: ls => String x l :: ls
           end
  end.

(** [lines.join(c)]. *)
Fixpoint join_char (c : ascii) (l : list string) : string :=
  match l with
  | [] => EmptyString
  | [x] => x
  | x :: l' => String.append x (String c (join_char c l'))
  end.

Definition lf : ascii := ascii_of_N 10.
Definition cr : ascii := ascii_of_N 13.

(** [BufRead::lines]: a line ends at a line feed, which is dropped with a carriage
    return before it; bytes after the last line feed are a line as they are. *)
Definition strip_cr (s : string) : string := default s (strip_suffix (String cr "") s).

Fixpoint lines_of_parts (parts : list string) : list string :=
  match parts with
  | [] => []
  | [rest] => if is_empty rest then [] else [rest]
  | line :: parts' => strip_cr line :: lines_of_parts parts'
  end.

Definition buf_lines (s : string) : list string := lines_of_parts (split_char lf s).

(** ** UTF-8

    The well-formed byte sequences of the Unicode standard, which [str::from_utf8]
    accepts. *)
Definition byte_in (lo hi : N) (c : ascii) : bool := (lo <=? byte_of c)%N && (byte_of c <=? hi)%N.
Definition continuation (c : ascii) : bool := byte_in 0x80 0xbf c.

Fixpoint utf8 (s : string) : bool :=
  match s with
  | EmptyString => true
  | String a s1 =>
      if byte_in 0 0x7f a then utf8 s1
      else
        match s1 with
        | EmptyString => false
        | String b s2 =>
            if byte_in 0xc2 0xdf a then continuation b && utf8 s2
            else
              match s2 with
              | EmptyString => false
              | String c s3 =>
                  if byte_in 0xe0 0xef a then
                    (if byte_in 0xe0 0xe0 a then byte_in 0xa0 0xbf b
                     else if byte_in 0xed 0xed a then byte_in 0x80 0x9f b
                     else continuation b) && continuation c && utf8 s3
                  else
                    match s3 with
                    | EmptyString => false
                    | String d s4 =>
                        byte_in 0xf0 0xf4 a &&
                        (if byte_in 0xf0 0xf0 a then byte_in 0x90 0xbf b
                         else if byte_in 0xf4 0xf4 a then byte_in 0x80 0x8f b
                         else continuation b) &&
                        continuation c && continuation d && utf8 s4
                    end
              end
        end
  end.

(** ** Decimal integers *)

Definition digit_value (c : ascii) : Z := Z.of_N (byte_of c) - 48.

Fixpoint parse_digits (acc : Z) (s : string) : option Z :=
  match s with
  | EmptyString => Some acc
  | String c s' =>
      if is_ascii_digit c then parse_digits (acc * 10 + digit_value c) s' else None
  end.

(** [str::parse] at an unsigned type of maximum [max]: an optional [+], at
    least one decimal digit, no overflow. *)
Definition parse_unsigned (max : Z) (s : string) : option Z :=
  let body := match s with String "+"%char s' => s' | _ => s end in
  if is_empty body then None
  else match parse_digits 0 body with
       | Some v => if (v <=? max)%Z then Some v else None
       | None => None
       end.

(** ** White space ([char::is_whitespace], in UTF-8) *)

Definition bytes_str (l : list N) : string :=
  fold_right (fun n s => String (ascii_of_N n) s) EmptyString l.

Definition white_space : list string :=
  map bytes_str
    [[9]; [10]; [11]; [12]; [13]; [32];
     [194; 133]; [194; 160]; [225; 154; 128];
     [226; 128; 128]; [226; 128; 129]; [226; 128; 130]; [226; 128; 131];
     [226; 128; 132]; [226; 128; 133]; [226; 128; 134]; [226; 128; 135];
     [226; 128; 136]; [226; 128; 137]; [226; 128; 138];
     [226; 128; 168]; [226; 128; 169]; [226; 128; 175];
     [226; 129; 159]; [227; 128; 128]]%N.

Fixpoint first_some {A B} (f : A -> option B) (l : list A) : option B :=
  match l with
  | [] => None
  | x :: l' => match f x with Some y => Some y | None => first_some f l' end
  end.

(** One white-space character off the front (back); the fuel is the length. *)
Fixpoint trim_start_fuel (n : nat) (s : string) : string :=
  match n with
  | O => s
  | S n' => match first_some (fun w => strip_prefix w s) white_space with
            | Some s' => trim_start_fuel n' s'
            | None => s
            end
  end.

Fixpoint trim_end_fuel (n : nat) (s : string) : string :=
  match n with
  | O => s
  | S n' => match first_some (fun w => strip_suffix w s) white_space with
            | Some s' => trim_end_fuel n' s'
            | None => s
            end
  end.

Definition trim (s : string) : string :=
  let s1 := trim_start_fuel (String.length s) s in
  trim_end_fuel (String.length s1) s1.

(** [str::to_ascii_lowercase]. *)
Fixpoint ascii_lowercase (s : string) : string :=
  match s with
  | EmptyString => EmptyString
  | String c s' => String (to_ascii_lowercase c) (ascii_lowercase s')
  end.

Definition is_ascii (c : ascii) : bool := (byte_of c <? 128)%N.

(** [str::to_lowercase], by the tables of Unicode: on ASCII it is the mapping of
    the letters, and no character is mapped to or from a colon. *)
Class Lowercase := { to_lowercase : string -> string }.

Class LowercaseLaws (L : Lowercase) : Prop := {
  lowercase_ascii s : all_bytes is_ascii s = true -> to_lowercase s = ascii_lowercase s;
  lowercase_colon s : contains_byte ":" (to_lowercase s) = contains_byte ":" s
}.

(** [format!("{n}")] for an unsigned integer. *)
Definition fmt_Z (n : Z) : string := pretty n.

(** ** Lemmas *)

Lemma eq_ignore_ascii_case_refl s : eq_ignore_ascii_case s s = true.
Proof. induction s as [|c s IH]; simpl; [done|]. by rewrite Ascii.eqb_refl, IH. Qed.

Lemma eq_ignore_ascii_case_sym a b : eq_ignore_ascii_case a b = eq_ignore_ascii_case b a.
Proof.
  revert b; induction a as [|x a IH]; intros [|y b]; simpl; try done.
  by rewrite IH, Ascii.eqb_sym.
Qed.

Lemma eq_ignore_ascii_case_trans a b c :
  eq_ignore_ascii_case a b = true -> eq_ignore_ascii_case b c = true ->
  eq_ignore_ascii_case a c = true.
Proof.
  revert b c; induction a as [|x a IH]; intros [|y b] [|z c]; simpl; try done.
  rewrite !andb_true_iff, !Ascii.eqb_eq. intros [-> ?] [-> ?]. eauto.
Qed.

Lemma app_nil_r_str s : String.append s EmptyString = s.
Proof. induction s as [|c s IH]; simpl; [done|by rewrite IH]. Qed.

Lemma app_assoc_str a b c :
  String.append a (String.append b c) = String.append (String.append a b) c.
Proof. induction a as [|x a IH]; simpl; [done|by rewrite IH]. Qed.

Lemma length_app_str a b :
  String.length (String.append a b) = (String.length a + String.length b)%nat.
Proof. induction a as [|x a IH]; simpl; [done|by rewrite IH]. Qed.

Lemma strip_prefix_app p s : strip_prefix p (String.append p s) = Some s.
Proof. induction p as [|c p IH]; simpl; [done|]. by rewrite Ascii.eqb_refl. Qed.

Lemma strip_prefix_some p s r : strip_prefix p s = Some r <-> s = String.append p r.
Proof.
  split; [|intros ->; apply strip_prefix_app].
  revert s; induction p as [|c p IH]; intros s; simpl; [congruence|].
  destruct s as [|y s]; [done|]. destruct (Ascii.eqb_spec c y) as [->|]; [|done].
  intros ->%IH. done.
Qed.

Lemma strip_suffix_some suf s r :
  strip_suffix suf s = Some r -> s = String.append r suf.
Proof.
  revert r; induction s as [|c s IH]; intros r; cbn [strip_suffix].
  - destruct suf; [by intros [= <-]|done].
  - destruct (String.eqb_spec (String c s) suf) as [<-|]; [by intros [= <-]|].
    destruct (strip_suffix suf s) as [r'|] eqn:E; [|done].
    intros [= <-]. simpl. by rewrite <-(IH r').
Qed.

Lemma strip_suffix_app suf s : strip_suffix suf (String.append s suf) = Some s.
Proof.
  induction s as [|c s IH]; simpl String.append; cbn [strip_suffix].
  - destruct suf; cbn [strip_suffix]; [done|]. by rewrite String.eqb_refl.
  - destruct (String.eqb_spec (String c (String.append s suf)) suf) as [E|_].
    + apply (f_equal String.length) in E.
      cbn [String.length] in E. rewrite length_app_str in E. lia.
    + by rewrite IH.
Qed.

Lemma all_bytes_app p a b : all_bytes p (String.append a b) = all_bytes p a && all_bytes p b.
Proof. induction a as [|c a IH]; simpl; [done|]. by rewrite IH, andb_assoc. Qed.

Lemma all_bytes_impl (p q : ascii -> bool) s :
  (forall c, p c = true -> q c = true) -> all_bytes p s = true -> all_bytes q s = true.
Proof.
  intros Hpq. induction s as [|c s IH]; simpl; [done|].
  rewrite !andb_true_iff. intros [? ?]. auto.
Qed.

(** Splitting at a character is undone by joining with it. *)
Lemma utf8_app s t : utf8 s = true -> utf8 t = true -> utf8 (String.append s t) = true.
Proof.
  intros Hs Ht. remember (String.length s) as n eqn:Hn. revert s Hn Hs.
  induction n as [n IH] using lt_wf_ind. intros [|a s1] -> Hs; [done|].
  assert (Hrec : forall u, (String.length u < S (String.length s1))%nat -> utf8 u = true ->
    utf8 (String.append u t) = true) by (intros u Hu; by apply (IH _ Hu)).
  clear IH. cbn [String.append]. cbn [utf8] in *. destruct (byte_in 0 0x7f a); [apply Hrec; [lia|done]|].
  destruct s1 as [|b s2]; [done|]. cbn [String.append String.length] in *.
  destruct (byte_in 0xc2 0xdf a).
  { apply andb_prop in Hs as [-> Hs]. cbn [andb]. apply Hrec; [lia|done]. }
  destruct s2 as [|c s3]; [done|]. cbn [String.append String.length] in *.
  destruct (byte_in 0xe0 0xef a).
  { apply andb_prop in Hs as [-> Hs]. cbn [andb]. apply Hrec; [lia|done]. }
  destruct s3 as [|d s4]; [done|]. cbn [String.append String.length] in *.
  apply andb_prop in Hs as [-> Hs]. cbn [andb]. apply Hrec; [lia|done].
Qed.

Lemma split_char_cons c s : exists l ls, split_char c s = l :: ls.
Proof.
  destruct s as [|x s]; [by do 2 eexists|]. simpl.
  destruct (Ascii.eqb x c); [by do 2 eexists|].
  destruct (split_char c s); by do 2 eexists.
Qed.

Lemma join_split c s : join_char c (split_char c s) = s.
Proof.
  induction s as [|x s IH]; [done|]. simpl. destruct (split_char_cons c s) as (l & ls & E).
  rewrite E in *. destruct (Ascii.eqb_spec x c) as [->|]; simpl; [by rewrite <- IH|].
  destruct ls; simpl in *; by rewrite IH.
Qed.

Lemma split_char_app c a b :
  all_bytes (fun x => negb (Ascii.eqb x c)) a = true ->
  split_char c (String.append a (String c b)) = a :: split_char c b.
Proof.
  induction a as [|x a IH]; cbn; [by rewrite Ascii.eqb_refl|].
  destruct (Ascii.eqb x c); [done|]. cbn. by intros ->%IH.
Qed.

(** A line written with its line feed is read back first. *)
Lemma buf_lines_app a b :
  all_bytes (fun x => negb (Ascii.eqb x lf)) a = true -> strip_cr a = a ->
  buf_lines (String.append a (String lf b)) = a :: buf_lines b.
Proof.
  intros Ha Hc. unfold buf_lines. rewrite split_char_app by done. cbn [lines_of_parts].
  destruct (split_char_cons lf b) as (l & ls & ->). by rewrite Hc.
Qed.

Lemma split_char_app_parts c a b :
  split_char c (String.append a (String c b)) = (split_char c a ++ split_char c b)%list.
Proof.
  induction a as [|x a IH]; cbn; [by rewrite Ascii.eqb_refl|].
  destruct (Ascii.eqb x c); [by rewrite IH|]. rewrite IH.
  by destruct (split_char_cons c a) as (l & ls & ->).
Qed.

Lemma lines_of_parts_app p q :
  q <> [] -> lines_of_parts (p ++ q) = (map strip_cr p ++ lines_of_parts q)%list.
Proof.
  intros Hq. induction p as [|x p IH]; [done|]. cbn [app map]. rewrite <- IH.
  destruct (p ++ q)%list eqn:E; [|done]. by apply app_eq_nil in E as [_ ->].
Qed.

(** A line feed separates the lines before it from those after it. *)
Lemma buf_lines_cut a b :
  buf_lines (String.append a (String lf b)) =
  (buf_lines (String.append a (String lf "")) ++ buf_lines b)%list.
Proof.
  unfold buf_lines. rewrite !split_char_app_parts.
  destruct (split_char_cons lf b) as (l & ls & ->).
  rewrite !lines_of_parts_app by done. by rewrite app_nil_r.
Qed.

(** ** Byte order *)

Definition str_lt (a b : string) : Prop := String.compare a b = Lt.

Lemma ascii_compare_trans a b c :
  Ascii.compare a b = Lt -> Ascii.compare b c = Lt -> Ascii.compare a c = Lt.
Proof. unfold Ascii.compare. rewrite !N.compare_lt_iff. lia. Qed.

Lemma str_lt_trans a b c : str_lt a b -> str_lt b c -> str_lt a c.
Proof.
  unfold str_lt. revert b c. induction a as [|x a IH]; intros [|y b] [|z c]; simpl; try done.
  destruct (Ascii.compare x y) eqn:Exy; [|intros _|done].
  - apply Ascii.compare_eq_iff in Exy as ->.
    destruct (Ascii.compare y z); [apply IH|done|done].
  - destruct (Ascii.compare y z) eqn:Eyz; [|intros _|done].
    + apply Ascii.compare_eq_iff in Eyz as ->. by rewrite Exy.
    + by rewrite (ascii_compare_trans _ _ _ Exy Eyz).
Qed.

Lemma str_lt_irrefl a : ~ str_lt a a.
Proof.
  unfold str_lt. induction a as [|x a IH]; simpl; [done|].
  unfold Ascii.compare. by rewrite N.compare_refl.
Qed.

Lemma str_compare_eq a b : String.compare a b = Eq <-> a = b.
Proof.
  split; [apply String.compare_eq_iff|intros ->].
  induction b as [|x b IH]; simpl; [done|]. unfold Ascii.compare. by rewrite N.compare_refl.
Qed.

Lemma str_compare_gt a b : String.compare a b = Gt <-> str_lt b a.
Proof. unfold str_lt. rewrite String.compare_antisym. by destruct (String.compare b a). Qed.

Lemma str_lt_ne a b : str_lt a b -> a <> b.
Proof. intros H ->. by apply str_lt_irrefl in H. Qed.

(** ** Splitting at a character *)

Lemma contains_byte_cons c x s : contains_byte c (String x s) = Ascii.eqb x c || contains_byte c s.
Proof. unfold contains_byte. cbn. by rewrite negb_andb, negb_involutive. Qed.

Lemma contains_byte_app c a b : contains_byte c (a +:+ b) = contains_byte c a || contains_byte c b.
Proof. unfold contains_byte. by rewrite all_bytes_app, negb_andb. Qed.

Lemma split_char_lacks c s : contains_byte c s = false -> split_char c s = [s].
Proof.
  induction s as [|x s IH]; [done|]. rewrite contains_byte_cons. intros [Hx Hs]%orb_false_iff.
  cbn [split_char]. by rewrite Hx, (IH Hs).
Qed.

Lemma split_join_char c ls :
  ls <> [] -> Forall (fun l => contains_byte c l = false) ls -> split_char c (join_char c ls) = ls.
Proof.
  intros Hne H. induction H as [|l ls Hl H IH]; [done|].
  destruct ls as [|l' ls]; [by apply split_char_lacks|].
  change (join_char c (l :: l' :: ls)) with (l +:+ String c (join_char c (l' :: ls))).
  specialize (IH ltac:(done)). revert IH. generalize (join_char c (l' :: ls)). intros t Ht. clear Hne.
  induction l as [|x l IHl].
  - cbn [String.append split_char]. by rewrite Ascii.eqb_refl, Ht.
  - rewrite contains_byte_cons in Hl. apply orb_false_iff in Hl as [Hx Hl].
    cbn [String.append split_char]. by rewrite Hx, (IHl Hl).
Qed.

(** A line without carriage returns is read as it was written. *)
Lemma buf_lines_row line rest : contains_byte lf line = false -> contains_byte cr line = false ->
  buf_lines (line +:+ String lf rest) = line :: buf_lines rest.
Proof.
  intros Hlf Hcr. apply buf_lines_app; [by apply negb_false_iff|].
  unfold strip_cr. destruct (strip_suffix _ _) as [x|] eqn:E; [exfalso|done].
  apply strip_suffix_some in E as ->. rewrite contains_byte_app in Hcr. by rewrite orb_true_r in Hcr.
Qed.

Lemma split_char_parts c s : Forall (fun l => contains_byte c l = false) (split_char c s).
Proof.
  induction s as [|x s IH]; [by repeat constructor|]. cbn [split_char]. destruct (Ascii.eqb x c) eqn:E; [by constructor|].
  destruct (split_char c s) as [|l ls]; [by repeat constructor; rewrite contains_byte_cons, E|].
  apply Forall_cons in IH as [H1 H2]. constructor; [|done]. by rewrite contains_byte_cons, E.
Qed.

Lemma split_char_lacking c d s : contains_byte d s = false -> Forall (fun l => contains_byte d l = false) (split_char c s).
Proof.
  induction s as [|x s IH]; [by repeat constructor|]. rewrite contains_byte_cons. intros [Hx Hs]%orb_false_iff.
  specialize (IH Hs). cbn [split_char]. destruct (Ascii.eqb x c); [by constructor|].
  destruct (split_char c s) as [|l ls]; [by repeat constructor; rewrite contains_byte_cons, Hx|].
  apply Forall_cons in IH as [H1 H2]. constructor; [|done]. by rewrite contains_byte_cons, Hx.
Qed.

Lemma strip_cr_lacks l : contains_byte cr l = false -> strip_cr l = l.
Proof.
  intros Hcr. unfold strip_cr. destruct (strip_suffix _ _) as [x|] eqn:E; [exfalso|done].
  apply strip_suffix_some in E as ->. rewrite contains_byte_app in Hcr. by rewrite orb_true_r in Hcr.
Qed.

(** The lines of a text without carriage returns hold neither of the two bytes. *)
Lemma buf_lines_plain s : contains_byte cr s = false ->
  Forall (fun l => contains_byte lf l = false /\ contains_byte cr l = false) (buf_lines s).
Proof.
  intros Hs. pose proof (split_char_parts lf s) as H1. pose proof (split_char_lacking lf cr s Hs) as H2.
  unfold buf_lines. induction (split_char lf s) as [|l ls IH]; [constructor|].
  apply Forall_cons in H1 as [Ha H1]. apply Forall_cons in H2 as [Hb H2]. specialize (IH H1 H2).
  cbn [lines_of_parts]. destruct ls as [|l' ls]; [destruct (is_empty l); by repeat constructor|].
  constructor; [by rewrite strip_cr_lacks|exact IH].
Qed.
