(* ===== verification/Decimal.v ===== *)
(** * Decimal integers and white space

    Rust's [Display] of an unsigned integer and [str::parse] are inverse to each
    other: the printed form has digits only and reads back.  A text is trimmed exactly
    when it has no white space at either end. *)

From Stdlib Require Import ZArith Lia Ascii String Bool.
From stdpp Require Import base list strings pretty.
From S2P Require Import Prelude Str.

Local Open Scope oc_scope.

(** ** Printed integers read back *)

Lemma digit_char (n : N) : (n < 10)%N ->
  is_ascii_digit (pretty_N_char n) = true /\ digit_value (pretty_N_char n) = Z.of_N n.
Proof.
  intros H. unfold pretty_N_char. destruct n as [|p]; [done|].
  do 4 (try destruct p as [p|p|]); try done; lia.
Qed.

Lemma parse_pretty_go (x : N) : forall s, exists k, (0 <= k)%Z /\
  all_bytes is_ascii_digit (pretty_N_go x s) = all_bytes is_ascii_digit s /\
  forall acc, parse_digits acc (pretty_N_go x s) = parse_digits (acc * 10 ^ k + Z.of_N x) s.
Proof.
  induction (N.lt_wf_0 x) as [x _ IH]. intros s. destruct (N.eq_dec x 0%N) as [->|Hx].
  - exists 0%Z. split_and!; [done|by rewrite pretty_N_go_0|]. intros acc. rewrite pretty_N_go_0. f_equal. lia.
  - rewrite pretty_N_go_step by lia.
    destruct (IH (x `div` 10)%N ltac:(apply N.div_lt; lia) (String (pretty_N_char (x `mod` 10)) s))
      as (k & Hk & Hd & Hp).
    destruct (digit_char (x `mod` 10)%N) as [Hc Hv]; [apply N.mod_lt; lia|].
    exists (k + 1)%Z. split_and!; [lia|by rewrite Hd; cbn [all_bytes]; rewrite Hc|].
    intros acc. rewrite Hp. cbn [parse_digits]. rewrite Hc, Hv, Z.pow_add_r, N2Z.inj_div, N2Z.inj_mod by lia.
    f_equal. rewrite (Z.div_mod (Z.of_N x) 10) at 3 by lia. change (Z.of_N 10) with 10%Z. ring.
Qed.

Lemma pretty_go_nonempty (x : N) s : s <> "" -> pretty_N_go x s <> "".
Proof.
  revert s. induction (N.lt_wf_0 x) as [x _ IH]. intros s Hs.
  destruct (N.eq_dec x 0%N) as [->|Hx]; [by rewrite pretty_N_go_0|].
  rewrite pretty_N_go_step by lia. apply IH; [apply N.div_lt; lia|done].
Qed.

(** The printed form of an unsigned integer. *)
Lemma fmt_Z_spec n : (0 <= n)%Z ->
  fmt_Z n <> "" /\ all_bytes is_ascii_digit (fmt_Z n) = true /\ parse_digits 0 (fmt_Z n) = Some n.
Proof.
  intros Hn. unfold fmt_Z. destruct n as [|p|]; [by vm_compute| |lia].
  change (pretty (Z.pos p)) with (pretty_N_go (N.pos p) "").
  destruct (parse_pretty_go (N.pos p) "") as (k & Hk & Hd & Hp). split_and!.
  - rewrite pretty_N_go_step by lia. by apply pretty_go_nonempty.
  - by rewrite Hd.
  - rewrite Hp. cbn [parse_digits]. f_equal.
Qed.

Lemma fmt_Z_head n : (0 <= n)%Z -> exists c s, fmt_Z n = String c s /\ is_ascii_digit c = true.
Proof.
  intros (He & Hd & _)%fmt_Z_spec. destruct (fmt_Z n) as [|c s]; [done|]. exists c, s. split; [done|].
  by apply andb_true_iff in Hd as [? _].
Qed.

Lemma parse_digits_unsigned max c s :
  is_ascii_digit c = true ->
  parse_unsigned max (String c s) =
    match parse_digits 0 (String c s) with
    | Some v => if (v <=? max)%Z then Some v else None
    | None => None
    end.
Proof.
  intros Hc. destruct c as [[] [] [] [] [] [] [] []]; try (vm_compute in Hc; discriminate Hc); reflexivity.
Qed.

(** [n.to_string().parse()]. *)
Lemma parse_fmt_Z max n : (0 <= n <= max)%Z -> parse_unsigned max (fmt_Z n) = Some n.
Proof.
  intros [H0 Hm]. destruct (fmt_Z_head n H0) as (c & s & Hs & Hc). rewrite Hs, parse_digits_unsigned, <- Hs by done.
  destruct (fmt_Z_spec n H0) as (_ & _ & ->). by destruct (Z.leb_spec n max); [|lia].
Qed.

Lemma fmt_Z_inj a b : (0 <= a)%Z -> (0 <= b)%Z -> fmt_Z a = fmt_Z b -> a = b.
Proof.
  intros (_ & _ & Ha)%fmt_Z_spec (_ & _ & Hb)%fmt_Z_spec H. rewrite H in Ha. congruence.
Qed.

Lemma parse_unsigned_range max s v : parse_unsigned max s = Some v -> (v <= max)%Z.
Proof.
  unfold parse_unsigned. destruct (is_empty _); [done|]. destruct (parse_digits _ _) as [x|]; [|done].
  destruct (Z.leb_spec x max); [|done]. by intros [= <-].
Qed.

(** A string of digits has no byte of another kind. *)
Lemma digits_lack c s : is_ascii_digit c = false -> all_bytes is_ascii_digit s = true -> contains_byte c s = false.
Proof.
  intros Hc Hs. unfold contains_byte. apply negb_false_iff. apply (all_bytes_impl is_ascii_digit); [|done].
  intros x Hx. apply negb_true_iff, Ascii.eqb_neq. intros ->. congruence.
Qed.

(** ** White space *)

Fixpoint last_byte (s : string) : option ascii :=
  match s with
  | EmptyString => None
  | String c EmptyString => Some c
  | String _ s' => last_byte s'
  end.

Lemma last_byte_app a b : b <> "" -> last_byte (a +:+ b) = last_byte b.
Proof.
  intros Hb. induction a as [|c a IH]; [done|]. cbn [String.append last_byte]. rewrite IH.
  destruct a; [by destruct b|done].
Qed.

Lemma last_byte_digit s : s <> "" -> all_bytes is_ascii_digit s = true ->
  exists c, last_byte s = Some c /\ is_ascii_digit c = true.
Proof.
  induction s as [|c s IH]; [done|]. intros _ [Hc Hs]%andb_true_iff.
  destruct s as [|c' s]; [by exists c|]. by apply IH.
Qed.

(** White space has no digit at either end, and a space only as the space. *)
Definition foreign_to_digits (w : string) : bool :=
  match w, last_byte w with
  | String c _, Some c' => negb (is_ascii_digit c) && negb (is_ascii_digit c') &&
                           (negb (contains_byte " " w) || String.eqb w " ")
  | _, _ => false
  end.

Lemma white_space_foreign w : In w white_space -> foreign_to_digits w = true.
Proof.
  assert (H : forallb foreign_to_digits white_space = true) by (vm_compute; reflexivity).
  rewrite forallb_forall in H. apply H.
Qed.

Lemma first_some_find {A B} (f : A -> option B) l y : first_some f l = Some y -> exists x, In x l /\ f x = Some y.
Proof.
  induction l as [|x l IH]; [done|]. cbn. destruct (f x) as [z|] eqn:E.
  - intros [= ->]. exists x. auto.
  - intros (x' & Hx & Hf)%IH. exists x'. auto.
Qed.

Lemma first_some_no {A B} (f : A -> option B) l : (forall x, In x l -> f x = None) -> first_some f l = None.
Proof. induction l as [|x l IH]; [done|]. intros H. cbn. rewrite H by by left. apply IH. intros y Hy. apply H. by right. Qed.

Definition space_first (s : string) : option string := first_some (fun w => strip_prefix w s) white_space.
Definition space_last (s : string) : option string := first_some (fun w => strip_suffix w s) white_space.

Lemma space_first_shorter s r : space_first s = Some r -> (String.length r < String.length s)%nat.
Proof.
  intros (w & Hw%white_space_foreign & Hs)%first_some_find. apply strip_prefix_some in Hs as ->.
  rewrite length_app_str. destruct w; [done|]. cbn. lia.
Qed.

Lemma space_last_shorter s r : space_last s = Some r -> (String.length r < String.length s)%nat.
Proof.
  intros (w & Hw%white_space_foreign & Hs)%first_some_find. apply strip_suffix_some in Hs as ->.
  rewrite length_app_str. destruct w; [done|]. cbn. lia.
Qed.

Lemma trim_start_length n s : (String.length (trim_start_fuel n s) <= String.length s)%nat.
Proof.
  revert s. induction n as [|n IH]; intros s; [cbn; lia|].
  change (trim_start_fuel (S n) s) with (match space_first s with Some s' => trim_start_fuel n s' | None => s end).
  destruct (space_first s) as [r|] eqn:E; [|lia]. apply space_first_shorter in E. specialize (IH r). lia.
Qed.

Lemma trim_end_length n s : (String.length (trim_end_fuel n s) <= String.length s)%nat.
Proof.
  revert s. induction n as [|n IH]; intros s; [cbn; lia|].
  change (trim_end_fuel (S n) s) with (match space_last s with Some s' => trim_end_fuel n s' | None => s end).
  destruct (space_last s) as [r|] eqn:E; [|lia]. apply space_last_shorter in E. specialize (IH r). lia.
Qed.

Lemma trim_start_fixed n s : space_first s = None -> trim_start_fuel n s = s.
Proof.
  intros H. destruct n as [|n]; [done|].
  change (trim_start_fuel (S n) s) with (match space_first s with Some s' => trim_start_fuel n s' | None => s end).
  by rewrite H.
Qed.

Lemma trim_end_fixed n s : space_last s = None -> trim_end_fuel n s = s.
Proof.
  intros H. destruct n as [|n]; [done|].
  change (trim_end_fuel (S n) s) with (match space_last s with Some s' => trim_end_fuel n s' | None => s end).
  by rewrite H.
Qed.

Lemma trim_start_moves n s r : space_first s = Some r -> trim_start_fuel (S n) s = trim_start_fuel n r.
Proof.
  intros H. change (trim_start_fuel (S n) s) with (match space_first s with Some s' => trim_start_fuel n s' | None => s end).
  by rewrite H.
Qed.

Lemma trim_end_moves n s r : space_last s = Some r -> trim_end_fuel (S n) s = trim_end_fuel n r.
Proof.
  intros H. change (trim_end_fuel (S n) s) with (match space_last s with Some s' => trim_end_fuel n s' | None => s end).
  by rewrite H.
Qed.

(** A text is trimmed exactly when no white space is at either end. *)
Lemma trim_id s : trim s = s <-> space_first s = None /\ space_last s = None.
Proof.
  unfold trim. cbv zeta. split.
  - destruct (space_first s) as [r|] eqn:Hf.
    + intros H. exfalso. pose proof (space_first_shorter s r Hf) as Hr. apply (f_equal String.length) in H.
      destruct s as [|c s']; [done|]. cbn [String.length] in *. rewrite (trim_start_moves _ _ r Hf) in H.
      pose proof (trim_start_length (String.length s') r).
      pose proof (trim_end_length (String.length (trim_start_fuel (String.length s') r))
        (trim_start_fuel (String.length s') r)). lia.
    + rewrite (trim_start_fixed _ s Hf). destruct (space_last s) as [r|] eqn:Hl; [|done].
      intros H. exfalso. pose proof (space_last_shorter s r Hl) as Hr. apply (f_equal String.length) in H.
      destruct s as [|c s']; [done|]. cbn [String.length] in *. rewrite (trim_end_moves _ _ r Hl) in H.
      pose proof (trim_end_length (String.length s') r). lia.
  - intros [Hf Hl]. by rewrite (trim_start_fixed _ s Hf), trim_end_fixed.
Qed.

Lemma strip_prefix_cases w p c t :
  (exists r, strip_prefix w (p +:+ String c t) = Some r) ->
  (exists r, strip_prefix w p = Some r) \/ exists u, w = p +:+ String c u.
Proof.
  revert w. induction p as [|x p IH]; intros [|y w] [r Hr]; cbn in *.
  - left. by eexists.
  - right. destruct (Ascii.eqb_spec y c) as [->|]; [|done]. by exists w.
  - left. by eexists.
  - destruct (Ascii.eqb y x) eqn:E; [|done]. apply Ascii.eqb_eq in E as ->.
    destruct (IH w ltac:(by eexists)) as [?|[u ->]]; [by left|right; by exists u].
Qed.

(** A trimmed text stays trimmed with a space and digits after it. *)
Lemma trim_padded p t : p <> "" -> trim p = p -> t <> "" -> all_bytes is_ascii_digit t = true ->
  trim (p +:+ String " " t) = p +:+ String " " t.
Proof.
  intros Hp [Hf _]%trim_id Ht Hd. apply trim_id. split; apply first_some_no; intros w Hw.
  - destruct (strip_prefix w (p +:+ String " " t)) as [r|] eqn:E; [exfalso|done].
    destruct (strip_prefix_cases w p " " t ltac:(by eexists)) as [[r' Hr']|[u ->]].
    + clear -Hf Hw Hr'. unfold space_first in Hf. revert Hf Hw. induction white_space as [|v l IH]; [done|].
      cbn. destruct (strip_prefix v p) eqn:Hv; [done|]. intros Hl [->|Hin]; [congruence|by apply IH].
    + apply white_space_foreign in Hw. unfold foreign_to_digits in Hw. destruct p as [|x p]; [done|].
      cbn [String.append] in Hw. rewrite contains_byte_cons, contains_byte_app, contains_byte_cons in Hw.
      rewrite Ascii.eqb_refl, !orb_true_r in Hw. cbn [orb negb] in Hw.
      destruct (last_byte _); [|done].
      apply andb_true_iff in Hw as [_ [= -> Hu]%String.eqb_eq]. by destruct p.
  - destruct (strip_suffix w (p +:+ String " " t)) as [r|] eqn:E; [exfalso|done].
    apply strip_suffix_some in E. apply white_space_foreign in Hw. unfold foreign_to_digits in Hw.
    destruct w as [|x w]; [done|]. destruct (last_byte (String x w)) as [c|] eqn:Hc; [|done].
    destruct (last_byte_digit t Ht Hd) as (c' & Hc' & Hdig).
    apply (f_equal last_byte) in E. rewrite !last_byte_app in E by done.
    change (String " " t) with (String " " "" +:+ t) in E. rewrite last_byte_app in E by done.
    assert (c = c') as -> by congruence. rewrite Hdig in Hw. by rewrite andb_false_r in Hw.
Qed.

Lemma digits_no_space c t : is_ascii_digit c = true -> space_first (String c t) = None.
Proof.
  intros Hc. apply first_some_no. intros w Hw%white_space_foreign. unfold foreign_to_digits in Hw.
  destruct w as [|x w]; [done|]. cbn. destruct (Ascii.eqb_spec x c) as [->|]; [|done].
  rewrite Hc in Hw. by destruct (last_byte _).
Qed.

Lemma trim_digits t : all_bytes is_ascii_digit t = true -> trim t = t.
Proof.
  intros Hd. destruct t as [|c t]; [done|]. apply trim_id. split.
  - apply digits_no_space. by apply andb_true_iff in Hd as [? _].
  - apply first_some_no. intros w Hw. destruct (strip_suffix w _) as [r|] eqn:E; [exfalso|done].
    apply strip_suffix_some in E. apply white_space_foreign in Hw. unfold foreign_to_digits in Hw.
    destruct w as [|x w]; [done|]. destruct (last_byte (String x w)) as [b|] eqn:Hb; [|done].
    destruct (last_byte_digit (String c t) ltac:(done) Hd) as (c' & Hc' & Hdig).
    apply (f_equal last_byte) in E. rewrite last_byte_app in E by done.
    assert (b = c') as -> by congruence. rewrite Hdig in Hw. by rewrite andb_false_r in Hw.
Qed.

(** ** Padded integers *)

Local Open Scope Z_scope.

Fixpoint zeros (n : nat) : string := match n with O => "" | S n' => String "0" (zeros n') end.

(** [format!("{:0width$}", n)]. *)
Definition fmt_padded (width : Z) (n : Z) : string :=
  let s := fmt_Z n in zeros (Z.to_nat (width - str_len s)) +:+ s.

Lemma pretty_go_length k (x : N) s : (Z.of_N x < 10 ^ Z.of_nat k) ->
  (String.length (pretty_N_go x s) <= k + String.length s)%nat.
Proof.
  revert x s. induction k as [|k IH]; intros x s Hx.
  - replace x with 0%N by lia. rewrite pretty_N_go_0. lia.
  - destruct (N.eq_dec x 0%N) as [->|Hn]; [rewrite pretty_N_go_0; lia|].
    rewrite pretty_N_go_step by lia. etrans; [apply IH|cbn; lia].
    rewrite N2Z.inj_div. change (Z.of_N 10) with 10. rewrite Nat2Z.inj_succ, Z.pow_succ_r in Hx by lia.
    by apply Z.div_lt_upper_bound.
Qed.

Lemma fmt_Z_length k n : 1 <= k -> 0 <= n < 10 ^ k -> str_len (fmt_Z n) <= k.
Proof.
  intros Hk Hn. unfold str_len, fmt_Z. destruct n as [|p|]; [by cbn|..|lia].
  change (pretty (Z.pos p)) with (pretty_N_go (N.pos p) "").
  pose proof (pretty_go_length (Z.to_nat k) (N.pos p) "") as H. cbn [String.length] in H. rewrite Z2Nat.id in H by lia. lia.
Qed.

Lemma zeros_digits n s : parse_digits 0 (zeros n +:+ s) = parse_digits 0 s /\ String.length (zeros n) = n /\
  all_bytes is_ascii_digit (zeros n) = true.
Proof.
  induction n as [|n (IH1 & IH2 & IH3)]; [done|]. cbn [zeros String.append parse_digits String.length all_bytes].
  change (0 * 10 + digit_value "0") with 0. by rewrite IH1, IH2, IH3.
Qed.

(** A code is its digits, padded. *)
Lemma fmt_padded_spec k n : 1 <= k -> 0 <= n < 10 ^ k ->
  str_len (fmt_padded k n) = k /\ all_bytes is_ascii_digit (fmt_padded k n) = true /\ parse_digits 0 (fmt_padded k n) = Some n.
Proof.
  intros Hk Hn. pose proof (fmt_Z_length k n Hk Hn) as Hl. destruct (fmt_Z_spec n ltac:(lia)) as (_ & Hd & Hp).
  unfold fmt_padded. cbv zeta. destruct (zeros_digits (Z.to_nat (k - str_len (fmt_Z n))) (fmt_Z n)) as (H1 & H2 & H3).
  split_and!; [|by rewrite all_bytes_app, H3, Hd|by rewrite H1].
  unfold str_len in *. rewrite length_app_str, H2. lia.
Qed.
