(* ===== verification/Files.v ===== *)
(** * Atomic file replacement

    [write_atomic] and [unique_tmp_path] of [crates/oc-core/src/paths.rs], and
    the create-write-sync-rename sequence that policy persistence shares with
    it.  The disk is a finite map; an operation is the list of the states the
    disk goes through, current one last, so a crash leaves any of them. *)

From Stdlib Require Import ZArith Lia String.
From stdpp Require Import base list strings gmap.
From S2P Require Import Prelude Str.

Local Open Scope oc_scope.

(** A path: parent directory and final component. *)
Abbreviation Path := (option string * option string)%type.

Record File := { file_mode : Z; file_content : string }.

Abbreviation FS := (gmap Path File).

(** 0600. *)
Definition MODE_PRIVATE_FILE : Z := 384.

(** [unique_tmp_path], for the pid, time and sequence number it reads. *)
Definition unique_tmp_path (path : Path) (pid nanos seq : Z) : Path :=
  let name := default "onecipher" path.2 in
  (path.1, Some (name +:+ "." +:+ fmt_Z pid +:+ "." +:+ fmt_Z nanos +:+ "."
                      +:+ fmt_Z seq +:+ ".tmp")).

Lemma unique_tmp_path_ne path pid nanos seq : unique_tmp_path path pid nanos seq <> path.
Proof.
  destruct path as [d [n|]]; unfold unique_tmp_path; simpl; [|done].
  intros [= H]. apply (f_equal String.length) in H. rewrite !length_app_str in H.
  simpl in H. lia.
Qed.

(** The deterministic name of earlier versions, removed before writing. *)
Definition leftover_tmp_path (path : Path) : Path :=
  (path.1, Some ("." +:+ default "onecipher" path.2 +:+ ".tmp")).

Lemma leftover_tmp_path_ne path : leftover_tmp_path path <> path.
Proof.
  destruct path as [d [n|]]; unfold leftover_tmp_path; simpl; [|done].
  intros [= H]. apply (f_equal String.length) in H.
  cbn [String.length] in H. rewrite !length_app_str in H. simpl in H. lia.
Qed.

(** The state an operation ends in is one it goes through. *)
Lemma last_in {A} (l : list A) d : is_nil l = false -> default d (last l) ∈ l.
Proof.
  intros Hl. destruct (last l) as [x|] eqn:E; [|by apply last_None in E as ->].
  apply last_Some in E as (l' & ->). apply elem_of_app. right. by apply list_elem_of_singleton.
Qed.

Section Files.
Context {io_error : Type}.

(** Which system call of the sequence fails, and how far the failing write got. *)
Record WriteFaults := {
  open_err : option io_error;
  exists_err : io_error;
  write_err : option (string * io_error);
  sync_err : option io_error;
  rename_err : option io_error;
  remove_fails : bool
}.

(** Create [tmp] exclusively with its mode, write, sync, rename onto [path]. *)
Definition create_write_rename (w : WriteFaults) (mode : Z) (contents : string)
    (path tmp : Path) (d : FS) : result io_error unit * list FS :=
  match d !! tmp with
  | Some _ => (Err (exists_err w), [d])
  | None =>
    match open_err w with
    | Some e => (Err e, [d])
    | None =>
      let d1 := <[tmp := {| file_mode := mode; file_content := "" |}]> d in
      match write_err w with
      | Some (partial, e) =>
          (Err e, [d; d1; <[tmp := {| file_mode := mode; file_content := partial |}]> d])
      | None =>
        let file := {| file_mode := mode; file_content := contents |} in
        let d2 := <[tmp := file]> d in
        match sync_err w, rename_err w with
        | Some e, _ | None, Some e => (Err e, [d; d1; d2])
        | None, None => (Ok tt, [d; d1; d2; <[path := file]> (delete tmp d2)])
        end
      end
    end
  end.

(** The sequence, and the removal of [tmp] when it fails. *)
Definition replace_file (w : WriteFaults) (mode : Z) (contents : string) (path tmp : Path) (d : FS)
  : result io_error unit * list FS :=
  match create_write_rename w mode contents path tmp d with
  | (Ok _, trace) => (Ok tt, trace)
  | (Err e, trace) =>
      let cur := default d (last trace) in
      (Err e, trace ++ [if remove_fails w then cur else delete tmp cur])
  end.

Context (no_parent : Path -> io_error).

(** [write_atomic]; the mode of the parent directory is not in the map. *)
Definition write_atomic (create_dir_all_err : option io_error) (w : WriteFaults)
    (path : Path) (contents : string) (mode pid nanos seq : Z) (d : FS)
  : result io_error unit * list FS :=
  match path.1 with
  | None => (Err (no_parent path), [d])
  | Some _ =>
      match create_dir_all_err with
      | Some e => (Err e, [d])
      | None =>
          let d := delete (leftover_tmp_path path) d in
          replace_file w mode contents path (unique_tmp_path path pid nanos seq) d
      end
  end.

Definition write_atomic_private (create_dir_all_err : option io_error) (w : WriteFaults)
    (path : Path) (contents : string) (pid nanos seq : Z) (d : FS)
  : result io_error unit * list FS :=
  write_atomic create_dir_all_err w path contents MODE_PRIVATE_FILE pid nanos seq d.

(** ** Atomicity *)

(** What [path] may hold in a state of a replacement: what it held, or the whole
    new file. *)
Definition old_or_new (d : FS) (path : Path) (mode : Z) (contents : string) (d' : FS) : Prop :=
  d' !! path = d !! path \/
  d' !! path = Some {| file_mode := mode; file_content := contents |}.

(** The result and trace of an atomic replacement. *)
Definition replaced (d : FS) (path : Path) (mode : Z) (contents : string)
    (o : result io_error unit * list FS) : Prop :=
  let '(r, trace) := o in
  Forall (old_or_new d path mode contents) trace /\
  let final := default d (last trace) in
  match r with
  | Err _ => final !! path = d !! path
  | Ok _ => final !! path = Some {| file_mode := mode; file_content := contents |}
  end.

Lemma replace_file_replaced w mode contents path tmp d :
  tmp <> path -> replaced d path mode contents (replace_file w mode contents path tmp d).
Proof.
  intros Hne. unfold replace_file, create_write_rename, replaced, old_or_new.
  destruct (d !! tmp) as [f0|];
    [|destruct (open_err w);
      [|destruct (write_err w) as [[partial e]|];
        [|destruct (sync_err w); [|destruct (rename_err w)]]]];
    simpl; destruct (remove_fails w); simpl; rewrite ?Forall_cons, ?Forall_nil;
    split_and!; try done; try (left; by simplify_map_eq); try (right; by simplify_map_eq);
    by simplify_map_eq.
Qed.

Lemma replace_file_clean w mode contents path tmp d u trace :
  tmp <> path -> replace_file w mode contents path tmp d = (Ok u, trace) ->
  default d (last trace) !! tmp = None.
Proof.
  intros Hne. unfold replace_file, create_write_rename.
  destruct (d !! tmp); [done|]. destruct (open_err w); [done|].
  destruct (write_err w) as [[? ?]|]; [done|]. destruct (sync_err w); [done|].
  destruct (rename_err w); [done|]. intros [= _ <-]. simpl. by simplify_map_eq.
Qed.

Lemma write_atomic_replaced dir_err w path contents mode pid nanos seq d :
  replaced d path mode contents (write_atomic dir_err w path contents mode pid nanos seq d).
Proof.
  unfold write_atomic. destruct path.1 eqn:Hp; [|split; [by repeat constructor; left|done]].
  destruct dir_err; [split; [by repeat constructor; left|done]|].
  pose proof (replace_file_replaced w mode contents path (unique_tmp_path path pid nanos seq)
    (delete (leftover_tmp_path path) d) (unique_tmp_path_ne path pid nanos seq)) as H.
  pose proof (leftover_tmp_path_ne path) as Hne.
  unfold replaced, old_or_new in *. destruct (replace_file _ _ _ _ _ _) as [r trace].
  rewrite lookup_delete_ne in H by done. destruct H as [Hall Hfin]. split; [done|].
  destruct (last trace) eqn:Hl; [done|]. simpl in *. destruct r; by rewrite lookup_delete_ne in Hfin.
Qed.

Lemma write_atomic_states dir_err w path contents mode pid nanos seq d :
  is_nil (write_atomic dir_err w path contents mode pid nanos seq d).2 = false.
Proof.
  unfold write_atomic. destruct path.1, dir_err; try done. unfold replace_file.
  destruct (create_write_rename _ _ _ _ _ _) as [[]  [|]] eqn:H; try done.
  unfold create_write_rename in H. by repeat (case_match; try done).
Qed.

(** ** The rest of the disk

    Both temporary names end in [.tmp]: a write leaves every other file that does
    not end so as it is. *)
Lemma ends_with_iff suf s : ends_with suf s = true <-> exists p, s = p +:+ suf.
Proof.
  unfold ends_with. split.
  - destruct (strip_suffix suf s) as [p|] eqn:H; [|done]. intros _. exists p. by apply strip_suffix_some.
  - intros [p ->]. by rewrite strip_suffix_app.
Qed.

Definition durable (p : Path) : Prop := ends_with ".tmp" (default "" p.2) = false.

#[export] Instance durable_dec p : Decision (durable p).
Proof. unfold durable. apply _. Defined.

Lemma durable_ne_tmp q path pid nanos seq : durable q -> q <> unique_tmp_path path pid nanos seq.
Proof.
  intros Hd ->. unfold durable, unique_tmp_path in Hd. cbn [snd default] in Hd.
  rewrite <- not_true_iff_false in Hd. apply Hd, ends_with_iff.
  eexists. by rewrite !app_assoc_str.
Qed.

Lemma durable_ne_leftover q path : durable q -> q <> leftover_tmp_path path.
Proof.
  intros Hd ->. unfold durable, leftover_tmp_path in Hd. cbn [snd default] in Hd.
  rewrite <- not_true_iff_false in Hd. apply Hd, ends_with_iff.
  eexists. by rewrite !app_assoc_str.
Qed.

(** Every state of an operation agrees with [d] at [q]. *)
Definition leaves {R : Type} (q : Path) (d : FS) (o : R * list FS) : Prop :=
  Forall (fun d' => d' !! q = d !! q) o.2.

Lemma replace_file_leaves w mode contents path tmp d q :
  q <> path -> q <> tmp -> leaves q d (replace_file w mode contents path tmp d).
Proof.
  intros Hp Ht. unfold leaves, replace_file, create_write_rename.
  destruct (d !! tmp) as [f0|];
    [|destruct (open_err w);
      [|destruct (write_err w) as [[partial e]|];
        [|destruct (sync_err w); [|destruct (rename_err w)]]]];
    simpl; destruct (remove_fails w); simpl; rewrite ?Forall_cons, ?Forall_nil;
    split_and!; try done; by simplify_map_eq.
Qed.

Lemma write_atomic_leaves dir_err w path contents mode pid nanos seq d q :
  q <> path -> durable q -> leaves q d (write_atomic dir_err w path contents mode pid nanos seq d).
Proof.
  intros Hp Hd. unfold write_atomic. destruct path.1 eqn:?; [|by repeat constructor].
  destruct dir_err; [by repeat constructor|].
  pose proof (replace_file_leaves w mode contents path (unique_tmp_path path pid nanos seq)
    (delete (leftover_tmp_path path) d) q Hp (durable_ne_tmp q path pid nanos seq Hd)) as H.
  unfold leaves in *. pose proof (durable_ne_leftover q path Hd).
  by rewrite lookup_delete_ne in H by congruence.
Qed.

Lemma write_private_leaves dir_err w path contents pid nanos seq d q :
  q <> path -> durable q -> leaves q d (write_atomic_private dir_err w path contents pid nanos seq d).
Proof. apply write_atomic_leaves. Qed.

Lemma leaves_final {R : Type} (q : Path) (d : FS) (o : R * list FS) : leaves q d o -> default d (last o.2) !! q = d !! q.
Proof.
  unfold leaves. intros H. destruct (last o.2) as [d'|] eqn:Hl; [|done].
  apply last_Some in Hl as (l & Hl). rewrite Hl in H. apply Forall_app in H as [_ H].
  by apply Forall_cons in H as [H _].
Qed.
End Files.
Arguments WriteFaults : clear implicits.

(** No system call fails. *)
Definition demo_faults : WriteFaults string := {|
  open_err := None; exists_err := "exists"; write_err := None;
  sync_err := None; rename_err := None; remove_fails := false
|}.
