(* ===== verification/Trace.v ===== *)
(** * Operations as traces

    An operation on the disk is its answer and the disks it goes through, the last one
    current, so that a crash leaves any of them.  Here operations are put in sequence,
    and what holds in all states of a sequence is shown step by step. *)

From Stdlib Require Import ZArith Lia Bool String.
From stdpp Require Import base list strings gmap.
From S2P Require Import Prelude Str Files.

Local Open Scope oc_scope.

(** The next operation on the disk the last one left. *)
Definition then_on {E A B : Type} (o : result E A * list FS) (k : A -> FS -> result E B * list FS) (d : FS)
  : result E B * list FS :=
  let '(r, trace) := o in
  match r with
  | Err e => (Err e, trace)
  | Ok a => let '(r', trace') := k a (default d (last trace)) in (r', trace ++ trace')
  end.


Definition final {R : Type} (d : FS) (o : R * list FS) : FS := default d (last o.2).

(** Every state of an operation from [d] satisfies [P]; when it succeeds its answer and
    the disk it leaves satisfy [Q]. *)
Definition steps {E A : Type} (P : FS -> Prop) (Q : A -> FS -> Prop) (d : FS) (o : result E A * list FS) : Prop :=
  Forall P o.2 /\ forall a, o.1 = Ok a -> Q a (final d o).

Lemma last_app_default {A : Type} (l l' : list A) d : default d (last (l ++ l')) = default (default d (last l)) (last l').
Proof.
  destruct l' as [|x l' _] using rev_ind; [by rewrite app_nil_r|]. by rewrite app_assoc, !last_snoc.
Qed.

Lemma final_state {R : Type} (P : FS -> Prop) (d : FS) (o : R * list FS) : P d -> Forall P o.2 -> P (final d o).
Proof.
  unfold final. intros Hd Ho. destruct (last o.2) as [x|] eqn:E; [|done]. apply last_Some in E as [t Ht].
  rewrite Ht in Ho. by apply Forall_app in Ho as [_ [? _]%Forall_cons].
Qed.

Lemma steps_then {E A B : Type} (P : FS -> Prop) (Q : A -> FS -> Prop) (R : B -> FS -> Prop) (d : FS) (o : result E A * list FS) k :
  P d -> steps P Q d o ->
  (forall a d', P d' -> Q a d' -> steps P R d' (k a d')) ->
  steps P R d (then_on o k d).
Proof.
  intros Hd [Ho Hq] Hk. pose proof (final_state P d o Hd Ho) as Hf. unfold then_on, steps, final in *.
  destruct o as [[a|e] t]; cbn [fst snd] in *; [|done]. specialize (Hk a _ Hf (Hq a eq_refl)).
  destruct (k a (default d (last t))) as [r t']. destruct Hk as [H1 H2]. cbn [fst snd] in *.
  split; [by apply Forall_app|]. intros b Hb. rewrite last_app_default. by apply H2.
Qed.

Lemma then_on_ok {E A B : Type} (o : result E A * list FS) (k : A -> FS -> result E B * list FS) (d : FS) a :
  o.1 = Ok a -> (then_on o k d).1 = (k a (final d o)).1 /\
                final d (then_on o k d) = final (final d o) (k a (final d o)).
Proof.
  unfold final, then_on. destruct o as [r t]. cbn. intros ->. destruct (k a (default d (last t))) as [r' t'].
  cbn. by rewrite last_app_default.
Qed.

Lemma steps_stop {E A : Type} (P : FS -> Prop) (Q : A -> FS -> Prop) (d : FS) e : P d -> steps P Q d (Err e : result E A, [d]).
Proof. intros H. by split; [repeat constructor|]. Qed.

Lemma steps_ret {E A : Type} (P : FS -> Prop) (Q : A -> FS -> Prop) (d : FS) a : P d -> Q a d -> steps P Q d (Ok a : result E A, [d]).
Proof. intros HP HQ. split; [by repeat constructor|]. by intros ? [= <-]. Qed.

(** The first operation of a sequence has succeeded. *)
Ltac then_ok :=
  match goal with |- context [then_on ?o ?k ?d] =>
    let E1 := fresh in let E2 := fresh in
    destruct (then_on_ok o k d tt) as [E1 E2]; [|rewrite E1, E2; clear E1 E2]
  end.

Lemma state_in (t : list FS) i : (i <? length t)%nat = true -> default ∅ (t !! i) ∈ t.
Proof.
  intros Hi%Nat.ltb_lt. destruct (lookup_lt_is_Some_2 t i Hi) as [x Hx]. rewrite Hx. by apply list_elem_of_lookup_2 in Hx.
Qed.

Lemma final_in {R : Type} (d : FS) (o : R * list FS) : is_nil o.2 = false -> final d o ∈ o.2.
Proof. apply last_in. Qed.

(** ** Sequences

    An operation waiting for its disk; the notation of [Prelude] for results, with a
    disk. *)
Definition Disk (E A : Type) : Type := FS -> result E A * list FS.

Definition on_result {E A : Type} (r : result E A) : Disk E A := fun d => (r, [d]).

Definition on_disk_of {E A : Type} (f : FS -> result E A) : Disk E A := fun d => (f d, [d]).

Definition in_turn {E A B : Type} (m : Disk E A) (k : A -> Disk E B) : Disk E B := fun d => then_on (m d) k d.

Notation "'let>' x ':=' m 'in' k" := (in_turn m (fun x => k))
  (at level 10, x name, m at level 100, k at level 200) : oc_scope.
Notation "'let>' ' x ':=' m 'in' k" := (in_turn m (fun x => k))
  (at level 10, x strict pattern, m at level 100, k at level 200) : oc_scope.

Lemma in_turn_steps {E A B : Type} (P : FS -> Prop) (Q : A -> FS -> Prop) (R : B -> FS -> Prop) (d : FS)
    (m : Disk E A) (k : A -> Disk E B) :
  P d -> steps P Q d (m d) -> (forall a d', P d' -> Q a d' -> steps P R d' (k a d')) -> steps P R d (in_turn m k d).
Proof. apply steps_then. Qed.

Lemma in_turn_err {E A B : Type} (m : Disk E A) (k : A -> Disk E B) (d : FS) e :
  (m d).1 = Err e -> in_turn m k d = (Err e, (m d).2).
Proof. unfold in_turn, then_on. destruct (m d) as [r t]. cbn. by intros ->. Qed.

(** A pure first step: its answer decides, on the same disk. *)
Lemma in_turn_pure {E A B : Type} (r : result E A) (k : A -> Disk E B) (d : FS) :
  in_turn (on_result r) k d = match r with
                              | Ok a => let '(r', t) := k a d in (r', d :: t)
                              | Err e => (Err e, [d])
                              end.
Proof. by destruct r. Qed.

Lemma in_turn_read {E A B : Type} (f : FS -> result E A) (k : A -> Disk E B) (d : FS) :
  in_turn (on_disk_of f) k d = match f d with
                               | Ok a => let '(r', t) := k a d in (r', d :: t)
                               | Err e => (Err e, [d])
                               end.
Proof. unfold in_turn, then_on, on_disk_of. by destruct (f d). Qed.

Lemma on_result_steps {E A : Type} (P : FS -> Prop) (Q : A -> FS -> Prop) (d : FS) (r : result E A) :
  P d -> (forall a, r = Ok a -> Q a d) -> steps P Q d (on_result r d).
Proof. intros HP HQ. split; [by apply Forall_singleton|]. cbn. intros a ->. by apply HQ. Qed.

Lemma on_disk_steps {E A : Type} (P : FS -> Prop) (Q : A -> FS -> Prop) (d : FS) (f : FS -> result E A) :
  P d -> (forall a, f d = Ok a -> Q a d) -> steps P Q d (on_disk_of f d).
Proof. intros HP HQ. split; [by apply Forall_singleton|]. cbn. intros a Ha. by apply HQ. Qed.

Lemma steps_weaken {E A : Type} (P P' : FS -> Prop) (Q Q' : A -> FS -> Prop) (d : FS) (o : result E A * list FS) :
  (forall d', P d' -> P' d') -> (forall a d', Q a d' -> Q' a d') -> steps P Q d o -> steps P' Q' d o.
Proof. intros HP HQ [H1 H2]. split; [by eapply Forall_impl|]. auto. Qed.
