(* ===== verification/PolicyV2.v ===== *)
(** * Policy Engine v2: the 11-step evaluation flow

    [crates/oc-policy/src/v2.rs].  The runtime state [PolicyState] is a record
    threaded through every operation; the alert sink is the list of alerts it
    has been notified of.  Timestamps are [Z] with the [u64] saturation of the
    code written out, amounts are binary64. *)

From Stdlib Require Import ZArith Lia String Sorting.Sorted Wf_nat.
From stdpp Require Import base list strings gmap.
From S2P Require Import Prelude F64 Str Files.

Local Open Scope oc_scope.

(** ** Data structures *)

Record PayRequest := {
  pr_session_key_id : string;
  pr_device_id : string;
  pr_amount_usd : f64;
  pr_asset : string;
  pr_chain_id : string;
  pr_recipient : option string
}.

Record PolicyRulesV2 := {
  max_single_amount_usd : f64;
  max_daily_amount_usd : f64;
  max_monthly_amount_usd : f64;
  expiry_unix : Z;
  rate_limit_per_minute : Z;
  rate_limit_per_hour : Z;
  cooldown_after_denial_sec : Z;
  asset_whitelist : list string;
  chain_whitelist : list string;
  contract_whitelist : list string;
  payment_protocols : list string
}.

Record BudgetAllocation := {
  allocated_usd : f64;
  allocated_at_unix : Z;
  parent_total_usd : f64;
  parent_session_id : string
}.

Record PolicyV2 := {
  version : Z;
  pv_session_key_id : string;
  pv_device_id : string;
  rules : PolicyRulesV2;
  budget_allocation : BudgetAllocation
}.

Inductive DenyReason :=
| RateLimitMinute | RateLimitHour | BudgetExceeded | Whitelist | Expired
| PasskeyForged | PolicyMissing | Cooldown | Unknown | InvalidAmount.

#[export] Instance DenyReason_eq_dec : EqDecision DenyReason.
Proof. solve_decision. Defined.

Inductive WarnReason :=
| LargeApproval (token amount : string)
| NewContract (address : string)
| CrossChainBridge (source_chain dest_chain : string)
| HighGasUsage (estimated_gas threshold : Z)
| UnverifiedDapp (origin : string).

(** The source's [Decision]; stdpp's class of that name is kept apart. *)
Inductive Verdict :=
| Allow
| Warn (w : WarnReason)
| Deny (r : DenyReason).

Definition is_deny (d : Verdict) : bool := match d with Deny _ => true | _ => false end.
Definition is_allow (d : Verdict) : bool := match d with Allow => true | _ => false end.

Record HumanAlert := {
  ha_session_key_id : string;
  ha_device_id : string;
  ha_deny_reasons : list DenyReason;
  ha_timestamp_unix : Z
}.

(** What a sink has been notified of, oldest first. *)
Definition AlertSink : Type := list HumanAlert.
Definition notify (sink : AlertSink) (a : HumanAlert) : AlertSink := sink ++ [a].
Definition default_alert_sink : AlertSink := [].

Record PolicyState := {
  ps_session_key_id : string;
  local_spent_usd : f64;
  minutely_window : list Z;
  hourly_window : list Z;
  daily_window : list (Z * f64);
  monthly_window : list (Z * f64);
  last_deny_at_unix : option Z;
  consecutive_deny_counter : Z;
  last_deny_reasons : list DenyReason;
  alert_sink : AlertSink;
  policy : option PolicyV2;
  now_override : option Z
}.

(** ** Construction *)

Definition new (session_key_id : string) : PolicyState := {|
  ps_session_key_id := session_key_id;
  local_spent_usd := f64_zero;
  minutely_window := [];
  hourly_window := [];
  daily_window := [];
  monthly_window := [];
  last_deny_at_unix := None;
  consecutive_deny_counter := 0;
  last_deny_reasons := [];
  alert_sink := default_alert_sink;
  policy := None;
  now_override := None
|}.

Definition with_alert_sink (s : PolicyState) (sink : AlertSink) : PolicyState := {|
  ps_session_key_id := ps_session_key_id s;
  local_spent_usd := local_spent_usd s;
  minutely_window := minutely_window s;
  hourly_window := hourly_window s;
  daily_window := daily_window s;
  monthly_window := monthly_window s;
  last_deny_at_unix := last_deny_at_unix s;
  consecutive_deny_counter := consecutive_deny_counter s;
  last_deny_reasons := last_deny_reasons s;
  alert_sink := sink;
  policy := policy s;
  now_override := now_override s
|}.

Definition set_policy (s : PolicyState) (p : option PolicyV2) : PolicyState := {|
  ps_session_key_id := ps_session_key_id s;
  local_spent_usd := local_spent_usd s;
  minutely_window := minutely_window s;
  hourly_window := hourly_window s;
  daily_window := daily_window s;
  monthly_window := monthly_window s;
  last_deny_at_unix := last_deny_at_unix s;
  consecutive_deny_counter := consecutive_deny_counter s;
  last_deny_reasons := last_deny_reasons s;
  alert_sink := alert_sink s;
  policy := p;
  now_override := now_override s
|}.

Definition with_policy (s : PolicyState) (p : PolicyV2) : PolicyState := set_policy s (Some p).

Definition with_now_override (s : PolicyState) (now_unix : Z) : PolicyState := {|
  ps_session_key_id := ps_session_key_id s;
  local_spent_usd := local_spent_usd s;
  minutely_window := minutely_window s;
  hourly_window := hourly_window s;
  daily_window := daily_window s;
  monthly_window := monthly_window s;
  last_deny_at_unix := last_deny_at_unix s;
  consecutive_deny_counter := consecutive_deny_counter s;
  last_deny_reasons := last_deny_reasons s;
  alert_sink := alert_sink s;
  policy := policy s;
  now_override := Some now_unix
|}.

(** ** Recording decisions *)

Definition USD_EPSILON : f64 := f64_1e_9.

Definition is_valid_amount (amount : f64) : bool :=
  f64_is_finite amount && f64_le f64_zero amount.

Definition record_allow (s : PolicyState) (req : PayRequest) (now_ms : Z) : PolicyState :=
  if negb (is_valid_amount (pr_amount_usd req)) then s
  else {|
    ps_session_key_id := ps_session_key_id s;
    local_spent_usd := f64_add (local_spent_usd s) (pr_amount_usd req);
    minutely_window := minutely_window s ++ [now_ms];
    hourly_window := hourly_window s ++ [now_ms];
    daily_window := daily_window s ++ [(now_ms, pr_amount_usd req)];
    monthly_window := monthly_window s ++ [(now_ms, pr_amount_usd req)];
    last_deny_at_unix := last_deny_at_unix s;
    consecutive_deny_counter := 0;
    last_deny_reasons := [];
    alert_sink := alert_sink s;
    policy := policy s;
    now_override := now_override s
  |}.

(** [if deque.back() == Some(&x) { deque.pop_back(); }]. *)
Definition pop_back_if {A} (is_x : A -> bool) (l : list A) : list A :=
  match last l with
  | Some y => if is_x y then removelast l else l
  | None => l
  end.

Definition ts_eqb (now_ms t : Z) : bool := (t =? now_ms)%Z.
Definition entry_eqb (now_ms : Z) (amount : f64) (e : Z * f64) : bool :=
  (e.1 =? now_ms)%Z && f64_eq e.2 amount.

Definition rollback_allow (s : PolicyState) (req : PayRequest) (now_ms : Z)
    (prior_counter : Z) (prior_reasons : list DenyReason) : PolicyState := {|
  ps_session_key_id := ps_session_key_id s;
  local_spent_usd :=
    if is_valid_amount (pr_amount_usd req)
    then f64_max (f64_sub (local_spent_usd s) (pr_amount_usd req)) f64_zero
    else local_spent_usd s;
  minutely_window := pop_back_if (ts_eqb now_ms) (minutely_window s);
  hourly_window := pop_back_if (ts_eqb now_ms) (hourly_window s);
  daily_window := pop_back_if (entry_eqb now_ms (pr_amount_usd req)) (daily_window s);
  monthly_window := pop_back_if (entry_eqb now_ms (pr_amount_usd req)) (monthly_window s);
  last_deny_at_unix := last_deny_at_unix s;
  consecutive_deny_counter := prior_counter;
  last_deny_reasons := prior_reasons;
  alert_sink := alert_sink s;
  policy := policy s;
  now_override := now_override s
|}.

(** [clock] is what [current_unix()] reads. *)
Definition now_ms (s : PolicyState) (clock : Z) : Z :=
  saturating_mul64 (default clock (now_override s)) 1000.

(** [Vec::push], then [remove(0)] when the length exceeds 3. *)
Definition push_reason (l : list DenyReason) (r : DenyReason) : list DenyReason :=
  let l' := l ++ [r] in
  if (3 <? length l')%nat then tail l' else l'.

Definition record_deny (s : PolicyState) (reason : DenyReason) (session_key_id : string)
    (now_ms : Z) : PolicyState :=
  let now_unix := (now_ms / 1000)%Z in
  let counter := wrapping_add32 (consecutive_deny_counter s) 1 in
  let reasons := push_reason (last_deny_reasons s) reason in
  let fire := (counter =? 3)%Z in
  let alert := {|
    ha_session_key_id := session_key_id;
    ha_device_id := match policy s with Some p => pv_device_id p | None => "" end;
    ha_deny_reasons := reasons;
    ha_timestamp_unix := now_unix
  |} in
  {|
    ps_session_key_id := ps_session_key_id s;
    local_spent_usd := local_spent_usd s;
    minutely_window := minutely_window s;
    hourly_window := hourly_window s;
    daily_window := daily_window s;
    monthly_window := monthly_window s;
    last_deny_at_unix := Some now_unix;
    consecutive_deny_counter := if fire then 0%Z else counter;
    last_deny_reasons := if fire then [] else reasons;
    alert_sink := if fire then notify (alert_sink s) alert else alert_sink s;
    policy := policy s;
    now_override := now_override s
  |}.

(** ** Sliding windows *)

Fixpoint slide_window (window : list Z) (now_ms window_ms : Z) : list Z :=
  match window with
  | [] => []
  | front :: rest =>
      if (window_ms <? saturating_sub now_ms front)%Z
      then slide_window rest now_ms window_ms
      else window
  end.

Fixpoint slide_amount_window (window : list (Z * f64)) (now_ms window_ms : Z)
  : list (Z * f64) :=
  match window with
  | [] => []
  | (front_ts, _) :: rest =>
      if (window_ms <? saturating_sub now_ms front_ts)%Z
      then slide_amount_window rest now_ms window_ms
      else window
  end.

Definition slide_all_windows (s : PolicyState) (now_ms : Z) : PolicyState := {|
  ps_session_key_id := ps_session_key_id s;
  local_spent_usd := local_spent_usd s;
  minutely_window := slide_window (minutely_window s) now_ms 60000;
  hourly_window := slide_window (hourly_window s) now_ms 3600000;
  daily_window := slide_amount_window (daily_window s) now_ms 86400000;
  monthly_window := slide_amount_window (monthly_window s) now_ms 2592000000;
  last_deny_at_unix := last_deny_at_unix s;
  consecutive_deny_counter := consecutive_deny_counter s;
  last_deny_reasons := last_deny_reasons s;
  alert_sink := alert_sink s;
  policy := policy s;
  now_override := now_override s
|}.

(** ** The steps *)

Definition step_2_load_policy (s : PolicyState) : result DenyReason PolicyV2 :=
  ok_or PolicyMissing (policy s).

Definition step_3_check_expiry (p : PolicyV2) (now_unix : Z) : result DenyReason unit :=
  if (expiry_unix (rules p) <? now_unix)%Z then Err Expired else Ok tt.

Definition step_4_check_whitelists (p : PolicyV2) (req : PayRequest) : result DenyReason unit :=
  let r := rules p in
  if negb (is_nil (asset_whitelist r)) &&
     negb (existsb (fun a => String.eqb a (pr_asset req)) (asset_whitelist r))
  then Err Whitelist
  else if negb (is_nil (chain_whitelist r)) &&
     negb (existsb (fun c => String.eqb c (pr_chain_id req)) (chain_whitelist r))
  then Err Whitelist
  else match pr_recipient req with
  | Some recipient =>
      if negb (is_nil (contract_whitelist r)) &&
         negb (existsb (fun c => eq_ignore_ascii_case c recipient) (contract_whitelist r))
      then Err Whitelist else Ok tt
  | None => Ok tt
  end.

Definition step_5_check_cooldown (s : PolicyState) (p : PolicyV2) (now_unix : Z)
  : result DenyReason unit :=
  match last_deny_at_unix s with
  | Some last_deny =>
      if (now_unix <? saturating_add64 last_deny (cooldown_after_denial_sec (rules p)))%Z
      then Err Cooldown else Ok tt
  | None => Ok tt
  end.

Definition step_6_check_rate_limit_minute (s : PolicyState) (p : PolicyV2)
  : result DenyReason unit :=
  if (rate_limit_per_minute (rules p) <=? Z.of_nat (length (minutely_window s)))%Z
  then Err RateLimitMinute else Ok tt.

Definition step_7_check_rate_limit_hour (s : PolicyState) (p : PolicyV2)
  : result DenyReason unit :=
  if (rate_limit_per_hour (rules p) <=? Z.of_nat (length (hourly_window s)))%Z
  then Err RateLimitHour else Ok tt.

Definition step_8_check_budget (s : PolicyState) (p : PolicyV2) (req : PayRequest)
  : result DenyReason unit :=
  if negb (is_valid_amount (local_spent_usd s)) ||
     negb (f64_is_finite (allocated_usd (budget_allocation p)))
  then Err BudgetExceeded
  else if f64_lt (f64_add (allocated_usd (budget_allocation p)) USD_EPSILON)
                 (f64_add (local_spent_usd s) (pr_amount_usd req))
  then Err BudgetExceeded
  else Ok tt.

(** Steps 8a and 8b: the poisoned-sum test and the cumulative test. *)
Definition step_8a_check_daily_cumulative (s : PolicyState) (p : PolicyV2) (req : PayRequest)
  : result DenyReason unit :=
  let daily_spent := f64_sum (map snd (daily_window s)) in
  if negb (f64_is_finite daily_spent) || f64_lt daily_spent f64_zero ||
     negb (f64_is_finite (max_daily_amount_usd (rules p)))
  then Err BudgetExceeded
  else if f64_lt (f64_add (max_daily_amount_usd (rules p)) USD_EPSILON)
                 (f64_add daily_spent (pr_amount_usd req))
  then Err BudgetExceeded
  else Ok tt.

Definition step_8b_check_monthly_cumulative (s : PolicyState) (p : PolicyV2) (req : PayRequest)
  : result DenyReason unit :=
  let monthly_spent := f64_sum (map snd (monthly_window s)) in
  if negb (f64_is_finite monthly_spent) || f64_lt monthly_spent f64_zero ||
     negb (f64_is_finite (max_monthly_amount_usd (rules p)))
  then Err BudgetExceeded
  else if f64_lt (f64_add (max_monthly_amount_usd (rules p)) USD_EPSILON)
                 (f64_add monthly_spent (pr_amount_usd req))
  then Err BudgetExceeded
  else Ok tt.

Definition step_9_check_single_amount (p : PolicyV2) (req : PayRequest)
  : result DenyReason unit :=
  if negb (f64_is_finite (max_single_amount_usd (rules p))) ||
     f64_lt (max_single_amount_usd (rules p)) (pr_amount_usd req)
  then Err BudgetExceeded else Ok tt.

Definition step_10_allow (s : PolicyState) (req : PayRequest) (now_ms : Z)
  : Verdict * PolicyState :=
  (Allow, record_allow s req now_ms).

Definition step_11_deny (s : PolicyState) (reason : DenyReason) (session_key_id : string)
    (now_ms : Z) : Verdict * PolicyState :=
  (Deny reason, record_deny s reason session_key_id now_ms).

(** The body of [evaluate_11_step] after the windows have slid: every check
    leaves the state alone and returns early with its reason. *)
Definition run_steps (s : PolicyState) (req : PayRequest) (now_unix : Z)
  : result DenyReason unit :=
  let? p := step_2_load_policy s in
  let? _ := step_3_check_expiry p now_unix in
  let? _ := step_4_check_whitelists p req in
  let? _ := step_5_check_cooldown s p now_unix in
  let? _ := step_6_check_rate_limit_minute s p in
  let? _ := step_7_check_rate_limit_hour s p in
  let? _ := step_8_check_budget s p req in
  let? _ := step_8a_check_daily_cumulative s p req in
  let? _ := step_8b_check_monthly_cumulative s p req in
  step_9_check_single_amount p req.

Definition evaluate_11_step (req : PayRequest) (session_key_id : string) (s : PolicyState)
    (clock : Z) : Verdict * PolicyState :=
  let now_unix := default clock (now_override s) in
  let now_ms := saturating_mul64 now_unix 1000 in
  if negb (is_valid_amount (pr_amount_usd req))
  then step_11_deny s InvalidAmount session_key_id now_ms
  else
    let s := slide_all_windows s now_ms in
    match run_steps s req now_unix with
    | Err r => step_11_deny s r session_key_id now_ms
    | Ok _ => step_10_allow s req now_ms
    end.

(** ** Basic lemmas *)

(** The outcome of one evaluation: an allow is [record_allow] on the slid
    state after every step passed, anything else is [record_deny]. *)
Lemma evaluate_cases req sid s clock :
  let now_unix := default clock (now_override s) in
  let now := now_ms s clock in
  let s1 := slide_all_windows s now in
  (is_valid_amount (pr_amount_usd req) = false /\
   evaluate_11_step req sid s clock = (Deny InvalidAmount, record_deny s InvalidAmount sid now)) \/
  (is_valid_amount (pr_amount_usd req) = true /\ run_steps s1 req now_unix = Ok tt /\
   evaluate_11_step req sid s clock = (Allow, record_allow s1 req now)) \/
  (is_valid_amount (pr_amount_usd req) = true /\
   exists r, run_steps s1 req now_unix = Err r /\
   evaluate_11_step req sid s clock = (Deny r, record_deny s1 r sid now)).
Proof.
  cbv zeta. unfold evaluate_11_step, now_ms, step_10_allow, step_11_deny.
  destruct (is_valid_amount _); [right|by left].
  destruct (run_steps _ _ _) as [[]|r]; [left|right]; eauto.
Qed.

Lemma run_steps_ok s req now :
  run_steps s req now = Ok tt <->
  exists p, policy s = Some p /\
    step_3_check_expiry p now = Ok tt /\ step_4_check_whitelists p req = Ok tt /\
    step_5_check_cooldown s p now = Ok tt /\
    step_6_check_rate_limit_minute s p = Ok tt /\ step_7_check_rate_limit_hour s p = Ok tt /\
    step_8_check_budget s p req = Ok tt /\ step_8a_check_daily_cumulative s p req = Ok tt /\
    step_8b_check_monthly_cumulative s p req = Ok tt /\ step_9_check_single_amount p req = Ok tt.
Proof.
  unfold run_steps, step_2_load_policy, ok_or. split.
  - intros H. bind_ok H. repeat match goal with u : unit |- _ => destruct u end.
    destruct (policy s) as [p|]; simplify_eq. eexists. by repeat split.
  - intros (p & -> & H3 & H4 & H5 & H6 & H7 & H8 & H8a & H8b & H9). cbn [result_bind].
    by rewrite H3, H4, H5, H6, H7, H8, H8a, H8b.
Qed.

Lemma valid_amount_spec a :
  is_valid_amount a = true <-> f64_is_finite a = true /\ f64_nonneg a = true.
Proof. unfold is_valid_amount. by rewrite andb_true_iff, f64_zero_le_nonneg. Qed.

Lemma finite_not_nan a : f64_is_finite a = true -> f64_is_nan a = false.
Proof. by destruct a. Qed.

(** What the budget step guarantees of the sum that is then committed. *)
Lemma step_8_bound s p req :
  is_valid_amount (pr_amount_usd req) = true ->
  step_8_check_budget s p req = Ok tt ->
  is_valid_amount (local_spent_usd s) = true /\
  f64_nonneg (f64_add (local_spent_usd s) (pr_amount_usd req)) = true /\
  f64_le (f64_add (local_spent_usd s) (pr_amount_usd req))
         (f64_add (allocated_usd (budget_allocation p)) USD_EPSILON) = true.
Proof.
  unfold step_8_check_budget. intros Ha H.
  destruct (is_valid_amount (local_spent_usd s)) eqn:Hl; simpl in H; [|done].
  destruct (f64_is_finite (allocated_usd _)) eqn:Hf; simpl in H; [|done].
  destruct (f64_lt _ _) eqn:Hlt; [done|].
  apply valid_amount_spec in Ha as [??], Hl as [??].
  split; [done|]. split; [by apply f64_add_nonneg|].
  apply f64_not_lt_le; [by apply f64_add_not_nan..|done].
Qed.

Lemma record_allow_spent s req now :
  is_valid_amount (pr_amount_usd req) = true ->
  local_spent_usd (record_allow s req now) = f64_add (local_spent_usd s) (pr_amount_usd req).
Proof. unfold record_allow. by intros ->. Qed.

Lemma record_allow_policy s req now : policy (record_allow s req now) = policy s.
Proof. unfold record_allow. by destruct (negb _). Qed.

Lemma evaluate_policy req sid s clock :
  policy (evaluate_11_step req sid s clock).2 = policy s.
Proof.
  destruct (evaluate_cases req sid s clock) as [(_&->)|[(_&_&->)|(_&r&_&->)]]; try done.
  simpl. by rewrite record_allow_policy.
Qed.

Lemma evaluate_override req sid s clock :
  now_override (evaluate_11_step req sid s clock).2 = now_override s.
Proof.
  destruct (evaluate_cases req sid s clock) as [(_&->)|[(_&_&->)|(_&r&_&->)]]; try done.
  simpl. unfold record_allow. by destruct (negb _).
Qed.

(** Sliding a sorted window is filtering it. *)
Lemma slide_window_filter l now w :
  (0 <= w)%Z -> StronglySorted Z.le l ->
  slide_window l now w = List.filter (fun ts => now - ts <=? w)%Z l.
Proof.
  intros Hw. induction 1 as [|ts l Hs IH Hall]; simpl; [done|]. unfold saturating_sub.
  destruct (Z.leb_spec (now - ts) w) as [Hle|Hgt].
  - destruct (Z.ltb_spec w (0 `max` (now - ts))) as [?|_]; [lia|]. f_equal.
    clear -Hall Hle. induction Hall as [|x l Hx _ IH]; simpl; [done|].
    destruct (Z.leb_spec (now - x) w); [by rewrite <-IH|lia].
  - destruct (Z.ltb_spec w (0 `max` (now - ts))); [done|lia].
Qed.

Lemma filter_filter_weaker {A} (f g : A -> bool) l :
  (forall x, f x = true -> g x = true) -> List.filter f (List.filter g l) = List.filter f l.
Proof.
  intros Hfg. induction l as [|x l IH]; simpl; [done|].
  destruct (g x) eqn:Hg; simpl; rewrite IH; [done|].
  destruct (f x) eqn:Hf; [|done]. by rewrite Hfg in Hg.
Qed.

(** ** Histories

    [history sid p al t s]: from a fresh state holding [p], a sequence of
    evaluations whose clocks never go back ended at [now_ms = t] in [s], and
    allowed exactly at the times [al]. *)

Inductive history (sid : string) (p : PolicyV2) : list Z -> Z -> PolicyState -> Prop :=
| history_new : history sid p [] 0 (with_policy (new sid) p)
| history_eval al t s req clock :
    history sid p al t s ->
    (t <= now_ms s clock)%Z ->
    history sid p
      (if is_allow (evaluate_11_step req sid s clock).1 then al ++ [now_ms s clock] else al)
      (now_ms s clock) (evaluate_11_step req sid s clock).2.

Lemma history_policy sid p al t s : history sid p al t s -> policy s = Some p.
Proof. induction 1; [done|by rewrite evaluate_policy]. Qed.

Lemma history_sorted sid p al t s :
  history sid p al t s -> StronglySorted Z.le al /\ Forall (fun ts => ts <= t)%Z al.
Proof.
  induction 1 as [|al t s req clock H [IHs IHle] Ht]; [split; constructor|].
  assert (Hle' : Forall (fun ts => ts <= now_ms s clock)%Z al)
    by (eapply Forall_impl; [exact IHle|simpl; lia]).
  destruct (is_allow _); [|done]. split.
  - clear -IHs Hle'. induction IHs as [|x l Hl IH Hx]; simpl; [repeat constructor|].
    inversion Hle'; subst. constructor; [by apply IH|].
    apply Forall_app; split; [done|]. by constructor.
  - apply Forall_app; split; [done|]. by constructor.
Qed.

(** The window of width [w] holds the allows of the last [w] milliseconds. *)
Definition window_tracks (w : Z) (al : list Z) (t : Z) (window : list Z) : Prop :=
  exists m, (m <= t)%Z /\ window = List.filter (fun ts => m - ts <=? w)%Z al.

Lemma window_tracks_slide w al t now window :
  (0 <= w)%Z -> (t <= now)%Z -> StronglySorted Z.le al ->
  window_tracks w al t window ->
  slide_window window now w = List.filter (fun ts => now - ts <=? w)%Z al.
Proof.
  intros Hw Ht Hs (m & Hm & ->). rewrite slide_window_filter; [|done|].
  - apply filter_filter_weaker. intros x. rewrite !Z.leb_le. lia.
  - clear -Hs. induction Hs as [|x l Hl IH Hx]; simpl; [constructor|].
    destruct (_ <=? w)%Z; [|done]. constructor; [done|].
    apply Forall_forall. intros y [Hy _]%list_elem_of_In%filter_In.
    rewrite Forall_forall in Hx. by apply Hx, list_elem_of_In.
Qed.

Lemma window_tracks_push w al now :
  (0 <= w)%Z ->
  List.filter (fun ts => now - ts <=? w)%Z al ++ [now] =
  List.filter (fun ts => now - ts <=? w)%Z (al ++ [now]).
Proof.
  intros Hw. rewrite List.filter_app. simpl.
  destruct (Z.leb_spec (now - now) w); [done|lia].
Qed.

Lemma history_windows sid p al t s :
  history sid p al t s ->
  window_tracks 60000 al t (minutely_window s) /\ window_tracks 3600000 al t (hourly_window s).
Proof.
  induction 1 as [|al t s req clock H [IHm IHh] Ht].
  { by split; exists 0%Z. }
  destruct (history_sorted _ _ _ _ _ H) as [Hs _].
  destruct (evaluate_cases req sid s clock) as [(_&->)|[(Hv&_&->)|(_&r&_&->)]]; simpl.
  - by split; [destruct IHm as (m&?&?)|destruct IHh as (m&?&?)]; exists m; (split; [lia|]).
  - unfold record_allow. rewrite Hv. simpl.
    rewrite (window_tracks_slide 60000 al t), (window_tracks_slide 3600000 al t) by (done || lia).
    rewrite !window_tracks_push by lia. by split; exists (now_ms s clock).
  - rewrite (window_tracks_slide 60000 al t), (window_tracks_slide 3600000 al t) by (done || lia).
    by split; exists (now_ms s clock).
Qed.

(** Number of the times in [al] that are within [w] milliseconds before [now]. *)
Definition count_recent (w now : Z) (al : list Z) : Z :=
  Z.of_nat (length (List.filter (fun ts => now - ts <=? w)%Z al)).

Lemma count_recent_push w now al :
  (0 <= w)%Z -> count_recent w now (al ++ [now]) = (count_recent w now al + 1)%Z.
Proof.
  intros Hw. unfold count_recent. rewrite <-window_tracks_push by done.
  rewrite length_app. simpl. lia.
Qed.

(** C25 In any history with non-decreasing clocks, an allowed request is the
    at most [rate_limit_per_minute]-th allow of the 60 seconds that end with it
    and the at most [rate_limit_per_hour]-th of the hour: the sliding windows
    enforce both rate limits over every interval, not per calendar minute. *)
Theorem rate_limit_enforced sid p al t s req clock :
  history sid p al t s -> (t <= now_ms s clock)%Z ->
  (evaluate_11_step req sid s clock).1 = Allow ->
  let now := now_ms s clock in
  (count_recent 60000 now (al ++ [now]) <= rate_limit_per_minute (rules p))%Z /\
  (count_recent 3600000 now (al ++ [now]) <= rate_limit_per_hour (rules p))%Z.
Proof.
  intros H Ht Ha now. rewrite !count_recent_push by lia.
  destruct (history_sorted _ _ _ _ _ H) as [Hs _].
  destruct (history_windows _ _ _ _ _ H) as [Hm Hh].
  destruct (evaluate_cases req sid s clock) as [(_&E)|[(_&Hok&_)|(_&r&_&E)]];
    [by rewrite E in Ha| |by rewrite E in Ha].
  apply run_steps_ok in Hok as (q & Hq & _ & _ & _ & H6 & H7 & _).
  change (policy s = Some q) in Hq. rewrite (history_policy _ _ _ _ _ H) in Hq. simplify_eq.
  unfold step_6_check_rate_limit_minute, step_7_check_rate_limit_hour in H6, H7.
  simpl in H6, H7.
  rewrite (window_tracks_slide 60000 al t) in H6 by (done || lia).
  rewrite (window_tracks_slide 3600000 al t) in H7 by (done || lia).
  destruct (_ <=? _)%Z eqn:E6 in H6; [done|]. destruct (_ <=? _)%Z eqn:E7 in H7; [done|].
  bool_to_prop. unfold count_recent. subst now. lia.
Qed.

(** ** Budget *)

(** Every state the engine can reach from a fresh one under policy [p], whatever
    the clocks and requests. *)
Inductive reachable (sid : string) (p : PolicyV2) : PolicyState -> Prop :=
| reachable_new : reachable sid p (with_policy (new sid) p)
| reachable_eval s req clock :
    reachable sid p s -> reachable sid p (evaluate_11_step req sid s clock).2.

Lemma reachable_policy sid p s : reachable sid p s -> policy s = Some p.
Proof. induction 1; [done|by rewrite evaluate_policy]. Qed.

Definition within_budget (p : PolicyV2) (spent : f64) : Prop :=
  spent = f64_zero \/ f64_le spent (f64_add (allocated_usd (budget_allocation p)) USD_EPSILON) = true.

(** C8 Whatever the sequence of requests and clocks, the cumulative spend
    counter is never NaN or negative and never exceeds the allocation by more
    than the epsilon (in binary64 arithmetic, rounding included). *)
Theorem budget_never_exceeded sid p s :
  reachable sid p s ->
  f64_nonneg (local_spent_usd s) = true /\ within_budget p (local_spent_usd s).
Proof.
  induction 1 as [|s req clock H [IHn IHb]]; [by split; [|left]|].
  destruct (evaluate_cases req sid s clock) as [(_&->)|[(Hv&Hok&->)|(_&r&_&->)]]; try done.
  apply run_steps_ok in Hok as (q & Hq & _ & _ & _ & _ & _ & H8 & _).
  change (policy s = Some q) in Hq. rewrite (reachable_policy _ _ _ H) in Hq. simplify_eq.
  destruct (step_8_bound _ _ _ Hv H8) as (_ & Hn & Hle).
  cbn [snd]. rewrite record_allow_spent by done. by split; [|right].
Qed.

(** A denied evaluation, whatever the reason, spends nothing and takes no
    rate-limit slot: the counter is untouched and each window only slides. *)
Theorem deny_spends_nothing req sid s clock r :
  (evaluate_11_step req sid s clock).1 = Deny r ->
  let s' := (evaluate_11_step req sid s clock).2 in
  let now := now_ms s clock in
  local_spent_usd s' = local_spent_usd s /\
  (minutely_window s' = minutely_window s \/
   minutely_window s' = slide_window (minutely_window s) now 60000) /\
  (hourly_window s' = hourly_window s \/
   hourly_window s' = slide_window (hourly_window s) now 3600000) /\
  (daily_window s' = daily_window s \/
   daily_window s' = slide_amount_window (daily_window s) now 86400000) /\
  (monthly_window s' = monthly_window s \/
   monthly_window s' = slide_amount_window (monthly_window s) now 2592000000) /\
  last_deny_at_unix s' = Some (now / 1000)%Z.
Proof.
  intros Hd. destruct (evaluate_cases req sid s clock) as [(_&E)|[(_&_&E)|(_&r'&_&E)]];
    rewrite E in *; simpl in *; simplify_eq; auto 10.
Qed.

(** ** What an allow means *)

(** An empty whitelist does not restrict. *)
Definition listed (same : string -> string -> Prop) (l : list string) (x : string) : Prop :=
  l = [] \/ exists a, In a l /\ same a x.

(** The declarative content of the steps, on a state whose windows have slid. *)
Record admissible (p : PolicyV2) (s : PolicyState) (req : PayRequest) (now : Z) : Prop := {
  adm_amount : is_valid_amount (pr_amount_usd req) = true;
  adm_expiry : (now <= expiry_unix (rules p))%Z;
  adm_asset : listed eq (asset_whitelist (rules p)) (pr_asset req);
  adm_chain : listed eq (chain_whitelist (rules p)) (pr_chain_id req);
  adm_contract : forall c, pr_recipient req = Some c ->
    listed (fun a b => eq_ignore_ascii_case a b = true) (contract_whitelist (rules p)) c;
  adm_cooldown : forall d, last_deny_at_unix s = Some d ->
    (saturating_add64 d (cooldown_after_denial_sec (rules p)) <= now)%Z;
  adm_minute : (Z.of_nat (length (minutely_window s)) < rate_limit_per_minute (rules p))%Z;
  adm_hour : (Z.of_nat (length (hourly_window s)) < rate_limit_per_hour (rules p))%Z;
  adm_spent : is_valid_amount (local_spent_usd s) = true;
  adm_budget_finite : f64_is_finite (allocated_usd (budget_allocation p)) = true;
  adm_budget : f64_le (f64_add (local_spent_usd s) (pr_amount_usd req))
                      (f64_add (allocated_usd (budget_allocation p)) USD_EPSILON) = true;
  adm_daily_finite : f64_is_finite (f64_sum (map snd (daily_window s))) = true /\
    f64_le f64_zero (f64_sum (map snd (daily_window s))) = true /\
    f64_is_finite (max_daily_amount_usd (rules p)) = true;
  adm_daily : f64_le (f64_add (f64_sum (map snd (daily_window s))) (pr_amount_usd req))
                     (f64_add (max_daily_amount_usd (rules p)) USD_EPSILON) = true;
  adm_monthly_finite : f64_is_finite (f64_sum (map snd (monthly_window s))) = true /\
    f64_le f64_zero (f64_sum (map snd (monthly_window s))) = true /\
    f64_is_finite (max_monthly_amount_usd (rules p)) = true;
  adm_monthly : f64_le (f64_add (f64_sum (map snd (monthly_window s))) (pr_amount_usd req))
                       (f64_add (max_monthly_amount_usd (rules p)) USD_EPSILON) = true;
  adm_single_finite : f64_is_finite (max_single_amount_usd (rules p)) = true;
  adm_single : f64_le (pr_amount_usd req) (max_single_amount_usd (rules p)) = true
}.

Lemma guard_le (a b : f64) (e : DenyReason) :
  f64_is_nan a = false -> f64_is_nan b = false ->
  ((if f64_lt b a then Err e else Ok tt) = Ok tt <-> f64_le a b = true).
Proof.
  intros Ha Hb. rewrite <-(f64_not_lt_iff_le a b) by done. by destruct (f64_lt b a).
Qed.

Lemma guard_listed (same : string -> string -> bool) (P : string -> string -> Prop) l x
    (k : result DenyReason unit) :
  (forall a, same a x = true <-> P a x) ->
  (if negb (is_nil l) && negb (existsb (fun a => same a x) l) then Err Whitelist else k) = Ok tt
  <-> listed P l x /\ k = Ok tt.
Proof.
  intros Hs. unfold listed.
  assert (Hex : existsb (fun a => same a x) l = true <-> exists a, In a l /\ P a x).
  { rewrite existsb_exists. by setoid_rewrite Hs. }
  destruct l as [|y l]; [simpl; tauto|].
  destruct (existsb _ _) eqn:E; simpl.
  - intuition.
  - split; [done|]. intros [[?|H] _]; [done|]. by apply Hex in H.
Qed.

(** The shape steps 8, 8a and 8b share. *)
Lemma guard_cumulative (spent amount limit : f64) (poisoned : bool) :
  f64_is_finite amount = true ->
  (poisoned = false -> f64_is_finite spent = true /\ f64_is_finite limit = true) ->
  ((if poisoned then Err BudgetExceeded
    else if f64_lt (f64_add limit USD_EPSILON) (f64_add spent amount)
         then Err BudgetExceeded else Ok tt) = Ok tt <->
   poisoned = false /\ f64_le (f64_add spent amount) (f64_add limit USD_EPSILON) = true).
Proof.
  intros Ha Hp. destruct poisoned; [naive_solver|].
  destruct Hp as [Hs Hl]; [done|]. rewrite guard_le; [tauto|by apply f64_add_not_nan..].
Qed.

(** One lemma per step: when it passes. *)

Lemma step_3_ok p now :
  step_3_check_expiry p now = Ok tt <-> (now <= expiry_unix (rules p))%Z.
Proof.
  unfold step_3_check_expiry.
  destruct (Z.ltb_spec (expiry_unix (rules p)) now); split; done || lia.
Qed.

Lemma step_4_ok p req :
  step_4_check_whitelists p req = Ok tt <->
  listed eq (asset_whitelist (rules p)) (pr_asset req) /\
  listed eq (chain_whitelist (rules p)) (pr_chain_id req) /\
  forall c, pr_recipient req = Some c ->
    listed (fun a b => eq_ignore_ascii_case a b = true) (contract_whitelist (rules p)) c.
Proof.
  unfold step_4_check_whitelists.
  rewrite (guard_listed _ eq) by (intros; apply String.eqb_eq).
  rewrite (guard_listed _ eq) by (intros; apply String.eqb_eq).
  destruct (pr_recipient req) as [c|]; [|naive_solver].
  rewrite (guard_listed _ (fun a b => eq_ignore_ascii_case a b = true)) by done.
  naive_solver.
Qed.

Lemma step_5_ok s p now :
  step_5_check_cooldown s p now = Ok tt <->
  forall d, last_deny_at_unix s = Some d ->
    (saturating_add64 d (cooldown_after_denial_sec (rules p)) <= now)%Z.
Proof.
  unfold step_5_check_cooldown. destruct (last_deny_at_unix s) as [d|]; [|naive_solver].
  destruct (Z.ltb_spec now (saturating_add64 d (cooldown_after_denial_sec (rules p)))).
  - split; [done|]. intros Hd. specialize (Hd d eq_refl). lia.
  - split; [|done]. by intros _ ? [= <-].
Qed.

Lemma step_6_ok s p :
  step_6_check_rate_limit_minute s p = Ok tt <->
  (Z.of_nat (length (minutely_window s)) < rate_limit_per_minute (rules p))%Z.
Proof.
  unfold step_6_check_rate_limit_minute.
  destruct (Z.leb_spec (rate_limit_per_minute (rules p)) (Z.of_nat (length (minutely_window s))));
    split; done || lia.
Qed.

Lemma step_7_ok s p :
  step_7_check_rate_limit_hour s p = Ok tt <->
  (Z.of_nat (length (hourly_window s)) < rate_limit_per_hour (rules p))%Z.
Proof.
  unfold step_7_check_rate_limit_hour.
  destruct (Z.leb_spec (rate_limit_per_hour (rules p)) (Z.of_nat (length (hourly_window s))));
    split; done || lia.
Qed.

Lemma step_8_ok s p req :
  f64_is_finite (pr_amount_usd req) = true ->
  step_8_check_budget s p req = Ok tt <->
  is_valid_amount (local_spent_usd s) = true /\
  f64_is_finite (allocated_usd (budget_allocation p)) = true /\
  f64_le (f64_add (local_spent_usd s) (pr_amount_usd req))
         (f64_add (allocated_usd (budget_allocation p)) USD_EPSILON) = true.
Proof.
  intros Ha. unfold step_8_check_budget. rewrite guard_cumulative; [|done|].
  - rewrite orb_false_iff, !negb_false_iff. tauto.
  - rewrite orb_false_iff, !negb_false_iff, valid_amount_spec. tauto.
Qed.

Lemma poisoned_sum_false spent limit :
  negb (f64_is_finite spent) || f64_lt spent f64_zero || negb (f64_is_finite limit) = false <->
  f64_is_finite spent = true /\ f64_le f64_zero spent = true /\ f64_is_finite limit = true.
Proof.
  rewrite !orb_false_iff, !negb_false_iff. destruct (f64_is_finite spent) eqn:E; [|naive_solver].
  rewrite <-(f64_not_lt_iff_le f64_zero spent) by auto using finite_not_nan. tauto.
Qed.

Lemma step_8a_ok s p req :
  f64_is_finite (pr_amount_usd req) = true ->
  let spent := f64_sum (map snd (daily_window s)) in
  step_8a_check_daily_cumulative s p req = Ok tt <->
  (f64_is_finite spent = true /\ f64_le f64_zero spent = true /\
   f64_is_finite (max_daily_amount_usd (rules p)) = true) /\
  f64_le (f64_add spent (pr_amount_usd req))
         (f64_add (max_daily_amount_usd (rules p)) USD_EPSILON) = true.
Proof.
  intros Ha. unfold step_8a_check_daily_cumulative. cbv zeta.
  rewrite guard_cumulative; rewrite ?poisoned_sum_false; tauto.
Qed.

Lemma step_8b_ok s p req :
  f64_is_finite (pr_amount_usd req) = true ->
  let spent := f64_sum (map snd (monthly_window s)) in
  step_8b_check_monthly_cumulative s p req = Ok tt <->
  (f64_is_finite spent = true /\ f64_le f64_zero spent = true /\
   f64_is_finite (max_monthly_amount_usd (rules p)) = true) /\
  f64_le (f64_add spent (pr_amount_usd req))
         (f64_add (max_monthly_amount_usd (rules p)) USD_EPSILON) = true.
Proof.
  intros Ha. unfold step_8b_check_monthly_cumulative. cbv zeta.
  rewrite guard_cumulative; rewrite ?poisoned_sum_false; tauto.
Qed.

Lemma step_9_ok p req :
  f64_is_finite (pr_amount_usd req) = true ->
  step_9_check_single_amount p req = Ok tt <->
  f64_is_finite (max_single_amount_usd (rules p)) = true /\
  f64_le (pr_amount_usd req) (max_single_amount_usd (rules p)) = true.
Proof.
  intros Ha. unfold step_9_check_single_amount.
  destruct (f64_is_finite (max_single_amount_usd _)) eqn:E; simpl; [|naive_solver].
  rewrite guard_le by auto using finite_not_nan. tauto.
Qed.

(** C9 A request is allowed exactly when a policy is loaded and the request is
    [admissible] on the slid state: none of the twelve checks is skipped,
    reordered into irrelevance or stricter than its declarative reading. *)
Theorem allow_iff_admissible req sid s clock :
  (evaluate_11_step req sid s clock).1 = Allow <->
  exists p, policy s = Some p /\
    admissible p (slide_all_windows s (now_ms s clock)) req (default clock (now_override s)).
Proof.
  assert (Hsteps : is_valid_amount (pr_amount_usd req) = true ->
    run_steps (slide_all_windows s (now_ms s clock)) req (default clock (now_override s)) = Ok tt <->
    exists p, policy s = Some p /\
      admissible p (slide_all_windows s (now_ms s clock)) req (default clock (now_override s))).
  { intros Hv. pose proof Hv as [Hf _]%valid_amount_spec. rewrite run_steps_ok.
    setoid_rewrite step_3_ok. setoid_rewrite step_4_ok. setoid_rewrite step_5_ok.
    setoid_rewrite step_6_ok. setoid_rewrite step_7_ok. setoid_rewrite (step_8_ok _ _ _ Hf).
    setoid_rewrite (step_8a_ok _ _ _ Hf). setoid_rewrite (step_8b_ok _ _ _ Hf).
    setoid_rewrite (step_9_ok _ _ Hf).
    split; intros (p & Hp & H); exists p; (split; [done|]).
    - destruct_and! H. by constructor.
    - destruct H. destruct_and!. split_and!; done. }
  destruct (evaluate_cases req sid s clock) as [(Hv&->)|[(Hv&Hok&->)|(Hv&r&Hr&->)]]; simpl.
  - split; [done|]. intros (p & _ & Ha). apply adm_amount in Ha. congruence.
  - split; [|done]. intros _. by apply Hsteps.
  - split; [done|]. intros H. apply Hsteps in H; [|done]. congruence.
Qed.

(** ** Cooldown *)

(** After a deny, every request evaluated before the cooldown has elapsed
    is denied as well (and, being a deny, starts the cooldown again). *)
Theorem cooldown_blocks p req1 req2 sid s clock1 clock2 r :
  policy s = Some p ->
  (evaluate_11_step req1 sid s clock1).1 = Deny r ->
  let s' := (evaluate_11_step req1 sid s clock1).2 in
  (default clock2 (now_override s') <
     saturating_add64 (now_ms s clock1 / 1000) (cooldown_after_denial_sec (rules p)))%Z ->
  is_deny (evaluate_11_step req2 sid s' clock2).1 = true.
Proof.
  intros Hp Hd s' Hlt.
  assert (Hpol : policy s' = Some p) by (subst s'; by rewrite evaluate_policy).
  assert (Hlast : last_deny_at_unix s' = Some (now_ms s clock1 / 1000)%Z).
  { subst s'. destruct (evaluate_cases req1 sid s clock1) as [(_&E)|[(_&_&E)|(_&r'&_&E)]];
      rewrite E in *; by simplify_eq/=. }
  destruct (evaluate_cases req2 sid s' clock2) as [(_&->)|[(_&Hok&->)|(_&r'&_&->)]]; [done| |done].
  apply run_steps_ok in Hok as (q & Hq & _ & _ & H5 & _).
  change (policy s' = Some q) in Hq. rewrite Hpol in Hq. simplify_eq.
  apply step_5_ok with (d := (now_ms s clock1 / 1000)%Z) in H5; [|done]. lia.
Qed.

(** ** Consecutive denies and the human alert *)

(** The reasons of consecutive denies, three by three. *)
Fixpoint triples (l : list DenyReason) : list (list DenyReason) :=
  match l with
  | a :: b :: c :: l' => [a; b; c] :: triples l'
  | _ => []
  end.

Fixpoint leftover (l : list DenyReason) : list DenyReason :=
  match l with
  | _ :: _ :: _ :: l' => leftover l'
  | _ => l
  end.

(** The deny streak the two counters represent. *)
Definition streak (s : PolicyState) : Prop :=
  consecutive_deny_counter s = Z.of_nat (length (last_deny_reasons s)) /\
  (length (last_deny_reasons s) < 3)%nat.

Lemma record_deny_streak s r sid now :
  streak s ->
  streak (record_deny s r sid now) /\
  map ha_deny_reasons (alert_sink (record_deny s r sid now)) =
    map ha_deny_reasons (alert_sink s) ++ triples (last_deny_reasons s ++ [r]) /\
  last_deny_reasons (record_deny s r sid now) = leftover (last_deny_reasons s ++ [r]).
Proof.
  intros [Hc Hl]. unfold streak, record_deny, push_reason, notify. simpl.
  rewrite Hc, wrapping_add32_small by (unfold u32_max; lia).
  destruct (last_deny_reasons s) as [|a [|b [|c l]]]; simpl in *; [..|lia];
    rewrite ?map_app, ?app_nil_r; simpl; split_and!; done || lia.
Qed.

Lemma evaluate_streak req sid s clock :
  streak s -> streak (evaluate_11_step req sid s clock).2.
Proof.
  intros Hs. destruct (evaluate_cases req sid s clock) as [(_&->)|[(Hv&_&->)|(_&r&_&->)]].
  - by apply record_deny_streak.
  - cbn [snd]. unfold record_allow. rewrite Hv. split; simpl; lia.
  - by apply record_deny_streak.
Qed.

(** Evaluations in sequence, each with its own reading of the clock. *)
Fixpoint evaluate_all (sid : string) (s : PolicyState) (evs : list (PayRequest * Z))
  : list Verdict * PolicyState :=
  match evs with
  | [] => ([], s)
  | (req, clock) :: evs' =>
      let '(d, s1) := evaluate_11_step req sid s clock in
      let '(ds, s2) := evaluate_all sid s1 evs' in
      (d :: ds, s2)
  end.

Lemma deny_step req sid s clock r s' :
  evaluate_11_step req sid s clock = (Deny r, s') ->
  exists s1, s' = record_deny s1 r sid (now_ms s clock) /\
    consecutive_deny_counter s1 = consecutive_deny_counter s /\
    last_deny_reasons s1 = last_deny_reasons s /\ alert_sink s1 = alert_sink s.
Proof.
  destruct (evaluate_cases req sid s clock) as [(_&->)|[(_&_&->)|(_&r'&_&->)]]; try done;
    intros [= <- <-]; eauto.
Qed.

Lemma triples_app l1 l2 : triples (l1 ++ l2) = triples l1 ++ triples (leftover l1 ++ l2).
Proof.
  induction l1 as [l1 IH] using (induction_ltof1 _ (@length _)); unfold ltof in IH.
  destruct l1 as [|a [|b [|c l1]]]; [done..|]. simpl. rewrite IH; [done|simpl; lia].
Qed.

Lemma leftover_app l1 l2 : leftover (l1 ++ l2) = leftover (leftover l1 ++ l2).
Proof.
  induction l1 as [l1 IH] using (induction_ltof1 _ (@length _)); unfold ltof in IH.
  destruct l1 as [|a [|b [|c l1]]]; [done..|]. simpl. rewrite IH; [done|simpl; lia].
Qed.

Lemma leftover_length l : length (leftover l) = (length l mod 3)%nat.
Proof.
  induction l as [l IH] using (induction_ltof1 _ (@length _)); unfold ltof in IH.
  destruct l as [|a [|b [|c l]]]; [done..|]. simpl leftover. rewrite IH by (simpl; lia).
  change (length (a :: b :: c :: l)) with (3 + length l)%nat.
  rewrite Nat.add_comm. rewrite <-Nat.Div0.add_mod_idemp_r. by rewrite Nat.add_0_r.
Qed.

(** A run of denied requests from a clean streak raises one human alert per
    three consecutive denies, each carrying exactly those three reasons in order,
    and leaves the counter at the number of denies not yet alerted. *)
Theorem every_third_deny_alerts sid s evs rs s' :
  streak s -> last_deny_reasons s = [] ->
  evaluate_all sid s evs = (map Deny rs, s') ->
  map ha_deny_reasons (alert_sink s') = map ha_deny_reasons (alert_sink s) ++ triples rs /\
  consecutive_deny_counter s' = Z.of_nat (length rs mod 3).
Proof.
  intros Hs Hnil Hev.
  assert (H : streak s' /\
    map ha_deny_reasons (alert_sink s') =
      map ha_deny_reasons (alert_sink s) ++ triples (last_deny_reasons s ++ rs) /\
    last_deny_reasons s' = leftover (last_deny_reasons s ++ rs)).
  { clear Hnil. revert s rs Hs Hev. induction evs as [|[req clock] evs IH]; intros s rs Hs Hev.
    - destruct rs; simplify_eq/=. rewrite app_nil_r. destruct Hs as [Hc Hl].
      destruct (last_deny_reasons s') as [|a [|b [|c l]]] eqn:E; simpl in *; [..|lia];
        rewrite app_nil_r; unfold streak; rewrite ?E; simpl; auto with lia.
    - simpl in Hev. destruct (evaluate_11_step req sid s clock) as [d s1] eqn:E1.
      destruct (evaluate_all sid s1 evs) as [ds s2] eqn:E2.
      destruct rs as [|r rs]; simplify_eq/=.
      apply deny_step in E1 as (s0 & -> & Hc & Hl & Ha).
      assert (Hs0 : streak s0) by (unfold streak; by rewrite Hc, Hl).
      destruct (record_deny_streak s0 r sid (now_ms s clock) Hs0) as (Hst & Hal & Hle).
      destruct (IH _ _ Hst E2) as (? & -> & ->). split; [done|].
      rewrite Hal, Hle, Ha, Hl. change (r :: rs) with ([r] ++ rs).
      by rewrite <-app_assoc, (app_assoc (last_deny_reasons s)),
        <-triples_app, <-leftover_app. }
  destruct H as ([Hc _] & Ha & Hl). rewrite Hnil in Ha, Hl. simpl in Ha, Hl.
  split; [done|]. by rewrite Hc, Hl, leftover_length.
Qed.

(** ** Undoing an allow *)

Definition set_spent (s : PolicyState) (spent : f64) : PolicyState := {|
  ps_session_key_id := ps_session_key_id s;
  local_spent_usd := spent;
  minutely_window := minutely_window s;
  hourly_window := hourly_window s;
  daily_window := daily_window s;
  monthly_window := monthly_window s;
  last_deny_at_unix := last_deny_at_unix s;
  consecutive_deny_counter := consecutive_deny_counter s;
  last_deny_reasons := last_deny_reasons s;
  alert_sink := alert_sink s;
  policy := policy s;
  now_override := now_override s
|}.

Lemma pop_back_if_snoc {A} (f : A -> bool) l x : f x = true -> pop_back_if f (l ++ [x]) = l.
Proof. intros Hf. unfold pop_back_if. by rewrite last_snoc, Hf, removelast_last. Qed.

Lemma rollback_record s req now :
  is_valid_amount (pr_amount_usd req) = true ->
  rollback_allow (record_allow s req now) req now
      (consecutive_deny_counter s) (last_deny_reasons s) =
  set_spent s (f64_max (f64_sub (f64_add (local_spent_usd s) (pr_amount_usd req))
                                (pr_amount_usd req)) f64_zero).
Proof.
  intros Hv. unfold rollback_allow, record_allow, set_spent. rewrite Hv. simpl.
  pose proof Hv as [Hf _]%valid_amount_spec.
  assert (He : entry_eqb now (pr_amount_usd req) (now, pr_amount_usd req) = true).
  { unfold entry_eqb. simpl. by rewrite Z.eqb_refl, f64_eq_refl by auto using finite_not_nan. }
  by rewrite !(pop_back_if_snoc (ts_eqb now)) by apply Z.eqb_refl;
    rewrite !(pop_back_if_snoc (entry_eqb _ _)) by done.
Qed.

(** ** Persistence *)

(** The fields serde writes; the others carry [#[serde(skip)]]. *)
Record PolicyCounters := {
  pc_session_key_id : string;
  pc_local_spent_usd : f64;
  pc_minutely_window : list Z;
  pc_hourly_window : list Z;
  pc_daily_window : list (Z * f64);
  pc_monthly_window : list (Z * f64);
  pc_last_deny_at_unix : option Z;
  pc_consecutive_deny_counter : Z;
  pc_last_deny_reasons : list DenyReason
}.

Definition counters (s : PolicyState) : PolicyCounters := {|
  pc_session_key_id := ps_session_key_id s;
  pc_local_spent_usd := local_spent_usd s;
  pc_minutely_window := minutely_window s;
  pc_hourly_window := hourly_window s;
  pc_daily_window := daily_window s;
  pc_monthly_window := monthly_window s;
  pc_last_deny_at_unix := last_deny_at_unix s;
  pc_consecutive_deny_counter := consecutive_deny_counter s;
  pc_last_deny_reasons := last_deny_reasons s
|}.

(** [state.session_key_id = session_key_id] on the deserialized counters, the
    skipped fields at their defaults. *)
Definition of_counters (c : PolicyCounters) (session_key_id : string) : PolicyState := {|
  ps_session_key_id := session_key_id;
  local_spent_usd := pc_local_spent_usd c;
  minutely_window := pc_minutely_window c;
  hourly_window := pc_hourly_window c;
  daily_window := pc_daily_window c;
  monthly_window := pc_monthly_window c;
  last_deny_at_unix := pc_last_deny_at_unix c;
  consecutive_deny_counter := pc_consecutive_deny_counter c;
  last_deny_reasons := pc_last_deny_reasons c;
  alert_sink := default_alert_sink;
  policy := None;
  now_override := None
|}.

Section Persistence.
Context {io_error serde_error : Type}.
(** [serde_json::to_vec_pretty] and [from_slice]. *)
Context (to_json : PolicyCounters -> result serde_error string).
Context (from_json : string -> result serde_error PolicyCounters).

Inductive OcPolicyError :=
| Io (e : io_error)
| Serde (e : serde_error)
| InvalidInput (m : string)
| Internal (m : string).

(** Which system call fails. *)
Record IoFaults := {
  lock_poisoned : bool;
  create_dir_all_err : option io_error;
  set_permissions_err : option io_error;
  file_faults : WriteFaults io_error
}.

Definition opt_io (o : option io_error) : result OcPolicyError unit :=
  match o with Some e => Err (Io e) | None => Ok tt end.

Definition persist (f : IoFaults) (s : PolicyState) (path : Path) (pid nanos seq : Z) (d : FS)
  : result OcPolicyError unit * list FS :=
  if lock_poisoned f then (Err (Internal "policy state persist lock poisoned"), [d])
  else
    match (match path.1 with
           | Some _ => let? _ := opt_io (create_dir_all_err f) in opt_io (set_permissions_err f)
           | None => Ok tt
           end) with
    | Err e => (Err e, [d])
    | Ok _ =>
      let tmp := unique_tmp_path path pid nanos seq in
      match to_json (counters s) with
      | Err e => (Err (Serde e), [d])
      | Ok json =>
          let '(r, trace) := replace_file (file_faults f) MODE_PRIVATE_FILE json path tmp d in
          (result_map_err Io r, trace)
      end
    end.

Definition load (read_err : option io_error) (path : Path) (session_key_id : string) (d : FS)
  : result OcPolicyError PolicyState :=
  match d !! path with
  | None => Ok (new session_key_id)
  | Some file =>
      match read_err with
      | Some e => Err (Io e)
      | None =>
          let? c := result_map_err Serde (from_json (file_content file)) in
          Ok (of_counters c session_key_id)
      end
  end.

(** [persist] is atomic under any combination of I/O faults and at any
    crash point: every state the disk goes through has at [path] either the
    previous file or the complete new one, the previous one whenever an error
    is returned; a successful call leaves the new counters readable by [load]
    and no temporary file. *)
Theorem persist_atomic f s path pid nanos seq d :
  let '(r, trace) := persist f s path pid nanos seq d in
  let final := default d (last trace) in
  let tmp := unique_tmp_path path pid nanos seq in
  Forall (fun d' => d' !! path = d !! path \/
    exists json, to_json (counters s) = Ok json /\
      d' !! path = Some {| file_mode := MODE_PRIVATE_FILE; file_content := json |}) trace /\
  match r with
  | Err _ => final !! path = d !! path
  | Ok _ => final !! tmp = None /\
      exists json, to_json (counters s) = Ok json /\
      (forall k, load None path k final =
         let? c := result_map_err Serde (from_json json) in Ok (of_counters c k))
  end.
Proof.
  pose proof (unique_tmp_path_ne path pid nanos seq) as Hne.
  unfold persist. set (tmp := unique_tmp_path _ _ _ _) in *. clearbody tmp.
  destruct (lock_poisoned f); [split; [by repeat constructor; left|done]|].
  destruct (match path.1 with Some _ => _ | None => _ end); [|split; [by repeat constructor; left|done]].
  destruct (to_json (counters s)) as [json|e]; [|split; [by repeat constructor; left|done]].
  pose proof (replace_file_replaced (file_faults f) MODE_PRIVATE_FILE json path tmp d Hne) as H.
  pose proof (replace_file_clean (file_faults f) MODE_PRIVATE_FILE json path tmp d) as Hc.
  unfold replaced, old_or_new in H. destruct (replace_file _ _ _ _ _ _) as [r trace].
  destruct H as [Hall Hfin]. split; [eapply Forall_impl; [exact Hall|]; naive_solver|].
  destruct r as [u|]; cbn [result_map_err]; [|done]. split; [by eapply Hc|].
  exists json. split; [done|]. intros k. unfold load. by rewrite Hfin.
Qed.
End Persistence.

(** ** A concrete policy, request and session, for the witnesses *)

Definition demo_policy : PolicyV2 := {|
  version := 2;
  pv_session_key_id := "sk-1";
  pv_device_id := "dev-1";
  rules := {|
    max_single_amount_usd := f64_of_Z 50;
    max_daily_amount_usd := f64_of_Z 100;
    max_monthly_amount_usd := f64_of_Z 500;
    expiry_unix := 2000000000;
    rate_limit_per_minute := 2;
    rate_limit_per_hour := 10;
    cooldown_after_denial_sec := 60;
    asset_whitelist := ["USDC"];
    chain_whitelist := [];
    contract_whitelist := ["0xAbC"];
    payment_protocols := ["x402"]
  |};
  budget_allocation := {|
    allocated_usd := f64_of_Z 80;
    allocated_at_unix := 0;
    parent_total_usd := f64_of_Z 1000;
    parent_session_id := "parent"
  |}
|}.

Definition demo_request (amount : Z) (asset : string) : PayRequest := {|
  pr_session_key_id := "sk-1";
  pr_device_id := "dev-1";
  pr_amount_usd := f64_of_Z amount;
  pr_asset := asset;
  pr_chain_id := "eip155:8453";
  pr_recipient := Some "0xabc"
|}.

Definition demo_state : PolicyState := with_policy (new "sk-1") demo_policy.

Lemma rate_limit_enforced_witness :
  let s1 := (evaluate_11_step (demo_request 10 "USDC") "sk-1" demo_state 1000).2 in
  (count_recent 60000 1010000 [1000000; 1010000] <= 2)%Z /\
  (count_recent 3600000 1010000 [1000000; 1010000] <= 10)%Z /\
  (evaluate_11_step (demo_request 10 "USDC") "sk-1" s1 1010).1 = Allow.
Proof.
  intros s1.
  assert (H : history "sk-1" demo_policy [1000000]%Z 1000000 s1).
  { apply (history_eval "sk-1" demo_policy [] 0 demo_state (demo_request 10 "USDC") 1000);
      [constructor|vm_compute; discriminate]. }
  assert (Ha : (evaluate_11_step (demo_request 10 "USDC") "sk-1" s1 1010).1 = Allow)
    by (vm_compute; reflexivity).
  destruct (rate_limit_enforced _ _ _ _ _ _ 1010 H ltac:(vm_compute; discriminate) Ha) as [Hm Hh].
  split; [exact Hm|]. split; [exact Hh|exact Ha].
Defined.

Lemma budget_never_exceeded_witness :
  let s1 := (evaluate_11_step (demo_request 10 "USDC") "sk-1" demo_state 1000).2 in
  local_spent_usd s1 = f64_of_Z 10 /\ within_budget demo_policy (local_spent_usd s1).
Proof.
  intros s1. split; [vm_compute; reflexivity|].
  apply (budget_never_exceeded "sk-1"). apply reachable_eval. constructor.
Defined.

Lemma deny_spends_nothing_witness :
  let e := evaluate_11_step (demo_request 10 "DOGE") "sk-1" demo_state 1000 in
  e.1 = Deny Whitelist /\ local_spent_usd e.2 = f64_zero.
Proof.
  intros e. assert (H : e.1 = Deny Whitelist) by (vm_compute; reflexivity).
  split; [exact H|]. exact (proj1 (deny_spends_nothing _ _ _ _ _ H)).
Defined.

Lemma cooldown_blocks_witness :
  let s1 := (evaluate_11_step (demo_request 10 "DOGE") "sk-1" demo_state 1000).2 in
  is_deny (evaluate_11_step (demo_request 10 "USDC") "sk-1" s1 1059).1 = true /\
  is_deny (evaluate_11_step (demo_request 10 "USDC") "sk-1" s1 1060).1 = false.
Proof.
  intros s1. split; [|vm_compute; reflexivity].
  apply (cooldown_blocks demo_policy (demo_request 10 "DOGE") (demo_request 10 "USDC") "sk-1"
           demo_state 1000 1059 Whitelist); vm_compute; reflexivity.
Defined.

Lemma every_third_deny_alerts_witness :
  let evs := [(demo_request 10 "DOGE", 1000); (demo_request 10 "USDC", 1001);
              (demo_request (-5) "USDC", 1002); (demo_request 60 "USDC", 1100)]%Z in
  let rs := [Whitelist; Cooldown; InvalidAmount; BudgetExceeded] in
  exists s', evaluate_all "sk-1" demo_state evs = (map Deny rs, s') /\
    map ha_deny_reasons (alert_sink s') = [[Whitelist; Cooldown; InvalidAmount]] /\
    consecutive_deny_counter s' = 1%Z.
Proof.
  intros evs rs. exists (evaluate_all "sk-1" demo_state evs).2.
  assert (H : evaluate_all "sk-1" demo_state evs =
              (map Deny rs, (evaluate_all "sk-1" demo_state evs).2)) by (vm_compute; reflexivity).
  split; [exact H|].
  apply (every_third_deny_alerts "sk-1" demo_state evs rs _); [|reflexivity|exact H].
  split; vm_compute; auto.
Defined.
