(* ===== verification/Json.v ===== *)
(** * [serde_json::Value]

    serde_json is a dependency, so its numbers are abstract: a type with the
    operations the policy code calls, and the documented facts about them that
    some theorems assume.  [Value] has the constructors the code matches on. *)

From Stdlib Require Import ZArith String Bool.
From stdpp Require Import base list strings.
From S2P Require Import Prelude F64.

(** [serde_json::Number]. *)
Class SerdeNumber := {
  number : Type;
  (** [Number::from_f64] *)
  number_from_f64 : f64 -> option number;
  (** [Number::as_f64] *)
  number_as_f64 : number -> option f64;
  (** [Number::from] at an unsigned integer *)
  number_from_u64 : Z -> number;
  (** [PartialEq] *)
  number_eqb : number -> number -> bool
}.

(** What the serde_json documentation says of them: a non-finite float is not a
    JSON number, and a float converts back to itself. *)
Class SerdeNumberLaws (S : SerdeNumber) : Prop := {
  from_f64_finite x : f64_is_finite x = true -> exists n, number_from_f64 x = Some n;
  from_f64_non_finite x : f64_is_finite x = false -> number_from_f64 x = None;
  as_from_f64 x n : number_from_f64 x = Some n -> number_as_f64 n = Some x
}.

Section WithNumber.
Context `{S : SerdeNumber}.

Inductive Value :=
| Null
| Bool (b : bool)
| Number (n : number)
| VString (s : string)
| Array (l : list Value)
| Object (m : list (string * Value)).

(** [Value]'s derived [PartialEq]. *)
Fixpoint value_eqb (a b : Value) : bool :=
  match a, b with
  | Null, Null => true
  | Bool x, Bool y => Bool.eqb x y
  | Number x, Number y => number_eqb x y
  | VString x, VString y => String.eqb x y
  | Array l1, Array l2 =>
      (fix eqb_list (l1 l2 : list Value) : bool :=
         match l1, l2 with
         | [], [] => true
         | x :: l1', y :: l2' => value_eqb x y && eqb_list l1' l2'
         | _, _ => false
         end) l1 l2
  | Object m1, Object m2 =>
      (fix eqb_map (m1 m2 : list (string * Value)) : bool :=
         match m1, m2 with
         | [], [] => true
         | (k1, x) :: m1', (k2, y) :: m2' =>
             String.eqb k1 k2 && value_eqb x y && eqb_map m1' m2'
         | _, _ => false
         end) m1 m2
  | _, _ => false
  end.

(** [serde_json::json!(n)] at an unsigned integer. *)
Definition json_u64 (n : Z) : Value := Number (number_from_u64 n).

(** [serde_json::json!(x)] at [x : f64]: a non-finite float becomes [null]. *)
Definition json_f64 (x : f64) : Value :=
  match number_from_f64 x with Some n => Number n | None => Null end.

(** Insertion into [serde_json::Map], a [BTreeMap]. *)
Fixpoint object_insert (k : string) (v : Value) (m : list (string * Value))
  : list (string * Value) :=
  match m with
  | [] => [(k, v)]
  | (k', v') :: m' =>
      match String.compare k k' with
      | Lt => (k, v) :: m
      | Eq => (k, v) :: m'
      | Gt => (k', v') :: object_insert k v m'
      end
  end.

(** [Value::get] at a key, and [as_str]. *)
Definition value_get (key : string) (v : Value) : option Value :=
  match v with
  | Object m => snd <$> List.find (fun kv => String.eqb kv.1 key) m
  | _ => None
  end.

Definition as_str (v : Value) : option string := match v with VString s => Some s | _ => None end.
End WithNumber.

(** An instance with the three representations of a JSON number, used by the
    witnesses: unsigned, negative, float. *)
Inductive DemoNumber := PosInt (n : Z) | NegInt (n : Z) | Float (x : f64).

#[export] Instance demo_number : SerdeNumber := {|
  number := DemoNumber;
  number_from_f64 x := if f64_is_finite x then Some (Float x) else None;
  number_as_f64 n := match n with PosInt z | NegInt z => Some (f64_of_Z z) | Float x => Some x end;
  number_from_u64 := PosInt;
  number_eqb a b :=
    match a, b with
    | PosInt x, PosInt y | NegInt x, NegInt y => (x =? y)%Z
    | Float x, Float y => f64_eq x y
    | _, _ => false
    end
|}.

#[export] Instance demo_number_laws : SerdeNumberLaws demo_number.
Proof.
  split; simpl; intros x; [|by intros ->|].
  - intros ->. eauto.
  - intros n. destruct (f64_is_finite x); [|done]. by intros [= <-].
Qed.
