(* ===== verification/Strategy.v ===== *)
(** * In-process strategy plugins

    [crates/oc-policy/src/native_strategy.rs].  A strategy is a pure function of
    its request and host; the registry's [BTreeMap] is an association list
    sorted by name, which is the order [evaluate] consults the plugins in. *)

From Stdlib Require Import ZArith String Ascii Bool Lia Sorting.Sorted.
From stdpp Require Import base list strings.
From S2P Require Import Prelude F64 Str Json PolicyV2.

Section Strategy.
Context `{S : SerdeNumber}.

Inductive StrategyOutcome :=
| SAllow
| SWarn (message : string)
| SDeny (reason message : string).

Definition outcome_is_deny (o : StrategyOutcome) : bool :=
  match o with SDeny _ _ => true | _ => false end.

Record StrategyEvalRequest := {
  sr_method : string;
  sr_chain_id : string;
  sr_amount_usd : f64;
  sr_asset : string;
  sr_recipient : string;
  sr_session_key_id : string;
  sr_host_facts : Value
}.

Definition default_request : StrategyEvalRequest := {|
  sr_method := ""; sr_chain_id := ""; sr_amount_usd := f64_zero; sr_asset := "";
  sr_recipient := ""; sr_session_key_id := ""; sr_host_facts := Object []
|}.

(** The trait [StrategyHost]. *)
Record StrategyHost := { host_facts : StrategyEvalRequest -> Value }.

Definition NoHostFacts : StrategyHost := {| host_facts := fun _ => Object [] |}.

Definition StrategyFn : Type := StrategyEvalRequest -> StrategyHost -> StrategyOutcome.

Record StrategyPlugin := { plugin_name : string; plugin_func : StrategyFn }.

Definition set_host_facts (req : StrategyEvalRequest) (v : Value) : StrategyEvalRequest := {|
  sr_method := sr_method req; sr_chain_id := sr_chain_id req;
  sr_amount_usd := sr_amount_usd req; sr_asset := sr_asset req;
  sr_recipient := sr_recipient req; sr_session_key_id := sr_session_key_id req;
  sr_host_facts := v
|}.

Definition plugin_evaluate (p : StrategyPlugin) (req : StrategyEvalRequest)
    (host : StrategyHost) : StrategyOutcome :=
  let req := set_host_facts req (host_facts host req) in
  plugin_func p req host.

Record RegistryOutcome := {
  denied_by : option (string * string * string);
  warnings : list (string * string);
  errors : list (string * string)
}.

Definition registry_is_denied (o : RegistryOutcome) : bool :=
  match denied_by o with Some _ => true | None => false end.

(** ** The registry: a [BTreeMap<String, StrategyPlugin>] *)

Definition StrategyRegistry : Type := list (string * StrategyPlugin).

Definition registry_new : StrategyRegistry := [].

Fixpoint btree_insert (k : string) (p : StrategyPlugin) (m : StrategyRegistry)
  : StrategyRegistry :=
  match m with
  | [] => [(k, p)]
  | (k', p') :: m' =>
      match String.compare k k' with
      | Lt => (k, p) :: m
      | Eq => (k, p) :: m'
      | Gt => (k', p') :: btree_insert k p m'
      end
  end.

Definition registry_insert (m : StrategyRegistry) (p : StrategyPlugin) : StrategyRegistry :=
  btree_insert (plugin_name p) p m.

Fixpoint registry_remove (m : StrategyRegistry) (name : string)
  : option StrategyPlugin * StrategyRegistry :=
  match m with
  | [] => (None, [])
  | (k, p) :: m' =>
      if String.eqb k name then (Some p, m')
      else let '(r, m'') := registry_remove m' name in (r, (k, p) :: m'')
  end.

Definition registry_len (m : StrategyRegistry) : nat := length m.
Definition registry_is_empty (m : StrategyRegistry) : bool := is_nil m.
Definition registry_names (m : StrategyRegistry) : list string := map fst m.

Fixpoint consult (m : StrategyRegistry) (req : StrategyEvalRequest) (host : StrategyHost)
    (acc : RegistryOutcome) : RegistryOutcome :=
  match m with
  | [] => acc
  | (name, plugin) :: m' =>
      match plugin_evaluate plugin req host with
      | SAllow => consult m' req host acc
      | SWarn message =>
          consult m' req host {| denied_by := denied_by acc;
                                 warnings := warnings acc ++ [(name, message)];
                                 errors := errors acc |}
      | SDeny reason message =>
          {| denied_by := Some (name, reason, message);
             warnings := warnings acc; errors := errors acc |}
      end
  end.

Definition registry_evaluate (m : StrategyRegistry) (req : StrategyEvalRequest)
    (host : StrategyHost) : RegistryOutcome :=
  consult m req host {| denied_by := None; warnings := []; errors := [] |}.

Definition strategy_request_from_pay (req : PayRequest) (method : string)
  : StrategyEvalRequest := {|
  sr_method := method;
  sr_chain_id := pr_chain_id req;
  sr_amount_usd := pr_amount_usd req;
  sr_asset := pr_asset req;
  sr_recipient := default "" (pr_recipient req);
  sr_session_key_id := pr_session_key_id req;
  sr_host_facts := Object []
|}.

(** ** Properties *)

(** The keys are strictly increasing and each plugin sits under its name. *)
Definition registry_wf (m : StrategyRegistry) : Prop :=
  StronglySorted (fun a b => str_lt a.1 b.1) m /\ Forall (fun e => plugin_name e.2 = e.1) m.

Fixpoint registry_get (m : StrategyRegistry) (name : string) : option StrategyPlugin :=
  match m with
  | [] => None
  | (k, p) :: m' => if String.eqb k name then Some p else registry_get m' name
  end.
End Strategy.

(** ** Well-formedness and contents *)

Section Registry.
Context `{S : SerdeNumber}.

Lemma btree_insert_keys k p (m : StrategyRegistry) (P : string -> Prop) :
  P k -> Forall (fun e => P e.1) m -> Forall (fun e => P e.1) (btree_insert k p m).
Proof.
  intros Hk. induction 1 as [|[k' p'] m Hk' Hm IH]; simpl; [by repeat constructor|].
  destruct (String.compare k k'); repeat constructor; done.
Qed.

Lemma registry_insert_wf m p : registry_wf m -> registry_wf (registry_insert m p).
Proof.
  unfold registry_insert, registry_wf. intros [Hs Hn].
  induction Hs as [|[k' p'] m Hs IH Hall]; simpl; [by repeat constructor|].
  inversion Hn as [|? ? Hk' Hm]; subst. simpl in Hk', Hall.
  destruct (String.compare (plugin_name p) k') eqn:E.
  - apply str_compare_eq in E. rewrite E. split; repeat constructor; done.
  - split; [|by repeat constructor]. constructor; [by constructor|].
    constructor; [done|]. eapply Forall_impl; [exact Hall|]. intros e He.
    by eapply str_lt_trans.
  - destruct (IH Hm) as [IHs IHn]. split; constructor; try done.
    simpl. apply (btree_insert_keys _ _ _ (fun k => str_lt k' k)); [|done].
    by apply str_compare_gt.
Qed.

Lemma registry_remove_subset m name e :
  In e (registry_remove m name).2 -> In e m.
Proof.
  induction m as [|[k p] m IH]; simpl; [done|].
  destruct (String.eqb k name); [by right|].
  destruct (registry_remove m name) as [r m'']. simpl in *. naive_solver.
Qed.

Lemma registry_remove_wf m name : registry_wf m -> registry_wf (registry_remove m name).2.
Proof.
  intros [Hs Hn]. induction Hs as [|[k p] m Hs IH Hall]; simpl; [by repeat constructor|].
  inversion Hn as [|? ? Hk Hm]; subst. destruct (String.eqb k name); [done|].
  pose proof (registry_remove_subset m name) as Hsub.
  destruct (registry_remove m name) as [r m''] eqn:E. simpl in *.
  destruct (IH Hm) as [IHs IHn]. split; constructor; try done.
  rewrite Forall_forall in *. intros e He. apply Hall, list_elem_of_In, Hsub.
  by apply list_elem_of_In.
Qed.

Lemma registry_get_insert m p name :
  registry_wf m ->
  registry_get (registry_insert m p) name =
  if String.eqb (plugin_name p) name then Some p else registry_get m name.
Proof.
  unfold registry_insert. intros [Hs _].
  induction Hs as [|[k' p'] m Hs IH Hall]; simpl; [done|].
  destruct (String.compare (plugin_name p) k') eqn:E; simpl.
  - apply str_compare_eq in E as ->. by destruct (String.eqb k' name).
  - done.
  - rewrite IH. destruct (String.eqb_spec k' name) as [<-|]; [|done].
    apply str_compare_gt, str_lt_ne in E. by destruct (String.eqb_spec (plugin_name p) k').
Qed.

Lemma registry_get_lt m name :
  Forall (fun e => str_lt name e.1) m -> registry_get m name = None.
Proof.
  induction 1 as [|[k p] m Hk _ IH]; simpl; [done|].
  apply str_lt_ne in Hk. by destruct (String.eqb_spec k name).
Qed.

(** Sorted contents are canonical. *)
Lemma registry_ext m1 m2 :
  registry_wf m1 -> registry_wf m2 ->
  (forall n, registry_get m1 n = registry_get m2 n) -> m1 = m2.
Proof.
  intros [Hs1 Hn1] [Hs2 Hn2]. clear Hn1 Hn2. revert m2 Hs2.
  induction Hs1 as [|[k1 p1] m1 Hs1 IH Hall1]; intros m2 Hs2 Hget.
  - destruct m2 as [|[k2 p2] m2]; [done|].
    specialize (Hget k2). simpl in Hget. by rewrite String.eqb_refl in Hget.
  - destruct Hs2 as [|[k2 p2] m2 Hs2 Hall2].
    { specialize (Hget k1). simpl in Hget. by rewrite String.eqb_refl in Hget. }
    simpl in Hall1, Hall2.
    assert (Hk : k1 = k2).
    { destruct (String.compare k1 k2) eqn:E.
      - by apply str_compare_eq.
      - exfalso. specialize (Hget k1). simpl in Hget. rewrite String.eqb_refl in Hget.
        destruct (String.eqb_spec k2 k1) as [->|]; [by apply str_lt_irrefl in E|].
        rewrite registry_get_lt in Hget; [done|].
        eapply Forall_impl; [exact Hall2|]. intros e He. by eapply str_lt_trans.
      - apply str_compare_gt in E. exfalso. specialize (Hget k2). simpl in Hget.
        rewrite String.eqb_refl in Hget.
        destruct (String.eqb_spec k1 k2) as [->|]; [by apply str_lt_irrefl in E|].
        rewrite registry_get_lt in Hget; [done|].
        eapply Forall_impl; [exact Hall1|]. intros e He. by eapply str_lt_trans. }
    subst k2. f_equal.
    + specialize (Hget k1). simpl in Hget. rewrite String.eqb_refl in Hget. congruence.
    + apply IH; [done|]. intros n. specialize (Hget n). simpl in Hget.
      destruct (String.eqb_spec k1 n) as [->|]; [|done].
      by rewrite !registry_get_lt.
Qed.

(** Every registry the API can build. *)
Inductive built : StrategyRegistry -> Prop :=
| built_new : built registry_new
| built_insert m p : built m -> built (registry_insert m p)
| built_remove m name : built m -> built (registry_remove m name).2.

Lemma built_wf m : built m -> registry_wf m.
Proof.
  induction 1; [split; constructor|by apply registry_insert_wf|by apply registry_remove_wf].
Qed.

(** Two registries built by any sequences of insertions, replacements and
    removals that end with the same plugins consult them identically: the
    verdict depends on the registered names and functions, not on the order of
    registration. *)
Theorem registry_order_independent m1 m2 req host :
  built m1 -> built m2 ->
  (forall n, registry_get m1 n = registry_get m2 n) ->
  registry_names m1 = registry_names m2 /\
  registry_evaluate m1 req host = registry_evaluate m2 req host.
Proof.
  intros H1 H2 Hget. by rewrite (registry_ext m1 m2 (built_wf _ H1) (built_wf _ H2) Hget).
Qed.

(** ** Evaluation *)

(** The warnings a list of plugins raises, in order. *)
Fixpoint raised (m : StrategyRegistry) (req : StrategyEvalRequest) (host : StrategyHost)
  : list (string * string) :=
  match m with
  | [] => []
  | (name, plugin) :: m' =>
      match plugin_evaluate plugin req host with
      | SWarn message => (name, message) :: raised m' req host
      | _ => raised m' req host
      end
  end.

Definition permits (req : StrategyEvalRequest) (host : StrategyHost)
    (e : string * StrategyPlugin) : Prop :=
  outcome_is_deny (plugin_evaluate e.2 req host) = false.

Lemma consult_permits m req host acc :
  Forall (permits req host) m ->
  consult m req host acc =
    {| denied_by := denied_by acc; warnings := warnings acc ++ raised m req host;
       errors := errors acc |}.
Proof.
  intros H. revert acc. induction H as [|[name p] m Hp _ IH]; intros acc; simpl.
  - rewrite app_nil_r. by destruct acc.
  - unfold permits in Hp. simpl in Hp.
    destruct (plugin_evaluate p req host); [done| |done].
    rewrite IH. simpl. by rewrite <-app_assoc.
Qed.

Lemma consult_app m1 m2 req host acc :
  Forall (permits req host) m1 ->
  consult (m1 ++ m2) req host acc =
  consult m2 req host {| denied_by := denied_by acc;
    warnings := warnings acc ++ raised m1 req host; errors := errors acc |}.
Proof.
  intros H. revert acc. induction H as [|[name p] m1 Hp _ IH]; intros acc; simpl.
  - rewrite app_nil_r. by destruct acc.
  - unfold permits in Hp. simpl in Hp.
    destruct (plugin_evaluate p req host); [done| |done].
    rewrite IH. simpl. by rewrite <-app_assoc.
Qed.

Lemma first_deny m req host :
  Forall (permits req host) m \/
  exists pre name p post reason message,
    m = pre ++ (name, p) :: post /\ Forall (permits req host) pre /\
    plugin_evaluate p req host = SDeny reason message.
Proof.
  induction m as [|[name p] m IH]; [by left|].
  destruct (plugin_evaluate p req host) as [|w|reason message] eqn:E.
  3: { right. exists [], name, p, m, reason, message. by repeat constructor. }
  all: destruct IH as [IH|(pre & n' & p' & post & r & msg & -> & Hpre & Hp)];
    [left; constructor; [by unfold permits; simpl; rewrite E|done]|
     right; exists ((name, p) :: pre), n', p', post, r, msg; split_and!; try done;
     constructor; [by unfold permits; simpl; rewrite E|done]].
Qed.

Lemma registry_verdict m req host :
  (denied_by (registry_evaluate m req host) = None <-> Forall (permits req host) m) /\
  errors (registry_evaluate m req host) = [].
Proof.
  unfold registry_evaluate.
  destruct (first_deny m req host) as [Hall|(pre & n' & p' & post & r & msg & -> & Hpre & Hp)].
  - by rewrite consult_permits.
  - rewrite consult_app by done. simpl. rewrite Hp. simpl. split; [|done].
    split; [done|]. intros Hall. apply Forall_app in Hall as [_ Hall].
    inversion Hall as [|? ? Hx _]; subst. unfold permits in Hx. simpl in Hx.
    by rewrite Hp in Hx.
Qed.

(** Deny wins and short-circuits: the registry blocks a request exactly
    when some plugin denies it, names the first denying plugin in name order
    with its reason, reports only the warnings raised before it, and never an
    error. *)
Theorem registry_deny_wins m req host name reason message :
  let o := registry_evaluate m req host in
  (denied_by o = Some (name, reason, message) <->
   exists pre p post, m = pre ++ (name, p) :: post /\ Forall (permits req host) pre /\
     plugin_evaluate p req host = SDeny reason message) /\
  (denied_by o = None <-> Forall (permits req host) m) /\
  errors o = [] /\
  exists pre, prefix pre m /\ Forall (permits req host) pre /\
    warnings o = raised pre req host /\ (denied_by o = None -> pre = m).
Proof.
  unfold registry_evaluate. cbv zeta.
  destruct (first_deny m req host) as [Hall|(pre & n' & p' & post & r & msg & -> & Hpre & Hp)].
  - rewrite consult_permits by done. simpl. split_and!; try done.
    + split; [done|]. intros (pre & p & post & -> & _ & Hd).
      apply Forall_app in Hall as [_ Hall]. inversion Hall as [|? ? Hx _]; subst.
      unfold permits in Hx. simpl in Hx. by rewrite Hd in Hx.
    + by exists m.
  - rewrite consult_app by done. simpl. rewrite Hp. simpl. split_and!; try done.
    + split.
      * intros [= -> -> ->]. by exists pre, p', post.
      * intros (pre2 & p2 & post2 & Heq & Hpre2 & Hd2).
        assert (Hsame : pre = pre2 /\ (n', p') :: post = (name, p2) :: post2).
        { clear -Heq Hpre Hpre2 Hp Hd2. revert pre2 Heq Hpre2.
          induction Hpre as [|e pre He _ IH]; intros [|e2 pre2] Heq Hpre2; simplify_eq/=.
          - done.
          - inversion Hpre2 as [|? ? Hx _]; subst. unfold permits in Hx. simpl in Hx.
            by rewrite Hp in Hx.
          - unfold permits in He. simpl in He. by rewrite Hd2 in He.
          - inversion Hpre2; subst. destruct (IH pre2) as [-> ?]; auto. }
        destruct Hsame as [-> [= -> -> ->]]. congruence.
    + split; [done|]. intros Hall. apply Forall_app in Hall as [_ Hall].
      inversion Hall as [|? ? Hx _]; subst. unfold permits in Hx. simpl in Hx.
      by rewrite Hp in Hx.
    + exists pre. split_and!; try done. by exists ((n', p') :: post).
Qed.
End Registry.

Definition demo_plugin (name : string) (o : StrategyOutcome) : StrategyPlugin :=
  {| plugin_name := name; plugin_func := fun _ _ => o |}.

Lemma registry_order_independent_witness :
  let a := demo_plugin "a" (SWarn "careful") in
  let b := demo_plugin "b" (SDeny "limit" "too much") in
  let m1 := registry_insert (registry_insert registry_new a) b in
  let m2 := registry_insert (registry_insert registry_new b) a in
  registry_evaluate m1 default_request NoHostFacts =
  registry_evaluate m2 default_request NoHostFacts /\
  denied_by (registry_evaluate m1 default_request NoHostFacts) = Some ("b", "limit", "too much").
Proof.
  intros a b m1 m2. split; [|reflexivity].
  apply (registry_order_independent m1 m2); repeat constructor.
Defined.
