(* ===== verification/PolicyV3.v ===== *)
(** * Policy Engine v3: attribute rules on top of v2, then strategy plugins

    [crates/oc-policy/src/v3.rs].  The v2 flow runs first; Forbid and Permit
    rules may only tighten its answer, and the strategy registry may only
    tighten theirs. *)

From Stdlib Require Import ZArith String Bool Lia SpecFloat.
From stdpp Require Import base list strings.
From S2P Require Import Prelude F64 Str Json PolicyV2 Strategy.

Local Open Scope oc_scope.

Definition MAX_POLICY_JSON_BYTES : Z := 256 * 1024.
Definition MAX_RULE_NODES : nat := Z.to_nat 8192.
Definition MAX_CONDITION_DEPTH : nat := 64.

(** ** Rules *)

Inductive RuleEffect := Permit | Forbid.

#[export] Instance RuleEffect_eq_dec : EqDecision RuleEffect.
Proof. solve_decision. Defined.

Inductive ComparisonOp := OpEq | OpNe | OpLt | OpLe | OpGt | OpGe.

Inductive CondOutcome := Matched | NotMatched | DepthExceeded.

#[export] Instance CondOutcome_eq_dec : EqDecision CondOutcome.
Proof. solve_decision. Defined.

Section V3.
Context `{S : SerdeNumber}.

Inductive RuleCondition :=
| Comparison (field : string) (operator : ComparisonOp) (value : Value)
| Membership (field : string) (values : list Value)
| All (conditions : list RuleCondition)
| Any (conditions : list RuleCondition)
| Not (condition : RuleCondition)
| Always (value : bool).

Record PolicyRule := {
  rule_id : string;
  effect : RuleEffect;
  condition : RuleCondition;
  description : option string
}.

Record PolicyV3 := {
  v2 : PolicyV2;
  v3_rules : list PolicyRule
}.

(** ** Fields and comparisons *)

Definition get_field (req : PayRequest) (field : string) : Value :=
  if String.eqb field "amount_usd" then json_f64 (pr_amount_usd req)
  else if String.eqb field "asset" then VString (pr_asset req)
  else if String.eqb field "chain_id" then VString (pr_chain_id req)
  else if String.eqb field "session_key_id" then VString (pr_session_key_id req)
  else if String.eqb field "device_id" then VString (pr_device_id req)
  else if String.eqb field "recipient" then
    match pr_recipient req with Some r => VString r | None => Null end
  else Null.

Definition NUM_ABS_EPSILON : f64 := f64_1e_9.
Definition NUM_REL_EPSILON : f64 := f64_1e_9.

Definition numbers_eq (a b : f64) : bool :=
  f64_le (f64_abs (f64_sub a b))
         (f64_max NUM_ABS_EPSILON
            (f64_mul NUM_REL_EPSILON (f64_max (f64_abs a) (f64_abs b)))).

Definition compare_values (actual : Value) (op : ComparisonOp) (expected : Value) : bool :=
  match actual, expected with
  | Number a, Number e =>
      match number_as_f64 a, number_as_f64 e with
      | Some a, Some e =>
          if negb (f64_is_finite a) || negb (f64_is_finite e)
          then match op with OpNe => true | _ => false end
          else match op with
               | OpEq => numbers_eq a e
               | OpNe => negb (numbers_eq a e)
               | OpLt => f64_lt a e
               | OpLe => f64_le a e
               | OpGt => f64_lt e a
               | OpGe => f64_le e a
               end
      | _, _ => false
      end
  | VString a, VString e =>
      match op with
      | OpEq => String.eqb a e
      | OpNe => negb (String.eqb a e)
      | OpLt | OpLe | OpGt | OpGe => false
      end
  | _, _ => false
  end.

(** ** Condition trees *)

Definition of_bool (b : bool) : CondOutcome := if b then Matched else NotMatched.

(** [depth] counts down from the cap here: [budget = MAX_CONDITION_DEPTH -
    depth], so the test [depth >= MAX_CONDITION_DEPTH] is [budget = 0]. *)
Fixpoint evaluate_condition_budget (budget : nat) (c : RuleCondition) (req : PayRequest)
  : CondOutcome :=
  match budget with
  | O => DepthExceeded
  | Datatypes.S budget' =>
    match c with
    | Always value => of_bool value
    | Comparison field operator value =>
        of_bool (compare_values (get_field req field) operator value)
    | Membership field values =>
        of_bool (existsb (fun v => value_eqb v (get_field req field)) values)
    | All conditions =>
        (fix loop (cs : list RuleCondition) (result : CondOutcome) : CondOutcome :=
           match cs with
           | [] => result
           | c :: cs' =>
               match evaluate_condition_budget budget' c req with
               | DepthExceeded => DepthExceeded
               | NotMatched => loop cs' NotMatched
               | Matched => loop cs' result
               end
           end) conditions Matched
    | Any conditions =>
        (fix loop (cs : list RuleCondition) (result : CondOutcome) : CondOutcome :=
           match cs with
           | [] => result
           | c :: cs' =>
               match evaluate_condition_budget budget' c req with
               | DepthExceeded => DepthExceeded
               | Matched => loop cs' Matched
               | NotMatched => loop cs' result
               end
           end) conditions NotMatched
    | Not condition =>
        match evaluate_condition_budget budget' condition req with
        | DepthExceeded => DepthExceeded
        | Matched => NotMatched
        | NotMatched => Matched
        end
    end
  end.

Definition evaluate_condition_outcome (c : RuleCondition) (req : PayRequest) (depth : nat)
  : CondOutcome :=
  evaluate_condition_budget (MAX_CONDITION_DEPTH - depth) c req.

(** Number of nodes of a tree: the bound on both worklist loops. *)
Fixpoint cond_nodes (c : RuleCondition) : nat :=
  match c with
  | All cs | Any cs => Datatypes.S (list_sum (map cond_nodes cs))
  | Not c => Datatypes.S (cond_nodes c)
  | _ => 1
  end.

(** The worklist of [condition_touches_non_finite_number]: [stack] is the Rust
    vector with its top first, so [extend] pushes the children reversed. *)
Fixpoint touches_loop (fuel : nat) (stack : list (RuleCondition * nat)) (req : PayRequest)
  : bool :=
  match fuel, stack with
  | O, _ | _, [] => false
  | Datatypes.S fuel', (cond, depth) :: stack' =>
      if (MAX_CONDITION_DEPTH <=? depth)%nat then touches_loop fuel' stack' req
      else
        match cond with
        | Comparison field _ _ =>
            if String.eqb field "amount_usd" && negb (f64_is_finite (pr_amount_usd req))
            then true else touches_loop fuel' stack' req
        | All conditions | Any conditions =>
            touches_loop fuel'
              (rev (map (fun c => (c, Datatypes.S depth)) conditions) ++ stack') req
        | Not condition => touches_loop fuel' ((condition, Datatypes.S depth) :: stack') req
        | Membership _ _ | Always _ => touches_loop fuel' stack' req
        end
  end.

Definition condition_touches_non_finite_number (c : RuleCondition) (req : PayRequest) : bool :=
  touches_loop (Datatypes.S (cond_nodes c)) [(c, O)] req.

(** ** Evaluation *)

Definition effect_eqb (a b : RuleEffect) : bool := bool_decide (a = b).
Definition outcome_eqb (a b : CondOutcome) : bool := bool_decide (a = b).

(** The first loop: every outcome, or [None] at the first overflow. *)
Fixpoint rule_outcomes (rs : list PolicyRule) (req : PayRequest) : option (list CondOutcome) :=
  match rs with
  | [] => Some []
  | rule :: rs' =>
      let o := evaluate_condition_outcome (condition rule) req 0 in
      if outcome_eqb o DepthExceeded then None
      else match rule_outcomes rs' req with
           | Some os => Some (o :: os)
           | None => None
           end
  end.

(** The second loop: does some Forbid rule fire? *)
Definition forbid_fires (req : PayRequest) (ro : PolicyRule * CondOutcome) : bool :=
  let '(rule, o) := ro in
  effect_eqb (effect rule) Forbid &&
  (outcome_eqb o Matched ||
   (negb (outcome_eqb o Matched) && condition_touches_non_finite_number (condition rule) req)).

Definition permit_matches (ro : PolicyRule * CondOutcome) : bool :=
  let '(rule, o) := ro in effect_eqb (effect rule) Permit && outcome_eqb o Matched.

(** The rule stage of [evaluate_v3]: what it makes of a v2 allow. *)
Definition apply_rules (rs : list PolicyRule) (req : PayRequest) (v2_decision : Verdict)
  : Verdict :=
  match rule_outcomes rs req with
  | None => Deny Unknown
  | Some outcomes =>
      if existsb (forbid_fires req) (combine rs outcomes) then Deny Unknown
      else if existsb (fun r => effect_eqb (effect r) Permit) rs &&
              negb (existsb permit_matches (combine rs outcomes))
      then Deny Unknown
      else v2_decision
  end.

Definition evaluate_v3 (p : PolicyV3) (req : PayRequest) (s : PolicyState) (clock : Z)
  : Verdict * PolicyState :=
  let prev_policy := policy s in
  let s := set_policy s (Some (v2 p)) in
  let '(v2_decision, s) := evaluate_11_step req (pv_session_key_id (v2 p)) s clock in
  let s := set_policy s prev_policy in
  match v2_decision with
  | Deny reason => (Deny reason, s)
  | _ => (apply_rules (v3_rules p) req v2_decision, s)
  end.

(** ** Parsing limits *)

(** [count_condition_nodes]: a worklist that stops past the cap. *)
Fixpoint count_loop (fuel : nat) (count : nat) (stack : list RuleCondition) : nat :=
  match fuel, stack with
  | O, _ | _, [] => count
  | Datatypes.S fuel', cond :: stack' =>
      let count := Datatypes.S count in
      if (MAX_RULE_NODES <? count)%nat then count
      else
        match cond with
        | All conditions | Any conditions => count_loop fuel' count (rev conditions ++ stack')
        | Not condition => count_loop fuel' count (condition :: stack')
        | Comparison _ _ _ | Membership _ _ | Always _ => count_loop fuel' count stack'
        end
  end.

(** Each turn of the loop counts a node, so one more than the cap is enough
    fuel. *)
Definition count_condition_nodes (rs : list PolicyRule) : nat :=
  count_loop (Datatypes.S MAX_RULE_NODES) 0 (rev (map condition rs)).

(** [serde_json::from_str] is [from_str]. *)
Definition parse_policy_v3 {io_error serde_error : Type}
    (from_str : string -> result serde_error PolicyV3) (json : string)
  : result (@OcPolicyError io_error serde_error) PolicyV3 :=
  if (MAX_POLICY_JSON_BYTES <? str_len json)%Z then
    Err (InvalidInput ("policy JSON exceeds maximum size: " +:+ fmt_Z (str_len json) +:+
                       " bytes > " +:+ fmt_Z MAX_POLICY_JSON_BYTES))
  else
    let? p := result_map_err Serde (from_str json) in
    let nodes := count_condition_nodes (v3_rules p) in
    if (MAX_RULE_NODES <? nodes)%nat then
      Err (InvalidInput ("policy exceeds maximum rule-node count: " +:+
                         fmt_Z (Z.of_nat nodes) +:+ " > " +:+ fmt_Z (Z.of_nat MAX_RULE_NODES)))
    else Ok p.

(** ** Strategy plugins *)

Record StrategyDecision := {
  sd_decision : Verdict;
  sd_denied_by : option (string * string * string);
  sd_warnings : list (string * string);
  sd_errors : list (string * string)
}.

Definition sd_is_denied (d : StrategyDecision) : bool := is_deny (sd_decision d).

Definition passthrough (d : Verdict) : StrategyDecision := {|
  sd_decision := d; sd_denied_by := None; sd_warnings := []; sd_errors := []
|}.

(** [clock] is the reading inside [evaluate_v3], [clock'] the later one of
    [state.now_ms()] before the rollback. *)
Definition evaluate_v3_with_strategies (p : PolicyV3) (req : PayRequest) (s : PolicyState)
    (registry : StrategyRegistry) (method : string) (host : StrategyHost)
    (clock clock' : Z) : StrategyDecision * PolicyState :=
  let prior_counter := consecutive_deny_counter s in
  let prior_reasons := last_deny_reasons s in
  let '(decision, s) := evaluate_v3 p req s clock in
  if is_deny decision || registry_is_empty registry then (passthrough decision, s)
  else
    let sreq := strategy_request_from_pay req method in
    let o := registry_evaluate registry sreq host in
    match denied_by o with
    | Some _ =>
        let now := now_ms s clock' in
        let s := rollback_allow s req now prior_counter prior_reasons in
        let s := record_deny s Unknown (pr_session_key_id req) now in
        ({| sd_decision := Deny Unknown; sd_denied_by := denied_by o;
            sd_warnings := warnings o; sd_errors := errors o |}, s)
    | None =>
        ({| sd_decision := decision; sd_denied_by := None;
            sd_warnings := warnings o; sd_errors := errors o |}, s)
    end.

Definition evaluate_v3_with_registry (p : PolicyV3) (req : PayRequest) (s : PolicyState)
    (registry : StrategyRegistry) (method : string) (clock clock' : Z)
  : StrategyDecision * PolicyState :=
  evaluate_v3_with_strategies p req s registry method NoHostFacts clock clock'.
End V3.

(** ** Reference semantics of a condition *)

Section Semantics.
Context `{S : SerdeNumber}.

(** Structural induction through the lists of subconditions. *)
Lemma cond_ind (P : RuleCondition -> Prop) :
  (forall f o v, P (Comparison f o v)) -> (forall f vs, P (Membership f vs)) ->
  (forall cs, Forall P cs -> P (All cs)) -> (forall cs, Forall P cs -> P (Any cs)) ->
  (forall c, P c -> P (Not c)) -> (forall b, P (Always b)) -> forall c, P c.
Proof.
  intros HC HM HAll HAny HNot HAlw. fix IH 1.
  destruct c as [f o v|f vs|cs|cs|c|b]; [apply HC|apply HM| | |apply HNot, IH|apply HAlw].
  - apply HAll. induction cs as [|c cs IHcs]; constructor; [apply IH|exact IHcs].
  - apply HAny. induction cs as [|c cs IHcs]; constructor; [apply IH|exact IHcs].
Qed.

(** The boolean a condition denotes, without any depth cap. *)
Fixpoint denote (c : RuleCondition) (req : PayRequest) : bool :=
  match c with
  | Comparison field op value => compare_values (get_field req field) op value
  | Membership field values => existsb (fun v => value_eqb v (get_field req field)) values
  | All cs => forallb (fun c => denote c req) cs
  | Any cs => existsb (fun c => denote c req) cs
  | Not c => negb (denote c req)
  | Always b => b
  end.

(** Nesting depth: the number of nodes on the longest path. *)
Fixpoint height (c : RuleCondition) : nat :=
  match c with
  | All cs | Any cs => Datatypes.S (list_max (map height cs))
  | Not c => Datatypes.S (height c)
  | _ => 1
  end.

Lemma height_pos c : (1 <= height c)%nat.
Proof. destruct c; simpl; lia. Qed.

Definition capped (budget : nat) (c : RuleCondition) (req : PayRequest) : CondOutcome :=
  if (height c <=? budget)%nat then of_bool (denote c req) else DepthExceeded.

Lemma leb_max a b n : ((a `max` b <=? n) = (a <=? n) && (b <=? n))%nat.
Proof.
  destruct (Nat.leb_spec a n), (Nat.leb_spec b n), (Nat.leb_spec (a `max` b) n);
    done || lia.
Qed.

Lemma all_loop budget cs req acc :
  Forall (fun c => evaluate_condition_budget budget c req = capped budget c req) cs ->
  (fix loop (cs : list RuleCondition) (result : CondOutcome) : CondOutcome :=
     match cs with
     | [] => result
     | c :: cs' =>
         match evaluate_condition_budget budget c req with
         | DepthExceeded => DepthExceeded
         | NotMatched => loop cs' NotMatched
         | Matched => loop cs' result
         end
     end) cs (of_bool acc) =
  if (list_max (map height cs) <=? budget)%nat
  then of_bool (acc && forallb (fun c => denote c req) cs) else DepthExceeded.
Proof.
  intros H. revert acc. induction H as [|c cs Hc _ IH]; intros acc; cbn [list_max map foldr forallb].
  - by rewrite andb_true_r.
  - rewrite Hc. unfold capped. change (foldr Nat.max 0%nat) with list_max. rewrite leb_max.
    destruct (height c <=? budget)%nat; [|done].
    destruct (denote c req); [apply IH|]. etransitivity; [exact (IH false)|].
    by rewrite andb_false_r.
Qed.

Lemma any_loop budget cs req acc :
  Forall (fun c => evaluate_condition_budget budget c req = capped budget c req) cs ->
  (fix loop (cs : list RuleCondition) (result : CondOutcome) : CondOutcome :=
     match cs with
     | [] => result
     | c :: cs' =>
         match evaluate_condition_budget budget c req with
         | DepthExceeded => DepthExceeded
         | Matched => loop cs' Matched
         | NotMatched => loop cs' result
         end
     end) cs (of_bool acc) =
  if (list_max (map height cs) <=? budget)%nat
  then of_bool (acc || existsb (fun c => denote c req) cs) else DepthExceeded.
Proof.
  intros H. revert acc. induction H as [|c cs Hc _ IH]; intros acc; cbn [list_max map foldr existsb].
  - by rewrite orb_false_r.
  - rewrite Hc. unfold capped. change (foldr Nat.max 0%nat) with list_max. rewrite leb_max.
    destruct (height c <=? budget)%nat; [|done].
    destruct (denote c req); [|apply IH]. etransitivity; [exact (IH true)|].
    by rewrite orb_true_r.
Qed.

Lemma evaluate_capped c req budget : evaluate_condition_budget budget c req = capped budget c req.
Proof.
  revert budget. induction c as [f o v|f vs|cs IH|cs IH|c IH|b] using cond_ind;
    intros [|budget]; try done; unfold capped; simpl.
  - etransitivity; [apply (all_loop budget cs req true)|done].
    eapply Forall_impl; [exact IH|simpl; auto].
  - etransitivity; [apply (any_loop budget cs req false)|done].
    eapply Forall_impl; [exact IH|simpl; auto].
  - rewrite IH. unfold capped. destruct (height c <=? budget)%nat; [|done].
    by destruct (denote c req).
Qed.

(** The capped evaluator computes the plain boolean semantics of the tree
    when it nests at most 64 levels from the given depth, and reports
    [DepthExceeded] for every deeper tree: the cap is never silently turned
    into a match or a non-match, whichever branch the deep part is in. *)
Theorem condition_outcome_spec c req depth :
  (depth <= MAX_CONDITION_DEPTH)%nat ->
  evaluate_condition_outcome c req depth =
  if (depth + height c <=? MAX_CONDITION_DEPTH)%nat
  then of_bool (denote c req) else DepthExceeded.
Proof.
  intros Hd. unfold evaluate_condition_outcome. rewrite evaluate_capped. unfold capped.
  destruct (Nat.leb_spec (height c) (MAX_CONDITION_DEPTH - depth));
    destruct (Nat.leb_spec (depth + height c) MAX_CONDITION_DEPTH); done || lia.
Qed.

(** ** The non-finite walk *)

Lemma touches_loop_finite fuel stack req :
  f64_is_finite (pr_amount_usd req) = true -> touches_loop fuel stack req = false.
Proof.
  intros Hf. revert stack.
  induction fuel as [|fuel IH]; intros [|[c d] stack]; cbn [touches_loop]; try done.
  destruct (MAX_CONDITION_DEPTH <=? d)%nat; [apply IH|]. destruct c; try apply IH.
  rewrite Hf, andb_false_r. apply IH.
Qed.

(** ** Node counting *)

Definition stack_nodes (stack : list RuleCondition) : nat := list_sum (map cond_nodes stack).

Lemma stack_nodes_app l1 l2 : stack_nodes (l1 ++ l2) = (stack_nodes l1 + stack_nodes l2)%nat.
Proof. unfold stack_nodes. by rewrite map_app, list_sum_app. Qed.

Lemma stack_nodes_rev l : stack_nodes (rev l) = stack_nodes l.
Proof.
  induction l as [|c l IH]; simpl; [done|]. rewrite stack_nodes_app, IH.
  unfold stack_nodes. simpl. lia.
Qed.

Lemma cond_nodes_pos c : (1 <= cond_nodes c)%nat.
Proof. destruct c; simpl; lia. Qed.

Lemma count_loop_spec fuel count stack :
  (count <= MAX_RULE_NODES)%nat -> (MAX_RULE_NODES < fuel + count)%nat ->
  count_loop fuel count stack = Nat.min (count + stack_nodes stack) (Datatypes.S MAX_RULE_NODES).
Proof.
  revert count stack. induction fuel as [|fuel IH]; intros count stack Hc Hf; [lia|].
  destruct stack as [|c stack]; cbn [count_loop]; [unfold stack_nodes; simpl; lia|].
  pose proof (cond_nodes_pos c) as Hpos.
  assert (Hcons : stack_nodes (c :: stack) = (cond_nodes c + stack_nodes stack)%nat) by done.
  rewrite Hcons. destruct (Nat.ltb_spec MAX_RULE_NODES (Datatypes.S count)) as [Hlt|Hge];
    [lia|].
  assert (Hgo : forall stack' : list RuleCondition,
    Datatypes.S (stack_nodes stack') = (cond_nodes c + stack_nodes stack)%nat ->
    count_loop fuel (Datatypes.S count) stack' =
    Nat.min (count + (cond_nodes c + stack_nodes stack)) (Datatypes.S MAX_RULE_NODES)).
  { intros stack' Hs. rewrite IH by lia. rewrite <- Hs. lia. }
  destruct c; apply Hgo; cbn [cond_nodes];
    rewrite ?stack_nodes_app, ?stack_nodes_rev; unfold stack_nodes; simpl; lia.
Qed.

(** The worklist counter returns the number of nodes of the rule set,
    capped at one past the limit: it neither misses a node of a small policy
    nor walks past the cap of a large one. *)
Theorem count_condition_nodes_spec rs :
  count_condition_nodes rs =
  Nat.min (list_sum (map (fun r => cond_nodes (condition r)) rs)) (Datatypes.S MAX_RULE_NODES).
Proof.
  unfold count_condition_nodes. rewrite count_loop_spec by lia.
  rewrite stack_nodes_rev. unfold stack_nodes. by rewrite map_map.
Qed.

(** A policy that parses is within both resource limits: the text is at
    most 256 KiB and the rules have at most 8192 condition nodes in total. *)
Theorem parse_policy_v3_limits {io_error serde_error : Type}
    (from_str : string -> result serde_error PolicyV3) json p :
  parse_policy_v3 (io_error := io_error) from_str json = Ok p <->
  from_str json = Ok p /\ (str_len json <= MAX_POLICY_JSON_BYTES)%Z /\
  (list_sum (map (fun r => cond_nodes (condition r)) (v3_rules p)) <= MAX_RULE_NODES)%nat.
Proof.
  unfold parse_policy_v3.
  destruct (Z.ltb_spec MAX_POLICY_JSON_BYTES (str_len json)) as [Hlt|Hle].
  { split; [done|]. intros (_ & H & _). lia. }
  destruct (from_str json) as [q|e]; cbn [result_map_err result_bind]; [|naive_solver].
  rewrite count_condition_nodes_spec.
  destruct (Nat.ltb_spec MAX_RULE_NODES
    (Nat.min (list_sum (map (fun r => cond_nodes (condition r)) (v3_rules q)))
      (Datatypes.S MAX_RULE_NODES))) as [Hlt|Hge].
  - split; [done|]. intros ([= <-] & _ & H). lia.
  - split; [intros [= <-]|intros ([= <-] & _ & _); done]. split_and!; [done..|lia].
Qed.

(** ** The rule stage *)

Definition shallow (r : PolicyRule) : Prop := (height (condition r) <= MAX_CONDITION_DEPTH)%nat.

Lemma outcome_shallow r req :
  shallow r ->
  evaluate_condition_outcome (condition r) req 0 = of_bool (denote (condition r) req).
Proof.
  intros Hs. unfold evaluate_condition_outcome. rewrite evaluate_capped. unfold capped.
  rewrite Nat.sub_0_r. unfold shallow in Hs. by apply Nat.leb_le in Hs as ->.
Qed.

Lemma outcome_deep r req :
  ~ shallow r -> evaluate_condition_outcome (condition r) req 0 = DepthExceeded.
Proof.
  intros Hs. unfold evaluate_condition_outcome. rewrite evaluate_capped. unfold capped.
  rewrite Nat.sub_0_r. unfold shallow in Hs. apply Nat.leb_nle in Hs as ->. done.
Qed.

Lemma rule_outcomes_spec rs req :
  (Forall shallow rs /\
   rule_outcomes rs req = Some (map (fun r => of_bool (denote (condition r) req)) rs)) \/
  (~ Forall shallow rs /\ rule_outcomes rs req = None).
Proof.
  induction rs as [|r rs IH]; [left; by split|]. cbn [rule_outcomes].
  destruct (decide ((height (condition r) <= MAX_CONDITION_DEPTH)%nat)) as [Hs|Hs].
  - rewrite (outcome_shallow r req Hs).
    replace (outcome_eqb (of_bool (denote (condition r) req)) DepthExceeded) with false
      by (by destruct (denote _ _)).
    destruct IH as [[Hall ->]|[Hall ->]]; [left; split; [by constructor|done]|].
    right. split; [|done]. by intros [_ ?]%Forall_cons.
  - right. rewrite (outcome_deep r req Hs). split; [|done]. by intros [? _]%Forall_cons.
Qed.

Lemma outcome_eqb_of_bool b : outcome_eqb (of_bool b) Matched = b.
Proof. by destruct b. Qed.

Lemma existsb_outcomes (f : PolicyRule * CondOutcome -> bool) g rs :
  existsb f (combine rs (map g rs)) = existsb (fun r => f (r, g r)) rs.
Proof. induction rs as [|r rs IH]; [done|]. simpl. by rewrite IH. Qed.

Lemma existsb_false {A} (f : A -> bool) l :
  existsb f l = false <-> forall x, In x l -> f x = false.
Proof.
  rewrite <- not_true_iff_false, existsb_exists. split.
  - intros H x Hx. apply not_true_iff_false. eauto.
  - intros H (x & Hx & Hf). by rewrite H in Hf.
Qed.

Lemma effect_eqb_true r e : effect_eqb (effect r) e = true <-> effect r = e.
Proof. unfold effect_eqb. by rewrite bool_decide_eq_true. Qed.

Definition rules_permit (rs : list PolicyRule) (req : PayRequest) : Prop :=
  Forall shallow rs /\
  (forall r, In r rs -> effect r = Forbid -> denote (condition r) req = false) /\
  ((exists r, In r rs /\ effect r = Permit) ->
   exists r, In r rs /\ effect r = Permit /\ denote (condition r) req = true).

Lemma apply_rules_spec rs req d :
  f64_is_finite (pr_amount_usd req) = true ->
  (rules_permit rs req /\ apply_rules rs req d = d) \/
  (~ rules_permit rs req /\ apply_rules rs req d = Deny Unknown).
Proof.
  intros Hfin. unfold apply_rules, rules_permit.
  destruct (rule_outcomes_spec rs req) as [[Hall ->]|[Hall ->]]; [|right; tauto].
  rewrite !existsb_outcomes.
  assert (Hforbid : forall r, forbid_fires req (r, of_bool (denote (condition r) req)) =
                      effect_eqb (effect r) Forbid && denote (condition r) req).
  { intros r. unfold forbid_fires, condition_touches_non_finite_number.
    rewrite touches_loop_finite by done. by rewrite andb_false_r, orb_false_r, outcome_eqb_of_bool. }
  assert (Hpermit : forall r, permit_matches (r, of_bool (denote (condition r) req)) =
                      effect_eqb (effect r) Permit && denote (condition r) req).
  { intros r. unfold permit_matches. by rewrite outcome_eqb_of_bool. }
  destruct (existsb _ rs) eqn:Hf.
  { right. split; [|done]. intros (_ & Hno & _).
    apply existsb_exists in Hf as (r & Hr & Hf). rewrite Hforbid in Hf.
    apply andb_true_iff in Hf as [He%effect_eqb_true Hd]. by rewrite Hno in Hd. }
  assert (Hno : forall r, In r rs -> effect r = Forbid -> denote (condition r) req = false).
  { intros r Hr He. apply existsb_false with (x := r) in Hf; [|done].
    rewrite Hforbid in Hf. apply effect_eqb_true in He. by rewrite He in Hf. }
  destruct (existsb (fun r => effect_eqb (effect r) Permit) rs) eqn:Hp; cbn [andb].
  - destruct (existsb _ rs) eqn:Hm in |- *; cbn [negb].
    + left. split; [|done]. split_and!; [done..|]. intros _.
      apply existsb_exists in Hm as (r & Hr & Hm). rewrite Hpermit in Hm.
      apply andb_true_iff in Hm as [He%effect_eqb_true Hd]. eauto.
    + right. split; [|done]. intros (_ & _ & Hex).
      apply existsb_exists in Hp as (r0 & Hr0 & He0%effect_eqb_true).
      destruct Hex as (r & Hr & He%effect_eqb_true & Hd); [by eauto|].
      apply existsb_false with (x := r) in Hm; [|done].
      by rewrite Hpermit, He, Hd in Hm.
  - left. split; [|done]. split_and!; [done..|]. intros (r & Hr & He%effect_eqb_true).
    apply existsb_false with (x := r) in Hp; [|done]. by rewrite He in Hp.
Qed.
End Semantics.

(** ** Decisions of the whole pipeline *)

Section Decisions.
Context `{S : SerdeNumber}.

(** The v2 evaluation [evaluate_v3] runs. *)
Definition v2_run (p : PolicyV3) (req : PayRequest) (s : PolicyState) (clock : Z)
  : Verdict * PolicyState :=
  evaluate_11_step req (pv_session_key_id (v2 p)) (set_policy s (Some (v2 p))) clock.

Lemma evaluate_v3_state p req s clock :
  (evaluate_v3 p req s clock).2 = set_policy (v2_run p req s clock).2 (policy s).
Proof.
  unfold evaluate_v3, v2_run. destruct (evaluate_11_step _ _ _ _) as [[]]; reflexivity.
Qed.

Lemma v2_not_deny_allow p req s clock :
  is_deny (v2_run p req s clock).1 = false ->
  (v2_run p req s clock).1 = Allow /\ is_valid_amount (pr_amount_usd req) = true.
Proof.
  unfold v2_run.
  destruct (evaluate_cases req (pv_session_key_id (v2 p)) (set_policy s (Some (v2 p))) clock)
    as [(_&->)|[(?&_&->)|(_&r&_&->)]]; done.
Qed.

Lemma evaluate_v3_cases p req s clock :
  (exists r, (v2_run p req s clock).1 = Deny r /\ (evaluate_v3 p req s clock).1 = Deny r) \/
  ((v2_run p req s clock).1 = Allow /\ rules_permit (v3_rules p) req /\
   (evaluate_v3 p req s clock).1 = Allow) \/
  ((v2_run p req s clock).1 = Allow /\ ~ rules_permit (v3_rules p) req /\
   (evaluate_v3 p req s clock).1 = Deny Unknown).
Proof.
  pose proof (v2_not_deny_allow p req s clock) as Hv.
  unfold evaluate_v3, v2_run in *.
  destruct (evaluate_11_step _ _ _ _) as [d s1]. cbn [fst] in *.
  destruct d as [|w|r]; [| |left; eauto]; destruct (Hv eq_refl) as [Hv' Ha]; [|done].
  apply valid_amount_spec in Ha as [Hfin _].
  destruct (apply_rules_spec (v3_rules p) req Allow Hfin) as [[H E]|[H E]];
    right; [left|right]; split_and!; done.
Qed.

(** The attribute rules only tighten the v2 flow: a request is allowed
    exactly when the v2 evaluation allows it, every rule is within the depth
    cap, no Forbid condition holds and, if there are Permit rules, one of
    their conditions holds. *)
Theorem v3_allow_iff p req s clock :
  (evaluate_v3 p req s clock).1 = Allow <->
  (evaluate_11_step req (pv_session_key_id (v2 p)) (set_policy s (Some (v2 p))) clock).1 = Allow /\
  rules_permit (v3_rules p) req.
Proof.
  fold (v2_run p req s clock).
  destruct (evaluate_v3_cases p req s clock) as [(r & -> & ->)|[(-> & H & ->)|(-> & H & ->)]];
    intuition congruence.
Qed.

(** The side effect of a v3 evaluation is that of the v2 flow and nothing
    else: the caller's policy is put back, and a deny by the rules leaves the
    spend and the rate-limit slots the v2 allow has already taken. *)
Theorem v3_rule_deny_keeps_allow p req s clock :
  let now := now_ms s clock in
  let s1 := slide_all_windows s now in
  (evaluate_v3 p req s clock).1 = Deny Unknown ->
  (evaluate_11_step req (pv_session_key_id (v2 p)) (set_policy s (Some (v2 p))) clock).1 = Allow ->
  ~ rules_permit (v3_rules p) req /\
  (evaluate_v3 p req s clock).2 = record_allow s1 req now.
Proof.
  intros now s1 Hd Ha. split.
  - destruct (evaluate_v3_cases p req s clock) as [(r & E & _)|[(_ & _ & E)|(_ & H & _)]];
      unfold v2_run in *; congruence.
  - rewrite evaluate_v3_state. unfold v2_run.
    destruct (evaluate_cases req (pv_session_key_id (v2 p)) (set_policy s (Some (v2 p))) clock)
      as [(_&E)|[(Hv&_&E)|(_&r&_&E)]]; rewrite E in *; [done| |done].
    unfold record_allow. rewrite Hv. reflexivity.
Qed.

(** ** The plugin layer *)

Lemma evaluate_strategies_cases p req s registry method host clock clock' :
  let e := evaluate_v3 p req s clock in
  let d := evaluate_v3_with_strategies p req s registry method host clock clock' in
  let o := registry_evaluate registry (strategy_request_from_pay req method) host in
  (is_deny e.1 = true /\ d = (passthrough e.1, e.2)) \/
  (is_deny e.1 = false /\ denied_by o = None /\ sd_decision d.1 = e.1 /\ d.2 = e.2) \/
  (is_deny e.1 = false /\ denied_by o <> None /\ sd_decision d.1 = Deny Unknown /\
   sd_denied_by d.1 = denied_by o).
Proof.
  cbv zeta. unfold evaluate_v3_with_strategies.
  destruct (evaluate_v3 p req s clock) as [v s1]. cbn [fst snd].
  destruct (is_deny v) eqn:Hd; cbn [orb]; [by left|right].
  destruct registry as [|e registry]; [by left|].
  cbn [registry_is_empty is_nil].
  destruct (denied_by _) as [x|] eqn:Ho; [right|left]; split_and!; done.
Qed.

(** Plugins are strictly additive: the combined answer is an allow exactly
    when the built-in pipeline allows and every registered plugin lets the
    request pass.  No plugin can turn a deny into an allow. *)
Theorem plugins_additive p req s registry method host clock clock' :
  sd_decision (evaluate_v3_with_strategies p req s registry method host clock clock').1 = Allow <->
  (evaluate_v3 p req s clock).1 = Allow /\
  Forall (permits (strategy_request_from_pay req method) host) registry.
Proof.
  destruct (registry_verdict registry (strategy_request_from_pay req method) host) as [Hn _].
  destruct (evaluate_strategies_cases p req s registry method host clock clock')
    as [(Hd & ->)|[(Hd & Ho & -> & _)|(Hd & Ho & -> & _)]].
  - cbn. destruct (evaluate_v3 p req s clock).1; [done..|]. intuition congruence.
  - rewrite <- Hn. tauto.
  - rewrite <- Hn. split; [done|tauto].
Qed.

(** A request the built-in pipeline denies never reaches a plugin: the
    answer and the state are the same whatever is registered, and they are
    those of the pipeline alone. *)
Theorem core_deny_final p req s registry method host clock clock' :
  is_deny (evaluate_v3 p req s clock).1 = true ->
  evaluate_v3_with_strategies p req s registry method host clock clock' =
  (passthrough (evaluate_v3 p req s clock).1, (evaluate_v3 p req s clock).2).
Proof.
  intros Hd. unfold evaluate_v3_with_strategies.
  destruct (evaluate_v3 p req s clock) as [v s1]. cbn [fst snd] in *. by rewrite Hd.
Qed.

(** A plugin deny gives back what the overturned allow had committed, when
    the clock has not left the second: every window is as a deny would have
    left it, the deny streak continues from before the allow, and the spend is
    [max((l + a) - a, 0)]. *)
Theorem plugin_deny_refunds p req s registry method host clock clock' :
  let now := now_ms s clock in
  let s1 := slide_all_windows s now in
  now_ms s clock' = now ->
  (evaluate_v3 p req s clock).1 = Allow ->
  ~ Forall (permits (strategy_request_from_pay req method) host) registry ->
  (evaluate_v3_with_strategies p req s registry method host clock clock').2 =
  record_deny
    (set_spent s1 (f64_max (f64_sub (f64_add (local_spent_usd s) (pr_amount_usd req))
                                    (pr_amount_usd req)) f64_zero))
    Unknown (pr_session_key_id req) now.
Proof.
  intros now s1 Hnow Ha Hreg.
  destruct (registry_verdict registry (strategy_request_from_pay req method) host) as [Hn _].
  assert (Hs : is_valid_amount (pr_amount_usd req) = true /\
               (evaluate_v3 p req s clock).2 = record_allow s1 req now).
  { rewrite evaluate_v3_state. assert (Hv2 : (v2_run p req s clock).1 = Allow)
      by (destruct (evaluate_v3_cases p req s clock) as [(r & _ & E)|[(E & _)|(E & _)]]; congruence).
    unfold v2_run in *.
    destruct (evaluate_cases req (pv_session_key_id (v2 p)) (set_policy s (Some (v2 p))) clock)
      as [(_&E)|[(Hv&_&E)|(_&r&_&E)]]; rewrite E in *; [done| |done].
    split; [done|]. unfold record_allow. rewrite Hv. reflexivity. }
  destruct Hs as [Hv Hs]. unfold evaluate_v3_with_strategies.
  destruct (evaluate_v3 p req s clock) as [v s2]. cbn [fst snd] in *. subst v s2.
  assert (Hclk : now_ms (record_allow s1 req now) clock' = now).
  { rewrite <- Hnow. unfold record_allow, now_ms. by rewrite Hv. }
  destruct registry as [|e registry]; [by destruct Hreg|].
  cbn [registry_is_empty is_nil is_deny orb].
  destruct (denied_by _) as [x|] eqn:Ho; [|tauto]. cbn [snd].
  rewrite Hclk. exact (f_equal (fun t => record_deny t Unknown (pr_session_key_id req) now)
                         (rollback_record s1 req now Hv)).
Qed.
End Decisions.

(** ** Concrete runs *)

Definition demo_condition : RuleCondition :=
  All [Comparison "amount_usd" OpLe (Number (PosInt 20));
       Not (Membership "asset" [VString "DOGE"])].

Definition demo_v3 : PolicyV3 := {|
  v2 := demo_policy;
  v3_rules := [{| rule_id := "no-large"; effect := Forbid;
                  condition := Not demo_condition; description := None |};
               {| rule_id := "usdc"; effect := Permit;
                  condition := Comparison "asset" OpEq (VString "USDC"); description := None |}]
|}.

Lemma condition_outcome_spec_witness :
  evaluate_condition_outcome demo_condition (demo_request 10 "USDC") 0 = Matched /\
  evaluate_condition_outcome demo_condition (demo_request 10 "USDC") 62 = DepthExceeded.
Proof.
  split; (rewrite condition_outcome_spec; [vm_compute; reflexivity|unfold MAX_CONDITION_DEPTH; lia]).
Defined.

Lemma v3_rule_deny_keeps_allow_witness :
  let req := demo_request 30 "USDC" in
  (evaluate_v3 demo_v3 req demo_state 1000).1 = Deny Unknown /\
  (evaluate_v3 demo_v3 req demo_state 1000).2 =
    record_allow (slide_all_windows demo_state 1000000) req 1000000 /\
  local_spent_usd (evaluate_v3 demo_v3 req demo_state 1000).2 = f64_of_Z 30.
Proof.
  intros req. split; [vm_compute; reflexivity|]. split; [|vm_compute; reflexivity].
  apply (v3_rule_deny_keeps_allow demo_v3 req demo_state 1000); vm_compute; reflexivity.
Defined.

Lemma core_deny_final_witness :
  let reg := registry_insert registry_new (demo_plugin "a" (SWarn "careful")) in
  evaluate_v3_with_strategies demo_v3 (demo_request 30 "USDC") demo_state reg "pay" NoHostFacts
    1000 1000 =
  (passthrough (Deny Unknown), (evaluate_v3 demo_v3 (demo_request 30 "USDC") demo_state 1000).2).
Proof.
  intros reg.
  exact (core_deny_final demo_v3 (demo_request 30 "USDC") demo_state reg "pay" NoHostFacts
           1000 1000 ltac:(vm_compute; reflexivity)).
Defined.

Definition demo_denying : StrategyRegistry :=
  registry_insert registry_new (demo_plugin "limits" (SDeny "limit" "too much")).

Lemma plugin_deny_refunds_witness :
  let req := demo_request 10 "USDC" in
  let run := evaluate_v3_with_strategies demo_v3 req demo_state demo_denying "pay" NoHostFacts
               1000 1000 in
  sd_decision run.1 = Deny Unknown /\ local_spent_usd run.2 = f64_zero /\
  minutely_window run.2 = [] /\ consecutive_deny_counter run.2 = 1%Z.
Proof.
  intros req run. split; [vm_compute; reflexivity|].
  assert (H : run.2 = record_deny (set_spent (slide_all_windows demo_state 1000000)
      (f64_max (f64_sub (f64_add (local_spent_usd demo_state) (pr_amount_usd req))
                        (pr_amount_usd req)) f64_zero)) Unknown "sk-1" 1000000).
  { apply (plugin_deny_refunds demo_v3 req demo_state demo_denying "pay" NoHostFacts 1000 1000);
      [reflexivity|vm_compute; reflexivity|].
    intros Hall. inversion Hall as [|? ? Hx _]; subst. vm_compute in Hx. discriminate. }
  rewrite H. vm_compute. auto.
Defined.

(** The refund of a plugin deny reads the clock again: when the second turns
    between the evaluation and the refund, the spend is returned but the
    rate-limit slots and the window entries of the denied request stay taken. *)
Theorem plugin_deny_late_keeps_slot :
  let req := demo_request 10 "USDC" in
  let run := evaluate_v3_with_strategies demo_v3 req demo_state demo_denying "pay" NoHostFacts
               1000 1001 in
  sd_decision run.1 = Deny Unknown /\ local_spent_usd run.2 = f64_zero /\
  minutely_window run.2 = [1000000%Z] /\ hourly_window run.2 = [1000000%Z] /\
  daily_window run.2 = [(1000000%Z, f64_of_Z 10)].
Proof. vm_compute. auto 6. Qed.

(** The binary64 value of [n / 10]. *)
Definition tenth (n : Z) : f64 := SFdiv 53 1024 (f64_of_Z n) (f64_of_Z 10).

Definition tenth_request (n : Z) : PayRequest := {|
  pr_session_key_id := "sk-1";
  pr_device_id := "dev-1";
  pr_amount_usd := tenth n;
  pr_asset := "USDC";
  pr_chain_id := "eip155:8453";
  pr_recipient := Some "0xabc"
|}.

(** The refund subtracts the amount in binary64, which does not undo the
    addition: with 0.1 USD spent, a refunded 0.7 leaves less than 0.1 and a
    refunded 0.3 leaves more. *)
Theorem refund_is_not_exact :
  let s := (evaluate_v3 demo_v3 (tenth_request 1) demo_state 1000).2 in
  let after n := local_spent_usd
    (evaluate_v3_with_strategies demo_v3 (tenth_request n) s demo_denying "pay" NoHostFacts
       1000 1000).2 in
  local_spent_usd s = tenth 1 /\
  f64_lt (after 7%Z) (tenth 1) = true /\ f64_lt (tenth 1) (after 3%Z) = true.
Proof. vm_compute. auto. Qed.
