(* ===== verification/SecretPolicy.v ===== *)
(** * Access rules for secrets

    [crates/oc-policy/src/secret.rs]: the rules an agent's access to the secret
    store is checked against, with the [*]-glob on secret names. *)

From Stdlib Require Import ZArith Lia Ascii String Bool.
From stdpp Require Import base list strings.
From S2P Require Import Prelude F64 Str.

Inductive Effect := EffectAllow | EffectDeny.

Inductive SecretOperation := Read | Write | Delete | TotpGenerate.

#[export] Instance SecretOperation_eq_dec : EqDecision SecretOperation.
Proof. solve_decision. Defined.

Record SecretPolicyRule := {
  agent_id : string;
  operation : SecretOperation;
  rule_effect : Effect;
  name_pattern : string;
  item_type : option string;
  sp_rate_limit_per_minute : option Z;
  daily_budget_usd : option f64
}.

Record PolicyDecision := { allow : bool; reason : option string }.

Definition decision_allow (reason : option string) : PolicyDecision :=
  {| allow := true; reason := reason |}.

Definition decision_deny (reason : option string) : PolicyDecision :=
  {| allow := false; reason := reason |}.

(** ** Globs *)

Definition star : ascii := "*"%char.

(** [&s[n..]] within bounds. *)
Fixpoint drop_bytes (n : nat) (s : string) : string :=
  match n, s with
  | O, _ => s
  | S n', String _ s' => drop_bytes n' s'
  | S _, EmptyString => EmptyString
  end.

(** The loop over the segments: [i] counts up to [n = parts.len()].  It either
    returns from [glob_match] ([inl]) or ends with the final [cursor] ([inr]). *)
Fixpoint glob_loop (parts : list string) (i n : nat) (name : string) (cursor : nat)
  : bool + nat :=
  match parts with
  | [] => inr cursor
  | part :: parts' =>
      if is_empty part then glob_loop parts' (S i) n name cursor
      else if (i =? 0)%nat then
        if starts_with part (drop_bytes cursor name)
        then glob_loop parts' (S i) n name (cursor + String.length part)
        else inl false
      else if (i =? n - 1)%nat then
        inl (ends_with part name && (cursor <=? String.length name - String.length part)%nat)
      else
        match split_once part (drop_bytes cursor name) with
        | Some (before, _) =>
            glob_loop parts' (S i) n name
              (cursor + (String.length before + String.length part))
        | None => inl false
        end
  end.

Definition glob_match (pattern name : string) : bool :=
  if String.eqb pattern "*" then true
  else if String.eqb pattern name then true
  else
    let parts := split_char star pattern in
    if (length parts =? 1)%nat then String.eqb pattern name
    else match glob_loop parts 0 (length parts) name 0 with
         | inl b => b
         | inr cursor => ends_with "*" pattern || (cursor =? String.length name)%nat
         end.

(** ** The check *)

Definition str_option_eqb (a b : option string) : bool := bool_decide (a = b).

(** [true] when none of the loop's [continue]s is taken. *)
Definition rule_applies (rule : SecretPolicyRule) (agent : string) (op : SecretOperation)
    (secret_name : string) (ty : option string) : bool :=
  if negb (String.eqb (agent_id rule) "*") && negb (String.eqb (agent_id rule) agent) then false
  else if negb (bool_decide (operation rule = op)) then false
  else if negb (glob_match (name_pattern rule) secret_name) then false
  else match item_type rule with
       | Some rule_item_type => str_option_eqb ty (Some rule_item_type)
       | None => true
       end.

Fixpoint check_secret_access (rs : list SecretPolicyRule) (agent : string)
    (op : SecretOperation) (secret_name : string) (ty : option string) : PolicyDecision :=
  match rs with
  | [] => decision_deny (Some "no matching allow rule (default-deny)")
  | rule :: rs' =>
      if rule_applies rule agent op secret_name ty then
        match rule_effect rule with
        | EffectAllow => decision_allow (Some ("allowed by rule for agent '" +:+ agent +:+ "'"))
        | EffectDeny => decision_deny (Some ("denied by rule for agent '" +:+ agent +:+ "'"))
        end
      else check_secret_access rs' agent op secret_name ty
  end.

(** ** What a glob means *)

Inductive glob : string -> string -> Prop :=
| glob_end : glob "" ""
| glob_char c p s : c <> star -> glob p s -> glob (String c p) (String c s)
| glob_star_end p s : glob p s -> glob (String star p) s
| glob_star_more c p s : glob (String star p) s -> glob (String star p) (String c s).

(** [gaps ps s]: the segments [ps] occur in [s] in order, each after an
    arbitrary gap, the last one at the end. *)
Fixpoint gaps (ps : list string) (s : string) : Prop :=
  match ps with
  | [] => s = ""
  | p :: ps' => exists gap r, s = gap +:+ (p +:+ r) /\ gaps ps' r
  end.

Definition segments (ps : list string) (s : string) : Prop :=
  match ps with
  | [] => False
  | p :: ps' => exists r, s = p +:+ r /\ gaps ps' r
  end.

Lemma gaps_more ps g s : ps <> [] -> gaps ps s -> gaps ps (g +:+ s).
Proof.
  destruct ps as [|p ps]; [done|]. intros _ (gap & r & -> & Hr).
  exists (g +:+ gap), r. by rewrite app_assoc_str.
Qed.

Lemma glob_segments pattern s : glob pattern s <-> segments (split_char star pattern) s.
Proof.
  split.
  - induction 1 as [|c p s Hc _ IH|p s _ IH|c p s _ IH].
    + by exists "".
    + simpl. destruct (Ascii.eqb_spec c star) as [|_]; [done|].
      destruct (split_char_cons star p) as (l & ls & E). rewrite E in *.
      destruct IH as (r & -> & Hr). by exists r.
    + simpl. destruct (split_char_cons star p) as (l & ls & E). rewrite E in *.
      exists s. split; [done|]. destruct IH as (r & -> & Hr). by exists "", r.
    + simpl in *. destruct IH as (r & -> & Hr). exists (String c r). split; [done|].
      destruct (split_char_cons star p) as (l & ls & E). rewrite E in *.
      by apply (gaps_more (l :: ls) (String c "")).
  - revert s. induction pattern as [|c p IH]; intros s; simpl.
    + intros (r & -> & ->). constructor.
    + destruct (split_char_cons star p) as (l & ls & E). rewrite E in *.
      destruct (Ascii.eqb_spec c star) as [->|Hc]; simpl.
      * intros (r & -> & gap & r' & -> & Hr). simpl.
        induction gap as [|g gap IHg]; simpl; [|by constructor].
        apply glob_star_end, IH. by exists r'.
      * intros (r & -> & Hr). simpl. constructor; [done|]. apply IH. by exists r.
Qed.

(** ** The loop *)

Lemma split_once_some pat s l r : split_once pat s = Some (l, r) -> s = l +:+ (pat +:+ r).
Proof.
  revert l. induction s as [|c s IH]; intros l; cbn [split_once].
  - destruct (strip_prefix pat "") eqn:E; [|done]. intros [= <- <-]. by apply strip_prefix_some in E.
  - destruct (strip_prefix pat (String c s)) eqn:E.
    + intros [= <- <-]. by apply strip_prefix_some in E.
    + destruct (split_once pat s) as [[l' r']|] eqn:E'; [|done]. intros [= <- <-].
      simpl. by rewrite (IH l') at 1.
Qed.

(** The occurrence found is the leftmost: what follows any other occurrence is
    a suffix of what follows this one. *)
Lemma split_once_leftmost pat gap r :
  exists l g, split_once pat (gap +:+ (pat +:+ r)) = Some (l, g +:+ r).
Proof.
  induction gap as [|c gap IH]; simpl.
  - assert (H : strip_prefix pat (pat +:+ r) = Some r) by apply strip_prefix_app.
    exists "", "". destruct (pat +:+ r) eqn:E; cbn [split_once]; by rewrite H.
  - cbn [split_once]. destruct (strip_prefix pat (String c (gap +:+ (pat +:+ r)))) as [x|] eqn:E.
    + clear IH. apply strip_prefix_some in E.
      assert (Hlen : (String.length r <= String.length x)%nat).
      { apply (f_equal String.length) in E. cbn [String.length] in E.
        rewrite !length_app_str in E. lia. }
      exists "". change (String c (gap +:+ (pat +:+ r))) with (String c gap +:+ (pat +:+ r)) in E.
      revert E. generalize (String c gap) as h. intros h E. rewrite app_assoc_str in E.
      assert (Hsuf : forall a b x, a +:+ r = b +:+ x -> (String.length r <= String.length x)%nat ->
        exists g, x = g +:+ r).
      { clear. induction a as [|y a IH]; intros [|z b] x; simpl; intros E Hl.
        - by exists "".
        - exfalso. apply (f_equal String.length) in E. simpl in E. rewrite length_app_str in E. lia.
        - subst x. by exists (String y a).
        - injection E as -> E. eauto. }
      destruct (Hsuf _ _ _ E Hlen) as [g ->]. by exists g.
    + destruct IH as (l & g & ->). by exists (String c l), g.
Qed.

Lemma drop_bytes_app a b : drop_bytes (String.length a) (a +:+ b) = b.
Proof. induction a as [|c a IH]; simpl; [by destruct b|done]. Qed.

Lemma ends_with_spec suf s : ends_with suf s = true <-> exists r, s = r +:+ suf.
Proof.
  unfold ends_with. destruct (strip_suffix suf s) as [r|] eqn:E.
  - split; [|done]. apply strip_suffix_some in E. eauto.
  - split; [done|]. intros [r ->]. by rewrite strip_suffix_app in E.
Qed.

Lemma app_split a b c d :
  a +:+ b = c +:+ d -> (String.length a <= String.length c)%nat ->
  exists g, c = a +:+ g /\ b = g +:+ d.
Proof.
  revert c. induction a as [|x a IH]; intros [|y c]; simpl; intros E Hl.
  - by exists "".
  - by exists (String y c).
  - lia.
  - injection E as -> E. destruct (IH c E) as (g & -> & ->); [lia|]. by exists g.
Qed.

Definition loop_result (r : bool + nat) (trailing : bool) (name : string) : bool :=
  match r with inl b => b | inr cursor => trailing || (cursor =? String.length name)%nat end.

Lemma gaps_skip q ps s : gaps ("" :: q :: ps) s <-> gaps (q :: ps) s.
Proof.
  split; [intros (gap & r & -> & Hr); by apply gaps_more|]. intros H. by exists "", s.
Qed.

Lemma glob_loop_tail ps i n pre rest :
  (1 <= i)%nat -> (i + length ps = n)%nat -> ps <> [] ->
  loop_result (glob_loop ps i n (pre +:+ rest) (String.length pre))
              (is_empty (List.last ps "")) (pre +:+ rest) = true <-> gaps ps rest.
Proof.
  revert i pre rest. induction ps as [|p [|q ps] IH]; intros i pre rest Hi Hn Hne; [done| |].
  - clear IH. cbn [glob_loop List.last]. simpl in Hn.
    destruct p as [|c p]; cbn [is_empty]; [simpl; split; [intros _|done]; exists rest, "";
      by rewrite app_nil_r_str|].
    replace (i =? 0)%nat with false by (symmetry; apply Nat.eqb_neq; lia).
    replace (i =? n - 1)%nat with true by (symmetry; apply Nat.eqb_eq; lia).
    cbn [loop_result gaps]. rewrite andb_true_iff, ends_with_spec, Nat.leb_le. split.
    + intros [(x & E) Hl]. rewrite E, length_app_str in Hl.
      destruct (app_split pre rest x (String c p) E) as (g & -> & ->); [lia|].
      exists g, "". by rewrite app_nil_r_str.
    + intros (gap & r & -> & ->). rewrite !app_nil_r_str, !length_app_str.
      split; [exists (pre +:+ gap); by rewrite app_assoc_str|lia].
  - cbn [glob_loop]. change (List.last (p :: q :: ps) "") with (List.last (q :: ps) "").
    assert (Hnext : forall pre' rest', 
      loop_result (glob_loop (q :: ps) (S i) n (pre' +:+ rest') (String.length pre'))
        (is_empty (List.last (q :: ps) "")) (pre' +:+ rest') = true <-> gaps (q :: ps) rest').
    { intros. apply IH; simpl in *; [lia..|done]. }
    simpl in Hn. destruct p as [|c p]; cbn [is_empty].
    { rewrite gaps_skip. apply Hnext. }
    replace (i =? 0)%nat with false by (symmetry; apply Nat.eqb_neq; lia).
    replace (i =? n - 1)%nat with false by (symmetry; apply Nat.eqb_neq; lia).
    rewrite drop_bytes_app. revert Hnext. generalize (String c p) as pat. intros pat Hnext.
    destruct (split_once pat rest) as [[before after]|] eqn:E.
    + pose proof E as Heq%split_once_some.
      assert (Hg : gaps (pat :: q :: ps) rest <-> gaps (q :: ps) after).
      { split; [|intros; by exists before, after].
        intros (gap & r & Hr & Hgaps). rewrite Hr in E.
        destruct (split_once_leftmost pat gap r) as (l & g & E'). rewrite E in E'.
        injection E' as -> ->. by apply gaps_more. }
      rewrite Hg, <- (Hnext (pre +:+ (before +:+ pat)) after).
      replace ((pre +:+ (before +:+ pat)) +:+ after) with (pre +:+ rest)
        by (rewrite Heq; by rewrite <- !app_assoc_str).
      replace (String.length (pre +:+ (before +:+ pat)))
        with (String.length pre + (String.length before + String.length pat))%nat
        by (by rewrite !length_app_str).
      reflexivity.
    + split; [done|]. intros (gap & r & -> & _).
      destruct (split_once_leftmost pat gap r) as (l & g & E'). congruence.
Qed.

(** ** Splitting *)

Lemma ends_with_cons c s :
  ends_with "*" (String c s) = (Ascii.eqb c star && is_empty s) || ends_with "*" s.
Proof.
  unfold ends_with at 1. cbn [strip_suffix].
  destruct (String.eqb_spec (String c s) "*") as [[= -> ->]|Hne]; [done|].
  unfold ends_with.
  replace (Ascii.eqb c star && is_empty s) with false; [by destruct (strip_suffix "*" s)|].
  destruct (Ascii.eqb_spec c star) as [->|]; [by destruct s|done].
Qed.

Lemma trailing_star s :
  is_empty (List.last (split_char star s) "") = is_empty s || ends_with "*" s.
Proof.
  induction s as [|c s IH]; [done|]. rewrite ends_with_cons. simpl split_char.
  pose proof (join_split star s) as Hj.
  destruct (split_char_cons star s) as (l & ls & E). rewrite E in *.
  destruct (Ascii.eqb_spec c star) as [->|]; cbn [andb orb is_empty].
  - exact IH.
  - destruct ls as [|l' ls]; simpl in Hj, IH |- *; [subst l; by destruct s|].
    rewrite IH. destruct s; [|done]. by destruct l.
Qed.

Lemma glob_refl s : glob s s.
Proof.
  induction s as [|c s IH]; [constructor|].
  destruct (Ascii.eqb_spec c star) as [->|]; [by apply glob_star_more, glob_star_end|].
  by constructor.
Qed.

Lemma glob_match_true_iff pattern name : glob_match pattern name = true <-> glob pattern name.
Proof.
  unfold glob_match. destruct (String.eqb_spec pattern "*") as [->|_].
  { split; [intros _|done]. induction name; [by repeat constructor|by apply glob_star_more]. }
  destruct (String.eqb_spec pattern name) as [->|Hne]; [split; [intros; apply glob_refl|done]|].
  rewrite glob_segments. pose proof (join_split star pattern) as Hj.
  pose proof (trailing_star pattern) as Ht.
  destruct (split_char_cons star pattern) as (p & [|q ps] & E); rewrite E in *.
  { simpl in Hj |- *. subst p. split; [done|]. intros (r & -> & ->).
    by rewrite app_nil_r_str in Hne. }
  replace (ends_with "*" pattern) with (is_empty (List.last (q :: ps) ""));
    [|change (List.last (q :: ps) "") with (List.last (p :: q :: ps) ""); rewrite Ht;
      by destruct pattern].
  change (loop_result (glob_loop (p :: q :: ps) 0 (length (p :: q :: ps)) name 0)
            (is_empty (List.last (q :: ps) "")) name = true <-> segments (p :: q :: ps) name).
  cbn [glob_loop segments]. destruct p as [|c p]; cbn [is_empty].
  - etransitivity; [apply (glob_loop_tail (q :: ps) 1 _ "" name); simpl; done || lia|].
    split; [intros; by exists name|]. by intros (r & -> & ?).
  - cbn [Nat.eqb]. change (drop_bytes 0 name) with name. unfold starts_with.
    generalize (String c p) as pat. intros pat.
    destruct (strip_prefix pat name) as [r|] eqn:Hs.
    + apply strip_prefix_some in Hs as ->.
      etransitivity; [apply (glob_loop_tail (q :: ps) 1 _ pat r); simpl; done || lia|].
      split; [intros; by exists r|]. intros (r' & E' & ?).
      apply strip_prefix_some in E'. rewrite strip_prefix_app in E'. by injection E' as ->.
    + split; [done|]. intros (r & -> & _). by rewrite strip_prefix_app in Hs.
Qed.

(** C38 The glob matcher decides the intended relation: literal characters match
    themselves and each star matches any (possibly empty) run of characters.
    Searching leftmost for the middle segments and anchoring the last one never
    misses a match and never makes one up, overlaps included. *)
Theorem glob_match_spec pattern name : glob_match pattern name = true <-> glob pattern name.
Proof. apply glob_match_true_iff. Qed.

(** ** The decision *)

(** The declarative reading of one rule's filter. *)
Definition applies (rule : SecretPolicyRule) (agent : string) (op : SecretOperation)
    (secret_name : string) (ty : option string) : Prop :=
  (agent_id rule = "*" \/ agent_id rule = agent) /\ operation rule = op /\
  glob (name_pattern rule) secret_name /\
  (item_type rule = None \/ item_type rule = ty).

Lemma rule_applies_spec rule agent op secret_name ty :
  rule_applies rule agent op secret_name ty = true <-> applies rule agent op secret_name ty.
Proof.
  unfold rule_applies, applies, str_option_eqb.
  destruct (String.eqb_spec (agent_id rule) "*"), (String.eqb_spec (agent_id rule) agent);
    cbn [negb andb]; try (split; [done|intros ([?|?] & _); done]).
  all: destruct (bool_decide_reflect (operation rule = op)); cbn [negb];
    [|split; [done|intros (_ & ? & _); done]].
  all: rewrite <- glob_match_true_iff; destruct (glob_match _ _); cbn [negb];
    [|split; [done|intros (_ & _ & ? & _); done]].
  all: destruct (item_type rule) as [t|]; rewrite ?bool_decide_eq_true; intuition congruence.
Qed.

(** The first applicable rule decides, whatever comes after it, and when no
    rule applies access is denied: access is granted exactly when the list
    splits at an applicable Allow rule with no applicable rule before it. *)
Theorem check_secret_access_first_match rs agent op secret_name ty :
  allow (check_secret_access rs agent op secret_name ty) = true <->
  exists pre rule post, rs = pre ++ rule :: post /\
    Forall (fun r => ~ applies r agent op secret_name ty) pre /\
    applies rule agent op secret_name ty /\ rule_effect rule = EffectAllow.
Proof.
  induction rs as [|rule rs IH]; cbn [check_secret_access].
  { split; [done|]. by intros ([|? ?] & ? & ? & ? & _). }
  pose proof (rule_applies_spec rule agent op secret_name ty) as Hr.
  destruct (rule_applies rule agent op secret_name ty).
  - destruct (rule_effect rule) eqn:He; simpl; split; try done.
    + intros _. exists [], rule, rs. split_and!; try done. by apply Hr.
    + intros ([|r pre] & r' & post & [= <- ->] & Hpre & Ha & He'); [congruence|].
      inversion Hpre as [|? ? Hn _]; subst. destruct Hn. by apply Hr.
  - rewrite IH. split.
    + intros (pre & r & post & -> & Hpre & ?). exists (rule :: pre), r, post.
      split; [done|]. split; [|done]. constructor; [by rewrite <- Hr|done].
    + intros ([|r pre] & r' & post & [= <- ->] & Hpre & Ha & He').
      * by apply Hr in Ha.
      * inversion Hpre; subst. by exists pre, r', post.
Qed.

Definition demo_rules : list SecretPolicyRule :=
  [{| agent_id := "*"; operation := Read; rule_effect := EffectDeny; name_pattern := "prod/*key*";
      item_type := None; sp_rate_limit_per_minute := None; daily_budget_usd := None |};
   {| agent_id := "ci"; operation := Read; rule_effect := EffectAllow; name_pattern := "*";
      item_type := Some "password"; sp_rate_limit_per_minute := None; daily_budget_usd := None |}].

Example demo_first_deny :
  check_secret_access demo_rules "ci" Read "prod/api-key-1" (Some "password") =
  decision_deny (Some "denied by rule for agent 'ci'").
Proof. reflexivity. Qed.

Example demo_second_allow :
  check_secret_access demo_rules "ci" Read "prod/password" (Some "password") =
  decision_allow (Some "allowed by rule for agent 'ci'").
Proof. reflexivity. Qed.
