(* ===== verification/Names.v ===== *)
(** * Names that become files

    The validators of crates/oc-core/src/paths.rs: wallet ids, which are flat file
    names, and secret names, which are hierarchical and percent-encoded into flat
    ones; and the resolution of the state directory below [HOME].  The forbidden
    characters are ASCII, so a search among the bytes finds what the source's
    search among the characters finds. *)

From Stdlib Require Import ZArith Lia Bool String Ascii.
From stdpp Require Import base list strings.
From S2P Require Import Prelude Str.

Local Open Scope oc_scope.

(** [OcError], as far as this file builds it. *)
Inductive OcError := InvalidInput (message : string).

Definition nul : ascii := ascii_of_N 0.
Definition quote : ascii := ascii_of_N 34.

(** [str::starts_with] and [str::ends_with] at a character. *)
Definition starts_with_char (c : ascii) (s : string) : bool := starts_with (String c "") s.
Definition ends_with_char (c : ascii) (s : string) : bool := ends_with (String c "") s.

Definition validate_wallet_id (id : string) : result OcError unit :=
  if is_empty (trim id) then Err (InvalidInput "wallet ID must not be empty")
  else if contains_byte "/" id || contains_byte "\" id || contains ".." id then
    Err (InvalidInput ("wallet ID contains forbidden pattern: '" +:+ id +:+
      "' (allowed: alphanumeric + '-'/'_' only; '/' is rejected)"))
  else if contains_byte nul id then
    Err (InvalidInput ("wallet ID contains forbidden characters: '" +:+ id +:+ "'"))
  else if String.eqb id "." || String.eqb id ".." || starts_with_char "." id then
    Err (InvalidInput ("wallet ID must not be '.'/'..' or start with '.': '" +:+ id +:+ "'"))
  else Ok tt.

(** [to_ascii_uppercase]. *)
Definition to_ascii_uppercase (c : ascii) : ascii :=
  if is_ascii_lowercase c then ascii_of_N (byte_of c - 32) else c.

Fixpoint ascii_uppercase (s : string) : string :=
  match s with
  | EmptyString => EmptyString
  | String c s' => String (to_ascii_uppercase c) (ascii_uppercase s')
  end.

(** A Windows device name, ignoring any extension. *)
Definition reserved_stem (stem : string) : bool :=
  String.eqb stem "CON" || String.eqb stem "PRN" || String.eqb stem "AUX" || String.eqb stem "NUL" ||
  match strip_prefix "COM" stem, strip_prefix "LPT" stem with
  | Some (String d EmptyString), _ | None, Some (String d EmptyString) =>
      is_ascii_digit d && negb (Ascii.eqb d "0")
  | _, _ => false
  end.

Definition segment_stem (segment : string) : string :=
  ascii_uppercase (default segment (head (split_char "." segment))).

(** The checks on one segment: the reason it is refused for. *)
Definition segment_fault (segment : string) : option string :=
  if is_empty segment then Some "name contains an empty path segment"
  else if String.eqb segment "." || String.eqb segment ".." then
    Some "path segment must not be '.' or '..'"
  else if starts_with_char "." segment || ends_with_char "." segment then
    Some "path segment must not start or end with '.'"
  else if ends_with_char " " segment then Some "path segment must not end with space"
  else if reserved_stem (segment_stem segment) then
    Some "path segment is a Windows reserved device name"
  else None.

Definition FORBIDDEN_CHARS : list ascii :=
  [nul; lf; cr; "\"%char; ":"%char; "*"%char; "?"%char; quote; "<"%char; ">"%char; "|"%char].

Definition validate_secret_name (name : string) : result OcError unit :=
  let invalid reason := Err (InvalidInput ("invalid secret name '" +:+ name +:+ "': " +:+ reason)) in
  if is_empty (trim name) then invalid "name must not be empty or blank"
  else if (1024 <? str_len name)%Z then invalid "name exceeds 1024 bytes"
  else if existsb (fun c => contains_byte c name) FORBIDDEN_CHARS then
    invalid "name contains a forbidden character"
  else if starts_with_char "/" name || ends_with_char "/" name then
    invalid "name must not start or end with '/'"
  else if starts_with_char "." name || ends_with_char "." name then
    invalid "name must not start or end with '.'"
  else if contains "//" name || contains "/./" name || contains "/../" name then
    invalid "name must not contain '//', '/./' or '/../'"
  else
    match first_some segment_fault (split_char "/" name) with
    | Some reason => invalid reason
    | None => Ok tt
    end.

(** [str::replace] at a character. *)
Fixpoint replace_char (c : ascii) (by_str s : string) : string :=
  match s with
  | EmptyString => EmptyString
  | String x s' => if Ascii.eqb x c then by_str +:+ replace_char c by_str s'
                   else String x (replace_char c by_str s')
  end.

Definition secret_name_to_filename (name : string) : string :=
  replace_char "/" "%2F" (replace_char "%" "%25" name).

(** ** The state directory *)

Definition STATE_DIR_NAME : string := ".onecipher".

(** [PathBuf::join] of a relative path. *)
Definition join (base relative : string) : string :=
  if is_empty base || ends_with_char "/" base then base +:+ relative
  else base +:+ "/" +:+ relative.

(** [HOME] as the process reads it. *)
Definition home_dir (home : option string) : result OcError string :=
  match home with
  | Some h => if is_empty (trim h) then
                Err (InvalidInput "cannot determine home directory: HOME is not set (refusing to fall back to a world-writable location such as /tmp)")
              else Ok h
  | None =>
      Err (InvalidInput "cannot determine home directory: HOME is not set (refusing to fall back to a world-writable location such as /tmp)")
  end.

Definition state_dir (home : option string) : result OcError string :=
  let? h := home_dir home in Ok (join h STATE_DIR_NAME).

Definition state_path (home : option string) (relative : string) : result OcError string :=
  let? d := state_dir home in Ok (join d relative).

Definition config_path (home : option string) : result OcError string := state_path home "config.json".

(** [str::replace] at a non-empty pattern; [skip] bytes of the last occurrence are
    still to be passed over. *)
Fixpoint replace_from (skip : nat) (pat by_str s : string) : string :=
  match s with
  | EmptyString => EmptyString
  | String c s' =>
      match skip with
      | S k => replace_from k pat by_str s'
      | O => if starts_with pat s then by_str +:+ replace_from (String.length pat - 1) pat by_str s'
             else String c (replace_from 0 pat by_str s')
      end
  end.

(** [filename_to_name] of oc-cli's fsck.rs. *)
Definition filename_to_name (stem : string) : string :=
  replace_from 0 "%25" "%" (replace_from 0 "%2F" "/" stem).

(** ** Secret names and their files *)

(** The encoding of a byte after both replacements. *)
Definition encode_byte (c : ascii) : string :=
  if Ascii.eqb c "%" then "%25" else if Ascii.eqb c "/" then "%2F" else String c "".

Fixpoint encode_bytes (s : string) : string :=
  match s with
  | EmptyString => EmptyString
  | String c s' => encode_byte c +:+ encode_bytes s'
  end.

Lemma filename_encode s : secret_name_to_filename s = encode_bytes s.
Proof.
  unfold secret_name_to_filename. induction s as [|c s IH]; [done|].
  cbn [encode_bytes]. rewrite <- IH. unfold encode_byte. cbn [replace_char].
  destruct (Ascii.eqb_spec c "%") as [->|Hp]; [done|]. cbn [replace_char].
  by destruct (Ascii.eqb c "/").
Qed.

(** With the slashes restored, only the percent signs are still encoded. *)
Definition half_byte (c : ascii) : string := if Ascii.eqb c "%" then "%25" else String c "".

Fixpoint half_bytes (s : string) : string :=
  match s with
  | EmptyString => EmptyString
  | String c s' => half_byte c +:+ half_bytes s'
  end.

Lemma starts_with_head p s x y : starts_with (String x p) (String y s) = Ascii.eqb x y && starts_with p s.
Proof. unfold starts_with. cbn [strip_prefix]. by destruct (Ascii.eqb x y). Qed.

Lemma replace_slashes s : replace_from 0 "%2F" "/" (encode_bytes s) = half_bytes s.
Proof.
  induction s as [|c s IH]; [done|]. cbn [encode_bytes half_bytes]. unfold encode_byte, half_byte.
  destruct (Ascii.eqb_spec c "%") as [->|Hp]; [cbn; by rewrite <- IH|].
  destruct (Ascii.eqb_spec c "/") as [->|Hs]; [cbn; by rewrite <- IH|].
  cbn [String.append replace_from]. rewrite starts_with_head, IH.
  rewrite Ascii.eqb_sym. by destruct (Ascii.eqb_spec c "%").
Qed.

Lemma replace_percents s : replace_from 0 "%25" "%" (half_bytes s) = s.
Proof.
  induction s as [|c s IH]; [done|]. cbn [half_bytes]. unfold half_byte.
  destruct (Ascii.eqb_spec c "%") as [->|Hp]; [cbn; by rewrite IH|].
  cbn [String.append replace_from]. rewrite starts_with_head, IH.
  rewrite Ascii.eqb_sym. by destruct (Ascii.eqb_spec c "%").
Qed.

Lemma encode_flat s : all_bytes (fun c => negb (Ascii.eqb c "/")) (encode_bytes s) = true.
Proof.
  induction s as [|c s IH]; [done|]. cbn [encode_bytes]. rewrite all_bytes_app, IH, andb_true_r.
  unfold encode_byte. destruct (Ascii.eqb_spec c "%"); [done|].
  destruct (Ascii.eqb_spec c "/"); [done|]. cbn. by destruct (Ascii.eqb_spec c "/").
Qed.

(** A secret's file name is one path component, and the name comes back from
    it: distinct secrets have distinct files, whatever slashes and percent signs
    their names contain. *)
Theorem secret_filename_roundtrip name :
  filename_to_name (secret_name_to_filename name) = name /\
  contains_byte "/" (secret_name_to_filename name) = false.
Proof.
  rewrite filename_encode. split.
  - unfold filename_to_name. by rewrite replace_slashes, replace_percents.
  - unfold contains_byte. by rewrite encode_flat.
Qed.

(** ** What the validators guarantee *)

(** A segment of an accepted name: one component below the store, and none that
    Windows reads as a device. *)
Definition portable_segment (s : string) : Prop :=
  s <> "" /\ s <> "." /\ s <> ".." /\ starts_with_char "." s = false /\ ends_with_char "." s = false /\
  ends_with_char " " s = false /\ reserved_stem (segment_stem s) = false.

Lemma segment_fault_none s : segment_fault s = None <-> portable_segment s.
Proof.
  unfold segment_fault, portable_segment. rewrite <- is_empty_false.
  destruct (is_empty s); [by split; [|intros [? _]]|].
  destruct (String.eqb_spec s ".") as [->|]; [by split; [|intros (_ & ? & _)]|].
  destruct (String.eqb_spec s "..") as [->|]; [by split; [|intros (_ & _ & ? & _)]|]. cbn [orb].
  destruct (starts_with_char "." s); [by split; [|intros (_ & _ & _ & ? & _)]|].
  destruct (ends_with_char "." s); [by split; [|intros (_ & _ & _ & _ & ? & _)]|]. cbn [orb].
  destruct (ends_with_char " " s); [by split; [|intros (_ & _ & _ & _ & _ & ? & _)]|].
  destruct (reserved_stem _); [by split; [|intros (_ & _ & _ & _ & _ & _ & ?)]|]. by split.
Qed.

Lemma first_some_none {A B} (f : A -> option B) l : first_some f l = None <-> Forall (fun x => f x = None) l.
Proof.
  induction l as [|x l IH]; cbn; [by split; [constructor|]|]. rewrite Forall_cons, <- IH.
  destruct (f x); split; try done; by intros [? ?].
Qed.

(** An accepted secret name has at most 1024 bytes, none of the characters the
    file system or the shell treats specially, and is made of portable segments;
    so no segment climbs out of the store or hides a file. *)
Theorem valid_secret_name name :
  validate_secret_name name = Ok tt ->
  (str_len name <= 1024)%Z /\ Forall (fun c => contains_byte c name = false) FORBIDDEN_CHARS /\
  Forall portable_segment (split_char "/" name).
Proof.
  unfold validate_secret_name. destruct (is_empty (trim name)); [done|].
  destruct (Z.ltb_spec 1024 (str_len name)) as [|Hl]; [done|].
  destruct (existsb _ _) eqn:Hf; [done|]. destruct (_ || _); [done|]. destruct (_ || _); [done|].
  destruct (_ || _); [done|]. destruct (first_some _ _) eqn:Hs; [done|]. intros _. split_and!.
  - done.
  - rewrite Forall_forall. intros c Hc. apply not_true_iff_false. intros H.
    rewrite <- not_true_iff_false, existsb_exists in Hf. apply Hf. exists c. split; [|done].
    by apply list_elem_of_In.
  - apply first_some_none in Hs. eapply Forall_impl; [exact Hs|]. intros x. apply segment_fault_none.
Qed.

(** An accepted wallet id, with its extension, is one component of the wallet
    directory: no separator, no parent reference, not hidden, no NUL. *)
Lemma valid_wallet_id id :
  validate_wallet_id id = Ok tt ->
  trim id <> "" /\ contains_byte "/" id = false /\ contains_byte "\" id = false /\
  contains ".." id = false /\ contains_byte nul id = false /\ starts_with_char "." id = false.
Proof.
  unfold validate_wallet_id. rewrite <- is_empty_false.
  destruct (is_empty (trim id)); [done|]. destruct (contains_byte "/" id); [done|].
  destruct (contains_byte "\" id); [done|]. destruct (contains ".." id); [done|]. cbn [orb].
  destruct (contains_byte nul id); [done|]. destruct (String.eqb id "."); [done|].
  destruct (String.eqb id ".."); [done|]. by destruct (starts_with_char "." id).
Qed.

Lemma valid_secret_name_witness :
  Forall portable_segment (split_char "/" "github/personal").
Proof. apply (valid_secret_name "github/personal"). vm_compute. reflexivity. Defined.

(** The documentation refuses a segment that starts with a space; the code takes
    it. *)
Lemma leading_space_accepted : validate_secret_name "work/ mail" = Ok tt.
Proof. vm_compute. reflexivity. Qed.
