(* ===== verification/Envelope.v ===== *)
(** * The plaintext envelope of a secret

    crates/oc-secret/src/envelope.rs: before a secret is encrypted, its JSON is
    wrapped in a header that names the lookup path and the generation, and unwrapping
    refuses any other path.  Bytes are a [string]. *)

From Stdlib Require Import ZArith Lia Ascii String Bool.
From stdpp Require Import base list strings.
From S2P Require Import Prelude Str Decimal Names.

Local Open Scope oc_scope.

Definition ENVELOPE_MAGIC : string := "ocenv/1".
Definition ENVELOPE_TAG : string := "secret".

Inductive EnvelopeError :=
| Tampered (path reason : string)
| InvalidPath (message : string).

(** The header block, without the blank line that ends it. *)
Definition header_of (path gen_text : string) : string :=
  join_char lf [ENVELOPE_MAGIC; "tag:" +:+ ENVELOPE_TAG; "path:" +:+ path; "generation:" +:+ gen_text].

Definition envelope_text (path gen_text payload_json : string) : string :=
  header_of path gen_text +:+ String lf (String lf payload_json).

Definition wrap_envelope (path : string) (generation : Z) (payload_json : string) : result EnvelopeError string :=
  if is_empty path || (contains_byte lf path || contains_byte cr path || contains_byte nul path) then
    Err (InvalidPath "path must not contain newline or NUL")
  else Ok (envelope_text path (fmt_Z generation) payload_json).

(** The search for the first two newlines in a row: what is before and after them. *)
Fixpoint find_separator (data : string) : option (string * string) :=
  match data with
  | String a (String b rest as tail) =>
      if Ascii.eqb a lf && Ascii.eqb b lf then Some (EmptyString, rest)
      else match find_separator tail with
           | Some (header, payload) => Some (String a header, payload)
           | None => None
           end
  | _ => None
  end.

Definition unwrap_header (expected_path header payload : string) : result EnvelopeError (Z * string) :=
  let tampered reason := Err (Tampered expected_path reason) in
  match split_char lf header with
  | [] => tampered "missing magic"
  | magic :: lines =>
      if negb (String.eqb magic ENVELOPE_MAGIC) then tampered "bad magic" else
      match lines with
      | [] => tampered "missing tag"
      | tag_line :: lines =>
          if negb (String.eqb tag_line ("tag:" +:+ ENVELOPE_TAG)) then tampered "bad tag" else
          match lines with
          | [] => tampered "missing path"
          | path_line :: lines =>
              let? bound_path := ok_or (Tampered expected_path "bad path line") (strip_prefix "path:" path_line) in
              if negb (String.eqb bound_path expected_path) then tampered "path mismatch" else
              match lines with
              | [] => tampered "missing generation"
              | gen_line :: lines =>
                  let? gen_text := ok_or (Tampered expected_path "bad generation line")
                                     (strip_prefix "generation:" gen_line) in
                  if is_empty gen_text || negb (all_bytes is_ascii_digit gen_text) then tampered "bad generation"
                  else if negb (is_nil lines) then tampered "extra header line"
                  else
                    let? generation := ok_or (Tampered expected_path "bad generation")
                                         (parse_unsigned u64_max gen_text) in
                    Ok (generation, payload)
              end
          end
      end
  end.

Definition unwrap_envelope (expected_path data : string) : result EnvelopeError (Z * string) :=
  match find_separator data with
  | None => Err (Tampered expected_path "missing header/payload separator")
  | Some (header, payload) =>
      if negb (utf8 header) then Err (Tampered expected_path "header is not UTF-8")
      else unwrap_header expected_path header payload
  end.

(** ** Finding the header *)

Definition after (l : string) (o : option (string * string)) : option (string * string) :=
  match o with Some (h, p) => Some (l +:+ h, p) | None => None end.

Lemma find_separator_line l rest : contains_byte lf l = false ->
  find_separator (l +:+ rest) = after l (find_separator rest).
Proof.
  induction l as [|c l IH]; cbn [String.append].
  - intros _. by destruct (find_separator rest) as [[]|].
  - rewrite contains_byte_cons. intros [Hc Hl]%orb_false_iff. specialize (IH Hl).
    cbn [find_separator]. destruct (l +:+ rest) as [|b tail] eqn:E.
    + destruct l; [|done]. cbn in E. by subst.
    + rewrite Hc. cbn [andb]. rewrite IH. by destruct (find_separator rest) as [[]|].
Qed.

Lemma find_separator_next c rest : Ascii.eqb c lf = false ->
  find_separator (String lf (String c rest)) = after (String lf "") (find_separator (String c rest)).
Proof.
  intros Hc. change (find_separator (String lf (String c rest))) with
    (if Ascii.eqb lf lf && Ascii.eqb c lf then Some (EmptyString, rest)
     else match find_separator (String c rest) with
          | Some (header, payload) => Some (String lf header, payload)
          | None => None
          end).
  by rewrite Hc, andb_false_r.
Qed.

(** What was found, put together again. *)
Lemma find_separator_some data h p : find_separator data = Some (h, p) -> data = h +:+ String lf (String lf p).
Proof.
  revert h. induction data as [|a data IH]; [done|]. intros h. cbn [find_separator].
  destruct data as [|b rest]; [done|].
  destruct (Ascii.eqb_spec a lf) as [->|], (Ascii.eqb_spec b lf) as [->|]; cbn [andb]; try (by intros [= <- ->]);
    destruct (find_separator _) as [[h' p']|]; try done; intros [= <- ->]; cbn [String.append]; f_equal; by apply IH.
Qed.

(** A line of the header: not empty, and with no line feed. *)
Definition header_line (l : string) : Prop := l <> "" /\ contains_byte lf l = false.

Lemma find_separator_lines l ls payload : Forall header_line (l :: ls) ->
  find_separator (join_char lf (l :: ls) +:+ String lf (String lf payload)) =
    Some (join_char lf (l :: ls), payload).
Proof.
  revert l. induction ls as [|x ls IH]; intros l [[_ Hl] Hls]%Forall_cons.
  - cbn [join_char]. rewrite find_separator_line by done. cbn. by rewrite app_nil_r_str.
  - cbn [join_char]. rewrite <- app_assoc_str, find_separator_line by done. specialize (IH x Hls).
    apply Forall_cons in Hls as [[Hx Hlf] _]. change (match ls with [] => x | _ => _ end) with (join_char lf (x :: ls)) in *.
    cbn [String.append]. set (text := join_char lf (x :: ls)) in *.
    assert (Ht : exists c t, text = String c t /\ Ascii.eqb c lf = false).
    { destruct x as [|c x]; [done|]. rewrite contains_byte_cons in Hlf. apply orb_false_iff in Hlf as [Hc _].
      unfold text. destruct ls; cbn; eauto. }
    destruct Ht as (c & t & -> & Hc). cbn [String.append] in *.
    by rewrite find_separator_next, IH by done.
Qed.

(** ** What an envelope binds *)

Lemma header_lines path t : contains_byte lf path = false -> contains_byte lf t = false ->
  Forall header_line [ENVELOPE_MAGIC; "tag:" +:+ ENVELOPE_TAG; "path:" +:+ path; "generation:" +:+ t].
Proof. intros Hp Ht. repeat apply Forall_cons_2; try constructor; try done; by rewrite !contains_byte_cons. Qed.

Lemma unwrap_header_of p q t payload : contains_byte lf p = false -> contains_byte lf t = false ->
  unwrap_header q (header_of p t) payload =
    if negb (String.eqb p q) then Err (Tampered q "path mismatch")
    else if is_empty t || negb (all_bytes is_ascii_digit t) then Err (Tampered q "bad generation")
    else let? generation := ok_or (Tampered q "bad generation") (parse_unsigned u64_max t) in
         Ok (generation, payload).
Proof.
  intros Hp Ht. unfold unwrap_header, header_of. rewrite split_join_char; [done|done|].
  eapply Forall_impl; [by apply header_lines|]. by intros l [].
Qed.

Lemma ascii_utf8 s : all_bytes is_ascii s = true -> utf8 s = true.
Proof.
  induction s as [|c s IH]; [done|]. cbn [all_bytes utf8]. intros [Hc Hs]%andb_true_iff.
  unfold byte_in. unfold is_ascii in Hc. apply N.ltb_lt in Hc.
  rewrite (proj2 (N.leb_le 0 (byte_of c))), (proj2 (N.leb_le (byte_of c) 0x7f)) by lia. by apply IH.
Qed.

Lemma digit_ascii c : is_ascii_digit c = true -> is_ascii c = true.
Proof. destruct c as [[] [] [] [] [] [] [] []]; vm_compute; congruence. Qed.

Lemma header_utf8 p t : utf8 p = true -> all_bytes is_ascii_digit t = true -> utf8 (header_of p t) = true.
Proof.
  intros Hp Ht.
  change (header_of p t) with
    ((ENVELOPE_MAGIC +:+ String lf ("tag:" +:+ ENVELOPE_TAG +:+ String lf "path:")) +:+
     (p +:+ (String lf "generation:" +:+ t))).
  apply utf8_app; [done|]. apply utf8_app; [done|]. apply utf8_app; [done|].
  apply ascii_utf8. eapply all_bytes_impl; [apply digit_ascii|done].
Qed.

Lemma unwrap_envelope_of p q t payload :
  contains_byte lf p = false -> utf8 p = true -> all_bytes is_ascii_digit t = true ->
  unwrap_envelope q (envelope_text p t payload) =
    if negb (String.eqb p q) then Err (Tampered q "path mismatch")
    else if is_empty t then Err (Tampered q "bad generation")
    else let? generation := ok_or (Tampered q "bad generation") (parse_unsigned u64_max t) in
         Ok (generation, payload).
Proof.
  intros Hp Hu Ht. assert (Hlf : contains_byte lf t = false) by (by apply digits_lack).
  unfold unwrap_envelope, envelope_text, header_of.
  rewrite find_separator_lines by by apply header_lines.
  fold (header_of p t). rewrite (header_utf8 p t) by done. cbn [negb].
  rewrite (unwrap_header_of p q) by done. by rewrite Ht, orb_false_r.
Qed.

Lemma envelope_opens p generation payload data q :
  wrap_envelope p generation payload = Ok data -> utf8 p = true -> (0 <= generation <= u64_max)%Z ->
  unwrap_envelope q data =
    if String.eqb p q then Ok (generation, payload) else Err (Tampered q "path mismatch").
Proof.
  unfold wrap_envelope. destruct (is_empty p); [done|]. cbn [orb].
  destruct (contains_byte lf p) eqn:Hp; [done|]. destruct (_ || _); [done|]. intros [= <-] Hu Hg.
  destruct (fmt_Z_spec generation) as (Hne & Hd & _); [lia|].
  rewrite unwrap_envelope_of, parse_fmt_Z by done. apply is_empty_false in Hne as ->.
  by destruct (String.eqb p q).
Qed.

(** Whatever opens for a path has the header of that path, with a decimal generation. *)
Theorem unwrapped_envelope q data generation payload :
  unwrap_envelope q data = Ok (generation, payload) ->
  exists t, data = envelope_text q t payload /\ t <> "" /\ all_bytes is_ascii_digit t = true /\
    parse_unsigned u64_max t = Some generation.
Proof.
  unfold unwrap_envelope. destruct (find_separator data) as [[h p]|] eqn:Hs; [|done].
  apply find_separator_some in Hs as ->. destruct (negb (utf8 h)); [done|].
  unfold unwrap_header. pose proof (join_split lf h) as Hj.
  destruct (split_char lf h) as [|magic [|tag [|path ls]]]; try (by repeat case_match).
  destruct (String.eqb_spec magic ENVELOPE_MAGIC) as [->|]; [|done]. cbn [negb].
  destruct (String.eqb_spec tag ("tag:" +:+ ENVELOPE_TAG)) as [->|]; [|done]. cbn [negb].
  destruct (strip_prefix "path:" path) as [bound|] eqn:Hb; [|done]. apply strip_prefix_some in Hb as ->.
  cbn [ok_or result_bind]. destruct (String.eqb_spec bound q) as [->|]; [|done]. cbn [negb].
  destruct ls as [|gen rest]; [done|].
  destruct (strip_prefix "generation:" gen) as [t|] eqn:Ht; [|done]. apply strip_prefix_some in Ht as ->.
  cbn [ok_or result_bind]. destruct (is_empty t) eqn:He; [done|].
  destruct (all_bytes is_ascii_digit t) eqn:Hd; [|done]. cbn [orb negb]. destruct rest; [|done]. cbn [is_nil negb].
  destruct (parse_unsigned u64_max t) as [g|] eqn:Hg; [|done]. cbn. intros [= <- <-].
  exists t. apply is_empty_false in He. by rewrite <- Hj.
Qed.

Lemma unwrapped_envelope_witness :
  exists t, envelope_text "a" "007" "{}" = envelope_text "a" t "{}" /\ t <> "" /\ all_bytes is_ascii_digit t = true /\
    parse_unsigned u64_max t = Some 7%Z.
Proof. apply (unwrapped_envelope "a" _ 7 "{}"). vm_compute. reflexivity. Defined.
