(* ===== verification/Bytes.v ===== *)
(** * Byte slices and big-endian integers

    A [&[u8]] or [Vec<u8>] is a [list Z] of bytes.  Indexing goes through
    [slice], which panics out of range as the source does; [usize] is the 64-bit
    one. *)

From Stdlib Require Import ZArith Lia Bool.
From stdpp Require Import base list.
From S2P Require Import Prelude.

Local Open Scope Z_scope.

Definition bytes : Type := list Z.

Definition is_byte (b : Z) : Prop := 0 <= b < 256.
Definition is_bytes (l : bytes) : Prop := Forall is_byte l.

#[export] Instance is_byte_dec b : Decision (is_byte b).
Proof. unfold is_byte. apply _. Defined.

#[export] Instance is_bytes_dec l : Decision (is_bytes l).
Proof. unfold is_bytes. apply _. Defined.

Definition len (l : bytes) : Z := Z.of_nat (length l).

(** No slice is longer than [isize::MAX] bytes. *)
Definition isize_max : Z := 2 ^ 63 - 1.

(** [usize] arithmetic in the release profile. *)
Definition usize_add (a b : Z) : Z := (a + b) mod 2 ^ 64.
Definition u8_add (a b : Z) : Z := (a + b) mod 2 ^ 8.
Definition usize_shl (a n : Z) : Z := Z.land (Z.shiftl a n) (Z.ones 64).

(** [&data[a..b]]. *)
Definition slice (data : bytes) (a b : Z) : outcome bytes :=
  if (a <=? b) && (b <=? len data)
  then Ret (take (Z.to_nat (b - a)) (drop (Z.to_nat a) data))
  else Panic.

(** [val.to_be_bytes()] of an [n]-byte integer. *)
Fixpoint to_be_bytes (n : nat) (val : Z) : bytes :=
  match n with
  | O => []
  | S n' => (Z.shiftr val (8 * Z.of_nat n')) mod 256 :: to_be_bytes n' val
  end.

(** [&data[start..]] where [start] is the position of the first non-zero byte,
    or the length. *)
Fixpoint drop_zeros (data : bytes) : bytes :=
  match data with
  | [] => []
  | b :: data' => if b =? 0 then drop_zeros data' else data
  end.

(** The integer a big-endian byte string stands for. *)
Definition be_value (l : bytes) : Z := fold_left (fun v b => v * 256 + b) l 0.

(** ** Lemmas *)

Lemma len_app a b : len (a ++ b) = len a + len b.
Proof. unfold len. rewrite length_app. lia. Qed.

Lemma len_cons x l : len (x :: l) = 1 + len l.
Proof. unfold len. simpl. lia. Qed.

Lemma len_nonneg l : 0 <= len l.
Proof. unfold len. lia. Qed.

Lemma slice_app a b c :
  slice (a ++ b ++ c) (len a) (len a + len b) = Ret b.
Proof.
  unfold slice. pose proof (len_nonneg a). pose proof (len_nonneg b). pose proof (len_nonneg c).
  rewrite !len_app, !(proj2 (Z.leb_le _ _)) by lia. simpl. f_equal.
  replace (Z.to_nat (len a)) with (length a) by (unfold len; lia).
  replace (Z.to_nat (len a + len b - len a)) with (length b) by (unfold len; lia).
  by rewrite drop_app_length, take_app_length.
Qed.

Lemma slice_ok data a b :
  0 <= a -> a <= b -> b <= len data -> exists x, slice data a b = Ret x /\ len x = b - a.
Proof.
  intros Ha Hab Hb. unfold slice. rewrite !(proj2 (Z.leb_le _ _)) by lia. simpl.
  eexists. split; [done|]. unfold len in *. rewrite length_take, length_drop. lia.
Qed.

Lemma slice_bytes data a b x : is_bytes data -> slice data a b = Ret x -> is_bytes x.
Proof.
  unfold slice. destruct (_ && _); [|done]. intros H [= <-]. by apply Forall_take, Forall_drop.
Qed.

Lemma fold_be_value l v :
  fold_left (fun v b => v * 256 + b) l v = v * 256 ^ Z.of_nat (length l) + be_value l.
Proof.
  unfold be_value. revert v. induction l as [|b l IH]; intros v; [simpl; lia|].
  cbn [fold_left length]. rewrite IH, (IH (0 * 256 + b)).
  rewrite Nat2Z.inj_succ, Z.pow_succ_r by lia. ring.
Qed.

Lemma be_value_cons b l : be_value (b :: l) = b * 256 ^ Z.of_nat (length l) + be_value l.
Proof. unfold be_value at 1. cbn [fold_left]. rewrite fold_be_value. ring. Qed.

Lemma be_value_bound l : is_bytes l -> 0 <= be_value l < 256 ^ Z.of_nat (length l).
Proof.
  induction 1 as [|b l Hb _ IH]; [done|].
  rewrite be_value_cons. cbn [length]. rewrite Nat2Z.inj_succ, Z.pow_succ_r by lia.
  unfold is_byte in Hb. nia.
Qed.

Lemma to_be_bytes_length n v : length (to_be_bytes n v) = n.
Proof. induction n; simpl; congruence. Qed.

Lemma to_be_bytes_bytes n v : is_bytes (to_be_bytes n v).
Proof.
  induction n as [|n IH]; simpl; constructor; [|done]. unfold is_byte. by apply Z.mod_pos_bound.
Qed.

Lemma be_value_to_be_bytes n v : be_value (to_be_bytes n v) = v mod 256 ^ Z.of_nat n.
Proof.
  induction n as [|n IH]; [by rewrite Z.mod_1_r|].
  cbn [to_be_bytes]. rewrite be_value_cons, IH, to_be_bytes_length.
  rewrite Z.shiftr_div_pow2 by lia. rewrite Z.pow_mul_r by lia. change (2 ^ 8) with 256.
  rewrite Nat2Z.inj_succ, Z.pow_succ_r, (Z.mul_comm 256) by lia.
  rewrite Z.rem_mul_r by (try apply Z.pow_nonzero; try apply Z.pow_pos_nonneg; lia). ring.
Qed.

Lemma be_value_drop_zeros l : be_value (drop_zeros l) = be_value l.
Proof.
  induction l as [|b l IH]; simpl; [done|]. destruct (Z.eqb_spec b 0) as [->|]; [|done].
  by rewrite IH, be_value_cons.
Qed.

Lemma drop_zeros_bytes l : is_bytes l -> is_bytes (drop_zeros l).
Proof.
  induction 1 as [|b l Hb Hl IH]; simpl; [constructor|].
  destruct (b =? 0); [done|by constructor].
Qed.

Lemma drop_zeros_length l : (length (drop_zeros l) <= length l)%nat.
Proof. induction l as [|b l IH]; simpl; [lia|]. destruct (b =? 0); simpl; lia. Qed.

Lemma drop_zeros_nil l : is_bytes l -> drop_zeros l = [] -> be_value l = 0.
Proof. intros Hl H. by rewrite <- be_value_drop_zeros, H. Qed.

Lemma drop_zeros_head l b l' : drop_zeros l = b :: l' -> b <> 0.
Proof.
  induction l as [|x l IH]; simpl; [done|]. destruct (Z.eqb_spec x 0); [done|]. congruence.
Qed.

(** One turn of [val = (val << 8) | b] while the value still fits. *)
Lemma shl_or_byte v b :
  0 <= v -> is_byte b -> v * 256 + b < 2 ^ 64 -> Z.lor (usize_shl v 8) b = v * 256 + b.
Proof.
  intros Hv Hb Hlt. unfold is_byte in Hb. unfold usize_shl.
  rewrite Z.land_ones, Z.shiftl_mul_pow2, Z.mod_small by lia.
  change (2 ^ 8) with 256.
  assert (Hland : Z.land (v * 256) b = 0).
  { apply Z.bits_inj'. intros n Hn. rewrite Z.land_spec, Z.bits_0.
    destruct (Z.ltb_spec n 8).
    - change 256 with (2 ^ 8). by rewrite Z.mul_pow2_bits_low.
    - rewrite andb_comm. rewrite <- (Z.mod_small b (2 ^ 8)) by lia.
      by rewrite Z.mod_pow2_bits_high by lia. }
  rewrite <- Z.lxor_lor by done. by rewrite <- Z.add_nocarry_lxor.
Qed.

Lemma fold_shl_or l v :
  0 <= v -> is_bytes l -> v * 256 ^ Z.of_nat (length l) + be_value l < 2 ^ 64 ->
  fold_left (fun v b => Z.lor (usize_shl v 8) b) l v = v * 256 ^ Z.of_nat (length l) + be_value l.
Proof.
  intros Hv Hl. revert v Hv. induction Hl as [|b l Hb Hl IH]; intros v Hv Hlt; [cbn; lia|].
  pose proof (be_value_bound l Hl). unfold is_byte in Hb.
  rewrite be_value_cons in *. cbn [length fold_left] in *.
  rewrite Nat2Z.inj_succ, Z.pow_succ_r in * by lia.
  assert (0 < 256 ^ Z.of_nat (length l)) by (apply Z.pow_pos_nonneg; lia).
  assert (v * 256 + b < 2 ^ 64) by nia.
  rewrite shl_or_byte by done. rewrite IH by (try nia; lia). ring.
Qed.

Lemma fold_shl_nonneg l v :
  0 <= v -> is_bytes l -> 0 <= fold_left (fun v b => Z.lor (usize_shl v 8) b) l v.
Proof.
  intros Hv Hl. revert v Hv. induction Hl as [|b l Hb _ IH]; intros v Hv; [done|].
  cbn [fold_left]. apply IH. unfold is_byte in Hb. apply Z.lor_nonneg. split; [|lia].
  unfold usize_shl. by apply Z.land_nonneg; right.
Qed.
