(* ===== verification/PolicyV1.v ===== *)
(** * Policy engine v1: declarative rules and executable policies

    [crates/oc-core/src/policy.rs], [crates/oc-policy/src/v1.rs] and
    [crates/oc-policy/src/executable.rs].  A child process is what its pipes and
    its exit do; serde, jiff and Unicode lower-casing are parameters. *)

From Stdlib Require Import ZArith Lia Bool String Ascii.
From stdpp Require Import base list strings.
From S2P Require Import Prelude F64 Str Json Bytes.

Local Open Scope oc_scope.

Create HintDb attributed.

Section V1.
Context `{S : SerdeNumber}.

(** ** Data ([oc-core/src/policy.rs]) *)

Inductive PolicyAction := ActionDeny.

Inductive PolicyRule :=
| AllowedChains (chain_ids : list string)
| ExpiresAt (timestamp : string)
| AllowedTypedDataContracts (contracts : list string)
| MaxAmount (max_value : string)
| AllowedAddresses (addresses : list string)
| AllowedAssets (assets : list string)
| Executable (path : string).

Record Policy := {
  policy_id_of : string;
  policy_name : string;
  policy_version : Z;
  created_at : string;
  policy_rules : list PolicyRule;
  executable : option string;
  config : option Value;
  action : PolicyAction
}.

Record TransactionContext := {
  to : option string;
  value : option string;
  raw_hex : string;
  data : option string
}.

Record SpendingContext := { daily_total : string; date : string }.

Record TypedDataContext := {
  verifying_contract : option string;
  domain_chain_id : option Z;
  primary_type : string;
  domain_name : option string;
  domain_version : option string;
  raw_json : string
}.

Record PolicyContext := {
  chain_id : string;
  wallet_id : string;
  api_key_id : string;
  transaction : TransactionContext;
  spending : SpendingContext;
  timestamp : string;
  typed_data : option TypedDataContext
}.

Record PolicyResult := {
  allow : bool;
  reason : option string;
  policy_id : option string
}.

Definition allowed : PolicyResult := {| allow := true; reason := None; policy_id := None |}.

Definition denied (policy_id reason : string) : PolicyResult :=
  {| allow := false; reason := Some reason; policy_id := Some policy_id |}.

Definition amount_exceeds (actual : option string) (limit : string) : bool :=
  match parse_unsigned u128_max (trim limit) with
  | None => true
  | Some limit_val =>
      match actual with
      | None => false
      | Some s =>
          let s := trim s in
          if is_empty s then false
          else match parse_unsigned u128_max s with
               | Some v => (limit_val <? v)%Z
               | None => true
               end
      end
  end.

Definition address_eq (a b : string) : bool := eq_ignore_ascii_case a b.

Definition asset_allowed (assets : list string) (asset : option string) : bool :=
  if is_nil assets then true
  else match asset with
       | None => true
       | Some a => existsb (fun x => eq_ignore_ascii_case x a) assets
       end.

(** ** Child processes

    A program started by [Command::spawn]: what writing the payload to its
    standard input gives, what each [try_wait] poll sees and when, how it ends
    and what it has printed. *)
Record ExitStatus := { success : bool; status_text : string }.

(** [WriteFailed true _] is a [BrokenPipe]. *)
Inductive write_outcome := Written | WriteFailed (broken_pipe : bool) (msg : string).

Record Child := {
  has_stdin : bool;
  write_stdin : bytes -> write_outcome;
  try_wait : nat -> result string bool;
  elapsed_ms : nat -> Z;
  wait : result string ExitStatus;
  finishes_in_time : bool;
  child_stdout : bytes;
  child_stderr : bytes
}.

Context (spawn : string -> result string Child).
(** [serde_json::to_value], [to_vec] on a value and on a context, [from_slice]
    at [PolicyResult]; [String::from_utf8_lossy]; [str::to_lowercase]; [jiff]'s
    timestamp parser to seconds. *)
Context (to_value : PolicyContext -> result string Value).
Context (value_to_vec : Value -> result string bytes).
Context (context_to_vec : PolicyContext -> result string bytes).
Context (result_from_slice : bytes -> result string PolicyResult).
Context (from_utf8_lossy : bytes -> string).
Context (to_lowercase : string -> string).
Context (parse_rfc3339_to_unix : string -> option Z).

(** ** [executable.rs] *)

Definition EXEC_TIMEOUT_SECS : Z := 5.

(** Unix: a path is absolute when it starts with a slash, and its components
    are what slashes separate. *)
Definition validate_executable_path (path : string) : result string unit :=
  if negb (starts_with "/" path) then
    Err ("executable path must be absolute: '" +:+ path +:+ "'")
  else if existsb (String.eqb "..") (split_char "/" path) then
    Err ("executable path must not contain '..': '" +:+ path +:+ "'")
  else Ok tt.

Definition timed_out : string := "executable timed out after " +:+ fmt_Z EXEC_TIMEOUT_SECS +:+ "s".

Definition exited_with (status : ExitStatus) (err : bytes) : string :=
  "executable exited with " +:+ status_text status +:+ ": " +:+ trim (from_utf8_lossy err).

Definition run_executable (path : string) (stdin_json : bytes) : result string bytes :=
  let? _ := validate_executable_path path in
  let? child := result_map_err (fun e => "failed to start executable: " +:+ e) (spawn path) in
  let? _ :=
    if has_stdin child then
      match write_stdin child stdin_json with
      | Written => Ok tt
      | WriteFailed broken_pipe e =>
          if negb broken_pipe then Err ("failed to write stdin: " +:+ e) else Ok tt
      end
    else Ok tt in
  if negb (finishes_in_time child) then Err timed_out
  else
    let? status := result_map_err (fun e => "failed to wait on executable: " +:+ e) (wait child) in
    if negb (success status) then Err (exited_with status (child_stderr child))
    else Ok (child_stdout child).

(** ** [v1.rs] *)

Definition eval_allowed_chains (pid : string) (chain_ids : list string) (ctx : PolicyContext)
  : PolicyResult :=
  if existsb (fun c => String.eqb c (chain_id ctx)) chain_ids then allowed
  else denied pid ("chain " +:+ chain_id ctx +:+ " not in allowlist").

Definition eval_expires_at (pid : string) (ts : string) (ctx : PolicyContext) : PolicyResult :=
  match parse_rfc3339_to_unix (timestamp ctx), parse_rfc3339_to_unix ts with
  | Some now_secs, Some exp_secs =>
      if (exp_secs <? now_secs)%Z then denied pid ("policy expired at " +:+ ts) else allowed
  | _, _ =>
      denied pid ("invalid timestamp in expiry check: ctx=" +:+ timestamp ctx +:+ ", rule=" +:+ ts)
  end.

Definition eval_allowed_typed_data_contracts (pid : string) (contracts : list string)
    (ctx : PolicyContext) : PolicyResult :=
  match typed_data ctx with
  | None => allowed
  | Some td =>
      match verifying_contract td with
      | None => denied pid "typed data has no verifyingContract but policy requires one"
      | Some contract =>
          let contract_lower := to_lowercase contract in
          if existsb (fun c => String.eqb (to_lowercase c) contract_lower) contracts then allowed
          else denied pid ("verifyingContract " +:+ contract +:+ " not in allowed list")
      end
  end.

(** The verdict an executable printed. *)
Definition verdict_of (pid : string) (out : bytes) : PolicyResult :=
  match result_from_slice out with
  | Ok r =>
      if allow r then allowed
      else denied pid (default "denied by executable" (reason r))
  | Err e => denied pid ("invalid JSON from executable: " +:+ e)
  end.

Definition evaluate_rule (rule : PolicyRule) (pid : string) (ctx : PolicyContext) : PolicyResult :=
  match rule with
  | AllowedChains chain_ids => eval_allowed_chains pid chain_ids ctx
  | ExpiresAt ts => eval_expires_at pid ts ctx
  | AllowedTypedDataContracts contracts => eval_allowed_typed_data_contracts pid contracts ctx
  | MaxAmount max_value =>
      if amount_exceeds (value (transaction ctx)) max_value
      then denied pid ("value exceeds max " +:+ max_value)
      else allowed
  | AllowedAddresses addresses =>
      match to (transaction ctx) with
      | None => allowed
      | Some t =>
          if existsb (fun a => address_eq a t) addresses then allowed
          else denied pid ("address " +:+ t +:+ " not in allowlist")
      end
  | AllowedAssets _ => allowed
  | Executable path =>
      match validate_executable_path path with
      | Err r => denied pid r
      | Ok _ =>
          match context_to_vec ctx with
          | Err e => denied pid ("failed to serialize context: " +:+ e)
          | Ok payload =>
              match run_executable path payload with
              | Ok out => verdict_of pid out
              | Err r => denied pid r
              end
          end
      end
  end.

Record Output := { status : ExitStatus; stdout : bytes; stderr : bytes }.

(** [wait_with_timeout]: poll [i] and what follows; [None] is fuel exhaustion,
    which [wait_with_timeout_terminates] excludes. *)
Fixpoint wait_loop (fuel i : nat) (child : Child) (timeout_secs : Z)
  : option (result string Output) :=
  match fuel with
  | O => None
  | Datatypes.S fuel' =>
      match try_wait child i with
      | Ok true =>
          Some (let? st := wait child in
                Ok {| status := st; stdout := child_stdout child; stderr := child_stderr child |})
      | Ok false =>
          if (timeout_secs * 1000 <? elapsed_ms child i)%Z then
            Some (Err ("executable timed out after " +:+ fmt_Z timeout_secs +:+ "s"))
          else wait_loop fuel' (Datatypes.S i) child timeout_secs
      | Err e => Some (Err ("failed to wait on executable: " +:+ e))
      end
  end.

(** One poll every 50 ms: [20 * timeout + 2] polls are enough. *)
Definition wait_with_timeout (child : Child) (timeout_secs : Z) : option (result string Output) :=
  wait_loop (Z.to_nat (20 * timeout_secs + 2)) 0 child timeout_secs.

Definition with_config (payload : Value) (config : option Value) : Value :=
  match config with
  | None => payload
  | Some cfg => match payload with
                | Object m => Object (object_insert "policy_config" cfg m)
                | _ => payload
                end
  end.

Definition evaluate_executable (exe : string) (config : option Value) (pid : string)
    (ctx : PolicyContext) : option PolicyResult :=
  match to_value ctx with
  | Err e => Some (denied pid ("failed to serialize context: " +:+ e))
  | Ok payload =>
      match value_to_vec (with_config payload config) with
      | Err e => Some (denied pid ("failed to serialize context: " +:+ e))
      | Ok stdin_bytes =>
          match spawn exe with
          | Err e => Some (denied pid ("failed to start executable: " +:+ e))
          | Ok child =>
              match (if has_stdin child then write_stdin child stdin_bytes else Written) with
              | WriteFailed _ e => Some (denied pid ("failed to write stdin: " +:+ e))
              | Written =>
                  match wait_with_timeout child EXEC_TIMEOUT_SECS with
                  | None => None
                  | Some (Err r) => Some (denied pid r)
                  | Some (Ok output) =>
                      if negb (success (status output)) then
                        Some (denied pid (exited_with (status output) (stderr output)))
                      else Some (verdict_of pid (stdout output))
                  end
              end
          end
      end
  end.

(** The first rule that denies, if any. *)
Fixpoint evaluate_rules (rs : list PolicyRule) (pid : string) (ctx : PolicyContext)
  : option PolicyResult :=
  match rs with
  | [] => None
  | rule :: rs' =>
      let r := evaluate_rule rule pid ctx in
      if negb (allow r) then Some r else evaluate_rules rs' pid ctx
  end.

(** [None] only where a child never ends ([evaluate_policies_total]). *)
Definition evaluate_one (p : Policy) (ctx : PolicyContext) : option PolicyResult :=
  match evaluate_rules (policy_rules p) (policy_id_of p) ctx with
  | Some r => Some r
  | None =>
      match executable p with
      | Some exe => evaluate_executable exe (config p) (policy_id_of p) ctx
      | None => Some allowed
      end
  end.

Fixpoint evaluate_policies (ps : list Policy) (ctx : PolicyContext) : option PolicyResult :=
  match ps with
  | [] => Some allowed
  | p :: ps' =>
      match evaluate_one p ctx with
      | None => None
      | Some r => if negb (allow r) then Some r else evaluate_policies ps' ctx
      end
  end.

(** ** Amounts and addresses *)

(** The [u128] a trimmed decimal string denotes. *)
Definition decimal (s : string) : option Z := parse_unsigned u128_max (trim s).

(** A cap is respected exactly when it parses and the value is absent,
    blank, or a decimal [u128] not above it: a malformed cap or value always
    counts as exceeding. *)
Theorem amount_exceeds_false actual limit :
  amount_exceeds actual limit = false <->
  exists m, decimal limit = Some m /\
    (forall s, actual = Some s -> trim s = "" \/ exists v, decimal s = Some v /\ (v <= m)%Z).
Proof.
  unfold amount_exceeds, decimal.
  destruct (parse_unsigned u128_max (trim limit)) as [m|]; [|naive_solver].
  destruct actual as [s|]; [|naive_solver].
  destruct (trim s) as [|c t] eqn:Et; cbn [is_empty].
  { split; [|done]. intros _. exists m. split; [done|]. intros s' [= <-]. by left. }
  destruct (parse_unsigned u128_max (String c t)) as [v|] eqn:Ev.
  - rewrite Z.ltb_ge. split.
    + intros Hle. exists m. split; [done|]. intros s' [= <-]. right. exists v.
      by rewrite Et.
    + intros (m' & [= <-] & H). destruct (H s eq_refl) as [H'|(v' & Hv & Hle)]; [congruence|].
      rewrite Et, Ev in Hv. by injection Hv as <-.
  - split; [done|]. intros (m' & _ & H). destruct (H s eq_refl) as [H'|(v' & Hv & _)];
      [congruence|]. rewrite Et in Hv. congruence.
Qed.

(** ** Rules *)

(** What each declarative rule requires of the context. *)
Definition rule_holds (rule : PolicyRule) (ctx : PolicyContext) : Prop :=
  match rule with
  | AllowedChains chain_ids => In (chain_id ctx) chain_ids
  | ExpiresAt ts => exists now exp, parse_rfc3339_to_unix (timestamp ctx) = Some now /\
      parse_rfc3339_to_unix ts = Some exp /\ (now <= exp)%Z
  | AllowedTypedDataContracts contracts => forall td, typed_data ctx = Some td ->
      exists c a, verifying_contract td = Some c /\ In a contracts /\ to_lowercase a = to_lowercase c
  | MaxAmount m => amount_exceeds (value (transaction ctx)) m = false
  | AllowedAddresses l => forall t, to (transaction ctx) = Some t ->
      exists a, In a l /\ eq_ignore_ascii_case a t = true
  | AllowedAssets _ => True
  | Executable _ => False
  end.

Definition is_declarative (rule : PolicyRule) : bool :=
  match rule with Executable _ => false | _ => true end.

Lemma existsb_eqb x l : existsb (fun c => String.eqb c x) l = true <-> In x l.
Proof.
  rewrite existsb_exists. split.
  - by intros (y & Hy & ->%String.eqb_eq).
  - intros Hx. exists x. by rewrite String.eqb_refl.
Qed.

(** Each declarative rule allows exactly the contexts its meaning admits;
    in particular an unparseable timestamp or amount is a denial, and a
    missing destination or typed-data part passes. *)
Theorem declarative_rule_spec rule pid ctx :
  is_declarative rule = true ->
  allow (evaluate_rule rule pid ctx) = true <-> rule_holds rule ctx.
Proof.
  destruct rule as [ids|ts|cs|m|addrs|assets|path]; intros Hd; try done;
    cbn [evaluate_rule rule_holds]; clear Hd.
  - unfold eval_allowed_chains. rewrite <- existsb_eqb. by destruct (existsb _ ids).
  - unfold eval_expires_at. destruct (parse_rfc3339_to_unix (timestamp ctx)) as [now|];
      [|naive_solver]. destruct (parse_rfc3339_to_unix ts) as [exp|]; [|naive_solver].
    destruct (Z.ltb_spec exp now); cbn; [|naive_solver].
    split; [done|]. intros (n & e & [= <-] & [= <-] & ?). lia.
  - unfold eval_allowed_typed_data_contracts. destruct (typed_data ctx) as [td|]; [|naive_solver].
    destruct (verifying_contract td) as [c|] eqn:Ec.
    2: { split; [done|]. intros H. destruct (H td eq_refl) as (c & a & E & _). congruence. }
    destruct (existsb _ cs) eqn:E; cbn.
    + apply existsb_exists in E as (a & Ha & E%String.eqb_eq).
      split; [|done]. intros _ td' [= <-]. by exists c, a.
    + split; [done|]. intros H. destruct (H td eq_refl) as (c' & a & E' & Ha & El).
      assert (c' = c) as -> by congruence.
      assert (existsb (fun x => String.eqb (to_lowercase x) (to_lowercase c)) cs = true); [|congruence].
      apply existsb_exists. exists a. by rewrite El, String.eqb_refl.
  - by destruct (amount_exceeds _ m).
  - destruct (to (transaction ctx)) as [t|]; [|naive_solver]. unfold address_eq.
    destruct (existsb _ addrs) eqn:E; cbn.
    + apply existsb_exists in E as (a & Ha & E). split; [|done]. intros _ t' [= <-]. by exists a.
    + split; [done|]. intros H. destruct (H t eq_refl) as (a & Ha & Hea).
      assert (existsb (fun a => eq_ignore_ascii_case a t) addrs = true); [|congruence].
      apply existsb_exists. by exists a.
Qed.

(** ** Executables fail closed *)

Lemma verdict_of_allow pid out :
  allow (verdict_of pid out) = true <->
  exists r, result_from_slice out = Ok r /\ allow r = true.
Proof.
  unfold verdict_of. destruct (result_from_slice out) as [r|e]; [|naive_solver].
  destruct (allow r) eqn:E; naive_solver.
Qed.

Lemma validate_executable_path_ok path :
  validate_executable_path path = Ok tt <->
  starts_with "/" path = true /\ ~ In ".." (split_char "/" path).
Proof.
  unfold validate_executable_path. destruct (starts_with "/" path); cbn [negb]; [|naive_solver].
  destruct (existsb (String.eqb "..") (split_char "/" path)) eqn:E.
  - apply existsb_exists in E as (x & Hx & <-%String.eqb_eq). naive_solver.
  - split; [|done]. intros _. split; [done|]. intros Hin.
    assert (existsb (String.eqb "..") (split_char "/" path) = true); [|congruence].
    apply existsb_exists. by exists "..".
Qed.

(** A run that ends in time, normally, with its input taken (or its pipe closed
    early) and an [allow] verdict on its output. *)
Definition ran_and_allowed (path : string) (payload : bytes) : Prop :=
  exists child status r, spawn path = Ok child /\
    (has_stdin child = false \/ write_stdin child payload = Written \/
     exists e, write_stdin child payload = WriteFailed true e) /\
    finishes_in_time child = true /\ wait child = Ok status /\ success status = true /\
    result_from_slice (child_stdout child) = Ok r /\ allow r = true.

Lemma stdin_taken child payload :
  (has_stdin child = false \/ write_stdin child payload = Written \/
   exists e, write_stdin child payload = WriteFailed true e) <->
  is_ok (if has_stdin child then
    match write_stdin child payload with
    | Written => Ok tt
    | WriteFailed broken_pipe e =>
        if negb broken_pipe then Err ("failed to write stdin: " +:+ e) else Ok tt
    end else Ok tt) = true.
Proof.
  destruct (has_stdin child); [|split; [done|by left]].
  destruct (write_stdin child payload) as [|[] e]; cbn; split; try done; eauto.
  by intros [?|[?|[? ?]]].
Qed.

(** A branch that cannot be the run of the right-hand side. *)
Local Ltac no_run :=
  split; [done|];
  intros (_ & _ & ? & ? & ? & ? & ? & ? & _ & ? & ? & ? & ? & ?); congruence.

(** An executable rule fails closed: it allows only when the path is
    absolute without parent components, the program started, took its input,
    exited successfully in time and printed an allow verdict. *)
Theorem executable_rule_fail_closed path pid ctx :
  allow (evaluate_rule (Executable path) pid ctx) = true <->
  starts_with "/" path = true /\ ~ In ".." (split_char "/" path) /\
  exists payload, context_to_vec ctx = Ok payload /\ ran_and_allowed path payload.
Proof.
  cbn [evaluate_rule]. pose proof (validate_executable_path_ok path) as Hp.
  unfold run_executable, ran_and_allowed.
  destruct (validate_executable_path path) as [[]|e].
  2: { split; [done|]. intros (H1 & H2 & _). by discriminate (proj2 Hp (conj H1 H2)). }
  destruct (context_to_vec ctx) as [payload|e]; [|no_run].
  cbn [result_bind]. destruct Hp as [[Hp1 Hp2] _]; [done|].
  destruct (spawn path) as [child|e]; cbn [result_map_err result_bind]; [|no_run].
  pose proof (stdin_taken child payload) as Hw.
  destruct (if has_stdin child then _ else _) as [[]|e]; cbn [is_ok result_bind] in *.
  2: { split; [done|]. intros (_ & _ & p' & [= <-] & c & st & r & [= <-] & H & _).
       by apply Hw in H. }
  destruct (finishes_in_time child) eqn:Hf; cbn [negb]; [|no_run].
  destruct (wait child) as [st|e] eqn:Hwt; cbn [result_map_err result_bind]; [|no_run].
  destruct (success st) eqn:Hs; cbn [negb]; [|no_run].
  rewrite verdict_of_allow. split.
  - intros (r & Hr & Ha). split; [done|]. split; [done|]. exists payload. split; [done|].
    exists child, st, r. split_and!; try done. by apply Hw.
  - intros (_ & _ & p' & [= <-] & c & st' & r & [= <-] & _ & _ & _ & _ & Hr & Ha). by exists r.
Qed.

(** ** The polling loop *)

(** Each turn of the loop sleeps 50 ms before the next poll. *)
Definition paced (child : Child) : Prop := forall i, (50 * Z.of_nat i <= elapsed_ms child i)%Z.

Lemma wait_loop_total fuel i child timeout :
  paced child -> (timeout * 1000 < 50 * (Z.of_nat i + Z.of_nat fuel - 1))%Z -> (0 < fuel)%nat ->
  wait_loop fuel i child timeout <> None.
Proof.
  intros Hp. revert i. induction fuel as [|fuel IH]; intros i Ht Hf; [lia|]. cbn [wait_loop].
  destruct (try_wait child i) as [[|]|e]; try done.
  specialize (Hp i). destruct (Z.ltb_spec (timeout * 1000) (elapsed_ms child i)); [done|].
  apply IH; lia.
Qed.

Lemma wait_with_timeout_total child timeout :
  paced child -> (0 <= timeout)%Z -> wait_with_timeout child timeout <> None.
Proof. intros Hp Ht. apply wait_loop_total; [done|lia..]. Qed.

Lemma evaluate_executable_total exe cfg pid ctx :
  (forall p child, spawn p = Ok child -> paced child) ->
  evaluate_executable exe cfg pid ctx <> None.
Proof.
  intros Hp. unfold evaluate_executable. destruct (to_value ctx); [|done].
  destruct (value_to_vec _); [|done]. destruct (spawn exe) as [child|] eqn:Hs; [|done].
  destruct (if has_stdin child then _ else _); [|done].
  pose proof (wait_with_timeout_total child EXEC_TIMEOUT_SECS (Hp _ _ Hs) ltac:(done)) as Hw.
  destruct (wait_with_timeout child EXEC_TIMEOUT_SECS) as [[o|e]|]; try done.
  by destruct (negb _).
Qed.

(** Evaluation terminates with a verdict whatever the policies and the
    programs they name do: a program that never exits is cut off at the
    timeout. *)
Theorem evaluate_policies_total ps ctx :
  (forall p child, spawn p = Ok child -> paced child) -> evaluate_policies ps ctx <> None.
Proof.
  intros Hp. induction ps as [|p ps IH]; [done|]. cbn [evaluate_policies]. unfold evaluate_one.
  destruct (evaluate_rules _ _ _) as [r|]; [by destruct (negb (allow r))|].
  destruct (executable p) as [exe|]; [|done].
  pose proof (evaluate_executable_total exe (config p) (policy_id_of p) ctx Hp).
  destruct (evaluate_executable _ _ _ _) as [r|]; [|done]. by destruct (negb (allow r)).
Qed.

(** ** Conjunction *)

Definition passes (ctx : PolicyContext) (p : Policy) : Prop :=
  exists r, evaluate_one p ctx = Some r /\ allow r = true.

(** Policies combine with AND and the first denial wins: the verdict is a
    plain allow exactly when every policy passes, and otherwise it is the
    denial of the first policy that does not. *)
Theorem evaluate_policies_and ps ctx r :
  evaluate_policies ps ctx = Some r <->
  (r = allowed /\ Forall (passes ctx) ps) \/
  (allow r = false /\ exists pre p post, ps = (pre ++ p :: post)%list /\
     Forall (passes ctx) pre /\ evaluate_one p ctx = Some r).
Proof.
  induction ps as [|p ps IH]; cbn [evaluate_policies].
  { split; [intros [= <-]; left; by split|].
    intros [[-> _]|(_ & [|? ?] & ? & ? & ? & _)]; done. }
  destruct (evaluate_one p ctx) as [q|] eqn:Ep.
  2: { split; [done|]. intros [[_ H]|(_ & [|x pre] & y & post & [= <- ->] & H & E)].
       - apply Forall_cons in H as [(q & E & _) _]. congruence.
       - congruence.
       - apply Forall_cons in H as [(q & E' & _) _]. congruence. }
  destruct (allow q) eqn:Eq; cbn [negb].
  - rewrite IH. assert (Hpass : passes ctx p) by (by exists q). split.
    + intros [[-> H]|(Hr & pre & x & post & -> & H & E)]; [left; by repeat constructor|].
      right. split; [done|]. exists (p :: pre), x, post. split; [done|]. by repeat constructor.
    + intros [[-> H]|(Hr & [|y pre] & x & post & [= <- ->] & H & E)].
      * apply Forall_cons in H as [_ H]. by left.
      * rewrite Ep in E. congruence.
      * apply Forall_cons in H as [_ H]. right. split; [done|]. by exists pre, x, post.
  - split.
    + intros [= <-]. right. split; [done|]. by exists [], p, ps.
    + intros [[-> H]|(Hr & [|y pre] & x & post & [= <- ->] & H & E)].
      * apply Forall_cons in H as [(q' & E & Ha) _]. congruence.
      * congruence.
      * apply Forall_cons in H as [(q' & E' & Ha) _]. congruence.
Qed.

(** ** Denials are attributed *)

Definition attributed (pid : string) (r : PolicyResult) : Prop :=
  allow r = false -> policy_id r = Some pid /\ exists m, reason r = Some m.

Lemma denied_attributed pid m : attributed pid (denied pid m).
Proof. split; [done|by exists m]. Qed.

Lemma allowed_attributed pid : attributed pid allowed.
Proof. done. Qed.

Hint Resolve denied_attributed allowed_attributed : attributed.

Lemma verdict_attributed pid out : attributed pid (verdict_of pid out).
Proof. unfold verdict_of. destruct (result_from_slice out) as [r|]; [destruct (allow r)|]; auto with attributed. Qed.

Hint Resolve verdict_attributed : attributed.

Lemma evaluate_rule_attributed rule pid ctx : attributed pid (evaluate_rule rule pid ctx).
Proof.
  destruct rule; cbn [evaluate_rule];
    unfold eval_allowed_chains, eval_expires_at, eval_allowed_typed_data_contracts;
    repeat case_match; auto with attributed.
Qed.

Lemma evaluate_executable_attributed exe cfg pid ctx r :
  evaluate_executable exe cfg pid ctx = Some r -> attributed pid r.
Proof.
  unfold evaluate_executable. intros H. repeat case_match; simplify_eq; auto with attributed.
Qed.

(** Every denial of a policy names that policy and gives a reason, also when
    an executable leaves them out. *)
Theorem denials_attributed p ctx r :
  evaluate_one p ctx = Some r -> allow r = false ->
  policy_id r = Some (policy_id_of p) /\ exists m, reason r = Some m.
Proof.
  unfold evaluate_one. intros H Ha. revert Ha. change (attributed (policy_id_of p) r).
  destruct (evaluate_rules (policy_rules p) (policy_id_of p) ctx) as [q|] eqn:E.
  - injection H as <-. revert E. generalize (policy_rules p) as rs.
    induction rs as [|rule rs IH]; cbn [evaluate_rules]; [done|].
    destruct (negb _); [|done]. intros [= <-]. apply evaluate_rule_attributed.
  - destruct (executable p); [by eapply evaluate_executable_attributed|].
    injection H as <-. auto with attributed.
Qed.

(** The asset rule of this engine never denies: whatever the allowlist, the
    context carries no asset to compare. *)
Theorem allowed_assets_never_denies assets pid ctx :
  evaluate_rule (AllowedAssets assets) pid ctx = allowed.
Proof. reflexivity. Qed.
End V1.

(** ** Concrete runs *)

(** A program at [/bin/guard] that prints [[1]]; anything else does not start. *)
Definition demo_child (code : bytes) : Child := {|
  has_stdin := true;
  write_stdin _ := WriteFailed true "broken pipe";
  try_wait i := Ok (2 <=? i)%nat;
  elapsed_ms i := (51 * Z.of_nat i)%Z;
  wait := Ok {| success := true; status_text := "exit status: 0" |};
  finishes_in_time := true;
  child_stdout := code;
  child_stderr := []
|}.

Definition demo_spawn (path : string) : result string Child :=
  if String.eqb path "/bin/guard" then Ok (demo_child [1%Z])
  else if String.eqb path "/bin/refuse" then Ok (demo_child [0%Z])
  else Err "not found".

Definition demo_verdict (bs : bytes) : result string PolicyResult :=
  match bs with
  | [1%Z] => Ok allowed
  | [0%Z] => Ok {| allow := false; reason := None; policy_id := None |}
  | _ => Err "expected value"
  end.

Definition demo_seconds (s : string) : option Z := parse_unsigned u64_max s.

Definition demo_context : PolicyContext := {|
  chain_id := "eip155:1";
  wallet_id := "w";
  api_key_id := "k";
  transaction := {| to := Some "0xabc"; value := Some " 100 "; raw_hex := ""; data := None |};
  spending := {| daily_total := "0"; date := "2026-01-01" |};
  timestamp := "1000";
  typed_data := None
|}.

Abbreviation demo_rule :=
  (evaluate_rule demo_spawn (fun _ => Ok []) demo_verdict (fun _ => "") (fun s => s) demo_seconds).
Abbreviation demo_one :=
  (evaluate_one demo_spawn (fun _ => Ok (Object [])) (fun _ => Ok []) (fun _ => Ok [])
     demo_verdict (fun _ => "") (fun s => s) demo_seconds).
Abbreviation demo_policies :=
  (evaluate_policies demo_spawn (fun _ => Ok (Object [])) (fun _ => Ok []) (fun _ => Ok [])
     demo_verdict (fun _ => "") (fun s => s) demo_seconds).

Definition demo_v1_policy (rs : list PolicyRule) (exe : option string) : Policy := {|
  policy_id_of := "p1";
  policy_name := "demo";
  policy_version := 1;
  created_at := "";
  policy_rules := rs;
  executable := exe;
  config := Some Null;
  action := ActionDeny
|}.

Lemma declarative_rule_spec_witness :
  rule_holds (fun s => s) demo_seconds (ExpiresAt "1000") demo_context /\
  ~ rule_holds (fun s => s) demo_seconds (MaxAmount "99") demo_context /\
  rule_holds (fun s => s) demo_seconds (AllowedAddresses ["0xABC"]) demo_context.
Proof.
  split; [|split].
  - apply (declarative_rule_spec demo_spawn (fun _ => Ok (Object [])) (fun _ => Ok []) demo_verdict (fun _ => "") (fun s => s)
             demo_seconds (ExpiresAt "1000") "p1"); reflexivity.
  - rewrite <- (declarative_rule_spec demo_spawn (fun _ => Ok (Object [])) (fun _ => Ok []) demo_verdict (fun _ => "")
             (fun s => s) demo_seconds (MaxAmount "99") "p1" demo_context eq_refl). discriminate.
  - apply (declarative_rule_spec demo_spawn (fun _ => Ok (Object [])) (fun _ => Ok []) demo_verdict (fun _ => "") (fun s => s)
             demo_seconds (AllowedAddresses ["0xABC"]) "p1"); reflexivity.
Defined.

Lemma evaluate_policies_total_witness :
  demo_policies [demo_v1_policy [Executable "/bin/guard"] None] demo_context <> None.
Proof.
  apply evaluate_policies_total. intros p child H. unfold demo_spawn in H.
  destruct (String.eqb p "/bin/guard"); [|destruct (String.eqb p "/bin/refuse"); [|discriminate]];
    injection H as <-; intros i; cbn [elapsed_ms demo_child]; lia.
Defined.

Lemma denials_attributed_witness :
  exists r, demo_one (demo_v1_policy [Executable "/bin/guard"; Executable "/bin/refuse"] None)
      demo_context = Some r /\ policy_id r = Some "p1".
Proof.
  eexists. split; [vm_compute; reflexivity|].
  eapply (denials_attributed demo_spawn (fun _ => Ok (Object [])) (fun _ => Ok []) (fun _ => Ok [])
     demo_verdict (fun _ => "") (fun s => s) demo_seconds
     (demo_v1_policy [Executable "/bin/guard"; Executable "/bin/refuse"] None) demo_context);
    vm_compute; reflexivity.
Defined.

(** The program hook of a policy does not tolerate a closed pipe, the rule does. *)
Example demo_hook_broken_pipe :
  demo_one (demo_v1_policy [] (Some "/bin/guard")) demo_context =
    Some (denied "p1" "failed to write stdin: broken pipe") /\
  demo_one (demo_v1_policy [Executable "/bin/guard"] None) demo_context = Some allowed.
Proof. split; reflexivity. Qed.
