(* ===== verification/Rlp.v ===== *)
(** * RLP and signed EVM transactions

    [crates/oc-signer/src/rlp.rs], [DeriveError] of [error.rs], [SignOutput] of
    [traits.rs] and [EvmSigner::encode_signed_transaction] of [chains/evm.rs]. *)

From Stdlib Require Import ZArith Lia Bool String.
From stdpp Require Import base list.
From S2P Require Import Prelude Bytes.

Local Open Scope oc_scope.
Local Open Scope Z_scope.

Inductive DeriveError :=
| Input (msg : string)
| Crypto (msg : string)
| AddressEncoding (msg : string)
| Transaction (msg : string)
| Unsupported (msg : string).

Abbreviation SignerError := DeriveError.

Record SignOutput := {
  signature : bytes;
  recovery_id : option Z;
  public_key : option bytes
}.

(** ** Decoding lengths *)

Definition read_be_uint (bs : bytes) : Z :=
  fold_left (fun val b => Z.lor (usize_shl val 8) b) bs 0.

(** [(payload_offset, payload_length)]; the two long forms share their text in
    the source. *)
Definition decode_long (data : bytes) (len_bytes : Z) : result SignerError (Z * Z) :=
  if len data <? 1 + len_bytes then Err (Transaction "truncated RLP length")
  else Ok (1 + len_bytes, read_be_uint (take (Z.to_nat len_bytes) (drop 1 data))).

Definition decode_length (data : bytes) : result SignerError (Z * Z) :=
  match data with
  | [] => Err (Transaction "empty input")
  | prefix :: _ =>
      if prefix <=? 0x7f then Ok (0, 1)
      else if prefix <=? 0xb7 then Ok (1, prefix - 0x80)
      else if prefix <=? 0xbf then decode_long data (prefix - 0xb7)
      else if prefix <=? 0xf7 then Ok (1, prefix - 0xc0)
      else decode_long data (prefix - 0xf7)
  end.

(** ** Encoding *)

(** The [unwrap_or] of the source only concerns an all-zero value, which the
    test on [val] has excluded. *)
Definition be_bytes (val : Z) : bytes :=
  if val =? 0 then [0] else drop_zeros (to_be_bytes 8 val).

Definition encode_length (n : Z) (offset : Z) : bytes :=
  if n <? 56 then [u8_add offset (n mod 256)]
  else
    let len_bytes := be_bytes n in
    u8_add (u8_add offset 55) (len len_bytes mod 256) :: len_bytes.

Definition encode_bytes (data : bytes) : bytes :=
  match data with
  | [b] => if b <? 0x80 then data else encode_length (len data) 0x80 ++ data
  | _ => encode_length (len data) 0x80 ++ data
  end.

Definition encode_list (items : bytes) : bytes := encode_length (len items) 0xc0 ++ items.

Definition encode_minimal_int (bs : bytes) : bytes := encode_bytes (drop_zeros bs).

Definition encode_u64 (val : Z) : bytes := encode_minimal_int (to_be_bytes 8 val).
Definition encode_u128 (val : Z) : bytes := encode_minimal_int (to_be_bytes 16 val).

Definition strip_leading_zeros (data : bytes) : bytes := drop_zeros data.

(** ** Signed transactions *)

(** A panicking slice inside a fallible function. *)
Definition slice_of (data : bytes) (a b : Z) : outcome (result SignerError bytes) :=
  match slice data a b with Ret x => Ret (Ok x) | Panic => Panic end.

Definition encode_signed_typed_tx (unsigned_tx : bytes) (v : Z) (r s : bytes)
  : outcome (result SignerError bytes) :=
  match unsigned_tx with
  | [] => Ret (Err (Transaction "empty transaction"))
  | type_byte :: rlp_data =>
      if negb (type_byte =? 1) && negb (type_byte =? 2) then
        Ret (Err (Transaction "unsupported transaction type (expected 0x01 or 0x02)"))
      else
        let! '(payload_offset, payload_length) := Ret (decode_length rlp_data) in
        if len rlp_data <? usize_add payload_offset payload_length then
          Ret (Err (Transaction "truncated RLP payload"))
        else
          let! items := slice_of rlp_data payload_offset
                          (usize_add payload_offset payload_length) in
          let v_encoded := encode_bytes (strip_leading_zeros [v]) in
          let r_encoded := encode_bytes (strip_leading_zeros r) in
          let s_encoded := encode_bytes (strip_leading_zeros s) in
          let new_items := items ++ v_encoded ++ r_encoded ++ s_encoded in
          Ret (Ok (type_byte :: encode_list new_items))
  end.

(** The loop of [split_items]: [rest] is [payload[pos..]].  Every turn consumes
    at least one byte, so the length of the payload is enough fuel
    ([split_items_step]). *)
Fixpoint split_loop (fuel : nat) (rest : bytes) : result SignerError (list bytes) :=
  match fuel, rest with
  | _, [] => Ok []
  | O, _ => Ok []
  | S fuel', _ =>
      let? '(off, n) := decode_length rest in
      let total := saturating_add64 off n in
      if len rest <? total then Err (Transaction "truncated RLP item")
      else
        let? items := split_loop fuel' (drop (Z.to_nat total) rest) in
        Ok (take (Z.to_nat total) rest :: items)
  end.

Definition split_items (payload : bytes) : result SignerError (list bytes) :=
  split_loop (length payload) payload.

Definition decode_uint (item : bytes) : outcome (result SignerError Z) :=
  let! '(off, n) := Ret (decode_length item) in
  if len item <? saturating_add64 off n then
    Ret (Err (Transaction "truncated RLP integer"))
  else
    let! bs := slice_of item off (usize_add off n) in
    if 8 <? len bs then Ret (Err (Transaction "integer exceeds u64"))
    else Ret (Ok (fold_left (fun val b => Z.lor (usize_shl val 8) b) bs 0)).

(** [chain_id.checked_mul(2).and_then(|c| c.checked_add(35 + recovery_id))]. *)
Definition eip155_v (chain_id recovery_id : Z) : option Z :=
  match checked_mul64 chain_id 2 with
  | Some c => checked_add64 c (35 + recovery_id)
  | None => None
  end.

Definition encode_signed_legacy_tx (unsigned_tx : bytes) (recovery_id : Z) (r s : bytes)
  : outcome (result SignerError bytes) :=
  if 1 <? recovery_id then
    Ret (Err (Transaction "invalid recovery id (expected 0 or 1)"))
  else
    match unsigned_tx with
    | [] => Ret (Err (Transaction "empty transaction"))
    | first :: _ =>
        if negb ((0xc0 <=? first) && (first <=? 0xff)) then
          Ret (Err (Transaction "expected RLP list (legacy transaction)"))
        else
          let! '(payload_offset, payload_length) := Ret (decode_length unsigned_tx) in
          if len unsigned_tx <? saturating_add64 payload_offset payload_length then
            Ret (Err (Transaction "truncated RLP payload"))
          else
            let! payload := slice_of unsigned_tx payload_offset
                              (usize_add payload_offset payload_length) in
            let! items := Ret (split_items payload) in
            let! '(fields, v) :=
              match items with
              | [_; _; _; _; _; _; item6; _; _] =>
                  let! chain_id := decode_uint item6 in
                  let! v := Ret (ok_or (Transaction "v overflows u64")
                                       (eip155_v chain_id recovery_id)) in
                  Ret (Ok (take 6 items, v))
              | [_; _; _; _; _; _] => Ret (Ok (items, 27 + recovery_id))
              | _ => Ret (Err (Transaction
                       "expected 6 (pre-EIP-155) or 9 (EIP-155) unsigned items"))
              end in
            let new_items := concat fields ++ encode_u64 v ++
              encode_bytes (strip_leading_zeros r) ++ encode_bytes (strip_leading_zeros s) in
            Ret (Ok (encode_list new_items))
    end.

(** [EvmSigner::encode_signed_transaction]. *)
Definition encode_signed_transaction (tx_bytes : bytes) (sig : SignOutput)
  : outcome (result SignerError bytes) :=
  if negb (len (signature sig) =? 65) then
    Ret (Err (Transaction "expected 65-byte signature (r || s || v)"))
  else
    let v := nth 64 (signature sig) 0 in
    let r := take 32 (signature sig) in
    let s := take 32 (drop 32 (signature sig)) in
    let typed := match tx_bytes with b :: _ => (b =? 1) || (b =? 2) | [] => false end in
    if typed then encode_signed_typed_tx tx_bytes v r s
    else encode_signed_legacy_tx tx_bytes v r s.

(** ** The RLP grammar *)

Inductive rlp :=
| Str (data : bytes)
| List (items : list rlp).

(** The reference encoder, on trees. *)
Fixpoint encode (x : rlp) : bytes :=
  match x with
  | Str data => encode_bytes data
  | List items => encode_list (concat (map encode items))
  end.

(** Every byte is a byte and every length fits [usize]. *)
Fixpoint rlp_ok (x : rlp) : Prop :=
  match x with
  | Str data => is_bytes data /\ len data < 2 ^ 64
  | List items => fold_right (fun x P => rlp_ok x /\ P) True items /\
                  len (concat (map encode items)) < 2 ^ 64
  end.

(** ** Length headers *)

Lemma read_be_uint_value bs : is_bytes bs -> be_value bs < 2 ^ 64 -> read_be_uint bs = be_value bs.
Proof. intros Hb Hlt. unfold read_be_uint. rewrite fold_shl_or by (done || lia). lia. Qed.

Lemma be_bytes_value n : 0 <= n < 2 ^ 64 -> be_value (be_bytes n) = n.
Proof.
  intros Hn. unfold be_bytes. destruct (Z.eqb_spec n 0) as [->|]; [done|].
  rewrite be_value_drop_zeros, be_value_to_be_bytes. by apply Z.mod_small.
Qed.

Lemma be_bytes_bytes n : is_bytes (be_bytes n).
Proof.
  unfold be_bytes. destruct (n =? 0); [by repeat constructor|].
  apply drop_zeros_bytes, to_be_bytes_bytes.
Qed.

Lemma be_bytes_len n : 0 < n < 2 ^ 64 -> 1 <= len (be_bytes n) <= 8.
Proof.
  intros Hn. pose proof (be_bytes_value n) as Hv. unfold be_bytes in *.
  destruct (Z.eqb_spec n 0); [lia|].
  pose proof (drop_zeros_length (to_be_bytes 8 n)) as Hl. rewrite to_be_bytes_length in Hl.
  unfold len. destruct (drop_zeros (to_be_bytes 8 n)); [cbn in Hv; lia|]. cbn [length] in *. lia.
Qed.

(** The header [encode_length] writes is the one [decode_length] reads. *)
Lemma decode_encode_length n offset tail :
  0 <= n < 2 ^ 64 -> offset = 0x80 \/ offset = 0xc0 ->
  decode_length (encode_length n offset ++ tail) = Ok (len (encode_length n offset), n).
Proof.
  intros Hn Hoff. unfold encode_length. destruct (Z.ltb_spec n 56) as [Hs|Hs].
  - rewrite Z.mod_small by lia. unfold u8_add. rewrite Z.mod_small by lia.
    cbn [app decode_length].
    destruct Hoff as [-> | ->].
    + rewrite (proj2 (Z.leb_gt _ _)), (proj2 (Z.leb_le _ _)) by lia.
      do 2 f_equal. lia.
    + rewrite !(proj2 (Z.leb_gt _ _)), (proj2 (Z.leb_le _ _)) by lia.
      do 2 f_equal. lia.
  - pose proof (be_bytes_len n) as Hl. pose proof (be_bytes_value n Hn) as Hv.
    pose proof (be_bytes_bytes n) as Hb. set (bs := be_bytes n) in *.
    assert (Hk : 1 <= len bs <= 8) by lia.
    assert (Hlong : forall prefix, decode_long (prefix :: bs ++ tail) (len bs) = Ok (len (prefix :: bs), n)).
    { intros prefix. unfold decode_long. rewrite len_cons, len_app.
      pose proof (len_nonneg tail). rewrite (proj2 (Z.ltb_ge _ _)) by lia.
      change (drop 1 (prefix :: bs ++ tail)) with (bs ++ tail). rewrite (len_cons prefix bs).
      replace (Z.to_nat (len bs)) with (length bs) by (unfold len; lia).
      rewrite take_app_length, read_be_uint_value by (done || lia). by rewrite Hv. }
    unfold u8_add. rewrite (Z.mod_small (len bs)) by lia. destruct Hoff as [-> | ->].
    + change ((0x80 + 55) mod 2 ^ 8) with 0xb7. rewrite Z.mod_small by lia.
      cbn [app decode_length].
      rewrite !(proj2 (Z.leb_gt (0xb7 + len bs) _)), (proj2 (Z.leb_le _ _)) by lia.
      replace (0xb7 + len bs - 0xb7) with (len bs) by lia. apply Hlong.
    + change ((0xc0 + 55) mod 2 ^ 8) with 0xf7. rewrite Z.mod_small by lia.
      cbn [app decode_length].
      rewrite !(proj2 (Z.leb_gt (0xf7 + len bs) _)) by lia.
      replace (0xf7 + len bs - 0xf7) with (len bs) by lia. apply Hlong.
Qed.

(** ** One item *)

(** A header in front of a payload: what [decode_length] sees of one item. *)
Definition framed (item header payload : bytes) : Prop :=
  item = header ++ payload /\
  forall tail, decode_length (item ++ tail) = Ok (len header, len payload).

Lemma encode_bytes_framed data :
  is_bytes data -> len data < 2 ^ 64 -> exists h, framed (encode_bytes data) h data.
Proof.
  intros Hb Hl. pose proof (len_nonneg data).
  assert (Hlong : framed (encode_length (len data) 0x80 ++ data) (encode_length (len data) 0x80) data).
  { split; [done|]. intros tail. rewrite <- app_assoc. apply decode_encode_length; auto with lia. }
  unfold encode_bytes. destruct data as [|b [|b' data]]; [by eexists| |by eexists].
  destruct (Z.ltb_spec b 0x80); [|by eexists].
  exists []. split; [done|]. intros tail. cbn [app decode_length].
  by rewrite (proj2 (Z.leb_le _ _)) by lia.
Qed.

Lemma encode_list_framed items :
  len items < 2 ^ 64 -> framed (encode_list items) (encode_length (len items) 0xc0) items.
Proof.
  intros Hl. pose proof (len_nonneg items). split; [done|]. intros tail. unfold encode_list.
  rewrite <- app_assoc. apply decode_encode_length; auto with lia.
Qed.

Definition payload_of (x : rlp) : bytes :=
  match x with Str data => data | List items => concat (map encode items) end.

Lemma encode_framed x : rlp_ok x -> exists h, framed (encode x) h (payload_of x).
Proof.
  destruct x as [data|items]; simpl; intros [H Hl]; [by apply encode_bytes_framed|].
  eexists. by apply encode_list_framed.
Qed.

Lemma encode_length_nonempty n offset : 1 <= len (encode_length n offset).
Proof.
  unfold encode_length. destruct (n <? 56); [done|]. rewrite len_cons.
  pose proof (len_nonneg (be_bytes n)). lia.
Qed.

Lemma encode_nonempty x : 1 <= len (encode x).
Proof.
  destruct x as [data|items]; simpl.
  - unfold encode_bytes. destruct data as [|b [|b' data]]; [done| |].
    + destruct (b <? 0x80); [done|].
      rewrite len_app. pose proof (encode_length_nonempty (len [b]) 0x80).
      pose proof (len_nonneg [b]). lia.
    + rewrite len_app. pose proof (encode_length_nonempty (len (b :: b' :: data)) 0x80).
      pose proof (len_nonneg (b :: b' :: data)). lia.
  - unfold encode_list. rewrite len_app.
    pose proof (encode_length_nonempty (len (concat (map encode items))) 0xc0).
    pose proof (len_nonneg (concat (map encode items))). lia.
Qed.

Lemma saturating_add64_small a b : 0 <= a + b < 2 ^ 64 -> saturating_add64 a b = a + b.
Proof. unfold saturating_add64, u64_max. lia. Qed.

Lemma usize_add_small a b : 0 <= a + b < 2 ^ 64 -> usize_add a b = a + b.
Proof. intros. by apply Z.mod_small. Qed.

(** ** Splitting a payload *)

Lemma split_loop_encoded fuel xs :
  Forall rlp_ok xs -> len (concat (map encode xs)) < 2 ^ 64 -> (length xs <= fuel)%nat ->
  split_loop fuel (concat (map encode xs)) = Ok (map encode xs).
Proof.
  intros Hok. revert fuel. induction Hok as [|x xs Hx _ IH]; intros fuel Hl Hf; [by destruct fuel|].
  destruct fuel as [|fuel]; [simpl in Hf; lia|].
  cbn [map concat] in *. destruct (encode_framed x Hx) as (h & Heq & Hdec).
  pose proof (encode_nonempty x) as Hpos. rewrite len_app in Hl.
  pose proof (len_nonneg (concat (map encode xs))).
  pose proof (f_equal len Heq) as Hlen. rewrite len_app in Hlen.
  pose proof (len_nonneg h). pose proof (len_nonneg (payload_of x)).
  assert (Htot : saturating_add64 (len h) (len (payload_of x)) = len (encode x)).
  { rewrite saturating_add64_small by lia. lia. }
  set (tail := concat (map encode xs)) in *. specialize (Hdec tail).
  destruct (encode x) as [|b e] eqn:Ee; [done|]. cbn [app split_loop] in *.
  rewrite Hdec. cbn [result_bind]. rewrite Htot.
  change (b :: e ++ tail) with ((b :: e) ++ tail). rewrite len_app.
  rewrite (proj2 (Z.ltb_ge _ _)) by lia.
  replace (Z.to_nat (len (b :: e))) with (length (b :: e)) by (unfold len; lia).
  rewrite drop_app_length, take_app_length, IH by (simpl in Hf; lia). done.
Qed.

Lemma concat_length_le xs : (length xs <= length (concat (map encode xs)))%nat.
Proof.
  induction xs as [|x xs IH]; simpl; [lia|]. rewrite length_app.
  pose proof (encode_nonempty x). unfold len in *. lia.
Qed.

Lemma split_items_encoded xs :
  Forall rlp_ok xs -> len (concat (map encode xs)) < 2 ^ 64 ->
  split_items (concat (map encode xs)) = Ok (map encode xs).
Proof. intros. apply split_loop_encoded; [done..|apply concat_length_le]. Qed.

Lemma decode_length_progress data off n :
  is_bytes data -> decode_length data = Ok (off, n) -> 0 <= off /\ 0 <= n /\ 1 <= off + n.
Proof.
  intros Hb. destruct Hb as [|p data Hp Hb]; [done|]. cbn [decode_length].
  assert (Hlong : forall k, 0 < k -> decode_long (p :: data) k = Ok (off, n) ->
                  0 <= off /\ 0 <= n /\ 1 <= off + n).
  { intros k Hk. unfold decode_long. destruct (_ <? _); [done|].
    assert (Hn : 0 <= read_be_uint (take (Z.to_nat k) (drop 1 (p :: data)))).
    { apply fold_shl_nonneg; [done|]. by apply Forall_take, Forall_drop; constructor. }
    revert Hn. generalize (read_be_uint (take (Z.to_nat k) (drop 1 (p :: data)))).
    intros m Hm [= <- <-]. lia. }
  unfold is_byte in Hp.
  repeat match goal with
  | |- context [Z.leb ?a ?b] => destruct (Z.leb_spec a b)
  end; intros E; try (eapply Hlong; [|exact E]; lia); injection E as <- <-; lia.
Qed.

(** One item off the front: the reference reading of the loop. *)
Definition next_item (rest : bytes) : result SignerError (bytes * bytes) :=
  let? '(off, n) := decode_length rest in
  let total := saturating_add64 off n in
  if len rest <? total then Err (Transaction "truncated RLP item")
  else Ok (take (Z.to_nat total) rest, drop (Z.to_nat total) rest).

Lemma next_item_shorter rest item rest' :
  is_bytes rest -> next_item rest = Ok (item, rest') ->
  rest = item ++ rest' /\ (length rest' < length rest)%nat /\ item <> [].
Proof.
  intros Hb H. unfold next_item in H. bind_ok H.
  destruct a as [off n]. destruct (decode_length_progress _ _ _ Hb Hok) as (? & ? & ?).
  destruct (Z.ltb_spec (len rest) (saturating_add64 off n)) as [|Hle]; [done|].
  injection H as <- <-. split; [by rewrite take_drop|].
  assert (1 <= saturating_add64 off n) by (unfold saturating_add64, u64_max; lia).
  unfold len in Hle. rewrite length_drop. split; [lia|].
  destruct rest; [simpl in *; lia|]. by destruct (Z.to_nat (saturating_add64 off n)) eqn:?; [lia|].
Qed.

Lemma split_loop_step fuel rest :
  split_loop (S fuel) rest =
  match rest with
  | [] => Ok []
  | _ => let? '(item, rest') := next_item rest in
         let? items := split_loop fuel rest' in Ok (item :: items)
  end.
Proof.
  destruct rest as [|b rest]; [done|]. cbn [split_loop]. unfold next_item.
  destruct (decode_length (b :: rest)) as [[off n]|e]; [|done]. cbn [result_bind].
  by destruct (_ <? _).
Qed.

Lemma split_loop_fuel fuel rest :
  is_bytes rest -> (length rest <= fuel)%nat -> split_loop fuel rest = split_items rest.
Proof.
  unfold split_items. remember (length rest) as k eqn:Hk. revert fuel rest Hk.
  induction (lt_wf k) as [k _ IH]. intros fuel rest -> Hb Hf.
  destruct rest as [|b rest]; [by destruct fuel|].
  destruct fuel as [|fuel]; [simpl in Hf; lia|].
  cbn [length]. rewrite !split_loop_step.
  destruct (next_item (b :: rest)) as [[item rest']|e] eqn:E; [|done]. cbn [result_bind].
  destruct (next_item_shorter _ _ _ Hb E) as (Heq & Hlt & _).
  assert (Hb' : is_bytes rest') by (rewrite Heq in Hb; by apply Forall_app in Hb as [_ ?]).
  simpl in Hf, Hlt.
  rewrite (IH (length rest') Hlt fuel rest') by (done || lia).
  by rewrite <- (IH (length rest') Hlt (length rest) rest') by (done || lia).
Qed.

Lemma split_items_unfold rest :
  is_bytes rest ->
  split_items rest =
  match rest with
  | [] => Ok []
  | _ => let? '(item, rest') := next_item rest in
         let? items := split_items rest' in Ok (item :: items)
  end.
Proof.
  intros Hb. destruct rest as [|b rest]; [done|]. unfold split_items at 1.
  cbn [length]. rewrite split_loop_step.
  destruct (next_item (b :: rest)) as [[item rest']|e] eqn:E; [|done]. cbn [result_bind].
  destruct (next_item_shorter _ _ _ Hb E) as (Heq & Hlt & _).
  rewrite split_loop_fuel; [done| |simpl in Hlt; lia].
  rewrite Heq in Hb. by apply Forall_app in Hb as [_ ?].
Qed.

(** [decode_length] only looks at the header. *)
Lemma decode_length_local item rest off n :
  item <> [] -> off <= len item -> decode_length (item ++ rest) = Ok (off, n) ->
  decode_length item = Ok (off, n).
Proof.
  intros Hne Hoff. destruct item as [|p item]; [done|]. cbn [app decode_length].
  assert (Hlong : forall k, 0 < k -> decode_long (p :: item ++ rest) k = Ok (off, n) ->
                  decode_long (p :: item) k = Ok (off, n)).
  { intros k Hk. unfold decode_long.
    destruct (Z.ltb_spec (len (p :: item ++ rest)) (1 + k)); [done|].
    change (drop 1 (p :: item ++ rest)) with (item ++ rest).
    change (drop 1 (p :: item)) with item. intros E. injection E as E1 E2.
    rewrite len_cons in Hoff. rewrite len_cons, (proj2 (Z.ltb_ge _ _)) by lia.
    rewrite take_app_le in E2 by (unfold len in Hoff; lia). congruence. }
  repeat match goal with
  | |- context [Z.leb ?a ?b] => destruct (Z.leb_spec a b)
  end; try done; apply Hlong; lia.
Qed.

(** An item that is exactly one header and its payload. *)
Definition one_item (item : bytes) : Prop :=
  item <> [] /\ exists off n, decode_length item = Ok (off, n) /\ off + n = len item.

Lemma split_items_concat payload items :
  is_bytes payload -> split_items payload = Ok items -> concat items = payload.
Proof.
  remember (length payload) as k eqn:Hk. revert payload Hk items.
  induction (lt_wf k) as [k _ IH]. intros payload -> items Hb.
  rewrite split_items_unfold by done. destruct payload as [|b payload]; [by intros [= <-]|].
  intros H. bind_ok H. destruct a as [item rest'].
  destruct (next_item_shorter _ _ _ Hb Hok) as (Heq & Hlt & Hne).
  bind_ok H. injection H as <-. rewrite Heq in *. apply Forall_app in Hb as [_ Hb'].
  simpl. by rewrite (IH (length rest') Hlt rest' eq_refl a Hb').
Qed.

(** Splitting loses, duplicates and reorders no byte: the items it returns
    concatenate to the payload and each of them is one complete RLP item, header
    included.  Every turn of the loop consumes a byte, so it terminates on every
    payload a slice can hold. *)
Theorem split_items_tiles payload items :
  is_bytes payload -> len payload <= isize_max -> split_items payload = Ok items ->
  concat items = payload /\ Forall one_item items.
Proof.
  remember (length payload) as k eqn:Hk. revert payload Hk items.
  induction (lt_wf k) as [k _ IH]. intros payload -> items Hb Hl.
  rewrite split_items_unfold by done. destruct payload as [|b payload]; [by intros [= <-]|].
  intros H. bind_ok H. destruct a as [item rest'].
  destruct (next_item_shorter _ _ _ Hb Hok) as (Heq & Hlt & Hne).
  bind_ok H. injection H as <-. rewrite Heq in *. apply Forall_app in Hb as [Hbi Hb'].
  rewrite len_app in Hl. pose proof (len_nonneg item). pose proof (len_nonneg rest').
  destruct (IH (length rest') Hlt rest' eq_refl a Hb') as [Hc Hall]; [lia|done|].
  split; [simpl; by rewrite Hc|]. constructor; [|done]. split; [done|].
  unfold next_item in Hok. bind_ok Hok. destruct a0 as [off n].
  assert (Hbs : is_bytes (item ++ rest')) by (by apply Forall_app).
  destruct (decode_length_progress _ _ _ Hbs Hok1) as (? & ? & ?).
  destruct (Z.ltb_spec (len (item ++ rest')) (saturating_add64 off n)) as [|Hle]; [done|].
  injection Hok as Ei _. rewrite len_app in Hle.
  assert (Htot : off + n = len item).
  { rewrite <- Ei. unfold saturating_add64, u64_max, isize_max, len in *.
    rewrite length_take, length_app. lia. }
  exists off, n. split; [|done]. eapply decode_length_local; [done|lia|exact Hok1].
Qed.

(** The tree encoder is inverted by the splitter: the payload of an encoded
    list splits into exactly the encodings of its elements, however nested. *)
Theorem split_items_encode xs :
  Forall rlp_ok xs -> len (concat (map encode xs)) < 2 ^ 64 ->
  split_items (concat (map encode xs)) = Ok (map encode xs).
Proof. apply split_items_encoded. Qed.

(** ** Scalars *)

Lemma encode_u64_framed v : exists h, framed (encode_u64 v) h (drop_zeros (to_be_bytes 8 v)).
Proof.
  apply encode_bytes_framed; [apply drop_zeros_bytes, to_be_bytes_bytes|].
  pose proof (drop_zeros_length (to_be_bytes 8 v)) as Hl. rewrite to_be_bytes_length in Hl.
  unfold len. lia.
Qed.

Lemma framed_slice item h p :
  framed item h p -> len item < 2 ^ 64 -> slice item (len h) (usize_add (len h) (len p)) = Ret p.
Proof.
  intros [-> _]. rewrite len_app. pose proof (len_nonneg h). pose proof (len_nonneg p).
  intros. rewrite usize_add_small by lia.
  pose proof (slice_app h p []) as Hs. by rewrite app_nil_r in Hs.
Qed.

Lemma decode_uint_framed item h p :
  framed item h p -> is_bytes p -> len p <= 8 -> len item < 2 ^ 64 ->
  decode_uint item = Ret (Ok (be_value p)).
Proof.
  intros Hf Hb Hp Hl. unfold decode_uint. pose proof Hf as [Heq Hdec].
  specialize (Hdec []). rewrite app_nil_r in Hdec. rewrite Hdec. cbn [comp_bind].
  pose proof (f_equal len Heq) as Hlen. rewrite len_app in Hlen.
  pose proof (len_nonneg h). pose proof (len_nonneg p).
  rewrite saturating_add64_small, (proj2 (Z.ltb_ge _ _)) by lia.
  unfold slice_of. rewrite (framed_slice _ _ _ Hf Hl). cbn [comp_bind].
  rewrite (proj2 (Z.ltb_ge _ _)) by lia.
  pose proof (be_value_bound p Hb) as Hv.
  assert (256 ^ Z.of_nat (length p) <= 256 ^ 8)
    by (apply Z.pow_le_mono_r; [lia|]; unfold len in Hp; lia).
  rewrite fold_shl_or by (try done; lia). by do 2 f_equal.
Qed.

(** Every [u64] survives the scalar encoding. *)
Theorem encode_decode_u64 v :
  0 <= v <= u64_max -> decode_uint (encode_u64 v) = Ret (Ok v).
Proof.
  intros Hv. destruct (encode_u64_framed v) as [h Hf].
  pose proof (drop_zeros_length (to_be_bytes 8 v)) as Hl. rewrite to_be_bytes_length in Hl.
  rewrite (decode_uint_framed _ _ _ Hf).
  - rewrite be_value_drop_zeros, be_value_to_be_bytes. unfold u64_max in Hv.
    by rewrite Z.mod_small by lia.
  - apply drop_zeros_bytes, to_be_bytes_bytes.
  - unfold len. lia.
  - unfold encode_u64, encode_minimal_int, encode_bytes.
    assert (Hhd : forall n, len (encode_length n 0x80) <= 9 \/ 2 ^ 64 <= n \/ n < 0).
    { intros n. unfold encode_length. destruct (Z.ltb_spec n 56); [by left|].
      pose proof (be_bytes_len n). rewrite len_cons. lia. }
    pose proof (Hhd (len (drop_zeros (to_be_bytes 8 v)))).
    destruct (drop_zeros (to_be_bytes 8 v)) as [|b [|b' d]];
      try destruct (b <? 0x80); rewrite ?len_app; unfold len in *; cbn [length] in *; lia.
Qed.

(** ** Signed transactions *)

Lemma framed_first_list items :
  len items < 2 ^ 64 ->
  exists b rest, encode_list items = b :: rest /\ 0xc0 <= b <= 0xff.
Proof.
  intros Hl. pose proof (len_nonneg items). unfold encode_list, encode_length, u8_add.
  destruct (Z.ltb_spec (len items) 56).
  - do 2 eexists. split; [done|]. rewrite (Z.mod_small (len items)) by lia.
    rewrite Z.mod_small by lia. lia.
  - pose proof (be_bytes_len (len items)) as Hk. do 2 eexists. split; [done|].
    rewrite (Z.mod_small (len (be_bytes (len items)))) by lia.
    change ((0xc0 + 55) mod 2 ^ 8) with 0xf7. rewrite Z.mod_small by lia. lia.
Qed.

(** The signature scalars as trees. *)
Definition scalar (v : Z) : rlp := Str (drop_zeros (to_be_bytes 8 v)).
Definition sig_item (x : bytes) : rlp := Str (drop_zeros x).

(** The reference signed transaction: the kept fields, then v, r, s. *)
Definition signed (fields : list rlp) (v : rlp) (r s : bytes) : rlp :=
  List (fields ++ [v; sig_item r; sig_item s]).

Lemma signed_encode fields v r s :
  encode_list (concat (map encode fields) ++ encode v ++
    encode_bytes (strip_leading_zeros r) ++ encode_bytes (strip_leading_zeros s)) =
  encode (signed fields v r s).
Proof.
  unfold signed. cbn [encode]. f_equal. rewrite map_app, concat_app. simpl.
  by rewrite app_nil_r.
Qed.

(** What an unsigned legacy transaction asks to be signed: the fields kept and
    the signature's v, per EIP-155 and its predecessor. *)
Definition legacy_request (fields : list rlp) (rid : Z) : option (list rlp * Z) :=
  match fields with
  | [_; _; _; _; _; _] => Some (fields, 27 + rid)
  | [_; _; _; _; _; _; Str chain_id; _; _] =>
      if (8 <? len chain_id) then None
      else
        let v := be_value chain_id * 2 + 35 + rid in
        if v <=? u64_max then Some (take 6 fields, v) else None
  | _ => None
  end.

Lemma eip155_v_spec c rid :
  0 <= c -> 0 <= rid ->
  eip155_v c rid = if c * 2 + 35 + rid <=? u64_max then Some (c * 2 + 35 + rid) else None.
Proof.
  intros Hc Hr. unfold eip155_v, checked_mul64, checked_add64, u64_max.
  destruct (Z.leb_spec (c * 2) (2 ^ 64 - 1)).
  - replace (c * 2 + (35 + rid)) with (c * 2 + 35 + rid) by lia. done.
  - by rewrite (proj2 (Z.leb_gt _ _)) by lia.
Qed.

(** Up to the item count: an encoded list is opened and split. *)
Lemma rlp_ok_fields fields : rlp_ok (List fields) -> Forall rlp_ok fields.
Proof. simpl. intros [H _]. induction fields; simpl in H; constructor; tauto. Qed.

Lemma legacy_open fields rid r s :
  rlp_ok (List fields) -> len (encode (List fields)) <= isize_max ->
  0 <= rid <= 1 ->
  encode_signed_legacy_tx (encode (List fields)) rid r s =
  let items := map encode fields in
  let! '(kept, v) :=
    match items with
    | [_; _; _; _; _; _; item6; _; _] =>
        let! chain_id := decode_uint item6 in
        let! v := Ret (ok_or (Transaction "v overflows u64") (eip155_v chain_id rid)) in
        Ret (Ok (take 6 items, v))
    | [_; _; _; _; _; _] => Ret (Ok (items, 27 + rid))
    | _ => Ret (Err (Transaction "expected 6 (pre-EIP-155) or 9 (EIP-155) unsigned items"))
    end in
  Ret (Ok (encode_list (concat kept ++ encode_u64 v ++
    encode_bytes (strip_leading_zeros r) ++ encode_bytes (strip_leading_zeros s)))).
Proof.
  intros Hok Hlen Hrid. pose proof (rlp_ok_fields _ Hok) as Hall. destruct Hok as [_ Hl].
  unfold encode_signed_legacy_tx, isize_max in *.
  rewrite (proj2 (Z.ltb_ge _ _)) by lia.
  destruct (framed_first_list _ Hl) as (b & rest & Heq & Hb).
  pose proof (encode_list_framed _ Hl) as Hf. pose proof Hf as [Happ Hdec].
  specialize (Hdec []). rewrite app_nil_r in Hdec.
  change (encode (List fields)) with (encode_list (concat (map encode fields))) in *.
  set (items := concat (map encode fields)) in *.
  pose proof (f_equal len Happ) as Hsum. rewrite len_app in Hsum.
  pose proof (len_nonneg items). pose proof (encode_length_nonempty (len items) 0xc0).
  destruct (encode_list items) as [|b' rest'] eqn:E; [done|]. injection Heq as -> ->.
  rewrite !(proj2 (Z.leb_le _ _)) by lia. cbn [andb negb]. rewrite Hdec. cbn [comp_bind].
  rewrite saturating_add64_small, (proj2 (Z.ltb_ge _ _)) by lia.
  unfold slice_of. rewrite (framed_slice _ _ _ Hf) by lia. cbn [comp_bind].
  unfold items. rewrite split_items_encoded by done. reflexivity.
Qed.

(** Signing a well-formed unsigned legacy transaction gives the RLP list of
    its first six fields followed by v, r and s, with v computed by EIP-155 from
    the chain id (nine items) or as 27 + recovery id (six items); every other
    shape, an over-long chain id and an overflowing v are errors. *)
Theorem signed_legacy_tx_spec fields rid r s :
  rlp_ok (List fields) -> len (encode (List fields)) <= isize_max -> 0 <= rid <= 1 ->
  (forall kept v, legacy_request fields rid = Some (kept, v) ->
    encode_signed_legacy_tx (encode (List fields)) rid r s =
      Ret (Ok (encode (signed kept (scalar v) r s)))) /\
  (length fields <> 6%nat -> length fields <> 9%nat ->
    encode_signed_legacy_tx (encode (List fields)) rid r s =
      Ret (Err (Transaction "expected 6 (pre-EIP-155) or 9 (EIP-155) unsigned items"))) /\
  (forall f0 f1 f2 f3 f4 f5 chain_id f7 f8,
    fields = [f0; f1; f2; f3; f4; f5; Str chain_id; f7; f8] -> len chain_id <= 8 ->
    u64_max < be_value chain_id * 2 + 35 + rid ->
    encode_signed_legacy_tx (encode (List fields)) rid r s =
      Ret (Err (Transaction "v overflows u64"))).
Proof.
  intros Hok Hlen Hrid. rewrite (legacy_open fields rid r s Hok Hlen Hrid).
  pose proof (rlp_ok_fields _ Hok) as Hall.
  assert (Hchain : forall chain_id, In (Str chain_id) fields -> len chain_id <= 8 ->
    0 <= be_value chain_id /\ decode_uint (encode (Str chain_id)) = Ret (Ok (be_value chain_id))).
  { intros chain_id Hin Hc. rewrite List.Forall_forall in Hall. destruct (Hall _ Hin) as [Hb Hcl].
    split; [apply (be_value_bound _ Hb)|].
    destruct (encode_bytes_framed _ Hb Hcl) as [h Hf].
    apply (decode_uint_framed _ h); [done..|]. cbn [encode].
    assert (Hsub : forall xs x, In x xs -> len (encode x) <= len (concat (map encode xs))).
    { clear. induction xs as [|y xs IH]; intros x; [done|]. simpl. rewrite len_app.
      pose proof (len_nonneg (encode y)). pose proof (len_nonneg (concat (map encode xs))).
      intros [->|Hx%IH]; lia. }
    specialize (Hsub _ _ Hin). destruct Hok as [_ Hl]. cbn [encode] in Hsub. lia. }
  split; [|split].
  - intros kept v. unfold legacy_request.
    destruct fields as [|f0 [|f1 [|f2 [|f3 [|f4 [|f5 [|f6 [|f7 [|f8 [|f9 fs]]]]]]]]]];
      try done; try (destruct f6; done).
    + intros [= <- <-]. cbn [map comp_bind]. do 2 f_equal.
      apply (signed_encode [f0; f1; f2; f3; f4; f5] (scalar (27 + rid))).
    + destruct f6 as [chain_id|]; [|done].
      destruct (Z.ltb_spec 8 (len chain_id)) as [|Hc]; [done|].
      destruct (Hchain chain_id) as [Hpos Hdec]; [simpl; tauto|done|].
      destruct (Z.leb_spec (be_value chain_id * 2 + 35 + rid) u64_max) as [Hv|]; [|done].
      intros [= <- <-]. cbn [map comp_bind]. rewrite Hdec. cbn [comp_bind].
      rewrite eip155_v_spec, (proj2 (Z.leb_le _ _)) by lia. cbn [ok_or comp_bind].
      do 2 f_equal.
      apply (signed_encode [f0; f1; f2; f3; f4; f5] (scalar (be_value chain_id * 2 + 35 + rid))).
  - destruct fields as [|f0 [|f1 [|f2 [|f3 [|f4 [|f5 [|f6 [|f7 [|f8 [|f9 fs]]]]]]]]]]; done.
  - intros f0 f1 f2 f3 f4 f5 chain_id f7 f8 -> Hc Hv.
    destruct (Hchain chain_id) as [Hpos Hdec]; [simpl; tauto|done|].
    cbn [map comp_bind]. rewrite Hdec. cbn [comp_bind].
    by rewrite eip155_v_spec, (proj2 (Z.leb_gt _ _)) by lia.
Qed.

(** Signing a well-formed unsigned typed transaction keeps the type byte and
    appends v, r and s to the list of fields. *)
Theorem signed_typed_tx_spec type_byte fields v r s :
  type_byte = 1 \/ type_byte = 2 ->
  rlp_ok (List fields) -> len (encode (List fields)) <= isize_max ->
  encode_signed_typed_tx (type_byte :: encode (List fields)) v r s =
  Ret (Ok (type_byte :: encode (signed fields (sig_item [v]) r s))).
Proof.
  intros Hty [_ Hl] Hlen. unfold encode_signed_typed_tx, isize_max in *.
  replace (negb (type_byte =? 1) && negb (type_byte =? 2)) with false
    by (by destruct Hty as [-> | ->]).
  pose proof (encode_list_framed _ Hl) as Hf. pose proof Hf as [Happ Hdec].
  specialize (Hdec []). rewrite app_nil_r in Hdec.
  change (encode (List fields)) with (encode_list (concat (map encode fields))) in *.
  pose proof (f_equal len Happ) as Hsum. rewrite len_app in Hsum.
  pose proof (len_nonneg (concat (map encode fields))).
  pose proof (encode_length_nonempty (len (concat (map encode fields))) 0xc0).
  rewrite Hdec. cbn [comp_bind].
  rewrite usize_add_small, (proj2 (Z.ltb_ge _ _)) by lia.
  rewrite <- usize_add_small by lia. unfold slice_of. rewrite (framed_slice _ _ _ Hf) by lia.
  cbn [comp_bind]. do 3 f_equal. apply (signed_encode fields (sig_item [v])).
Qed.

(** ** Panics *)

Lemma decode_length_slice data off n :
  is_bytes data -> len data <= isize_max -> decode_length data = Ok (off, n) ->
  saturating_add64 off n <= len data ->
  exists x, slice data off (usize_add off n) = Ret x /\ is_bytes x /\ len x <= isize_max.
Proof.
  intros Hb Hl Hdec Hle. destruct (decode_length_progress _ _ _ Hb Hdec) as (? & ? & ?).
  unfold saturating_add64, u64_max, isize_max in *.
  rewrite usize_add_small by lia.
  destruct (slice_ok data off (off + n)) as (x & Hx & Hxl); [lia..|].
  exists x. split; [done|]. split; [by eapply slice_bytes|lia].
Qed.

Lemma decode_uint_total item :
  is_bytes item -> len item <= isize_max -> decode_uint item <> Panic.
Proof.
  intros Hb Hl. unfold decode_uint. destruct (decode_length item) as [[off n]|] eqn:Hdec; [|done].
  cbn [comp_bind]. destruct (Z.ltb_spec (len item) (saturating_add64 off n)); [done|].
  destruct (decode_length_slice item off n) as (x & Hx & _); [done..|].
  unfold slice_of. rewrite Hx. cbn [comp_bind]. by destruct (8 <? len x).
Qed.

(** Signing a legacy transaction never panics: whatever bytes are presented
    as the unsigned transaction, every index the code computes from an
    attacker-chosen length is in range. *)
Theorem signed_legacy_tx_no_panic unsigned_tx rid r s :
  is_bytes unsigned_tx -> len unsigned_tx <= isize_max ->
  encode_signed_legacy_tx unsigned_tx rid r s <> Panic.
Proof.
  intros Hb Hl. unfold encode_signed_legacy_tx. destruct (1 <? rid); [done|].
  destruct unsigned_tx as [|b rest] eqn:Etx; [done|]. rewrite <- Etx in *. clear Etx.
  destruct (negb _); [done|].
  destruct (decode_length unsigned_tx) as [[off n]|] eqn:Hdec; [|done]. cbn [comp_bind].
  destruct (Z.ltb_spec (len unsigned_tx) (saturating_add64 off n)); [done|].
  destruct (decode_length_slice unsigned_tx off n) as (payload & Hx & Hpb & Hpl); [done..|].
  unfold slice_of. rewrite Hx. cbn [comp_bind].
  destruct (split_items payload) as [items|] eqn:Hs; [|done]. cbn [comp_bind].
  destruct items as [|i0 [|i1 [|i2 [|i3 [|i4 [|i5 [|i6 [|i7 [|i8 [|i9 tl]]]]]]]]]]; try done.
  assert (Hi : is_bytes i6 /\ len i6 <= isize_max).
  { pose proof (split_items_concat payload _ Hpb Hs) as Hc.
    assert (Hin : In i6 [i0; i1; i2; i3; i4; i5; i6; i7; i8]) by (simpl; tauto).
    destruct (in_split _ _ Hin) as (l1 & l2 & E). rewrite E, concat_app in Hc. cbn [concat] in Hc.
    rewrite <- Hc in Hpb, Hpl. apply Forall_app in Hpb as [_ Hpb].
    apply Forall_app in Hpb as [Hpb _]. split; [done|].
    rewrite !len_app in Hpl. pose proof (len_nonneg (concat l1)).
    pose proof (len_nonneg (concat l2)). lia. }
  destruct Hi as [Hib Hil]. pose proof (decode_uint_total i6 Hib Hil) as Hd.
  destruct (decode_uint i6) as [[c|e]|]; [|done|done]. cbn [comp_bind].
  by destruct (eip155_v c rid).
Qed.

(** The unsigned transaction [0x02 || ff ff ff ff ff ff ff ff ff]: a long list of
    declared length [2^64 - 1]. *)
Definition huge_list_tx : bytes := 2 :: repeat 0xff 9.

(** Signing a typed transaction can panic: with a declared payload length of
    [2^64 - 1] the end offset wraps to 8, the truncation test passes and the
    slice starts after its end.  The same bytes without the type byte are an
    ordinary error of the legacy path. *)
Theorem signed_typed_tx_panics :
  encode_signed_typed_tx huge_list_tx 0 [] [] = Panic /\
  encode_signed_legacy_tx (repeat 0xff 9) 0 [] [] =
    Ret (Err (Transaction "truncated RLP payload")).
Proof. split; vm_compute; reflexivity. Qed.

(** ** Concrete runs *)

Definition demo_fields : list rlp :=
  [Str [9]; Str (repeat 1 5); Str [0x52; 0x08]; Str (repeat 0x35 20); Str [];
   Str (repeat 7 60); Str [1]; Str []; Str []].

Definition demo_tx : rlp := List demo_fields.

Lemma demo_tx_ok : rlp_ok demo_tx.
Proof.
  repeat first
    [ exact I
    | apply conj
    | apply (bool_decide_unpack (is_bytes _)); vm_compute; exact I
    | match goal with |- Z.lt _ _ => vm_compute; reflexivity end ].
Defined.

Lemma split_items_tiles_witness :
  exists items, split_items (payload_of demo_tx) = Ok items /\ length items = 9%nat /\
    concat items = payload_of demo_tx /\ Forall one_item items.
Proof.
  eexists. split; [vm_compute; reflexivity|]. split; [reflexivity|].
  apply (split_items_tiles (payload_of demo_tx));
    [apply (bool_decide_unpack (is_bytes _)); vm_compute; exact I|vm_compute; discriminate|
     vm_compute; reflexivity].
Defined.

Lemma split_items_encode_witness :
  split_items (concat (map encode [Str [5]; List [Str [1; 2]; List []]])) =
  Ok [[5]; [0xc4; 0x82; 1; 2; 0xc0]].
Proof.
  apply (split_items_encode [Str [5]; List [Str [1; 2]; List []]]); [|vm_compute; reflexivity].
  repeat first
    [ exact I
    | apply conj
    | apply (bool_decide_unpack (is_bytes _)); vm_compute; exact I
    | apply (Forall_cons_2 rlp_ok)
    | apply (Forall_nil_2 rlp_ok)
    | match goal with |- Z.lt _ _ => vm_compute; reflexivity end ].
Defined.

Lemma encode_decode_u64_witness :
  encode_u64 1024 = [0x82; 4; 0] /\ decode_uint (encode_u64 u64_max) = Ret (Ok u64_max).
Proof. split; [reflexivity|]. apply (encode_decode_u64 u64_max). unfold u64_max. lia. Defined.

Lemma signed_legacy_tx_spec_witness :
  exists bs, encode_signed_legacy_tx (encode demo_tx) 1 (repeat 0 32) (repeat 3 32) = Ret (Ok bs) /\
    bs = encode (signed (take 6 demo_fields) (scalar 38) (repeat 0 32) (repeat 3 32)).
Proof.
  eexists. split; [|reflexivity].
  eapply (signed_legacy_tx_spec _ 1 (repeat 0 32) (repeat 3 32) demo_tx_ok);
    [vm_compute; discriminate|lia|vm_compute; reflexivity].
Defined.

Lemma signed_typed_tx_spec_witness :
  encode_signed_typed_tx (2 :: encode demo_tx) 1 (repeat 8 32) (repeat 3 32) =
  Ret (Ok (2 :: encode (List (demo_fields ++ [Str [1]; Str (repeat 8 32); Str (repeat 3 32)])))).
Proof.
  apply (signed_typed_tx_spec 2 demo_fields 1 (repeat 8 32) (repeat 3 32));
    [by right|exact demo_tx_ok|vm_compute; discriminate].
Defined.

Lemma signed_legacy_tx_no_panic_witness :
  encode_signed_legacy_tx (0xf8 :: repeat 0xff 40) 1 [] [] <> Panic.
Proof.
  apply signed_legacy_tx_no_panic;
    [apply (bool_decide_unpack (is_bytes _)); vm_compute; exact I|vm_compute; discriminate].
Defined.
