(* ===== verification/Frame.v ===== *)
(** * Length-prefixed frames between the agents

    [crates/oc-keyagent/src/frame.rs], the connection loop [handle_conn] of
    [server.rs], the response type of [response.rs] and the socket checks of
    [socket_guard.rs].  The wire carries frames of a 4-byte big-endian length
    and a prost payload. *)

From Stdlib Require Import ZArith Lia Bool String Ascii.
From stdpp Require Import base list strings.
From S2P Require Import Prelude Str Bytes.

Local Open Scope oc_scope.
Local Open Scope Z_scope.

(** ** [std::io] *)

Inductive io_error := UnexpectedEof | WriteZero | OtherIo (description : string).

#[export] Instance io_error_eq_dec : EqDecision io_error.
Proof. solve_decision. Defined.

(** What the successive [read] calls on a stream meet: some bytes, an
    interrupted call, or an error.  The end of the list, like an empty chunk, is
    the end of the stream. *)
Inductive read_event :=
| Chunk (data : bytes)
| Interrupt
| Fail (e : io_error).

Abbreviation Reader := (list read_event).

(** [Read::read_exact] for a buffer of [n] bytes. *)
Fixpoint read_exact (n : nat) (r : Reader) {struct r} : result io_error bytes * Reader :=
  match n, r with
  | O, _ => (Ok [], r)
  | _, [] => (Err UnexpectedEof, [])
  | _, Interrupt :: r' => read_exact n r'
  | _, Fail e :: r' => (Err e, r')
  | _, Chunk [] :: r' => (Err UnexpectedEof, r')
  | _, Chunk data :: r' =>
      if (n <? length data)%nat then (Ok (take n data), Chunk (drop n data) :: r')
      else
        match read_exact (n - length data) r' with
        | (Ok rest, r'') => (Ok (data ++ rest), r'')
        | (Err e, r'') => (Err e, r'')
        end
  end.

(** What the successive [write] calls do: take up to [n] bytes, be interrupted or
    fail.  Past the list everything is taken. *)
Inductive write_event :=
| Accept (n : nat)
| WInterrupt
| WFail (e : io_error).

Record Writer := {
  written : bytes;
  script : list write_event;
  flush_result : result io_error unit
}.

(** [Write::write_all]: the bytes taken, and what is left of the script. *)
Fixpoint write_all_script (buf : bytes) (sc : list write_event)
  : result io_error unit * bytes * list write_event :=
  match buf, sc with
  | [], _ => (Ok tt, [], sc)
  | _, [] => (Ok tt, buf, [])
  | _, WInterrupt :: sc' => write_all_script buf sc'
  | _, WFail e :: sc' => (Err e, [], sc')
  | _, Accept O :: sc' => (Err WriteZero, [], sc')
  | _, Accept n :: sc' =>
      let '(res, taken, sc'') := write_all_script (drop n buf) sc' in
      (res, take n buf ++ taken, sc'')
  end.

Definition write_all (w : Writer) (buf : bytes) : result io_error unit * Writer :=
  let '(res, taken, sc) := write_all_script buf (script w) in
  (res, {| written := written w ++ taken; script := sc; flush_result := flush_result w |}).

(** ** Frames *)

Definition MAX_FRAME_SIZE : Z := 4 * 1024 * 1024.

Inductive FrameError {DecodeError : Type} :=
| Io (e : io_error)
| FrameTooLarge (actual max : Z)
| Eof
| Decode (e : DecodeError).
Arguments FrameError : clear implicits.

Definition read_frame {DE} (reader : Reader) : result (FrameError DE) bytes * Reader :=
  match read_exact 4 reader with
  | (Err UnexpectedEof, reader) => (Err Eof, reader)
  | (Err e, reader) => (Err (Io e), reader)
  | (Ok len_buf, reader) =>
      let n := be_value len_buf in
      if n =? 0 then (Ok [], reader)
      else if MAX_FRAME_SIZE <? n then (Err (FrameTooLarge n MAX_FRAME_SIZE), reader)
      else
        match read_exact (Z.to_nat n) reader with
        | (Ok payload, reader) => (Ok payload, reader)
        | (Err e, reader) => (Err (Io e), reader)
        end
  end.

Definition write_frame {DE} (writer : Writer) (payload : bytes)
  : result (FrameError DE) unit * Writer :=
  if MAX_FRAME_SIZE <? len payload then (Err (FrameTooLarge (len payload) MAX_FRAME_SIZE), writer)
  else if u32_max <? len payload then (Err (FrameTooLarge (len payload) MAX_FRAME_SIZE), writer)
  else
    match write_all writer (to_be_bytes 4 (len payload)) with
    | (Err e, writer) => (Err (Io e), writer)
    | (Ok _, writer) =>
        match write_all writer payload with
        | (Err e, writer) => (Err (Io e), writer)
        | (Ok _, writer) => (result_map_err Io (flush_result writer), writer)
        end
    end.

(** ** Typed frames

    [prost]'s generated codec of a message type. *)
Class Prost (DE T : Type) := {
  encode_to_vec : T -> bytes;
  prost_decode : bytes -> result DE T
}.

Record Frame (T : Type) := frame_new { inner : T }.
Arguments frame_new {T} inner.
Arguments inner {T} f.

Definition into_inner {T} (f : Frame T) : T := inner f.

Definition frame_encode {DE T} `{Prost DE T} (f : Frame T) : result (FrameError DE) bytes :=
  Ok (encode_to_vec (inner f)).

Definition frame_decode {DE T} `{Prost DE T} (bs : bytes) : result (FrameError DE) (Frame T) :=
  let? m := result_map_err Decode (prost_decode bs) in Ok (frame_new m).

Definition read_typed {DE T} `{Prost DE T} (reader : Reader)
  : result (FrameError DE) (Frame T) * Reader :=
  match read_frame reader with
  | (Ok payload, reader) => (frame_decode payload, reader)
  | (Err e, reader) => (Err e, reader)
  end.

Definition write_typed {DE T} `{Prost DE T} (writer : Writer) (f : Frame T)
  : result (FrameError DE) unit * Writer :=
  match frame_encode f with
  | Ok payload => write_frame writer payload
  | Err e => (Err e, writer)
  end.

(** ** Reading bytes however they arrive *)

Fixpoint reader_bytes (r : Reader) : bytes :=
  match r with
  | [] => []
  | Chunk data :: r' => data ++ reader_bytes r'
  | Interrupt :: r' => reader_bytes r'
  | Fail _ :: r' => reader_bytes r'
  end.

(** No read error and no early end of stream. *)
Definition clean_event (e : read_event) : Prop :=
  match e with Chunk [] => False | Chunk _ => True | Interrupt => True | Fail _ => False end.
Definition clean (r : Reader) : Prop := Forall clean_event r.

Lemma read_exact_clean n r :
  clean r -> (n <= length (reader_bytes r))%nat ->
  exists r', read_exact n r = (Ok (take n (reader_bytes r)), r') /\ clean r' /\
    reader_bytes r' = drop n (reader_bytes r).
Proof.
  intros Hc. revert n. induction Hc as [|e r He Hc IH]; intros n Hn.
  { simpl in Hn. replace n with 0%nat by lia. exists []. by repeat constructor. }
  destruct n as [|n].
  { exists (e :: r). rewrite take_0, drop_0. split; [done|]. split; [by constructor|done]. }
  destruct e as [[|x data]| |e]; simpl in He; try done.
  - cbn [read_exact reader_bytes] in *. set (d := x :: data) in *.
    destruct (Nat.ltb_spec (S n) (length d)) as [Hlt|Hge].
    + exists (Chunk (drop (S n) d) :: r). rewrite take_app_le, drop_app_le by lia.
      split; [done|]. split; [|done]. constructor; [|done].
      pose proof (length_drop d (S n)) as Hd. destruct (drop (S n) d); [change (0 = length d - S n)%nat in Hd; lia|done].
    + rewrite length_app in Hn. destruct (IH (S n - length d)%nat) as (r' & -> & Hc' & Hb'); [lia|].
      exists r'. rewrite take_app_ge, drop_app_ge by lia. done.
  - cbn [read_exact reader_bytes] in *. by apply IH.
Qed.

Lemma read_exact_short n r :
  clean r -> (length (reader_bytes r) < n)%nat ->
  exists r', read_exact n r = (Err UnexpectedEof, r').
Proof.
  intros Hc. revert n. induction Hc as [|e r He Hc IH]; intros n Hn.
  { destruct n; [simpl in Hn; lia|]. by exists []. }
  destruct n as [|n]; [lia|]. destruct e as [[|x data]| |e]; simpl in He; try done.
  - cbn [read_exact reader_bytes] in *. set (d := x :: data) in *. rewrite length_app in Hn.
    destruct (Nat.ltb_spec (S n) (length d)); [lia|].
    destruct (IH (S n - length d)%nat) as (r' & ->); [lia|]. by exists r'.
  - cbn [read_exact reader_bytes] in *. by apply IH.
Qed.

(** Events and bytes left: every successful non-empty read lowers it. *)
Fixpoint reader_size (r : Reader) : nat :=
  match r with
  | [] => O
  | Chunk data :: r' => S (length data + reader_size r')
  | _ :: r' => S (reader_size r')
  end.

Lemma read_exact_size n r :
  (reader_size (read_exact n r).2 <= reader_size r)%nat /\
  ((0 < n)%nat -> is_ok (read_exact n r).1 = true ->
   (reader_size (read_exact n r).2 < reader_size r)%nat).
Proof.
  revert n. induction r as [|e r IH]; intros n; [destruct n; simpl; split; lia || done|].
  destruct n as [|n]; [destruct e; (split; [done|lia])|].
  destruct e as [[|x data]| |e]; cbn [read_exact reader_size].
  - simpl. split; [lia|done].
  - set (d := x :: data). destruct (Nat.ltb_spec (S n) (length d)).
    + cbn [fst snd reader_size is_ok]. rewrite length_drop. split; lia.
    + destruct (IH (S n - length d)%nat) as [Hle _].
      destruct (read_exact (S n - length d) r) as [[rest|e] r']; cbn [fst snd is_ok] in *;
        split; try done; lia.
  - destruct (IH (S n)) as [Hle Hlt]. split; [lia|]. intros. lia.
  - simpl. split; [lia|done].
Qed.

(** ** Frames on the wire *)

(** The bytes of one frame. *)
Definition frame_bytes (payload : bytes) : bytes := to_be_bytes 4 (len payload) ++ payload.

Definition frame_ok (payload : bytes) : Prop := len payload <= MAX_FRAME_SIZE.

Lemma frame_header payload :
  frame_ok payload -> be_value (to_be_bytes 4 (len payload)) = len payload.
Proof.
  unfold frame_ok, MAX_FRAME_SIZE. intros H. pose proof (len_nonneg payload).
  rewrite be_value_to_be_bytes. apply Z.mod_small. lia.
Qed.

Lemma read_frame_clean {DE} r payload rest :
  clean r -> frame_ok payload -> reader_bytes r = frame_bytes payload ++ rest ->
  exists r', read_frame (DE := DE) r = (Ok payload, r') /\ clean r' /\ reader_bytes r' = rest.
Proof.
  intros Hc Hok Hr. unfold read_frame.
  assert (Hhd : length (to_be_bytes 4 (len payload)) = 4%nat) by apply to_be_bytes_length.
  destruct (read_exact_clean 4 r Hc) as (r1 & -> & Hc1 & Hr1).
  { rewrite Hr. unfold frame_bytes. rewrite !length_app, Hhd. lia. }
  rewrite Hr in *. unfold frame_bytes in *. rewrite <- !app_assoc in *.
  rewrite take_app_le, take_ge by lia. rewrite frame_header by done.
  rewrite drop_app_le, drop_ge in Hr1 by lia. cbn [app] in Hr1.
  destruct (Z.eqb_spec (len payload) 0) as [Hz|Hz].
  { destruct payload; [|unfold len in Hz; simpl in Hz; lia]. by exists r1. }
  unfold frame_ok in Hok. rewrite (proj2 (Z.ltb_ge _ _)) by lia.
  replace (Z.to_nat (len payload)) with (length payload) by (unfold len; lia).
  destruct (read_exact_clean (length payload) r1 Hc1) as (r2 & -> & Hc2 & Hr2).
  { rewrite Hr1, length_app. lia. }
  exists r2. rewrite Hr1, take_app_length in *. by rewrite Hr2, drop_app_length.
Qed.

Lemma write_all_ideal w buf :
  script w = [] ->
  write_all w buf = (Ok tt, {| written := written w ++ buf; script := []; flush_result := flush_result w |}).
Proof. intros Hs. unfold write_all. rewrite Hs. by destruct buf. Qed.

(** A sink that takes everything. *)
Definition ideal (w : Writer) : Prop := script w = [] /\ flush_result w = Ok tt.

Definition written_more (w : Writer) (bs : bytes) : Writer :=
  {| written := written w ++ bs; script := []; flush_result := Ok tt |}.

Lemma write_frame_ideal {DE} w payload :
  ideal w -> frame_ok payload ->
  write_frame (DE := DE) w payload = (Ok tt, written_more w (frame_bytes payload)).
Proof.
  intros [Hs Hf] Hok. unfold write_frame, frame_ok, MAX_FRAME_SIZE, u32_max in *.
  rewrite !(proj2 (Z.ltb_ge _ _)) by lia. rewrite write_all_ideal by done.
  rewrite write_all_ideal by done. cbn [written script flush_result].
  unfold written_more, frame_bytes. by rewrite Hf, app_assoc.
Qed.

Lemma write_all_script_spec buf sc :
  let '(res, taken, _) := write_all_script buf sc in
  exists rest, buf = taken ++ rest /\ (is_ok res = true -> rest = []).
Proof.
  revert buf. induction sc as [|e sc IH]; intros buf.
  { destruct buf; exists []; [done|]. cbn [write_all_script]. by rewrite app_nil_r. }
  destruct buf as [|x buf]; [by exists []|].
  destruct e as [[|n]| |e]; cbn [write_all_script].
  - by exists (x :: buf).
  - specialize (IH (drop (S n) (x :: buf))).
    destruct (write_all_script (drop (S n) (x :: buf)) sc) as [[res taken] sc'].
    destruct IH as (rest & Heq & Hok). exists rest. split; [|done].
    by rewrite <- app_assoc, <- Heq, take_drop.
  - apply IH.
  - by exists (x :: buf).
Qed.

Lemma write_all_spec w buf :
  exists rest, written (write_all w buf).2 ++ rest = written w ++ buf /\
    (is_ok (write_all w buf).1 = true -> rest = []).
Proof.
  unfold write_all. pose proof (write_all_script_spec buf (script w)) as H.
  destruct (write_all_script buf (script w)) as [[res taken] sc]. destruct H as (rest & -> & Hok).
  exists rest. split; [|done]. simpl. by rewrite app_assoc.
Qed.

(** However a sink splits, interrupts or fails the writes, what it has taken
    is a prefix of the frame, the whole frame when [write_frame] succeeds, and
    nothing at all when the payload is over the limit. *)
Theorem write_frame_prefix {DE} w payload :
  let '(res, w') := write_frame (DE := DE) w payload in
  exists rest, written w' ++ rest = written w ++ frame_bytes payload /\
    (is_ok res = true -> rest = []) /\
    (MAX_FRAME_SIZE < len payload -> w' = w /\
       res = Err (FrameTooLarge (len payload) MAX_FRAME_SIZE)).
Proof.
  unfold write_frame, frame_bytes, MAX_FRAME_SIZE, u32_max.
  destruct (Z.ltb_spec (4 * 1024 * 1024) (len payload)) as [|Hle]; [by eexists|].
  rewrite (proj2 (Z.ltb_ge (2 ^ 32 - 1) _)) by lia.
  destruct (write_all_spec w (to_be_bytes 4 (len payload))) as (rest1 & H1 & Hok1).
  destruct (write_all w (to_be_bytes 4 (len payload))) as [[[]|e] w1]; cbn [fst snd is_ok] in *.
  2: { exists (rest1 ++ payload). split; [|split; [done|lia]]. by rewrite !app_assoc, H1. }
  rewrite Hok1, app_nil_r in H1 by done.
  destruct (write_all_spec w1 payload) as (rest2 & H2 & Hok2).
  destruct (write_all w1 payload) as [[[]|e] w2]; cbn [fst snd is_ok] in *;
    exists rest2; (split; [by rewrite H2, H1, app_assoc|split; [|lia]]); [|done].
  intros _. by apply Hok2.
Qed.

(** A frame survives the transport: read back from a stream that delivers
    its bytes in any chunks and with any interruptions, it gives the payload and
    leaves exactly the bytes that follow it. *)
Theorem read_written_frame {DE} w payload r rest :
  ideal w -> frame_ok payload -> clean r ->
  reader_bytes r = written (write_frame (DE := DE) {| written := []; script := script w;
                     flush_result := flush_result w |} payload).2 ++ rest ->
  exists r', read_frame (DE := DE) r = (Ok payload, r') /\ clean r' /\ reader_bytes r' = rest.
Proof.
  intros [Hs Hf] Hok Hc Hr. rewrite write_frame_ideal in Hr by done.
  by apply read_frame_clean.
Qed.

(** The end of the stream: fewer than four bytes left, none included, read as
    [Eof]; a length over 4 MiB is refused before any payload byte is read; a
    payload cut short is an unexpected-EOF error. *)
Theorem read_frame_errors {DE} r :
  clean r ->
  (len (reader_bytes r) < 4 -> (read_frame (DE := DE) r).1 = Err Eof) /\
  (forall hdr rest, reader_bytes r = hdr ++ rest -> len hdr = 4 ->
    (MAX_FRAME_SIZE < be_value hdr ->
      exists r', read_frame (DE := DE) r = (Err (FrameTooLarge (be_value hdr) MAX_FRAME_SIZE), r') /\
        reader_bytes r' = rest) /\
    (be_value hdr <= MAX_FRAME_SIZE -> len rest < be_value hdr ->
      (read_frame (DE := DE) r).1 = Err (Io UnexpectedEof))).
Proof.
  intros Hc. unfold read_frame. split.
  - intros Hl. destruct (read_exact_short 4 r Hc) as (r' & ->); [unfold len in Hl; lia|done].
  - intros hdr rest Hr Hh.
    assert (Hh' : length hdr = 4%nat) by (unfold len in Hh; lia).
    destruct (read_exact_clean 4 r Hc) as (r1 & -> & Hc1 & Hr1).
    { rewrite Hr, length_app. lia. }
    rewrite Hr, <- Hh' in *. rewrite take_app_length. rewrite drop_app_length in Hr1.
    unfold MAX_FRAME_SIZE in *. split.
    + intros Hbig. destruct (Z.eqb_spec (be_value hdr) 0); [lia|].
      rewrite (proj2 (Z.ltb_lt _ _)) by lia. by exists r1.
    + intros Hle Hshort. pose proof (len_nonneg rest).
      destruct (Z.eqb_spec (be_value hdr) 0); [lia|].
      rewrite (proj2 (Z.ltb_ge _ _)) by lia.
      destruct (read_exact_short (Z.to_nat (be_value hdr)) r1 Hc1) as (r2 & ->); [|done].
      rewrite Hr1. unfold len in Hshort. lia.
Qed.

Lemma read_frame_not_decode {DE} r e r' : read_frame (DE := DE) r <> (Err (Decode e), r').
Proof.
  unfold read_frame. destruct (read_exact 4 r) as [[hdr|[]] r1]; try done.
  destruct (be_value hdr =? 0); [done|]. destruct (MAX_FRAME_SIZE <? be_value hdr); [done|].
  by destruct (read_exact (Z.to_nat (be_value hdr)) r1) as [[p|e2] r2].
Qed.

Lemma read_frame_size {DE} r :
  (reader_size (read_frame (DE := DE) r).2 <= reader_size r)%nat /\
  (is_ok (read_frame (DE := DE) r).1 = true ->
   (reader_size (read_frame (DE := DE) r).2 < reader_size r)%nat).
Proof.
  unfold read_frame. destruct (read_exact_size 4 r) as [Hle Hlt].
  destruct (read_exact 4 r) as [[hdr|e] r1]; cbn [fst snd is_ok] in *.
  2: { destruct e; cbn; split; done || lia. }
  specialize (Hlt ltac:(lia) eq_refl).
  destruct (be_value hdr =? 0); [cbn; lia|].
  destruct (MAX_FRAME_SIZE <? be_value hdr); [cbn; split; [lia|done]|].
  destruct (read_exact_size (Z.to_nat (be_value hdr)) r1) as [Hle1 _].
  destruct (read_exact (Z.to_nat (be_value hdr)) r1) as [[p|e] r2]; cbn [fst snd is_ok] in *; lia.
Qed.

(** ** Socket checks ([socket_guard.rs], Unix) *)

Inductive FileType := Directory | Socket | Symlink | OtherFile.

#[export] Instance FileType_eq_dec : EqDecision FileType.
Proof. solve_decision. Defined.

Record Metadata := { file_type : FileType; uid : Z; mode : Z }.

(** A path by its components. *)
Record SocketPath := { absolute : bool; components : list string }.

Definition parent (p : SocketPath) : option SocketPath :=
  match components p with
  | [] => None
  | _ => Some {| absolute := absolute p; components := removelast (components p) |}
  end.

(** [p.as_os_str().is_empty()]. *)
Definition path_is_empty (p : SocketPath) : bool := negb (absolute p) && is_nil (components p).

Definition display (p : SocketPath) : string :=
  (if absolute p then "/" else "") +:+ join_char "/" (components p).

(** [lstat], [Path::exists] (which follows links) and [getuid]. *)
Record Host := {
  symlink_metadata : SocketPath -> result io_error Metadata;
  path_exists : SocketPath -> bool;
  current_uid : Z
}.

Definition show_io (e : io_error) : string :=
  match e with
  | UnexpectedEof => "failed to fill whole buffer"
  | WriteZero => "failed to write whole buffer"
  | OtherIo d => d
  end.

(** [{:o}] for at most [fuel] octal digits. *)
Fixpoint fmt_octal (fuel : nat) (n : Z) : string :=
  match fuel with
  | O => ""
  | S fuel' => (if n <? 8 then "" else fmt_octal fuel' (n / 8)) +:+ fmt_Z (n mod 8)
  end.

Inductive KeyAgentError {DE : Type} :=
| KaIo (e : io_error)
| KaFrame (e : FrameError DE)
| KaProstDecode (e : DE)
| NotImplemented (msg : string)
| InvalidRequest (msg : string)
| KaInternal (msg : string)
| Unauthorized (msg : string)
| Sandbox (msg : string)
| SocketSecurity (msg : string).
Arguments KeyAgentError : clear implicits.

(** [0o077]. *)
Definition group_other : Z := 7 * 8 + 7.

Definition verify_socket_dir {DE} (h : Host) (dir : SocketPath) : result (KeyAgentError DE) unit :=
  match symlink_metadata h dir with
  | Err e => Err (SocketSecurity ("cannot stat socket directory " +:+ display dir +:+ ": " +:+ show_io e))
  | Ok meta =>
      if negb (bool_decide (file_type meta = Directory)) then
        Err (SocketSecurity ("socket directory " +:+ display dir +:+
                             " is not a directory (symlink or special file)"))
      else if negb (uid meta =? current_uid h) then
        Err (SocketSecurity ("socket directory " +:+ display dir +:+ " is owned by uid " +:+
                             fmt_Z (uid meta) +:+ ", expected uid " +:+ fmt_Z (current_uid h)))
      else if negb (Z.land (mode meta) group_other =? 0) then
        Err (SocketSecurity ("socket directory " +:+ display dir +:+
                             " is accessible to other users (mode " +:+
                             fmt_octal 3 (Z.land (mode meta) 0x1ff) +:+ ")"))
      else Ok tt
  end.

Definition verify_socket_file {DE} (h : Host) (socket : SocketPath)
  : result (KeyAgentError DE) unit :=
  let? _ :=
    match parent socket with
    | Some p => if negb (path_is_empty p) then verify_socket_dir h p else Ok tt
    | None => Ok tt
    end in
  match symlink_metadata h socket with
  | Err e => Err (SocketSecurity ("cannot stat socket " +:+ display socket +:+ ": " +:+ show_io e))
  | Ok meta =>
      if negb (bool_decide (file_type meta = Socket)) then
        Err (SocketSecurity ("socket path " +:+ display socket +:+ " is not a Unix domain socket"))
      else if negb (uid meta =? current_uid h) then
        Err (SocketSecurity ("socket " +:+ display socket +:+ " is owned by uid " +:+
                             fmt_Z (uid meta) +:+ ", expected uid " +:+ fmt_Z (current_uid h)))
      else if negb (Z.land (mode meta) group_other =? 0) then
        Err (SocketSecurity ("socket " +:+ display socket +:+ " is accessible to other users (mode " +:+
                             fmt_octal 3 (Z.land (mode meta) 0x1ff) +:+ ")"))
      else Ok tt
  end.

(** What the checks accept: the node itself, and its directory when the path
    names one, are of the right type, ours, and closed to group and other. *)
Definition private_node (h : Host) (p : SocketPath) (t : FileType) : Prop :=
  exists meta, symlink_metadata h p = Ok meta /\ file_type meta = t /\
    uid meta = current_uid h /\ Z.land (mode meta) group_other = 0.

Lemma verify_socket_dir_ok {DE} h dir :
  verify_socket_dir (DE := DE) h dir = Ok tt <-> private_node h dir Directory.
Proof.
  unfold verify_socket_dir, private_node.
  destruct (symlink_metadata h dir) as [meta|e]; [|naive_solver].
  destruct (bool_decide_reflect (file_type meta = Directory)); cbn [negb]; [|naive_solver].
  destruct (Z.eqb_spec (uid meta) (current_uid h)); cbn [negb]; [|naive_solver].
  destruct (Z.eqb_spec (Z.land (mode meta) group_other) 0); cbn [negb]; naive_solver.
Qed.

Definition socket_private (h : Host) (socket : SocketPath) : Prop :=
  private_node h socket Socket /\
  (forall p, parent socket = Some p -> path_is_empty p = false -> private_node h p Directory).

Lemma verify_socket_file_private {DE} h socket :
  verify_socket_file (DE := DE) h socket = Ok tt <->
  socket_private h socket.
Proof.
  unfold verify_socket_file, socket_private. rewrite result_bind_ok.
  assert (Hnode :
    match symlink_metadata h socket with
    | Err e => Err (SocketSecurity ("cannot stat socket " +:+ display socket +:+ ": " +:+ show_io e))
    | Ok meta =>
        if negb (bool_decide (file_type meta = Socket)) then
          Err (SocketSecurity ("socket path " +:+ display socket +:+ " is not a Unix domain socket"))
        else if negb (uid meta =? current_uid h) then
          Err (SocketSecurity ("socket " +:+ display socket +:+ " is owned by uid " +:+
                               fmt_Z (uid meta) +:+ ", expected uid " +:+ fmt_Z (current_uid h)))
        else if negb (Z.land (mode meta) group_other =? 0) then
          Err (SocketSecurity ("socket " +:+ display socket +:+ " is accessible to other users (mode " +:+
                               fmt_octal 3 (Z.land (mode meta) 0x1ff) +:+ ")"))
        else Ok tt
    end = (Ok tt : result (KeyAgentError DE) unit) <-> private_node h socket Socket).
  { unfold private_node. destruct (symlink_metadata h socket) as [meta|e]; [|naive_solver].
    destruct (bool_decide_reflect (file_type meta = Socket)); cbn [negb]; [|naive_solver].
    destruct (Z.eqb_spec (uid meta) (current_uid h)); cbn [negb]; [|naive_solver].
    destruct (Z.eqb_spec (Z.land (mode meta) group_other) 0); cbn [negb]; naive_solver. }
  setoid_rewrite Hnode. destruct (parent socket) as [p|].
  2: { split; [by intros (_ & _ & Hs)|]. intros [Hs _]. by exists tt. }
  destruct (path_is_empty p) eqn:Hp; cbn [negb].
  { split; [|intros [Hs _]; by exists tt].
    intros (_ & _ & Hs). split; [done|]. intros q [= <-]. congruence. }
  split.
  - intros ([] & Hd & Hs). split; [done|]. intros q [= <-] _. by apply verify_socket_dir_ok in Hd.
  - intros [Hs Hd]. exists tt. split; [|done]. apply verify_socket_dir_ok. by apply Hd.
Qed.

(** A socket path passes exactly when the node is a socket of ours closed to
    everyone else and so is its directory; a symbolic link never passes, in
    either place. *)
Theorem verify_socket_file_ok {DE} h socket :
  verify_socket_file (DE := DE) h socket = Ok tt <->
  socket_private h socket.
Proof. apply verify_socket_file_private. Qed.

(** ** Requests and responses *)

Record DenyReasonPayload := { dr_reason : Z }.

Inductive KeyAgentResponseKind :=
| ROk (payload : bytes)
| RDeny (reason : DenyReasonPayload)
| RError (msg : string).

Record KeyAgentResponse := { kind : option KeyAgentResponseKind }.

Definition response_ok (payload : bytes) : KeyAgentResponse := {| kind := Some (ROk payload) |}.
Definition response_deny (reason : Z) : KeyAgentResponse :=
  {| kind := Some (RDeny {| dr_reason := reason |}) |}.
Definition response_error (msg : string) : KeyAgentResponse := {| kind := Some (RError msg) |}.

Inductive FrameClientError :=
| Connect (msg : string)
| WriteErr (msg : string)
| ReadErr (msg : string)
| Shutdown (msg : string)
| DecodeErr (msg : string)
| InsecureSocket (msg : string).

Section Connection.
(** The request type and its codec are prost's; [dispatch] is the handler table
    with the agent's state, and [show_decode] prost's error text. *)
Context {DE KeyAgentRequest State : Type}.
Context `{Prost DE KeyAgentRequest} `{Prost DE KeyAgentResponse}.
Context (show_decode : DE -> string).
Context (dispatch : State -> KeyAgentRequest -> result (KeyAgentError DE) KeyAgentResponse * State).

Definition show_frame_error (e : FrameError DE) : string :=
  match e with
  | Io e => "I/O error: " +:+ show_io e
  | FrameTooLarge actual max =>
      "frame too large: " +:+ fmt_Z actual +:+ " bytes (max " +:+ fmt_Z max +:+ ")"
  | Eof => "connection closed (EOF reading length prefix)"
  | Decode e => "prost decode error: " +:+ show_decode e
  end.

Definition show_agent_error (e : KeyAgentError DE) : string :=
  match e with
  | KaIo e => "I/O error: " +:+ show_io e
  | KaFrame e => "frame error: " +:+ show_frame_error e
  | KaProstDecode e => "prost decode error: " +:+ show_decode e
  | NotImplemented m => "not yet implemented: " +:+ m
  | InvalidRequest m => "invalid request: " +:+ m
  | KaInternal m => "internal error: " +:+ m
  | Unauthorized m => "unauthorized: " +:+ m
  | Sandbox m => "sandbox error: " +:+ m
  | SocketSecurity m => "insecure socket path: " +:+ m
  end.

(** The loop of [handle_conn]; [None] is fuel exhaustion, which
    [handle_conn_terminates] excludes. *)
Fixpoint conn_loop (fuel : nat) (reader : Reader) (writer : Writer) (st : State)
  : option (result (KeyAgentError DE) unit * Writer * State) :=
  match fuel with
  | O => None
  | S fuel' =>
      match read_typed (T := KeyAgentRequest) reader with
      | (Err Eof, _) => Some (Ok tt, writer, st)
      | (Err (Decode e), reader) =>
          let resp := response_error ("decode error: " +:+ show_decode e) in
          match write_typed writer (frame_new resp) with
          | (Err e, writer) => Some (Err (KaFrame e), writer, st)
          | (Ok _, writer) => conn_loop fuel' reader writer st
          end
      | (Err e, _) => Some (Err (KaFrame e), writer, st)
      | (Ok f, reader) =>
          let '(answer, st) := dispatch st (into_inner f) in
          let resp := match answer with
                      | Ok resp => resp
                      | Err e => response_error ("dispatch error: " +:+ show_agent_error e)
                      end in
          match write_typed writer (frame_new resp) with
          | (Err e, writer) => Some (Err (KaFrame e), writer, st)
          | (Ok _, writer) => conn_loop fuel' reader writer st
          end
      end
  end.

(** [try_clone] gives the second half of the stream. *)
Definition handle_conn (try_clone : result io_error Reader) (writer : Writer) (st : State)
  : option (result (KeyAgentError DE) unit * Writer * State) :=
  match try_clone with
  | Err e => Some (Err (KaIo e), writer, st)
  | Ok reader => conn_loop (S (reader_size reader)) reader writer st
  end.

(** ** The client *)

(** What the peer does with a connection: accept it, take what is written,
    accept the shutdown, send back a stream. *)
Record Peer := {
  connect : result io_error Writer;
  shutdown_write : result io_error unit;
  response_stream : Reader
}.

(** The result, and what was put on the wire. *)
Definition send_request (h : Host) (socket_path : SocketPath) (peer : Peer)
    (req : KeyAgentRequest) : result FrameClientError KeyAgentResponse * bytes :=
  let guard :=
    if path_exists h socket_path
    then result_map_err (fun e => InsecureSocket (show_agent_error e))
           (verify_socket_file h socket_path)
    else Ok tt in
  match guard with
  | Err e => (Err e, [])
  | Ok _ =>
      match connect peer with
      | Err e => (Err (Connect (show_io e)), [])
      | Ok stream =>
          match write_typed stream (frame_new req) with
          | (Err e, stream) => (Err (WriteErr (show_frame_error e)), written stream)
          | (Ok _, stream) =>
              match shutdown_write peer with
              | Err e => (Err (Shutdown (show_io e)), written stream)
              | Ok _ =>
                  (result_map_err (fun e => match e with
                                            | Decode d => DecodeErr (show_decode d)
                                            | other => ReadErr (show_frame_error other)
                                            end)
                     (result_map into_inner
                        (read_typed (T := KeyAgentResponse) (response_stream peer)).1),
                   written stream)
              end
          end
      end
  end.

(** ** One response per request *)

(** The reference server: the answer to one payload. *)
Definition answer (st : State) (payload : bytes) : KeyAgentResponse * State :=
  match prost_decode payload with
  | Err e => (response_error ("decode error: " +:+ show_decode e), st)
  | Ok req =>
      match dispatch st req with
      | (Ok resp, st) => (resp, st)
      | (Err e, st) => (response_error ("dispatch error: " +:+ show_agent_error e), st)
      end
  end.

Fixpoint serve (st : State) (payloads : list bytes) : list KeyAgentResponse * State :=
  match payloads with
  | [] => ([], st)
  | p :: ps =>
      let '(resp, st) := answer st p in
      let '(resps, st) := serve st ps in (resp :: resps, st)
  end.

Definition wire (payloads : list bytes) : bytes := concat (map frame_bytes payloads).
Definition response_wire (resps : list KeyAgentResponse) : bytes :=
  wire (map encode_to_vec resps).

Lemma conn_loop_step fuel reader writer st payload rest :
  clean reader -> ideal writer -> frame_ok payload ->
  frame_ok (encode_to_vec (answer st payload).1) ->
  reader_bytes reader = frame_bytes payload ++ rest ->
  exists reader',
    conn_loop (S fuel) reader writer st =
      conn_loop fuel reader'
        (written_more writer (frame_bytes (encode_to_vec (answer st payload).1)))
        (answer st payload).2 /\
    clean reader' /\ reader_bytes reader' = rest /\
    (reader_size reader' < reader_size reader)%nat.
Proof.
  intros Hc Hw Hp Hresp Hr.
  destruct (read_frame_clean (DE := DE) reader payload rest Hc Hp Hr) as (r' & Hread & Hc' & Hr').
  destruct (read_frame_size (DE := DE) reader) as [_ Hlt].
  rewrite Hread in Hlt. specialize (Hlt eq_refl). cbn [snd] in Hlt.
  exists r'. split; [|done]. cbn [conn_loop]. unfold read_typed. rewrite Hread.
  unfold answer, frame_decode in *.
  destruct (prost_decode payload) as [req|e]; cbn [result_map_err result_bind into_inner inner] in *.
  - destruct (dispatch st req) as [[resp|e] st']; cbn [fst snd] in *;
      unfold write_typed; cbn [frame_encode inner];
      by rewrite (write_frame_ideal writer _ Hw Hresp).
  - unfold write_typed; cbn [frame_encode inner fst snd] in *.
    by rewrite (write_frame_ideal writer _ Hw Hresp).
Qed.

Lemma conn_loop_serves fuel payloads reader writer st :
  clean reader -> ideal writer -> Forall frame_ok payloads ->
  Forall (fun resp => frame_ok (encode_to_vec resp)) (serve st payloads).1 ->
  reader_bytes reader = wire payloads -> (reader_size reader < fuel)%nat ->
  conn_loop fuel reader writer st =
    Some (Ok tt, {| written := written writer ++ response_wire (serve st payloads).1;
                    script := []; flush_result := Ok tt |}, (serve st payloads).2).
Proof.
  intros Hc Hw Hp. revert fuel reader writer st Hc Hw.
  induction Hp as [|p ps Hp _ IH]; intros fuel reader writer st Hc Hw Hresp Hr Hf.
  - destruct fuel as [|fuel]; [lia|]. cbn [conn_loop]. unfold read_typed, read_frame.
    destruct (read_exact_short 4 reader Hc) as (r' & ->); [rewrite Hr; simpl; lia|].
    destruct writer as [w sc fl], Hw as [Hs Hfl]. simpl in *. subst.
    unfold response_wire, wire. simpl. by rewrite app_nil_r.
  - destruct fuel as [|fuel]; [lia|]. cbn [serve] in *.
    destruct (answer st p) as [resp st'] eqn:Ea.
    specialize (IH fuel). destruct (serve st' ps) as [resps st''] eqn:Es. cbn [fst snd] in *.
    apply Forall_cons in Hresp as [Hr1 Hrs].
    destruct (conn_loop_step fuel reader writer st p (wire ps)) as (r' & -> & Hc' & Hr' & Hlt);
      [done..|by rewrite Ea|done|].
    rewrite Ea. cbn [fst snd].
    rewrite (IH r' _ st'); rewrite ?Es; try done; [|lia].
    cbn [fst snd written written_more]. do 4 f_equal. unfold response_wire, wire.
    cbn [map concat]. by rewrite app_assoc.
Qed.

(** A connection answers every request frame with exactly one response
    frame, in order: an undecodable payload and a failing dispatch get an error
    response and the loop goes on, until the client closes. *)
Theorem handle_conn_serves payloads reader writer st :
  clean reader -> ideal writer -> Forall frame_ok payloads ->
  Forall (fun resp => frame_ok (encode_to_vec resp)) (serve st payloads).1 ->
  reader_bytes reader = wire payloads ->
  exists writer',
    handle_conn (Ok reader) writer st = Some (Ok tt, writer', (serve st payloads).2) /\
    written writer' = written writer ++ response_wire (serve st payloads).1.
Proof.
  intros Hc Hw Hp Hresp Hr. cbn [handle_conn].
  rewrite (conn_loop_serves _ payloads) by (done || lia). by eexists.
Qed.

Lemma conn_loop_fuel fuel reader writer st :
  (reader_size reader < fuel)%nat -> conn_loop fuel reader writer st <> None.
Proof.
  revert reader writer st. induction fuel as [|fuel IH]; intros reader writer st Hf; [lia|].
  cbn [conn_loop]. unfold read_typed. destruct (read_frame_size (DE := DE) reader) as [_ Hlt].
  pose proof (read_frame_not_decode (DE := DE) reader) as Hnd.
  destruct (read_frame reader) as [[payload|e] r']; cbn [fst snd is_ok] in *.
  - specialize (Hlt eq_refl). unfold frame_decode.
    destruct (prost_decode payload) as [req|e]; cbn [result_map_err result_bind].
    + destruct (dispatch st (into_inner (frame_new req))) as [a st'].
      destruct (write_typed _ _) as [[[]|e] w']; [|done]. apply IH. lia.
    + destruct (write_typed _ _) as [[[]|e'] w']; [|done]. apply IH. lia.
  - destruct e as [| | |d]; try done. by destruct (Hnd d r').
Qed.

(** The connection loop ends on every finite stream, failing ones
    included: every frame it serves consumes input. *)
Theorem handle_conn_terminates reader writer st : handle_conn reader writer st <> None.
Proof. destruct reader as [reader|e]; [|done]. cbn [handle_conn]. apply conn_loop_fuel. lia. Qed.

(** Nothing leaves the client for a socket that is not provably ours: when
    the path exists and the node or its directory fails the check, the request
    ends before connecting, with nothing written. *)
Theorem insecure_socket_sends_nothing h socket_path peer req :
  path_exists h socket_path = true -> ~ socket_private h socket_path ->
  exists msg, send_request h socket_path peer req = (Err (InsecureSocket msg), []).
Proof.
  intros He Hp. unfold send_request. rewrite He.
  destruct (verify_socket_file h socket_path) as [[]|e] eqn:Hv; cbn [result_map_err].
  - by apply verify_socket_file_private in Hv.
  - by eexists.
Qed.

(** C32 End to end: a client whose bytes reach the server, and whose server's
    bytes reach it back, in any chunks, gets exactly the server's answer to its
    request. *)
Theorem request_response h socket_path peer req stream reader st :
  (forall m : KeyAgentRequest, prost_decode (encode_to_vec m) = Ok m) ->
  (forall m : KeyAgentResponse, prost_decode (encode_to_vec m) = Ok m) ->
  (path_exists h socket_path = true -> verify_socket_file (DE := DE) h socket_path = Ok tt) ->
  connect peer = Ok stream -> shutdown_write peer = Ok tt -> ideal stream -> written stream = [] ->
  frame_ok (encode_to_vec req) ->
  frame_ok (encode_to_vec (answer st (encode_to_vec req)).1) ->
  clean reader -> reader_bytes reader = snd (send_request h socket_path peer req) ->
  exists server_out st',
    handle_conn (Ok reader) {| written := []; script := []; flush_result := Ok tt |} st =
      Some (Ok tt, server_out, st') /\
    (clean (response_stream peer) -> reader_bytes (response_stream peer) = written server_out ->
     fst (send_request h socket_path peer req) = Ok (answer st (encode_to_vec req)).1).
Proof.
  intros Hreq Hrespd Hguard Hconn Hshut Hideal Hw0 Hq Hr Hc.
  assert (Hg : (if path_exists h socket_path
                then result_map_err (fun e => InsecureSocket (show_agent_error e))
                       (verify_socket_file h socket_path)
                else Ok tt) = Ok tt).
  { destruct (path_exists h socket_path); [by rewrite Hguard|done]. }
  unfold send_request. rewrite Hg, Hconn, Hshut. unfold write_typed; cbn [frame_encode inner].
  rewrite (write_frame_ideal stream _ Hideal Hq). cbn [snd fst written written_more].
  rewrite Hw0. intros Hbytes. cbn [app] in Hbytes.
  set (resp := answer st (encode_to_vec req)) in *.
  assert (Hserve : serve st [encode_to_vec req] = ([resp.1], resp.2)).
  { cbn [serve]. fold resp. by destruct resp. }
  eexists _, _. split.
  - cbn [handle_conn]. apply (conn_loop_serves _ [encode_to_vec req]); try done; [by constructor| | |lia].
    + rewrite Hserve. by constructor.
    + rewrite Hbytes. unfold wire. simpl. by rewrite app_nil_r.
  - cbn [written]. rewrite Hserve. unfold response_wire, wire. cbn [map concat fst app].
    intros Hcr Hbr. destruct (read_frame_clean (DE := DE) _ _ [] Hcr Hr Hbr) as (r' & Hread & _).
    unfold read_typed. rewrite Hread. unfold frame_decode. by rewrite Hrespd.
Qed.
End Connection.

(** ** Concrete runs *)

(** A toy codec, for the witnesses only: a tag, then the content. *)
Definition ascii_byte (c : ascii) : Z := Z.of_N (N_of_ascii c).

#[export] Instance demo_request_codec : Prost string bytes := {|
  encode_to_vec req := 7 :: req;
  prost_decode bs := match bs with 7 :: req => Ok req | _ => Err "bad tag" end
|}.

#[export] Instance demo_response_codec : Prost string KeyAgentResponse := {|
  encode_to_vec resp := match kind resp with
                        | None => []
                        | Some (ROk p) => 1 :: p
                        | Some (RDeny r) => [2; dr_reason r]
                        | Some (RError m) => 3 :: map ascii_byte (list_ascii_of_string m)
                        end;
  prost_decode bs := match bs with
                     | [] => Ok {| kind := None |}
                     | 1 :: p => Ok (response_ok p)
                     | [2; r] => Ok (response_deny r)
                     | 3 :: m => Ok (response_error
                                       (string_of_list_ascii (map (fun b => ascii_of_N (Z.to_N b)) m)))
                     | _ => Err "bad tag"
                     end
|}.

Lemma demo_response_roundtrip (m : KeyAgentResponse) : prost_decode (encode_to_vec m) = Ok m.
Proof.
  destruct m as [[[p|[r]|m]|]]; try done. cbn. unfold response_error. do 4 f_equal.
  rewrite <- (string_of_list_ascii_of_string m) at 2. f_equal.
  induction (list_ascii_of_string m) as [|c l IH]; [done|]. simpl. rewrite IH. f_equal.
  unfold ascii_byte. rewrite N2Z.id. apply ascii_N_embedding.
Defined.

(** An agent that counts its requests and refuses the empty one. *)
Definition demo_dispatch (st : nat) (req : bytes) : result (KeyAgentError string) KeyAgentResponse * nat :=
  match req with
  | [] => (Err (InvalidRequest "empty"), S st)
  | _ => (Ok (response_ok (rev req)), S st)
  end.

Abbreviation demo_handle := (handle_conn (fun e : string => e) demo_dispatch).
Abbreviation demo_serve := (serve (fun e : string => e) demo_dispatch).

Definition demo_sink : Writer := {| written := []; script := []; flush_result := Ok tt |}.

(** A stream of three frames, delivered in awkward pieces: a good request, a bad
    payload, an empty request. *)
Definition demo_payloads : list bytes := [[7; 1; 2]; [9]; [7]].
Definition demo_reader : Reader :=
  [Chunk [0; 0]; Interrupt; Chunk [0; 3; 7; 1; 2; 0]; Chunk [0; 0; 1]; Chunk [9; 0; 0; 0; 1; 7]].

Lemma read_written_frame_witness :
  exists r', read_frame (DE := string) [Chunk [0; 0]; Interrupt; Chunk [0; 2; 5; 6; 8]] =
    (Ok [5; 6], r') /\ clean r' /\ reader_bytes r' = [8].
Proof.
  apply (read_written_frame (DE := string) demo_sink [5; 6] _ [8]); try reflexivity;
    [by split|vm_compute; discriminate|by repeat constructor].
Defined.

Lemma read_frame_errors_witness :
  (read_frame (DE := string) [Chunk [0; 0; 1]]).1 = Err Eof /\
  (read_frame (DE := string) [Chunk [0; 0; 0; 5; 1; 2]]).1 = Err (Io UnexpectedEof).
Proof.
  split.
  - apply (read_frame_errors (DE := string) [Chunk [0; 0; 1]]); [by repeat constructor|reflexivity].
  - eapply (proj2 (read_frame_errors (DE := string) [Chunk [0; 0; 0; 5; 1; 2]] ltac:(by repeat constructor))
             [0; 0; 0; 5] [1; 2]); vm_compute; done.
Defined.

Lemma handle_conn_serves_witness :
  exists w', demo_handle (Ok demo_reader) demo_sink 0%nat = Some (Ok tt, w', 2%nat) /\
    written w' = response_wire (demo_serve 0%nat demo_payloads).1 /\
    length (demo_serve 0%nat demo_payloads).1 = 3%nat.
Proof.
  destruct (handle_conn_serves (fun e : string => e) demo_dispatch demo_payloads demo_reader
              demo_sink 0%nat) as (w' & H & Hw).
  - by repeat constructor.
  - by split.
  - repeat constructor; vm_compute; discriminate.
  - repeat constructor; vm_compute; discriminate.
  - reflexivity.
  - exists w'. split; [exact H|]. split; [exact Hw|reflexivity].
Defined.

Definition demo_host (t : FileType) : Host := {|
  symlink_metadata p :=
    match components p with
    | [_] => Ok {| file_type := Directory; uid := 1000; mode := 0x1c0 |}
    | _ => Ok {| file_type := t; uid := 1000; mode := 0x1c0 |}
    end;
  path_exists _ := true;
  current_uid := 1000
|}.

Definition demo_socket : SocketPath := {| absolute := true; components := ["run"; "agent.sock"] |}.

Definition demo_peer (response : Reader) : Peer :=
  {| connect := Ok demo_sink; shutdown_write := Ok tt; response_stream := response |}.

Abbreviation demo_send := (send_request (KeyAgentRequest := bytes) (fun e : string => e)).

Lemma insecure_socket_sends_nothing_witness :
  exists msg, demo_send (demo_host Symlink) demo_socket (demo_peer []) [1; 2] =
    (Err (InsecureSocket msg), []).
Proof.
  apply (insecure_socket_sends_nothing (fun e : string => e)); [reflexivity|].
  intros [(meta & Hm & Ht & _) _]. injection Hm as <-. discriminate.
Defined.

Lemma request_response_witness :
  let peer := demo_peer [Chunk [0; 0; 0]; Chunk [3; 1]; Chunk [2; 1]] in
  fst (demo_send (demo_host Socket) demo_socket peer [1; 2]) = Ok (response_ok [2; 1]).
Proof.
  intros peer.
  destruct (request_response (fun e : string => e) demo_dispatch (demo_host Socket) demo_socket peer
    [1; 2] demo_sink [Chunk [0; 0; 0]; Chunk [3; 7; 1; 2]] 0%nat) as (out & st' & Hrun & Hclient).
  - reflexivity.
  - exact demo_response_roundtrip.
  - reflexivity.
  - reflexivity.
  - reflexivity.
  - by split.
  - reflexivity.
  - vm_compute. discriminate.
  - vm_compute. discriminate.
  - by repeat constructor.
  - reflexivity.
  - apply Hclient; [by repeat constructor|]. vm_compute in Hrun. injection Hrun as <- _. reflexivity.
Defined.
