(* ===== verification/DemoText.v ===== *)
(** * Concrete texts for the witnesses

    Hexadecimal, and a one-line text of any countable value: functions that meet
    what the models assume of [hex] and [serde_json], for the concrete runs. *)

From Stdlib Require Import ZArith Lia Ascii String.
From stdpp Require Import base list strings countable.
From S2P Require Import Prelude Str Bytes.

Local Open Scope oc_scope.

(** Lower-case hexadecimal. *)
Definition hex_digit (n : Z) : ascii :=
  ascii_of_N (Z.to_N (if (n <? 10)%Z then 48 + n else 87 + n)).
Definition hex_value (c : ascii) : Z :=
  let n := Z.of_N (N_of_ascii c) in if (n <? 58)%Z then n - 48 else n - 87.

Fixpoint hex (l : bytes) : string :=
  match l with
  | [] => ""
  | b :: l' => String (hex_digit (b / 16)) (String (hex_digit (b mod 16)) (hex l'))
  end.

Fixpoint unhex (s : string) : bytes :=
  match s with
  | String a (String b s') => (16 * hex_value a + hex_value b)%Z :: unhex s'
  | _ => []
  end.

Lemma hex_digit_value n : (0 <= n < 16)%Z -> hex_value (hex_digit n) = n.
Proof.
  intros Hn. replace n with (Z.of_nat (Z.to_nat n)) by lia.
  assert (Hk : (Z.to_nat n < 16)%nat) by lia. revert Hk. generalize (Z.to_nat n) as k. intros k Hk.
  do 16 (destruct k as [|k]; [reflexivity|]). lia.
Qed.

Lemma unhex_hex l : is_bytes l -> unhex (hex l) = l.
Proof.
  induction 1 as [|b l Hb _ IH]; [done|]. cbn [hex unhex]. unfold is_byte in Hb.
  pose proof (Z.div_mod b 16 ltac:(done)). pose proof (Z.mod_pos_bound b 16 ltac:(done)).
  rewrite IH, !hex_digit_value by lia. f_equal. lia.
Qed.

(** ** The bits of the code of a value *)
Fixpoint bits (p : positive) : string :=
  match p with
  | xH => "1"
  | xO p' => String "0" (bits p')
  | xI p' => String "x" (bits p')
  end.

Fixpoint unbits (s : string) : option positive :=
  match s with
  | String "1" EmptyString => Some xH
  | String "0" s' => xO <$> unbits s'
  | String "x" s' => xI <$> unbits s'
  | _ => None
  end.

Lemma unbits_bits p : unbits (bits p) = Some p.
Proof. induction p as [p IH|p IH|]; cbn; by rewrite ?IH. Qed.

Definition head_m (s : string) : bool :=
  match s with String "m" _ => true | _ => false end.

Lemma first_some_in {A B} (f : A -> option B) l y :
  first_some f l = Some y -> exists x, In x l /\ f x = Some y.
Proof.
  induction l as [|x l IH]; [done|]. cbn. destruct (f x) eqn:Hf; [|by intros (z & ? & ?)%IH; eauto].
  intros [= <-]. eauto.
Qed.

Lemma trim_end_head n s : head_m s = true -> head_m (trim_end_fuel n s) = true.
Proof.
  revert s. induction n as [|n IH]; intros s Hs; [done|]. cbn [trim_end_fuel].
  destruct (first_some _ white_space) as [r|] eqn:Hf; [|done]. apply IH.
  apply first_some_in in Hf as (w & Hw & Hr). apply strip_suffix_some in Hr as ->.
  destruct r as [|c r]; [|done]. cbn in Hs.
  repeat (destruct Hw as [<-|Hw]; [done|]). done.
Qed.

Lemma trim_head s : head_m s = true -> is_empty (trim s) = false.
Proof.
  intros Hs. unfold trim.
  assert (Hstart : trim_start_fuel (String.length s) s = s).
  { destruct s as [|c s]; [done|]. cbn [String.length trim_start_fuel].
    assert (c = "m"%char) as -> by (cbn in Hs; repeat (case_match; try done)). done. }
  rewrite Hstart. pose proof (trim_end_head (String.length s) s Hs) as H.
  by destruct (trim_end_fuel _ _).
Qed.

Definition to_text {A} `{Countable A} (a : A) : string := String "m" (bits (encode a)).

Definition of_text {A} `{Countable A} (s : string) : option A :=
  match s with String "m" s' => unbits s' ≫= decode | _ => None end.

Lemma of_to_text {A} `{Countable A} (a : A) : of_text (to_text a) = Some a.
Proof. unfold of_text, to_text. rewrite unbits_bits. cbn. apply decode_encode. Qed.

Definition is_bit (c : ascii) : bool :=
  Ascii.eqb c "m" || Ascii.eqb c "1" || Ascii.eqb c "0" || Ascii.eqb c "x".

Lemma to_text_bits {A} `{Countable A} (a : A) : all_bytes is_bit (to_text a) = true.
Proof.
  unfold to_text. cbn. generalize (encode a) as p. induction p as [p IH|p IH|]; cbn; by rewrite ?IH.
Qed.

Lemma is_bit_cases c : is_bit c = true -> c = "m"%char \/ c = "1"%char \/ c = "0"%char \/ c = "x"%char.
Proof. unfold is_bit. rewrite !orb_true_iff, !Ascii.eqb_eq. tauto. Qed.

(** Such a text is a line of UTF-8 that is not blank. *)
Lemma to_text_line {A} `{Countable A} (a : A) :
  all_bytes (fun c => negb (Ascii.eqb c lf)) (to_text a) = true /\ strip_cr (to_text a) = to_text a /\
  utf8 (to_text a) = true /\ is_empty (trim (to_text a)) = false.
Proof.
  pose proof (to_text_bits a) as Hb. split_and!.
  - eapply all_bytes_impl; [|exact Hb]. by intros c [->|[->|[->| ->]]]%is_bit_cases.
  - unfold strip_cr. destruct (strip_suffix _ _) as [r|] eqn:Hr; [|done].
    apply strip_suffix_some in Hr. rewrite Hr, all_bytes_app in Hb.
    by apply andb_true_iff in Hb as [_ Hb].
  - revert Hb. generalize (to_text a) as s. induction s as [|c s IH]; [done|]. cbn [all_bytes].
    intros [Hc Hs]%andb_true_iff. apply is_bit_cases in Hc as [->|[->|[->| ->]]]; by apply IH.
  - by apply trim_head.
Qed.

(** ** Such texts have no white space at either end *)

Definition starts_foreign (w : string) : bool :=
  match w with String c _ => negb (is_bit c) && negb (Ascii.eqb c "m") | EmptyString => false end.

Lemma space_foreign w : In w white_space -> starts_foreign w = true /\ all_bytes is_bit w = false.
Proof.
  intros Hw. assert (H : forallb (fun w => starts_foreign w && negb (all_bytes is_bit w)) white_space = true)
    by runs.
  apply (proj1 (forallb_forall _ _) H) in Hw as [H1 H2%negb_true_iff]%andb_prop. done.
Qed.

Lemma trim_start_bits n c s : is_bit c = true -> trim_start_fuel n (String c s) = String c s.
Proof.
  intros Hc. destruct n as [|n]; [done|]. cbn [trim_start_fuel].
  destruct (first_some _ white_space) as [r|] eqn:Hf; [|done]. exfalso.
  apply first_some_in in Hf as (w & [Hw _]%space_foreign & Hr). apply strip_prefix_some in Hr.
  destruct w as [|c' w]; [done|]. cbn in Hr. injection Hr as <- _. cbn in Hw. by rewrite Hc in Hw.
Qed.

Lemma trim_end_bits n s : all_bytes is_bit s = true -> trim_end_fuel n s = s.
Proof.
  intros Hs. destruct n as [|n]; [done|]. cbn [trim_end_fuel].
  destruct (first_some _ white_space) as [r|] eqn:Hf; [|done]. exfalso.
  apply first_some_in in Hf as (w & [_ Hw]%space_foreign & Hr). apply strip_suffix_some in Hr as ->.
  rewrite all_bytes_app, Hw, andb_false_r in Hs. done.
Qed.

Lemma trim_bits c s : all_bytes is_bit (String c s) = true -> trim (String c s) = String c s.
Proof.
  intros Hs. unfold trim. rewrite trim_start_bits by (by apply andb_prop in Hs as [Hs _]).
  by apply trim_end_bits.
Qed.

Lemma trim_bits_lf c s : all_bytes is_bit (String c s) = true ->
  trim (String.append (String c s) (String lf "")) = String c s.
Proof.
  intros Hs. unfold trim. cbn [String.append]. rewrite trim_start_bits by (by apply andb_prop in Hs as [Hs _]).
  cbn [String.length]. change (String c (String.append s (String lf ""))) with (String.append (String c s) (String lf "")).
  set (t := String c s) in *. cbn [trim_end_fuel].
  assert (Htab : strip_suffix (bytes_str [9%N]) (String.append t (String lf "")) = None).
  { destruct (strip_suffix _ _) as [r|] eqn:Hr; [|done]. exfalso. apply strip_suffix_some in Hr.
    assert (H : all_bytes (fun c => is_bit c || Ascii.eqb c lf) (String.append t (String lf "")) = true).
    { rewrite all_bytes_app, andb_true_r. eapply all_bytes_impl; [|exact Hs]. by intros x ->. }
    rewrite Hr, all_bytes_app in H. by apply andb_prop in H as [_ H]. }
  unfold white_space. cbn [map first_some]. rewrite Htab.
  change (bytes_str [10%N]) with (String lf ""). rewrite strip_suffix_app. by apply trim_end_bits.
Qed.
