(* ===== verification/Chain.v ===== *)
(** * Chains

    The chain registry of crates/oc-core/src/chain.rs and the CAIP-2 helpers of
    caip.rs: the chain families with their namespaces and coin types, the known
    chains, [parse_chain] over the interner of dynamically parsed ids, and the
    EIP-155 reference of a chain.  The interner is the process-wide
    [CHAIN_ID_INTERNER], passed explicitly.  tap_caip's [ChainId] parser is the
    parameter [Caip]. *)

From Stdlib Require Import ZArith Lia Bool String Ascii.
From stdpp Require Import base list strings gmap.
From S2P Require Import Prelude Str.

Local Open Scope oc_scope.

Definition MAX_INTERNED_CHAIN_IDS : nat := 1024.

(** [CHAIN_ID_INTERNER]. *)
Definition Interner : Type := lock (gset string).

Definition intern_chain_id_capped (s : string) (cap : nat) (i : Interner) : option string * Interner :=
  match i with
  | Poisoned => (None, Poisoned)
  | Held set =>
      if decide (s ∈ set) then (Some s, Held set)
      else if (cap <=? size set)%nat then (None, Held set)
      else (Some s, Held ({[s]} ∪ set))
  end.

Definition intern_chain_id (s : string) (i : Interner) : option string * Interner :=
  intern_chain_id_capped s MAX_INTERNED_CHAIN_IDS i.

Inductive ChainType :=
| Evm | Solana | Cosmos | Bitcoin | Tron | Ton | Spark | Filecoin | Sui | Xrpl | Nano | Near.

#[global] Instance ChainType_eq_dec : EqDecision ChainType.
Proof. solve_decision. Defined.

Definition ALL_CHAIN_TYPES : list ChainType :=
  [Evm; Solana; Bitcoin; Cosmos; Tron; Ton; Spark; Filecoin; Sui; Xrpl; Nano; Near].

Record Chain := { name : string; chain_type : ChainType; chain_id : string }.

Definition mk (n : string) (ct : ChainType) (id : string) : Chain :=
  {| name := n; chain_type := ct; chain_id := id |}.

Definition KNOWN_CHAINS : list Chain := [
  mk "ethereum" Evm "eip155:1";
  mk "polygon" Evm "eip155:137";
  mk "arbitrum" Evm "eip155:42161";
  mk "optimism" Evm "eip155:10";
  mk "base" Evm "eip155:8453";
  mk "plasma" Evm "eip155:9745";
  mk "bsc" Evm "eip155:56";
  mk "avalanche" Evm "eip155:43114";
  mk "etherlink" Evm "eip155:42793";
  mk "solana" Solana "solana:5eykt4UsFv8P8NJdTREpY1vzqKqZKvdp";
  mk "bitcoin" Bitcoin "bip122:000000000019d6689c085ae165831e93";
  mk "cosmos" Cosmos "cosmos:cosmoshub-4";
  mk "tron" Tron "tron:mainnet";
  mk "ton" Ton "ton:mainnet";
  mk "spark" Spark "spark:mainnet";
  mk "filecoin" Filecoin "fil:mainnet";
  mk "sui" Sui "sui:mainnet";
  mk "xrpl" Xrpl "xrpl:mainnet";
  mk "xrpl-testnet" Xrpl "xrpl:testnet";
  mk "xrpl-devnet" Xrpl "xrpl:devnet";
  mk "nano" Nano "nano:mainnet";
  mk "near" Near "near:mainnet";
  mk "near-testnet" Near "near:testnet";
  mk "tempo" Evm "eip155:4217";
  mk "hyperliquid" Evm "eip155:999" ].

Definition namespace (ct : ChainType) : string :=
  match ct with
  | Evm => "eip155" | Solana => "solana" | Cosmos => "cosmos" | Bitcoin => "bip122"
  | Tron => "tron" | Ton => "ton" | Spark => "spark" | Filecoin => "fil"
  | Sui => "sui" | Xrpl => "xrpl" | Nano => "nano" | Near => "near"
  end.

Definition default_coin_type (ct : ChainType) : Z :=
  match ct with
  | Evm => 60 | Solana => 501 | Cosmos => 118 | Bitcoin => 0 | Tron => 195 | Ton => 607
  | Spark => 8797555 | Filecoin => 461 | Sui => 784 | Xrpl => 144 | Nano => 165 | Near => 397
  end.

Definition from_namespace (ns : string) : option ChainType :=
  if String.eqb ns "eip155" then Some Evm
  else if String.eqb ns "solana" then Some Solana
  else if String.eqb ns "cosmos" then Some Cosmos
  else if String.eqb ns "bip122" then Some Bitcoin
  else if String.eqb ns "tron" then Some Tron
  else if String.eqb ns "ton" then Some Ton
  else if String.eqb ns "spark" then Some Spark
  else if String.eqb ns "fil" then Some Filecoin
  else if String.eqb ns "sui" then Some Sui
  else if String.eqb ns "xrpl" then Some Xrpl
  else if String.eqb ns "nano" then Some Nano
  else if String.eqb ns "near" then Some Near
  else None.

(** [ChainType::to_string]. *)
Definition fmt (ct : ChainType) : string :=
  match ct with
  | Evm => "evm" | Solana => "solana" | Cosmos => "cosmos" | Bitcoin => "bitcoin"
  | Tron => "tron" | Ton => "ton" | Spark => "spark" | Filecoin => "filecoin"
  | Sui => "sui" | Xrpl => "xrpl" | Nano => "nano" | Near => "near"
  end.

(** The registry holds a chain of every family: see [default_chain_total]. *)
Definition default_chain_for_type (ct : ChainType) : outcome Chain :=
  match find (fun c => bool_decide (chain_type c = ct)) KNOWN_CHAINS with
  | Some c => Ret c
  | None => Panic
  end.

Section Parse.
Context {L : Lowercase}.

Definition from_str (s : string) : result string ChainType :=
  let l := to_lowercase s in
  if String.eqb l "evm" then Ok Evm
  else if String.eqb l "solana" then Ok Solana
  else if String.eqb l "cosmos" then Ok Cosmos
  else if String.eqb l "bitcoin" then Ok Bitcoin
  else if String.eqb l "tron" then Ok Tron
  else if String.eqb l "ton" then Ok Ton
  else if String.eqb l "spark" then Ok Spark
  else if String.eqb l "filecoin" then Ok Filecoin
  else if String.eqb l "sui" then Ok Sui
  else if String.eqb l "xrpl" then Ok Xrpl
  else if String.eqb l "nano" then Ok Nano
  else if String.eqb l "near" then Ok Near
  else Err ("unknown chain type: " +:+ s).

Definition too_many (id : string) : string :=
  "too many distinct chain IDs seen (limit " +:+ fmt_Z (Z.of_nat MAX_INTERNED_CHAIN_IDS) +:+
  "); refusing to intern '" +:+ id +:+ "'".

Definition nl : string := String lf "".

Definition unknown_chain (s : string) : string :=
  "unknown chain: '" +:+ s +:+ "'" +:+ nl +:+ nl +:+ "Supported chains:" +:+ nl +:+
  "  EVM:     ethereum, base, arbitrum, optimism, polygon, bsc, avalanche, plasma, etherlink" +:+ nl +:+
  "  Solana:  solana" +:+ nl +:+
  "  Bitcoin: bitcoin" +:+ nl +:+
  "  Other:   cosmos, tron, ton, sui, filecoin, spark, xrpl, nano, near" +:+ nl +:+ nl +:+
  "Or use a CAIP-2 ID (eip155:8453) or bare EVM chain ID (8453)".

Definition by_name (n : string) : option Chain := find (fun c => String.eqb (name c) n) KNOWN_CHAINS.
Definition by_id (id : string) : option Chain := find (fun c => String.eqb (chain_id c) id) KNOWN_CHAINS.

(** An id outside the registry: interned, or refused. *)
Definition dynamic_chain (ct : ChainType) (id : string) (i : Interner) : result string Chain * Interner :=
  match intern_chain_id id i with
  | (Some interned, i) => (Ok (mk interned ct interned), i)
  | (None, i) => (Err (too_many id), i)
  end.

(** [parse_chain] after the legacy name. *)
Definition parse_chain_current (s : string) (i : Interner) : result string Chain * Interner :=
  let lower := to_lowercase s in
  match by_name lower with
  | Some c => (Ok c, i)
  | None =>
      match by_id s with
      | Some c => (Ok c, i)
      | None =>
          if negb (is_empty lower) && all_bytes is_ascii_digit lower then
            let caip2 := "eip155:" +:+ lower in
            match by_id caip2 with
            | Some c => (Ok c, i)
            | None => dynamic_chain Evm caip2 i
            end
          else
            match split_once ":" s with
            | Some (ns, _) =>
                match from_namespace ns with
                | Some ct => dynamic_chain ct s i
                | None => (Err (unknown_chain s), i)
                end
            | None => (Err (unknown_chain s), i)
            end
      end
  end.

(** The recursive call is on "ethereum", which is not the legacy name. *)
Definition parse_chain (s : string) (i : Interner) : result string Chain * Interner :=
  if String.eqb (to_lowercase s) "evm" then parse_chain_current "ethereum" i
  else parse_chain_current s i.
End Parse.

(** [tap_caip::ChainId]: its [FromStr] splits at the colon what it accepts. *)
Class Caip := {
  parse_caip : string -> result string (string * string)
}.

Class CaipLaws (C : Caip) : Prop :=
  parse_caip_splits s ns r : parse_caip s = Ok (ns, r) -> split_once ":" s = Some (ns, r).

Section Reference.
Context {C : Caip}.

Definition is_evm (id : string * string) : bool := String.eqb id.1 "eip155".

(** [ChainIdExt::evm_chain_id]. *)
Definition evm_chain_id (id : string * string) : option Z :=
  if is_evm id then parse_unsigned u64_max id.2 else None.

Definition evm_chain_reference (c : Chain) : result string string :=
  if negb (bool_decide (chain_type c = Evm)) then
    Err ("chain '" +:+ chain_id c +:+ "' is not an EVM chain")
  else
    let? id := parse_caip (chain_id c) in
    if negb (String.eqb id.1 "eip155") then
      Err ("EVM chain '" +:+ chain_id c +:+ "' is missing an eip155 reference")
    else ok_or ("invalid CAIP-2 chain ID: '" +:+ chain_id c +:+ "'")
               (option_map snd (split_once ":" (chain_id c))).

Definition evm_chain_id_u64 (c : Chain) : result string Z :=
  let? r := evm_chain_reference c in
  ok_or ("cannot extract numeric chain ID from: " +:+ chain_id c) (parse_unsigned u64_max r).
End Reference.

(** ** Properties *)

(** Each chain family has one namespace and one printed name. *)
Lemma from_namespace_iff ns ct : from_namespace ns = Some ct <-> ns = namespace ct.
Proof.
  split.
  - unfold from_namespace.
    repeat match goal with |- context [String.eqb ns ?x] =>
      destruct (String.eqb_spec ns x) as [->|]; [by intros [= <-]|] end. done.
  - intros ->. by destruct ct.
Qed.

Lemma default_chain_total ct : exists c, default_chain_for_type ct = Ret c /\ chain_type c = ct.
Proof. destruct ct; eexists; split; reflexivity. Qed.

(** The registry's names and ids are distinct; every id has the namespace of its
    family, and no name has a colon. *)
Definition registry_ok : bool :=
  forallb (fun c => match split_once ":" (chain_id c) with
                    | Some (ns, _) => bool_decide (from_namespace ns = Some (chain_type c))
                    | None => false
                    end && negb (contains_byte ":" (name c)) &&
                    match by_id (chain_id c) with
                    | Some c' => String.eqb (name c') (name c) && String.eqb (chain_id c') (chain_id c) &&
                                 bool_decide (chain_type c' = chain_type c)
                    | None => false
                    end) KNOWN_CHAINS.

Lemma registry_checked : registry_ok = true.
Proof. runs. Qed.

Lemma registry_entry c : c ∈ KNOWN_CHAINS ->
  (exists ns r, split_once ":" (chain_id c) = Some (ns, r) /\ from_namespace ns = Some (chain_type c)) /\
  contains_byte ":" (name c) = false /\ by_id (chain_id c) = Some c.
Proof.
  intros Hc%list_elem_of_In. pose proof (proj1 (forallb_forall _ _) registry_checked c Hc) as H.
  apply andb_prop in H as [[H1 H2]%andb_prop H3]. split_and!.
  - destruct (split_once ":" (chain_id c)) as [[ns r]|]; [|done]. exists ns, r.
    by apply bool_decide_eq_true in H1.
  - by apply negb_true_iff in H2.
  - destruct (by_id (chain_id c)) as [c'|]; [|done].
    apply andb_prop in H3 as [[Hn%String.eqb_eq Hi%String.eqb_eq]%andb_prop Ht%bool_decide_eq_true].
    destruct c, c'; cbn in *; congruence.
Qed.

Lemma by_name_in n c : by_name n = Some c -> c ∈ KNOWN_CHAINS /\ name c = n.
Proof. intros [H1 H2%String.eqb_eq]%find_some. by split; [apply list_elem_of_In|]. Qed.

Lemma by_id_in id c : by_id id = Some c -> c ∈ KNOWN_CHAINS /\ chain_id c = id.
Proof. intros [H1 H2%String.eqb_eq]%find_some. by split; [apply list_elem_of_In|]. Qed.

(** ** The interner *)

(** The ids an interner holds. *)
Definition interned (i : Interner) : gset string :=
  match i with Held set => set | Poisoned => ∅ end.

Lemma intern_grows s i o i' : intern_chain_id s i = (o, i') ->
  interned i ⊆ interned i' /\ (size (interned i) <= MAX_INTERNED_CHAIN_IDS -> size (interned i') <= MAX_INTERNED_CHAIN_IDS)%nat
  /\ forall r, o = Some r -> r = s /\ s ∈ interned i' /\ exists set, i' = Held set.
Proof.
  unfold intern_chain_id, intern_chain_id_capped. destruct i as [set|]; [|by intros [= <- <-]].
  destruct (decide (s ∈ set)) as [Hs|Hs].
  { intros [= <- <-]. split_and!; [done..|]. intros r [= <-]. by eauto. }
  destruct (MAX_INTERNED_CHAIN_IDS <=? size set)%nat eqn:Hc; intros [= <- <-]; [done|].
  apply Nat.leb_gt in Hc. cbn [interned]. split_and!.
  - apply union_subseteq_r.
  - intros _. rewrite size_union by set_solver. rewrite size_singleton. lia.
  - intros r [= <-]. split_and!; [done|set_solver|by eauto].
Qed.

Lemma intern_again s set : s ∈ set -> intern_chain_id s (Held set) = (Some s, Held set).
Proof. intros H. unfold intern_chain_id, intern_chain_id_capped. by rewrite decide_True. Qed.

Section ParseSpec.
Context {L : Lowercase} {LL : LowercaseLaws L}.

(** Where a parsed chain comes from: the registry, or the id [id] of the
    namespace of its family, in the interner. *)
Inductive origin (c : Chain) (i : Interner) : Prop :=
| known : c ∈ KNOWN_CHAINS -> origin c i
| dynamic ns r : name c = chain_id c -> by_id (chain_id c) = None ->
    split_once ":" (chain_id c) = Some (ns, r) -> from_namespace ns = Some (chain_type c) ->
    (exists set, i = Held set) -> chain_id c ∈ interned i -> origin c i.

Lemma dynamic_origin ct id i c i' ns r :
  by_id id = None -> split_once ":" id = Some (ns, r) -> from_namespace ns = Some ct ->
  dynamic_chain ct id i = (Ok c, i') -> origin c i' /\ chain_id c = id.
Proof.
  intros Hb Hs Hn. unfold dynamic_chain. destruct (intern_chain_id id i) as [[x|] i1] eqn:Hi; [|done].
  intros [= <- <-]. destruct (intern_grows _ _ _ _ Hi) as (_ & _ & H). destruct (H x eq_refl) as (-> & Hin & He).
  split; [|done]. by eapply dynamic.
Qed.

Lemma split_once_eip155 s : split_once ":" ("eip155:" +:+ s) = Some ("eip155", s).
Proof. reflexivity. Qed.

Lemma parse_current_origin s i c i' : parse_chain_current s i = (Ok c, i') -> origin c i'.
Proof.
  unfold parse_chain_current. destruct (by_name _) as [k|] eqn:Hn.
  { intros [= <- <-]. by apply known, (by_name_in _ _ Hn). }
  destruct (by_id s) as [k|] eqn:Hi.
  { intros [= <- <-]. by apply known, (by_id_in _ _ Hi). }
  destruct (negb _ && _).
  - destruct (by_id ("eip155:" +:+ to_lowercase s)) as [k|] eqn:Hk.
    { intros [= <- <-]. by apply known, (by_id_in _ _ Hk). }
    intros H. eapply dynamic_origin in H; [by apply H|done|apply split_once_eip155|done].
  - destruct (split_once ":" s) as [[ns r]|] eqn:Hs; [|done].
    destruct (from_namespace ns) as [ct|] eqn:Hf; [|done].
    intros H. by eapply dynamic_origin in H; [apply H|..].
Qed.

Lemma parse_chain_origin s i c i' : parse_chain s i = (Ok c, i') -> origin c i'.
Proof. unfold parse_chain. destruct (String.eqb _ _); apply parse_current_origin. Qed.

(** C36 Every chain the parser returns carries a CAIP-2 id whose namespace is the
    one of its chain type, whatever text it was parsed from. *)
Theorem parsed_chain_well_typed s i c i' : parse_chain s i = (Ok c, i') ->
  exists r, split_once ":" (chain_id c) = Some (namespace (chain_type c), r).
Proof.
  intros [Hk|ns r _ _ Hs Hn _ _]%parse_chain_origin.
  - destruct (registry_entry c Hk) as [(ns & r & Hs & Hn) _].
    apply from_namespace_iff in Hn as ->. by exists r.
  - apply from_namespace_iff in Hn as ->. by exists r.
Qed.

Lemma split_once_colon s p : split_once ":" s = Some p -> contains_byte ":" s = true.
Proof.
  revert p. induction s as [|c s IH]; intros p; cbn [split_once strip_prefix]; [done|].
  destruct (Ascii.eqb ":" c) eqn:He.
  - apply Ascii.eqb_eq in He as <-. done.
  - destruct (split_once ":" s) as [q|]; [|done]. intros _. specialize (IH q eq_refl).
    unfold contains_byte in *. cbn [all_bytes]. rewrite Ascii.eqb_sym, He. exact IH.
Qed.

Lemma all_digits_no_colon s : all_bytes is_ascii_digit s = true -> contains_byte ":" s = false.
Proof.
  intros H. unfold contains_byte. apply negb_false_iff. revert H. apply all_bytes_impl.
  intros c. destruct (Ascii.eqb_spec c ":") as [->|]; done.
Qed.

Lemma by_name_colon n : contains_byte ":" n = true -> by_name n = None.
Proof.
  intros H. destruct (by_name n) as [c|] eqn:Hn; [|done]. exfalso.
  apply by_name_in in Hn as [Hk <-]. destruct (registry_entry c Hk) as (_ & Hc & _). congruence.
Qed.

(** Parsing the id of a parsed chain gives the same chain again and leaves the
    interner as it is, however many other ids have been interned since. *)
Theorem parse_chain_id_again s i c i' set : parse_chain s i = (Ok c, i') ->
  interned i' ⊆ set -> parse_chain (chain_id c) (Held set) = (Ok c, Held set).
Proof.
  intros Ho%parse_chain_origin Hset.
  assert (Hc : contains_byte ":" (to_lowercase (chain_id c)) = true).
  { rewrite lowercase_colon. destruct Ho as [Hk|ns r _ _ Hs _ _ _]; [|by eapply split_once_colon].
    destruct (registry_entry c Hk) as [(ns & r & Hs & _) _]. by eapply split_once_colon. }
  unfold parse_chain, parse_chain_current.
  destruct (String.eqb_spec (to_lowercase (chain_id c)) "evm") as [He|_]; [by rewrite He in Hc|].
  rewrite by_name_colon by done. destruct Ho as [Hk|ns r Hname Hb Hs Hn _ Hin].
  - destruct (registry_entry c Hk) as (_ & _ & Hb). by rewrite Hb.
  - rewrite Hb. destruct (negb _ && all_bytes is_ascii_digit _) eqn:Hd.
    { apply andb_prop in Hd as [_ Hd%all_digits_no_colon]. congruence. }
    rewrite Hs, Hn. unfold dynamic_chain. rewrite intern_again by set_solver.
    f_equal. f_equal. destruct c; cbn in *; by subst.
Qed.

(** However often and whatever is parsed, the interner never holds more than
    1,024 ids and never forgets one. *)
Theorem interner_bounded s i r i' : parse_chain s i = (r, i') ->
  (size (interned i) <= MAX_INTERNED_CHAIN_IDS)%nat ->
  (size (interned i') <= MAX_INTERNED_CHAIN_IDS)%nat /\ interned i ⊆ interned i'.
Proof.
  intros H Hb. cut (i' = i \/ exists id o, intern_chain_id id i = (o, i')).
  { intros [->|(id & o & Hi)]; [done|]. destruct (intern_grows _ _ _ _ Hi) as (H1 & H2 & _). eauto. }
  assert (Hd : forall ct id, dynamic_chain ct id i = (r, i') -> exists id o, intern_chain_id id i = (o, i')).
  { intros ct id. unfold dynamic_chain. destruct (intern_chain_id id i) as [[x|] i1] eqn:Hi;
      intros [= _ <-]; eauto. }
  unfold parse_chain, parse_chain_current in H.
  repeat match type of H with context [match ?x with _ => _ end] => destruct x end;
    solve [injection H as _ <-; by left|right; by eapply Hd].
Qed.

(** The printed name of a family parses back to it. *)
Lemma chain_type_roundtrip ct : from_str (fmt ct) = Ok ct.
Proof. unfold from_str. rewrite lowercase_ascii by (destruct ct; reflexivity). by destruct ct. Qed.
End ParseSpec.

(** The EIP-155 reference is the part after the colon. *)
Lemma evm_chain_reference_spec {C : Caip} {CL : CaipLaws C} c r :
  evm_chain_reference c = Ok r ->
  chain_type c = Evm /\ parse_caip (chain_id c) = Ok ("eip155", r).
Proof.
  unfold evm_chain_reference. destruct (bool_decide_reflect (chain_type c = Evm)) as [Ht|]; [|done].
  cbn [negb]. destruct (parse_caip (chain_id c)) as [[ns r']|] eqn:Hp; [|done]. cbn [result_bind fst].
  destruct (String.eqb_spec ns "eip155") as [->|]; [|done]. cbn [negb].
  rewrite (parse_caip_splits _ _ _ Hp). intros [= ->]. done.
Qed.

(** ** Concrete runs *)

#[export] Instance demo_lowercase : Lowercase := {| to_lowercase := ascii_lowercase |}.

Lemma to_ascii_lowercase_colon c : Ascii.eqb (to_ascii_lowercase c) ":" = Ascii.eqb c ":".
Proof. destruct c as [[] [] [] [] [] [] [] []]; reflexivity. Defined.

#[export] Instance demo_lowercase_laws : LowercaseLaws demo_lowercase.
Proof.
  split; [done|]. intros s. unfold contains_byte. f_equal.
  induction s as [|c s IH]; cbn [to_lowercase demo_lowercase ascii_lowercase all_bytes]; [done|].
  by rewrite to_ascii_lowercase_colon, <- IH.
Defined.

#[export] Instance demo_caip : Caip := {|
  parse_caip s := ok_or "not CAIP-2" (split_once ":" s)
|}.

#[export] Instance demo_caip_laws : CaipLaws demo_caip.
Proof. intros s ns r. cbn. by destruct (split_once ":" s) as [[]|]; intros [= -> ->]. Defined.

Definition demo_interner : Interner := Held {["eip155:5"]}.

Lemma parsed_chain_well_typed_witness :
  exists c i, parse_chain "84532" demo_interner = (Ok c, i) /\
    exists r, split_once ":" (chain_id c) = Some (namespace (chain_type c), r).
Proof.
  eexists _, _. split; [reflexivity|].
  eapply (parsed_chain_well_typed "84532" demo_interner). reflexivity.
Defined.

Lemma parse_chain_id_again_witness :
  parse_chain "eip155:84532" (Held {["eip155:84532"; "eip155:5"; "eip155:7"]}) =
    (Ok (mk "eip155:84532" Evm "eip155:84532"), Held {["eip155:84532"; "eip155:5"; "eip155:7"]}).
Proof.
  eapply (parse_chain_id_again "84532" demo_interner (mk "eip155:84532" Evm "eip155:84532")).
  - reflexivity.
  - cbn [interned]. set_solver.
Defined.

Lemma interner_bounded_witness :
  (size (interned (parse_chain "84532" demo_interner).2) <= MAX_INTERNED_CHAIN_IDS)%nat /\
  interned demo_interner ⊆ interned (parse_chain "84532" demo_interner).2.
Proof.
  apply (interner_bounded "84532" demo_interner (parse_chain "84532" demo_interner).1).
  - by destruct (parse_chain _ _).
  - vm_compute. lia.
Defined.

(** A number with a leading zero is a chain of its own that carries the numeric id
    of another. *)
Lemma leading_zero_alias :
  let c := (parse_chain "01" (Held ∅)).1 in
  c = Ok (mk "eip155:01" Evm "eip155:01") /\
  result_bind c evm_chain_id_u64 = Ok 1%Z /\
  result_bind (parse_chain "1" (Held ∅)).1 evm_chain_id_u64 = Ok 1%Z /\
  (parse_chain "1" (Held ∅)).1 = Ok (mk "ethereum" Evm "eip155:1").
Proof. split_and!; runs. Qed.
