(* ===== verification/KeyCache.v ===== *)
(** * The cache of derived keys

    [crates/oc-crypto/src/key_cache.rs]: a time-to-idle cache with strict LRU
    eviction.  Entries live in a [HashMap]; a [BTreeMap] from access tick to id,
    here a list sorted by tick, gives the eviction order. *)

From Stdlib Require Import ZArith Lia Bool String Sorting.Sorted.
From stdpp Require Import base list strings gmap.
From S2P Require Import Prelude Str.

Local Open Scope oc_scope.

(** Nanoseconds. *)
Definition DEFAULT_TTL : Z := 5 * 10 ^ 9.
Definition DEFAULT_MAX_ENTRIES : nat := 32.

(** [Instant::elapsed] saturates at zero. *)
Definition elapsed (now since : Z) : Z := saturating_sub now since.

Section Cache.
Context {V : Type}.

Record CacheEntry := { entry_key : V; last_accessed : Z; tick : Z }.

Record Inner := {
  entries : gmap string CacheEntry;
  recency : list (Z * string);
  next_tick : Z
}.

Record KeyCache := { inner : Inner; ttl : Z; max_entries : nat }.

Definition set_inner (c : KeyCache) (i : Inner) : KeyCache := {|
  inner := i; ttl := ttl c; max_entries := max_entries c
|}.

(** [BTreeMap::insert]. *)
Fixpoint tick_insert (t : Z) (id : string) (l : list (Z * string)) : list (Z * string) :=
  match l with
  | [] => [(t, id)]
  | (t', id') :: l' =>
      if (t <? t')%Z then (t, id) :: l
      else if (t =? t')%Z then (t, id) :: l'
      else (t', id') :: tick_insert t id l'
  end.

(** [BTreeMap::remove]. *)
Definition tick_remove (t : Z) (l : list (Z * string)) : list (Z * string) :=
  filter (fun e => e.1 <> t) l.

Definition bump (i : Inner) : Z * Inner :=
  (next_tick i, {| entries := entries i; recency := recency i;
                   next_tick := ((next_tick i + 1) mod 2 ^ 64)%Z |}).

Definition remove (id : string) (i : Inner) : Inner :=
  match entries i !! id with
  | None => i
  | Some e => {| entries := delete id (entries i); recency := tick_remove (tick e) (recency i);
                 next_tick := next_tick i |}
  end.

(** One reading of the clock for the whole sweep. *)
Definition inner_evict_expired (now ttl : Z) (i : Inner) : Inner :=
  let expired := (map_to_list (filter (fun e => (ttl < elapsed now (last_accessed e.2))%Z) (entries i))).*1 in
  foldr remove i expired.

Definition new (ttl : Z) (max_entries : nat) : KeyCache := {|
  inner := {| entries := ∅; recency := []; next_tick := 0 |}; ttl := ttl; max_entries := max_entries
|}.

Definition default_cache : KeyCache := new DEFAULT_TTL DEFAULT_MAX_ENTRIES.

(** [now] is read by the expiry check, [now'] by the refresh. *)
Definition get (id : string) (now now' : Z) (c : KeyCache) : option V * KeyCache :=
  match entries (inner c) !! id with
  | None => (None, c)
  | Some entry =>
      if (ttl c <? elapsed now (last_accessed entry))%Z then (None, set_inner c (remove id (inner c)))
      else
        let '(t, i) := bump (inner c) in
        let i := {| entries := <[id := {| entry_key := entry_key entry; last_accessed := now';
                                          tick := t |}]> (entries i);
                    recency := tick_insert t id (tick_remove (tick entry) (recency i));
                    next_tick := next_tick i |} in
        (Some (entry_key entry), set_inner c i)
  end.

(** [now] is read by the sweep, [now'] for the new entry. *)
Definition insert (id : string) (key : V) (now now' : Z) (c : KeyCache) : KeyCache :=
  let i := remove id (inner_evict_expired now (ttl c) (inner c)) in
  let i := if (max_entries c <=? size (entries i))%nat then
             match recency i with
             | [] => i
             | (_, lru_id) :: _ => remove lru_id i
             end
           else i in
  let '(t, i) := bump i in
  set_inner c {| entries := <[id := {| entry_key := key; last_accessed := now'; tick := t |}]> (entries i);
                 recency := tick_insert t id (recency i);
                 next_tick := next_tick i |}.

Definition clear (c : KeyCache) : KeyCache :=
  set_inner c {| entries := ∅; recency := []; next_tick := next_tick (inner c) |}.

Definition evict_expired (now : Z) (c : KeyCache) : KeyCache :=
  set_inner c (inner_evict_expired now (ttl c) (inner c)).

Definition cache_len (c : KeyCache) : nat := size (entries (inner c)).

Definition cache_is_empty (c : KeyCache) : bool := (cache_len c =? 0)%nat.

(** ** The specification: a list in order of last use *)

(** An entry of the specification: id, value, time of last use; least recently
    used first. *)
Abbreviation Lru := (list (string * (V * Z))).

Definition lru_get (ttl : Z) (id : string) (now now' : Z) (l : Lru) : option V * Lru :=
  match list_find (fun e => e.1 = id) l with
  | None => (None, l)
  | Some (_, (_, (v, last))) =>
      let rest := filter (fun e => e.1 <> id) l in
      if (ttl <? elapsed now last)%Z then (None, rest) else (Some v, rest ++ [(id, (v, now'))])
  end.

Definition lru_insert (ttl : Z) (cap : nat) (id : string) (v : V) (now now' : Z) (l : Lru) : Lru :=
  let l := filter (fun e => e.1 <> id) (filter (fun e => elapsed now e.2.2 <= ttl)%Z l) in
  let l := if (cap <=? length l)%nat then tail l else l in
  l ++ [(id, (v, now'))].

(** ** The refinement *)

Definition slot (e : string * CacheEntry) : Z * string := (tick e.2, e.1).
Definition view (e : string * CacheEntry) : string * (V * Z) := (e.1, (entry_key e.2, last_accessed e.2)).

(** The state is the list [l] of its entries in the order of their ticks. *)
Record repr (i : Inner) (l : list (string * CacheEntry)) : Prop := {
  repr_ids : NoDup l.*1;
  repr_sorted : StronglySorted (fun a b => tick a.2 < tick b.2)%Z l;
  repr_next : Forall (fun e => tick e.2 < next_tick i)%Z l;
  repr_entries : entries i = list_to_map l;
  repr_recency : recency i = slot <$> l
}.

(** The specification's view of a cache. *)
Definition implements (c : KeyCache) (l : Lru) : Prop :=
  exists es, repr (inner c) es /\ l = view <$> es.

Lemma repr_lookup i l id e : repr i l -> entries i !! id = Some e <-> (id, e) ∈ l.
Proof.
  intros [Hid _ _ -> _]. split; [apply elem_of_list_to_map_2|]. by apply elem_of_list_to_map_1.
Qed.

Lemma repr_lookup_None i l id : repr i l -> entries i !! id = None <-> id ∉ l.*1.
Proof. intros [_ _ _ -> _]. by rewrite not_elem_of_list_to_map. Qed.

(** Entries with the same tick are the same. *)
Lemma repr_tick_inj i l a b : repr i l -> a ∈ l -> b ∈ l -> tick a.2 = tick b.2 -> a = b.
Proof.
  intros [_ Hs _ _ _]. induction Hs as [|x l _ IH Hx]; [by intros ?%not_elem_of_nil|].
  rewrite Forall_forall in Hx. rewrite !elem_of_cons.
  intros [->|Ha] [->|Hb] Heq; [done| | |by apply IH].
  - specialize (Hx _ Hb). lia.
  - specialize (Hx _ Ha). lia.
Qed.

Lemma repr_filter i l (P : string * CacheEntry -> Prop) `{forall x, Decision (P x)} es r :
  repr i l -> es = list_to_map (filter P l) -> r = slot <$> filter P l ->
  repr {| entries := es; recency := r; next_tick := next_tick i |} (filter P l).
Proof.
  intros [Hid Hs Hn _ _] -> ->. split; cbn; [|by apply sorted_filter|by apply Forall_filter|done|done].
  eapply sublist_NoDup; [exact Hid|]. apply fmap_sublist, sublist_filter.
Qed.

Lemma repr_remove i l id : repr i l -> repr (remove id i) (filter (fun e => e.1 <> id) l).
Proof.
  intros Hr. unfold remove. destruct (entries i !! id) as [e|] eqn:He.
  - apply (repr_lookup _ _ _ _ Hr) in He. apply repr_filter; [done| |].
    + destruct Hr as [_ _ _ -> _]. apply map_eq. intros k. destruct (decide (k = id)) as [->|Hne].
      * rewrite lookup_delete_eq. symmetry. apply not_elem_of_list_to_map.
        intros ([k' x] & -> & [? _]%list_elem_of_filter)%list_elem_of_fmap. done.
      * rewrite lookup_delete_ne by done. clear He. induction l as [|[k' x] l IH]; [done|].
        cbn [list_to_map foldr]. rewrite filter_cons. case_decide as Hk; cbn.
        -- destruct (decide (k' = k)) as [->|]; [by rewrite !lookup_insert_eq|].
           by rewrite !lookup_insert_ne.
        -- cbn in Hk. by rewrite lookup_insert_ne by congruence.
    + rewrite (repr_recency _ _ Hr). unfold tick_remove. symmetry. apply fmap_filter.
      apply Forall_forall. intros x Hx. cbn. split; intros Hne Heq; apply Hne.
      * by rewrite (repr_tick_inj _ _ _ _ Hr Hx He Heq).
      * apply (repr_lookup _ _ _ _ Hr) in He. destruct x as [k x]. cbn in *. subst k.
        apply (repr_lookup _ _ _ _ Hr) in Hx. congruence.
  - assert (Hl : filter (fun e => e.1 <> id) l = l).
    { apply filter_all. apply Forall_forall. intros x Hx Heq.
      apply (repr_lookup_None _ _ _ Hr) in He. apply He. apply list_elem_of_fmap. by exists x. }
    by rewrite Hl.
Qed.

Lemma repr_evict i l now limit :
  repr i l ->
  repr (inner_evict_expired now limit i) (filter (fun e => elapsed now (last_accessed e.2) <= limit)%Z l).
Proof.
  intros Hr. unfold inner_evict_expired.
  set (ids := (map_to_list (filter _ _)).*1).
  assert (Hids : forall x, x ∈ l -> x.1 ∈ ids <-> (limit < elapsed now (last_accessed x.2))%Z).
  { intros [k e] Hx. apply (repr_lookup _ _ _ _ Hr) in Hx. subst ids. rewrite list_elem_of_fmap. split.
    - intros ([k' e'] & Hk & Hin). apply elem_of_map_to_list, map_lookup_filter_Some in Hin as [He Hlt].
      cbn in *. congruence.
    - intros Hlt. exists (k, e). split; [done|]. by apply elem_of_map_to_list, map_lookup_filter_Some. }
  assert (Hfold : repr (foldr remove i ids) (filter (fun e => e.1 ∉ ids) l)).
  { clear Hids. revert ids. induction ids as [|k ids IH]; cbn.
    - rewrite filter_all; [done|]. apply Forall_forall. intros x _. apply not_elem_of_nil.
    - apply (repr_remove _ _ k) in IH. rewrite list_filter_filter in IH.
      erewrite list_filter_iff; [exact IH|]. intros x. cbn. rewrite not_elem_of_cons. done. }
  rewrite (filter_Forall_iff _ (fun e => e.1 ∉ ids)); [exact Hfold|].
  apply Forall_forall. intros x Hx. rewrite (Hids x Hx). lia.
Qed.

Lemma tick_insert_last t id l : Forall (fun e => e.1 < t)%Z l -> tick_insert t id l = l ++ [(t, id)].
Proof.
  induction 1 as [|[t' id'] l Ht _ IH]; [done|]. cbn in *.
  rewrite (proj2 (Z.ltb_ge t t')), (proj2 (Z.eqb_neq t t')), IH by lia. done.
Qed.

(** The newest entry goes to the end. *)
Lemma repr_push i l id v last :
  repr i l -> id ∉ l.*1 -> (0 <= next_tick i < 2 ^ 64 - 1)%Z ->
  let '(t, i') := bump i in
  let e := {| entry_key := v; last_accessed := last; tick := t |} in
  repr {| entries := <[id := e]> (entries i'); recency := tick_insert t id (recency i');
          next_tick := next_tick i' |} (l ++ [(id, e)]).
Proof.
  intros [Hid Hs Hn He Hrec] Hnew Hb. cbn.
  assert (Hnext : ((next_tick i + 1) mod 2 ^ 64)%Z = (next_tick i + 1)%Z) by (apply Z.mod_small; lia).
  split; cbn.
  - rewrite fmap_app. apply NoDup_app. split_and!; [done| |apply NoDup_singleton].
    intros k Hk. cbn. rewrite list_elem_of_singleton. by intros ->.
  - clear -Hs Hn. induction Hs as [|x l _ IH Hx]; cbn; [by repeat constructor|].
    apply Forall_cons in Hn as [Hlt Hn]. constructor; [by apply IH|].
    apply Forall_app. split; [done|]. by repeat constructor.
  - rewrite Hnext. apply Forall_app. split; [|repeat constructor; cbn; lia].
    eapply Forall_impl; [exact Hn|]. intros x. cbn. lia.
  - rewrite list_to_map_app, <- He. apply map_eq. intros k. destruct (decide (k = id)) as [->|Hne].
    + rewrite lookup_insert_eq, lookup_union_r; [by cbn; rewrite lookup_insert_eq|].
      rewrite He. by apply not_elem_of_list_to_map.
    + rewrite lookup_insert_ne by done. symmetry. cbn. destruct (entries i !! k) as [x|] eqn:Hk.
      * by apply lookup_union_Some_l.
      * apply lookup_union_None. split; [done|]. by rewrite lookup_insert_ne, lookup_empty.
  - rewrite tick_insert_last, Hrec, fmap_app; [done|]. rewrite Hrec. apply Forall_fmap.
    eapply Forall_impl; [exact Hn|]. by intros x.
Qed.

Lemma repr_size i l : repr i l -> size (entries i) = length l.
Proof.
  intros [Hid _ _ -> _]. rewrite <- length_map_to_list. by rewrite map_to_list_to_map.
Qed.

Lemma view_filter_id (l : list (string * CacheEntry)) id :
  view <$> filter (fun e => e.1 <> id) l = filter (fun e => e.1 <> id) (view <$> l).
Proof. apply fmap_filter. by apply Forall_forall. Qed.

Lemma not_in_filter {B} (l : list (string * B)) id : id ∉ (filter (fun e => e.1 <> id) l).*1.
Proof. intros (x & -> & [? _]%list_elem_of_filter)%list_elem_of_fmap. done. Qed.

Lemma find_view (l : list (string * CacheEntry)) id e :
  NoDup l.*1 -> (id, e) ∈ l ->
  exists n, list_find (fun e => e.1 = id) (view <$> l) = Some (n, (id, (entry_key e, last_accessed e))).
Proof.
  intros Hnd Hin. apply list_elem_of_lookup in Hin as [n Hn]. exists n.
  apply list_find_Some. rewrite list_lookup_fmap, Hn. split_and!; [done|done|].
  intros j y Hj Hlt Heq. rewrite list_lookup_fmap in Hj.
  destruct (l !! j) as [[k x]|] eqn:Hlj; [|done]. injection Hj as <-. cbn in Heq. subst k.
  assert (j = n); [|lia]. apply (NoDup_lookup _ _ _ id Hnd); rewrite list_lookup_fmap, ?Hlj, ?Hn; done.
Qed.

Lemma next_tick_remove id i : next_tick (remove id i) = next_tick i.
Proof. unfold remove. by destruct (entries i !! id). Qed.

Lemma next_tick_evict now limit i : next_tick (inner_evict_expired now limit i) = next_tick i.
Proof.
  unfold inner_evict_expired. generalize ((map_to_list (filter
    (fun e => (limit < elapsed now (last_accessed e.2))%Z) (entries i))).*1). intros ids.
  induction ids as [|k ids IH]; [done|]. cbn. by rewrite next_tick_remove.
Qed.

Lemma get_refines c es id now now' :
  repr (inner c) es -> (0 <= next_tick (inner c) < 2 ^ 64 - 1)%Z ->
  let '(r, c') := get id now now' c in
  let '(r', l') := lru_get (ttl c) id now now' (view <$> es) in r = r' /\ implements c' l'.
Proof.
  intros Hr Hb.
  unfold get, lru_get. destruct (entries (inner c) !! id) as [e|] eqn:He.
  - apply (repr_lookup _ _ _ _ Hr) in He as Hin.
    destruct (find_view es id e (repr_ids _ _ Hr) Hin) as [n ->].
    pose proof (repr_remove _ _ id Hr) as Hrem.
    destruct (ttl c <? elapsed now (last_accessed e))%Z.
    + split; [done|]. eexists. split; [exact Hrem|]. symmetry. apply view_filter_id.
    + unfold remove in Hrem. rewrite He in Hrem.
      pose proof (repr_push _ _ id (entry_key e) now' Hrem (not_in_filter _ _) Hb) as Hp.
      cbn in *. split; [done|]. eexists. split.
      * cbn. rewrite <- insert_delete_eq. exact Hp.
      * by rewrite fmap_app, view_filter_id.
  - apply (repr_lookup_None _ _ _ Hr) in He. destruct (list_find _ _) as [[n [k x]]|] eqn:Hf.
    + exfalso. apply list_find_Some in Hf as (Hn & Hk & _). apply He. cbn in Hk. subst k.
      rewrite list_lookup_fmap in Hn. destruct (es !! n) as [[k y]|] eqn:Hes; [|done].
      injection Hn as -> _. apply list_elem_of_fmap. exists (id, y). split; [done|].
      by eapply list_elem_of_lookup_2.
    + split; [done|]. by exists es.
Qed.

Lemma insert_refines c es id v now now' :
  repr (inner c) es -> (0 <= next_tick (inner c) < 2 ^ 64 - 1)%Z ->
  implements (insert id v now now' c) (lru_insert (ttl c) (max_entries c) id v now now' (view <$> es)).
Proof.
  intros Hr Hb.
  pose proof (repr_evict _ _ now (ttl c) Hr) as He. apply (repr_remove _ _ id) in He.
  unfold insert, lru_insert. set (i1 := remove id _) in *. set (l1 := filter _ (filter _ es)) in *.
  assert (Hv : filter (fun e => e.1 <> id) (filter (fun e => elapsed now e.2.2 <= ttl c)%Z (view <$> es)) =
               view <$> l1).
  { subst l1. rewrite view_filter_id. f_equal. symmetry. apply fmap_filter. by apply Forall_forall. }
  rewrite Hv, length_fmap, (repr_size _ _ He).
  assert (Hnext : next_tick i1 = next_tick (inner c)) by (subst i1; by rewrite next_tick_remove, next_tick_evict).
  assert (Hid1 : id ∉ l1.*1) by apply not_in_filter.
  destruct (max_entries c <=? length l1)%nat.
  - rewrite (repr_recency _ _ He). destruct l1 as [|[lru x] l2]; cbn [fmap list_fmap slot fst snd].
    + pose proof (repr_push _ _ id v now' He Hid1) as Hp. rewrite Hnext in Hp. specialize (Hp Hb).
      cbn in Hp |- *. eexists. by split; [exact Hp|].
    + pose proof (repr_remove _ _ lru He) as Hrem.
      assert (Hl2 : filter (fun e => e.1 <> lru) ((lru, x) :: l2) = l2).
      { rewrite filter_cons_False by (cbn; tauto). apply filter_all. apply Forall_forall.
        intros y Hy Heq. apply (repr_ids _ _) in He. apply NoDup_cons in He as [Hnot _].
        apply Hnot. apply list_elem_of_fmap. by exists y. }
      rewrite Hl2 in Hrem. assert (Hn2 : next_tick (remove lru i1) = next_tick i1)
        by (unfold remove; by destruct (entries i1 !! lru)).
      assert (Hid2 : id ∉ l2.*1) by (rewrite fmap_cons, not_elem_of_cons in Hid1; tauto).
      pose proof (repr_push _ _ id v now' Hrem Hid2) as Hp. rewrite Hn2, Hnext in Hp. specialize (Hp Hb).
      cbn in Hp |- *. eexists. split; [exact Hp|]. by rewrite fmap_app.
  - pose proof (repr_push _ _ id v now' He Hid1) as Hp. rewrite Hnext in Hp. specialize (Hp Hb).
    cbn in Hp |- *. eexists. split; [exact Hp|]. by rewrite fmap_app.
Qed.

(** C31 The cache refines a list kept in order of last use: a lookup answers with
    the stored value, and makes it the most recent, exactly when it has not been
    idle longer than the limit, and drops it otherwise; an insertion drops what has
    been idle too long, replaces an entry of the same id and, when the cache is
    still full, gives up the least recently used entry and no other. *)
Theorem cache_refines_lru c l id v now now' :
  implements c l -> (0 <= next_tick (inner c) < 2 ^ 64 - 1)%Z ->
  (let '(r, c') := get id now now' c in
   let '(r', l') := lru_get (ttl c) id now now' l in r = r' /\ implements c' l') /\
  implements (insert id v now now' c) (lru_insert (ttl c) (max_entries c) id v now now' l).
Proof. intros (es & Hr & ->) Hb. split; [by apply get_refines|by apply insert_refines]. Qed.

Lemma new_implements ttl cap : implements (new ttl cap) [].
Proof. exists []. split; [|done]. by repeat constructor. Qed.

Lemma clear_implements c : implements (clear c) [].
Proof. exists []. split; [|done]. by repeat constructor. Qed.

(** The specification keeps to the capacity. *)
Lemma lru_insert_bounded ttl cap id v now now' l :
  (0 < cap)%nat -> (length l <= cap)%nat -> (length (lru_insert ttl cap id v now now' l) <= cap)%nat.
Proof.
  intros Hc Hl. unfold lru_insert. set (l1 := filter _ (filter _ l)).
  assert (Hl1 : (length l1 <= length l)%nat).
  { etrans; [apply sublist_length, sublist_filter|apply sublist_length, sublist_filter]. }
  destruct (Nat.leb_spec cap (length l1)) as [Hle|Hlt]; rewrite length_app; cbn; [|lia].
  destruct l1; cbn in *; lia.
Qed.
End Cache.
Arguments KeyCache : clear implicits.
Arguments CacheEntry : clear implicits.
Arguments Inner : clear implicits.

(** ** A concrete run: a cache of two entries *)

Definition demo_cache : KeyCache string := insert "b" "kb" 20 20 (insert "a" "ka" 10 10 (new 100 2)).
Definition demo_lru : list (string * (string * Z)) := [("a", ("ka", 10%Z)); ("b", ("kb", 20%Z))].

Lemma demo_implements : implements demo_cache demo_lru.
Proof.
  change demo_lru with (lru_insert 100 2 "b" "kb" 20 20 (lru_insert 100 2 "a" "ka" 10 10 [])).
  destruct (new_implements (V := string) 100 2) as (es & Hr & Hv).
  assert (H1 : implements (insert "a" "ka" 10 10 (new 100 2)) (lru_insert 100 2 "a" "ka" 10 10 [])).
  { rewrite Hv. by apply (insert_refines (new 100 2)). }
  destruct H1 as (es1 & Hr1 & Hv1). unfold demo_cache. rewrite Hv1.
  by apply (insert_refines (insert "a" "ka" 10 10 (new 100 2))).
Defined.

(** Using [a] saves it: the third insertion gives up [b]. *)
Lemma cache_refines_lru_witness :
  let used := (get "a" 30 30 demo_cache).2 in
  (get "a" 30 30 demo_cache).1 = Some "ka" /\
  implements used [("b", ("kb", 20%Z)); ("a", ("ka", 30%Z))] /\
  implements (insert "c" "kc" 40 40 used) [("a", ("ka", 30%Z)); ("c", ("kc", 40%Z))].
Proof.
  intros used. destruct (cache_refines_lru demo_cache demo_lru "a" "" 30 30 demo_implements) as [H _];
    [vm_compute; by split|].
  assert (E : get "a" 30 30 demo_cache = (Some "ka", used)) by (vm_compute; reflexivity).
  rewrite E in H. destruct H as [_ Hc]. split; [reflexivity|]. split; [exact Hc|].
  assert (Hn : next_tick (inner used) = 3%Z) by (vm_compute; reflexivity).
  destruct (cache_refines_lru used _ "c" "kc" 40 40 Hc) as [_ H]; [rewrite Hn; split; lia|].
  exact H.
Defined.
