(* ===== verification/Telemetry.v ===== *)
(** * Telemetry

    The bounded record buffer and the [tracing] subscriber of
    crates/oc-keyagent/src/telemetry.rs.  The Key-Agent exports nothing itself: it
    buffers records, whose field values are redacted unless their name is on an
    allowlist, and the Network-Agent drains them.  Values come rendered to text;
    clock readings, in milliseconds, are arguments.  The thread's span stack is a
    list with the innermost span first. *)

From Stdlib Require Import ZArith Lia Bool String.
From stdpp Require Import base list strings gmap.
From S2P Require Import Prelude Str.

Local Open Scope oc_scope.

Definition SAFE_FIELDS : list string :=
  ["message"; "method"; "chain_id"; "session_key_id"; "wallet_id"; "device_id"; "status"; "decision";
   "deny_reason"; "plugin"; "reason"; "outcome"; "duration_ms"; "count"; "len"; "code"; "kind";
   "error"; "seq"; "event_type"].

Definition REDACTED : string := "<redacted>".

Inductive TelemetryLevel := Trace | Debug | Info | Warn | Error.

(** The derived order. *)
Definition level_rank (l : TelemetryLevel) : Z :=
  match l with Trace => 0 | Debug => 1 | Info => 2 | Warn => 3 | Error => 4 end.

Definition level_str (l : TelemetryLevel) : string :=
  match l with Trace => "TRACE" | Debug => "DEBUG" | Info => "INFO" | Warn => "WARN" | Error => "ERROR" end.

Inductive RecordKind := SpanOpen | SpanClose | Event.

Record TelemetryRecord := {
  seq : Z;
  timestamp_ms : Z;
  level : TelemetryLevel;
  kind : RecordKind;
  target : string;
  name : string;
  span_id : option Z;
  parent_span_id : option Z;
  duration_ms : option Z;
  fields : list (string * string)
}.

Record TelemetryBatch := { records : list TelemetryRecord; dropped : Z }.

Definition batch_is_empty (b : TelemetryBatch) : bool := is_nil (records b) && (dropped b =? 0)%Z.

(** ** The buffer *)

Definition DEFAULT_CAPACITY : nat := 2048.

Record TelemetryBuffer := {
  inner : lock (list TelemetryRecord);
  capacity : nat;
  buf_dropped : Z;
  next_seq : Z;
  enabled : bool
}.

Definition with_capacity (capacity : nat) : TelemetryBuffer := {|
  inner := Held []; capacity := Nat.max capacity 1; buf_dropped := 0; next_seq := 0; enabled := false
|}.

Definition set_enabled (b : TelemetryBuffer) (on : bool) : TelemetryBuffer := {|
  inner := inner b; capacity := capacity b; buf_dropped := buf_dropped b; next_seq := next_seq b; enabled := on
|}.

Definition buf_len (b : TelemetryBuffer) : nat :=
  match inner b with Held l => length l | Poisoned => O end.

Definition buf_is_empty (b : TelemetryBuffer) : bool := (buf_len b =? 0)%nat.

Definition fetch_add (n : Z) : Z := ((n + 1) mod 2 ^ 64)%Z.

(** The number it takes, and the buffer. *)
Definition take_seq (b : TelemetryBuffer) : Z * TelemetryBuffer :=
  (next_seq b, {| inner := inner b; capacity := capacity b; buf_dropped := buf_dropped b;
                  next_seq := fetch_add (next_seq b); enabled := enabled b |}).

Definition push (r : TelemetryRecord) (b : TelemetryBuffer) : TelemetryBuffer :=
  if negb (enabled b) then b
  else
    match inner b with
    | Poisoned => b
    | Held buf =>
        let full := (capacity b <=? length buf)%nat in
        {| inner := Held ((if full then tail buf else buf) ++ [r]); capacity := capacity b;
           buf_dropped := if full then fetch_add (buf_dropped b) else buf_dropped b;
           next_seq := next_seq b; enabled := enabled b |}
    end.

Definition set_inner (b : TelemetryBuffer) (l : lock (list TelemetryRecord)) (d : Z) : TelemetryBuffer := {|
  inner := l; capacity := capacity b; buf_dropped := d; next_seq := next_seq b; enabled := enabled b
|}.

(** [drain]: everything; a poisoned buffer has no records. *)
Definition drain_all (b : TelemetryBuffer) : TelemetryBatch * TelemetryBuffer :=
  match inner b with
  | Held buf => ({| records := buf; dropped := buf_dropped b |}, set_inner b (Held []) 0)
  | Poisoned => ({| records := []; dropped := buf_dropped b |}, set_inner b Poisoned 0)
  end.

Definition drain_at_most (max : nat) (b : TelemetryBuffer) : TelemetryBatch * TelemetryBuffer :=
  match inner b with
  | Poisoned => ({| records := []; dropped := 0 |}, b)
  | Held buf =>
      let n := Nat.min max (length buf) in
      let rest := drop n buf in
      if (n =? 0)%nat || is_nil rest then
        ({| records := take n buf; dropped := buf_dropped b |}, set_inner b (Held rest) 0)
      else ({| records := take n buf; dropped := 0 |}, set_inner b (Held rest) (buf_dropped b))
  end.

(** ** Field capture *)

(** The collector's [record] methods: the value is kept for a safe name only. *)
Definition record_field (fs : list (string * string)) (field value : string) : list (string * string) :=
  fs ++ [(field, if existsb (String.eqb field) SAFE_FIELDS then value else REDACTED)].

(** A collector visits the values of a span or an event in order. *)
Definition collect (values : list (string * string)) : list (string * string) :=
  fold_left (fun fs '(n, v) => record_field fs n v) values [].

(** ** The subscriber *)

Record Metadata := { md_name : string; md_target : string; md_level : TelemetryLevel }.

Record SpanState := {
  span_name : string;
  span_target : string;
  span_level : TelemetryLevel;
  parent : option Z;
  opened_at_ms : Z;
  span_fields : list (string * string)
}.

Record TelemetrySubscriber := {
  buffer : TelemetryBuffer;
  max_level : TelemetryLevel;
  next_id : Z;
  spans : lock (gmap Z SpanState);
  stack : list Z
}.

Definition subscriber_new (b : TelemetryBuffer) (max_level : TelemetryLevel) : TelemetrySubscriber := {|
  buffer := b; max_level := max_level; next_id := 1; spans := Held ∅; stack := []
|}.

Definition current_span_id (s : TelemetrySubscriber) : option Z := head (stack s).

Definition is_enabled_for (s : TelemetrySubscriber) (m : Metadata) : bool :=
  (level_rank (max_level s) <=? level_rank (md_level m))%Z.

Definition set_buffer (s : TelemetrySubscriber) (b : TelemetryBuffer) : TelemetrySubscriber := {|
  buffer := b; max_level := max_level s; next_id := next_id s; spans := spans s; stack := stack s
|}.

Definition set_spans (s : TelemetrySubscriber) (sp : gmap Z SpanState) : TelemetrySubscriber := {|
  buffer := buffer s; max_level := max_level s; next_id := next_id s;
  spans := match spans s with Held _ => Held sp | Poisoned => Poisoned end; stack := stack s
|}.

Definition set_stack (s : TelemetrySubscriber) (st : list Z) : TelemetrySubscriber := {|
  buffer := buffer s; max_level := max_level s; next_id := next_id s; spans := spans s; stack := st
|}.

(** The map when its mutex can be locked. *)
Definition lock_spans (s : TelemetrySubscriber) : gmap Z SpanState :=
  match spans s with Held sp => sp | Poisoned => ∅ end.

Definition new_span (now : Z) (m : Metadata) (values : list (string * string)) (s : TelemetrySubscriber)
  : Z * TelemetrySubscriber :=
  let id := next_id s in
  let state := {| span_name := md_name m; span_target := md_target m; span_level := md_level m;
                  parent := current_span_id s; opened_at_ms := now; span_fields := collect values |} in
  (id, set_spans {| buffer := buffer s; max_level := max_level s; next_id := fetch_add id;
                    spans := spans s; stack := stack s |} (<[id := state]> (lock_spans s))).

Definition record_values (id : Z) (values : list (string * string)) (s : TelemetrySubscriber)
  : TelemetrySubscriber :=
  match lock_spans s !! id with
  | Some st => set_spans s (<[id := {| span_name := span_name st; span_target := span_target st;
                 span_level := span_level st; parent := parent st; opened_at_ms := opened_at_ms st;
                 span_fields := span_fields st ++ collect values |}]> (lock_spans s))
  | None => s
  end.

(** Take a sequence number and push. *)
Definition emit (mk : Z -> TelemetryRecord) (s : TelemetrySubscriber) : TelemetrySubscriber :=
  let '(n, b) := take_seq (buffer s) in set_buffer s (push (mk n) b).

Definition on_event (now : Z) (m : Metadata) (values : list (string * string)) (s : TelemetrySubscriber)
  : TelemetrySubscriber :=
  emit (fun n => {|
    seq := n; timestamp_ms := now; level := md_level m; kind := Event; target := md_target m;
    name := md_name m; span_id := current_span_id s; parent_span_id := stack s !! 1%nat;
    duration_ms := None; fields := collect values |}) s.

Definition enter (now : Z) (id : Z) (s : TelemetrySubscriber) : TelemetrySubscriber :=
  let s := set_stack s (id :: stack s) in
  match lock_spans s !! id with
  | None => s
  | Some st => emit (fun n => {|
      seq := n; timestamp_ms := now; level := span_level st; kind := SpanOpen; target := span_target st;
      name := span_name st; span_id := Some id; parent_span_id := parent st;
      duration_ms := None; fields := span_fields st |}) s
  end.

(** The innermost occurrence goes. *)
Fixpoint pop_span (id : Z) (l : list Z) : list Z :=
  match l with
  | [] => []
  | x :: l' => if (x =? id)%Z then l' else x :: pop_span id l'
  end.

(** [now] for the record, [now'] for the duration. *)
Definition exit (now now' : Z) (id : Z) (s : TelemetrySubscriber) : TelemetrySubscriber :=
  let s := set_stack s (pop_span id (stack s)) in
  match lock_spans s !! id with
  | None => s
  | Some st => emit (fun n => {|
      seq := n; timestamp_ms := now; level := span_level st; kind := SpanClose; target := span_target st;
      name := span_name st; span_id := Some id; parent_span_id := parent st;
      duration_ms := Some (saturating_sub now' (opened_at_ms st)); fields := span_fields st |}) s
  end.

Definition try_close (id : Z) (s : TelemetrySubscriber) : TelemetrySubscriber :=
  set_spans s (delete id (lock_spans s)).

(** ** Redaction *)

Definition safe_field (f : string * string) : Prop := f.1 ∈ SAFE_FIELDS \/ f.2 = REDACTED.

Definition redacted (r : TelemetryRecord) : Prop := Forall safe_field (fields r).

Lemma record_field_safe fs n v : Forall safe_field fs -> Forall safe_field (record_field fs n v).
Proof.
  intros H. apply Forall_app; split; [done|]. apply Forall_singleton. unfold safe_field. cbn [fst snd].
  destruct (existsb (String.eqb n) SAFE_FIELDS) eqn:E; [left|by right].
  apply existsb_exists in E as (x & Hx & ->%String.eqb_eq). by apply list_elem_of_In.
Qed.

Lemma collect_safe values : Forall safe_field (collect values).
Proof.
  unfold collect. cut (forall fs, Forall safe_field fs ->
    Forall safe_field (fold_left (fun fs '(n, v) => record_field fs n v) values fs)); [intros H; by apply H|].
  induction values as [|[n v] values IH]; intros fs Hfs; [done|]. cbn [fold_left]. apply IH.
  by apply record_field_safe.
Qed.

(** Everything the agent does with telemetry, and the batches handed out. *)
Inductive traced : TelemetrySubscriber -> list TelemetryBatch -> Prop :=
| traced_new b lv : inner b = Held [] -> traced (subscriber_new b lv) []
| traced_span s bs now m vs : traced s bs -> traced (new_span now m vs s).2 bs
| traced_record s bs id vs : traced s bs -> traced (record_values id vs s) bs
| traced_event s bs now m vs : traced s bs -> traced (on_event now m vs s) bs
| traced_enter s bs now id : traced s bs -> traced (enter now id s) bs
| traced_exit s bs now now' id : traced s bs -> traced (exit now now' id s) bs
| traced_close s bs id : traced s bs -> traced (try_close id s) bs
| traced_enable s bs on : traced s bs -> traced (set_buffer s (set_enabled (buffer s) on)) bs
| traced_drain s bs : traced s bs ->
    traced (set_buffer s (drain_all (buffer s)).2) (bs ++ [(drain_all (buffer s)).1])
| traced_drain_some s bs max : traced s bs ->
    traced (set_buffer s (drain_at_most max (buffer s)).2) (bs ++ [(drain_at_most max (buffer s)).1]).

(** The records in a buffer. *)
Definition buffered (b : TelemetryBuffer) : list TelemetryRecord :=
  match inner b with Held l => l | Poisoned => [] end.

Definition clean (s : TelemetrySubscriber) : Prop :=
  Forall redacted (buffered (buffer s)) /\
  map_Forall (fun _ st => Forall safe_field (span_fields st)) (lock_spans s).

Lemma push_redacted r b : redacted r -> Forall redacted (buffered b) -> Forall redacted (buffered (push r b)).
Proof.
  intros Hr Hb. unfold push. destruct (enabled b); [|done]. cbn [negb].
  unfold buffered in *. destruct (inner b) as [l|] eqn:Hi; [|by rewrite Hi]. cbn [inner].
  apply Forall_app; split; [|by apply Forall_singleton].
  destruct (capacity b <=? length l)%nat; [|done]. destruct l; [done|]. by apply Forall_cons in Hb as [_ Hb].
Qed.

Lemma emit_clean mk s : (forall n, redacted (mk n)) -> clean s -> clean (emit mk s).
Proof. intros Hr [Hb Hs]. split; [|exact Hs]. by apply push_redacted. Qed.

Lemma set_spans_clean s sp : clean s ->
  map_Forall (fun _ st => Forall safe_field (span_fields st)) sp -> clean (set_spans s sp).
Proof.
  intros [Hb Hs] Hsp. split; [exact Hb|]. unfold lock_spans, set_spans. cbn [spans].
  destruct (spans s); [done|]. apply map_Forall_empty.
Qed.

Lemma drain_clean (o : TelemetryBatch * TelemetryBuffer) b :
  o = drain_all b \/ (exists max, o = drain_at_most max b) -> Forall redacted (buffered b) ->
  Forall redacted (records o.1) /\ Forall redacted (buffered o.2).
Proof.
  unfold buffered. intros [->|[max ->]] Hb; unfold drain_all, drain_at_most.
  - destruct (inner b); cbn; by split.
  - destruct (inner b) as [l|] eqn:Hi; [|split; [done|cbn; by rewrite Hi]].
    destruct ((Nat.min max (length l) =? 0)%nat || _); cbn; split;
      by (apply Forall_take || apply Forall_drop).
Qed.

Lemma traced_clean s bs : traced s bs -> clean s /\ Forall (fun b => Forall redacted (records b)) bs.
Proof.
  induction 1 as [b lv Hb|s bs now m vs _ [IH ?]|s bs id vs _ [IH ?]|s bs now m vs _ [IH ?]
    |s bs now id _ [IH ?]|s bs now now' id _ [IH ?]|s bs id _ [IH ?]|s bs on _ [IH ?]
    |s bs _ [IH ?]|s bs max _ [IH ?]].
  - split; [|done]. split; [unfold buffered; cbn; by rewrite Hb|apply map_Forall_empty].
  - split; [|done]. apply set_spans_clean; [exact IH|]. apply map_Forall_insert_2; [apply collect_safe|apply IH].
  - split; [|done]. unfold record_values. destruct (lock_spans s !! id) as [st|] eqn:He; [|done].
    apply set_spans_clean; [done|]. apply map_Forall_insert_2; [|apply IH].
    apply Forall_app; split; [|apply collect_safe]. by eapply (proj2 IH).
  - split; [|done]. apply emit_clean; [|done]. intros n. apply collect_safe.
  - split; [|done]. unfold enter. destruct (lock_spans _ !! id) as [st|] eqn:He; [|exact IH].
    apply emit_clean; [|exact IH]. intros n. by eapply (proj2 IH).
  - split; [|done]. unfold exit. destruct (lock_spans _ !! id) as [st|] eqn:He; [|exact IH].
    apply emit_clean; [|exact IH]. intros n. by eapply (proj2 IH).
  - split; [|done]. apply set_spans_clean; [done|]. apply map_Forall_delete, IH.
  - split; [|done]. exact IH.
  - destruct (drain_clean _ (buffer s) (or_introl eq_refl) (proj1 IH)) as [H1 H2].
    split; [by split; [|apply IH]|]. apply Forall_app; split; [done|by apply Forall_singleton].
  - destruct (drain_clean _ (buffer s) (or_intror (ex_intro _ max eq_refl)) (proj1 IH)) as [H1 H2].
    split; [by split; [|apply IH]|]. apply Forall_app; split; [done|by apply Forall_singleton].
Qed.

(** C35 Whatever spans, fields and events the agent records, every value that leaves
    in a drained batch belongs to a field on the allowlist or is the placeholder. *)
Theorem drained_redacted s bs b r n v :
  traced s bs -> b ∈ bs -> r ∈ records b -> (n, v) ∈ fields r -> n ∈ SAFE_FIELDS \/ v = REDACTED.
Proof.
  intros Ht Hb Hr Hf. destruct (traced_clean s bs Ht) as [_ Hbs].
  rewrite Forall_forall in Hbs. specialize (Hbs b Hb). rewrite Forall_forall in Hbs.
  specialize (Hbs r Hr). unfold redacted in Hbs. rewrite Forall_forall in Hbs. exact (Hbs (n, v) Hf).
Qed.

(** ** Nothing is lost silently *)

(** Runs of a buffer: the records pushed while it was enabled, the records handed
    out, and the sum of the reported losses. *)
Inductive run : TelemetryBuffer -> list TelemetryRecord -> list TelemetryRecord -> Z -> Prop :=
| run_new c : run (with_capacity c) [] [] 0
| run_enable b ps ds lost on : run b ps ds lost -> run (set_enabled b on) ps ds lost
| run_seq b ps ds lost : run b ps ds lost -> run (take_seq b).2 ps ds lost
| run_push b ps ds lost r : run b ps ds lost -> (Z.of_nat (length ps) < u64_max)%Z ->
    run (push r b) (if enabled b then ps ++ [r] else ps) ds lost
| run_drain b ps ds lost : run b ps ds lost ->
    run (drain_all b).2 ps (ds ++ records (drain_all b).1) (lost + dropped (drain_all b).1)
| run_drain_some b ps ds lost max : run b ps ds lost ->
    run (drain_at_most max b).2 ps (ds ++ records (drain_at_most max b).1)
        (lost + dropped (drain_at_most max b).1).

(** The buffer holds the newest records; with what was handed out they are the
    pushed ones in order, less as many as have been or will be reported lost. *)
Record accounted (b : TelemetryBuffer) (ps ds : list TelemetryRecord) (lost : Z) : Prop := {
  acc_held : exists l, inner b = Held l;
  acc_order : sublist (ds ++ buffered b) ps;
  acc_newest : suffix (buffered b) ps;
  acc_count : (Z.of_nat (length ps) =
    Z.of_nat (length ds) + Z.of_nat (length (buffered b)) + lost + buf_dropped b)%Z;
  acc_nonneg : (0 <= lost /\ 0 <= buf_dropped b)%Z;
  acc_bounded : (1 <= capacity b /\ length (buffered b) <= capacity b)%nat
}.

Lemma push_accounted b ps ds lost r :
  accounted b ps ds lost -> (Z.of_nat (length ps) < u64_max)%Z ->
  accounted (push r b) (if enabled b then ps ++ [r] else ps) ds lost.
Proof.
  intros [(l & Hl) Ho Hn Hc Hp Hb] Hps. unfold push. destruct (enabled b); cbn [negb]; [|by split; eauto].
  unfold buffered in *. rewrite Hl in *.
  assert (Hone : length [r] = 1%nat) by done.
  destruct (Nat.leb_spec (capacity b) (length l)) as [Hfull|Hroom].
  - destruct l as [|x l]; [cbn in Hfull; lia|]. cbn [tail] in *.
    split; cbn [buffered inner buf_dropped capacity]; [by eauto|..].
    + rewrite app_assoc. apply sublist_app; [|done]. etrans; [|exact Ho].
      apply sublist_app; [done|]. by apply sublist_cons.
    + apply suffix_app. destruct Hn as [k ->]. exists (k ++ [x]). by rewrite <- app_assoc.
    + unfold fetch_add. rewrite !length_app, Hone. cbn [length] in Hc. rewrite Z.mod_small; unfold u64_max in *; lia.
    + unfold fetch_add. rewrite Z.mod_small; unfold u64_max in *; lia.
    + rewrite length_app, Hone. cbn [length] in Hb. lia.
  - split; cbn [buffered inner buf_dropped capacity]; [by eauto|..].
    + rewrite app_assoc. by apply sublist_app.
    + by apply suffix_app.
    + rewrite !length_app, Hone. lia.
    + done.
    + rewrite length_app, Hone. lia.
Qed.

Lemma drain_some_accounted b ps ds lost max :
  accounted b ps ds lost ->
  accounted (drain_at_most max b).2 ps (ds ++ records (drain_at_most max b).1)
    (lost + dropped (drain_at_most max b).1).
Proof.
  intros [(l & Hl) Ho Hn Hc Hp Hb]. unfold drain_at_most, buffered in *. rewrite Hl in *.
  set (n := Nat.min max (length l)).
  assert (Hlen : length (take n l) = n) by (rewrite length_take; lia).
  destruct (_ || _); split; cbn [buffered fst snd inner buf_dropped set_inner capacity records dropped]; rewrite <- ?app_assoc, ?take_drop;
    try done; try (by eauto); rewrite ?length_app, ?Hlen, ?length_drop; try lia;
    (destruct Hn as [k ->]; exists (k ++ take n l); by rewrite <- app_assoc, take_drop).
Qed.

Lemma drain_all_accounted b ps ds lost :
  accounted b ps ds lost ->
  accounted (drain_all b).2 ps (ds ++ records (drain_all b).1) (lost + dropped (drain_all b).1).
Proof.
  intros [(l & Hl) Ho Hn Hc Hp Hb]. unfold drain_all, buffered in *. rewrite Hl in *.
  split; cbn [buffered fst snd inner buf_dropped set_inner capacity records dropped]; rewrite ?app_nil_r;
    try done; try (by eauto); rewrite ?length_app; cbn [length]; try lia. apply suffix_nil.
Qed.

Lemma run_accounted b ps ds lost : run b ps ds lost -> accounted b ps ds lost.
Proof.
  induction 1 as [c|b ps ds lost on _ IH|b ps ds lost _ IH|b ps ds lost r _ IH|b ps ds lost _ IH|b ps ds lost max _ IH].
  - split; cbn; try done; [by eauto|lia].
  - by destruct IH.
  - by destruct IH.
  - by apply push_accounted.
  - by apply drain_all_accounted.
  - by apply drain_some_accounted.
Qed.

(** A consumer can account for every record: what was handed out and what is
    still buffered are recorded ones in order, the buffer holds the newest and is
    within its capacity, and exactly as many are missing as the batches have
    reported lost or the next complete drain will. *)
Theorem telemetry_accounts b ps ds lost :
  run b ps ds lost ->
  sublist (ds ++ buffered b) ps /\ suffix (buffered b) ps /\
  (length (buffered b) <= capacity b)%nat /\
  (Z.of_nat (length ps) =
    Z.of_nat (length (ds ++ records (drain_all b).1)) + lost + dropped (drain_all b).1)%Z.
Proof.
  intros H%run_accounted. pose proof (drain_all_accounted b ps ds lost H) as [_ _ _ Hc _ _].
  destruct H as [_ Ho Hn _ _ Hb]. split_and!; [done|done|by apply Hb|].
  unfold drain_all in *. destruct (inner b); cbn in Hc |- *; lia.
Qed.

(** ** A concrete run *)

Definition demo_metadata : Metadata := {| md_name := "sign"; md_target := "oc_keyagent"; md_level := Info |}.

Definition demo_subscriber : TelemetrySubscriber :=
  on_event 5 demo_metadata [("wallet_id", "w"); ("passphrase", "hunter2")]
    (set_buffer (subscriber_new (with_capacity 2) Info)
       (set_enabled (with_capacity 2) true)).

Definition demo_drained := drain_at_most 5 (buffer demo_subscriber).

Lemma drained_redacted_witness :
  let s := set_buffer demo_subscriber demo_drained.2 in
  let r := default {| seq := 0; timestamp_ms := 0; level := Info; kind := Event; target := ""; name := "";
                      span_id := None; parent_span_id := None; duration_ms := None; fields := [] |}
             (head (records demo_drained.1)) in
  fields r = [("wallet_id", "w"); ("passphrase", REDACTED)] /\
  ("passphrase" ∈ SAFE_FIELDS \/ REDACTED = REDACTED).
Proof.
  intros s r. split; [reflexivity|].
  refine (drained_redacted s ([] ++ [demo_drained.1]) demo_drained.1 r "passphrase" REDACTED _ _ _ _).
  - apply traced_drain_some. apply traced_event. exact (traced_enable _ _ true (traced_new (with_capacity 2) Info eq_refl)).
  - apply list_elem_of_here.
  - apply list_elem_of_here.
  - apply list_elem_of_further, list_elem_of_here.
Defined.

Definition demo_record (n : Z) : TelemetryRecord := {|
  seq := n; timestamp_ms := n; level := Info; kind := Event; target := "t"; name := "n";
  span_id := None; parent_span_id := None; duration_ms := None; fields := []
|}.

(** Three records into a buffer for two. *)
Lemma telemetry_accounts_witness :
  let b := push (demo_record 3) (push (demo_record 2) (push (demo_record 1) (set_enabled (with_capacity 2) true))) in
  let ps := [demo_record 1; demo_record 2; demo_record 3] in
  (sublist ([] ++ buffered b) ps /\ suffix (buffered b) ps /\ (length (buffered b) <= capacity b)%nat /\
   (Z.of_nat (length ps) = Z.of_nat (length ([] ++ records (drain_all b).1)) + 0 + dropped (drain_all b).1)%Z) /\
  dropped (drain_all b).1 = 1%Z.
Proof.
  intros b ps. split; [|reflexivity]. apply (telemetry_accounts b ps [] 0).
  refine (run_push _ _ _ _ (demo_record 3) (run_push _ _ _ _ (demo_record 2)
    (run_push _ _ _ _ (demo_record 1) (run_enable _ _ _ _ true (run_new 2)) _) _) _); reflexivity.
Defined.
