(* ===== verification/WalletFile.v ===== *)
(** * Wallet files

    The records of crates/oc-core/src/wallet_file.rs, the on-disk format of an
    encrypted wallet, and its version check. *)

From Stdlib Require Import ZArith Lia Bool String.
From stdpp Require Import base list strings.
From S2P Require Import Prelude Str Json.
From S2P Require Chain.

Local Open Scope oc_scope.

Definition CURRENT_VERSION : Z := 2.
Definition MAX_SUPPORTED_VERSION : Z := CURRENT_VERSION.

Record WalletAccount := {
  account_id : string;
  address : string;
  chain_id : string;
  derivation_path : string
}.

Inductive KeyType := Mnemonic | PrivateKey.

#[global] Instance KeyType_eq_dec : EqDecision KeyType.
Proof. solve_decision. Defined.

Section WalletFile.
Context {S : SerdeNumber}.

Record EncryptedWallet := {
  oc_version : Z;
  id : string;
  name : string;
  created_at : string;
  chain_type : option Chain.ChainType;
  accounts : list WalletAccount;
  crypto : Value;
  key_type : KeyType;
  metadata : Value
}.

Inductive WalletFileError := UnsupportedVersion (found max_supported : Z).

Definition show_wallet_file_error (e : WalletFileError) : string :=
  match e with
  | UnsupportedVersion found max =>
      "unsupported wallet file version " +:+ fmt_Z found +:+ " (this build supports up to " +:+
      fmt_Z max +:+ "); upgrade OneCipher to open this wallet"
  end.

(** [now] is the text of the clock. *)
Definition wallet_new (now wid nm : string) (accs : list WalletAccount) (c : Value) (kt : KeyType)
  : EncryptedWallet := {|
  oc_version := CURRENT_VERSION; id := wid; name := nm; created_at := now; chain_type := None;
  accounts := accs; crypto := c; key_type := kt; metadata := Null
|}.

Definition validate_version (version : Z) : result WalletFileError unit :=
  if (MAX_SUPPORTED_VERSION <? version)%Z then Err (UnsupportedVersion version MAX_SUPPORTED_VERSION)
  else Ok tt.

(** [Deserialize]: the derived reader of the fields, then the version check; the
    error is its text. *)
Definition deserialize (fields : result string EncryptedWallet) : result string EncryptedWallet :=
  let? w := fields in
  let? _ := result_map_err show_wallet_file_error (validate_version (oc_version w)) in
  Ok w.

Lemma deserialize_supported fields w : deserialize fields = Ok w ->
  fields = Ok w /\ (oc_version w <= MAX_SUPPORTED_VERSION)%Z.
Proof.
  unfold deserialize, validate_version. destruct fields as [x|]; [|done]. cbn [result_bind].
  destruct (Z.ltb_spec MAX_SUPPORTED_VERSION (oc_version x)); [done|]. by intros [= <-].
Qed.
End WalletFile.
