(* ===== verification/Vault.v ===== *)
(** * The wallet vault

    crates/oc-vault/src/vault.rs: wallet files under [<vault>/wallets], one JSON
    file per wallet, listed, looked up by id or name, saved atomically and deleted.
    Directories are not in the disk map: their creation, mode and listing are
    readings of the world ([VaultIo]). *)

From Stdlib Require Import ZArith Lia Bool String Ascii Sorting.Sorted.
From stdpp Require Import base list strings gmap.
From S2P Require Import Prelude Str Names Files Json Frame WalletFile DemoText.

Local Open Scope oc_scope.

Inductive OcVaultError {io_error json_error : Type} :=
| WalletNotFound (id : string)
| AmbiguousWallet (name : string) (count : nat)
| WalletNameExists (name : string)
| VInvalidInput (message : string)
| InsecurePermissions (mode : Z)
| VIo (e : io_error)
| Serde (e : json_error)
| VCrypto (message : string)
| InvalidFormat (message : string)
| VUnsupportedVersion (found expected : Z).
Arguments OcVaultError : clear implicits.

(** [{:04o}]. *)
Definition fmt_octal4 (n : Z) : string :=
  let s := fmt_octal 12 n in
  String.substring 0 (4 - String.length s) "0000" +:+ s.

Definition show_vault_error {io_error json_error} (show_io : io_error -> string)
    (show_json : json_error -> string) (e : OcVaultError io_error json_error) : string :=
  match e with
  | WalletNotFound id => "wallet not found: '" +:+ id +:+ "'"
  | AmbiguousWallet name count =>
      "ambiguous wallet name '" +:+ name +:+ "' matches " +:+ fmt_Z (Z.of_nat count) +:+
      " wallets; use the wallet ID instead"
  | WalletNameExists name => "wallet name already exists: '" +:+ name +:+ "'"
  | VInvalidInput m => "invalid input: " +:+ m
  | InsecurePermissions mode =>
      "insecure vault permissions: mode " +:+ fmt_octal4 mode +:+ ", expected 0700"
  | VIo e => "I/O error: " +:+ show_io e
  | Serde e => "JSON error: " +:+ show_json e
  | VCrypto m => "crypto error: " +:+ m
  | InvalidFormat m => "invalid format: " +:+ m
  | VUnsupportedVersion found expected =>
      "unsupported backup container version: found " +:+ fmt_Z found +:+ ", expected " +:+ fmt_Z expected
  end.

(** The derived codec of a wallet's fields, as [serde_json] runs it; an error of
    the reader is its text. *)
Class WalletJson {S : SerdeNumber} (io_error json_error : Type) := {
  wallet_fields : string -> result string EncryptedWallet;
  wallet_to_json_pretty : EncryptedWallet -> result json_error string;
  vault_no_parent : Path -> io_error
}.

(** A wallet of a supported version reads back as it was written. *)
Class WalletJsonLaws {S : SerdeNumber} {io_error json_error} (J : WalletJson io_error json_error) : Prop :=
  wallet_roundtrip w s : wallet_to_json_pretty w = Ok s -> wallet_fields s = Ok w.

(** What one call meets in the file system, and reads of the process: which system
    call fails; the mode bits of the wallet directory; the order in which the
    directory is read; what the temporary file is named after. *)
Record VaultIo (io_error : Type) := {
  default_vault : string;
  create_dir_err : option io_error;
  dir_mode : result io_error Z;
  read_dir_err : option (bool * io_error);
  entry_order : list string -> list string;
  entry_err : option (nat * io_error);
  file_err : string -> option io_error;
  dir_err : option io_error;
  vault_faults : WriteFaults io_error;
  vault_pid : Z; vault_nanos : Z; vault_seq : Z;
  link_err : bool; is_symlink : bool;
  unlink_err : option io_error
}.
Arguments default_vault {io_error}.
Arguments create_dir_err {io_error}.
Arguments dir_mode {io_error}.
Arguments read_dir_err {io_error}.
Arguments entry_order {io_error}.
Arguments entry_err {io_error}.
Arguments file_err {io_error}.
Arguments dir_err {io_error}.
Arguments vault_faults {io_error}.
Arguments vault_pid {io_error}.
Arguments vault_nanos {io_error}.
Arguments vault_seq {io_error}.
Arguments link_err {io_error}.
Arguments is_symlink {io_error}.
Arguments unlink_err {io_error}.

(** [path.extension() == Some("json")]: a stem before the last dot. *)
Definition json_stem (name : string) : option string :=
  match strip_suffix ".json" name with
  | Some stem => if is_empty stem then None else Some stem
  | None => None
  end.

(** [wallets.sort_by(|a, b| b.created_at.cmp(&a.created_at))], which is stable. *)
Section Sort.
Context {S : SerdeNumber}.

Fixpoint insert_wallet (w : EncryptedWallet) (l : list EncryptedWallet) : list EncryptedWallet :=
  match l with
  | [] => [w]
  | x :: l' => match String.compare (created_at x) (created_at w) with
               | Gt => x :: insert_wallet w l'
               | _ => w :: l
               end
  end.

Definition sort_wallets (l : list EncryptedWallet) : list EncryptedWallet := fold_right insert_wallet [] l.
End Sort.

Section Vault.
Context {S : SerdeNumber} {io_error json_error : Type} {J : WalletJson io_error json_error}.

Abbreviation vault_result := (result (OcVaultError io_error json_error)).

Definition resolve_vault_path (io : VaultIo io_error) (vault : option string) : string :=
  default (default_vault io) vault.

(** The directory, as its path. *)
Definition wallets_dir (io : VaultIo io_error) (vault : option string) : vault_result string :=
  match create_dir_err io with
  | Some e => Err (VIo e)
  | None => Ok (Names.join (resolve_vault_path io vault) "wallets")
  end.

(** [0o700] of [mode & 0o777]. *)
Definition check_vault_permissions (io : VaultIo io_error) : vault_result unit :=
  match dir_mode io with
  | Err e => Err (VIo e)
  | Ok mode => let m := Z.land mode 511 in
               if (m =? 448)%Z then Ok tt else Err (InsecurePermissions m)
  end.

(** The names in a directory. *)
Definition names_in (dir : string) (d : FS) : list string :=
  omap (fun p => if decide (p.1.1 = Some dir) then p.1.2 else None) (map_to_list d).

(** A file of the listing: a wallet, or nothing when it is not JSON, cannot be read
    or does not parse. *)
Definition wallet_at (io : VaultIo io_error) (dir : string) (d : FS) (name : string) : option EncryptedWallet :=
  match json_stem name, file_err io name, d !! (Some dir, Some name) with
  | Some _, None, Some file =>
      match deserialize (wallet_fields (file_content file)) with Ok w => Some w | Err _ => None end
  | _, _, _ => None
  end.

Definition read_entries (io : VaultIo io_error) (dir : string) (d : FS) : vault_result (list EncryptedWallet) :=
  let names := entry_order io (names_in dir d) in
  match entry_err io with
  | Some (n, e) => if (n <=? length names)%nat then Err (VIo e) else Ok (omap (wallet_at io dir d) names)
  | None => Ok (omap (wallet_at io dir d) names)
  end.

Definition list_encrypted_wallets (io : VaultIo io_error) (vault : option string) (d : FS)
  : vault_result (list EncryptedWallet) :=
  let? dir := wallets_dir io vault in
  let? _ := check_vault_permissions io in
  match read_dir_err io with
  | Some (true, _) => Ok []
  | Some (false, e) => Err (VIo e)
  | None => let? ws := read_entries io dir d in Ok (sort_wallets ws)
  end.

(** The lookup among the listed wallets. *)
Definition find_wallet (name_or_id : string) (ws : list EncryptedWallet) : vault_result EncryptedWallet :=
  match List.find (fun w => String.eqb (id w) name_or_id) ws with
  | Some w => Ok w
  | None =>
      match List.filter (fun w => String.eqb (name w) name_or_id) ws with
      | [] => Err (WalletNotFound name_or_id)
      | [w] => Ok w
      | ms => Err (AmbiguousWallet name_or_id (length ms))
      end
  end.

Definition load_wallet_by_name_or_id (io : VaultIo io_error) (name_or_id : string) (vault : option string)
    (d : FS) : vault_result EncryptedWallet :=
  let? ws := list_encrypted_wallets io vault d in find_wallet name_or_id ws.

Definition wallet_name_exists (io : VaultIo io_error) (nm : string) (vault : option string) (d : FS)
  : vault_result bool :=
  let? ws := list_encrypted_wallets io vault d in Ok (existsb (fun w => String.eqb (name w) nm) ws).

(** The message of an [OcError::InvalidInput]. *)
Definition checked_id (wid : string) : vault_result unit :=
  result_map_err (fun '(InvalidInput m) => VInvalidInput m) (validate_wallet_id wid).

Definition wallet_path (dir wid : string) : Path := (Some dir, Some (wid +:+ ".json")).

Definition save_encrypted_wallet (io : VaultIo io_error) (w : EncryptedWallet) (vault : option string)
    (d : FS) : vault_result unit * list FS :=
  match (let? _ := checked_id (id w) in wallets_dir io vault) with
  | Err e => (Err e, [d])
  | Ok dir =>
      match wallet_to_json_pretty w with
      | Err e => (Err (Serde e), [d])
      | Ok json =>
          let '(r, trace) := write_atomic_private vault_no_parent (dir_err io) (vault_faults io)
                               (wallet_path dir (id w)) json (vault_pid io) (vault_nanos io) (vault_seq io) d in
          (result_map_err VIo r, trace)
      end
  end.

Definition delete_wallet_file (io : VaultIo io_error) (wid : string) (vault : option string) (d : FS)
  : vault_result unit * FS :=
  match (let? _ := checked_id wid in wallets_dir io vault) with
  | Err e => (Err e, d)
  | Ok dir =>
      match d !! wallet_path dir wid with
      | None => (Err (WalletNotFound wid), d)
      | Some _ =>
          if link_err io then (Err (WalletNotFound wid), d)
          else if is_symlink io then (Err (VInvalidInput "symlink not allowed in wallet directory"), d)
          else
            match unlink_err io with
            | Some e => (Err (VIo e), d)
            | None => (Ok tt, delete (wallet_path dir wid) d)
            end
      end
  end.

(** ** The vault is a map from ids to wallets *)

(** The wallet in a file of the directory. *)
Definition stored (dir : string) (d : FS) (name : string) : option EncryptedWallet :=
  match json_stem name, d !! (Some dir, Some name) with
  | Some _, Some file =>
      match deserialize (wallet_fields (file_content file)) with Ok w => Some w | Err _ => None end
  | _, _ => None
  end.

(** The files that hold a wallet are those of [m], each under its id. *)
Definition represents (dir : string) (d : FS) (m : gmap string EncryptedWallet) : Prop :=
  (forall i w, m !! i = Some w -> id w = i) /\
  forall name w, stored dir d name = Some w <-> m !! id w = Some w /\ name = id w +:+ ".json".

(** Nothing fails, and the directory is private. *)
Definition readable (io : VaultIo io_error) : Prop :=
  create_dir_err io = None /\ (exists mode, dir_mode io = Ok mode /\ Z.land mode 511 = 448%Z) /\
  read_dir_err io = None /\ entry_err io = None /\
  (forall n, file_err io n = None) /\ forall l, entry_order io l ≡ₚ l.

Lemma json_stem_some name stem :
  json_stem name = Some stem <-> name = stem +:+ ".json" /\ stem <> "".
Proof.
  unfold json_stem. destruct (strip_suffix ".json" name) as [s|] eqn:E.
  - apply strip_suffix_some in E as ->. destruct (is_empty s) eqn:Es.
    + destruct s; [|done]. split; [done|]. intros [H Hne]. exfalso. apply Hne.
      apply (f_equal String.length) in H. rewrite !length_app_str in H. destruct stem; [done|]. cbn in H. lia.
    + split.
      * intros [= <-]. split; [done|]. by destruct s.
      * intros [H _]. apply (f_equal (strip_suffix ".json")) in H. rewrite !strip_suffix_app in H. congruence.
  - split; [done|]. intros [-> _]. by rewrite strip_suffix_app in E.
Qed.

Lemma json_durable dir name stem : json_stem name = Some stem -> durable (Some dir, Some name).
Proof.
  intros [-> _]%json_stem_some. unfold durable. cbn [snd default].
  apply not_true_iff_false. intros [q Hq]%ends_with_iff. revert q Hq.
  induction stem as [|c stem IH]; intros q Hq.
  - destruct q as [|a [|b q]]; [discriminate Hq|discriminate Hq|].
    apply (f_equal String.length) in Hq. cbn in Hq. rewrite !length_app_str in Hq. cbn in Hq. lia.
  - destruct q as [|c' q].
    + apply (f_equal String.length) in Hq. cbn in Hq. rewrite !length_app_str in Hq. cbn in Hq. lia.
    + injection Hq as _ Hq. by apply (IH q).
Qed.

Lemma wallet_at_stored io dir d name : file_err io name = None -> wallet_at io dir d name = stored dir d name.
Proof. unfold wallet_at, stored. intros ->. by destruct (json_stem name). Qed.

Lemma names_in_spec dir d name : name ∈ names_in dir d <-> is_Some (d !! (Some dir, Some name)).
Proof.
  unfold names_in. rewrite list_elem_of_omap. split.
  - intros ([[p1 p2] f] & Hin & H). cbn in H. destruct (decide (p1 = Some dir)) as [->|]; [|done]. subst p2.
    apply elem_of_map_to_list in Hin. by exists f.
  - intros [f Hf]. exists ((Some dir, Some name), f). split; [by apply elem_of_map_to_list|].
    cbn. by rewrite decide_True.
Qed.

Lemma stored_in dir d name w : stored dir d name = Some w -> name ∈ names_in dir d.
Proof.
  unfold stored. intros H. apply names_in_spec. destruct (json_stem name); [|done].
  by destruct (d !! (Some dir, Some name)).
Qed.

Lemma stored_same dir d d' name :
  (forall stem, json_stem name = Some stem -> d' !! (Some dir, Some name) = d !! (Some dir, Some name)) ->
  stored dir d' name = stored dir d name.
Proof. unfold stored. intros H. destruct (json_stem name) as [stem|]; [|done]. by rewrite (H stem). Qed.

(** *** Listing *)

Lemma insert_wallet_perm w l : insert_wallet w l ≡ₚ w :: l.
Proof.
  induction l as [|x l IH]; cbn; [done|]. destruct (String.compare _ _); [done..|].
  rewrite IH. constructor.
Qed.

Lemma sort_wallets_perm l : sort_wallets l ≡ₚ l.
Proof. induction l as [|w l IH]; cbn; [done|]. by rewrite insert_wallet_perm, IH. Qed.

(** No wallet is followed by a newer one. *)
Definition newest_first : list EncryptedWallet -> Prop :=
  StronglySorted (fun a b => ~ str_lt (created_at a) (created_at b)).

Lemma insert_wallet_sorted w l : newest_first l -> newest_first (insert_wallet w l).
Proof.
  unfold newest_first. induction 1 as [|x l Hs IH Hx]; cbn; [by repeat constructor|].
  destruct (String.compare (created_at x) (created_at w)) eqn:E.
  - constructor; [by constructor|]. apply str_compare_eq in E. constructor; [rewrite E; apply str_lt_irrefl|].
    eapply Forall_impl; [exact Hx|]. cbn. by rewrite E.
  - constructor; [by constructor|].
    assert (Hxw : str_lt (created_at x) (created_at w)) by exact E.
    constructor; [intros H; by apply (str_lt_irrefl (created_at x)), (str_lt_trans _ (created_at w))|].
    eapply Forall_impl; [exact Hx|]. intros y Hy H. apply Hy. by eapply str_lt_trans.
  - constructor; [exact IH|]. rewrite insert_wallet_perm. constructor; [|exact Hx].
    apply str_compare_gt in E. intros H. by apply (str_lt_irrefl (created_at w)), (str_lt_trans _ (created_at x)).
Qed.

Lemma list_wallets_ok io vault d : readable io ->
  exists ws, list_encrypted_wallets io vault d = Ok ws /\ newest_first ws /\
    ws ≡ₚ omap (stored (Names.join (resolve_vault_path io vault) "wallets") d)
            (names_in (Names.join (resolve_vault_path io vault) "wallets") d).
Proof.
  intros (Hc & (mode & Hm & Hb) & Hr & He & Hf & Ho). set (dir := Names.join _ _).
  eexists. split; [unfold list_encrypted_wallets, wallets_dir; rewrite Hc; cbn [result_bind];
    unfold check_vault_permissions; rewrite Hm, Hb; cbn [result_bind]; rewrite Hr;
    unfold read_entries; rewrite He; reflexivity|].
  fold dir. split.
  - generalize (omap (wallet_at io dir d) (entry_order io (names_in dir d))). intros l.
    induction l as [|w l IH]; cbn; [constructor|]. by apply insert_wallet_sorted.
  - assert (Heq : forall l : list string, (omap (wallet_at io dir d) l : list _) = omap (stored dir d) l).
    { induction l as [|n l IH]; cbn; [done|]. rewrite wallet_at_stored by done. by rewrite IH. }
    by rewrite sort_wallets_perm, (Ho (names_in dir d)), Heq.
Qed.

Lemma list_wallets_elem io vault d ws w : readable io -> list_encrypted_wallets io vault d = Ok ws ->
  w ∈ ws <-> exists n, stored (Names.join (resolve_vault_path io vault) "wallets") d n = Some w.
Proof.
  intros Hr Hl. destruct (list_wallets_ok io vault d Hr) as (ws' & Hl' & _ & Hp).
  rewrite Hl in Hl'. injection Hl' as <-. rewrite Hp, list_elem_of_omap. split.
  - intros (n & _ & H). by exists n.
  - intros (n & H). exists n. split; [by eapply stored_in|done].
Qed.

(** *** Lookup, saving and deletion *)

Lemma find_id_ok i ws w :
  w ∈ ws -> id w = i -> (forall w', w' ∈ ws -> id w' = i -> w' = w) -> find_wallet i ws = Ok w.
Proof.
  intros Hw Hi Hu. unfold find_wallet. destruct (List.find _ ws) as [w'|] eqn:Hf.
  - apply List.find_some in Hf as [Hin He]. apply String.eqb_eq in He.
    f_equal. apply Hu; [by apply list_elem_of_In|done].
  - exfalso. apply list_elem_of_In in Hw. pose proof (List.find_none _ _ Hf w Hw) as H. cbn in H.
    rewrite Hi, String.eqb_refl in H. done.
Qed.

Lemma load_present io vault d m i w :
  readable io -> represents (Names.join (resolve_vault_path io vault) "wallets") d m -> m !! i = Some w ->
  load_wallet_by_name_or_id io i vault d = Ok w.
Proof.
  intros Hr [Hk Hm] Hi. unfold load_wallet_by_name_or_id.
  destruct (list_wallets_ok io vault d Hr) as (ws & Hl & _ & _).
  pose proof (fun w => list_wallets_elem io vault d ws w Hr Hl) as He. rewrite Hl. cbn [result_bind].
  pose proof (Hk i w Hi) as Hid. apply find_id_ok; [|done|].
  - apply He. exists (id w +:+ ".json"). apply Hm. by rewrite Hid.
  - intros w' (n & Hn)%He Hi'. apply Hm in Hn as [Hn _]. rewrite Hi' in Hn. congruence.
Qed.

(** With no wallet under that id, only a wallet of that name is found. *)
Lemma load_absent io vault d m i w :
  readable io -> represents (Names.join (resolve_vault_path io vault) "wallets") d m -> m !! i = None ->
  load_wallet_by_name_or_id io i vault d = Ok w -> name w = i /\ m !! id w = Some w.
Proof.
  intros Hr [Hk Hm] Hi. unfold load_wallet_by_name_or_id.
  destruct (list_wallets_ok io vault d Hr) as (ws & Hl & _ & _).
  pose proof (fun w => list_wallets_elem io vault d ws w Hr Hl) as He. rewrite Hl. cbn [result_bind].
  unfold find_wallet. destruct (List.find _ ws) as [w'|] eqn:Hf.
  - exfalso. apply List.find_some in Hf as [Hin Heq]. apply String.eqb_eq in Heq.
    apply list_elem_of_In in Hin. apply He in Hin as (n & Hn). apply Hm in Hn as [Hn _]. congruence.
  - assert (Hmem : forall x, In x (List.filter (fun w => String.eqb (name w) i) ws) ->
      name x = i /\ m !! id x = Some x).
    { intros x [Hx Hn]%List.filter_In. apply String.eqb_eq in Hn. split; [done|].
      apply list_elem_of_In in Hx. apply He in Hx as (n & Hs). by apply Hm in Hs as [Hs _]. }
    destruct (List.filter _ ws) as [|x [|y l]]; [done| |done]. intros [= <-]. apply Hmem. by left.
Qed.

Context {L : WalletJsonLaws J}.

Lemma wallet_path_name dir i n : wallet_path dir i = (Some dir, Some n) <-> n = i +:+ ".json".
Proof. unfold wallet_path. split; [by intros [= <-]|by intros ->]. Qed.

Lemma represents_insert dir d d' m w file :
  represents dir d m -> id w <> "" ->
  deserialize (wallet_fields (file_content file)) = Ok w ->
  d' !! wallet_path dir (id w) = Some file ->
  (forall q, durable q -> q <> wallet_path dir (id w) -> d' !! q = d !! q) ->
  represents dir d' (<[id w := w]> m).
Proof.
  intros [Hk Hm] Hne Hde Hfile Hrest. split.
  - intros i x. rewrite lookup_insert_Some. intros [[<- <-]|[_ H]]; [done|by apply Hk].
  - intros n x. destruct (decide (n = id w +:+ ".json")) as [->|Hn].
    + unfold stored. rewrite (proj2 (json_stem_some _ (id w))) by done.
      change (Some dir, Some (id w +:+ ".json")) with (wallet_path dir (id w)). rewrite Hfile, Hde. split.
      * intros [= <-]. by rewrite lookup_insert_eq.
      * intros [H He]. apply (f_equal (strip_suffix ".json")) in He. rewrite !strip_suffix_app in He.
        injection He as He. rewrite <- He, lookup_insert_eq in H. congruence.
    + rewrite (stored_same dir d d'), Hm.
      * split; intros [H ->]; (split; [|done]).
        -- rewrite lookup_insert_ne; [done|]. intros He. apply Hn. by rewrite He.
        -- rewrite lookup_insert_ne in H; [done|]. intros He. apply Hn. by rewrite He.
      * intros stem Hs. apply Hrest; [by eapply json_durable|].
        intros He. apply Hn. symmetry in He. by apply wallet_path_name in He.
Qed.

Lemma represents_same dir d d' m :
  (forall n stem, json_stem n = Some stem -> d' !! (Some dir, Some n) = d !! (Some dir, Some n)) ->
  represents dir d m -> represents dir d' m.
Proof.
  intros Hs [Hk Hm]. split; [done|]. intros n w. rewrite (stored_same dir d d'); [apply Hm|].
  intros stem. apply Hs.
Qed.

Lemma checked_id_ok i : checked_id i = Ok tt -> i <> "".
Proof.
  unfold checked_id. destruct (validate_wallet_id i) as [[]|[m]] eqn:H; [|done]. intros _ ->.
  by apply valid_wallet_id in H as [? _].
Qed.

(** A state of the disk during a save. *)
Lemma saved_state dir d d' m w json :
  represents dir d m -> (oc_version w <= MAX_SUPPORTED_VERSION)%Z -> id w <> "" ->
  wallet_to_json_pretty w = Ok json ->
  (forall q, durable q -> q <> wallet_path dir (id w) -> d' !! q = d !! q) ->
  (d' !! wallet_path dir (id w) = d !! wallet_path dir (id w) -> represents dir d' m) /\
  (d' !! wallet_path dir (id w) = Some {| file_mode := MODE_PRIVATE_FILE; file_content := json |} ->
   represents dir d' (<[id w := w]> m)).
Proof.
  intros Hrep Hv Hid Hj Hq. split.
  - intros Hold. eapply represents_same; [|exact Hrep]. intros n stem Hs.
    destruct (decide ((Some dir, Some n) = wallet_path dir (id w))) as [->|Hne]; [done|].
    apply Hq; [by eapply json_durable|done].
  - intros Hnew. eapply represents_insert; [exact Hrep|exact Hid| |exact Hnew|exact Hq].
    cbn [file_content]. rewrite (wallet_roundtrip w json Hj). unfold deserialize, validate_version.
    cbn [result_bind]. by rewrite (proj2 (Z.ltb_ge _ _)).
Qed.

Lemma save_inserts io w vault d m :
  let dir := Names.join (resolve_vault_path io vault) "wallets" in
  represents dir d m -> (oc_version w <= MAX_SUPPORTED_VERSION)%Z ->
  let '(r, trace) := save_encrypted_wallet io w vault d in
  Forall (fun d' => represents dir d' m \/ represents dir d' (<[id w := w]> m)) trace /\
  match r with
  | Ok _ => represents dir (default d (last trace)) (<[id w := w]> m)
  | Err _ => represents dir (default d (last trace)) m
  end.
Proof.
  intros dir Hrep Hv. unfold save_encrypted_wallet.
  assert (Hsame : Forall (fun d' => represents dir d' m \/ represents dir d' (<[id w := w]> m)) [d])
    by (apply Forall_singleton; by left).
  destruct (checked_id (id w)) as [[]|] eqn:Hid; cbn [result_bind]; [|done].
  unfold wallets_dir. destruct (create_dir_err io); [done|].
  fold dir. destruct (wallet_to_json_pretty w) as [json|] eqn:Hj; [|done].
  pose proof (write_atomic_replaced vault_no_parent (dir_err io) (vault_faults io) (wallet_path dir (id w)) json
    MODE_PRIVATE_FILE (vault_pid io) (vault_nanos io) (vault_seq io) d) as Hw.
  pose proof (fun q => write_private_leaves vault_no_parent (dir_err io) (vault_faults io)
    (wallet_path dir (id w)) json (vault_pid io) (vault_nanos io) (vault_seq io) d q) as Hl.
  fold (write_atomic_private vault_no_parent (dir_err io) (vault_faults io)
    (wallet_path dir (id w)) json (vault_pid io) (vault_nanos io) (vault_seq io) d) in Hw.
  destruct (write_atomic_private _ _ _ _ _ _ _ _ _) as [r trace]. destruct Hw as [Hall Hfin]. split.
  - rewrite Forall_forall in Hall |- *. intros d' Hin.
    destruct (saved_state dir d d' m w json Hrep Hv (checked_id_ok _ Hid) Hj) as [Ho Hn].
    + intros q Hd Hne. specialize (Hl q Hne Hd). unfold leaves in Hl. rewrite Forall_forall in Hl. by apply Hl.
    + destruct (Hall d' Hin); auto.
  - destruct (saved_state dir d (default d (last trace)) m w json Hrep Hv (checked_id_ok _ Hid) Hj) as [Ho Hn].
    + intros q Hd Hne. exact (leaves_final _ _ _ (Hl q Hne Hd)).
    + destruct r; cbn [result_map_err]; auto.
Qed.

Lemma delete_spec io i vault d m :
  let dir := Names.join (resolve_vault_path io vault) "wallets" in
  represents dir d m ->
  let '(r, d') := delete_wallet_file io i vault d in
  match r with
  | Ok _ => represents dir d' (delete i m)
  | Err _ => d' = d
  end.
Proof.
  intros dir [Hk Hm]. unfold delete_wallet_file.
  destruct (checked_id i) as [[]|] eqn:Hid; cbn [result_bind]; [|done].
  unfold wallets_dir. destruct (create_dir_err io); [done|]. fold dir.
  destruct (d !! wallet_path dir i) as [f|]; [|done]. destruct (link_err io); [done|].
  destruct (is_symlink io); [done|]. destruct (unlink_err io); [done|]. split.
  - intros j w [_ H]%lookup_delete_Some. by apply Hk.
  - intros n w. destruct (decide (n = i +:+ ".json")) as [->|Hn].
    + unfold stored, wallet_path. rewrite lookup_delete_eq. split.
      * by destruct (json_stem _).
      * intros [H He]. apply (f_equal (strip_suffix ".json")) in He. rewrite !strip_suffix_app in He.
        injection He as ->. by rewrite lookup_delete_eq in H.
    + rewrite (stored_same dir d), Hm.
      * split; intros [H ->]; (split; [|done]); [rewrite lookup_delete_ne; [done|]|by apply lookup_delete_Some in H as [_ H]].
        intros He. apply Hn. by rewrite He.
      * intros stem _. rewrite lookup_delete_ne; [done|]. intros [= He]. by apply Hn.
Qed.

(** C28 The vault is a map from ids to wallets: saving inserts, atomically, deleting
    removes, a lookup by id gives the wallet last saved under it, a lookup that finds
    no id gives only a wallet of that name, and the listing has every wallet, newest
    first.  A failure, or a crash in the middle of a save, leaves the map as it was
    or with the new wallet. *)
Theorem vault_refines_map io vault d m w i :
  let dir := Names.join (resolve_vault_path io vault) "wallets" in
  readable io -> represents dir d m ->
  (exists ws, list_encrypted_wallets io vault d = Ok ws /\ newest_first ws /\
     forall x, x ∈ ws <-> m !! id x = Some x) /\
  match m !! i with
  | Some x => load_wallet_by_name_or_id io i vault d = Ok x
  | None => forall x, load_wallet_by_name_or_id io i vault d = Ok x -> name x = i /\ m !! id x = Some x
  end /\
  (let '(r, d') := delete_wallet_file io i vault d in
   represents dir d' (if is_ok r then delete i m else m)) /\
  ((oc_version w <= MAX_SUPPORTED_VERSION)%Z ->
   let '(r, trace) := save_encrypted_wallet io w vault d in
   represents dir (default d (last trace)) (if is_ok r then <[id w := w]> m else m) /\
   Forall (fun d' => represents dir d' m \/ represents dir d' (<[id w := w]> m)) trace).
Proof.
  intros dir Hr Hrep. split_and!.
  - destruct (list_wallets_ok io vault d Hr) as (ws & Hl & Hs & _). exists ws. split_and!; [done|done|].
    intros x. rewrite (list_wallets_elem io vault d ws x Hr Hl). destruct Hrep as [_ Hm]. split.
    + intros (n & Hn). by apply Hm in Hn as [Hn _].
    + intros Hx. exists (id x +:+ ".json"). by apply Hm.
  - destruct (m !! i) as [x|] eqn:Hi; [by eapply load_present|]. intros x Hx. by eapply load_absent.
  - pose proof (delete_spec io i vault d m Hrep) as H. destruct (delete_wallet_file _ _ _ _) as [[] d']; cbn.
    + exact H.
    + by rewrite H.
  - intros Hv. pose proof (save_inserts io w vault d m Hrep Hv) as H.
    destruct (save_encrypted_wallet _ _ _ _) as [[] trace]; cbn; by destruct H.
Qed.
End Vault.

(** ** Concrete runs *)

(** Wallets whose envelope is a string. *)
Definition describe_account (a : WalletAccount) : string * (string * (string * string)) :=
  (account_id a, (address a, (chain_id a, derivation_path a))).
Definition build_account (x : string * (string * (string * string))) : WalletAccount :=
  let '(i, (a, (c, p))) := x in {| account_id := i; address := a; chain_id := c; derivation_path := p |}.

Abbreviation DemoWallet := (@EncryptedWallet demo_number).

Definition demo_wallet_to_json (w : DemoWallet) : result unit string :=
  match crypto w, metadata w, chain_type w with
  | VString c, Null, None =>
      Ok (to_text (oc_version w, (id w, (name w, (created_at w, (map describe_account (accounts w),
        (c, bool_decide (key_type w = Mnemonic))))))))
  | _, _, _ => Err tt
  end.

Definition demo_wallet_fields (s : string) : result string DemoWallet :=
  match of_text s with
  | Some (v, (i, (n, (t, (accs, (c, k)))))) =>
      Ok {| oc_version := v; id := i; name := n; created_at := t; chain_type := None;
            accounts := map build_account accs; crypto := VString c;
            key_type := if (k : bool) then Mnemonic else PrivateKey; metadata := Null |}
  | None => Err "not a wallet"
  end.

#[export] Instance demo_wallet_json : WalletJson (S := demo_number) string unit := {|
  wallet_fields := demo_wallet_fields;
  wallet_to_json_pretty := demo_wallet_to_json;
  vault_no_parent _ := "path has no parent directory"
|}.

#[export] Instance demo_wallet_json_laws : WalletJsonLaws demo_wallet_json.
Proof.
  intros [v i n t ct accs c kt md] s. cbn. unfold demo_wallet_to_json, demo_wallet_fields. cbn.
  destruct c as [| | |c| |], md, ct; try done. intros [= <-]. rewrite of_to_text. cbv beta iota.
  f_equal. f_equal; [|by destruct kt]. rewrite map_map. etrans; [|apply map_id].
  apply map_ext. by intros [].
Qed.

Definition demo_vault_io : VaultIo string := {|
  default_vault := "/home/a/.onecipher"; create_dir_err := None; dir_mode := Ok 16832%Z;
  read_dir_err := None; entry_order l := l; entry_err := None; file_err _ := None; dir_err := None;
  vault_faults := demo_faults; vault_pid := 7; vault_nanos := 0; vault_seq := 0;
  link_err := false; is_symlink := false; unlink_err := None
|}.

Definition demo_wallet (i nm : string) : DemoWallet := wallet_new "T1" i nm [] (VString "age") Mnemonic.

Definition demo_saved : FS :=
  default ∅ (last (save_encrypted_wallet demo_vault_io (demo_wallet "w" "main") None ∅).2).

(** A wallet is found under its id after another has been saved; the other is found
    too. *)
Lemma vault_refines_map_witness :
  load_wallet_by_name_or_id demo_vault_io "w" None demo_saved = Ok (demo_wallet "w" "main") /\
  load_wallet_by_name_or_id demo_vault_io "main" None demo_saved = Ok (demo_wallet "w" "main").
Proof.
  split; [|runs].
  assert (H0 : represents (Names.join (resolve_vault_path demo_vault_io None) "wallets") ∅
    (∅ : gmap string DemoWallet)).
  { split; [intros i w; by rewrite lookup_empty|]. intros n w. rewrite lookup_empty. unfold stored.
    rewrite lookup_empty. split; [by destruct (json_stem n)|by intros [? _]]. }
  assert (Hr : readable demo_vault_io).
  { unfold readable. split_and!; try done. by exists 16832%Z. }
  destruct (vault_refines_map demo_vault_io None ∅ ∅ (demo_wallet "w" "main") "w" Hr H0) as (_ & _ & _ & Hs).
  specialize (Hs ltac:(vm_compute; discriminate)). unfold demo_saved.
  assert (Hok : is_ok (save_encrypted_wallet demo_vault_io (demo_wallet "w" "main") None ∅).1 = true) by runs.
  destruct (save_encrypted_wallet demo_vault_io (demo_wallet "w" "main") None ∅) as [r trace].
  cbn [fst snd] in *. rewrite Hok in Hs. destruct Hs as [Hs _].
  pose proof (vault_refines_map demo_vault_io None _ _ (demo_wallet "w" "main") "w" Hr Hs) as (_ & H & _ & _).
  rewrite lookup_insert_eq in H. exact H.
Defined.
