(* ===== verification/MapStore.v ===== *)
(** * Maps kept in JSON files

    The nonce store, the passkey store and the session-key registry of
    crates/oc-keyagent each keep a [HashMap] in one JSON file, read and written by
    the same two functions ([load] and [save] of [nonce_store.rs], [passkey.rs]
    and [session_keys.rs]).  A missing or blank file is the empty map; a write
    goes through [write_atomic_private]. *)

From Stdlib Require Import ZArith Lia String.
From stdpp Require Import base list strings gmap.
From S2P Require Import Prelude Str Files DemoText.

Local Open Scope oc_scope.

(** The system calls of one operation: what fails, and what the process reads of
    the world. *)
Record StoreIo (io_error : Type) := {
  read_err : option io_error;
  parent_err : option io_error;
  create_err : option io_error;
  write_faults : WriteFaults io_error;
  tmp_pid : Z; tmp_nanos : Z; tmp_seq : Z
}.
Arguments read_err {io_error}.
Arguments parent_err {io_error}.
Arguments create_err {io_error}.
Arguments write_faults {io_error}.
Arguments tmp_pid {io_error}.
Arguments tmp_nanos {io_error}.
Arguments tmp_seq {io_error}.

(** How a load or a save fails; each store converts it to its own error. *)
Inductive StoreFault {io_error json_error : Type} :=
| IoFault (e : io_error)
| ParseFault (e : json_error)
| EncodeFault (e : json_error).
Arguments StoreFault : clear implicits.

(** The codec of the contents, and what it documents: a value survives
    serialization, to a text that is not blank. *)
Class Codec (io_error json_error M : Type) := {
  from_json : string -> result json_error M;
  to_json : M -> result json_error string;
  no_parent : Path -> io_error
}.

Class CodecLaws {io_error json_error M} (C : Codec io_error json_error M) :=
  codec_roundtrip m s : to_json m = Ok s -> is_empty (trim s) = false /\ from_json s = Ok m.

Section Store.
Context {io_error json_error M : Type} `{Empty M} {C : Codec io_error json_error M}.
Context (path : Path).

Definition load_map (io : StoreIo io_error) (d : FS) : result (StoreFault io_error json_error) M :=
  match read_err io, d !! path with
  | Some e, _ => Err (IoFault e)
  | None, None => Ok ∅
  | None, Some file =>
      if is_empty (trim (file_content file)) then Ok ∅
      else result_map_err ParseFault (from_json (file_content file))
  end.

(** [parent.as_os_str().is_empty()]. *)
Definition has_named_parent (p : Path) : bool :=
  match p.1 with Some parent => negb (is_empty parent) | None => false end.

Definition save_map (io : StoreIo io_error) (map : M) (d : FS)
  : result (StoreFault io_error json_error) unit * list FS :=
  match (if has_named_parent path then parent_err io else None) with
  | Some e => (Err (IoFault e), [d])
  | None =>
      match to_json map with
      | Err e => (Err (EncodeFault e), [d])
      | Ok json =>
          let '(r, trace) := write_atomic_private no_parent (create_err io) (write_faults io)
                               path json (tmp_pid io) (tmp_nanos io) (tmp_seq io) d in
          (result_map_err IoFault r, trace)
      end
  end.

(** ** What the disk holds *)

(** A load without a read error gives [m]. *)
Definition holds (d : FS) (m : M) : Prop :=
  match d !! path with
  | None => m = ∅
  | Some file =>
      if is_empty (trim (file_content file)) then m = ∅ else from_json (file_content file) = Ok m
  end.

Lemma load_map_holds io d m : read_err io = None -> holds d m -> load_map io d = Ok m.
Proof.
  unfold load_map, holds. intros ->. destruct (d !! path) as [f|]; [|by intros ->].
  destruct (is_empty (trim (file_content f))); [by intros ->|by intros ->].
Qed.

Lemma load_map_ok io d m : load_map io d = Ok m -> holds d m.
Proof.
  unfold load_map, holds. destruct (read_err io); [done|]. destruct (d !! path) as [f|];
    [|by intros [= <-]].
  destruct (is_empty (trim (file_content f))); [by intros [= <-]|].
  destruct (from_json (file_content f)); [by intros [= <-]|done].
Qed.

Lemma holds_functional d m m' : holds d m -> holds d m' -> m = m'.
Proof.
  unfold holds. destruct (d !! path) as [f|]; [|congruence].
  destruct (is_empty (trim (file_content f))); congruence.
Qed.

Lemma holds_same d d' m : d' !! path = d !! path -> holds d m -> holds d' m.
Proof. unfold holds. by intros ->. Qed.

Lemma load_map_same io d d' : d' !! path = d !! path -> load_map io d' = load_map io d.
Proof. unfold load_map. by intros ->. Qed.

Context {CL : CodecLaws C}.

(** A save leaves the old file or the whole new map, the latter exactly when it
    succeeds. *)
Lemma save_map_spec io m d :
  (forall d', d' ∈ (save_map io m d).2 -> d' !! path = d !! path \/ holds d' m) /\
  match (save_map io m d).1 with
  | Ok _ => holds (default d (last (save_map io m d).2)) m
  | Err _ => default d (last (save_map io m d).2) !! path = d !! path
  end.
Proof.
  unfold save_map. destruct (if has_named_parent path then _ else _);
    [split; [intros d' ->%list_elem_of_singleton; by left|done]|].
  destruct (to_json m) as [json|e] eqn:Hj;
    [|split; [intros d' ->%list_elem_of_singleton; by left|done]].
  pose proof (write_atomic_replaced no_parent (create_err io) (write_faults io) path json
    MODE_PRIVATE_FILE (tmp_pid io) (tmp_nanos io) (tmp_seq io) d) as Hw.
  fold (write_atomic_private no_parent (create_err io) (write_faults io) path json
    (tmp_pid io) (tmp_nanos io) (tmp_seq io) d) in Hw.
  destruct (write_atomic_private _ _ _ _ _ _ _ _ _) as [r trace]. destruct Hw as [Hall Hfin].
  destruct (codec_roundtrip m json Hj) as [Hne Hrt]. cbn [fst snd].
  assert (Hnew : forall d', d' !! path = Some {| file_mode := MODE_PRIVATE_FILE; file_content := json |} ->
    holds d' m) by (intros d' Hd'; unfold holds; rewrite Hd'; cbn [file_content]; by rewrite Hne).
  split.
  - intros d' Hd'. rewrite Forall_forall in Hall. destruct (Hall d' Hd'); auto.
  - destruct r as [[]|e]; cbn [result_map_err]; [by apply Hnew|done].
Qed.

Lemma save_map_states io m d : is_nil (save_map io m d).2 = false.
Proof.
  unfold save_map. destruct (if has_named_parent path then _ else _); [done|].
  destruct (to_json m) as [json|]; [|done].
  pose proof (write_atomic_states no_parent (create_err io) (write_faults io) path json
    MODE_PRIVATE_FILE (tmp_pid io) (tmp_nanos io) (tmp_seq io) d) as Hw.
  unfold write_atomic_private. by destruct (write_atomic _ _ _ _ _ _ _ _ _ _).
Qed.

(** A save touches no other durable file. *)
Lemma save_map_leaves io m d q : q <> path -> durable q -> leaves q d (save_map io m d).
Proof.
  intros Hq Hd. unfold save_map. destruct (if has_named_parent path then _ else _); [by repeat constructor|].
  destruct (to_json m) as [json|]; [|by repeat constructor].
  pose proof (write_private_leaves no_parent (create_err io) (write_faults io) path json
    (tmp_pid io) (tmp_nanos io) (tmp_seq io) d q Hq Hd) as Hw.
  unfold leaves in *. by destruct (write_atomic_private _ _ _ _ _ _ _ _ _).
Qed.
End Store.

(** ** A concrete codec *)

(** Maps to values that a countable type describes. *)
Section Demo.
Context {V A : Type} `{Countable A} (describe : V -> A) (build : A -> V).

Definition demo_from_json (s : string) : result unit (gmap string V) :=
  match of_text s with
  | Some l => Ok (list_to_map (prod_map id build <$> (l : list (string * A))))
  | None => Err tt
  end.

Definition demo_codec : Codec string unit (gmap string V) := {|
  from_json := demo_from_json;
  to_json m := Ok (to_text (prod_map id describe <$> map_to_list m));
  no_parent _ := "path has no parent directory"
|}.

Lemma demo_codec_laws : (forall v, build (describe v) = v) -> CodecLaws demo_codec.
Proof.
  intros Hb m s [= <-]. split; [apply to_text_line|]. cbn [from_json demo_codec].
  unfold demo_from_json. rewrite of_to_text. f_equal. rewrite <- list_fmap_compose.
  etrans; [|apply list_to_map_to_list]. f_equal. rewrite <- (list_fmap_id (map_to_list m)) at 2.
  apply list_fmap_ext. intros i [k v] _. cbn. by rewrite Hb.
Qed.
End Demo.

(** A disk on which nothing fails. *)
Definition demo_io : StoreIo string := {|
  read_err := None; parent_err := None; create_err := None;
  write_faults := demo_faults;
  tmp_pid := 7; tmp_nanos := 0; tmp_seq := 0
|}.
