(* ===== verification/Generations.v ===== *)
(** * Generations of secrets

    crates/oc-secret/src/generations.rs and protection.rs: the index of monotonic
    generations that peers exchange, one line per path, its merge, and the check of a
    local generation against a sealed one.  A [BTreeMap] is a [gmap]; iteration is
    sorted by key. *)

From Stdlib Require Import ZArith Lia Ascii String Bool.
From stdpp Require Import base list strings gmap sorting.
From S2P Require Import Prelude Str Decimal Names Files MapStore.

Local Open Scope oc_scope.

Abbreviation Generations := (gmap string Z).

(** ** The file *)

(** [str::rsplit_once(char::is_whitespace)]. *)
Fixpoint rsplit_space (s : string) : option (string * string) :=
  match s with
  | EmptyString => None
  | String c s' =>
      match rsplit_space s' with
      | Some (a, b) => Some (String c a, b)
      | None =>
          match first_some (fun w => strip_prefix w s) white_space with
          | Some rest => Some (EmptyString, rest)
          | None => None
          end
      end
  end.

Definition is_valid_path (path : string) : bool :=
  if is_empty path || (512 <? str_len path)%Z then false
  else if contains_byte "\" path || contains_byte nul path then false
  else if String.eqb path "." || String.eqb path ".." || starts_with_char "." path then false
  else if existsb (fun c => String.eqb c ".." || is_empty c) (split_char "/" path) then false
  else String.eqb (trim path) path.

Definition parse_generation_line (line : string) : option (string * Z) :=
  let line := trim line in
  if is_empty line then None else
  match rsplit_space line with
  | None => None
  | Some (path, generation) =>
      let path := trim path in
      let generation := trim generation in
      if negb (is_valid_path path) then None
      else match parse_unsigned u64_max generation with
           | Some generation => Some (path, generation)
           | None => None
           end
  end.

(** [entry(path).and_modify(max).or_insert(generation)]. *)
Definition note (out : Generations) (r : string * Z) : Generations :=
  match out !! r.1 with
  | Some e => <[r.1 := Z.max e r.2]> out
  | None => <[r.1 := r.2]> out
  end.

Definition parse_generations (text : string) : Generations :=
  fold_left (fun out line => match parse_generation_line line with Some r => note out r | None => out end)
    (buf_lines text) ∅.

Definition key_le (a b : string * Z) : Prop := String.compare a.1 b.1 <> Gt.

#[export] Instance key_le_dec a b : Decision (key_le a b).
Proof. unfold key_le. apply _. Defined.

(** The entries of a [BTreeMap], in the order of the keys. *)
Definition entries (m : Generations) : list (string * Z) := merge_sort key_le (map_to_list m).

Definition render_line (r : string * Z) : string := r.1 +:+ String " " (fmt_Z r.2 +:+ String lf "").

Definition render_generations (m : Generations) : string :=
  fold_left (fun s r => s +:+ render_line r) (entries m) "".

Definition merge_generations (a b : Generations) : Generations := fold_left note (entries b) a.

Section File.
Context {io_error : Type} (no_parent : Path -> io_error) (path : Path).

(** [read_to_string] fails on a missing file and on bytes that are not UTF-8. *)
Definition load_generations (io : StoreIo io_error) (d : FS) : Generations :=
  match read_err io, d !! path with
  | None, Some file => if utf8 (file_content file) then parse_generations (file_content file) else ∅
  | _, _ => ∅
  end.

Definition save_generations (io : StoreIo io_error) (map : Generations) (d : FS)
  : result io_error unit * list FS :=
  write_atomic_private no_parent (create_err io) (write_faults io) path (render_generations map)
    (tmp_pid io) (tmp_nanos io) (tmp_seq io) d.

Definition bump_generation (io : StoreIo io_error) (name : string) (d : FS) : result io_error Z * list FS :=
  let map := load_generations io d in
  let next := saturating_add64 (default 0%Z (map !! name)) 1 in
  let '(r, trace) := save_generations io (<[name := next]> map) d in
  (result_map (fun _ => next) r, trace).
End File.

(** ** The protection check *)

Inductive ProtectionStatus := Protected | Lag | Stale | Missing | Tombstone.

#[export] Instance ProtectionStatus_eq_dec : EqDecision ProtectionStatus.
Proof. solve_decision. Defined.

Record ProtectionDecision := {
  allow : bool;
  protection_status : ProtectionStatus;
  reason : string;
  weak : bool
}.

Definition check_protection (path : string) (local_gen sealed_gen : option Z) (tombstoned : bool)
  : ProtectionDecision :=
  let decide_as allow protection_status reason weak :=
    {| allow := allow; protection_status := protection_status; reason := "'" +:+ path +:+ "' " +:+ reason; weak := weak |} in
  if tombstoned then decide_as false Tombstone "is tombstoned upstream" false else
  match sealed_gen with
  | None => decide_as true Missing "has no sealed generation; weak allow" true
  | Some sealed =>
      match local_gen with
      | None => decide_as true Missing "has no local generation; weak allow" true
      | Some local =>
          if (sealed <=? local)%Z then
            decide_as true Protected ("up to date (" +:+ fmt_Z local +:+ " >= " +:+ fmt_Z sealed +:+ ")") false
          else if (sealed - local =? 1)%Z then
            decide_as false Lag ("lags by 1 (" +:+ fmt_Z local +:+ " < " +:+ fmt_Z sealed +:+ ")") false
          else
            decide_as false Stale ("stale (" +:+ fmt_Z local +:+ " < " +:+ fmt_Z sealed +:+ ")") false
      end
  end.

Record GenerationCensus := {
  sealed : nat; lag : nat; stale : nat; missing : nat; tombstones : nat; fully_protected : nat
}.

Definition count_status (out : GenerationCensus) (s : ProtectionStatus) : GenerationCensus :=
  match s with
  | Protected => {| sealed := S (sealed out); lag := lag out; stale := stale out; missing := missing out;
                    tombstones := tombstones out; fully_protected := S (fully_protected out) |}
  | Lag => {| sealed := sealed out; lag := S (lag out); stale := stale out; missing := missing out;
              tombstones := tombstones out; fully_protected := fully_protected out |}
  | Stale => {| sealed := sealed out; lag := lag out; stale := S (stale out); missing := missing out;
                tombstones := tombstones out; fully_protected := fully_protected out |}
  | Missing => {| sealed := sealed out; lag := lag out; stale := stale out; missing := S (missing out);
                  tombstones := tombstones out; fully_protected := fully_protected out |}
  | Tombstone => {| sealed := sealed out; lag := lag out; stale := stale out; missing := missing out;
                    tombstones := S (tombstones out); fully_protected := fully_protected out |}
  end.

Definition has_key (m : Generations) (k : string) : bool := match m !! k with Some _ => true | None => false end.

Definition census_including_wallets (local sealed_gens : Generations) (dead : gset string) (wallet_names : list string)
  : GenerationCensus :=
  let keys := dom local ∪ dom sealed_gens ∪ dead in
  let out := fold_left (fun out k =>
      count_status out (protection_status
        (check_protection k (local !! k) (sealed_gens !! k) (bool_decide (k ∈ dead)))))
    (elements keys) {| sealed := 0; lag := 0; stale := 0; missing := 0; tombstones := 0; fully_protected := 0 |} in
  let wallet_only := length (List.filter (fun w =>
      negb (has_key local w) && negb (has_key sealed_gens w) && negb (bool_decide (w ∈ dead))) wallet_names) in
  {| sealed := sealed out + wallet_only; lag := lag out; stale := stale out; missing := missing out;
     tombstones := tombstones out; fully_protected := fully_protected out + wallet_only |}.

Definition census (local sealed_gens : Generations) (dead : gset string) : GenerationCensus :=
  census_including_wallets local sealed_gens dead [].

(** ** Merging *)

(** The greater of two generations, a missing one being the least. *)
Definition join (x y : option Z) : option Z := union_with (fun a b => Some (Z.max a b)) x y.

#[export] Instance join_comm : Comm (=) join.
Proof. intros [x|] [y|]; try done. cbn. f_equal. lia. Qed.

#[export] Instance join_assoc : Assoc (=) join.
Proof. intros [x|] [y|] [z|]; try done. cbn. f_equal. lia. Qed.

#[export] Instance join_idemp : IdemP (=) join.
Proof. intros [x|]; [|done]. cbn. f_equal. lia. Qed.

#[export] Instance join_left_id : LeftId (=) None join.
Proof. by intros [x|]. Qed.

(** The greatest generation that the records give a path. *)
Fixpoint best (l : list (string * Z)) (k : string) : option Z :=
  match l with
  | [] => None
  | r :: l' => if decide (r.1 = k) then join (Some r.2) (best l' k) else best l' k
  end.

Lemma note_lookup m r k : note m r !! k = if decide (r.1 = k) then join (m !! k) (Some r.2) else m !! k.
Proof.
  unfold note. destruct (decide (r.1 = k)) as [<-|Hk].
  - destruct (m !! r.1) as [e|]; by rewrite lookup_insert_eq.
  - destruct (m !! r.1) as [e|]; by rewrite lookup_insert_ne.
Qed.

Lemma fold_note l m k : fold_left note l m !! k = join (m !! k) (best l k).
Proof.
  revert m. induction l as [|r l IH]; intros m; cbn [fold_left].
  - by destruct (m !! k).
  - rewrite IH, note_lookup. cbn. destruct (decide (r.1 = k)); [|done]. by rewrite assoc by apply _.
Qed.

Lemma best_perm l l' k : l ≡ₚ l' -> best l k = best l' k.
Proof.
  induction 1 as [|r l l' _ IH|r r' l|l1 l2 l3 _ IH1 _ IH2]; cbn; [done|by rewrite IH| |congruence].
  destruct (decide (r.1 = k)), (decide (r'.1 = k)); try done. rewrite !(assoc join), (comm join (Some r.2)). done.
Qed.

Lemma best_map l k : NoDup l.*1 -> best l k = (list_to_map l : Generations) !! k.
Proof.
  induction l as [|[k' v] l IH]; [done|]. intros [Hk Hl]%NoDup_cons. cbn. destruct (decide (k' = k)) as [->|Hne].
  - rewrite lookup_insert_eq, (IH Hl). rewrite not_elem_of_list_to_map_1 by done. done.
  - rewrite lookup_insert_ne by done. by apply IH.
Qed.

Lemma best_entries m k : best (entries m) k = m !! k.
Proof.
  unfold entries. rewrite (best_perm _ (map_to_list m)) by apply merge_sort_Permutation.
  rewrite best_map by apply NoDup_fst_map_to_list. by rewrite list_to_map_to_list.
Qed.

Lemma merge_lookup a b k : merge_generations a b !! k = join (a !! k) (b !! k).
Proof. unfold merge_generations. by rewrite fold_note, best_entries. Qed.

#[export] Instance merge_comm : Comm (=) merge_generations.
Proof. intros a b. apply map_eq. intros k. rewrite !merge_lookup. apply (comm join). Qed.

#[export] Instance merge_assoc : Assoc (=) merge_generations.
Proof. intros a b c. apply map_eq. intros k. rewrite !merge_lookup. apply (assoc join). Qed.

#[export] Instance merge_idemp : IdemP (=) merge_generations.
Proof. intros a. apply map_eq. intros k. rewrite merge_lookup. apply (idemp join). Qed.

#[export] Instance merge_left_id : LeftId (=) ∅ merge_generations.
Proof. intros a. apply map_eq. intros k. rewrite merge_lookup, lookup_empty. by destruct (a !! k). Qed.

Fixpoint joined (l : list Generations) (k : string) : option Z :=
  match l with
  | [] => None
  | m :: l' => join (m !! k) (joined l' k)
  end.

(** What a sequence of merges gives a path. *)
Lemma merged_lookup l a k :
  fold_left merge_generations l a !! k = join (a !! k) (joined l k).
Proof.
  revert a. induction l as [|b l IH]; intros a; cbn [fold_left joined]; [by destruct (a !! k)|].
  by rewrite IH, merge_lookup, (assoc join).
Qed.

Lemma joined_above l k m v : m ∈ l -> m !! k = Some v ->
  exists v', joined l k = Some v' /\ (v <= v')%Z.
Proof.
  intros Hm Hv. induction l as [|b l IH]; [by apply elem_of_nil in Hm|]. cbn [joined].
  apply elem_of_cons in Hm as [<-|Hm].
  - rewrite Hv. destruct (joined l k) as [u|]; cbn; [exists (Z.max v u)|exists v]; split; done || lia.
  - destruct (IH Hm) as (v' & -> & Hle). destruct (b !! k) as [u|]; cbn; [exists (Z.max u v')|exists v']; split; done || lia.
Qed.

Lemma joined_from l k v : joined l k = Some v ->
  exists m, m ∈ l /\ (m : Generations) !! k = Some v.
Proof.
  revert v. induction l as [|b l IH]; intros v; [done|]. cbn [joined].
  destruct (joined l k) as [u|] eqn:E, (b !! k) as [w|] eqn:Hb; cbn; try done.
  - intros [= <-]. destruct (Z.max_spec u w) as [[_ Hmax]|[_ Hmax]];
      [exists b|destruct (IH u eq_refl) as (m & Hm & Hv); exists m]; rewrite Z.max_comm, Hmax; set_solver.
  - intros [= <-]. destruct (IH u eq_refl) as (m & Hm & Hv). exists m. set_solver.
  - intros [= <-]. exists b. set_solver.
Qed.

(** Peers that have merged the same generation maps hold the same map, in whatever
    order and however often they have merged them. *)
Theorem peers_converge (l l' : list Generations) :
  (forall m, m ∈ l <-> m ∈ l') ->
  fold_left merge_generations l ∅ = fold_left merge_generations l' ∅.
Proof.
  intros Hl. apply map_eq. intros k. rewrite !merged_lookup, lookup_empty.
  assert (H : forall l1 l2, (forall m, m ∈ l1 <-> m ∈ l2) -> forall v,
    joined l1 k = Some v ->
    exists v', joined l2 k = Some v' /\ (v <= v')%Z).
  { intros l1 l2 H12 v (m & Hm & Hv)%joined_from. by eapply joined_above; [apply H12|]. }
  rewrite !(left_id None join).
  destruct (joined l k) as [v|] eqn:E, (joined l' k) as [v'|] eqn:E'; try done.
  - destruct (H l l' Hl v E) as (u & Hu & Hle), (H l' l (fun m => iff_sym (Hl m)) v' E') as (u' & Hu' & Hle').
    f_equal. assert (u = v') by congruence. assert (u' = v) by congruence. lia.
  - destruct (H l l' Hl v E) as (u & Hu & _). congruence.
  - destruct (H l' l (fun m => iff_sym (Hl m)) v' E') as (u & Hu & _). congruence.
Qed.

(** ** Reading what was written *)

(** A record the file can carry. *)
Definition recordable (r : string * Z) : Prop :=
  is_valid_path r.1 = true /\ contains_byte lf r.1 = false /\ (0 <= r.2 <= u64_max)%Z.

Definition well_formed (m : Generations) : Prop := map_Forall (fun k v => recordable (k, v)) m.

Lemma valid_path_facts p : is_valid_path p = true -> p <> "" /\ trim p = p.
Proof.
  unfold is_valid_path. destruct (is_empty p) eqn:He; [done|]. apply is_empty_false in He.
  destruct (512 <? str_len p)%Z; [done|]. destruct (contains_byte "\" p || _); [done|].
  destruct (_ || starts_with_char "." p); [done|]. destruct (existsb _ _); [done|]. by intros H%String.eqb_eq.
Qed.

Lemma rsplit_digits t : all_bytes is_ascii_digit t = true -> rsplit_space t = None.
Proof.
  induction t as [|c t IH]; [done|]. intros [Hc Ht]%andb_true_iff. cbn [rsplit_space]. rewrite (IH Ht).
  pose proof (digits_no_space c t Hc) as H. unfold space_first in H. by rewrite H.
Qed.

Lemma rsplit_last p t : all_bytes is_ascii_digit t = true -> rsplit_space (p +:+ String " " t) = Some (p, t).
Proof.
  intros Ht. induction p as [|c p IH]; cbn [String.append rsplit_space]; [by rewrite (rsplit_digits t Ht)|].
  by rewrite IH.
Qed.

Lemma parse_rendered_line p g : is_valid_path p = true -> (0 <= g <= u64_max)%Z ->
  parse_generation_line (p +:+ String " " (fmt_Z g)) = Some (p, g).
Proof.
  intros Hp Hg. destruct (valid_path_facts p Hp) as [Hne Ht].
  destruct (fmt_Z_spec g) as (Hg1 & Hg2 & _); [lia|].
  unfold parse_generation_line. rewrite trim_padded by done.
  assert (is_empty (p +:+ String " " (fmt_Z g)) = false) as -> by by destruct p.
  rewrite rsplit_last by done. rewrite Ht, trim_digits, Hp, parse_fmt_Z by done. done.
Qed.

Lemma buf_lines_rendered r text : contains_byte lf r.1 = false -> (0 <= r.2)%Z ->
  buf_lines (render_line r +:+ text) = (r.1 +:+ String " " (fmt_Z r.2)) :: buf_lines text.
Proof.
  intros Hp Hg. destruct (fmt_Z_spec r.2 Hg) as (Hg1 & Hg2 & _).
  assert (Hr : render_line r +:+ text = (r.1 +:+ String " " (fmt_Z r.2)) +:+ String lf text).
  { unfold render_line. rewrite <- !app_assoc_str. cbn [String.append]. by rewrite <- app_assoc_str. }
  rewrite Hr. apply buf_lines_app.
  - apply negb_false_iff. fold (contains_byte lf (r.1 +:+ String " " (fmt_Z r.2))).
    rewrite contains_byte_app, contains_byte_cons, Hp, (digits_lack lf) by done. done.
  - unfold strip_cr. destruct (strip_suffix _ _) as [x|] eqn:E; [exfalso|done].
    apply strip_suffix_some, (f_equal last_byte) in E. rewrite !last_byte_app in E by done.
    change (String " " (fmt_Z r.2)) with (String " " "" +:+ fmt_Z r.2) in E. rewrite last_byte_app in E by done.
    destruct (last_byte_digit _ Hg1 Hg2) as (c & Hc & Hd). rewrite Hc in E. injection E as ->. done.
Qed.

Definition render_records (l : list (string * Z)) : string := fold_right (fun r s => render_line r +:+ s) "" l.

Lemma render_fold l s : fold_left (fun s r => s +:+ render_line r) l s = s +:+ render_records l.
Proof.
  revert s. induction l as [|r l IH]; intros s; cbn; [by rewrite app_nil_r_str|]. by rewrite IH, <- app_assoc_str.
Qed.

Definition read_line (out : Generations) (line : string) : Generations :=
  match parse_generation_line line with Some r => note out r | None => out end.

Lemma parse_records l text m : Forall recordable l ->
  fold_left read_line (buf_lines (render_records l +:+ text)) m =
  fold_left read_line (buf_lines text) (fold_left note l m).
Proof.
  revert m. induction l as [|r l IH]; intros m Hl; [done|]. apply Forall_cons in Hl as [(Hp & Hlf & Hg) Hl].
  cbn [render_records fold_right]. fold (render_records l). rewrite <- app_assoc_str.
  rewrite buf_lines_rendered by (done || lia). cbn [fold_left]. rewrite <- (IH _ Hl).
  unfold read_line at 2. rewrite parse_rendered_line by done. by destruct r.
Qed.

Lemma entries_recordable m : well_formed m -> Forall recordable (entries m).
Proof.
  intros H. apply Forall_forall. intros [k v] Hkv. unfold entries in Hkv.
  rewrite merge_sort_Permutation in Hkv. apply elem_of_map_to_list in Hkv. by apply (H k v).
Qed.

(** A map of recordable generations reads back from its text, and the text of two
    maps one after the other, which is what a union merge of two versions of the file
    leaves, reads as their merge. *)
Theorem parse_rendered a b : well_formed a -> well_formed b ->
  parse_generations (render_generations a) = a /\
  parse_generations (render_generations a +:+ render_generations b) = merge_generations a b.
Proof.
  intros Ha%entries_recordable Hb%entries_recordable.
  assert (H : forall text, parse_generations (render_generations a +:+ text) = fold_left read_line (buf_lines text) a).
  { intros text. unfold render_generations. rewrite render_fold. unfold parse_generations.
    change (fold_left _ ?l ∅) with (fold_left read_line l ∅). cbn [String.append]. rewrite parse_records by done.
    f_equal. change (fold_left note (entries a) ∅) with (merge_generations ∅ a). apply (left_id ∅ merge_generations). }
  split.
  - rewrite <- (app_nil_r_str (render_generations a)). by rewrite H.
  - rewrite H. unfold render_generations. rewrite render_fold. cbn [String.append].
    rewrite <- (app_nil_r_str (render_records (entries b))). by rewrite parse_records.
Qed.

(** ** Bumping *)

Section Bump.
Context {io_error : Type} (no_parent : Path -> io_error) (path : Path).

(** A disk whose file, if there is one, is the text of [m]. *)
Definition on_disk (m : Generations) (d : FS) : Prop :=
  match d !! path with
  | None => m = ∅
  | Some file => file_content file = render_generations m
  end.

Lemma load_on_disk (io : StoreIo io_error) m d : read_err io = None -> well_formed m -> utf8 (render_generations m) = true ->
  on_disk m d -> load_generations path io d = m.
Proof.
  unfold load_generations, on_disk. intros -> Hm Hu. destruct (d !! path) as [f|]; [|by intros ->].
  intros ->. rewrite Hu. by apply (parse_rendered m ∅).
Qed.

(** A bump of a recordable path raises its generation by one, up to the maximum,
    and no other; a failed bump, or a crash in the middle of one, leaves the old file
    or the new one. *)
Theorem bump_generation_spec (io : StoreIo io_error) m name d :
  read_err io = None -> well_formed m -> utf8 (render_generations m) = true -> on_disk m d ->
  is_valid_path name = true -> contains_byte lf name = false ->
  let next := saturating_add64 (default 0%Z (m !! name)) 1 in
  let m' := <[name := next]> m in
  well_formed m' /\ (forall k, join (m !! k) (m' !! k) = m' !! k) /\
  (forall d', d' ∈ (bump_generation no_parent path io name d).2 -> on_disk m d' \/ on_disk m' d') /\
  match (bump_generation no_parent path io name d).1 with
  | Ok n => n = next /\ on_disk m' (default d (last (bump_generation no_parent path io name d).2))
  | Err _ => on_disk m (default d (last (bump_generation no_parent path io name d).2))
  end.
Proof.
  intros Hr Hm Hu Hd Hn Hlf. set (next := saturating_add64 _ _). set (m' := <[name := next]> m).
  assert (Hold : (0 <= default 0 (m !! name) <= u64_max)%Z).
  { destruct (m !! name) as [v|] eqn:E; [by apply (Hm name v) in E as (_ & _ & ?)|by vm_compute]. }
  assert (Hnext : (0 <= next <= u64_max /\ default 0 (m !! name) <= next)%Z) by (unfold next, saturating_add64; lia).
  assert (Hgrow : forall k, join (m !! k) (m' !! k) = m' !! k).
  { intros k. unfold m'. destruct (decide (name = k)) as [<-|Hk].
    - rewrite lookup_insert_eq. destruct (m !! name); cbn in *; [f_equal; lia|done].
    - rewrite lookup_insert_ne by done. apply (idemp join). }
  assert (Hm' : well_formed m') by (apply map_Forall_insert_2; [|exact Hm]; split; [done|]; split; [done|]; apply Hnext).
  split; [done|]. split; [done|]. unfold bump_generation.
  rewrite (load_on_disk io m d Hr Hm Hu Hd). fold next m'. unfold save_generations.
  pose proof (write_atomic_replaced no_parent (create_err io) (write_faults io) path (render_generations m')
    MODE_PRIVATE_FILE (tmp_pid io) (tmp_nanos io) (tmp_seq io) d) as Hw. unfold write_atomic_private.
  destruct (write_atomic _ _ _ _ _ _ _ _ _ _) as [r trace]. destruct Hw as [Hall Hfin]. cbn [fst snd].
  assert (Hsame : forall d', d' !! path = d !! path -> on_disk m d') by (unfold on_disk; by intros d' ->).
  assert (Hnew : forall d', d' !! path = Some {| file_mode := MODE_PRIVATE_FILE; file_content := render_generations m' |} ->
    on_disk m' d') by (unfold on_disk; by intros d' ->).
  split.
  - intros d' Hd'. rewrite Forall_forall in Hall. destruct (Hall d' Hd'); auto.
  - destruct r as [[]|e]; cbn; auto.
Qed.

(** The file is lost when it cannot be read: the bump starts again from nothing. *)
Lemma bump_forgets (io : StoreIo io_error) e name d n :
  read_err io = Some e -> (bump_generation no_parent path io name d).1 = Ok n ->
  n = 1%Z /\ on_disk {[name := 1%Z]} (default d (last (bump_generation no_parent path io name d).2)).
Proof.
  intros Hr. unfold bump_generation, load_generations. rewrite Hr. cbn [default]. unfold save_generations.
  rewrite lookup_empty. cbn [default].
  pose proof (write_atomic_replaced no_parent (create_err io) (write_faults io) path
    (render_generations (<[name := saturating_add64 0 1]> ∅)) MODE_PRIVATE_FILE (tmp_pid io) (tmp_nanos io) (tmp_seq io) d) as Hw.
  unfold write_atomic_private. destruct (write_atomic _ _ _ _ _ _ _ _ _ _) as [[[]|] trace]; [|done].
  destruct Hw as [_ Hfin]. cbn. intros [= <-]. split; [done|]. unfold on_disk. by rewrite Hfin.
Qed.
End Bump.

(** ** Protection *)

(** A read is allowed unless the path is dead upstream or known to be behind. *)
Lemma check_protection_allow path local sealed tombstoned :
  allow (check_protection path local sealed tombstoned) = true <->
  tombstoned = false /\ forall l s, local = Some l -> sealed = Some s -> (s <= l)%Z.
Proof.
  unfold check_protection. destruct tombstoned; [by split; [|intros [? _]]|].
  destruct sealed as [s|]; [|by split]. destruct local as [l|]; [|by split].
  destruct (Z.leb_spec s l); cbn.
  - split; [|done]. intros _. split; [done|]. by intros ? ? [= <-] [= <-].
  - destruct (_ =? 1)%Z; cbn; (split; [done|]); intros [_ H1]; specialize (H1 _ _ eq_refl eq_refl); lia.
Qed.

(** After a merge no peer's map puts a path behind: the check against the
    generations of a peer already merged denies nothing but tombstones. *)
Theorem merged_protects a b path :
  allow (check_protection path (merge_generations a b !! path) (a !! path) false) = true /\
  allow (check_protection path (merge_generations a b !! path) (b !! path) false) = true.
Proof.
  rewrite !check_protection_allow, merge_lookup. split; (split; [done|]); intros l s Hl Hs.
  - rewrite Hs in Hl. destruct (b !! path); cbn in Hl; injection Hl as <-; lia.
  - rewrite Hs in Hl. destruct (a !! path); cbn in Hl; injection Hl as <-; lia.
Qed.

Definition counted (c : GenerationCensus) : nat := sealed c + lag c + stale c + missing c + tombstones c.

(** Every path of either map or among the tombstones is counted once, and every wallet
    name that is none of them once per occurrence. *)
Theorem census_counts local sealed_gens dead wallet_names :
  counted (census_including_wallets local sealed_gens dead wallet_names) =
    size (dom local ∪ dom sealed_gens ∪ dead) +
    length (List.filter (fun w => negb (has_key local w) && negb (has_key sealed_gens w) &&
                                  negb (bool_decide (w ∈ dead))) wallet_names).
Proof.
  unfold census_including_wallets. set (f := fun out k => _). set (wallets := length _).
  assert (H : forall l c, counted (fold_left f l c) = counted c + length l).
  { induction l as [|k l IH]; intros c; cbn; [lia|]. rewrite IH. unfold f at 1.
    destruct (protection_status _); unfold counted; cbn; lia. }
  specialize (H (elements (dom local ∪ dom sealed_gens ∪ dead))
    {| sealed := 0; lag := 0; stale := 0; missing := 0; tombstones := 0; fully_protected := 0 |}).
  unfold counted, size, set_size in *. cbn in *. lia.
Qed.

(** ** Concrete files *)

Definition demo_generations : Generations := <["github/personal" := 7%Z]> {["my notes" := 2%Z]}.

Lemma demo_generations_formed : well_formed demo_generations.
Proof. repeat apply map_Forall_insert_2; [| |apply map_Forall_empty]; vm_compute; split_and!; congruence. Qed.

Lemma peers_converge_witness :
  fold_left merge_generations [demo_generations; {["my notes" := 5%Z]}] ∅ =
  fold_left merge_generations [{["my notes" := 5%Z]}; demo_generations; {["my notes" := 5%Z]}] ∅.
Proof. apply peers_converge. set_solver. Defined.

Lemma parse_rendered_witness : parse_generations (render_generations demo_generations) = demo_generations.
Proof. apply (parse_rendered demo_generations demo_generations); apply demo_generations_formed. Defined.

Definition demo_generations_path : Path := (Some "/v", Some "generations").

Definition demo_generations_disk : FS :=
  {[demo_generations_path := {| file_mode := MODE_PRIVATE_FILE; file_content := render_generations demo_generations |}]}.

Lemma bump_generation_spec_witness :
  forall d', d' ∈ (bump_generation (fun _ => "") demo_generations_path demo_io "my notes" demo_generations_disk).2 ->
    on_disk demo_generations_path demo_generations d' \/
    on_disk demo_generations_path (<["my notes" := 3%Z]> demo_generations) d'.
Proof.
  exact (proj1 (proj2 (proj2 (bump_generation_spec (fun _ => "") demo_generations_path demo_io demo_generations
    "my notes" demo_generations_disk eq_refl demo_generations_formed eq_refl eq_refl eq_refl eq_refl)))).
Defined.

(** A path that the reader drops never gets past its first generation. *)
Lemma hidden_path_never_grows :
  let bump d := bump_generation (fun _ => "") demo_generations_path demo_io ".hidden" d in
  let d1 := default ∅ (last (bump ∅).2) in
  (bump ∅).1 = Ok 1%Z /\ (bump d1).1 = Ok 1%Z.
Proof. vm_compute. split; reflexivity. Qed.
