(* ===== verification/Journal.v ===== *)
(** * The journal of renames and rotations

    crates/oc-secret/src/journal.rs: an operation stages the new file and its names in
    a directory of its own, commits by writing [READY] last, and is installed, or
    rolled back, by whoever finds the directory.  Directories are not in the disk map:
    what a listing returns, and the order in which a tree is removed, are readings of
    the world. *)

From Stdlib Require Import ZArith Lia Ascii String Bool.
From stdpp Require Import base list strings gmap.
From S2P Require Import Prelude Str Decimal Names Files Trace DemoText.

Local Open Scope oc_scope.

Definition STAGING_PREFIX : string := ".staging-".
Definition READY_FILE : string := "READY".

Record JournalMeta := { src : string; dst : string }.

(** [serde_json] on the metadata; writing two strings cannot fail. *)
Class MetaJson (json_error : Type) := {
  meta_from_json : string -> result json_error JournalMeta;
  meta_to_json : JournalMeta -> string
}.

Class MetaJsonLaws {json_error} (J : MetaJson json_error) : Prop :=
  meta_roundtrip m : meta_from_json (meta_to_json m) = Ok m.

(** [std::fs::write]: which call fails, and how far the write got; the mode of a new
    file. *)
Record PlainWrite (io_error : Type) := {
  plain_open_err : option io_error;
  plain_write_err : option (string * io_error);
  plain_mode : Z
}.
Arguments plain_open_err {io_error}.
Arguments plain_write_err {io_error}.
Arguments plain_mode {io_error}.

(** What one operation meets. *)
Record JournalIo (io_error : Type) := {
  stage_dir_err : option io_error;
  dst_write : PlainWrite io_error;
  meta_write : PlainWrite io_error;
  read_meta_err : option io_error;
  read_dst_err : option io_error;
  not_found : io_error;
  parent_dir_err : option io_error;
  journal_dir_err : option io_error;
  journal_faults : WriteFaults io_error;
  journal_pid : Z; journal_nanos : Z; journal_seq : Z;
  remove_src_err : option io_error;
  tree_order : list Path -> list Path;
  tree_err : option (nat * io_error)
}.
Arguments stage_dir_err {io_error}.
Arguments dst_write {io_error}.
Arguments meta_write {io_error}.
Arguments read_meta_err {io_error}.
Arguments read_dst_err {io_error}.
Arguments not_found {io_error}.
Arguments parent_dir_err {io_error}.
Arguments journal_dir_err {io_error}.
Arguments journal_faults {io_error}.
Arguments journal_pid {io_error}.
Arguments journal_nanos {io_error}.
Arguments journal_seq {io_error}.
Arguments remove_src_err {io_error}.
Arguments tree_order {io_error}.
Arguments tree_err {io_error}.

Definition staging_dir (root op_id : string) : string := join root (STAGING_PREFIX +:+ op_id).

Section Journal.
Context {io_error json_error : Type} {J : MetaJson json_error}.
Context (no_parent : Path -> io_error) (invalid_data : json_error -> io_error).

Abbreviation io_result A := (result io_error A * list FS)%type.

Definition plain_file (w : PlainWrite io_error) (d : FS) (path : Path) (contents : string) : File := {|
  file_mode := match d !! path with Some f => file_mode f | None => plain_mode w end;
  file_content := contents
|}.

(** [std::fs::write]: truncate, then write. *)
Definition plain_write (w : PlainWrite io_error) (path : Path) (contents : string) (d : FS) : io_result unit :=
  match plain_open_err w with
  | Some e => (Err e, [d])
  | None =>
      let d1 := <[path := plain_file w d path ""]> d in
      match plain_write_err w with
      | Some (partial, e) => (Err e, [d; d1; <[path := plain_file w d path partial]> d])
      | None => (Ok tt, [d; d1; <[path := plain_file w d path contents]> d])
      end
  end.

Definition staged (staging name : string) : Path := (Some staging, Some name).

Definition stage_operation (io : JournalIo io_error) (root op_id src_name dst_name dst_bytes : string) (d : FS)
  : io_result string :=
  let dir := staging_dir root op_id in
  match stage_dir_err io with
  | Some e => (Err e, [d])
  | None =>
      then_on (plain_write (dst_write io) (staged dir "dst") dst_bytes d) (fun _ d =>
      then_on (plain_write (meta_write io) (staged dir "meta.json")
                 (meta_to_json {| src := src_name; dst := dst_name |}) d) (fun _ d => (Ok dir, [d])) d) d
  end.

Definition mark_ready (io : JournalIo io_error) (staging : string) (d : FS) : io_result unit :=
  write_atomic_private no_parent (journal_dir_err io) (journal_faults io) (staged staging READY_FILE) "READY"
    (journal_pid io) (journal_nanos io) (journal_seq io) d.

Definition files_in (dir : string) (d : FS) : list Path :=
  List.filter (fun p => bool_decide (p.1 = Some dir)) (map_to_list d).*1.

(** [remove_dir_all]: one file at a time, failing at the one the world says. *)
Fixpoint remove_each (err : option (nat * io_error)) (i : nat) (l : list Path) (d : FS) : io_result unit :=
  match err with
  | Some (k, e) => if (k =? i)%nat then (Err e, [d]) else
      match l with
      | [] => (Ok tt, [d])
      | p :: l' => let '(r, trace) := remove_each err (S i) l' (delete p d) in (r, d :: trace)
      end
  | None =>
      match l with
      | [] => (Ok tt, [d])
      | p :: l' => let '(r, trace) := remove_each err (S i) l' (delete p d) in (r, d :: trace)
      end
  end.

Definition remove_dir_all (io : JournalIo io_error) (dir : string) (d : FS) : io_result unit :=
  remove_each (tree_err io) 0 (tree_order io (files_in dir d)) d.

Definition read_file (err : option io_error) (missing : io_error) (path : Path) (d : FS) : result io_error string :=
  match err, d !! path with
  | Some e, _ => Err e
  | None, None => Err missing
  | None, Some f => Ok (file_content f)
  end.

Definition exists_file (path : Path) (d : FS) : bool := match d !! path with Some _ => true | None => false end.

Definition remove_src (io : JournalIo io_error) (resolve : string -> Path) (meta : JournalMeta) (d : FS) : io_result unit :=
  if String.eqb (src meta) (dst meta) then (Ok tt, [d])
  else if exists_file (resolve (dst meta)) d && exists_file (resolve (src meta)) d then
    match remove_src_err io with
    | Some e => (Err e, [d])
    | None => (Ok tt, [d; delete (resolve (src meta)) d])
    end
  else (Ok tt, [d]).

Definition install_committed (io : JournalIo io_error) (staging : string) (resolve : string -> Path) (d : FS)
  : io_result unit :=
  match (let? text := read_file (read_meta_err io) (not_found io) (staged staging "meta.json") d in
         result_map_err invalid_data (meta_from_json text)) with
  | Err e => (Err e, [d])
  | Ok meta =>
      match (match (resolve (dst meta)).1 with Some _ => parent_dir_err io | None => None end) with
      | Some e => (Err e, [d])
      | None =>
          match read_file (read_dst_err io) (not_found io) (staged staging "dst") d with
          | Err e => (Err e, [d])
          | Ok bytes =>
              then_on (write_atomic_private no_parent (journal_dir_err io) (journal_faults io) (resolve (dst meta)) bytes
                         (journal_pid io) (journal_nanos io) (journal_seq io) d) (fun _ d =>
              then_on (remove_src io resolve meta d) (fun _ d => remove_dir_all io staging d) d) d
          end
      end
  end.

(** One entry of the listing. *)
Definition recover_entry (io : JournalIo io_error) (root name : string) (resolve : string -> Path)
    (counts : nat * nat) (d : FS) : (nat * nat) * list FS :=
  if negb (starts_with STAGING_PREFIX name) then (counts, [d]) else
  let staging := join root name in
  if exists_file (staged staging READY_FILE) d then
    match install_committed io staging resolve d with
    | (Ok _, trace) => ((S counts.1, counts.2), trace)
    | (Err _, trace) =>
        let '(_, trace') := remove_dir_all io staging (default d (last trace)) in
        ((counts.1, S counts.2), trace ++ trace')
    end
  else
    let '(_, trace) := remove_dir_all io staging d in ((counts.1, S counts.2), trace).

(** The entries of the listing, each with what it meets; [None] is a root that cannot
    be read. *)
Fixpoint recover_entries (root : string) (resolve : string -> Path) (l : list (string * JournalIo io_error))
    (counts : nat * nat) (d : FS) : (nat * nat) * list FS :=
  match l with
  | [] => (counts, [d])
  | (name, io) :: l' =>
      let '(counts', trace) := recover_entry io root name resolve counts d in
      let '(counts'', trace') := recover_entries root resolve l' counts' (default d (last trace)) in
      (counts'', trace ++ trace')
  end.

Definition recover_journal (root : string) (resolve : string -> Path)
    (listing : option (list (string * JournalIo io_error))) (d : FS) : (nat * nat) * list FS :=
  match listing with
  | None => ((0, 0), [d])
  | Some l => recover_entries root resolve l (0, 0) d
  end.
End Journal.

(** ** Traces *)

Lemma remove_each_shrinks {io_error : Type} (err : option (nat * io_error)) i l d :
  Forall (fun d' => forall q, (d' !! q = d !! q \/ d' !! q = None) /\ (q ∉ l -> d' !! q = d !! q))
    (remove_each err i l d).2.
Proof.
  revert i d. induction l as [|p l IH]; intros i d.
  - destruct err as [[k e]|]; cbn; [destruct (k =? i)%nat|]; repeat constructor; auto.
  - assert (H : Forall (fun d' => forall q, (d' !! q = d !! q \/ d' !! q = None) /\ (q ∉ p :: l -> d' !! q = d !! q))
      (d :: (remove_each err (S i) l (delete p d)).2)).
    { constructor; [by auto|]. eapply Forall_impl; [apply IH|]. intros d' H q. destruct (H q) as [Ho Hn].
      destruct (decide (q = p)) as [->|Hq].
      - rewrite lookup_delete_eq in Ho. split; [right; tauto|set_solver].
      - rewrite lookup_delete_ne in Ho, Hn by done. split; [done|]. intros Hin. apply Hn. set_solver. }
    cbn [remove_each]. destruct (remove_each err (S i) l (delete p d)) as [r t] eqn:E. cbn [fst snd] in *.
    destruct err as [[k e]|]; [|done]. destruct (k =? i)%nat; [|done]. by repeat constructor; auto.
Qed.

Lemma files_in_spec dir d p : p ∈ files_in dir d <-> p.1 = Some dir /\ is_Some (d !! p).
Proof.
  unfold files_in. rewrite list_elem_of_In, List.filter_In, <- list_elem_of_In, bool_decide_eq_true.
  rewrite list_elem_of_fmap. split.
  - intros [([q f] & -> & Hq%elem_of_map_to_list) ?]. split; [done|]. by exists f.
  - intros [? [f Hf]]. split; [|done]. exists (p, f). split; [done|]. by apply elem_of_map_to_list.
Qed.

(** ** Nothing is lost *)

(** The files of the store, as the journal's callers resolve them. *)
Definition entry_file (root name : string) : Path :=
  (Some (join root "secrets"), Some (secret_name_to_filename name +:+ ".age")).

Lemma join_inj root a b : join root a = join root b -> a = b.
Proof.
  unfold join. destruct (_ || _); intros H; [by apply (inj (String.append root)) in H|].
  apply (inj (String.append root)) in H. by injection H.
Qed.

Lemma entry_file_inj root a b : entry_file root a = entry_file root b -> a = b.
Proof.
  unfold entry_file. intros [= H].
  pose proof (f_equal (strip_suffix ".age") H) as E. rewrite !strip_suffix_app in E. injection E as E.
  rewrite <- (proj1 (secret_filename_roundtrip a)), E. apply secret_filename_roundtrip.
Qed.

Lemma entry_file_durable root name : durable (entry_file root name).
Proof.
  unfold durable, entry_file. cbn [snd default]. apply not_true_iff_false. intros [p Hp]%ends_with_iff.
  unfold id in Hp. apply (f_equal last_byte) in Hp. by rewrite !last_byte_app in Hp by done.
Qed.

(** No staging directory is the directory of the secrets. *)
Lemma entry_not_staged root name dir : starts_with STAGING_PREFIX dir = true ->
  (entry_file root name).1 <> Some (join root dir).
Proof. cbn. intros H [= E%join_inj]. subst dir. vm_compute in H. discriminate H. Qed.

Lemma staging_prefixed op : starts_with STAGING_PREFIX (STAGING_PREFIX +:+ op) = true.
Proof. unfold starts_with. by rewrite strip_prefix_app. Qed.

Section Safety.
Context {io_error json_error : Type} {J : MetaJson json_error} {JL : MetaJsonLaws J}.
Context (no_parent : Path -> io_error) (invalid_data : json_error -> io_error).
Context (root op_id src_name dst_name dst_bytes : string) (d0 : FS).

Abbreviation our_dir := (staging_dir root op_id).
Abbreviation src_file := (entry_file root src_name).
Abbreviation dst_file := (entry_file root dst_name).
Abbreviation meta_text := (meta_to_json {| src := src_name; dst := dst_name |}).

Definition new_file : File := {| file_mode := MODE_PRIVATE_FILE; file_content := dst_bytes |}.

(** The new file is in place, or both files are as they were. *)
Definition nothing_lost (d : FS) : Prop :=
  d !! dst_file = Some new_file \/ (d !! src_file = d0 !! src_file /\ d !! dst_file = d0 !! dst_file).

Definition holds_only (d : FS) (p : Path) (text : string) : Prop :=
  match d !! p with None => True | Some f => file_content f = text end.

(** What is true whenever the process may stop: nothing is lost; a committed operation
    has lost no part but by its removal; no other operation is committed. *)
Definition recoverable (d : FS) : Prop :=
  nothing_lost d /\
  (is_Some (d !! staged our_dir READY_FILE) ->
    holds_only d (staged our_dir "meta.json") meta_text /\ holds_only d (staged our_dir "dst") dst_bytes) /\
  forall name, starts_with STAGING_PREFIX name = true -> join root name <> our_dir ->
    d !! staged (join root name) READY_FILE = None.

(** A removal takes only the files it was given. *)
Definition orderly (io : JournalIo io_error) : Prop := forall l p, p ∈ tree_order io l -> p ∈ l.

(** A state of a removal: what it keeps, and what it may have taken. *)
Definition shrunk (dir : string) (d d' : FS) : Prop :=
  forall q, (d' !! q = d !! q \/ d' !! q = None) /\ (q.1 <> Some dir -> d' !! q = d !! q).

Lemma remove_dir_shrinks io dir d : orderly io ->
  Forall (shrunk dir d) (remove_dir_all io dir d).2.
Proof.
  intros Ho. eapply Forall_impl; [apply remove_each_shrinks|]. intros d' H q. destruct (H q) as [H1 H2].
  split; [done|]. intros Hq. apply H2. intros Hin%Ho%files_in_spec. tauto.
Qed.

Lemma staging_entry name : starts_with STAGING_PREFIX name = true ->
  forall n, (entry_file root n).1 <> Some (join root name).
Proof. intros H n. by apply entry_not_staged. Qed.

Lemma our_entry n : (entry_file root n).1 <> Some our_dir.
Proof. apply staging_entry, staging_prefixed. Qed.

Lemma recoverable_shrunk name d d' : starts_with STAGING_PREFIX name = true ->
  shrunk (join root name) d d' -> recoverable d -> recoverable d'.
Proof.
  intros Hn H (Hs & Hr & Ho). split_and!.
  - unfold nothing_lost in *. rewrite (proj2 (H src_file)), (proj2 (H dst_file)) by by apply staging_entry. done.
  - assert (Hk : forall p t, holds_only d p t -> holds_only d' p t).
    { intros p t. unfold holds_only. by destruct (proj1 (H p)) as [->| ->]. }
    intros [f Hf]. destruct (proj1 (H (staged our_dir READY_FILE))) as [E|E]; [|congruence].
    destruct Hr as [H1 H2]; [exists f; congruence|]. auto.
  - intros n Hp Hne. destruct (proj1 (H (staged (join root n) READY_FILE))) as [->| ->]; auto.
Qed.

(** A state that differs only in a file of our directory other than [READY], before
    [READY] is there. *)
Lemma recoverable_staging name d file : d !! staged our_dir READY_FILE = None -> name <> READY_FILE ->
  recoverable d -> recoverable (<[staged our_dir name := file]> d).
Proof.
  intros Hn Hne (Hs & _ & Ho).
  assert (He : forall n, staged our_dir name <> entry_file root n).
  { intros n E. pose proof (our_entry n) as H. by rewrite <- E in H. }
  split_and!.
  - unfold nothing_lost in *. by rewrite !lookup_insert_ne by auto.
  - rewrite lookup_insert_ne by (intros [= E]; congruence). rewrite Hn. by intros [? ?].
  - intros n Hp Hd. rewrite lookup_insert_ne by (intros [= E _]; congruence). by apply Ho.
Qed.
Abbreviation ready := (staged our_dir READY_FILE).

Lemma staged_durable dir name : ends_with ".tmp" name = false -> durable (staged dir name).
Proof. done. Qed.

Lemma entry_ne_staged n dir name : starts_with STAGING_PREFIX dir = true ->
  entry_file root n <> staged (join root dir) name.
Proof. intros Hd E. apply (entry_not_staged root n dir Hd). by rewrite E. Qed.

Definition uncommitted (d : FS) : Prop := recoverable d /\ d !! ready = None.

Definition holds_text (d : FS) (p : Path) (text : string) : Prop :=
  exists f, d !! p = Some f /\ file_content f = text.

Lemma plain_write_steps w name text d : name <> READY_FILE -> uncommitted d ->
  steps uncommitted (fun _ d' => holds_text d' (staged our_dir name) text /\
                       forall q, q <> staged our_dir name -> d' !! q = d !! q)
    d (plain_write (io_error := io_error) w (staged our_dir name) text d).
Proof.
  intros Hne [Hrec Hnone].
  assert (H : forall f, uncommitted (<[staged our_dir name := f]> d)).
  { intros f. split; [by apply recoverable_staging|]. rewrite lookup_insert_ne by (intros [= E]; congruence). done. }
  unfold plain_write. destruct (plain_open_err w); [by apply steps_stop|].
  destruct (plain_write_err w) as [[partial e]|];
    (split; [by repeat apply Forall_cons_2; try apply Forall_nil_2; try apply H|]); [done|].
  intros _ _. cbn. split; [|intros q Hq; by rewrite lookup_insert_ne].
  eexists. by rewrite lookup_insert_eq.
Qed.

(** Everything an installation needs. *)
Definition staged_whole (d : FS) : Prop :=
  holds_text d (staged our_dir "dst") dst_bytes /\ holds_text d (staged our_dir "meta.json") meta_text.

Lemma stage_steps io d : uncommitted d ->
  steps uncommitted (fun dir d' => dir = our_dir /\ staged_whole d')
    d (stage_operation (io_error := io_error) io root op_id src_name dst_name dst_bytes d).
Proof.
  intros Hd. unfold stage_operation. destruct (stage_dir_err io) as [e|]; [by apply steps_stop|].
  eapply steps_then; [done|by apply plain_write_steps|]. intros _ d1 Hd1 [H1 _].
  eapply steps_then; [done|by apply plain_write_steps|]. intros _ d2 Hd2 [H2 Hsame].
  apply steps_ret; [done|]. split; [done|]. split; [|done]. unfold holds_text. by rewrite Hsame by done.
Qed.

(** Writing [READY] keeps the operation whole. *)
Lemma mark_ready_steps io d : uncommitted d -> staged_whole d ->
  steps recoverable (fun _ d' => is_Some (d' !! ready) /\ staged_whole d') d (mark_ready no_parent io our_dir d).
Proof.
  intros [(Hs & _ & Ho) _] Hw. unfold mark_ready.
  assert (Hleave : forall q, q <> ready -> durable q ->
    leaves q d (write_atomic_private no_parent (journal_dir_err io) (journal_faults io) ready "READY"
      (journal_pid io) (journal_nanos io) (journal_seq io) d)) by (intros; by apply write_private_leaves).
  assert (Hwhole : forall d', (forall q, q <> ready -> durable q -> d' !! q = d !! q) -> staged_whole d' /\ recoverable d').
  { intros d' Hsame. assert (Hw' : staged_whole d').
    { unfold staged_whole, holds_text. by rewrite !Hsame by done. }
    split; [done|]. split_and!.
    - unfold nothing_lost. rewrite !Hsame by (apply entry_file_durable || apply entry_ne_staged, staging_prefixed). done.
    - intros _. unfold staged_whole, holds_text in Hw'. destruct Hw' as [(f1 & Hf1 & Hc1) (f2 & Hf2 & Hc2)]. unfold holds_only. by rewrite Hf1, Hf2.
    - intros n Hn Hne. rewrite Hsame; [by apply Ho| |done]. intros [= E]. congruence. }
  pose proof (write_atomic_replaced no_parent (journal_dir_err io) (journal_faults io) ready "READY" MODE_PRIVATE_FILE
    (journal_pid io) (journal_nanos io) (journal_seq io) d) as Hr. fold (write_atomic_private no_parent (journal_dir_err io)
    (journal_faults io) ready "READY" (journal_pid io) (journal_nanos io) (journal_seq io) d) in Hr.
  destruct (write_atomic_private _ _ _ _ _ _ _ _ _) as [r t]. destruct Hr as [_ Hfin]. unfold leaves in Hleave. cbn [fst snd] in *.
  assert (Hall : Forall (fun d' => forall q, q <> ready -> durable q -> d' !! q = d !! q) t).
  { rewrite Forall_forall. intros d' Hd' q Hq Hdur. specialize (Hleave q Hq Hdur). rewrite Forall_forall in Hleave. auto. }
  split; [eapply Forall_impl; [exact Hall|]; intros d' H; by apply Hwhole|].
  intros [] Hok. cbn in Hok. subst r. split; [by eexists|].
  apply Hwhole, (final_state (fun d' => forall q, q <> ready -> durable q -> d' !! q = d !! q) d (Ok tt : result io_error unit, t)); [done|exact Hall].
Qed.

(** A disk that differs at the destination, which holds what it held or the new file,
    and nowhere else among the durable files. *)
Lemma recoverable_install d d' :
  (d' !! dst_file = d !! dst_file \/ d' !! dst_file = Some new_file) ->
  (forall q, q <> dst_file -> durable q -> d' !! q = d !! q) -> recoverable d -> recoverable d'.
Proof.
  intros Hdst Hsame (Hs & Hr & Ho).
  assert (Hst : forall dir name, starts_with STAGING_PREFIX dir = true -> ends_with ".tmp" name = false ->
    d' !! staged (join root dir) name = d !! staged (join root dir) name).
  { intros dir name Hd Hn. apply Hsame; [|done]. by apply not_eq_sym, entry_ne_staged. }
  pose proof (fun name => Hst (STAGING_PREFIX +:+ op_id) name (staging_prefixed op_id)) as Hour.
  split_and!.
  - destruct Hdst as [E|E]; [|by left]. unfold nothing_lost in *. rewrite E.
    destruct (decide (src_file = dst_file)) as [He|Hne]; [rewrite !He in *; by rewrite E|].
    by rewrite (Hsame src_file) by (done || apply entry_file_durable).
  - unfold holds_only in *. rewrite !Hour by done. done.
  - intros n Hn Hne. rewrite Hst by done. by apply Ho.
Qed.

Lemma recoverable_remove_src d : src_name <> dst_name -> d !! dst_file = Some new_file ->
  recoverable d -> recoverable (delete src_file d).
Proof.
  intros Hne Hnew (Hs & Hr & Ho).
  assert (Hd : dst_file <> src_file) by (intros E%entry_file_inj; congruence).
  assert (Hst : forall dir name, starts_with STAGING_PREFIX dir = true ->
    delete src_file d !! staged (join root dir) name = d !! staged (join root dir) name).
  { intros dir name Hp. apply lookup_delete_ne. by apply entry_ne_staged. }
  pose proof (fun name => Hst (STAGING_PREFIX +:+ op_id) name (staging_prefixed op_id)) as Hour.
  split_and!.
  - left. by rewrite lookup_delete_ne by done.
  - unfold holds_only in *. rewrite !Hour by done. done.
  - intros n Hn Hn'. rewrite Hst by done. by apply Ho.
Qed.

Lemma remove_tree_steps io name d : orderly io -> starts_with STAGING_PREFIX name = true -> recoverable d ->
  steps recoverable (fun _ d' => shrunk (join root name) d d') d (remove_dir_all io (join root name) d).
Proof.
  intros Hio Hn Hd. pose proof (remove_dir_shrinks io (join root name) d Hio) as H. split.
  - eapply Forall_impl; [exact H|]. intros d' Hd'. by apply (recoverable_shrunk name d).
  - intros _ _. apply (final_state (shrunk (join root name) d)); [|done]. intros q. auto.
Qed.

Lemma read_file_ok err (missing : io_error) p d text : read_file err missing p d = Ok text -> holds_text d p text.
Proof.
  unfold read_file. destruct err; [done|]. destruct (d !! p) as [f|] eqn:E; [|done]. intros [= <-]. by exists f.
Qed.

Lemma holds_only_text d p t t' : holds_only d p t -> holds_text d p t' -> t' = t.
Proof. unfold holds_only, holds_text. intros H (f & Hf & <-). by rewrite Hf in H. Qed.

(** Installing a committed operation. *)
Lemma install_steps io d : orderly io -> recoverable d -> is_Some (d !! ready) ->
  steps recoverable (fun _ d' => d' !! dst_file = Some new_file /\
                                 (src_name <> dst_name -> d' !! src_file = None))
    d (install_committed no_parent invalid_data io our_dir (entry_file root) d).
Proof.
  intros Hio Hd Hready. destruct (proj1 (proj2 Hd) Hready) as [Hmeta Hdst]. unfold install_committed.
  destruct (read_file (read_meta_err io) _ _ d) as [text|e] eqn:Ht; cbn [result_bind]; [|by apply steps_stop].
  apply read_file_ok in Ht. rewrite (holds_only_text _ _ _ _ Hmeta Ht), meta_roundtrip. cbn [result_map_err src dst].
  destruct (match (dst_file).1 with Some _ => _ | None => _ end); [by apply steps_stop|].
  destruct (read_file (read_dst_err io) _ _ d) as [bytes|e] eqn:Hb; [|by apply steps_stop].
  apply read_file_ok in Hb. rewrite (holds_only_text _ _ _ _ Hdst Hb). clear Ht Hb text bytes.
  eapply (steps_then recoverable (fun _ d' => d' !! dst_file = Some new_file)); [done| |].
  - pose proof (write_atomic_replaced no_parent (journal_dir_err io) (journal_faults io) dst_file dst_bytes MODE_PRIVATE_FILE
      (journal_pid io) (journal_nanos io) (journal_seq io) d) as Hw.
    pose proof (fun q Hq Hdur => write_private_leaves no_parent (journal_dir_err io) (journal_faults io) dst_file dst_bytes
      (journal_pid io) (journal_nanos io) (journal_seq io) d q Hq Hdur) as Hl.
    unfold write_atomic_private in *. destruct (write_atomic _ _ _ _ _ _ _ _ _ _) as [r t]. destruct Hw as [Hall Hfin].
    unfold leaves in Hl. cbn [fst snd] in *. split.
    + cbn [snd]. apply Forall_forall. intros d' Hd'. rewrite Forall_forall in Hall. apply (recoverable_install d); [by apply Hall| |done].
      intros q Hq Hdur. specialize (Hl q Hq Hdur). rewrite Forall_forall in Hl. by apply Hl.
    + intros [] Hok. cbn in Hok. subst r. exact Hfin.
  - intros _ d1 Hd1 Hnew.
    eapply (steps_then recoverable (fun _ d' => d' !! dst_file = Some new_file /\ (src_name <> dst_name -> d' !! src_file = None))); [done| |].
    + unfold remove_src. cbn [src dst]. destruct (String.eqb_spec src_name dst_name) as [He|Hne]; [by apply steps_ret|].
      assert (Hd' : dst_file <> src_file) by (intros E%entry_file_inj; congruence).
      unfold exists_file. rewrite Hnew. cbn [andb]. destruct (d1 !! src_file) as [f|] eqn:Hsrc; [|by apply steps_ret].
      destruct (remove_src_err io) as [e|]; [by apply steps_stop|].
      split; [repeat apply Forall_cons_2; [done|by apply recoverable_remove_src|by apply Forall_nil_2]|].
      intros _ _. cbn. rewrite lookup_delete_ne, lookup_delete_eq by done. done.
    + intros _ d2 Hd2 [Hnew2 Hgone2].
      destruct (remove_tree_steps io (STAGING_PREFIX +:+ op_id) d2 Hio (staging_prefixed op_id) Hd2) as [H1 H2].
      change (remove_dir_all io our_dir d2) with (remove_dir_all io (join root (STAGING_PREFIX +:+ op_id)) d2).
      split; [done|]. intros a Ha. specialize (H2 a Ha).
      by rewrite (proj2 (H2 dst_file)), (proj2 (H2 src_file)) by apply our_entry.
Qed.

(** The states the disk may be found in: an operation staged, committed and installed,
    and recoveries of any listing, each stopped anywhere. *)
Inductive reached : FS -> Prop :=
| reached_stage io d :
    d ∈ (stage_operation (io_error := io_error) io root op_id src_name dst_name dst_bytes d0).2 -> reached d
| reached_ready (io : JournalIo io_error) io' dir d :
    (stage_operation io root op_id src_name dst_name dst_bytes d0).1 = Ok dir ->
    d ∈ (mark_ready no_parent io' dir (final d0 (stage_operation io root op_id src_name dst_name dst_bytes d0))).2 ->
    reached d
| reached_install io d d' :
    reached d -> orderly io -> is_Some (d !! ready) ->
    d' ∈ (install_committed no_parent invalid_data io our_dir (entry_file root) d).2 -> reached d'
| reached_recover (listing : option (list (string * JournalIo io_error))) d d' :
    reached d -> (forall l, listing = Some l -> Forall (fun x => orderly x.2) l) ->
    d' ∈ (recover_journal no_parent invalid_data root (entry_file root) listing d).2 -> reached d'.

(** No operation was committed at the start. *)
Definition idle : Prop := forall name, starts_with STAGING_PREFIX name = true ->
  d0 !! staged (join root name) READY_FILE = None.

Lemma recover_entry_states (io : JournalIo io_error) name counts d : orderly io -> recoverable d ->
  Forall recoverable (recover_entry no_parent invalid_data io root name (entry_file root) counts d).2.
Proof.
  intros Hio Hd. unfold recover_entry. destruct (starts_with STAGING_PREFIX name) eqn:Hn; cbn [negb]; [|by apply Forall_singleton].
  pose proof (fun d' Hd' => proj1 (remove_tree_steps io name d' Hio Hn Hd')) as Hrm.
  unfold exists_file. destruct (d !! staged (join root name) READY_FILE) as [f|] eqn:Hf.
  - destruct (decide (join root name = our_dir)) as [Hours|Hother];
      [|by rewrite (proj2 (proj2 Hd) name Hn Hother) in Hf].
    rewrite Hours in *. destruct (install_steps io d Hio Hd ltac:(by exists f)) as [Hi _].
    destruct (install_committed _ _ _ _ _ _) as [[[]|e] t] eqn:E; [done|]. cbn [snd] in Hi.
    specialize (Hrm (default d (last t)) ltac:(by apply (final_state recoverable d (Err e : result io_error unit, t)))).
    destruct (remove_dir_all io our_dir _) as [r t']. by apply Forall_app.
  - specialize (Hrm d Hd). by destruct (remove_dir_all io (join root name) d) as [r t].
Qed.

Lemma recover_states (l : list (string * JournalIo io_error)) counts d : Forall (fun x => orderly x.2) l -> recoverable d ->
  Forall recoverable (recover_entries no_parent invalid_data root (entry_file root) l counts d).2.
Proof.
  revert counts d. induction l as [|[name io] l IH]; intros counts d Hl Hd; [by apply Forall_singleton|].
  apply Forall_cons in Hl as [Hio Hl]. cbn [recover_entries].
  pose proof (recover_entry_states io name counts d Hio Hd) as H.
  pose proof (final_state recoverable d _ Hd H) as Hf. unfold final in Hf.
  destruct (recover_entry _ _ _ _ _ _ _ _) as [c t]. cbn [snd] in *.
  specialize (IH c (default d (last t)) Hl Hf).
  destruct (recover_entries _ _ _ _ _ _ _) as [c' t']. by apply Forall_app.
Qed.

Lemma reached_recoverable d : idle -> reached d -> recoverable d.
Proof.
  intros Hidle. assert (H0 : uncommitted d0).
  { assert (Hn : d0 !! ready = None) by (apply (Hidle (STAGING_PREFIX +:+ op_id)), staging_prefixed).
    split; [|done]. split_and!; [by right|rewrite Hn; by intros [? ?]|]. intros name Hp _. by apply Hidle. }
  induction 1 as [io d Hd|io io' dir d Hok Hd|io d d' _ IH Hio Hr Hd'|listing d d' _ IH Hl Hd'].
  - destruct (stage_steps io d0 H0) as [H _]. rewrite Forall_forall in H. by apply H.
  - destruct (stage_steps io d0 H0) as [H1 H2]. destruct (H2 dir Hok) as [-> Hw].
    destruct (mark_ready_steps io' _ (final_state uncommitted d0 _ H0 H1) Hw) as [H _].
    rewrite Forall_forall in H. by apply H.
  - destruct (install_steps io d Hio IH Hr) as [H _]. rewrite Forall_forall in H. by apply H.
  - unfold recover_journal in Hd'. destruct listing as [l|]; [|by apply list_elem_of_singleton in Hd' as ->].
    pose proof (recover_states l (0, 0) d (Hl l eq_refl) IH) as H. rewrite Forall_forall in H. by apply H.
Qed.

(** C18 A rename or a rotation never loses a secret: wherever it stops, by a crash or a
    failing call, and however often it is recovered, and recovery itself stopped, the new
    file is in place, or both files are as they were before. *)
Theorem journal_loses_nothing d : idle -> reached d -> nothing_lost d.
Proof. intros Hi Hr. by apply reached_recoverable. Qed.

(** ** Recovery decides *)

(** A recovery that nothing disturbs. *)
Definition undisturbed (io : JournalIo io_error) (d : FS) : Prop :=
  read_meta_err io = None /\ read_dst_err io = None /\ parent_dir_err io = None /\ journal_dir_err io = None /\
  open_err (journal_faults io) = None /\ write_err (journal_faults io) = None /\
  sync_err (journal_faults io) = None /\ rename_err (journal_faults io) = None /\
  remove_src_err io = None /\ tree_err io = None /\ (forall l p, p ∈ tree_order io l <-> p ∈ l) /\
  d !! unique_tmp_path dst_file (journal_pid io) (journal_nanos io) (journal_seq io) = None.

Lemma remove_each_states i l d : exists x, last (remove_each (io_error := io_error) None i l d).2 = Some x.
Proof.
  revert i d. induction l as [|p l IH]; intros i d; cbn [remove_each]; [by exists d|].
  destruct (IH (S i) (delete p d)) as [x Hx]. destruct (remove_each None (S i) l _) as [r t]. cbn [snd] in *.
  exists x. by rewrite last_cons, Hx.
Qed.

Lemma remove_each_quiet i l d :
  (remove_each (io_error := io_error) None i l d).1 = Ok tt /\
  forall q, final d (remove_each (io_error := io_error) None i l d) !! q = if decide (q ∈ l) then None else d !! q.
Proof.
  unfold final. revert i d. induction l as [|p l IH]; intros i d; cbn [remove_each]; [by split|].
  specialize (IH (S i) (delete p d)). destruct (remove_each_states (S i) l (delete p d)) as [x Hx].
  destruct (remove_each None (S i) l (delete p d)) as [r t]. cbn [fst snd] in *.
  rewrite last_cons, Hx in *. cbn [default id] in *. destruct IH as [Hr IH]. split; [done|]. intros q. rewrite IH.
  destruct (decide (q ∈ l)), (decide (q ∈ p :: l)); try done; try set_solver.
  - assert (q = p) as -> by set_solver. by rewrite lookup_delete_eq.
  - by rewrite lookup_delete_ne by set_solver.
Qed.

Lemma remove_tree_quiet io dir d : tree_err io = None -> (forall l p, p ∈ tree_order io l <-> p ∈ l) ->
  (remove_dir_all (io_error := io_error) io dir d).1 = Ok tt /\
  forall q, final d (remove_dir_all io dir d) !! q = if decide (q.1 = Some dir) then None else d !! q.
Proof.
  intros He Ho. unfold remove_dir_all. rewrite He.
  destruct (remove_each_quiet 0 (tree_order io (files_in dir d)) d) as [H1 H2]. split; [done|]. intros q. rewrite H2.
  destruct (decide (q ∈ tree_order io (files_in dir d))) as [Hin|Hin]; rewrite Ho, files_in_spec in Hin.
  - by destruct Hin as [-> _]; rewrite decide_True.
  - destruct (decide (q.1 = Some dir)) as [Hq|]; [|done]. destruct (d !! q) as [f|] eqn:E; [|done].
    exfalso. apply Hin. split; [done|]. by exists f.
Qed.

Definition staged_ok (d : FS) : bool := exists_file ready d && exists_file (staged our_dir "meta.json") d && exists_file (staged our_dir "dst") d.

Lemma write_undisturbed io d : undisturbed io d ->
  (write_atomic_private no_parent (journal_dir_err io) (journal_faults io) dst_file dst_bytes
     (journal_pid io) (journal_nanos io) (journal_seq io) d).1 = Ok tt.
Proof.
  intros (_ & _ & _ & Hjd & Hop & Hwr & Hsy & Hrn & _ & _ & _ & Htmp).
  unfold write_atomic_private, write_atomic. cbn [entry_file fst]. rewrite Hjd.
  unfold replace_file, create_write_rename.
  assert (delete (leftover_tmp_path dst_file) d !! unique_tmp_path dst_file (journal_pid io) (journal_nanos io) (journal_seq io) = None)
    as -> by (apply lookup_delete_None; by right).
  by rewrite Hop, Hwr, Hsy, Hrn.
Qed.

Lemma remove_src_undisturbed io meta d : remove_src_err io = None ->
  (remove_src (io_error := io_error) io (entry_file root) meta d).1 = Ok tt.
Proof. intros H. unfold remove_src. rewrite H. by repeat case_match. Qed.

Lemma staged_ok_texts d : recoverable d -> staged_ok d = true -> is_Some (d !! ready) /\ staged_whole d.
Proof.
  intros (_ & Hr & _) H. unfold staged_ok, exists_file in H.
  destruct (d !! ready) as [f|] eqn:E; [|done]. destruct (Hr ltac:(by exists f)) as [Hm Hd].
  unfold staged_whole, holds_text, holds_only in *.
  destruct (d !! staged our_dir "meta.json") as [m|]; [|done]. destruct (d !! staged our_dir "dst") as [b|]; [|done].
  split; [by exists f|]. split; eauto.
Qed.

Lemma install_undisturbed io d : recoverable d -> staged_ok d = true -> undisturbed io d ->
  (install_committed no_parent invalid_data io our_dir (entry_file root) d).1 = Ok tt /\
  forall name, final d (install_committed no_parent invalid_data io our_dir (entry_file root) d) !! staged our_dir name = None.
Proof.
  intros Hrec Hok Hq. destruct (staged_ok_texts d Hrec Hok) as (_ & (fd & Hd & Hdt) & (fm & Hm & Hmt)).
  pose proof (write_undisturbed io d Hq) as Hw.
  destruct Hq as (Hrm & Hrd & Hpd & _ & _ & _ & _ & _ & Hrs & Hte & Hor & _).
  unfold install_committed, read_file. rewrite Hrm, Hm, Hmt. cbn [result_bind]. rewrite meta_roundtrip.
  cbn [result_map_err src dst entry_file fst]. rewrite Hpd, Hrd, Hd, Hdt.
  then_ok; [exact Hw|]. set (d1 := final d _). then_ok; [by apply remove_src_undisturbed|]. set (d2 := final d1 _).
  destruct (remove_tree_quiet io our_dir d2 Hte Hor) as [H1 H2]. split; [done|]. intros name. rewrite H2.
  by rewrite decide_True.
Qed.

Lemma install_refused io d : recoverable d -> is_Some (d !! ready) -> staged_ok d = false -> undisturbed io d ->
  exists e, install_committed no_parent invalid_data io our_dir (entry_file root) d = (Err e, [d]).
Proof.
  intros (_ & Hr & _) [f Hf] Hok (Hrm & Hrd & Hpd & _). destruct (Hr ltac:(by exists f)) as [Hm Hd].
  unfold staged_ok, exists_file in Hok. rewrite Hf in Hok. cbn [andb] in Hok.
  unfold install_committed, read_file, holds_only in *. rewrite Hrm, Hrd.
  destruct (d !! staged our_dir "meta.json") as [m|]; cbn [result_bind]; [|by eexists].
  rewrite Hm, meta_roundtrip. cbn [result_map_err src dst entry_file fst]. rewrite Hpd.
  destruct (d !! staged our_dir "dst"); [done|]. by eexists.
Qed.

(** A recovery that nothing disturbs decides: an operation that was committed and is
    still whole is installed, the source giving way to the new file; any other is rolled
    back with both files as they were; and its staging directory is gone. *)
Theorem recovery_decides io d : idle -> reached d -> undisturbed io d ->
  let o := recover_journal no_parent invalid_data root (entry_file root) (Some [(STAGING_PREFIX +:+ op_id, io)]) d in
  (forall name, final d o !! staged our_dir name = None) /\
  if staged_ok d then
    o.1 = (1, 0) /\ final d o !! dst_file = Some new_file /\ (src_name <> dst_name -> final d o !! src_file = None)
  else o.1 = (0, 1) /\ final d o !! dst_file = d !! dst_file /\ final d o !! src_file = d !! src_file.
Proof.
  intros Hi Hrch Hq. pose proof (reached_recoverable d Hi Hrch) as Hrec.
  pose proof Hq as (_ & _ & _ & _ & _ & _ & _ & _ & _ & Hte & Hor & _).
  destruct (remove_tree_quiet io our_dir d Hte Hor) as [_ Hrm].
  cbv zeta. unfold recover_journal, recover_entries, recover_entry. rewrite staging_prefixed. cbn [negb fst snd].
  change (join root (STAGING_PREFIX +:+ op_id)) with our_dir.
  assert (Hback : forall name, final d (remove_dir_all io our_dir d) !! staged our_dir name = None)
    by (intros name; by rewrite Hrm, decide_True).
  assert (Hkept : forall n, final d (remove_dir_all io our_dir d) !! entry_file root n = d !! entry_file root n)
    by (intros n; by rewrite Hrm, decide_False by apply our_entry).
  destruct (staged_ok d) eqn:Hok.
  - destruct (staged_ok_texts d Hrec Hok) as [Hr _]. destruct (install_undisturbed io d Hrec Hok Hq) as [H1 H2].
    assert (Hio : orderly io) by (intros l p; apply Hor).
    destruct (install_steps io d Hio Hrec Hr) as [_ H3]. specialize (H3 tt H1).
    unfold exists_file. destruct Hr as [f ->].
    destruct (install_committed _ _ _ _ _ _) as [r t]. cbn [fst snd] in *. subst r. unfold final in *. cbn [snd] in *.
    rewrite last_snoc. cbn [default id]. by split_and!; try apply H3.
  - unfold exists_file. destruct (d !! ready) as [f|] eqn:Hf.
    + destruct (install_refused io d Hrec ltac:(by exists f) Hok Hq) as [e ->]. cbn [last default id].
      destruct (remove_dir_all io our_dir d) as [r t]. unfold final in *. cbn [snd fst] in *.
      rewrite last_snoc. cbn [default id]. change ([d] ++ t) with (d :: t). rewrite last_cons.
      destruct (last t) as [x|]; by split_and!.
    + destruct (remove_dir_all io our_dir d) as [r t]. unfold final in *. cbn [snd fst] in *.
      rewrite last_snoc. by split_and!.
Qed.
End Safety.

(** ** A concrete rename *)

#[export] Instance demo_meta_json : MetaJson unit := {|
  meta_from_json s := match of_text (A := string * string) s with Some (a, b) => Ok {| src := a; dst := b |} | None => Err tt end;
  meta_to_json m := to_text (src m, dst m)
|}.

#[export] Instance demo_meta_laws : MetaJsonLaws demo_meta_json.
Proof. intros [a b]. unfold meta_from_json, meta_to_json, demo_meta_json. by rewrite of_to_text. Qed.

Definition demo_plain : PlainWrite string := {| plain_open_err := None; plain_write_err := None; plain_mode := 420 |}.

Definition demo_journal_io : JournalIo string := {|
  stage_dir_err := None; dst_write := demo_plain; meta_write := demo_plain;
  read_meta_err := None; read_dst_err := None; not_found := "not found";
  parent_dir_err := None; journal_dir_err := None; journal_faults := demo_faults;
  journal_pid := 7; journal_nanos := 0; journal_seq := 0; remove_src_err := None;
  tree_order l := l; tree_err := None
|}.

(** The secret "a" is about to become "b". *)
Definition demo_store : FS :=
  {[entry_file "/v" "a" := {| file_mode := MODE_PRIVATE_FILE; file_content := "old" |}]}.

Definition demo_staging : string := staging_dir "/v" "op".
Definition demo_stage (d : FS) := stage_operation demo_journal_io "/v" "op" "a" "b" "new" d.
Definition demo_mark (d : FS) := mark_ready (fun _ => "") demo_journal_io demo_staging d.
Definition demo_install (d : FS) :=
  install_committed (fun _ => "") (fun _ => "") demo_journal_io demo_staging (entry_file "/v") d.
Definition demo_recover (d : FS) :=
  recover_journal (fun _ => "") (fun _ => "") "/v" (entry_file "/v") (Some [(STAGING_PREFIX +:+ "op", demo_journal_io)]) d.

Definition demo_staged : FS := final demo_store (demo_stage demo_store).
Definition demo_marked : FS := final demo_staged (demo_mark demo_staged).
(** The installation stops when the new file is in place and the old one not yet gone. *)
Definition demo_stopped : FS := default ∅ ((demo_install demo_marked).2 !! 4).

Lemma demo_idle : idle "/v" demo_store.
Proof. intros name Hn. apply lookup_singleton_ne. by apply entry_ne_staged. Qed.

Lemma demo_reached : reached (fun _ => "") (fun _ => "") "/v" "op" "a" "b" "new" demo_store demo_stopped.
Proof.
  apply (reached_install _ _ _ _ _ _ _ _ demo_journal_io demo_marked).
  - apply (reached_ready _ _ _ _ _ _ _ _ demo_journal_io demo_journal_io demo_staging); [vm_compute; reflexivity|].
    apply (final_in demo_staged (demo_mark demo_staged)). vm_compute. reflexivity.
  - by intros l p.
  - eexists. vm_compute. reflexivity.
  - apply (state_in (demo_install demo_marked).2 4). vm_compute. reflexivity.
Qed.

Lemma journal_loses_nothing_witness : nothing_lost "/v" "a" "b" "new" demo_store demo_stopped.
Proof.
  apply (journal_loses_nothing (fun _ => "") (fun _ => "") "/v" "op" "a" "b" "new" demo_store demo_stopped);
    [exact demo_idle|exact demo_reached].
Defined.

Lemma recovery_decides_witness :
  (demo_recover demo_stopped).1 = (1, 0) /\
  final demo_stopped (demo_recover demo_stopped) !! entry_file "/v" "a" = None.
Proof.
  assert (Hq : undisturbed "/v" "b" demo_journal_io demo_stopped).
  { unfold undisturbed. split_and!; try reflexivity; by intros l p. }
  destruct (recovery_decides (fun _ => "") (fun _ => "") "/v" "op" "a" "b" "new" demo_store demo_journal_io demo_stopped
    demo_idle demo_reached Hq) as [_ H].
  assert (Hok : staged_ok "/v" "op" demo_stopped = true) by (vm_compute; reflexivity). rewrite Hok in H.
  destruct H as (H1 & _ & H3). split; [exact H1|apply H3; discriminate].
Defined.

(** Neither the staged copy nor its metadata is synced before [READY] is: a machine that
    loses the data of the copy, but not the commit, replaces the secret by an empty
    file. *)
Lemma unsynced_copy_lost :
  let lost := <[staged demo_staging "dst" := {| file_mode := 420; file_content := "" |}]> demo_marked in
  let after := final lost (demo_recover lost) in
  after !! entry_file "/v" "b" = Some {| file_mode := MODE_PRIVATE_FILE; file_content := "" |} /\
  after !! entry_file "/v" "a" = None.
Proof. vm_compute. split; reflexivity. Qed.
