(* ===== verification/SecretTypes.v ===== *)
(** * Secrets: kinds, metadata, audit names

    crates/oc-core/src/secret.rs and text.rs: the types of the secret store, the
    audit taxonomy of the operations on secrets, and the edit distance of its fuzzy
    search.  Zeroizing and page locking are not in the model: a buffer is its bytes. *)

From Stdlib Require Import ZArith Lia Ascii String Bool.
From stdpp Require Import base list strings.
From S2P Require Import Prelude Str Json.

Local Open Scope oc_scope.

(** ** Types *)

Inductive ItemType := Mnemonic | PrivateKey | Password | Totp | Note | File.

#[export] Instance ItemType_eq_dec : EqDecision ItemType.
Proof. solve_decision. Defined.

Definition item_types : list ItemType := [Mnemonic; PrivateKey; Password; Totp; Note; File].

Definition item_label (t : ItemType) : string :=
  match t with
  | Mnemonic => "Mnemonic" | PrivateKey => "Private Key" | Password => "Password"
  | Totp => "TOTP" | Note => "Note" | File => "File"
  end.

Inductive SecretKind := WalletKey | KPassword | TotpSeed | KNote.

#[export] Instance SecretKind_eq_dec : EqDecision SecretKind.
Proof. solve_decision. Defined.

Definition kinds : list SecretKind := [WalletKey; KPassword; TotpSeed; KNote].

Definition kind_label (k : SecretKind) : string :=
  match k with
  | WalletKey => "Wallet Key" | KPassword => "Password" | TotpSeed => "TOTP Seed" | KNote => "Note"
  end.

Definition from_item_type (t : ItemType) : SecretKind :=
  match t with
  | Mnemonic | PrivateKey => WalletKey
  | Password => KPassword
  | Totp => TotpSeed
  | Note | File => KNote
  end.

Definition to_item_type (k : SecretKind) : ItemType :=
  match k with WalletKey => Mnemonic | KPassword => Password | TotpSeed => Totp | KNote => Note end.

Definition parse_kind (s : string) : option SecretKind :=
  let lower := ascii_lowercase (trim s) in
  let is_any l := existsb (String.eqb lower) l in
  if is_any ["wallet_key"; "walletkey"; "wallet key"; "wallet"] then Some WalletKey
  else if is_any ["password"] then Some KPassword
  else if is_any ["totp_seed"; "totpseed"; "totp seed"; "totp"; "otp"] then Some TotpSeed
  else if is_any ["note"] then Some KNote
  else None.

(** ** The audit taxonomy *)

Inductive AuditTrack := Light | Strong.

#[export] Instance AuditTrack_eq_dec : EqDecision AuditTrack.
Proof. solve_decision. Defined.

Inductive AuditOp :=
| SecretCreate | SecretRead | SecretUpdate | SecretDelete | SecretRename | SecretCopy
| PasswordAdd | PasswordRead | PasswordGenerate
| TotpAdd | OpTotpGenerate | TotpRevealUri | HotpGenerate
| WalletCreate | WalletImport | WalletExport | WalletDelete | WalletRename | WalletRead
| WalletSign | WalletBroadcast.

#[export] Instance AuditOp_eq_dec : EqDecision AuditOp.
Proof. solve_decision. Defined.

Definition op_as_str (op : AuditOp) : string :=
  match op with
  | SecretCreate => "secret.create"
  | SecretRead => "secret.read"
  | SecretUpdate => "secret.update"
  | SecretDelete => "secret.delete"
  | SecretRename => "secret.rename"
  | SecretCopy => "secret.copy"
  | PasswordAdd => "password.add"
  | PasswordRead => "password.read"
  | PasswordGenerate => "password.generate"
  | TotpAdd => "totp.add"
  | OpTotpGenerate => "totp.generate"
  | TotpRevealUri => "totp.reveal_uri"
  | HotpGenerate => "totp.hotp"
  | WalletCreate => "wallet.create"
  | WalletImport => "wallet.import"
  | WalletExport => "wallet.export"
  | WalletDelete => "wallet.delete"
  | WalletRename => "wallet.rename"
  | WalletRead => "wallet.read"
  | WalletSign => "wallet.sign"
  | WalletBroadcast => "wallet.broadcast"
  end.

Definition op_track (op : AuditOp) : AuditTrack :=
  match op with WalletSign | WalletBroadcast => Strong | _ => Light end.

Definition audit_ops : list AuditOp :=
  [SecretCreate; SecretRead; SecretUpdate; SecretDelete; SecretRename; SecretCopy;
   PasswordAdd; PasswordRead; PasswordGenerate; TotpAdd; OpTotpGenerate; TotpRevealUri; HotpGenerate;
   WalletCreate; WalletImport; WalletExport; WalletDelete; WalletRename; WalletRead; WalletSign; WalletBroadcast].

(** ** Records *)

Section Records.
Context {S : SerdeNumber}.

Record SecretMetadata := {
  url : option string;
  username : option string;
  chain : option string;
  issuer : option string;
  account : option string;
  tags : list string
}.

Definition default_metadata : SecretMetadata :=
  {| url := None; username := None; chain := None; issuer := None; account := None; tags := [] |}.

Record SecretPayload := {
  secret : string;
  notes : option string;
  extra : option Value
}.

(** The serialized field is called [generation] too. *)
Record SecretIndexEntry := {
  row_id : string;
  row_name : string;
  row_item_type : ItemType;
  row_created_at : string;
  row_updated_at : string;
  row_metadata : SecretMetadata;
  row_generation : Z;
  tombstone : bool
}.

Record SecretEnvelope := {
  env_name : string;
  env_id : string;
  env_kind : SecretKind;
  env_item_type : ItemType;
  env_metadata : SecretMetadata;
  env_generation : Z;
  env_payload : option SecretPayload
}.

Definition with_payload (name id : string) (item_type : ItemType) (metadata : SecretMetadata)
    (generation : Z) (payload : SecretPayload) : SecretEnvelope := {|
  env_name := name; env_id := id; env_kind := from_item_type item_type; env_item_type := item_type;
  env_metadata := metadata; env_generation := generation; env_payload := Some payload
|}.

Definition without_payload (entry : SecretIndexEntry) : SecretEnvelope := {|
  env_name := row_name entry; env_id := row_id entry; env_kind := from_item_type (row_item_type entry);
  env_item_type := row_item_type entry; env_metadata := row_metadata entry;
  env_generation := row_generation entry; env_payload := None
|}.
End Records.

(** ** Edit distance

    The characters of a string are code points; the distance is of any lists with
    decidable equality. *)
Section EditDistance.
Context {A : Type} `{EqDecision A}.

(** The row for a prefix of [a], from the row for the prefix one shorter: [left] is the
    entry last computed, [diag] the one above it. *)
Fixpoint next_row (x : A) (b : list A) (prev : list nat) (diag left : nat) : list nat :=
  match b, prev with
  | y :: b', up :: prev' =>
      let cost := if decide (x = y) then 0 else 1 in
      let cell := Nat.min (Nat.min (up + 1) (left + 1)) (diag + cost) in
      cell :: next_row x b' prev' up cell
  | _, _ => []
  end.

(** One turn of the outer loop, for the [i]-th character [x]. *)
Definition step_row (x : A) (b : list A) (i : nat) (prev : list nat) : list nat :=
  match prev with
  | diag :: prev' => i :: next_row x b prev' diag i
  | [] => []
  end.

Fixpoint rows (a b : list A) (i : nat) (prev : list nat) : list nat :=
  match a with
  | [] => prev
  | x :: a' => rows a' b (S i) (step_row x b i prev)
  end.

Definition edit_distance (a b : list A) : nat :=
  match a, b with
  | [], _ => length b
  | _, [] => length a
  | _, _ => default 0 (last (rows a b 1 (seq 0 (S (length b)))))
  end.

(** Levenshtein's recursion, on the last characters: an insertion, a deletion or a
    replacement each cost one. *)
Fixpoint levenshtein_with (x : A) (rec : list A -> nat) (len_a : nat) (b : list A) : nat :=
  match b with
  | [] => S len_a
  | y :: b' =>
      Nat.min (Nat.min (rec (y :: b') + 1) (levenshtein_with x rec len_a b' + 1))
              (rec b' + if decide (x = y) then 0 else 1)
  end.

(** Of reversed lists. *)
Fixpoint levenshtein (a b : list A) : nat :=
  match a with
  | [] => length b
  | x :: a' => levenshtein_with x (levenshtein a') (length a') b
  end.

Fixpoint cells (ra rp b : list A) : list nat :=
  match b with
  | [] => []
  | y :: b' => levenshtein ra (y :: rp) :: cells ra (y :: rp) b'
  end.

Lemma next_row_cells x ra b rp :
  next_row x b (cells ra rp b) (levenshtein ra rp) (levenshtein (x :: ra) rp) = cells (x :: ra) rp b.
Proof. revert rp. induction b as [|y b IH]; intros rp; [done|]. cbn [next_row cells]. by rewrite <- IH. Qed.

(** The row of a prefix, given reversed. *)
Definition row (ra b : list A) : list nat := levenshtein ra [] :: cells ra [] b.

Lemma levenshtein_nil ra : levenshtein ra [] = length ra.
Proof. by destruct ra. Qed.

Lemma step_row_row x ra b : step_row x b (S (length ra)) (row ra b) = row (x :: ra) b.
Proof. unfold step_row, row. by rewrite <- (next_row_cells x ra b []). Qed.

Lemma rows_row a ra b : rows a b (S (length ra)) (row ra b) = row (rev a ++ ra) b.
Proof.
  revert ra. induction a as [|x a IH]; intros ra; [done|]. cbn [rows]. rewrite step_row_row.
  change (S (S (length ra))) with (S (length (x :: ra))). rewrite (IH (x :: ra)). cbn [rev]. by rewrite <- app_assoc.
Qed.

Lemma first_row b : row [] b = seq 0 (S (length b)).
Proof.
  unfold row. cbn [levenshtein length seq]. f_equal.
  assert (H : forall rp, cells [] rp b = seq (S (length rp)) (length b)); [|apply (H [])].
  induction b as [|y b IH]; intros rp; [done|]. cbn. f_equal. apply (IH (y :: rp)).
Qed.

Lemma last_cells ra rp b : last (levenshtein ra rp :: cells ra rp b) = Some (levenshtein ra (rev b ++ rp)).
Proof.
  revert rp. induction b as [|y b IH]; intros rp; [done|]. cbn [cells rev].
  change (last (levenshtein ra rp :: ?l)) with (last l). rewrite (IH (y :: rp)). by rewrite <- app_assoc.
Qed.

(** C40 The two-row computation gives the Levenshtein distance. *)
Theorem edit_distance_levenshtein a b : edit_distance a b = levenshtein (rev a) (rev b).
Proof.
  unfold edit_distance. destruct a as [|x a]; [cbn [rev levenshtein]; by rewrite length_rev|]. destruct b as [|y b].
  - by rewrite levenshtein_nil, length_rev.
  - rewrite <- first_row. change 1 with (S (length (@nil A))). rewrite rows_row. unfold row.
    by rewrite !app_nil_r, last_cells, app_nil_r.
Qed.
End EditDistance.

(** ** Properties *)

(** Every kind is parsed from its label and from its snake-case name, and the item type
    stored for a kind is of that kind. *)
Lemma parse_kind_label k : parse_kind (kind_label k) = Some k /\ from_item_type (to_item_type k) = k.
Proof. destruct k; vm_compute; by split. Qed.

(** Two operations never share an audit name, and only signing and broadcasting ride the
    strong track. *)
Lemma audit_names_distinct a b : op_as_str a = op_as_str b -> a = b.
Proof. destruct a, b; done || (intros H; vm_compute in H; discriminate H). Qed.

Lemma audit_ops_all op : op ∈ audit_ops.
Proof. apply list_elem_of_In. destruct op; cbn; tauto. Qed.
