(* ===== verification/SecretEntry.v ===== *)
(** * Entries of the secret store

    crates/oc-secret/src/entry.rs with the recipients check of age.rs: an entry is
    plaintext metadata and an age ciphertext of the [Envelope] of its payload.  age and
    serde_json are the classes [Age] and [SecretJson].  Bytes are a [string]; locking a
    buffer in memory may fail. *)

From Stdlib Require Import ZArith Lia Ascii String Bool.
From stdpp Require Import base list strings.
From S2P Require Import Prelude Str Decimal Names Json Envelope SecretTypes.

Local Open Scope oc_scope.

(** ** age *)

(** The age crate: recipients, identities, and encryption with the randomness it draws. *)
Class Age := {
  Recipient : Type;
  Identity : Type;
  public : Identity -> Recipient;
  parse_recipient : string -> result string Recipient;
  age_encrypt : Z -> list Recipient -> string -> result string string;
  age_decrypt : Identity -> string -> result string string
}.

(** What is encrypted to a recipient opens with its identity. *)
Class AgeLaws (G : Age) : Prop :=
  age_opens rand rs plaintext ciphertext id :
    age_encrypt rand rs plaintext = Ok ciphertext -> In (public id) rs -> age_decrypt id ciphertext = Ok plaintext.

Inductive AgeError :=
| Encryption (message : string)
| Decryption (message : string)
| InvalidRecipient (message : string).

(** [collect] into a [Result]: the first failure is the answer. *)
Fixpoint collect_ok {E A B} (f : A -> result E B) (l : list A) : result E (list B) :=
  match l with
  | [] => Ok []
  | x :: l' => let? y := f x in let? ys := collect_ok f l' in Ok (y :: ys)
  end.

Section Crypt.
Context {G : Age}.

Definition encrypt_payload (rand : Z) (plaintext : string) (recipients : list string) : result AgeError string :=
  if is_nil recipients then Err (InvalidRecipient "no recipients provided") else
  let? parsed := collect_ok (fun s => result_map_err (fun e => InvalidRecipient (s +:+ ": " +:+ e)) (parse_recipient s)) recipients in
  result_map_err Encryption (age_encrypt rand parsed plaintext).

Definition decrypt_payload (ciphertext : string) (identity : Identity) : result AgeError string :=
  result_map_err Decryption (age_decrypt identity ciphertext).
End Crypt.

(** ** Paths (crates/oc-secret/src/path.rs) *)

Definition MAX_PATH_LEN : Z := 1024.

(** [PathError::Invalid]; its path is the one given. *)
Definition validate_path (path : string) : result string unit :=
  if (MAX_PATH_LEN <? str_len path)%Z then Err ("path exceeds " +:+ fmt_Z MAX_PATH_LEN +:+ " bytes")
  else match validate_secret_name path with
       | Ok _ => Ok tt
       | Err (InvalidInput message) => Err message
       end.

(** ** Entries *)

Section Entry.
Context {S : SerdeNumber} {G : Age}.

Record SecretEntry := {
  id : string;
  name : string;
  item_type : ItemType;
  created_at : string;
  updated_at : string;
  metadata : SecretMetadata;
  generation : Z;
  ciphertext : string
}.

Inductive SecretEntryError {json_error : Type} :=
| EAge (e : AgeError)
| ESerde (e : json_error)
| EInvalidName (message : string)
| ETampered (path reason : string)
| EMemGuard (message : string).
Arguments SecretEntryError : clear implicits.

(** serde_json on the types of the store; [secret_field] reads one field only. *)
Class SecretJson (json_error : Type) := {
  payload_to_json : SecretPayload -> result json_error string;
  payload_from_json : string -> result json_error SecretPayload;
  secret_field : string -> result json_error string;
  entry_to_json : SecretEntry -> result json_error string;
  entry_from_json : string -> result json_error SecretEntry;
  index_to_json : SecretIndexEntry -> result json_error string;
  index_from_json : string -> result json_error SecretIndexEntry
}.

(** A value reads back as it was written; the text of an index entry is one line, with
    no white space around it; a generation that was read is a [u64]. *)
Class SecretJsonLaws {json_error : Type} (J : SecretJson json_error) : Prop := {
  payload_roundtrip p s : payload_to_json p = Ok s -> payload_from_json s = Ok p;
  entry_roundtrip e s : entry_to_json e = Ok s -> entry_from_json s = Ok e;
  index_roundtrip e s : index_to_json e = Ok s -> index_from_json s = Ok e;
  index_one_line e s : index_to_json e = Ok s ->
    s <> "" /\ trim s = s /\ contains_byte lf s = false /\ contains_byte cr s = false /\ utf8 s = true;
  entry_u64 s e : entry_from_json s = Ok e -> (0 <= generation e <= u64_max)%Z
}.

Context {json_error : Type} {J : SecretJson json_error}.

(** What one call on an entry reads of the world. *)
Record EntryWorld := {
  lock_plaintext : option string;
  lock_payload : option string;
  lock_secret : option string;
  rand : Z;
  uuid : string;
  now : string
}.

Definition of_envelope (e : EnvelopeError) : SecretEntryError json_error :=
  match e with
  | Envelope.Tampered path reason => ETampered path reason
  | InvalidPath message => EInvalidName message
  end.

Definition guarded (lock : option string) : result (SecretEntryError json_error) unit :=
  match lock with Some m => Err (EMemGuard m) | None => Ok tt end.

(** Serialize, wrap, encrypt. *)
Definition seal (w : EntryWorld) (name : string) (generation : Z) (payload : SecretPayload) (recipients : list string)
  : result (SecretEntryError json_error) string :=
  let? json := result_map_err ESerde (payload_to_json payload) in
  let? enveloped := result_map_err of_envelope (wrap_envelope name generation json) in
  result_map_err EAge (encrypt_payload (rand w) enveloped recipients).

Definition new (w : EntryWorld) (name : string) (item_type : ItemType) (payload : SecretPayload)
    (metadata : SecretMetadata) (recipients : list string) (generation : Z)
  : result (SecretEntryError json_error) SecretEntry :=
  let? _ := result_map_err EInvalidName (validate_path name) in
  if (generation =? 0)%Z then Err (EInvalidName "generation must be >= 1") else
  let? ciphertext := seal w name generation payload recipients in
  Ok {| id := uuid w; name := name; item_type := item_type; created_at := now w; updated_at := now w;
        metadata := metadata; generation := generation; ciphertext := ciphertext |}.

Definition with_ciphertext (e : SecretEntry) (ciphertext : string) (generation : Z) (updated_at : string)
  : SecretEntry := {|
  id := id e; name := name e; item_type := item_type e; created_at := created_at e; updated_at := updated_at;
  metadata := metadata e; generation := generation; ciphertext := ciphertext
|}.

Definition set_payload (w : EntryWorld) (e : SecretEntry) (payload : SecretPayload) (recipients : list string)
    (generation : Z) : result (SecretEntryError json_error) SecretEntry :=
  if (generation =? 0)%Z then Err (EInvalidName "generation must be >= 1") else
  let? ciphertext := seal w (name e) generation payload recipients in
  Ok (with_ciphertext e ciphertext generation (now w)).

Definition starts_with_magic (bytes : string) : bool := starts_with ENVELOPE_MAGIC bytes.

Definition decrypt_envelope_json (w : EntryWorld) (e : SecretEntry) (identity : Identity)
  : result (SecretEntryError json_error) (Z * string) :=
  let? plaintext := result_map_err EAge (decrypt_payload (ciphertext e) identity) in
  let? _ := guarded (lock_plaintext w) in
  if negb (starts_with_magic plaintext) then Ok (0%Z, plaintext)
  else
    let? r := result_map_err of_envelope (unwrap_envelope (name e) plaintext) in
    if negb (generation e =? 0)%Z && negb (r.1 =? generation e)%Z then Err (ETampered (name e) "generation mismatch")
    else Ok r.

Definition decrypt (w : EntryWorld) (e : SecretEntry) (identity : Identity)
  : result (SecretEntryError json_error) SecretPayload :=
  let? r := decrypt_envelope_json w e identity in
  let? _ := guarded (lock_payload w) in
  result_map_err ESerde (payload_from_json r.2).

Definition decrypt_secret (w : EntryWorld) (e : SecretEntry) (identity : Identity)
  : result (SecretEntryError json_error) string :=
  let? r := decrypt_envelope_json w e identity in
  let? _ := guarded (lock_payload w) in
  result_map_err ESerde (secret_field r.2).

Definition decrypt_hardened (w : EntryWorld) (e : SecretEntry) (identity : Identity)
  : result (SecretEntryError json_error) string :=
  let? payload := decrypt w e identity in
  let? _ := guarded (lock_secret w) in
  Ok (secret payload).

Definition re_encrypt (w : EntryWorld) (e : SecretEntry) (old_identity : Identity) (new_recipients : list string)
  : result (SecretEntryError json_error) SecretEntry :=
  let? payload := decrypt w e old_identity in
  let? ciphertext := seal w (name e) (generation e) payload new_recipients in
  Ok (with_ciphertext e ciphertext (generation e) (now w)).

Definition to_index_entry (e : SecretEntry) : SecretIndexEntry := {|
  row_id := id e; row_name := name e; row_item_type := item_type e; row_created_at := created_at e;
  row_updated_at := updated_at e; row_metadata := metadata e; row_generation := generation e; tombstone := false
|}.
End Entry.
Arguments SecretEntryError : clear implicits.

(** ** What an entry opens as *)

Section Opens.
Context {S : SerdeNumber} {G : Age} {json_error : Type} {J : SecretJson json_error}.

Definition unlocked (w : EntryWorld) : Prop := lock_plaintext w = None /\ lock_payload w = None.

(** The envelope under any header. *)
Lemma envelope_bound w e identity sealed_name g payload enveloped :
  lock_plaintext w = None -> utf8 sealed_name = true -> (0 <= g <= u64_max)%Z ->
  wrap_envelope sealed_name g payload = Ok enveloped -> age_decrypt identity (ciphertext e) = Ok enveloped ->
  decrypt_envelope_json (json_error := json_error) w e identity =
    if negb (String.eqb sealed_name (name e)) then Err (ETampered (name e) "path mismatch")
    else if negb (generation e =? 0)%Z && negb (g =? generation e)%Z then
      Err (ETampered (name e) "generation mismatch")
    else Ok (g, payload).
Proof.
  intros Hl Hu Hg Hw Hd. unfold decrypt_envelope_json, decrypt_payload. rewrite Hd, Hl. cbn [result_map_err result_bind guarded].
  assert (Hm : starts_with_magic enveloped = true).
  { unfold wrap_envelope in Hw. destruct (_ || _); [done|]. injection Hw as <-. reflexivity. }
  rewrite Hm. cbn [negb]. rewrite (envelope_opens sealed_name g payload enveloped (name e)) by done.
  by destruct (String.eqb sealed_name (name e)).
Qed.

Lemma seal_opens {GL : AgeLaws G} {JL : SecretJsonLaws J} w name g payload recipients c identity rs :
  seal w name g payload recipients = Ok c -> collect_ok parse_recipient recipients = Ok rs -> In (public identity) rs ->
  exists json enveloped, payload_to_json payload = Ok json /\ wrap_envelope name g json = Ok enveloped /\
    age_decrypt identity c = Ok enveloped.
Proof.
  unfold seal. destruct (payload_to_json payload) as [json|] eqn:Hj; [|done]. cbn [result_map_err result_bind].
  destruct (wrap_envelope name g json) as [enveloped|] eqn:Hw; [|done]. cbn [result_map_err result_bind].
  intros Hc Hrs Hin. exists json, enveloped. split_and!; [done|done|].
  unfold encrypt_payload in Hc. destruct (is_nil recipients); [done|].
  assert (Hp : forall l l', collect_ok parse_recipient l = Ok l' ->
    collect_ok (fun s => result_map_err (fun e => InvalidRecipient (s +:+ ": " +:+ e)) (parse_recipient s)) l = Ok l').
  { induction l as [|x l IH]; intros l' Hl; [by injection Hl as <-|]. cbn [collect_ok] in *.
    destruct (parse_recipient x) as [r|]; [|done]. cbn [result_bind result_map_err] in *.
    destruct (collect_ok parse_recipient l) as [ys|]; [|done]. injection Hl as <-. by rewrite (IH ys eq_refl). }
  rewrite (Hp _ _ Hrs) in Hc. cbn [result_bind] in Hc.
  destruct (age_encrypt (rand w) rs enveloped) as [c'|] eqn:He; [|done]. injection Hc as <-. by eapply age_opens.
Qed.

Lemma sealed_decrypts {GL : AgeLaws G} {JL : SecretJsonLaws J} w w' name g payload recipients c e identity rs :
  seal w name g payload recipients = Ok c -> collect_ok parse_recipient recipients = Ok rs -> In (public identity) rs ->
  utf8 name = true -> (0 <= g <= u64_max)%Z -> unlocked w' -> ciphertext e = c ->
  decrypt w' e identity =
    if negb (String.eqb name (SecretEntry.name e)) then Err (ETampered (SecretEntry.name e) "path mismatch")
    else if negb (generation e =? 0)%Z && negb (g =? generation e)%Z then
      Err (ETampered (SecretEntry.name e) "generation mismatch")
    else Ok payload.
Proof.
  intros Hs Hrs Hin Hu Hg [Hl1 Hl2] He.
  destruct (seal_opens w name g payload recipients c identity rs Hs Hrs Hin) as (json & enveloped & Hj & Hw & Hd).
  unfold decrypt. erewrite (envelope_bound w' e identity name g json enveloped) by (done || by rewrite He).
  destruct (negb (String.eqb _ _)); [done|]. destruct (_ && _); [done|]. cbn [result_bind snd]. rewrite Hl2.
  cbn [guarded result_bind]. by rewrite (payload_roundtrip payload json Hj).
Qed.

(** C29 A ciphertext that was made for a name and a generation opens in any entry only as
    the payload that was sealed: in an entry of another name it is refused, and in one of
    another generation too, unless the entry has none. *)
Theorem decrypt_binding {GL : AgeLaws G} {JL : SecretJsonLaws J} w w' name item_type payload metadata recipients g made e identity rs :
  new w name item_type payload metadata recipients g = Ok made ->
  collect_ok parse_recipient recipients = Ok rs -> In (public identity) rs ->
  utf8 name = true -> (0 <= g <= u64_max)%Z -> unlocked w' -> ciphertext e = ciphertext made ->
  decrypt w' e identity =
    if negb (String.eqb name (SecretEntry.name e)) then Err (ETampered (SecretEntry.name e) "path mismatch")
    else if negb (generation e =? 0)%Z && negb (g =? generation e)%Z then
      Err (ETampered (SecretEntry.name e) "generation mismatch")
    else Ok payload.
Proof.
  unfold new. destruct (validate_path name); [|done]. cbn [result_map_err result_bind].
  destruct (Z.eqb_spec g 0); [done|]. destruct (seal _ _ _ _ _) as [c|] eqn:Hs; [|done]. cbn [result_bind]. intros [= <-] ? ? ? ? ? He.
  by eapply sealed_decrypts.
Qed.

(** What [new] makes opens as the payload. *)
Lemma new_opens {GL : AgeLaws G} {JL : SecretJsonLaws J} w w' name item_type payload metadata recipients g e identity rs :
  new w name item_type payload metadata recipients g = Ok e ->
  utf8 name = true -> (0 <= g <= u64_max)%Z -> unlocked w' ->
  collect_ok parse_recipient recipients = Ok rs -> In (public identity) rs ->
  decrypt w' e identity = Ok payload.
Proof.
  unfold new. destruct (validate_path name); [|done]. cbn [result_map_err result_bind].
  destruct (Z.eqb_spec g 0); [done|]. destruct (seal _ _ _ _ _) as [c|] eqn:Hs; [|done]. cbn [result_bind].
  intros [= <-] Hu Hg Hw Hrs Hin. erewrite sealed_decrypts by done. cbn.
  by rewrite String.eqb_refl, Z.eqb_refl, andb_false_r.
Qed.

(** So does [set_payload], in the entry it leaves. *)
Lemma set_payload_opens {GL : AgeLaws G} {JL : SecretJsonLaws J} w w' e payload recipients g e' identity rs :
  set_payload w e payload recipients g = Ok e' ->
  utf8 (name e) = true -> (0 <= g <= u64_max)%Z -> unlocked w' ->
  collect_ok parse_recipient recipients = Ok rs -> In (public identity) rs ->
  decrypt w' e' identity = Ok payload.
Proof.
  unfold set_payload. destruct (Z.eqb_spec g 0); [done|]. destruct (seal _ _ _ _ _) as [c|] eqn:Hs; [|done]. cbn [result_bind].
  intros [= <-] Hu Hg Hw Hrs Hin. erewrite sealed_decrypts by done. cbn.
  by rewrite String.eqb_refl, Z.eqb_refl, andb_false_r.
Qed.

(** Sealing again for other recipients keeps the payload: who could open an entry makes
    one that the new recipients open, with the same name, generation, metadata and
    identity. *)
Theorem re_encrypt_keeps {GL : AgeLaws G} {JL : SecretJsonLaws J} w w' e old_identity recipients e' identity rs :
  re_encrypt w e old_identity recipients = Ok e' ->
  utf8 (name e) = true -> (0 <= generation e <= u64_max)%Z -> unlocked w' ->
  collect_ok parse_recipient recipients = Ok rs -> In (public identity) rs ->
  decrypt w' e' identity = decrypt w e old_identity /\ to_index_entry e' = to_index_entry (with_ciphertext e (ciphertext e') (generation e) (now w)).
Proof.
  unfold re_encrypt. destruct (decrypt w e old_identity) as [payload|] eqn:Hd; [|done]. cbn [result_bind].
  destruct (seal _ _ _ _ _) as [c|] eqn:Hs; [|done]. cbn [result_bind]. intros [= <-] Hu Hg Hw Hrs Hin. split; [|done].
  erewrite sealed_decrypts by done. cbn. by rewrite String.eqb_refl, Z.eqb_refl, andb_false_r.
Qed.
End Opens.
