(* ===== verification/SecretStore.v ===== *)
(** * The secret store

    crates/oc-secret/src/store.rs: one file per entry and a plaintext index of the names
    with their generations, deleted names included.  Each operation is a sequence on the
    disk ([Trace]); the symbolic links, the modes of the directories, the clock and the
    failing calls are readings of the world ([SecretIo]).  The crate's [git] feature,
    which commits the changed files, is off by default and not modelled. *)

From Stdlib Require Import ZArith Lia Ascii String Bool.
From stdpp Require Import base list strings gmap.
From S2P Require Import Prelude Str Decimal Names Files Trace MapStore Json Envelope Journal SecretTypes SecretEntry.

Local Open Scope oc_scope.

Section Store.
Context {S : SerdeNumber} {G : Age} {io_error json_error : Type} {J : SecretJson json_error}.
Context (no_parent : Path -> io_error).

Inductive SecretStoreError :=
| NotFound (name : string)
| AlreadyExists (name : string)
| InvalidName (message : string)
| GenerationMismatch (name : string) (expected got : Z)
| Tampered (path reason : string)
| Io (e : io_error)
| Serde (e : json_error)
| Entry (e : SecretEntryError json_error).

(** What one operation meets.  The index is read and written several times by some
    operations: the calls are numbered. *)
Record SecretIo := {
  is_link : Path -> bool;
  read_entry_err : option io_error;
  entry_write : StoreIo io_error;
  index_io : nat -> StoreIo io_error;
  missing_index : io_error;
  bad_utf8 : io_error;
  unlink_err : option io_error;
  wal_write : PlainWrite io_error;
  wal_remove_fails : bool;
  entry_world : EntryWorld;
  tombstone_time : string
}.

Definition of_entry_error (e : SecretEntryError json_error) : SecretStoreError :=
  match e with
  | ETampered path reason => Tampered path reason
  | other => Entry other
  end.

Context (root : string).

Definition secrets_dir : string := join root "secrets".
Definition index_path : Path := (Some root, Some "index.jsonl").

(** [to_file] and its fallback build the same path. *)
Definition entry_path (name : string) : Path :=
  match validate_path name with
  | Ok _ => (Some secrets_dir, Some (secret_name_to_filename name +:+ "." +:+ "age"))
  | Err _ => (Some secrets_dir, Some (secret_name_to_filename name +:+ ".age"))
  end.

Definition validate_name (name : string) : result SecretStoreError unit :=
  result_map_err InvalidName (validate_path name).

(** ** The index *)

Definition MAX_INDEX_SIZE : Z := 1024 * 1024.

Fixpoint read_rows (lines : list string) : result SecretStoreError (list SecretIndexEntry) :=
  match lines with
  | [] => Ok []
  | line :: lines' =>
      let line := trim line in
      if is_empty line then read_rows lines'
      else if (1024 <? str_len line)%Z then Err (InvalidName "index line too long (max 1024 bytes)")
      else
        let? entry := result_map_err Serde (index_from_json line) in
        let? entries := read_rows lines' in
        Ok (entry :: entries)
  end.

Definition read_index_raw (io : SecretIo) (n : nat) (d : FS) : result SecretStoreError (list SecretIndexEntry) :=
  match read_err (index_io io n), d !! index_path with
  | Some e, _ => Err (Io e)
  | None, None => Err (Io (missing_index io))
  | None, Some file =>
      if (MAX_INDEX_SIZE <? str_len (file_content file))%Z then
        Err (InvalidName ("index file too large: " +:+ fmt_Z (str_len (file_content file)) +:+ " bytes (max " +:+
                          fmt_Z MAX_INDEX_SIZE +:+ ")"))
      else if negb (utf8 (file_content file)) then Err (Io (bad_utf8 io))
      else read_rows (buf_lines (file_content file))
  end.

Fixpoint find_row (name : string) (rows : list SecretIndexEntry) : option SecretIndexEntry :=
  match rows with
  | [] => None
  | e :: rows' => if String.eqb (row_name e) name then Some e else find_row name rows'
  end.

Definition floor_of (name : string) (rows : list SecretIndexEntry) : Z :=
  match find_row name rows with Some e => row_generation e | None => 0 end.

Definition floor (io : SecretIo) (n : nat) (name : string) (d : FS) : result SecretStoreError Z :=
  let? entries := read_index_raw io n d in Ok (floor_of name entries).

Definition next_of (floor : Z) : Z := Z.max (saturating_add64 floor 1) 1.

Definition next_generation (io : SecretIo) (n : nat) (name : string) (d : FS) : result SecretStoreError Z :=
  let? _ := validate_name name in
  let? f := floor io n name d in
  Ok (next_of f).

(** What [open] meets. *)
Record OpenIo := {
  root_dir_err : option io_error;
  secrets_dir_err : option io_error;
  chmod_fails : bool;
  create_index : StoreIo io_error
}.

(** [sort_by(|a, b| a.name.cmp(&b.name))], which is stable. *)
Fixpoint insert_row (e : SecretIndexEntry) (l : list SecretIndexEntry) : list SecretIndexEntry :=
  match l with
  | [] => [e]
  | x :: l' => match String.compare (row_name x) (row_name e) with
               | Gt | Eq => e :: l
               | Lt => x :: insert_row e l'
               end
  end.

Definition sort_rows (l : list SecretIndexEntry) : list SecretIndexEntry := fold_right insert_row [] l.

Definition live_rows (l : list SecretIndexEntry) : list SecretIndexEntry := List.filter (fun e => negb (tombstone e)) l.

Definition list_entries (io : SecretIo) (n : nat) (d : FS) : result SecretStoreError (list SecretIndexEntry) :=
  let? entries := read_index_raw io n d in Ok (sort_rows (live_rows entries)).

Definition list_all (io : SecretIo) (n : nat) (d : FS) : result SecretStoreError (list SecretIndexEntry) :=
  let? entries := read_index_raw io n d in Ok (sort_rows entries).

Fixpoint render_rows (entries : list SecretIndexEntry) : result SecretStoreError string :=
  match entries with
  | [] => Ok ""
  | e :: entries' =>
      let? line := result_map_err Serde (index_to_json e) in
      let? rest := render_rows entries' in
      Ok (line +:+ String lf rest)
  end.

(** A whole file replaced. *)
Definition write_store (w : StoreIo io_error) (path : Path) (contents : string) : Disk SecretStoreError unit :=
  fun d =>
    let '(r, trace) := write_atomic_private no_parent (create_err w) (write_faults w) path contents
                         (tmp_pid w) (tmp_nanos w) (tmp_seq w) d in
    (result_map_err Io r, trace).

(** [set_file_mode_0600] on a file that is there. *)
Definition narrow_mode (w : OpenIo) (path : Path) : Disk SecretStoreError unit :=
  fun d => (Ok tt, [match d !! path with
                    | Some f => if chmod_fails w then d
                                else <[path := {| file_mode := MODE_PRIVATE_FILE; file_content := file_content f |}]> d
                    | None => d
                    end]).

Definition made_dir (err : option io_error) : result SecretStoreError unit :=
  match err with Some e => Err (Io e) | None => Ok tt end.

Definition open_store (w : OpenIo) : Disk SecretStoreError unit :=
  let> _ := on_result (made_dir (root_dir_err w)) in
  let> _ := on_result (made_dir (secrets_dir_err w)) in
  fun d => if exists_file index_path d then narrow_mode w index_path d
           else write_store (create_index w) index_path "" d.

Definition write_index (io : SecretIo) (n : nat) (entries : list SecretIndexEntry) : Disk SecretStoreError unit :=
  let> content := on_result (render_rows entries) in
  write_store (index_io io n) index_path content.

Definition without (name : string) (rows : list SecretIndexEntry) : list SecretIndexEntry :=
  List.filter (fun e => negb (String.eqb (row_name e) name)) rows.

Definition upsert_index (io : SecretIo) (n : nat) (entry : SecretIndexEntry) : Disk SecretStoreError unit :=
  let> entries := on_disk_of (read_index_raw io n) in
  write_index io n (without (row_name entry) entries ++ [entry]).

Definition tombstone_row (io : SecretIo) (name : string) (item_type : ItemType) (generation : Z) : SecretIndexEntry := {|
  row_id := ""; row_name := name; row_item_type := item_type; row_created_at := "";
  row_updated_at := tombstone_time io; row_metadata := default_metadata; row_generation := generation; tombstone := true
|}.

Definition write_tombstone (io : SecretIo) (n : nat) (name : string) (item_type : ItemType) (generation : Z)
  : Disk SecretStoreError unit :=
  let> entries := on_disk_of (read_index_raw io n) in
  write_index io n (without name entries ++ [tombstone_row io name item_type generation]).

(** ** Reading an entry *)

Definition refuse_link (io : SecretIo) (name : string) : result SecretStoreError unit :=
  if is_link io (entry_path name) then Err (Tampered name "entry path is a symlink") else Ok tt.

Definition check_row (name : string) (entry : SecretEntry) (rows : list SecretIndexEntry)
  : result SecretStoreError SecretEntry :=
  match find_row name rows with
  | None => Ok entry
  | Some row =>
      if tombstone row then Err (Tampered name "deleted entry resurrected")
      else if negb (row_generation row =? 0)%Z && negb (generation entry =? 0)%Z
              && negb (row_generation row =? generation entry)%Z then
        Err (Tampered name "generation mismatch")
      else Ok entry
  end.

Definition get (io : SecretIo) (n : nat) (name : string) (d : FS) : result SecretStoreError SecretEntry :=
  let? _ := validate_name name in
  let? _ := refuse_link io name in
  match d !! entry_path name with
  | None => Err (NotFound name)
  | Some file =>
      match read_entry_err io with
      | Some e => Err (Io e)
      | None =>
          let? entry := result_map_err Serde (entry_from_json (file_content file)) in
          if negb (String.eqb (SecretEntry.name entry) name) then Err (Tampered name "entry name mismatch") else
          let? raw := read_index_raw io n d in
          check_row name entry raw
      end
  end.

(** ** Changing the store *)

Definition put (io : SecretIo) (entry : SecretEntry) : Disk SecretStoreError unit :=
  let name := SecretEntry.name entry in
  let> _ := on_result (validate_name name) in
  let> expected := on_disk_of (next_generation io 0 name) in
  if negb (generation entry =? expected)%Z then on_result (Err (GenerationMismatch name expected (generation entry)))
  else
    let> json := on_result (result_map_err Serde (entry_to_json entry)) in
    let> _ := write_store (entry_write io) (entry_path name) json in
    upsert_index io 1 (to_index_entry entry).

(** [remove_file]. *)
Definition remove_file (io : SecretIo) (path : Path) : Disk SecretStoreError unit :=
  fun d => match unlink_err io with
           | Some e => (Err (Io e), [d])
           | None => (Ok tt, [d; delete path d])
           end.

Definition present (name : string) (d : FS) : result SecretStoreError unit :=
  if exists_file (entry_path name) d then Ok tt else Err (NotFound name).

Definition delete_secret (io : SecretIo) (name : string) : Disk SecretStoreError unit :=
  let> _ := on_result (validate_name name) in
  let> _ := on_result (refuse_link io name) in
  let> _ := on_disk_of (present name) in
  let> f := on_disk_of (floor io 0 name) in
  let> raw := on_disk_of (read_index_raw io 1) in
  let kind := match find_row name raw with Some e => row_item_type e | None => Note end in
  let> _ := remove_file io (entry_path name) in
  write_tombstone io 2 name kind f.

Definition wal_path : Path := (Some root, Some ".rename_wal").

Definition write_wal (io : SecretIo) (old new : string) : Disk SecretStoreError unit :=
  fun d => let '(r, trace) := plain_write (wal_write io) wal_path (old +:+ String (ascii_of_N 9) (new +:+ String lf "")) d in
           (result_map_err Io r, trace).

Definition clear_wal (io : SecretIo) : Disk SecretStoreError unit :=
  fun d => (Ok tt, [if wal_remove_fails io then d else delete wal_path d]).

Definition renamed (entry old : SecretEntry) : SecretEntry := {|
  id := id old; name := name entry; item_type := item_type entry; created_at := created_at old;
  updated_at := updated_at entry; metadata := metadata entry; generation := generation entry;
  ciphertext := ciphertext entry
|}.

(** The new copy of [rename]: the payload decrypted and sealed again. *)
Definition moved_entry (io : SecretIo) (old new : string) (identity : Identity) (recipients : list string) (d : FS)
  : result SecretStoreError (SecretEntry * SecretEntry) :=
  let? old_entry := get io 0 old d in
  let? payload := result_map_err of_entry_error (decrypt (entry_world io) old_entry identity) in
  let? new_gen := next_generation io 1 new d in
  let? new_entry := result_map_err of_entry_error
                      (SecretEntry.new (entry_world io) new (item_type old_entry) payload (metadata old_entry) recipients new_gen) in
  Ok (old_entry, renamed new_entry old_entry).

Definition rename (io : SecretIo) (old new : string) (identity : Identity) (recipients : list string)
  : Disk SecretStoreError unit :=
  let> _ := on_result (validate_name old) in
  let> _ := on_result (validate_name new) in
  if String.eqb old new then on_result (Ok tt) else
  let> _ := on_disk_of (present old) in
  let> _ := on_disk_of (fun d => if exists_file (entry_path new) d then Err (AlreadyExists new) else Ok tt) in
  let> '(old_entry, new_entry) := on_disk_of (moved_entry io old new identity recipients) in
  let> json := on_result (result_map_err Serde (entry_to_json new_entry)) in
  let> _ := write_store (entry_write io) (entry_path new) json in
  let> _ := write_wal io old new in
  let> _ := remove_file io (entry_path old) in
  let> f := on_disk_of (floor io 2 old) in
  let> _ := write_tombstone io 3 old (item_type old_entry) (Z.max f (generation old_entry)) in
  let> _ := upsert_index io 4 (to_index_entry new_entry) in
  clear_wal io.

(** ** Searching *)

Definition mentions (q : string) (o : option string) : bool :=
  match o with Some s => contains q (ascii_lowercase s) | None => false end.

Definition matches (q : string) (e : SecretIndexEntry) : bool :=
  let m := row_metadata e in
  contains q (ascii_lowercase (row_name e)) || mentions q (url m) || mentions q (username m) ||
  mentions q (issuer m) || mentions q (account m) || existsb (fun t => contains q (ascii_lowercase t)) (tags m).

Definition search (io : SecretIo) (n : nat) (query : string) (d : FS) : result SecretStoreError (list SecretIndexEntry) :=
  let? entries := list_entries io n d in
  if is_empty query then Ok entries
  else Ok (List.filter (matches (ascii_lowercase query)) entries).

(** [sort_by_key], which is stable. *)
Fixpoint insert_hit (h : nat * SecretIndexEntry) (l : list (nat * SecretIndexEntry)) : list (nat * SecretIndexEntry) :=
  match l with
  | [] => [h]
  | x :: l' => if (x.1 <? h.1)%nat then x :: insert_hit h l' else h :: l
  end.

(** The characters of a string are a parameter: the model's strings are bytes. *)
Context (chars : string -> list Z).

Definition fuzzy_search (io : SecretIo) (n : nat) (query : string) (max_distance : nat) (d : FS)
  : result SecretStoreError (list SecretIndexEntry) :=
  let? entries := list_entries io n d in
  if is_empty query then Ok entries
  else
    let q := ascii_lowercase query in
    let hits := omap (fun e =>
      let dist := edit_distance (chars q) (chars (ascii_lowercase (row_name e))) in
      if (dist <=? max_distance)%nat then Some (dist, e) else None) entries in
    Ok (map snd (fold_right insert_hit [] hits)).
End Store.
