(* ===== verification/SecretSafety.v ===== *)
(** * What the secret store guarantees

    The generations of the index over histories of operations with failures and crashes,
    the refusal of replayed entries, and the store as a map from names to entries
    ([SecretStore]). *)

From Stdlib Require Import ZArith Lia Ascii String Bool.
From stdpp Require Import base list strings gmap relations.
From S2P Require Import Prelude Str Decimal Names Files Trace MapStore Json Envelope Journal SecretTypes SecretEntry SecretStore.

Local Open Scope oc_scope.

Section Safety.
Context {S : SerdeNumber} {G : Age} {io_error json_error : Type} {J : SecretJson json_error} {JL : SecretJsonLaws J}.
Context (no_parent : Path -> io_error) (root : string).

Abbreviation SecretIo := (@SecretIo io_error).
Abbreviation index_path := (index_path root).
Abbreviation read_index_raw := (SecretStore.read_index_raw (io_error := io_error) (json_error := json_error) root).

Abbreviation render := (render_rows (io_error := io_error)).

(** ** The index file *)

(** The index on the disk is the text of [rows]. *)
Definition indexed (d : FS) (rows : list SecretIndexEntry) : Prop :=
  exists f, d !! index_path = Some f /\
    render rows = Ok (file_content f).

Lemma rendered_rows rows text rows' : render_rows (io_error := io_error) rows = Ok text ->
  read_rows (io_error := io_error) (buf_lines text) = Ok rows' -> rows' = rows.
Proof.
  revert text rows'. induction rows as [|e rows IH]; intros text rows'; cbn [render_rows].
  - intros [= <-]. by intros [= <-].
  - destruct (index_to_json e) as [line|] eqn:Hl; [|done]. cbn [result_map_err result_bind].
    destruct (render_rows rows) as [rest|] eqn:Hr; [|done]. cbn [result_bind]. intros [= <-].
    destruct (index_one_line e line Hl) as (Hne & Ht & Hlf & Hcr & _).
    rewrite buf_lines_row by done. cbn [read_rows]. rewrite Ht. apply is_empty_false in Hne as ->.
    destruct (1024 <? str_len line)%Z; [done|]. rewrite (index_roundtrip e line Hl). cbn [result_map_err result_bind].
    destruct (read_rows (buf_lines rest)) as [es|] eqn:Hes; [|done]. cbn [result_bind]. intros [= <-].
    f_equal. by apply (IH rest).
Qed.

(** What a read of the index returns is what was written. *)
Lemma read_indexed (io : SecretIo) n d rows rows' : indexed d rows -> read_index_raw io n d = Ok rows' -> rows' = rows.
Proof.
  intros (f & Hf & Hr). unfold SecretStore.read_index_raw. rewrite Hf. destruct (read_err _); [done|].
  destruct (_ <? _)%Z; [done|]. destruct (utf8 _); [|done]. cbn [negb]. by apply rendered_rows.
Qed.

Lemma indexed_same d d' rows : d' !! index_path = d !! index_path -> indexed d rows -> indexed d' rows.
Proof. unfold indexed. by intros ->. Qed.

(** ** Steps of the index *)

(** One name gets a new row: a tombstone at its generation or above, or the next
    generation. *)
Definition advances (name : string) (row : SecretIndexEntry) (rows : list SecretIndexEntry) : Prop :=
  row_name row = name /\ (row_generation row <= u64_max)%Z /\
  if tombstone row then (floor_of name rows <= row_generation row)%Z
  else row_generation row = next_of (floor_of name rows).

Inductive index_step : list SecretIndexEntry -> list SecretIndexEntry -> Prop :=
| row_replaced name row rows : advances name row rows -> index_step rows (without name rows ++ [row]).

Definition reaches (rows : list SecretIndexEntry) (d : FS) : Prop :=
  exists rows', rtc index_step rows rows' /\ indexed d rows'.

Lemma reaches_same rows d d' : d' !! index_path = d !! index_path -> reaches rows d -> reaches rows d'.
Proof. intros H (rows' & Hs & Hi). exists rows'. split; [done|]. by apply (indexed_same d). Qed.

Lemma find_row_app name rows row :
  find_row name (without name rows ++ [row]) = if String.eqb (row_name row) name then Some row else None.
Proof.
  induction rows as [|e rows IH]; cbn; [done|]. destruct (String.eqb (row_name e) name) eqn:E; cbn [negb]; [done|].
  cbn [app find_row]. by rewrite E.
Qed.

Lemma find_row_other name other rows row : row_name row = name -> name <> other ->
  find_row other (without name rows ++ [row]) = find_row other rows.
Proof.
  intros Hr Hne. induction rows as [|e rows IH]; cbn.
  - rewrite Hr. by destruct (String.eqb_spec name other).
  - destruct (String.eqb_spec (row_name e) name) as [He|He]; cbn [negb].
    + rewrite He. destruct (String.eqb_spec name other); [done|]. exact IH.
    + cbn [app find_row]. destruct (String.eqb (row_name e) other); [done|]. exact IH.
Qed.

(** The state of the disk while [path] gets [contents]: the old file or the new one, and
    every other file that lasts as it was. *)
Definition replacing (d : FS) (path : Path) (contents : string) (d' : FS) : Prop :=
  (d' !! path = d !! path \/ d' !! path = Some {| file_mode := MODE_PRIVATE_FILE; file_content := contents |}) /\
  forall q, q <> path -> durable q -> d' !! q = d !! q.

Abbreviation Error := (SecretStoreError (io_error := io_error) (json_error := json_error)).

Lemma write_store_steps (w : StoreIo io_error) path contents d :
  steps (E := Error) (replacing d path contents)
    (fun _ d' => d' !! path = Some {| file_mode := MODE_PRIVATE_FILE; file_content := contents |} /\
                 forall q, q <> path -> durable q -> d' !! q = d !! q)
    d (write_store no_parent w path contents d).
Proof.
  unfold write_store.
  pose proof (write_atomic_replaced no_parent (create_err w) (write_faults w) path contents MODE_PRIVATE_FILE
    (tmp_pid w) (tmp_nanos w) (tmp_seq w) d) as Hw.
  pose proof (fun q Hq Hd => write_private_leaves no_parent (create_err w) (write_faults w) path contents
    (tmp_pid w) (tmp_nanos w) (tmp_seq w) d q Hq Hd) as Hl. unfold write_atomic_private in *.
  destruct (write_atomic _ _ _ _ _ _ _ _ _ _) as [r t]. destruct Hw as [Hall Hfin]. unfold leaves in Hl. cbn [fst snd] in *.
  assert (Hsame : Forall (fun d' => forall q, q <> path -> durable q -> d' !! q = d !! q) t).
  { apply Forall_forall. intros d' Hd' q Hq Hd. specialize (Hl q Hq Hd). rewrite Forall_forall in Hl. by apply Hl. }
  split.
  - cbn [snd]. rewrite Forall_forall in *. intros d' Hd'. split; [by apply Hall|by apply Hsame].
  - cbn [fst]. intros [] Hok. destruct r as [[]|]; [|done]. split; [exact Hfin|].
    by apply (final_state (fun d' => forall q, q <> path -> durable q -> d' !! q = d !! q) d (Ok tt : result Error unit, t)).
Qed.

(** Everything written to the store's index is a step. *)
Lemma write_index_steps (io : SecretIo) n rows row name d rows0 :
  rtc index_step rows0 rows -> indexed d rows -> advances name row rows ->
  steps (E := Error) (reaches rows0) (fun _ d' => indexed d' (without name rows ++ [row]))
    d (write_index no_parent root io n (without name rows ++ [row]) d).
Proof.
  intros Hs Hi Ha. set (rows' := without name rows ++ [row]).
  assert (Hs' : rtc index_step rows0 rows') by (eapply rtc_r; [done|by constructor]).
  unfold write_index. eapply in_turn_steps; [by exists rows| |].
  - apply (on_result_steps _ (fun content d' => render rows' = Ok content /\ d' = d)); [by exists rows|]. by intros content ->.
  - intros content d' Hd' [Hc ->]. eapply steps_weaken; [..|apply write_store_steps]; cbn beta.
    + intros d1 [[Hsame|Hnew] _]; [by apply (reaches_same _ d)|]. exists rows'. split; [done|]. by eexists.
    + intros [] d1 [Hnew _]. by eexists.
Qed.

Lemma upsert_steps (io : SecretIo) n (entry : SecretIndexEntry) d rows rows0 :
  rtc index_step rows0 rows -> indexed d rows -> advances (row_name entry) entry rows ->
  steps (E := Error) (reaches rows0) (fun _ d' => indexed d' (without (row_name entry) rows ++ [entry]))
    d (upsert_index no_parent root io n entry d).
Proof.
  intros Hs Hi Ha. unfold upsert_index. eapply in_turn_steps; [by exists rows| |].
  - apply (on_disk_steps _ (fun es d' => es = rows /\ d' = d)); [by exists rows|].
    intros es Hes. split; [|done]. by eapply read_indexed.
  - intros es d' _ [-> ->]. by apply write_index_steps.
Qed.

Lemma tombstone_steps (io : SecretIo) n name kind g d rows rows0 :
  rtc index_step rows0 rows -> indexed d rows -> (floor_of name rows <= g <= u64_max)%Z ->
  steps (E := Error) (reaches rows0)
    (fun _ d' => indexed d' (without name rows ++ [tombstone_row io name kind g]))
    d (write_tombstone no_parent root io n name kind g d).
Proof.
  intros Hs Hi [Hg1 Hg2]. unfold write_tombstone. eapply in_turn_steps; [by exists rows| |].
  - apply (on_disk_steps _ (fun es d' => es = rows /\ d' = d)); [by exists rows|].
    intros es Hes. split; [|done]. by eapply read_indexed.
  - intros es d' _ [-> ->]. by apply write_index_steps.
Qed.

(** ** Operations *)

Lemma entry_path_file name : entry_path root name = entry_file root name.
Proof. unfold entry_path. by destruct (validate_path name). Qed.

Lemma entry_not_index name : entry_path root name <> index_path.
Proof.
  rewrite entry_path_file. unfold entry_file, SecretStore.index_path. intros [= _ H].
  apply (f_equal last_byte) in H. by rewrite last_byte_app in H by done.
Qed.

Lemma index_durable : durable index_path.
Proof. done. Qed.

Lemma next_generation_ok (io : SecretIo) n name d g rows : indexed d rows ->
  next_generation (io_error := io_error) root io n name d = Ok g -> g = next_of (floor_of name rows).
Proof.
  intros Hi. unfold next_generation. destruct (validate_name name); [|done]. cbn [result_bind].
  unfold floor. destruct (SecretStore.read_index_raw root io n d) as [es|] eqn:E; [|done]. cbn.
  intros [= <-]. by rewrite (read_indexed io n d rows es Hi E).
Qed.

Lemma next_of_range f : (next_of f <= u64_max)%Z.
Proof. unfold next_of, saturating_add64, u64_max. lia. Qed.

Lemma put_steps (io : SecretIo) entry d rows : indexed d rows ->
  steps (E := Error) (reaches rows)
    (fun _ d' => generation entry = next_of (floor_of (name entry) rows) /\
                 indexed d' (without (name entry) rows ++ [to_index_entry entry]))
    d (put no_parent root io entry d).
Proof.
  intros Hi. assert (Hd : reaches rows d) by by exists rows. unfold put.
  eapply in_turn_steps; [done|apply (on_result_steps _ (fun _ d' => d' = d)); done|]. intros _ ? _ ->.
  eapply in_turn_steps; [done|apply (on_disk_steps _ (fun g d' => d' = d /\ g = next_of (floor_of (name entry) rows)))|].
  { done. } { intros g Hg. split; [done|]. by eapply next_generation_ok. }
  intros g ? _ [-> ->]. destruct (Z.eqb_spec (generation entry) (next_of (floor_of (name entry) rows))) as [Hg|];
    cbn [negb]; [|by apply on_result_steps].
  eapply in_turn_steps; [done|apply (on_result_steps _ (fun _ d' => d' = d)); done|]. intros json ? _ ->.
  assert (Hsame : forall d' : FS, (forall q, q <> entry_path root (name entry) -> durable q -> d' !! q = d !! q) ->
    d' !! index_path = d !! index_path).
  { intros d' H. apply H; [|apply index_durable]. intros E. by apply (entry_not_index (name entry)). }
  eapply (in_turn_steps _ (fun _ d' => indexed d' rows)); [done| |].
  - eapply steps_weaken; [| |apply write_store_steps]; cbn beta.
    + intros d' [_ H]. by apply (reaches_same _ d); [apply Hsame|].
    + intros [] d' [_ H]. by apply (indexed_same d); [apply Hsame|].
  - intros [] d1 _ Hi1. eapply steps_weaken; [| |apply (upsert_steps io 1 (to_index_entry entry) d1 rows)]; cbn beta.
    + done.
    + by intros [] d2 H2.
    + done.
    + done.
    + split; [done|]. cbn. rewrite Hg. split; [apply next_of_range|done].
Qed.

(** Generations are [u64]. *)
Definition ranged (rows : list SecretIndexEntry) : Prop := Forall (fun e => (row_generation e <= u64_max)%Z) rows.

Lemma floor_range name rows : ranged rows -> (floor_of name rows <= u64_max)%Z.
Proof.
  unfold floor_of. induction 1 as [|e rows He _ IH]; cbn; [by vm_compute|]. by destruct (String.eqb _ _).
Qed.

Lemma without_ranged name rows : ranged rows -> ranged (without name rows).
Proof.
  unfold ranged. rewrite !Forall_forall. intros H e He. apply H. unfold without in He.
  rewrite list_elem_of_In, List.filter_In, <- list_elem_of_In in He. by destruct He.
Qed.

Lemma step_ranged rows rows' : rtc index_step rows rows' -> ranged rows -> ranged rows'.
Proof.
  induction 1 as [|rows rows1 rows2 H1 _ IH]; [done|]. intros Hr. apply IH. destruct H1 as [name row rows (_ & Hg & _)].
  apply Forall_app. split; [by apply without_ranged|by apply Forall_singleton].
Qed.

(** A step on other files keeps the index. *)
Lemma aside_steps {A : Type} (m : Disk Error A) d rows0 rows :
  rtc index_step rows0 rows -> indexed d rows ->
  Forall (fun d' : FS => d' !! index_path = d !! index_path) (m d).2 ->
  steps (reaches rows0) (fun _ d' => indexed d' rows) d (m d).
Proof.
  intros Hs Hi Hall. split.
  - eapply Forall_impl; [exact Hall|]. intros d' H. apply (reaches_same _ d); [done|]. by exists rows.
  - intros a _. apply (indexed_same d); [|done]. by apply (final_state (fun d' : FS => d' !! index_path = d !! index_path)).
Qed.

Lemma remove_file_aside (io : SecretIo) name d :
  Forall (fun d' : FS => d' !! index_path = d !! index_path)
    (remove_file (json_error := json_error) io (entry_path root name) d).2.
Proof.
  unfold remove_file. destruct (unlink_err io); [by apply Forall_singleton|].
  apply Forall_cons. split; [done|]. apply Forall_singleton. apply lookup_delete_ne, entry_not_index.
Qed.

Lemma write_store_aside (w : StoreIo io_error) path contents d : path <> index_path ->
  Forall (fun d' : FS => d' !! index_path = d !! index_path)
    (write_store (json_error := json_error) no_parent w path contents d).2.
Proof.
  intros Hne. eapply Forall_impl; [apply write_store_steps|]. intros d' [_ H]. apply H; [congruence|apply index_durable].
Qed.

Lemma write_wal_aside (io : SecretIo) old new d :
  Forall (fun d' : FS => d' !! index_path = d !! index_path)
    (write_wal (io_error := io_error) (json_error := json_error) root io old new d).2.
Proof.
  unfold write_wal, plain_write. destruct (plain_open_err _); [by apply Forall_singleton|].
  destruct (plain_write_err _) as [[partial e]|]; repeat (apply Forall_cons; split); try apply Forall_nil_2; try done;
    by apply lookup_insert_ne.
Qed.

Lemma clear_wal_aside (io : SecretIo) d :
  Forall (fun d' : FS => d' !! index_path = d !! index_path)
    (clear_wal (json_error := json_error) root io d).2.
Proof. apply Forall_singleton. destruct (wal_remove_fails io); [done|]. by apply lookup_delete_ne. Qed.

(** A step that only reads. *)
Ltac pure_step :=
  match goal with |- steps _ _ ?d _ =>
    eapply (in_turn_steps _ (fun _ d' => d' = d));
      [assumption|first [by apply on_result_steps|by apply on_disk_steps]|intros ? ? _ ->]
  end.

Lemma floor_ok (io : SecretIo) n name d rows f : indexed d rows ->
  floor (json_error := json_error) root io n name d = Ok f -> f = floor_of name rows.
Proof.
  intros Hi. unfold floor. destruct (SecretStore.read_index_raw root io n d) as [es|] eqn:E; [|done]. cbn.
  intros [= <-]. by rewrite (read_indexed io n d rows es Hi E).
Qed.

Lemma delete_steps (io : SecretIo) name d rows : indexed d rows -> ranged rows ->
  steps (E := Error) (reaches rows)
    (fun _ d' => exists kind, indexed d' (without name rows ++ [tombstone_row io name kind (floor_of name rows)]))
    d (delete_secret no_parent root io name d).
Proof.
  intros Hi Hr. assert (Hd : reaches rows d) by by exists rows. unfold delete_secret.
  pure_step. pure_step.
  pure_step.
  eapply (in_turn_steps _ (fun f d' => d' = d /\ f = floor_of name rows)); [done|apply on_disk_steps; [done|]|].
  { intros f Hf. split; [done|]. by eapply floor_ok. }
  intros f ? _ [-> ->].
  pure_step.
  eapply (in_turn_steps _ (fun _ d' => indexed d' rows)); [done|by apply aside_steps; [..|apply remove_file_aside]|].
  intros _ d1 _ Hi1. eapply steps_weaken; [| |apply (tombstone_steps io 2 name _ _ d1 rows)]; cbn beta.
  - done.
  - intros [] d2 H2. by eexists.
  - done.
  - done.
  - split; [done|]. by apply floor_range.
Qed.

Lemma moved_entry_ok (io : SecretIo) old new identity recipients d rows old_entry new_entry : indexed d rows ->
  moved_entry (io_error := io_error) root io old new identity recipients d = Ok (old_entry, new_entry) ->
  (generation old_entry <= u64_max)%Z /\ name old_entry = old /\ name new_entry = new /\
  generation new_entry = next_of (floor_of new rows).
Proof.
  intros Hi. unfold moved_entry. destruct (get root io 0 old d) as [e|] eqn:Hg; [|done]. cbn [result_bind].
  destruct (decrypt _ _ _) as [payload|]; [|done]. cbn [result_map_err result_bind].
  destruct (next_generation root io 1 new d) as [g|] eqn:Hn; [|done]. cbn [result_bind].
  destruct (SecretEntry.new _ _ _ _ _ _ _) as [ne|] eqn:He; [|done]. cbn. intros [= <- <-].
  apply (next_generation_ok io 1 new d g rows Hi) in Hn as ->.
  unfold SecretEntry.new in He. destruct (validate_path new); [|done]. cbn [result_map_err result_bind] in He.
  destruct (_ =? 0)%Z; [done|]. destruct (seal _ _ _ _ _); [|done]. injection He as <-. cbn.
  unfold get in Hg. destruct (validate_name old); [|done]. cbn [result_bind] in Hg.
  destruct (refuse_link _ _ _); [|done]. cbn [result_bind] in Hg. destruct (d !! _) as [f|]; [|done].
  destruct (read_entry_err io); [done|]. destruct (entry_from_json _) as [e'|] eqn:Hj; [|done]. cbn [result_map_err result_bind] in Hg.
  destruct (String.eqb_spec (name e') old) as [Hname|]; [|done]. cbn [negb] in Hg.
  destruct (SecretStore.read_index_raw _ _ _ _); [|done]. cbn [result_bind] in Hg.
  assert (e = e') as ->.
  { unfold check_row in Hg. destruct (find_row old _) as [r|]; [|congruence]. destruct (tombstone r); [done|].
    destruct (_ && _); [done|congruence]. }
  split_and!; try done. by apply entry_u64 in Hj as [].
Qed.

(** The index once [old] is [new]. *)
Definition rows_moved (io : SecretIo) (old new : string) (oe ne : SecretEntry) (rows : list SecretIndexEntry)
  : list SecretIndexEntry :=
  without new (without old rows ++ [tombstone_row io old (item_type oe) (Z.max (floor_of old rows) (generation oe))])
    ++ [to_index_entry ne].

Lemma rename_steps (io : SecretIo) old new identity recipients d rows : indexed d rows -> ranged rows ->
  steps (E := Error) (reaches rows)
    (fun _ d' => old = new /\ d' = d \/
       old <> new /\ exists oe ne, moved_entry (io_error := io_error) root io old new identity recipients d = Ok (oe, ne) /\
         indexed d' (rows_moved io old new oe ne rows))
    d (rename no_parent root io old new identity recipients d).
Proof.
  intros Hi Hr. assert (Hd : reaches rows d) by by exists rows. unfold rename.
  pure_step. pure_step. destruct (String.eqb_spec old new) as [|Hne]; [apply on_result_steps; [done|by left]|].
  pure_step. pure_step.
  eapply (in_turn_steps _ (fun p d' => d' = d /\ moved_entry root io old new identity recipients d = Ok p));
    [done|by apply on_disk_steps|].
  intros [oe ne] ? _ [-> Hm]. destruct (moved_entry_ok io old new identity recipients d rows oe ne Hi Hm) as (Hoe & Hon & Hnn & Hng).
  pure_step.
  eapply (in_turn_steps _ (fun _ d' => indexed d' rows)); [done|apply aside_steps; [done..|]|].
  { apply write_store_aside, entry_not_index. }
  intros _ d1 Hd1 Hi1. eapply (in_turn_steps _ (fun _ d' => indexed d' rows)); [done|by apply aside_steps; [..|apply write_wal_aside]|].
  intros _ d2 Hd2 Hi2. eapply (in_turn_steps _ (fun _ d' => indexed d' rows)); [done|by apply aside_steps; [..|apply remove_file_aside]|].
  intros _ d3 Hd3 Hi3.
  eapply (in_turn_steps _ (fun f d' => d' = d3 /\ f = floor_of old rows)); [done|apply on_disk_steps; [done|]|].
  { intros f Hf. split; [done|]. by eapply floor_ok. }
  intros f ? _ [-> ->]. set (g := Z.max _ _).
  assert (Hg : (floor_of old rows <= g <= u64_max)%Z) by (pose proof (floor_range old rows Hr); lia).
  set (t := tombstone_row io old (item_type oe) g). set (rows1 := without old rows ++ [t]).
  assert (Hs1 : rtc index_step rows rows1).
  { apply rtc_once. constructor. split; [done|]. split; [apply Hg|]. cbn. lia. }
  eapply (in_turn_steps _ (fun _ d' => indexed d' rows1)); [done|by apply tombstone_steps|].
  intros _ d4 Hd4 Hi4. set (rows2 := without new rows1 ++ [to_index_entry ne]).
  assert (Ha : advances new (to_index_entry ne) rows1).
  { split; [done|]. cbn. rewrite Hng. split; [apply next_of_range|]. f_equal. unfold floor_of, rows1.
    by rewrite (find_row_other old new rows t). }
  eapply (in_turn_steps _ (fun _ d' => indexed d' rows2)); [done| |].
  - eapply steps_weaken; [| |apply (upsert_steps io 4 (to_index_entry ne) d4 rows1 rows)]; cbn; rewrite ?Hnn; done.
  - intros _ d5 Hd5 Hi5. eapply steps_weaken; [| |apply (aside_steps (clear_wal root io) d5 rows rows2)]; [done| |..|done|apply clear_wal_aside].
    + intros x d6 H6. right. split; [done|]. by exists oe, ne.
    + eapply rtc_r; [exact Hs1|]. by constructor.
Qed.

(** ** Histories *)

(** Operations one after another, each stopped anywhere by a failing call or a crash. *)
Inductive served (d : FS) : FS -> Prop :=
| served_none : served d d
| served_put io entry d1 d2 :
    served d d1 -> d2 ∈ (put no_parent root io entry d1 : result Error unit * list FS).2 -> served d d2
| served_delete io name d1 d2 :
    served d d1 -> d2 ∈ (delete_secret no_parent root io name d1 : result Error unit * list FS).2 -> served d d2
| served_rename io old new identity recipients d1 d2 :
    served d d1 -> d2 ∈ (rename no_parent root io old new identity recipients d1 : result Error unit * list FS).2 ->
    served d d2.

Lemma served_reaches d d' rows : indexed d rows -> ranged rows -> served d d' -> reaches rows d'.
Proof.
  intros Hi Hr. assert (Hnext : forall d1 d2 (o : result Error unit * list FS), reaches rows d1 ->
    (forall rows1, indexed d1 rows1 -> ranged rows1 -> Forall (reaches rows1) o.2) -> d2 ∈ o.2 -> reaches rows d2).
  { intros d1 d2 o (rows1 & Hs1 & Hi1) Ho Hd2. specialize (Ho rows1 Hi1 (step_ranged _ _ Hs1 Hr)).
    rewrite Forall_forall in Ho. destruct (Ho d2 Hd2) as (rows2 & Hs2 & Hi2). exists rows2. split; [by etrans|done]. }
  induction 1 as [|io e d1 d2 _ IH Hd2|io name d1 d2 _ IH Hd2|io old new i r d1 d2 _ IH Hd2]; [by exists rows|..];
    (eapply (Hnext d1 d2); [done| |exact Hd2]); intros rows1 Hi1 Hr1.
  - by apply put_steps.
  - by apply delete_steps.
  - by apply rename_steps.
Qed.

Lemma step_floor rows rows' name : rtc index_step rows rows' -> ranged rows ->
  (floor_of name rows <= floor_of name rows')%Z.
Proof.
  induction 1 as [|rows rows1 rows2 H1 H2 IH]; intros Hr; [lia|].
  assert (Hr1 : ranged rows1) by (apply (step_ranged rows); [by apply rtc_once|done]).
  specialize (IH Hr1). pose proof (floor_range name rows Hr) as Hf. etrans; [|exact IH]. clear IH H2 rows2 Hr1.
  destruct H1 as [n row rows (Hn & Hg & Ht)]. unfold floor_of in *. destruct (String.eqb_spec n name) as [->|Hne].
  - rewrite find_row_app, Hn, String.eqb_refl. destruct (tombstone row); [lia|].
    rewrite Ht. unfold next_of, saturating_add64. lia.
  - by rewrite (find_row_other n name rows row).
Qed.

(** The generation of a name never falls, through puts, deletions and renames in any
    order, whatever calls fail and wherever the process stops. *)
Theorem floors_never_fall d d' rows name :
  indexed d rows -> ranged rows -> served d d' ->
  exists rows', indexed d' rows' /\ (floor_of name rows <= floor_of name rows')%Z.
Proof.
  intros Hi Hr Hs. destruct (served_reaches d d' rows Hi Hr Hs) as (rows' & Hst & Hi'). exists rows'.
  split; [done|]. by apply step_floor.
Qed.

(** ** Replay *)

(** The index has gone past generation [g] of a name. *)
Definition past (name : string) (g : Z) (rows : list SecretIndexEntry) : Prop :=
  exists row, find_row name rows = Some row /\
    ((g < row_generation row)%Z \/ tombstone row = true /\ (g <= row_generation row)%Z).

Lemma past_step name g rows rows' : (g < u64_max)%Z -> rtc index_step rows rows' -> past name g rows -> past name g rows'.
Proof.
  intros Hg. induction 1 as [|rows rows1 rows2 H1 _ IH]; [done|]. intros (row0 & Hf & Hp). apply IH.
  destruct H1 as [n row rows (Hn & Hr & Ht)]. destruct (String.eqb_spec n name) as [->|Hne].
  - exists row. rewrite find_row_app, Hn, String.eqb_refl. split; [done|]. unfold floor_of in Ht. rewrite Hf in Ht.
    destruct (tombstone row); [right; split; [done|lia]|left]. rewrite Ht. unfold next_of, saturating_add64. lia.
  - exists row0. by rewrite (find_row_other n name rows row).
Qed.

(** A file whose header names a generation the index has gone past is refused. *)
Lemma past_refused (io : SecretIo) n name g rows d f e :
  indexed d rows -> past name g rows ->
  entry_from_json (file_content f) = Ok e -> (1 <= generation e <= g)%Z ->
  is_ok (get (json_error := json_error) root io n name (<[entry_path root name := f]> d)) = false.
Proof.
  intros Hi (row & Hrow & Hp) Hj Hg. unfold get. destruct (validate_name name); [|done]. cbn [result_bind].
  destruct (refuse_link _ _ _); [|done]. cbn [result_bind]. rewrite lookup_insert_eq. destruct (read_entry_err io); [done|].
  rewrite Hj. cbn [result_map_err result_bind]. destruct (String.eqb _ _); [|done]. cbn [negb].
  assert (Hi' : indexed (<[entry_path root name := f]> d) rows).
  { apply (indexed_same d); [|done]. apply lookup_insert_ne, entry_not_index. }
  destruct (SecretStore.read_index_raw root io n _) as [rows'|] eqn:E; [|done]. cbn [result_bind].
  rewrite (read_indexed io n _ rows rows' Hi' E). unfold check_row. rewrite Hrow.
  destruct (tombstone row) eqn:Ht; [done|]. destruct Hp as [Hp|[? _]]; [|done].
  destruct (Z.eqb_spec (row_generation row) 0), (Z.eqb_spec (generation e) 0), (Z.eqb_spec (row_generation row) (generation e));
    cbn; done || lia.
Qed.

(** An operation that ends the life of a stored entry: another put under its name, or
    its deletion. *)
Inductive supersedes (name : string) (d d' : FS) : Prop :=
| superseded_put io entry :
    SecretEntry.name entry = name -> (put no_parent root io entry d : result Error unit * list FS).1 = Ok tt ->
    d' = final d (put no_parent root io entry d) -> supersedes name d d'
| superseded_delete io :
    (delete_secret no_parent root io name d : result Error unit * list FS).1 = Ok tt ->
    d' = final d (delete_secret no_parent root io name d) -> supersedes name d d'.

(** C11 A replayed entry is refused: once an entry has been replaced or deleted, a file
    that carries its generation or an older one does not come back, whatever operations,
    failures and crashes were in between and since. *)
Theorem replay_refused d rows io entry d1 d2 d3 d4 (io' : SecretIo) n f e :
  indexed d rows -> ranged rows ->
  (put no_parent root io entry d : result Error unit * list FS).1 = Ok tt ->
  d1 = final d (put no_parent root io entry d) ->
  served d1 d2 -> supersedes (name entry) d2 d3 -> served d3 d4 ->
  (generation entry < u64_max)%Z ->
  entry_from_json (file_content f) = Ok e -> (1 <= generation e <= generation entry)%Z ->
  is_ok (get (json_error := json_error) root io' n (name entry) (<[entry_path root (name entry) := f]> d4)) = false.
Proof.
  intros Hi Hr Hput -> H12 H23 H34 Hmax Hj Hg. set (o := put no_parent root io entry d) in *.
  destruct (put_steps io entry d rows Hi) as [_ Hp]. destruct (Hp tt Hput) as [Hgen Hi1]. fold o in Hi1.
  set (rows1 := without (name entry) rows ++ [to_index_entry entry]) in *.
  assert (Hr1 : ranged rows1).
  { apply (step_ranged rows); [|done]. apply rtc_once. constructor. split; [done|]. cbn. rewrite Hgen. split; [apply next_of_range|done]. }
  destruct (served_reaches _ d2 rows1 Hi1 Hr1 H12) as (rows2 & Hs2 & Hi2). pose proof (step_ranged _ _ Hs2 Hr1) as Hr2.
  assert (Hf2 : (generation entry <= floor_of (name entry) rows2)%Z).
  { etrans; [|by apply (step_floor rows1)]. unfold floor_of, rows1. by rewrite find_row_app, String.eqb_refl. }
  assert (H3 : exists rows3, indexed d3 rows3 /\ ranged rows3 /\ past (name entry) (generation entry) rows3).
  { destruct H23 as [io2 e2 Hname Hok ->|io2 Hok ->].
    - destruct (put_steps io2 e2 d2 rows2 Hi2) as [_ Hp2]. destruct (Hp2 tt Hok) as [Hgen2 Hi3]. rewrite Hname in *.
      eexists. split; [exact Hi3|]. split.
      + apply Forall_app. split; [by apply without_ranged|]. apply Forall_singleton. cbn. rewrite Hgen2. apply next_of_range.
      + exists (to_index_entry e2). rewrite find_row_app. cbn. rewrite Hname, String.eqb_refl. split; [done|]. left.
        rewrite Hgen2. unfold next_of, saturating_add64. lia.
    - destruct (delete_steps io2 (name entry) d2 rows2 Hi2 Hr2) as [_ Hp2]. destruct (Hp2 tt Hok) as [kind Hi3].
      eexists. split; [exact Hi3|]. split.
      + apply Forall_app. split; [by apply without_ranged|]. apply Forall_singleton. by apply floor_range.
      + eexists. rewrite find_row_app. cbn. rewrite String.eqb_refl. split; [done|]. by right. }
  destruct H3 as (rows3 & Hi3 & Hr3 & Hp3). destruct (served_reaches d3 d4 rows3 Hi3 Hr3 H34) as (rows4 & Hs4 & Hi4).
  apply (past_refused io' n (name entry) (generation entry) rows4 d4 f e); try done. by apply (past_step _ _ rows3).
Qed.

(** ** Two limits of the checks *)

(** A header that names no generation is not compared with the index: [put] never writes
    one, but the header is plain text. *)
Lemma unnumbered_header_served (io : SecretIo) n name rows row d f e :
  indexed d rows -> find_row name rows = Some row -> tombstone row = false ->
  validate_path name = Ok tt -> is_link io (entry_path root name) = false -> read_entry_err io = None ->
  is_ok (read_index_raw io n (<[entry_path root name := f]> d)) = true ->
  entry_from_json (file_content f) = Ok e -> SecretEntry.name e = name -> generation e = 0%Z ->
  get (json_error := json_error) root io n name (<[entry_path root name := f]> d) = Ok e.
Proof.
  intros Hi Hrow Ht Hv Hl Hre Hix Hj Hn Hg. unfold get, validate_name, refuse_link. rewrite Hv, Hl.
  cbn [result_map_err result_bind]. rewrite lookup_insert_eq, Hre, Hj. cbn [result_map_err result_bind].
  rewrite Hn, String.eqb_refl. cbn [negb].
  destruct (SecretStore.read_index_raw root io n _) as [rows'|] eqn:E; [|done]. cbn [result_bind].
  assert (Hi' : indexed (<[entry_path root name := f]> d) rows).
  { apply (indexed_same d); [|done]. apply lookup_insert_ne, entry_not_index. }
  rewrite (read_indexed io n _ rows rows' Hi' E). unfold check_row. rewrite Hrow, Ht, Hg. by rewrite andb_false_r.
Qed.

Definition overlong (row : SecretIndexEntry) : Prop :=
  forall line, index_to_json row = Ok line -> (1024 < str_len line)%Z.

Lemma overlong_rows rows row text : row ∈ rows -> overlong row -> render rows = Ok text ->
  is_ok (read_rows (io_error := io_error) (buf_lines text)) = false.
Proof.
  intros Hin Ho. revert text. induction Hin as [row rows|row x rows Hin IH]; intros text; cbn [render_rows].
  - destruct (index_to_json row) as [line|] eqn:Hl; [|done]. cbn [result_map_err result_bind].
    destruct (render_rows rows) as [rest|]; [|done]. cbn [result_bind]. intros [= <-].
    destruct (index_one_line row line Hl) as (Hne & Ht & Hlf & Hcr & _). rewrite buf_lines_row by done. cbn [read_rows].
    rewrite Ht. apply is_empty_false in Hne as ->. by rewrite (proj2 (Z.ltb_lt _ _) (Ho line Hl)).
  - destruct (index_to_json x) as [line|] eqn:Hl; [|done]. cbn [result_map_err result_bind].
    destruct (render_rows rows) as [rest|]; [|done]. cbn [result_bind]. intros [= <-].
    destruct (index_one_line x line Hl) as (Hne & Ht & Hlf & Hcr & _). rewrite buf_lines_row by done. cbn [read_rows].
    rewrite Ht. apply is_empty_false in Hne as ->. destruct (_ <? _)%Z; [done|].
    destruct (index_from_json line); [|done]. cbn [result_map_err result_bind]. specialize (IH Ho rest eq_refl).
    by destruct (read_rows (buf_lines rest)).
Qed.

(** A put whose row is longer than a line may be succeeds, and nothing can read the index
    after it: the length is checked when a line is read, not when it is written. *)
Lemma overlong_row_locks_store (io io' : SecretIo) n entry d rows : indexed d rows ->
  (put no_parent root io entry d : result Error unit * list FS).1 = Ok tt -> overlong (to_index_entry entry) ->
  is_ok (read_index_raw io' n (final d (put no_parent root io entry d : result Error unit * list FS))) = false.
Proof.
  intros Hi Hok Ho. destruct (put_steps io entry d rows Hi) as [_ H]. destruct (H tt Hok) as [_ (f & Hf & Hr)].
  unfold SecretStore.read_index_raw. rewrite Hf. destruct (read_err _); [done|]. destruct (_ <? _)%Z; [done|].
  destruct (negb _); [done|]. apply (overlong_rows (without (name entry) rows ++ [to_index_entry entry]) (to_index_entry entry)); [|done..].
  apply elem_of_app. right. by apply list_elem_of_singleton.
Qed.
End Safety.
