(* ===== verification/SecretRefine.v ===== *)
(** * The secret store as a map

    The specification of [SecretStore]: a map from names to entries, with the last
    generation of the deleted ones.  Each operation that succeeds does to the disk what
    the specification does to the map, and what can be read is in the map. *)

From Stdlib Require Import ZArith Lia Ascii String Bool.
From stdpp Require Import base list strings gmap relations.
From S2P Require Import Prelude Str Decimal Names Files Trace MapStore Json Envelope Journal SecretTypes SecretEntry SecretStore SecretSafety.

Local Open Scope oc_scope.

Section Refine.
Context {S : SerdeNumber} {G : Age} {io_error json_error : Type} {J : SecretJson json_error} {JL : SecretJsonLaws J}.
Context (no_parent : Path -> io_error) (root : string).

Abbreviation SecretIo := (@SecretIo io_error).
Abbreviation Error := (SecretStoreError (io_error := io_error) (json_error := json_error)).
Abbreviation index_path := (index_path root).
Abbreviation entry_path := (entry_path root).
Abbreviation indexed := (indexed (io_error := io_error) (json_error := json_error) root).

(** ** The specification *)

Inductive Slot := Live (e : SecretEntry) | Dead (generation : Z).

Abbreviation Secrets := (gmap string Slot).

Definition last_generation (m : Secrets) (name : string) : Z :=
  match m !! name with Some (Live e) => generation e | Some (Dead g) => g | None => 0 end.

Inductive Op :=
| Put (e : SecretEntry)
| Delete (name : string)
| Rename (old new : string) (identity : Identity) (recipients : list string).

(** Renaming seals the same payload again under the other name. *)
Inductive moves (w : EntryWorld) (identity : Identity) (recipients : list string) (e : SecretEntry) (new_name : string)
    (g : Z) : SecretEntry -> Prop :=
| moved_to payload sealed :
    decrypt w e identity = Ok payload ->
    SecretEntry.new (json_error := json_error) w new_name (item_type e) payload (metadata e) recipients g = Ok sealed ->
    moves w identity recipients e new_name g (renamed sealed e).

Inductive spec (w : EntryWorld) (m : Secrets) : Op -> Secrets -> Prop :=
| spec_put e : generation e = next_of (last_generation m (name e)) -> spec w m (Put e) (<[name e := Live e]> m)
| spec_delete name e : m !! name = Some (Live e) -> spec w m (Delete name) (<[name := Dead (generation e)]> m)
| spec_rename_same name identity recipients : spec w m (Rename name name identity recipients) m
| spec_rename old new identity recipients e e' :
    old <> new -> m !! old = Some (Live e) -> (forall x, m !! new <> Some (Live x)) ->
    moves w identity recipients e new (next_of (last_generation m new)) e' ->
    spec w m (Rename old new identity recipients) (<[new := Live e']> (<[old := Dead (generation e)]> m)).

(** ** The disk represents a map *)

Definition row_of (slot : option Slot) (row : option SecretIndexEntry) : Prop :=
  match slot with
  | Some (Live e) => row = Some (to_index_entry e)
  | Some (Dead g) => exists r, row = Some r /\ tombstone r = true /\ row_generation r = g
  | None => row = None
  end.

Definition file_of (name : string) (slot : option Slot) (file : option Files.File) : Prop :=
  match slot with
  | Some (Live e) => SecretEntry.name e = name /\ exists f, file = Some f /\ entry_to_json e = Ok (file_content f)
  | _ => file = None
  end.

Definition shows (m : Secrets) (d : FS) (rows : list SecretIndexEntry) : Prop :=
  forall name, row_of (m !! name) (find_row name rows) /\ file_of name (m !! name) (d !! entry_path name).

Definition represents (m : Secrets) (d : FS) : Prop :=
  exists rows, indexed d rows /\ ranged rows /\ shows m d rows.

Definition run (io : SecretIo) (op : Op) : Disk Error unit :=
  match op with
  | Put e => put no_parent root io e
  | Delete name => delete_secret no_parent root io name
  | Rename old new identity recipients => rename no_parent root io old new identity recipients
  end.

(** ** The files of the entries *)

Definition same_entries (d d' : FS) : Prop := forall n, d' !! entry_path n = d !! entry_path n.

(** One entry has changed at most. *)
Definition others_same (name : string) (d d' : FS) : Prop := forall n, n <> name -> d' !! entry_path n = d !! entry_path n.

Lemma entry_path_inj a b : entry_path a = entry_path b -> a = b.
Proof. rewrite !entry_path_file. apply entry_file_inj. Qed.

Lemma entry_path_durable n : durable (entry_path n).
Proof. rewrite entry_path_file. apply entry_file_durable. Qed.

Lemma steps_and {E A : Type} (P P' : FS -> Prop) (Q Q' : A -> FS -> Prop) (d : FS) (o : result E A * list FS) :
  steps P Q d o -> steps P' Q' d o -> steps (fun _ => True) (fun a d' => Q a d' /\ Q' a d') d o.
Proof. intros [_ H1] [_ H2]. split; [by apply Forall_true|]. auto. Qed.

Abbreviation anywhere := (fun _ : FS => True).

Lemma write_index_entries (io : SecretIo) n rows d :
  steps (E := Error) anywhere (fun _ d' => same_entries d d') d (write_index no_parent root io n rows d).
Proof.
  unfold write_index. eapply (in_turn_steps _ (fun _ d' => d' = d)); [done|by apply on_result_steps|].
  intros content ? _ ->. eapply steps_weaken; [| |apply write_store_steps]; [done|].
  intros _ d' [_ H] m. apply H; [apply entry_not_index|apply entry_path_durable].
Qed.

Lemma upsert_entries (io : SecretIo) n entry d :
  steps (E := Error) anywhere (fun _ d' => same_entries d d') d (upsert_index no_parent root io n entry d).
Proof.
  unfold upsert_index. eapply (in_turn_steps _ (fun _ d' => d' = d)); [done|by apply on_disk_steps|].
  intros es ? _ ->. apply write_index_entries.
Qed.

Lemma tombstone_entries (io : SecretIo) n name kind g d :
  steps (E := Error) anywhere (fun _ d' => same_entries d d') d (write_tombstone no_parent root io n name kind g d).
Proof.
  unfold write_tombstone. eapply (in_turn_steps _ (fun _ d' => d' = d)); [done|by apply on_disk_steps|].
  intros es ? _ ->. apply write_index_entries.
Qed.

(** A new file under a name. *)
Definition written (name json : string) (d d' : FS) : Prop :=
  others_same name d d' /\ exists f, d' !! entry_path name = Some f /\ file_content f = json.

Definition erased (name : string) (d d' : FS) : Prop := others_same name d d' /\ d' !! entry_path name = None.

Lemma write_entry (w : StoreIo io_error) name json d :
  steps (E := Error) anywhere (fun _ d' => written name json d d') d (write_store no_parent w (entry_path name) json d).
Proof.
  eapply steps_weaken; [| |apply write_store_steps]; [done|]. intros _ d' [H1 H2]. split; [|by eexists].
  intros n Hn. apply H2; [by intros H%entry_path_inj|apply entry_path_durable].
Qed.

Lemma remove_entry (io : SecretIo) name d :
  steps (E := Error) anywhere (fun _ d' => erased name d d') d (remove_file io (entry_path name) d).
Proof.
  unfold remove_file. destruct (unlink_err io); [by apply steps_stop|]. split; [by apply Forall_true|]. intros [] _. cbn.
  split; [|apply lookup_delete_eq]. intros n Hn. apply lookup_delete_ne. by intros H%entry_path_inj.
Qed.

Lemma written_same name json d d1 d2 : written name json d d1 -> same_entries d1 d2 -> written name json d d2.
Proof.
  intros [H1 H2] Hs. split; [|by rewrite Hs]. intros n Hn. rewrite Hs. by apply H1.
Qed.

Lemma erased_same name d d1 d2 : erased name d d1 -> same_entries d1 d2 -> erased name d d2.
Proof. intros [H1 H2] Hs. split; [|by rewrite Hs]. intros n Hn. rewrite Hs. by apply H1. Qed.

(** A step that only reads. *)
Ltac reading :=
  match goal with |- steps _ _ ?d _ =>
    eapply (in_turn_steps _ (fun _ d' => d' = d)); [done|first [by apply on_result_steps|by apply on_disk_steps]|intros ? ? _ ->]
  end.

Lemma put_entries (io : SecretIo) entry d :
  steps (E := Error) anywhere
    (fun _ d' => exists json, entry_to_json (json_error := json_error) entry = Ok json /\ written (name entry) json d d')
    d (put no_parent root io entry d).
Proof.
  unfold put. reading. reading. destruct (negb _); [by apply on_result_steps|].
  eapply (in_turn_steps _ (fun json d' => d' = d /\ entry_to_json entry = Ok json)); [done|apply on_result_steps; [done|]|].
  { intros json. by destruct (entry_to_json entry) as [j|]; [intros [= ->]|]. }
  intros json ? _ [-> Hj]. eapply in_turn_steps; [done|apply write_entry|]. intros ? d1 _ H1.
  eapply steps_weaken; [| |apply upsert_entries]; [done|]. intros ? d2 H2. exists json. split; [done|].
  by apply (written_same _ _ _ d1).
Qed.

Lemma delete_entries (io : SecretIo) name d :
  steps (E := Error) anywhere (fun _ d' => is_Some (d !! entry_path name) /\ erased name d d')
    d (delete_secret no_parent root io name d).
Proof.
  unfold delete_secret. reading. reading.
  eapply (in_turn_steps _ (fun _ d' => d' = d /\ is_Some (d !! entry_path name))); [done|apply on_disk_steps; [done|]|].
  { intros []. unfold present, exists_file. by destruct (d !! entry_path name). }
  intros _ ? _ [-> Hp]. reading. reading. eapply in_turn_steps; [done|apply remove_entry|]. intros ? d1 _ H1.
  eapply steps_weaken; [| |apply tombstone_entries]; [done|]. intros ? d2 H2. split; [done|]. by apply (erased_same _ _ d1).
Qed.

Lemma entry_not_wal n : entry_path n <> wal_path root.
Proof.
  rewrite entry_path_file. unfold entry_file, wal_path. intros [= _ H].
  apply (f_equal last_byte) in H. by rewrite last_byte_app in H by done.
Qed.

Lemma write_wal_entries (io : SecretIo) old new d :
  steps (E := Error) anywhere (fun _ d' => same_entries d d') d (write_wal root io old new d).
Proof.
  unfold write_wal, plain_write. split; [by apply Forall_true|].
  destruct (plain_open_err _); [done|]. destruct (plain_write_err _) as [[partial e]|]; [done|].
  intros a _ n. apply lookup_insert_ne. intros H. by apply (entry_not_wal n).
Qed.

Lemma clear_wal_entries (io : SecretIo) d :
  steps (E := Error) anywhere (fun _ d' => same_entries d d') d (clear_wal root io d).
Proof.
  split; [by apply Forall_true|]. intros a _ n. unfold final. cbn. destruct (wal_remove_fails io); [done|].
  apply lookup_delete_ne. intros H. by apply (entry_not_wal n).
Qed.

(** What [rename] does to the files. *)
Definition file_moved (io : SecretIo) old new identity recipients d d' : Prop :=
  exists oe ne json d1,
    moved_entry (io_error := io_error) root io old new identity recipients d = Ok (oe, ne) /\
    entry_to_json (json_error := json_error) ne = Ok json /\ d !! entry_path new = None /\
    written new json d d1 /\ erased old d1 d'.

Lemma rename_entries (io : SecretIo) old new identity recipients d :
  steps (E := Error) anywhere (fun _ d' => old = new \/ file_moved io old new identity recipients d d')
    d (rename no_parent root io old new identity recipients d).
Proof.
  unfold rename. reading. reading. destruct (String.eqb_spec old new) as [|Hne]; [by apply on_result_steps; [|left]|].
  reading.
  eapply (in_turn_steps _ (fun _ d' => d' = d /\ d !! entry_path new = None)); [done|apply on_disk_steps; [done|]|].
  { intros []. unfold exists_file. by destruct (d !! entry_path new). }
  intros _ ? _ [-> Hnew].
  eapply (in_turn_steps _ (fun p d' => d' = d /\ moved_entry root io old new identity recipients d = Ok p)); [done|by apply on_disk_steps|].
  intros [oe ne] ? _ [-> Hm].
  eapply (in_turn_steps _ (fun json d' => d' = d /\ entry_to_json ne = Ok json)); [done|apply on_result_steps; [done|]|].
  { intros json. by destruct (entry_to_json ne) as [j|]; [intros [= ->]|]. }
  intros json ? _ [-> Hj].
  eapply in_turn_steps; [done|apply write_entry|]. intros ? d1 _ H1.
  eapply in_turn_steps; [done|apply write_wal_entries|]. intros ? d2 _ H2.
  eapply in_turn_steps; [done|apply remove_entry|]. intros ? d3 _ H3. reading.
  eapply in_turn_steps; [done|apply tombstone_entries|]. intros ? d4 _ H4.
  eapply in_turn_steps; [done|apply upsert_entries|]. intros ? d5 _ H5.
  eapply steps_weaken; [| |apply clear_wal_entries]; [done|]. intros ? d6 H6. right. exists oe, ne, json, d2.
  split_and!; [done..|by apply (written_same _ _ _ d1)|]. eapply erased_same; [exact H3|].
  intros n. by rewrite (H6 n), (H5 n), (H4 n).
Qed.

(** ** The refinement *)

Lemma shows_floor m d rows name : shows m d rows -> floor_of name rows = last_generation m name.
Proof.
  intros H. destruct (H name) as [Hr _]. unfold floor_of, last_generation. destruct (m !! name) as [[e|g]|]; cbn in Hr.
  - by rewrite Hr.
  - by destruct Hr as (r & -> & _ & Hg).
  - by rewrite Hr.
Qed.

(** One name gets another slot. *)
Lemma shows_insert m d d' rows name slot row : shows m d rows -> row_name row = name ->
  row_of (Some slot) (Some row) -> file_of name (Some slot) (d' !! entry_path name) -> others_same name d d' ->
  shows (<[name := slot]> m) d' (without name rows ++ [row]).
Proof.
  intros H Hn Hr Hf Ho n. destruct (String.eqb_spec name n) as [<-|Hne].
  - rewrite lookup_insert_eq, find_row_app, Hn, String.eqb_refl. by split.
  - rewrite lookup_insert_ne, (find_row_other name n rows row), Ho by done. apply H.
Qed.

Lemma shows_get (io : SecretIo) k name m d rows e : shows m d rows -> indexed d rows ->
  get (json_error := json_error) root io k name d = Ok e -> m !! name = Some (Live e).
Proof.
  intros H Hi. destruct (H name) as [_ Hf]. unfold get.
  destruct (validate_name name); [|done]. cbn [result_bind]. destruct (refuse_link _ _ _); [|done]. cbn [result_bind].
  destruct (m !! name) as [[e0|g]|]; cbn in Hf; [|by rewrite Hf..]. destruct Hf as [Hn (f & -> & Hj)].
  destruct (read_entry_err io); [done|]. rewrite (entry_roundtrip e0 _ Hj). cbn [result_map_err result_bind].
  destruct (negb _); [done|]. destruct (SecretStore.read_index_raw _ _ _ _); [|done]. cbn [result_bind].
  unfold check_row. destruct (find_row name _) as [r|]; [|congruence]. destruct (tombstone r); [done|].
  destruct (_ && _); [done|congruence].
Qed.

(** Nothing in the way of a read. *)
Definition readable (io : SecretIo) (k : nat) (name : string) (d : FS) : Prop :=
  is_ok (validate_path name) = true /\ is_link io (entry_path name) = false /\ read_entry_err io = None /\
  is_ok (SecretStore.read_index_raw (io_error := io_error) (json_error := json_error) root io k d) = true.

Lemma live_get (io : SecretIo) k name m d rows e : shows m d rows -> indexed d rows -> readable io k name d ->
  m !! name = Some (Live e) -> get (json_error := json_error) root io k name d = Ok e.
Proof.
  intros H Hi (Hv & Hl & Hre & Hix) Hm. destruct (H name) as [Hrow Hf]. rewrite Hm in Hrow, Hf. cbn in Hrow, Hf.
  destruct Hf as [Hn (f & Hfile & Hj)]. unfold get, validate_name, refuse_link. destruct (validate_path name); [|done].
  cbn [result_map_err result_bind]. rewrite Hl. cbn [result_bind]. rewrite Hfile, Hre, (entry_roundtrip e _ Hj).
  cbn [result_map_err result_bind]. rewrite Hn, String.eqb_refl. cbn [negb].
  destruct (SecretStore.read_index_raw root io k d) as [rows'|] eqn:E; [|done]. cbn [result_bind].
  rewrite (read_indexed root io k d rows rows' Hi E). unfold check_row. rewrite Hrow. cbn.
  by rewrite Z.eqb_refl, andb_false_r.
Qed.

Lemma moved_entry_moves (io : SecretIo) old new identity recipients m d rows oe ne : shows m d rows -> indexed d rows ->
  moved_entry (io_error := io_error) root io old new identity recipients d = Ok (oe, ne) ->
  m !! old = Some (Live oe) /\ moves (entry_world io) identity recipients oe new (next_of (last_generation m new)) ne.
Proof.
  intros H Hi. unfold moved_entry. destruct (get root io 0 old d) as [e|] eqn:Hg; [|done]. cbn [result_bind].
  destruct (decrypt _ _ _) as [payload|] eqn:Hd; [|done]. cbn [result_map_err result_bind].
  destruct (next_generation root io 1 new d) as [g|] eqn:Hn; [|done]. cbn [result_bind].
  destruct (SecretEntry.new _ _ _ _ _ _ _) as [sealed|] eqn:He; [|done]. cbn. intros [= <- <-].
  split; [by eapply shows_get|]. apply (next_generation_ok root io 1 new d g rows Hi) in Hn as ->.
  rewrite (shows_floor m d rows) in He by done. by econstructor.
Qed.

Lemma ranged_snoc name row rows : ranged rows -> (row_generation row <= u64_max)%Z -> ranged (without name rows ++ [row]).
Proof. intros H Hr. apply Forall_app. split; [by apply without_ranged|by apply Forall_singleton]. Qed.

Lemma put_refines io e m d : represents m d -> (put no_parent root io e d : result Error unit * _).1 = Ok tt ->
  represents (<[name e := Live e]> m) (final d (put no_parent root io e d : result Error unit * _)) /\
  generation e = next_of (last_generation m (name e)).
Proof.
  intros (rows & Hi & Hr & Hs) Hok. destruct (steps_and _ _ _ _ _ _ (put_steps no_parent root io e d rows Hi) (put_entries io e d)) as [_ H].
  destruct (H tt Hok) as ([Hg Hi'] & json & Hj & Ho & f & Hf & Hc). rewrite (shows_floor m d rows _ Hs) in Hg.
  split; [|done]. eexists. split; [exact Hi'|]. split; [apply ranged_snoc; [done|]; cbn; rewrite Hg; apply next_of_range|].
  apply (shows_insert m d); try done. split; [done|]. exists f. by rewrite Hc.
Qed.

Lemma delete_refines io name m d : represents m d -> (delete_secret no_parent root io name d : result Error unit * _).1 = Ok tt ->
  exists e, m !! name = Some (Live e) /\
    represents (<[name := Dead (generation e)]> m) (final d (delete_secret no_parent root io name d : result Error unit * _)).
Proof.
  intros (rows & Hi & Hr & Hs) Hok.
  destruct (steps_and _ _ _ _ _ _ (delete_steps no_parent root io name d rows Hi Hr) (delete_entries io name d)) as [_ H].
  destruct (H tt Hok) as ([kind Hi'] & [f0 Hf0] & Ho & Hf). destruct (Hs name) as [_ Hfile]. rewrite Hf0 in Hfile.
  destruct (m !! name) as [[e|g]|] eqn:Hm; cbn in Hfile; try done. exists e. split; [done|].
  assert (Hfl : floor_of name rows = generation e) by (rewrite (shows_floor m d rows _ Hs); unfold last_generation; by rewrite Hm).
  eexists. split; [exact Hi'|]. split; [apply ranged_snoc; [done|by apply floor_range]|].
  apply (shows_insert m d); try done. eexists. split_and!; [done..|]. by rewrite <- Hfl.
Qed.

Lemma rename_refines io old new identity recipients m d : old <> new -> represents m d ->
  (rename no_parent root io old new identity recipients d : result Error unit * _).1 = Ok tt ->
  exists e e', m !! old = Some (Live e) /\ (forall x, m !! new <> Some (Live x)) /\
    moves (entry_world io) identity recipients e new (next_of (last_generation m new)) e' /\
    represents (<[new := Live e']> (<[old := Dead (generation e)]> m))
      (final d (rename no_parent root io old new identity recipients d : result Error unit * _)).
Proof.
  intros Hne (rows & Hi & Hr & Hs) Hok.
  destruct (steps_and _ _ _ _ _ _ (rename_steps no_parent root io old new identity recipients d rows Hi Hr)
              (rename_entries io old new identity recipients d)) as [_ H].
  destruct (H tt Hok) as ([[? _]|(_ & oe & ne & Hm & Hi')] & [?|(oe' & ne' & json & d1 & Hm' & Hj & Hnew & [Hw (f & Hf & Hc)] & [He Hgone])]); try done.
  rewrite Hm in Hm'. injection Hm' as <- <-.
  destruct (moved_entry_moves io old new identity recipients m d rows oe ne Hs Hi Hm) as [Hold Hmv].
  destruct (moved_entry_ok root io old new identity recipients d rows oe ne Hi Hm) as (Hog & Hon & Hnn & Hng).
  exists oe, ne. split_and!; [done| |done|].
  { intros x Hx. destruct (Hs new) as [_ Hfile]. rewrite Hx, Hnew in Hfile. by destruct Hfile as [_ (? & ? & _)]. }
  assert (Hfl : floor_of old rows = generation oe) by (rewrite (shows_floor m d rows _ Hs); unfold last_generation; by rewrite Hold).
  unfold rows_moved in Hi'. rewrite Hfl, Z.max_id in Hi'. set (t := tombstone_row io old (item_type oe) (generation oe)) in *.
  eexists. split; [exact Hi'|]. split; [apply ranged_snoc; [by apply ranged_snoc|]; cbn; rewrite Hng; apply next_of_range|].
  set (d' := final d _) in *. apply (shows_insert _ (delete (entry_path old) d) _ _ new (Live ne) (to_index_entry ne)); [|done..| |].
  - apply (shows_insert m d); try done; [by eexists|apply lookup_delete_eq|].
    intros n Hn. apply lookup_delete_ne. by intros Ha%entry_path_inj.
  - split; [done|]. exists f. rewrite Hc. split; [|done]. rewrite He by done. done.
  - intros n Hn. destruct (String.eqb_spec n old) as [->|]; [by rewrite Hgone, lookup_delete_eq|].
    rewrite He, Hw by done. symmetry. apply lookup_delete_ne. by intros Ha%entry_path_inj.
Qed.

(** Opening a store makes an empty one, or leaves the one that is there. *)
Lemma open_refines w m d : (d !! index_path = None -> m = ∅ /\ forall n, d !! entry_path n = None) ->
  (is_Some (d !! index_path) -> represents m d) ->
  steps (E := Error) anywhere (fun _ d' => represents m d') d (open_store no_parent root w d).
Proof.
  intros Hfresh Hold. unfold open_store. reading. reading. unfold exists_file. destruct (d !! index_path) as [f|] eqn:Hd.
  - destruct (Hold (mk_is_Some _ _ eq_refl)) as (rows & (f' & Hf' & Hr') & Hr & Hs). rewrite Hd in Hf'. injection Hf' as <-.
    unfold narrow_mode. rewrite Hd. split; [by apply Forall_true|]. intros [] _. unfold final. cbn.
    destruct (chmod_fails w).
    { exists rows. split; [by exists f|done]. }
    exists rows. split; [eexists; split; [apply lookup_insert_eq|exact Hr']|]. split; [done|].
    intros n. rewrite lookup_insert_ne; [apply Hs|]. intros H. by apply (entry_not_index root n).
  - destruct (Hfresh eq_refl) as [-> Hnone]. eapply steps_weaken; [| |apply write_store_steps]; [done|].
    intros _ d' [Hi Ho]. exists []. split; [by eexists|]. split; [constructor|]. intros n. rewrite lookup_empty.
    split; [done|]. cbn. rewrite Ho; [apply Hnone|apply entry_not_index|apply entry_path_durable].
Qed.

(** C7 The store refines a map from names to entries: an operation that succeeds does to
    the disk what its specification does to the map; an entry that is read is the one in
    the map, and the entry in the map is read when no call fails. *)
Theorem store_refines (io io' : SecretIo) op m d k name e : represents m d ->
  (run io op d).1 = Ok tt ->
  exists m', spec (entry_world io) m op m' /\ represents m' (final d (run io op d)) /\
    (get (json_error := json_error) root io' k name (final d (run io op d)) = Ok e -> m' !! name = Some (Live e)) /\
    (readable io' k name (final d (run io op d)) -> m' !! name = Some (Live e) ->
     get (json_error := json_error) root io' k name (final d (run io op d)) = Ok e).
Proof.
  intros Hm Hok. assert (H : exists m', spec (entry_world io) m op m' /\ represents m' (final d (run io op d))).
  { destruct op as [e0|n|old new identity recipients]; cbn [run] in *.
    - destruct (put_refines io e0 m d Hm Hok) as [Hr Hg]. eexists. split; [by constructor|done].
    - destruct (delete_refines io n m d Hm Hok) as (x & Hx & Hr). eexists. split; [by constructor|done].
    - destruct (String.eqb_spec old new) as [->|Hne].
      + exists m. split; [constructor|]. revert Hok. unfold rename, on_result, in_turn, then_on.
        destruct (validate_name new); [|done]. cbn. by rewrite String.eqb_refl.
      + destruct (rename_refines io old new identity recipients m d Hne Hm Hok) as (x & x' & H1 & H2 & H3 & H4).
        eexists. split; [by eapply spec_rename|done]. }
  destruct H as (m' & Hs & Hr). exists m'. split; [done|]. split; [done|]. destruct Hr as (rows & Hi & _ & Hsh).
  split; [by apply (shows_get io' k name m' _ rows)|intros Hrd Hm'; by apply (live_get io' k name m' _ rows)].
Qed.
End Refine.
