(* ===== verification/SecretCrud.v ===== *)
(** * Secrets of every kind: create, read, update, delete, copy

    crates/oc-secret/src/crud.rs over [SecretStore]: the operations the command line
    calls, with the generation allocated and the payload sealed inside, and the counts of
    live and deleted entries per kind.  Reading, deleting and renaming are [get],
    [delete_secret] and [rename] under other names. *)

From Stdlib Require Import ZArith Lia Ascii String Bool.
From stdpp Require Import base list strings gmap.
From S2P Require Import Prelude Str Decimal Names Files Trace MapStore Json Envelope Journal SecretTypes SecretEntry SecretStore SecretSafety SecretRefine.

Local Open Scope oc_scope.

Section Crud.
Context {S : SerdeNumber} {G : Age} {io_error json_error : Type} {J : SecretJson json_error}.
Context (no_parent : Path -> io_error) (root : string).
(** The parser of values and the message of its errors. *)
Context (parse_value : string -> option Value) (show_json : json_error -> string).

Abbreviation SecretIo := (@SecretIo io_error).
Abbreviation Error := (SecretStoreError (io_error := io_error) (json_error := json_error)).

Definition show_age_error (e : AgeError) : string :=
  match e with
  | Encryption m => "encryption failed: " +:+ m
  | Decryption m => "decryption failed: " +:+ m
  | InvalidRecipient m => "invalid recipient: " +:+ m
  end.

Definition show_entry_error (e : SecretEntryError json_error) : string :=
  match e with
  | EAge e => "age error: " +:+ show_age_error e
  | ESerde e => "serialization error: " +:+ show_json e
  | EInvalidName m => "invalid name: " +:+ m
  | ETampered path reason => "tampered envelope for '" +:+ path +:+ "': " +:+ reason
  | EMemGuard m => "memory hardening failed: " +:+ m
  end.

Definition no_recipients : Error := InvalidName "no recipients found — run `onecipher age init` first".

Definition secret_text (secret : string) : result Error string :=
  if utf8 secret then Ok secret else Err (InvalidName "secret material is not valid UTF-8").

Definition payload_from_hardened (secret : string) (notes : option string) (extra : option Value)
  : result Error SecretPayload :=
  let? text := secret_text secret in Ok {| secret := text; notes := notes; extra := extra |}.

Definition is_key_pair_json (secret : string) : bool :=
  let trimmed := trim_start_fuel (String.length secret) secret in
  starts_with "{" trimmed &&
  match parse_value trimmed with
  | Some v => bool_decide (is_Some (value_get "secp256k1" v ≫= as_str)) || bool_decide (is_Some (value_get "ed25519" v ≫= as_str))
  | None => false
  end.

Definition kind_to_item_type (kind : SecretKind) (payload : SecretPayload) : ItemType :=
  match kind with
  | WalletKey => if is_key_pair_json (secret payload) then PrivateKey else Mnemonic
  | KPassword => Password
  | TotpSeed => Totp
  | KNote => Note
  end.

(** The calls on the store are numbered. *)
Context (io : nat -> SecretIo).

Definition is_listed (name : string) (rows : list SecretIndexEntry) : bool :=
  existsb (fun e => String.eqb (row_name e) name) rows.

Definition free_name (name : string) (d : FS) : result Error unit :=
  let? rows := list_entries root (io 0) 0 d in
  if is_listed name rows then Err (AlreadyExists name) else Ok tt.

Definition stored (entry : SecretEntry) : Disk Error SecretEntry :=
  let> _ := put no_parent root (io 3) entry in on_result (Ok entry).

Definition create_entry_full (kind : SecretKind) (name secret : string) (notes : option string) (extra : option Value)
    (metadata : SecretMetadata) (recipients : list string) : Disk Error SecretEntry :=
  if is_nil recipients then on_result (Err no_recipients) else
  let> _ := on_disk_of (free_name name) in
  let> payload := on_result (payload_from_hardened secret notes extra) in
  let> generation := on_disk_of (next_generation root (io 2) 0 name) in
  let> entry := on_result (result_map_err of_entry_error
    (SecretEntry.new (entry_world (io 2)) name (kind_to_item_type kind payload) payload metadata recipients generation)) in
  stored entry.

Definition create_entry (kind : SecretKind) (name secret : string) (metadata : SecretMetadata) (recipients : list string)
  : Disk Error SecretEntry :=
  create_entry_full kind name secret None None metadata recipients.

Definition decrypt_failed (name : string) (e : SecretEntryError json_error) : Error :=
  InvalidName ("decryption failed for '" +:+ name +:+ "': " +:+ show_entry_error e).

(** An entry and its payload. *)
Definition opened (identity : Identity) (name : string) (d : FS) : result Error (SecretEntry * SecretPayload) :=
  let? entry := get root (io 1) 0 name d in
  let? payload := result_map_err (decrypt_failed name) (decrypt (entry_world (io 1)) entry identity) in
  Ok (entry, payload).

Definition update_secret (identity : Identity) (name secret : string) (recipients : list string) : Disk Error SecretEntry :=
  if is_nil recipients then on_result (Err no_recipients) else
  let> '(entry, payload) := on_disk_of (opened identity name) in
  let> text := on_result (secret_text secret) in
  let> next_gen := on_disk_of (next_generation root (io 2) 0 name) in
  let> entry := on_result (result_map_err of_entry_error
    (set_payload (entry_world (io 2)) entry {| SecretTypes.secret := text; notes := notes payload; extra := extra payload |}
       recipients next_gen)) in
  stored entry.

Definition copy_entry (identity : Identity) (src dst : string) (force : bool) (recipients : list string)
  : Disk Error SecretEntry :=
  if is_nil recipients then on_result (Err no_recipients) else
  let> _ := on_disk_of (fun d => if force then Ok tt else free_name dst d) in
  let> '(entry, payload) := on_disk_of (opened identity src) in
  let> dst_gen := on_disk_of (next_generation root (io 2) 0 dst) in
  let> entry := on_result (result_map_err of_entry_error
    (SecretEntry.new (entry_world (io 2)) dst (item_type entry) payload (metadata entry) recipients dst_gen)) in
  stored entry.

Definition disclose_envelope (entry : SecretEntry) (payload : SecretPayload) : SecretEnvelope :=
  with_payload (name entry) (id entry) (item_type entry) (metadata entry) (generation entry) payload.

(** ** Counts *)

Definition Census := list (SecretKind * (nat * nat)).

(** [get_mut] at the kind of the row. *)
Definition count_row (row : SecretIndexEntry) (out : Census) : Census :=
  map (fun '(kind, slot) =>
    (kind, if decide (from_item_type (row_item_type row) = kind)
           then if tombstone row then (slot.1, Datatypes.S slot.2) else (Datatypes.S slot.1, slot.2)
           else slot)) out.

Definition census_of (rows : list SecretIndexEntry) : Census :=
  fold_left (fun out row => count_row row out) rows (map (fun kind => (kind, (0, 0))) kinds).

Definition census_by_kind (d : FS) : result Error Census :=
  let? rows := list_all root (io 0) 0 d in Ok (census_of rows).

Definition list_by_kind (kind : SecretKind) (d : FS) : result Error (list SecretIndexEntry) :=
  let? rows := list_entries root (io 0) 0 d in
  Ok (List.filter (fun e => bool_decide (from_item_type (row_item_type e) = kind)) rows).

(** ** The counts agree with the lists *)

Definition of_kind (kind : SecretKind) (row : SecretIndexEntry) : bool :=
  bool_decide (from_item_type (row_item_type row) = kind).

Lemma count_row_kinds row out : map fst (count_row row out) = map fst out.
Proof. unfold count_row. rewrite map_map. apply map_ext. by intros [k s]. Qed.

Lemma census_kinds rows out : map fst (fold_left (fun out row => count_row row out) rows out) = map fst out.
Proof. revert out. induction rows as [|row rows IH]; intros out; [done|]. cbn. by rewrite IH, count_row_kinds. Qed.

Lemma census_slots rows out kind live dead : (kind, (live, dead)) ∈ fold_left (fun out row => count_row row out) rows out ->
  exists live0 dead0, (kind, (live0, dead0)) ∈ out /\
    live = live0 + length (List.filter (of_kind kind) (live_rows rows)) /\
    dead = dead0 + length (List.filter (fun r => of_kind kind r && tombstone r) rows).
Proof.
  revert out. induction rows as [|row rows IH]; intros out; cbn [fold_left]; [intros H; exists live, dead; cbn; auto with lia|].
  intros (l0 & d0 & Hin & -> & ->)%IH. unfold count_row in Hin.
  apply list_elem_of_In, in_map_iff in Hin as ([k [l d]] & [= <- Hs] & Hin). exists l, d. split; [by apply list_elem_of_In|].
  cbn [live_rows List.filter]. unfold of_kind in *. destruct (decide _) as [Hk|Hk]; destruct (tombstone row) eqn:Ht; cbn in *;
    injection Hs as <- <-; rewrite ?bool_decide_eq_true_2, ?bool_decide_eq_false_2 by done; cbn; unfold live_rows; lia.
Qed.

Lemma length_insert_row e l : length (insert_row e l) = Datatypes.S (length l).
Proof. induction l as [|x l IH]; [done|]. cbn. destruct (String.compare _ _); cbn; by rewrite ?IH. Qed.

Lemma insert_row_perm e l : insert_row e l ≡ₚ e :: l.
Proof.
  induction l as [|x l IH]; [done|]. cbn. destruct (String.compare _ _); [done| |done]. rewrite IH. constructor.
Qed.

Lemma sort_rows_perm l : sort_rows l ≡ₚ l.
Proof. induction l as [|e l IH]; [done|]. cbn. by rewrite insert_row_perm, IH. Qed.

#[local] Instance filter_perm (f : SecretIndexEntry -> bool) : Proper ((≡ₚ) ==> (≡ₚ)) (List.filter f).
Proof.
  induction 1 as [|x l l' _ IH|x y l|l1 l2 l3 _ IH1 _ IH2]; cbn; [done|by destruct (f x); rewrite IH| |by etrans].
  destruct (f x), (f y); [apply Permutation_swap|done..].
Qed.

#[local] Instance live_rows_perm : Proper ((≡ₚ) ==> (≡ₚ)) live_rows.
Proof. intros l l' H. unfold live_rows. by rewrite H. Qed.

(** The census of the index has one slot for each of the four kinds, and its counts of
    live entries are the lengths of the lists of entries of those kinds. *)
Theorem census_agrees d census : census_by_kind d = Ok census ->
  map fst census = kinds /\
  forall kind live dead, (kind, (live, dead)) ∈ census -> exists rows, list_by_kind kind d = Ok rows /\ length rows = live.
Proof.
  unfold census_by_kind, list_by_kind, list_all, list_entries.
  destruct (SecretStore.read_index_raw root (io 0) 0 d) as [rows|]; [|done]. cbn [result_bind]. intros [= <-].
  unfold census_of. rewrite census_kinds, map_map. split; [apply map_id|]. intros kind live dead H.
  apply census_slots in H as (l0 & d0 & Hin & -> & _). apply list_elem_of_In, in_map_iff in Hin as (k & [= _ <- _] & _).
  eexists. split; [reflexivity|]. cbn [Nat.add]. by rewrite !sort_rows_perm.
Qed.

(** ** What the operations do to the map *)

Context {GL : AgeLaws G} {JL : SecretJsonLaws J}.

Inductive CrudOp :=
| Create (kind : SecretKind) (name secret : string) (notes : option string) (extra : option Value) (metadata : SecretMetadata)
| Update (identity : Identity) (name secret : string)
| Copy (identity : Identity) (src dst : string) (force : bool).

Definition target (op : CrudOp) : string :=
  match op with Create _ name _ _ _ _ | Update _ name _ | Copy _ _ name _ => name end.

Definition run_crud (op : CrudOp) (recipients : list string) : Disk Error SecretEntry :=
  match op with
  | Create kind name secret notes extra metadata => create_entry_full kind name secret notes extra metadata recipients
  | Update identity name secret => update_secret identity name secret recipients
  | Copy identity src dst force => copy_entry identity src dst force recipients
  end.

Abbreviation Secrets := (gmap string Slot).

(** The entry an operation makes, and the payload in it. *)
Inductive makes (m : Secrets) : CrudOp -> SecretPayload -> SecretEntry -> Prop :=
| makes_created kind name secret notes extra metadata e :
    (forall x, m !! name <> Some (Live x)) -> SecretEntry.metadata e = metadata ->
    makes m (Create kind name secret notes extra metadata)
      {| SecretTypes.secret := secret; notes := notes; extra := extra |} e
| makes_updated identity name secret old payload e :
    m !! name = Some (Live old) -> decrypt (entry_world (io 1)) old identity = Ok payload ->
    id e = id old -> item_type e = item_type old -> metadata e = metadata old -> created_at e = created_at old ->
    makes m (Update identity name secret)
      {| SecretTypes.secret := secret; notes := notes payload; extra := extra payload |} e
| makes_copied identity src dst force old payload e :
    m !! src = Some (Live old) -> decrypt (entry_world (io 1)) old identity = Ok payload ->
    (force = false -> forall x, m !! dst <> Some (Live x)) ->
    item_type e = item_type old -> metadata e = metadata old ->
    makes m (Copy identity src dst force) payload e.

(** An entry that opens for each of its recipients. *)
Definition opens_as (e : SecretEntry) (recipients : list string) (payload : SecretPayload) : Prop :=
  forall identity rs w, collect_ok parse_recipient recipients = Ok rs -> In (public identity) rs -> unlocked w ->
    decrypt (json_error := json_error) w e identity = Ok payload.

Lemma is_listed_live m d rows name e : shows (json_error := json_error) root m d rows -> m !! name = Some (Live e) ->
  is_listed name (sort_rows (live_rows rows)) = true.
Proof.
  intros Hs Hm. destruct (Hs name) as [Hr _]. rewrite Hm in Hr. cbn in Hr. unfold is_listed. apply existsb_exists.
  assert (Hin : In (to_index_entry e) (live_rows rows) /\ row_name (to_index_entry e) = name).
  { revert Hr. clear Hs Hm. induction rows as [|r rows IH]; [done|]. cbn [find_row live_rows List.filter].
    destruct (String.eqb_spec (row_name r) name) as [Hn|]; [intros [= ->]; split; [by left|done]|].
    intros [H1 H2]%IH. split; [|done]. unfold live_rows in *. destruct (negb _); [by right|done]. }
  exists (to_index_entry e). split; [|by apply String.eqb_eq; apply Hin].
  apply list_elem_of_In. rewrite sort_rows_perm. apply list_elem_of_In, Hin.
Qed.

Abbreviation represents := (represents (io_error := io_error) (json_error := json_error) root).

Lemma free_name_free m d name : represents m d -> free_name name d = Ok tt -> forall x, m !! name <> Some (Live x).
Proof.
  intros (rows & Hi & _ & Hs). unfold free_name, list_entries.
  destruct (SecretStore.read_index_raw root (io 0) 0 d) as [rows'|] eqn:E; [|done]. cbn [result_bind].
  rewrite (read_indexed root (io 0) 0 d rows rows' Hi E). destruct (is_listed _ _) eqn:Hl; [done|]. intros _ x Hx.
  by rewrite (is_listed_live m d rows name x Hs Hx) in Hl.
Qed.

Lemma opened_live m d identity name e payload : represents m d -> opened identity name d = Ok (e, payload) ->
  m !! name = Some (Live e) /\ decrypt (entry_world (io 1)) e identity = Ok payload /\ SecretEntry.name e = name.
Proof.
  intros (rows & Hi & _ & Hs). unfold opened. destruct (get root (io 1) 0 name d) as [e0|] eqn:Hg; [|done]. cbn [result_bind].
  destruct (decrypt _ e0 identity) as [p|] eqn:Hd; [|done]. cbn. intros [= <- <-].
  pose proof (shows_get root (io 1) 0 name m d rows e0 Hs Hi Hg) as Hm. split_and!; [done..|].
  destruct (Hs name) as [_ Hf]. rewrite Hm in Hf. apply Hf.
Qed.

(** The last step of the three. *)
Lemma stored_steps m d e : represents m d ->
  steps (fun _ => True) (fun e' d' => e' = e /\ represents (<[name e := Live e]> m) d') d (stored e d).
Proof.
  intros Hm. unfold stored. eapply (in_turn_steps _ (fun _ d' => represents (<[name e := Live e]> m) d')); [done| |].
  - split; [by apply Forall_true|]. intros [] Hok. by apply put_refines.
  - intros _ d' _ Hr. by apply on_result_steps; [|intros ? [= <-]].
Qed.

Lemma next_generation_range (w : SecretIo) n name d g : next_generation (json_error := json_error) root w n name d = Ok g ->
  (0 <= g <= u64_max)%Z.
Proof.
  unfold next_generation. destruct (validate_name name); [|done]. cbn [result_bind].
  destruct (floor root w n name d); [|done]. cbn. intros [= <-]. unfold next_of, saturating_add64, u64_max. lia.
Qed.

Lemma secret_text_ok s t : secret_text s = Ok t -> t = s.
Proof. unfold secret_text. destruct (utf8 s); [by intros [= <-]|done]. Qed.

Lemma new_fields w name kind payload metadata recipients g e :
  SecretEntry.new (json_error := json_error) w name kind payload metadata recipients g = Ok e ->
  SecretEntry.name e = name /\ item_type e = kind /\ SecretEntry.metadata e = metadata.
Proof.
  unfold SecretEntry.new. destruct (validate_path name); [|done]. cbn [result_map_err result_bind].
  destruct (_ =? 0)%Z; [done|]. destruct (seal _ _ _ _ _); [|done]. by intros [= <-].
Qed.

Lemma set_payload_fields w e payload recipients g e' :
  set_payload (json_error := json_error) w e payload recipients g = Ok e' ->
  id e' = id e /\ name e' = name e /\ item_type e' = item_type e /\ metadata e' = metadata e /\ created_at e' = created_at e.
Proof. unfold set_payload. destruct (_ =? 0)%Z; [done|]. destruct (seal _ _ _ _ _); [|done]. by intros [= <-]. Qed.

Lemma entry_result {A : Type} (r : result (SecretEntryError json_error) A) a : result_map_err of_entry_error r = (Ok a : result Error A) -> r = Ok a.
Proof. destruct r; [by intros [= <-]|done]. Qed.

(** A step that only reads, or only computes: its answer. *)
Lemma asked {A B : Type} (R : B -> FS -> Prop) (f : FS -> result Error A) (k : A -> Disk Error B) (d : FS) :
  (forall a, f d = Ok a -> steps (fun _ => True) R d (k a d)) -> steps (fun _ => True) R d (in_turn (on_disk_of f) k d).
Proof.
  intros H. eapply (in_turn_steps _ (fun a d' => d' = d /\ f d = Ok a)); [done|by apply on_disk_steps|].
  intros a ? _ [-> Ha]. by apply H.
Qed.

Lemma computed {A B : Type} (R : B -> FS -> Prop) (r : result Error A) (k : A -> Disk Error B) (d : FS) :
  (forall a, r = Ok a -> steps (fun _ => True) R d (k a d)) -> steps (fun _ => True) R d (in_turn (on_result r) k d).
Proof. exact (asked R (fun _ => r) k d). Qed.

Lemma made_steps m op payload e recipients d : represents m d -> makes m op payload e -> name e = target op ->
  opens_as e recipients payload ->
  steps (fun _ => True) (fun e d' => exists payload, makes m op payload e /\ represents (<[target op := Live e]> m) d' /\
    opens_as e recipients payload) d (stored e d).
Proof.
  intros Hm Hk Hn Ho. eapply steps_weaken; [done| |by apply stored_steps]. intros e' d' [-> Hr]. exists payload.
  by rewrite <- Hn.
Qed.

Lemma crud_steps m op recipients d : represents m d -> utf8 (target op) = true ->
  steps (fun _ => True) (fun e d' => exists payload, makes m op payload e /\ represents (<[target op := Live e]> m) d' /\
    opens_as e recipients payload) d (run_crud op recipients d).
Proof.
  intros Hm Hu. destruct op as [kind name secret notes extra metadata|identity name secret|identity src dst force];
    cbn [run_crud target] in *; [unfold create_entry_full|unfold update_secret|unfold copy_entry];
    (destruct (is_nil recipients); [by apply on_result_steps|]).
  - apply asked. intros [] Hfree. apply computed. intros payload Hp. apply asked. intros g Hg. apply computed.
    intros e He%entry_result. unfold payload_from_hardened in Hp.
    destruct (secret_text secret) as [t|] eqn:Ht; [|done]. cbn in Hp. injection Hp as <-. apply secret_text_ok in Ht as ->.
    destruct (new_fields _ _ _ _ _ _ _ _ He) as (Hn & Hk & Hmd).
    eapply (made_steps m (Create kind name secret notes extra metadata)); [done| |done|].
    + constructor; [by apply (free_name_free m d)|done].
    + intros identity rs w ? ? ?. eapply new_opens; try done. by eapply next_generation_range.
  - apply asked. intros [old payload] Hop. apply computed. intros t Ht%secret_text_ok. subst t. apply asked. intros g Hg.
    apply computed. intros e He%entry_result. destruct (opened_live m d identity name old payload Hm Hop) as (Hl & Hd & Hn).
    destruct (set_payload_fields _ _ _ _ _ _ He) as (Hid & Hne & Hk & Hmd & Hc).
    eapply (made_steps m (Update identity name secret)); [done| |by rewrite Hne|].
    + by eapply makes_updated.
    + intros i rs w ? ? ?. eapply set_payload_opens; try done; [by rewrite Hn|]. by eapply next_generation_range.
  - apply asked. intros [] Hfree. apply asked. intros [old payload] Hop. apply asked. intros g Hg.
    apply computed. intros e He%entry_result. destruct (opened_live m d identity src old payload Hm Hop) as (Hl & Hd & _).
    destruct (new_fields _ _ _ _ _ _ _ _ He) as (Hn & Hk & Hmd).
    eapply (made_steps m (Copy identity src dst force)); [done| |done|].
    + eapply makes_copied; try done. intros ->. by apply (free_name_free m d).
    + intros i rs w ? ? ?. eapply new_opens; try done. by eapply next_generation_range.
Qed.

(** C30 What is created, updated or copied reads back: the entry the operation returns is
    the one the store then holds under the name, it opens for each recipient as the new
    payload, an update keeps its metadata and a copy its source's, and no live entry is
    replaced but by an update or a forced copy. *)
Theorem crud_reads_back m op recipients d e : represents m d -> utf8 (target op) = true ->
  (run_crud op recipients d).1 = Ok e ->
  exists payload, makes m op payload e /\ represents (<[target op := Live e]> m) (final d (run_crud op recipients d)) /\
    opens_as e recipients payload.
Proof. intros Hm Hu Hok. by apply (crud_steps m op recipients d Hm Hu). Qed.
End Crud.
