(* ===== verification/SecretDemo.v ===== *)
(** * Concrete runs of the secret store

    An age and a serde_json that meet the laws of [SecretEntry], the witnesses of the
    theorems on entries and on the store, and what the store does in two corners:
    a header without a generation, and a crash between the two writes of an operation. *)

From Stdlib Require Import ZArith Lia Ascii String Bool.
From stdpp Require Import base list strings gmap.
From S2P Require Import Prelude Str Decimal Names Files Trace MapStore Json Envelope Journal SecretTypes SecretEntry SecretStore SecretSafety SecretRefine SecretCrud.

Local Open Scope oc_scope.

(** ** Instances *)

#[export] Instance result_eq_dec {E A : Type} `{EqDecision E, EqDecision A} : EqDecision (result E A).
Proof. solve_decision. Defined.

(** An identity is its recipient; who may open a text stands before it. *)
Definition demo_open (identity ciphertext : string) : result string string :=
  match split_once ";" ciphertext with
  | Some (rs, plaintext) => if existsb (String.eqb identity) (split_char "," rs) then Ok plaintext else Err "no identity matched"
  | None => Err "malformed"
  end.

(** Recipients that would not read back are refused. *)
Definition demo_close (rand : Z) (rs : list string) (plaintext : string) : result string string :=
  let c := join_char "," rs +:+ ";" +:+ plaintext in
  if forallb (fun r => bool_decide (demo_open r c = Ok plaintext)) rs then Ok c else Err "bad recipient".

#[export] Instance demo_age : Age := {|
  Recipient := string; Identity := string; public r := r; parse_recipient := Ok;
  age_encrypt := demo_close; age_decrypt := demo_open
|}.

#[export] Instance demo_age_laws : AgeLaws demo_age.
Proof.
  intros rand rs plaintext c r. change (demo_close rand rs plaintext = Ok c -> In r rs -> demo_open r c = Ok plaintext).
  unfold demo_close. set (t := _ +:+ _). set (p := fun r : string => _).
  destruct (forallb p rs) eqn:H; [|done]. intros [= <-] Hin. rewrite forallb_forall in H.
  by apply H, bool_decide_eq_true in Hin.
Qed.

Definition type_letter (t : ItemType) : string :=
  match t with Mnemonic => "m" | PrivateKey => "k" | Password => "p" | Totp => "t" | Note => "n" | File => "f" end.

Definition letter_type (s : string) : option ItemType := List.find (fun t => String.eqb (type_letter t) s) item_types.

#[export] Instance SecretMetadata_eq_dec : EqDecision SecretMetadata.
Proof. solve_decision. Defined.
#[export] Instance SecretIndexEntry_eq_dec : EqDecision SecretIndexEntry.
Proof. solve_decision. Defined.
#[export] Instance SecretEntry_eq_dec : EqDecision SecretEntry.
Proof. solve_decision. Defined.

(** Fields in a line; the metadata is the default. *)
Definition demo_row (e : SecretIndexEntry) : string :=
  join_char "|" ["["; fmt_Z (row_generation e); if tombstone e then "t" else "l"; type_letter (row_item_type e);
                 row_id e; row_created_at e; row_updated_at e; row_name e; "]"].

Definition read_demo_row (s : string) : result string SecretIndexEntry :=
  match split_char "|" s with
  | [_; g; t; ty; id; created; updated; name; _] =>
      match parse_unsigned u64_max g, letter_type ty with
      | Some g, Some ty =>
          Ok {| row_id := id; row_name := name; row_item_type := ty; row_created_at := created; row_updated_at := updated;
                row_metadata := default_metadata; row_generation := g; tombstone := String.eqb t "t" |}
      | _, _ => Err "bad field"
      end
  | _ => Err "bad row"
  end.

Definition one_line (s : string) : bool :=
  negb (is_empty s) && String.eqb (trim s) s && negb (contains_byte lf s) && negb (contains_byte cr s) && utf8 s.

Definition demo_entry (e : SecretEntry) : string :=
  join_char "|" ["["; fmt_Z (generation e); type_letter (item_type e); id e; created_at e; updated_at e; name e; ciphertext e; "]"].

Definition read_demo_entry (s : string) : result string SecretEntry :=
  match split_char "|" s with
  | [_; g; ty; id; created; updated; name; c; _] =>
      match parse_unsigned u64_max g, letter_type ty with
      | Some g, Some ty =>
          if (0 <=? g)%Z then
            Ok {| id := id; name := name; item_type := ty; created_at := created; updated_at := updated;
                  metadata := default_metadata; generation := g; ciphertext := c |}
          else Err "bad generation"
      | _, _ => Err "bad field"
      end
  | _ => Err "bad entry"
  end.

(** A value that would not read back is refused. *)
#[export] Instance demo_secret_json : SecretJson string := {|
  payload_to_json p := match notes p, extra p with None, None => Ok (secret p) | _, _ => Err "unsupported" end;
  payload_from_json s := Ok {| secret := s; notes := None; extra := None |};
  secret_field := Ok;
  entry_to_json e := let s := demo_entry e in if bool_decide (read_demo_entry s = Ok e) then Ok s else Err "unsupported";
  entry_from_json := read_demo_entry;
  index_to_json e := let s := demo_row e in
    if bool_decide (read_demo_row s = Ok e) && one_line s then Ok s else Err "unsupported";
  index_from_json := read_demo_row
|}.

#[export] Instance demo_secret_laws : SecretJsonLaws demo_secret_json.
Proof.
  split; cbn.
  - intros [s [|] [|]] t; try done. by intros [= <-].
  - intros e s. destruct (bool_decide _) eqn:H; [|done]. intros [= <-]. by apply bool_decide_eq_true in H.
  - intros e s. destruct (bool_decide _) eqn:H; [|done]. destruct (one_line _); [|done]. intros [= <-].
    by apply bool_decide_eq_true in H.
  - intros e s. destruct (bool_decide _); [|done]. destruct (one_line _) eqn:H; [|done]. cbn [andb]. intros [= <-].
    unfold one_line in H. rewrite !andb_true_iff, !negb_true_iff in H. destruct H as [[[[H1 H2] H3] H4] H5].
    apply is_empty_false in H1. apply String.eqb_eq in H2. done.
  - intros s e. unfold read_demo_entry. repeat (case_match; try done). intros [= <-]. cbn.
    match goal with H : (_ <=? _)%Z = true, H' : parse_unsigned _ _ = Some _ |- _ =>
      apply parse_unsigned_range in H'; apply Z.leb_le in H; done end.
Qed.

(** ** A store *)

Definition demo_entry_world : EntryWorld := {|
  lock_plaintext := None; lock_payload := None; lock_secret := None; rand := 0; uuid := "u"; now := "t0"
|}.

Definition demo_secret_io : SecretIo (io_error := string) := {|
  is_link _ := false; read_entry_err := None; entry_write := demo_io; index_io _ := demo_io; missing_index := "no index";
  bad_utf8 := "utf8"; unlink_err := None; wal_write := demo_plain; wal_remove_fails := false;
  entry_world := demo_entry_world; tombstone_time := "t1"
|}.

Abbreviation no_parent := (fun _ : Path => "no parent").
Abbreviation demo_root := "/s".

Definition demo_payload (s : string) : SecretPayload := {| secret := s; notes := None; extra := None |}.

Definition no_entry : SecretEntry := {|
  id := ""; name := ""; item_type := Note; created_at := ""; updated_at := ""; metadata := default_metadata;
  generation := 0; ciphertext := ""
|}.

Definition demo_made (name secret : string) (g : Z) : SecretEntry :=
  match new (json_error := string) demo_entry_world name Password (demo_payload secret) default_metadata ["al"; "bo"] g with
  | Ok e => e
  | Err _ => no_entry
  end.

Abbreviation demo_put e d := (put no_parent demo_root demo_secret_io e d).
Abbreviation demo_delete n d := (delete_secret no_parent demo_root demo_secret_io n d).

Definition demo_empty : FS := {[ index_path demo_root := {| file_mode := 384; file_content := "" |} ]}.
Definition demo_one : FS := final demo_empty (demo_put (demo_made "a" "pw" 1) demo_empty).
Definition demo_two : FS := final demo_one (demo_put (demo_made "a" "pw2" 2) demo_one).
Definition demo_gone : FS := final demo_two (demo_delete "a" demo_two).
Definition demo_old_file : Files.File := default {| file_mode := 0; file_content := "" |} (demo_one !! entry_path demo_root "a").

Lemma demo_indexed : indexed (io_error := string) (json_error := string) demo_root demo_empty [].
Proof. exists {| file_mode := 384; file_content := "" |}. split; [apply lookup_singleton_eq|done]. Qed.

(** ** Witnesses *)

(** The ciphertext of one entry under the header of another. *)
Definition demo_swapped : SecretEntry := {|
  id := "u"; name := "b"; item_type := Password; created_at := "t0"; updated_at := "t0"; metadata := default_metadata;
  generation := 1; ciphertext := ciphertext (demo_made "a" "pw" 1)
|}.

Lemma decrypt_binding_witness :
  decrypt (G := demo_age) (json_error := string) demo_entry_world demo_swapped "al" = Err (ETampered "b" "path mismatch").
Proof.
  refine (decrypt_binding (G := demo_age) demo_entry_world demo_entry_world "a" Password (demo_payload "pw") default_metadata
            ["al"; "bo"] 1 (demo_made "a" "pw" 1) demo_swapped "al" ["al"; "bo"] _ _ _ _ _ _ _); try reflexivity.
  - by left.
  - split; discriminate.
  - by split.
Defined.

Definition demo_handed : SecretEntry :=
  match re_encrypt (G := demo_age) (json_error := string) demo_entry_world (demo_made "a" "pw" 1) "al" ["cy"] with
  | Ok e => e
  | Err _ => no_entry
  end.

Lemma re_encrypt_keeps_witness :
  decrypt (G := demo_age) (json_error := string) demo_entry_world demo_handed "cy" = Ok (demo_payload "pw") /\ name demo_handed = "a".
Proof.
  split; [|reflexivity].
  refine (proj1 (re_encrypt_keeps (G := demo_age) demo_entry_world demo_entry_world (demo_made "a" "pw" 1) "al" ["cy"] demo_handed
                   "cy" ["cy"] _ _ _ _ _ _)); try reflexivity.
  - split; discriminate.
  - by split.
  - by left.
Defined.

Lemma demo_put_ok : (demo_put (demo_made "a" "pw" 1) demo_empty).1 = Ok tt.
Proof. by vm_compute. Qed.

Lemma demo_put_again : (demo_put (demo_made "a" "pw2" 2) demo_one).1 = Ok tt.
Proof. by vm_compute. Qed.

Lemma demo_delete_ok : (demo_delete "a" demo_two).1 = Ok tt.
Proof. by vm_compute. Qed.

Lemma demo_served : served (io_error := string) (json_error := string) no_parent demo_root demo_empty demo_gone.
Proof.
  eapply served_delete; [eapply served_put; [eapply served_put; [apply served_none|]|]|]; unfold demo_gone, demo_two, demo_one;
    by apply final_in.
Qed.

Lemma floors_never_fall_witness :
  exists rows, indexed (io_error := string) (json_error := string) demo_root demo_gone rows /\ (0 <= floor_of "a" rows)%Z.
Proof.
  apply (floors_never_fall no_parent demo_root demo_empty demo_gone [] "a"); [apply demo_indexed|constructor|apply demo_served].
Defined.

(** A put, another, and the file of the first one brought back. *)
Lemma replay_refused_witness :
  is_ok (get (json_error := string) demo_root demo_secret_io 0 "a" (<[entry_path demo_root "a" := demo_old_file]> demo_two)) = false.
Proof.
  apply (replay_refused no_parent demo_root demo_empty [] demo_secret_io (demo_made "a" "pw" 1) demo_one demo_one demo_two
           demo_two demo_secret_io 0 demo_old_file (demo_made "a" "pw" 1));
    [apply demo_indexed|constructor|apply demo_put_ok|reflexivity|apply served_none| |apply served_none|reflexivity| |
     split; discriminate].
  - by apply (superseded_put _ _ _ _ _ demo_secret_io (demo_made "a" "pw2" 2)); [|apply demo_put_again|].
  - by vm_compute.
Defined.

Lemma demo_represents : represents (io_error := string) (json_error := string) demo_root ∅ demo_empty.
Proof.
  exists []. split; [apply demo_indexed|]. split; [constructor|]. intros n. rewrite lookup_empty. split; [done|].
  apply lookup_singleton_ne. intros H. by apply (entry_not_index demo_root n).
Qed.

(** The entry put in an empty store is read back. *)
Lemma store_refines_witness :
  get (json_error := string) demo_root demo_secret_io 0 "a" demo_one = Ok (demo_made "a" "pw" 1).
Proof.
  destruct (store_refines no_parent demo_root demo_secret_io demo_secret_io (Put (demo_made "a" "pw" 1)) ∅ demo_empty 0 "a"
              (demo_made "a" "pw" 1) demo_represents demo_put_ok) as (m' & Hs & _ & _ & Hget).
  unfold demo_one. cbn [run] in Hget. apply Hget; [split_and!; by vm_compute|]. inversion Hs. apply lookup_insert_eq.
Defined.

Definition demo_create : CrudOp := Create KPassword "a" "pw" None None default_metadata.
Abbreviation demo_crud op d := (run_crud no_parent demo_root (fun _ => None) (fun e => e) (fun _ => demo_secret_io) op ["al"; "bo"] d).

Lemma crud_reads_back_witness :
  exists m', represents (io_error := string) (json_error := string) demo_root m' (final demo_empty (demo_crud demo_create demo_empty)) /\
    m' !! "a" = Some (Live (demo_made "a" "pw" 1)).
Proof.
  destruct (crud_reads_back no_parent demo_root (fun _ => None) (fun e => e) (fun _ => demo_secret_io) ∅ demo_create ["al"; "bo"]
              demo_empty (demo_made "a" "pw" 1) demo_represents) as (payload & _ & Hr & _); [by vm_compute|by vm_compute|].
  eexists. split; [exact Hr|]. apply lookup_insert_eq.
Defined.

Lemma census_agrees_witness :
  exists rows, list_by_kind (io_error := string) (json_error := string) demo_root (fun _ => demo_secret_io) KPassword demo_one = Ok rows /\
    length rows = 1.
Proof.
  destruct (census_agrees (io_error := string) (json_error := string) demo_root (fun _ => demo_secret_io) demo_one
              [(WalletKey, (0, 0)); (KPassword, (1, 0)); (TotpSeed, (0, 0)); (KNote, (0, 0))]) as [_ H]; [by vm_compute|].
  apply (H KPassword 1 0). by apply list_elem_of_further, list_elem_of_here.
Defined.

(** ** Corners *)

(** The first file again, its header without the generation. *)
Definition demo_unnumbered : Files.File := {|
  file_mode := 384;
  file_content := demo_entry {| id := "u"; name := "a"; item_type := Password; created_at := "t0"; updated_at := "t0";
                                metadata := default_metadata; generation := 0; ciphertext := ciphertext (demo_made "a" "pw" 1) |}
|}.

Lemma unnumbered_header_replays :
  match get (json_error := string) demo_root demo_secret_io 0 "a" (<[entry_path demo_root "a" := demo_unnumbered]> demo_two) with
  | Ok e => match decrypt (G := demo_age) (json_error := string) demo_entry_world e "al" with
            | Ok payload => String.eqb (secret payload) "pw"
            | Err _ => false
            end
  | Err _ => false
  end = true.
Proof. by vm_compute. Qed.

(** A crash between the file and the index: the entry just written is taken for a forged
    one, and the row of an entry whose file is gone is still listed. *)
Definition demo_putting : list FS := (demo_put (demo_made "a" "pw2" 2) demo_one).2.
Definition demo_deleting : list FS := (demo_delete "a" demo_one).2.

Lemma torn_put_reads_tampered :
  get (json_error := string) demo_root demo_secret_io 0 "a" (default ∅ (demo_putting !! 6)) =
    Err (Tampered "a" "generation mismatch").
Proof. by vm_compute. Qed.

Lemma torn_delete_still_listed :
  let d := default ∅ (demo_deleting !! 6) in
  get (json_error := string) demo_root demo_secret_io 0 "a" d = Err (NotFound "a") /\
  result_bind (list_entries (json_error := string) demo_root demo_secret_io 0 d) (fun l => Ok (map row_name l)) = Ok ["a"].
Proof. by vm_compute. Qed.
