(* ===== verification/Base32.v ===== *)
(** * Base32

    [base32_encode] and [base32_decode] of crates/oc-secret/src/totp.rs: RFC 4648 without padding, through a 32-bit buffer. *)

From Stdlib Require Import ZArith Lia Ascii String Bool.
From stdpp Require Import base list strings.
From S2P Require Import Prelude Str Decimal Bytes.

Local Open Scope oc_scope.
Local Open Scope Z_scope.

(** [str::to_ascii_uppercase]. *)
Definition to_ascii_uppercase (c : ascii) : ascii :=
  if is_ascii_lowercase c then ascii_of_N (byte_of c - 32) else c.

Fixpoint ascii_uppercase (s : string) : string :=
  match s with
  | EmptyString => EmptyString
  | String c s' => String (to_ascii_uppercase c) (ascii_uppercase s')
  end.

(** [trim_end_matches(c)]. *)
Fixpoint trim_end_char (c : ascii) (s : string) : string :=
  match s with
  | EmptyString => EmptyString
  | String x s' => let r := trim_end_char c s' in
                   if is_empty r && Ascii.eqb x c then EmptyString else String x r
  end.

(** [bits << n] at [u32]. *)
Definition u32_shl (a n : Z) : Z := Z.land (Z.shiftl a n) (Z.ones 32).

Definition ALPHABET : string := "ABCDEFGHIJKLMNOPQRSTUVWXYZ234567".

(** The index is below 32 wherever it is used. *)
Definition alphabet_at (i : Z) : ascii := default "A"%char (String.get (Z.to_nat i) ALPHABET).

(** The inner loop: at most two characters per byte. *)
Fixpoint emit (fuel : nat) (bits bit_count : Z) : string * (Z * Z) :=
  match fuel with
  | O => ("", (bits, bit_count))
  | S fuel' =>
      if 5 <=? bit_count then
        let bit_count := bit_count - 5 in
        let c := alphabet_at (Z.land (Z.shiftr bits bit_count) 31) in
        let '(s, st) := emit fuel' (Z.land bits (u32_shl 1 bit_count - 1)) bit_count in
        (String c s, st)
      else ("", (bits, bit_count))
  end.

Fixpoint encode_from (bits bit_count : Z) (data : bytes) : string :=
  match data with
  | [] => if 0 <? bit_count then String (alphabet_at (Z.land (u32_shl bits (5 - bit_count)) 31)) "" else ""
  | byte :: data' =>
      let '(s, (bits, bit_count)) := emit 3 (Z.lor (u32_shl bits 8) byte) (bit_count + 8) in
      s +:+ encode_from bits bit_count data'
  end.

Definition base32_encode (data : bytes) : string := encode_from 0 0 data.

Definition base32_value (c : ascii) : option Z :=
  if in_range "A" "Z" c then Some (Z.of_N (byte_of c) - 65)
  else if in_range "2" "7" c then Some (Z.of_N (byte_of c) - 50 + 26)
  else None.

Fixpoint decode_from (bits bit_count : Z) (s : string) : result string bytes :=
  match s with
  | EmptyString => Ok []
  | String c s' =>
      match base32_value c with
      | None => Err "invalid base32 character"
      | Some val =>
          let bits := Z.lor (u32_shl bits 5) val in
          let bit_count := bit_count + 5 in
          if 8 <=? bit_count then
            let bit_count := bit_count - 8 in
            let? rest := decode_from (Z.land bits (u32_shl 1 bit_count - 1)) bit_count s' in
            Ok (Z.shiftr bits bit_count mod 256 :: rest)
          else decode_from bits bit_count s'
      end
  end.

Definition base32_decode (input : string) : result string bytes :=
  decode_from 0 0 (trim_end_char "=" (ascii_uppercase input)).

(** ** What is encoded decodes *)

Lemma alphabet_value n : 0 <= n < 32 -> base32_value (alphabet_at n) = Some n.
Proof.
  intros Hn. assert (H : forallb (fun n => bool_decide (base32_value (alphabet_at n) = Some n)) (map Z.of_nat (seq 0 32)) = true)
    by (vm_compute; reflexivity).
  rewrite forallb_forall in H. specialize (H n). rewrite bool_decide_eq_true in H. apply H.
  apply in_map_iff. exists (Z.to_nat n). split; [lia|]. apply in_seq. lia.
Qed.

Lemma u32_shl_small a n : 0 <= a -> 0 <= n -> a * 2 ^ n < 2 ^ 32 -> u32_shl a n = a * 2 ^ n.
Proof.
  intros Ha Hn Hlt. unfold u32_shl. rewrite Z.land_ones, Z.shiftl_mul_pow2 by lia. apply Z.mod_small.
  split; [|done]. apply Z.mul_nonneg_nonneg; [done|]. by apply Z.pow_nonneg.
Qed.

Lemma mask_mod bits n : 0 <= n <= 31 -> Z.land bits (u32_shl 1 n - 1) = bits mod 2 ^ n.
Proof.
  intros Hn. rewrite u32_shl_small; [|lia..|].
  - rewrite Z.mul_1_l. replace (2 ^ n - 1) with (Z.ones n) by (rewrite Z.ones_equiv; lia). apply Z.land_ones; lia.
  - rewrite Z.mul_1_l. apply Z.pow_lt_mono_r; lia.
Qed.

Lemma low_or a k b : 0 <= k -> 0 <= b < 2 ^ k -> Z.lor (a * 2 ^ k) b = a * 2 ^ k + b.
Proof.
  intros Hk Hb. assert (Hland : Z.land (a * 2 ^ k) b = 0).
  { apply Z.bits_inj'. intros n Hn. rewrite Z.land_spec, Z.bits_0. destruct (Z.ltb_spec n k).
    - by rewrite Z.mul_pow2_bits_low.
    - rewrite andb_comm, <- (Z.mod_small b (2 ^ k)) by lia. by rewrite Z.mod_pow2_bits_high by lia. }
  rewrite <- Z.lxor_lor by done. by rewrite <- Z.add_nocarry_lxor.
Qed.

Lemma shl_or a k b : 0 <= a < 2 ^ 12 -> 0 <= k <= 8 -> 0 <= b < 2 ^ k -> Z.lor (u32_shl a k) b = a * 2 ^ k + b.
Proof.
  intros Ha Hk Hb. rewrite u32_shl_small; [by apply low_or; [lia|]|lia..|].
  assert (2 ^ k <= 2 ^ 8) by (apply Z.pow_le_mono_r; lia). nia.
Qed.

(** One character taken by the decoder, with the buffer as a number. *)
Lemma decode_char bits n v s : 0 <= bits < 2 ^ n -> 0 <= n <= 7 -> 0 <= v < 32 ->
  decode_from bits n (String (alphabet_at v) s) =
    if 3 <=? n then
      let? rest := decode_from ((bits * 32 + v) mod 2 ^ (n - 3)) (n - 3) s in
      Ok ((bits * 32 + v) / 2 ^ (n - 3) :: rest)
    else decode_from (bits * 32 + v) (n + 5) s.
Proof.
  intros Hb Hn Hv. cbn [decode_from]. rewrite alphabet_value by done.
  assert (2 ^ n <= 2 ^ 7) by (apply Z.pow_le_mono_r; lia).
  rewrite shl_or by lia. change (2 ^ 5) with 32.
  destruct (Z.leb_spec 3 n), (Z.leb_spec 8 (n + 5)); try lia; [|done].
  replace (n + 5 - 8) with (n - 3) by lia. rewrite mask_mod by lia.
  rewrite Z.shiftr_div_pow2 by lia. rewrite (Z.mod_small (_ / _)); [done|].
  split; [apply Z.div_pos; [lia|by apply Z.pow_pos_nonneg; lia]|].
  apply Z.div_lt_upper_bound; [by apply Z.pow_pos_nonneg; lia|].
  change 256 with (2 ^ 8). rewrite <- Z.pow_add_r by lia. replace (n - 3 + 8) with (n + 5) by lia.
  rewrite Z.pow_add_r by lia. lia.
Qed.

(** One character sent by the encoder. *)
Lemma emit_char fuel bits n : 0 <= bits -> 5 <= n <= 12 -> bits < 2 ^ n ->
  emit (S fuel) bits n =
    let '(s, st) := emit fuel (bits mod 2 ^ (n - 5)) (n - 5) in
    (String (alphabet_at (bits / 2 ^ (n - 5))) s, st).
Proof.
  intros Hb Hn Hlt. cbn [emit]. destruct (Z.leb_spec 5 n); [|lia]. rewrite mask_mod by lia.
  change 31 with (Z.ones 5). rewrite Z.land_ones, Z.shiftr_div_pow2 by lia. rewrite (Z.mod_small (bits / _)); [done|].
  split; [apply Z.div_pos; [lia|by apply Z.pow_pos_nonneg; lia]|].
  apply Z.div_lt_upper_bound; [by apply Z.pow_pos_nonneg; lia|].
  rewrite <- Z.pow_add_r by lia. by replace (n - 5 + 5) with n by lia.
Qed.

Lemma emit_stop fuel bits n : n < 5 -> emit (S fuel) bits n = ("", (bits, n)).
Proof. intros Hn. cbn [emit]. by destruct (Z.leb_spec 5 n); [lia|]. Qed.

(** Evaluates the operations on literals. *)
Ltac is_literal a := lazymatch a with Z0 => idtac | Zpos _ => idtac | Zneg _ => idtac end.
Ltac literals := repeat match goal with
  | |- context [?f ?a ?b] =>
      is_literal a; is_literal b; lazymatch type of a with Z => idtac end;
      let v := eval vm_compute in (f a b) in
      lazymatch v with Z0 => idtac | Zpos _ => idtac | Zneg _ => idtac | true => idtac | false => idtac end;
      change (f a b) with v
  end; cbv match.

Ltac divided := literals; Z.to_euclidean_division_equations; lia.

(** The decoder holds the bits of a byte that the encoder has sent, the encoder those it
    has not. *)
Lemma decode_encode_from e sent held data :
  0 <= e <= 4 -> 0 <= held < 2 ^ e -> 0 <= sent < (if e =? 0 then 1 else 2 ^ (8 - e)) -> is_bytes data ->
  decode_from sent (if e =? 0 then 0 else 8 - e) (encode_from held e data) =
    Ok (if e =? 0 then data else sent * 2 ^ e + held :: data).
Proof.
  intros He Hheld Hsent Hd. revert e sent held He Hheld Hsent.
  induction Hd as [|byte data Hbyte _ IH]; intros e sent held He Hheld Hsent; revert Hheld Hsent;
    (assert (Hcase : e = 0 \/ e = 1 \/ e = 2 \/ e = 3 \/ e = 4) by lia).
  - destruct Hcase as [->|[->|[->|[->| ->]]]]; literals; intros Hheld Hsent; cbn [encode_from]; literals; [by cbn|..].
    all: rewrite u32_shl_small by (literals; lia).
    all: change 31 with (Z.ones 5); rewrite Z.land_ones by lia; literals.
    all: rewrite decode_char by divided; literals; cbn [decode_from result_bind]; f_equal; f_equal; divided.
  - unfold is_byte in Hbyte.
    destruct Hcase as [->|[->|[->|[->| ->]]]]; literals; intros Hheld Hsent; cbn [encode_from]; literals.
    all: rewrite shl_or by (literals; lia); literals.
    all: rewrite emit_char by (literals; lia); literals.
    all: try (rewrite emit_char by divided; literals).
    all: rewrite emit_stop by done.
    all: cbn [String.append].
    all: repeat (rewrite decode_char by divided; literals; cbn [result_bind]).
    all: match goal with |- context [decode_from ?s _ (encode_from ?h ?e _)] =>
           let H := fresh in pose proof (IH e s h) as H; revert H; literals; intros H; rewrite H by divided; clear H
         end; cbn [result_bind]; repeat f_equal; divided.
Qed.

Lemma encode_from_alphabet data : forall bits n,
  all_bytes (fun c => bool_decide (is_Some (base32_value c))) (encode_from bits n data) = true.
Proof.
  assert (Hat : forall i, bool_decide (is_Some (base32_value (alphabet_at i))) = true).
  { intros i. unfold alphabet_at. destruct (String.get (Z.to_nat i) ALPHABET) as [c|] eqn:E; [|done]. cbn [default].
    assert (Hall : forall s k c, all_bytes (fun c => bool_decide (is_Some (base32_value c))) s = true -> String.get k s = Some c ->
      bool_decide (is_Some (base32_value c)) = true).
    { induction s as [|x s IH]; intros k y; [done|]. cbn [all_bytes]. intros [Hx Hs]%andb_true_iff.
      destruct k; [by intros [= <-]|by apply IH]. }
    by apply (Hall ALPHABET (Z.to_nat i)). }
  assert (Hem : forall fuel bits n, all_bytes (fun c => bool_decide (is_Some (base32_value c))) (emit fuel bits n).1 = true).
  { induction fuel as [|fuel IH]; intros bits n; [done|]. cbn [emit]. destruct (5 <=? n); [|done].
    specialize (IH (Z.land bits (u32_shl 1 (n - 5) - 1)) (n - 5)). destruct (emit _ _ _) as [s st]. cbn in *. by rewrite Hat, IH. }
  induction data as [|byte data IH]; intros bits n; cbn [encode_from].
  - destruct (0 <? n); [|done]. cbn [all_bytes]. by rewrite Hat.
  - specialize (Hem 3%nat (Z.lor (u32_shl bits 8) byte) (n + 8)). destruct (emit _ _ _) as [s [b k]].
    cbn [fst] in Hem. by rewrite all_bytes_app, Hem, IH.
Qed.

Lemma base32_value_upper c : is_Some (base32_value c) -> to_ascii_uppercase c = c /\ Ascii.eqb c "=" = false.
Proof. destruct c as [[] [] [] [] [] [] [] []]; vm_compute; intros [? H]; by (split; [|done]) || discriminate H. Qed.

Lemma alphabet_kept s : all_bytes (fun c => bool_decide (is_Some (base32_value c))) s = true ->
  ascii_uppercase s = s /\ trim_end_char "=" s = s.
Proof.
  induction s as [|c s IH]; [done|]. cbn [all_bytes ascii_uppercase trim_end_char]. intros [Hc Hs]%andb_true_iff.
  apply bool_decide_eq_true in Hc. destruct (base32_value_upper c Hc) as [-> ->]. destruct (IH Hs) as [-> ->].
  by rewrite andb_false_r.
Qed.

(** Bytes survive base32. *)
Lemma base32_roundtrip data : is_bytes data -> base32_decode (base32_encode data) = Ok data.
Proof.
  intros Hd. unfold base32_decode, base32_encode. destruct (alphabet_kept _ (encode_from_alphabet data 0 0)) as [-> ->].
  by apply (decode_encode_from 0 0 0 data).
Qed.
