(* ===== verification/Otp.v ===== *)
(** * One-time passwords

    crates/oc-secret/src/totp.rs: [otpauth] URIs, the codes of RFC 6238 and RFC 4226, and
    their verification within a window.  The totp-rs crate and the HMAC of the hash
    crates are classes ([TotpRs], [Hmac]); the clock is an argument. *)

From Stdlib Require Import ZArith Lia Ascii String Bool.
From stdpp Require Import base list strings pretty.
From S2P Require Import Prelude Str Decimal Bytes Base32.

Local Open Scope oc_scope.
Local Open Scope Z_scope.

Inductive TotpError :=
| InvalidUri (message : string)
| InvalidSecret (message : string)
| Generation (message : string)
| Hotp (message : string).

Inductive Algorithm := SHA1 | SHA256 | SHA512.

Definition DEFAULT_DIGITS : Z := 6.
Definition DEFAULT_STEP : Z := 30.
Definition DEFAULT_SKEW : Z := 1.
Definition STRICT_MIN_SEED_LEN : Z := 16.

(** [str::to_uppercase], by the tables of Unicode. *)
Class Uppercase := { to_uppercase : string -> string }.

Class UppercaseLaws (U : Uppercase) : Prop :=
  uppercase_ascii s : all_bytes is_ascii s = true -> to_uppercase s = ascii_uppercase s.

(** The HMAC of a key and a message. *)
Class Hmac := { hmac : Algorithm -> bytes -> bytes -> result string bytes }.

Definition digest_len (a : Algorithm) : Z := match a with SHA1 => 20 | SHA256 => 32 | SHA512 => 64 end.

Class HmacLaws (H : Hmac) : Prop :=
  hmac_digest_len a key message : exists d, hmac a key message = Ok d /\ is_bytes d /\ len d = digest_len a.

(** totp-rs: a URI that its strict parser takes, its builder with and without the checks
    of RFC 6238, and codes. *)
Class TotpRs := {
  Totp : Type;
  from_url : string -> option Totp;
  build : Algorithm -> Z -> Z -> Z -> bytes -> string -> string -> result string Totp;
  build_noncompliant : Algorithm -> Z -> Z -> Z -> bytes -> Totp;
  to_url : Totp -> result string string;
  generate : Totp -> Z -> string;
  generate_current : Totp -> result string Z -> string
}.

(** ** Percent coding *)

Definition unreserved (c : ascii) : bool :=
  in_range "A" "Z" c || in_range "a" "z" c || in_range "0" "9" c ||
  Ascii.eqb c "-" || Ascii.eqb c "." || Ascii.eqb c "_" || Ascii.eqb c "~".

Definition HEX_TABLE : string := "0123456789ABCDEF".

Definition hex_at (i : N) : ascii := default "0"%char (String.get (N.to_nat i) HEX_TABLE).

Fixpoint percent_encode (s : string) : string :=
  match s with
  | EmptyString => EmptyString
  | String b s' =>
      if unreserved b then String b (percent_encode s')
      else String "%" (String (hex_at (N.shiftr (byte_of b) 4)) (String (hex_at (N.land (byte_of b) 15)) (percent_encode s')))
  end.

Definition hex_val (b : ascii) : N :=
  if in_range "0" "9" b then (byte_of b - 48)%N
  else if in_range "a" "f" b then (byte_of b - 97 + 10)%N
  else if in_range "A" "F" b then (byte_of b - 65 + 10)%N
  else 0%N.

Definition octet (hi lo : ascii) : ascii := ascii_of_N (N.lor (N.shiftl (hex_val hi) 4) (hex_val lo)).

(** The octets; a truncated escape ends in zeros. *)
Fixpoint decode_octets (s : string) : string :=
  match s with
  | EmptyString => EmptyString
  | String b s' =>
      if Ascii.eqb b "%" then
        match s' with
        | EmptyString => String (octet "0" "0") EmptyString
        | String hi EmptyString => String (octet hi "0") EmptyString
        | String hi (String lo s'') => String (octet hi lo) (decode_octets s'')
        end
      else if Ascii.eqb b "+" then String " " (decode_octets s')
      else String b (decode_octets s')
  end.

Definition replacement : string := bytes_str [239; 191; 189]%N.

(** [String::from_utf8_lossy]: each maximal part of a sequence that cannot be completed
    becomes U+FFFD. *)
Fixpoint utf8_lossy (s : string) : string :=
  match s with
  | EmptyString => EmptyString
  | String a s1 =>
      if byte_in 0 0x7f a then String a (utf8_lossy s1)
      else if byte_in 0xc2 0xdf a then
        match s1 with
        | String b s2 => if continuation b then String a (String b (utf8_lossy s2)) else replacement +:+ utf8_lossy s1
        | EmptyString => replacement
        end
      else if byte_in 0xe0 0xef a then
        match s1 with
        | String b s2 =>
            if (if byte_in 0xe0 0xe0 a then byte_in 0xa0 0xbf b
                else if byte_in 0xed 0xed a then byte_in 0x80 0x9f b
                else continuation b)
            then match s2 with
                 | String c s3 => if continuation c then String a (String b (String c (utf8_lossy s3)))
                                  else replacement +:+ utf8_lossy s2
                 | EmptyString => replacement
                 end
            else replacement +:+ utf8_lossy s1
        | EmptyString => replacement
        end
      else if byte_in 0xf0 0xf4 a then
        match s1 with
        | String b s2 =>
            if (if byte_in 0xf0 0xf0 a then byte_in 0x90 0xbf b
                else if byte_in 0xf4 0xf4 a then byte_in 0x80 0x8f b
                else continuation b)
            then match s2 with
                 | String c s3 =>
                     if continuation c then
                       match s3 with
                       | String d s4 => if continuation d then String a (String b (String c (String d (utf8_lossy s4))))
                                        else replacement +:+ utf8_lossy s3
                       | EmptyString => replacement
                       end
                     else replacement +:+ utf8_lossy s2
                 | EmptyString => replacement
                 end
            else replacement +:+ utf8_lossy s1
        | EmptyString => replacement
        end
      else replacement +:+ utf8_lossy s1
  end.

Definition percent_decode (s : string) : string := utf8_lossy (decode_octets s).

(** ** Seeds *)

(** White space and padding dropped; the fuel is the length. *)
Fixpoint compact_fuel (n : nat) (s : string) : string :=
  match n, s with
  | S n', String c s' =>
      match space_first s with
      | Some r => compact_fuel n' r
      | None => if Ascii.eqb c "=" then compact_fuel n' s' else String c (compact_fuel n' s')
      end
  | _, _ => EmptyString
  end.

Definition compact (s : string) : string := compact_fuel (String.length s) s.

Definition bad_base32 (e : string) : TotpError := InvalidSecret ("base32 decode failed: " +:+ e).

Definition decode_seed (s : string) : result TotpError bytes := result_map_err bad_base32 (base32_decode s).

Definition normalize_base32_secret (input : string) : result TotpError string :=
  let compact := compact input in
  if is_empty compact then Err (InvalidSecret "empty base32 secret") else
  let upper := ascii_uppercase compact in
  if negb (all_bytes (fun c => in_range "A" "Z" c || in_range "2" "7" c) upper) then
    Err (InvalidSecret "invalid base32 character") else
  let? decoded := decode_seed upper in
  if is_nil decoded then Err (InvalidSecret "empty base32 secret") else Ok upper.

(** ** Codes *)

Definition unsupported_digits (digits : Z) : TotpError :=
  InvalidUri ("unsupported digits: " +:+ fmt_Z digits +:+ " (expected 6-8)").

Definition digits_ok (digits : Z) : bool := (6 <=? digits) && (digits <=? 8).

(** [hash[i]], in range. *)
Definition hash_at (hash : bytes) (i : Z) : Z := default 0 (hash !! Z.to_nat i).

Definition truncate_code (hash : bytes) (digits : Z) : result TotpError string :=
  if negb (digits_ok digits) then Err (unsupported_digits digits) else
  if len hash <? 20 then Err (Generation "HMAC output too short") else
  let offset := Z.land (hash_at hash (len hash - 1)) 15 in
  if len hash <? offset + 4 then Err (Generation "truncation offset out of range") else
  let code := Z.lor (Z.lor (Z.lor (Z.shiftl (Z.land (hash_at hash offset) 127) 24) (Z.shiftl (hash_at hash (offset + 1)) 16))
                           (Z.shiftl (hash_at hash (offset + 2)) 8))
                    (hash_at hash (offset + 3)) in
  let modulo := 10 ^ digits in
  Ok (fmt_padded digits (code mod modulo)).

Section Codes.
Context {U : Uppercase} {H : Hmac} {T : TotpRs}.

Definition hmac_digest (algorithm : Algorithm) (key message : bytes) : result TotpError bytes :=
  result_map_err (fun e => Generation ("HMAC init failed: " +:+ e)) (hmac algorithm key message).

Definition generate_counter_code (seed : bytes) (algorithm : Algorithm) (digits counter : Z) : result TotpError string :=
  let? digest := hmac_digest algorithm seed (to_be_bytes 8 counter) in
  truncate_code digest digits.

(** ** URIs *)

Definition no_scheme (uri : string) : TotpError := InvalidUri ("expected otpauth:// scheme in: " +:+ uri).
Definition no_slash (uri : string) : TotpError := InvalidUri ("invalid otpauth URI: " +:+ uri).
Definition wrong_host (kind host : string) : TotpError :=
  InvalidUri ("expected otpauth://" +:+ kind +:+ "/, got otpauth://" +:+ host +:+ "/").
Definition no_query : TotpError := InvalidUri "missing query parameters (secret is required)".

(** The query of an [otpauth] URI of a kind. *)
Definition query_of (kind uri : string) : result TotpError string :=
  let? rest := ok_or (no_scheme uri) (strip_prefix "otpauth://" uri) in
  let? parts := ok_or (no_slash uri) (split_once "/" rest) in
  if negb (String.eqb parts.1 kind) then Err (wrong_host kind parts.1) else
  let? q := ok_or no_query (split_once "?" parts.2) in
  Ok q.2.

Definition parse_algorithm (value : string) : result TotpError Algorithm :=
  let upper := to_uppercase value in
  if String.eqb upper "SHA1" then Ok SHA1
  else if String.eqb upper "SHA256" then Ok SHA256
  else if String.eqb upper "SHA512" then Ok SHA512
  else Err (InvalidUri ("unsupported algorithm: " +:+ upper)).

Definition parse_number (what value : string) : result TotpError Z :=
  ok_or (InvalidUri ("invalid " +:+ what +:+ ": " +:+ value)) (parse_unsigned (2 ^ 64 - 1) value).

Record TotpParams := { seed : option bytes; algorithm : Algorithm; digits : Z; period : Z }.

Definition bare_params : TotpParams :=
  {| seed := None; algorithm := SHA1; digits := DEFAULT_DIGITS; period := DEFAULT_STEP |}.

(** One key of a [totp] query. *)
Definition totp_param (key value : string) (p : TotpParams) : result TotpError TotpParams :=
  if String.eqb key "algorithm" then
    let? a := parse_algorithm value in Ok {| seed := seed p; algorithm := a; digits := digits p; period := period p |}
  else if String.eqb key "digits" then
    let? n := parse_number "digits" value in Ok {| seed := seed p; algorithm := algorithm p; digits := n; period := period p |}
  else if String.eqb key "period" then
    let? n := parse_number "period" value in Ok {| seed := seed p; algorithm := algorithm p; digits := digits p; period := n |}
  else if String.eqb key "secret" then
    let? s := decode_seed (percent_decode value) in
    Ok {| seed := Some s; algorithm := algorithm p; digits := digits p; period := period p |}
  else Ok p.

Fixpoint totp_query (pairs : list string) (p : TotpParams) : result TotpError TotpParams :=
  match pairs with
  | [] => Ok p
  | kv :: pairs' =>
      match split_once "=" kv with
      | None => totp_query pairs' p
      | Some (key, value) => let? p := totp_param key value p in totp_query pairs' p
      end
  end.

(** The parameters with the seed that was found. *)
Definition parse_totp_params (uri : string) : result TotpError (bytes * TotpParams) :=
  let? query := query_of "totp" uri in
  let? p := totp_query (split_char "&" query) bare_params in
  match seed p with
  | Some (b :: s) => Ok (b :: s, p)
  | _ => Err (InvalidSecret "missing or empty 'secret' query parameter")
  end.

(** One key of an [hotp] query; the counter is only checked. *)
Definition hotp_param (key value : string) (p : Algorithm * Z * bytes) : result TotpError (Algorithm * Z * bytes) :=
  let '(algorithm, digits, secret) := p in
  if String.eqb key "algorithm" then let? a := parse_algorithm value in Ok (a, digits, secret)
  else if String.eqb key "digits" then let? n := parse_number "digits" value in Ok (algorithm, n, secret)
  else if String.eqb key "secret" then let? s := decode_seed value in Ok (algorithm, digits, s)
  else if String.eqb key "counter" then let? _ := parse_number "counter" value in Ok p
  else Ok p.

Fixpoint hotp_query (pairs : list string) (p : Algorithm * Z * bytes) : result TotpError (Algorithm * Z * bytes) :=
  match pairs with
  | [] => Ok p
  | kv :: pairs' =>
      match split_once "=" kv with
      | None => hotp_query pairs' p
      | Some (key, value) => let? p := hotp_param key (percent_decode value) p in hotp_query pairs' p
      end
  end.

Definition parse_hotp_uri (uri : string) : result TotpError (Algorithm * Z * bytes) :=
  let? query := query_of "hotp" uri in
  let? p := hotp_query (split_char "&" query) (SHA1, DEFAULT_DIGITS, []) in
  if is_nil p.2 then Err (InvalidSecret "missing 'secret' query parameter") else Ok p.

(** ** Generation *)

Definition checked_digits (digits : Z) : result TotpError unit :=
  if digits_ok digits then Ok tt else Err (unsupported_digits digits).

Definition checked_period (period : Z) : result TotpError unit :=
  if period =? 0 then Err (InvalidUri "period must not be zero") else Ok tt.

Definition generate_totp_at (otpauth_uri : string) (now_secs : Z) : result TotpError string :=
  let? sp := parse_totp_params otpauth_uri in
  let? _ := checked_digits (digits sp.2) in
  let? _ := checked_period (period sp.2) in
  generate_counter_code sp.1 (algorithm sp.2) (digits sp.2) (now_secs / period sp.2).

Definition unix_now (clock : result string Z) : result TotpError Z :=
  result_map_err (fun e => Generation ("system clock before epoch: " +:+ e)) clock.

Definition generate_totp (clock : result string Z) (otpauth_uri : string) : result TotpError string :=
  match from_url otpauth_uri with
  | Some totp => Ok (generate_current totp clock)
  | None => let? now := unix_now clock in generate_totp_at otpauth_uri now
  end.

Definition built (seed : bytes) (issuer account : string) : result TotpError Totp :=
  result_map_err Generation (build SHA1 DEFAULT_DIGITS DEFAULT_SKEW DEFAULT_STEP seed issuer account).

Definition generate_totp_from_secret (clock : result string Z) (base32_secret issuer account : string)
  : result TotpError string :=
  let? secret := decode_seed base32_secret in
  if len secret <? STRICT_MIN_SEED_LEN then
    let? now := unix_now clock in
    generate_counter_code secret SHA1 DEFAULT_DIGITS (now / DEFAULT_STEP)
  else
    let? totp := built secret issuer account in
    Ok (generate_current totp clock).

Definition build_lenient_uri (normalized_secret issuer account : string) : string :=
  "otpauth://totp/" +:+ percent_encode issuer +:+ ":" +:+ percent_encode account +:+ "?secret=" +:+ normalized_secret +:+
  "&issuer=" +:+ percent_encode issuer +:+ "&digits=" +:+ fmt_Z DEFAULT_DIGITS +:+ "&period=" +:+ fmt_Z DEFAULT_STEP.

Definition build_otpauth_uri (secret issuer account : string) : result TotpError string :=
  let? normalized := normalize_base32_secret secret in
  let? decoded := decode_seed normalized in
  if STRICT_MIN_SEED_LEN <=? len decoded then
    let? totp := built decoded issuer account in
    result_map_err Generation (to_url totp)
  else Ok (build_lenient_uri normalized issuer account).

(** [digits as u8]; a step of one second makes the time the counter. *)
Definition generate_hotp_code (algorithm : Algorithm) (digits : Z) (secret : bytes) (counter : Z) : string :=
  generate (build_noncompliant algorithm (digits mod 256) 0 1 secret) counter.

Definition generate_hotp_from_totp_uri (otpauth_uri : string) (counter : Z) : result TotpError string :=
  let? sp := parse_totp_params otpauth_uri in
  let? _ := checked_digits (digits sp.2) in
  generate_counter_code sp.1 (algorithm sp.2) (digits sp.2) counter.

Definition generate_hotp (otpauth_uri : string) (counter : Z) : result TotpError string :=
  match parse_hotp_uri otpauth_uri with
  | Ok (algorithm, digits, secret) => Ok (generate_hotp_code algorithm digits secret counter)
  | Err (InvalidUri _) => generate_hotp_from_totp_uri otpauth_uri counter
  | Err other => Err other
  end.

Definition generate_hotp_from_secret (base32_secret : string) (counter : Z) : result TotpError string :=
  let? secret := decode_seed base32_secret in
  Ok (generate_hotp_code SHA1 DEFAULT_DIGITS secret counter).

Definition build_hotp_otpauth_uri (secret issuer account : string) (counter : Z) : result TotpError string :=
  let? decoded := decode_seed secret in
  let secret_b32 := base32_encode decoded in
  let account_enc := percent_encode account in
  let issuer_enc := percent_encode issuer in
  Ok ("otpauth://hotp/" +:+ issuer_enc +:+ ":" +:+ account_enc +:+ "?secret=" +:+ secret_b32 +:+ "&issuer=" +:+ issuer_enc +:+
      "&digits=" +:+ fmt_Z DEFAULT_DIGITS +:+ "&counter=" +:+ fmt_Z counter).

(** ** Verification *)

(** The loop from [step] to [stop]; each turn is one step further.  It has no bound of its
    own but the test for [stop]: the fuel is that of the caller, and [None] is a loop that
    is still running when the fuel is spent. *)
Fixpoint verify_from (fuel : nat) (code : Z -> result TotpError string) (want : string) (step stop : Z)
  : option (result TotpError bool) :=
  match fuel with
  | O => None
  | S fuel' =>
      match code step with
      | Err e => Some (Err e)
      | Ok candidate =>
          if String.eqb candidate want then Some (Ok true)
          else if step =? stop then Some (Ok false)
          else verify_from fuel' code want (saturating_add64 step 1) stop
      end
  end.

Definition window (counter skew : Z) : Z * Z := (Z.max 0 (counter - skew), saturating_add64 counter skew).

(** The parameters, with their digits and period checked. *)
Definition verify_params (otpauth_uri : string) : result TotpError (bytes * TotpParams) :=
  let? sp := parse_totp_params otpauth_uri in
  let? _ := checked_digits (digits sp.2) in
  let? _ := checked_period (period sp.2) in
  Ok sp.

Definition verify_totp_at (fuel : nat) (otpauth_uri code : string) (allowed_skew_steps now_secs : Z)
  : option (result TotpError bool) :=
  match verify_params otpauth_uri with
  | Err e => Some (Err e)
  | Ok sp =>
      let '(start, stop) := window (now_secs / period sp.2) allowed_skew_steps in
      verify_from fuel (generate_counter_code sp.1 (algorithm sp.2) (digits sp.2)) (trim code) start stop
  end.

Definition verify_totp (fuel : nat) (clock : result string Z) (otpauth_uri code : string) (allowed_skew_steps : Z)
  : option (result TotpError bool) :=
  match unix_now clock with
  | Err e => Some (Err e)
  | Ok now => verify_totp_at fuel otpauth_uri code allowed_skew_steps now
  end.

(** ** The label of a URI *)

Definition label_of (uri : string) : string :=
  match strip_prefix "otpauth://" uri ≫= split_once "/" with
  | Some (_, path_query) => default "" (head (split_char "?" path_query))
  | None => ""
  end.

Definition issuer_param (uri : string) : option string :=
  match split_char "?" uri with
  | _ :: query :: _ => first_some (strip_prefix "issuer=") (split_char "&" query)
  | _ => None
  end.

Definition extract_issuer_account (uri : string) : option string * option string :=
  let label := label_of uri in
  let '(issuer, account) :=
    match split_once ":" label with
    | Some (iss, acc) => (Some iss, Some acc)
    | None => if negb (is_empty label) then (None, Some label) else (None, None)
    end in
  (match issuer with Some _ => issuer | None => issuer_param uri end, account).
End Codes.

(** ** Percent coding and lossy text *)

Lemma octet_hex c : octet (hex_at (N.shiftr (byte_of c) 4)) (hex_at (N.land (byte_of c) 15)) = c.
Proof. destruct c as [[] [] [] [] [] [] [] []]; vm_compute; reflexivity. Qed.

Lemma unreserved_plain c : unreserved c = true -> Ascii.eqb c "%" = false /\ Ascii.eqb c "+" = false /\ is_ascii c = true.
Proof. destruct c as [[] [] [] [] [] [] [] []]; vm_compute; intros H; (split_and!; reflexivity) || discriminate H. Qed.

Lemma decode_encode_octets s : decode_octets (percent_encode s) = s.
Proof.
  induction s as [|c s IH]; [done|]. cbn [percent_encode]. destruct (unreserved c) eqn:Hc.
  - cbn [decode_octets]. destruct (unreserved_plain c Hc) as (-> & -> & _). by rewrite IH.
  - cbn [decode_octets]. rewrite Ascii.eqb_refl, octet_hex. by rewrite IH.
Qed.

(** Text is kept. *)
Lemma utf8_lossy_text s : utf8 s = true -> utf8_lossy s = s.
Proof.
  remember (String.length s) as n eqn:Hn. revert s Hn. induction (lt_wf n) as [n _ IH]. intros s -> Hs.
  destruct s as [|a s1]; [done|]. cbn [utf8 utf8_lossy] in *.
  assert (Hnext : forall t, (String.length t <= String.length s1)%nat -> utf8 t = true -> utf8_lossy t = t).
  { intros t Ht Hu. eapply IH; [|reflexivity|done]. cbn. lia. }
  destruct (byte_in 0 0x7f a); [by rewrite Hnext|]. destruct s1 as [|b s2]; [done|]. cbn [String.length] in Hnext.
  destruct (byte_in 0xc2 0xdf a).
  { apply andb_true_iff in Hs as [-> Hs]. rewrite Hnext; [done|lia|done]. }
  destruct s2 as [|c s3]; [done|]. cbn [String.length] in Hnext. destruct (byte_in 0xe0 0xef a).
  { rewrite !andb_true_iff in Hs. destruct Hs as [[-> ->] Hs]. rewrite Hnext; [done|lia|done]. }
  destruct s3 as [|d s4]; [done|]. cbn [String.length] in Hnext. rewrite !andb_true_iff in Hs.
  destruct Hs as [[[[-> ->] ->] ->] Hs]. rewrite Hnext; [done|lia|done].
Qed.

(** What is encoded decodes. *)
Lemma percent_roundtrip s : utf8 s = true -> percent_decode (percent_encode s) = s.
Proof. intros Hs. unfold percent_decode. rewrite decode_encode_octets. by apply utf8_lossy_text. Qed.

(** A text of letters and digits is its own decoding. *)
Definition plain_byte (c : ascii) : bool := is_ascii c && negb (Ascii.eqb c "%") && negb (Ascii.eqb c "+").

Lemma percent_decode_plain s : all_bytes plain_byte s = true -> percent_decode s = s.
Proof.
  intros H. unfold percent_decode. assert (Ho : decode_octets s = s).
  { induction s as [|c s IH]; [done|]. cbn [all_bytes decode_octets] in *. apply andb_true_iff in H as [Hc Hs].
    unfold plain_byte in Hc. rewrite !andb_true_iff, !negb_true_iff in Hc. destruct Hc as [[_ ->] ->]. by rewrite IH. }
  rewrite Ho. apply utf8_lossy_text. induction s as [|c s IH]; [done|]. cbn [all_bytes] in H.
  apply andb_true_iff in H as [Hc Hs]. cbn [utf8].
  assert (byte_in 0 0x7f c = true) as ->.
  { unfold plain_byte in Hc. destruct c as [[] [] [] [] [] [] [] []]; vm_compute in Hc |- *; done || discriminate Hc. }
  apply IH; [done|]. cbn [decode_octets] in Ho. unfold plain_byte in Hc. rewrite !andb_true_iff, !negb_true_iff in Hc.
  destruct Hc as [[_ H1] H2]. rewrite H1, H2 in Ho. by injection Ho.
Qed.

(** A delimiter never appears in an encoded label. *)
Definition label_byte (c : ascii) : bool := unreserved c || Ascii.eqb c "%".

Lemma percent_encode_label s : all_bytes label_byte (percent_encode s) = true.
Proof.
  induction s as [|c s IH]; [done|]. cbn [percent_encode]. destruct (unreserved c) eqn:Hc; cbn [all_bytes]; rewrite IH.
  - unfold label_byte. by rewrite Hc.
  - destruct c as [[] [] [] [] [] [] [] []]; vm_compute in Hc |- *; done || discriminate Hc.
Qed.

Lemma lacks (p : ascii -> bool) c s : all_bytes p s = true -> p c = false -> contains_byte c s = false.
Proof.
  intros Hs Hc. unfold contains_byte. apply negb_false_iff. eapply all_bytes_impl; [|exact Hs].
  intros x Hx. apply negb_true_iff, Ascii.eqb_neq. intros ->. congruence.
Qed.

Lemma split_once_byte c a b : contains_byte c a = false -> split_once (String c "") (a +:+ String c b) = Some (a, b).
Proof.
  induction a as [|x a IH]; cbn [String.append split_once strip_prefix]; [by rewrite Ascii.eqb_refl|].
  rewrite contains_byte_cons. intros [Hx Ha]%orb_false_iff. rewrite Ascii.eqb_sym, Hx.
  by rewrite (IH Ha).
Qed.

(** ** The codes *)

Lemma hash_byte (hash : bytes) i : is_bytes hash -> is_byte (hash_at hash i).
Proof.
  intros Hh. unfold hash_at. destruct (hash !! Z.to_nat i) as [b|] eqn:E; [|by split].
  by eapply (Forall_lookup_1 is_byte) in E.
Qed.

(** The 31 bits of four bytes. *)
Lemma code_bits a b c d : is_byte a -> is_byte b -> is_byte c -> is_byte d ->
  Z.lor (Z.lor (Z.lor (Z.shiftl (Z.land a 127) 24) (Z.shiftl b 16)) (Z.shiftl c 8)) d = be_value [a; b; c; d] mod 2 ^ 31.
Proof.
  unfold is_byte, be_value. cbn [fold_left]. intros Ha Hb Hc Hd.
  change 127 with (Z.ones 7). rewrite Z.land_ones, !Z.shiftl_mul_pow2 by lia. set (m := a mod 2 ^ 7).
  assert (Hm : 0 <= m < 128) by (apply Z.mod_pos_bound; lia).
  assert (Ham : a = a / 128 * 128 + m) by (unfold m; change (2 ^ 7) with 128; rewrite (Z.div_mod a 128) at 1; lia).
  assert (0 <= a / 128) by (apply Z.div_pos; lia).
  rewrite (low_or m 24 (b * 2 ^ 16)) by lia. replace (m * 2 ^ 24 + b * 2 ^ 16) with ((m * 2 ^ 8 + b) * 2 ^ 16) by lia.
  rewrite (low_or _ 16 (c * 2 ^ 8)) by lia. replace (_ * 2 ^ 16 + c * 2 ^ 8) with (((m * 2 ^ 8 + b) * 2 ^ 8 + c) * 2 ^ 8) by lia.
  rewrite (low_or _ 8 d) by lia. apply (Z.mod_unique _ _ (a / 128)); lia.
Qed.

(** What RFC 4226 says of a digest: 31 bits at the offset its last byte names, reduced to
    the digits. *)
Definition dynamic_value (hash : bytes) : Z :=
  let offset := hash_at hash (len hash - 1) mod 16 in
  be_value [hash_at hash offset; hash_at hash (offset + 1); hash_at hash (offset + 2); hash_at hash (offset + 3)] mod 2 ^ 31.

Lemma truncate_code_value hash digits : is_bytes hash -> 20 <= len hash -> digits_ok digits = true ->
  truncate_code hash digits = Ok (fmt_padded digits (dynamic_value hash mod 10 ^ digits)).
Proof.
  intros Hh Hl Hd. unfold truncate_code. rewrite Hd. cbn [negb]. destruct (Z.ltb_spec (len hash) 20); [lia|]. cbv zeta.
  change 15 with (Z.ones 4). rewrite Z.land_ones by lia. change (2 ^ 4) with 16.
  pose proof (Z.mod_pos_bound (hash_at hash (len hash - 1)) 16 ltac:(lia)).
  destruct (Z.ltb_spec (len hash) (hash_at hash (len hash - 1) mod 16 + 4)); [lia|].
  by rewrite code_bits by (by apply hash_byte).
Qed.

(** The code of a digest of at least twenty bytes has exactly the digits asked for,
    leading zeros kept, and its value is the dynamic truncation of the digest; the
    truncation never leaves the digest. *)
Theorem truncate_code_spec hash digits : is_bytes hash -> 20 <= len hash -> digits_ok digits = true ->
  exists code, truncate_code hash digits = Ok code /\ str_len code = digits /\ all_bytes is_ascii_digit code = true /\
    parse_unsigned (2 ^ 32 - 1) code = Some (dynamic_value hash mod 10 ^ digits).
Proof.
  intros Hh Hl Hd. rewrite truncate_code_value by done. eexists. split; [done|].
  assert (Hk : 6 <= digits <= 8) by (unfold digits_ok in Hd; lia).
  assert (Hn : 0 <= dynamic_value hash mod 10 ^ digits < 10 ^ digits) by (apply Z.mod_pos_bound, Z.pow_pos_nonneg; lia).
  assert (Hmax : 10 ^ digits <= 10 ^ 8) by (apply Z.pow_le_mono_r; lia).
  destruct (fmt_padded_spec digits _ ltac:(lia) Hn) as (H1 & H2 & H3). split_and!; [done..|].
  destruct (fmt_padded _ _) as [|c s] eqn:E; [unfold str_len in H1; cbn in H1; lia|].
  rewrite parse_digits_unsigned, H3 by (by apply andb_true_iff in H2 as [? _]).
  destruct (Z.leb_spec (dynamic_value hash mod 10 ^ digits) (2 ^ 32 - 1)); [done|lia].
Qed.

Lemma truncate_code_spec_witness :
  exists code, truncate_code (repeat 31 20) 6 = Ok code /\ str_len code = 6.
Proof.
  destruct (truncate_code_spec (repeat 31 20) 6) as (code & H1 & H2 & _); [repeat constructor; vm_compute; discriminate|vm_compute; discriminate|
    reflexivity|]. by exists code.
Defined.

(** ** URIs read back *)

Lemma seed_bytes bits n s d : decode_from bits n s = Ok d -> is_bytes d.
Proof.
  revert bits n d. induction s as [|c s IH]; intros bits n d; cbn [decode_from]; [by intros [= <-]; constructor|].
  destruct (base32_value c) as [v|]; [|done]. destruct (8 <=? n + 5); [|apply IH].
  destruct (decode_from _ _ s) as [rest|] eqn:E; [|done]. cbn [result_bind]. intros [= <-]. constructor; [|by eapply IH].
  by apply Z.mod_pos_bound.
Qed.

Lemma decode_seed_bytes s d : decode_seed s = Ok d -> is_bytes d.
Proof.
  unfold decode_seed, base32_decode. destruct (decode_from _ _ _) as [x|] eqn:E; [|done]. intros [= <-]. by eapply seed_bytes.
Qed.

(** What [normalize_base32_secret] lets through. *)
Lemma normalized_plain input n : normalize_base32_secret input = Ok n ->
  all_bytes plain_byte n = true /\ contains_byte "&" n = false /\ exists b d, decode_seed n = Ok (b :: d).
Proof.
  unfold normalize_base32_secret. destruct (is_empty _); [done|]. destruct (all_bytes _ _) eqn:Ha; [|done]. cbn [negb].
  destruct (decode_seed _) as [d|] eqn:Hd; [|done]. cbn [result_bind]. destruct d as [|b d]; [done|]. cbn [is_nil]. intros [= <-].
  split_and!; [|by apply (lacks _ _ _ Ha)|by exists b, d]. eapply all_bytes_impl; [|exact Ha].
  intros c. destruct c as [[] [] [] [] [] [] [] []]; vm_compute; done.
Qed.

Lemma encoded_plain d : all_bytes plain_byte (base32_encode d) = true /\ contains_byte "&" (base32_encode d) = false.
Proof.
  pose proof (encode_from_alphabet d 0 0) as H. change (encode_from 0 0 d) with (base32_encode d) in H. split.
  - eapply all_bytes_impl; [|exact H]. intros c. destruct c as [[] [] [] [] [] [] [] []]; vm_compute; done.
  - by apply (lacks _ _ _ H).
Qed.

Section Uris.
Context {U : Uppercase} {H : Hmac} {T : TotpRs}.

(** The query of a URI with an encoded label. *)
Lemma query_of_label kind issuer account query : contains_byte "/" kind = false ->
  query_of kind ("otpauth://" +:+ kind +:+ "/" +:+ percent_encode issuer +:+ ":" +:+ percent_encode account +:+ "?" +:+ query) = Ok query.
Proof.
  intros Hk. unfold query_of. rewrite strip_prefix_app. cbn [ok_or result_bind].
  change ("/" +:+ ?x) with (String "/" x). rewrite split_once_byte by done. cbn [ok_or result_bind fst snd].
  rewrite String.eqb_refl. cbn [negb].
  assert (Hlab : contains_byte "?" (percent_encode issuer +:+ ":" +:+ percent_encode account) = false).
  { rewrite !contains_byte_app.
    by rewrite (lacks _ _ _ (percent_encode_label issuer)), (lacks _ _ _ (percent_encode_label account)). }
  replace (percent_encode issuer +:+ _) with
    ((percent_encode issuer +:+ ":" +:+ percent_encode account) +:+ String "?" query) by (by rewrite <- !app_assoc_str).
  by rewrite split_once_byte.
Qed.

Lemma parse_number_fmt what n : 0 <= n <= 2 ^ 64 - 1 -> parse_number what (fmt_Z n) = Ok n.
Proof. intros Hn. unfold parse_number. by rewrite parse_fmt_Z. Qed.

Lemma digits_plain s : all_bytes is_ascii_digit s = true -> all_bytes plain_byte s = true.
Proof. apply all_bytes_impl. intros c. destruct c as [[] [] [] [] [] [] [] []]; vm_compute; done. Qed.

(** The [otpauth] URI built for a short seed reads back, whatever the issuer and the
    account hold: the same seed, and the parameters it was built with. *)
Theorem otpauth_roundtrip input issuer account n : normalize_base32_secret input = Ok n ->
  exists secret, decode_seed n = Ok secret /\ is_nil secret = false /\
    parse_totp_params (build_lenient_uri n issuer account) =
      Ok (secret, {| seed := Some secret; algorithm := SHA1; digits := DEFAULT_DIGITS; period := DEFAULT_STEP |}).
Proof.
  intros (Hp & Hamp & b & d & Hd)%normalized_plain. exists (b :: d). split_and!; [done..|].
  unfold parse_totp_params.
  change (build_lenient_uri n issuer account) with
    ("otpauth://" +:+ "totp" +:+ "/" +:+ percent_encode issuer +:+ ":" +:+ percent_encode account +:+ "?" +:+
     join_char "&" ["secret=" +:+ n; "issuer=" +:+ percent_encode issuer; "digits=" +:+ fmt_Z DEFAULT_DIGITS; "period=" +:+ fmt_Z DEFAULT_STEP]).
  rewrite query_of_label by done. cbn [result_bind]. rewrite split_join_char; [|done|].
  2: { repeat constructor; rewrite ?contains_byte_app, ?Hamp, ?(lacks _ _ _ (percent_encode_label issuer)); done. }
  cbn [totp_query split_once strip_prefix String.append Ascii.eqb Bool.eqb]. unfold totp_param. cbn [String.eqb Ascii.eqb Bool.eqb].
  rewrite percent_decode_plain, Hd by done. cbn [result_bind]. by rewrite !parse_number_fmt by (vm_compute; split; discriminate).
Qed.

(** So does the URI built for a counter. *)
Lemma hotp_roundtrip secret issuer account counter decoded : decode_seed secret = Ok decoded -> is_nil decoded = false ->
  0 <= counter <= 2 ^ 64 - 1 ->
  exists uri, build_hotp_otpauth_uri secret issuer account counter = Ok uri /\
    parse_hotp_uri uri = Ok (SHA1, DEFAULT_DIGITS, decoded).
Proof.
  intros Hd Hne Hc. unfold build_hotp_otpauth_uri. rewrite Hd. cbn [result_bind]. cbv zeta. eexists. split; [reflexivity|].
  match goal with |- parse_hotp_uri ?u = _ => change u with
    ("otpauth://" +:+ "hotp" +:+ "/" +:+ percent_encode issuer +:+ ":" +:+ percent_encode account +:+ "?" +:+
     join_char "&" ["secret=" +:+ base32_encode decoded; "issuer=" +:+ percent_encode issuer; "digits=" +:+ fmt_Z DEFAULT_DIGITS;
                    "counter=" +:+ fmt_Z counter]) end.
  unfold parse_hotp_uri. rewrite query_of_label by done. cbn [result_bind].
  destruct (encoded_plain decoded) as [Hp Hamp]. destruct (fmt_Z_spec counter ltac:(lia)) as (_ & Hdig & _). rewrite split_join_char; [|done|].
  2: { repeat constructor; rewrite ?contains_byte_app, ?Hamp, ?(lacks _ _ _ (percent_encode_label issuer)), ?(lacks _ _ _ Hdig); done. }
  cbn [hotp_query split_once strip_prefix String.append Ascii.eqb Bool.eqb]. unfold hotp_param. cbn [String.eqb Ascii.eqb Bool.eqb].
  rewrite (percent_decode_plain (base32_encode decoded)) by done. unfold decode_seed in *.
  rewrite base32_roundtrip by (by eapply (decode_seed_bytes secret)). cbn [result_map_err result_bind].
  rewrite (percent_decode_plain (fmt_Z counter)) by by apply digits_plain.
  rewrite (percent_decode_plain (fmt_Z DEFAULT_DIGITS)) by (by apply digits_plain, fmt_Z_spec).
  rewrite (parse_number_fmt "counter") by done. rewrite (parse_number_fmt "digits") by done. cbn [result_bind snd]. by rewrite Hne.
Qed.

(** ** The window of a verification *)

(** The loop ends: with fuel for the steps that are left, and with any more, it has its
    answer, and the answer is that of those steps. *)
Lemma verify_from_window code want step stop : 0 <= step <= stop -> stop <= 2 ^ 64 - 1 ->
  (forall s, step <= s <= stop -> exists c, code s = Ok c) ->
  exists b, (forall fuel, stop - step + 1 <= Z.of_nat fuel -> verify_from fuel code want step stop = Some (Ok b)) /\
    (b = true <-> exists s, step <= s <= stop /\ code s = (Ok want : result TotpError string)).
Proof.
  intros Hs Hmax. remember (Z.to_nat (stop - step)) as left eqn:Hleft. revert step Hleft Hs.
  induction left as [|left IH]; intros step Hleft Hs Hok; destruct (Hok step ltac:(lia)) as [c Hc].
  - assert (stop = step) as -> by lia. exists (String.eqb c want). split.
    + intros [|fuel] Hf; [lia|]. cbn [verify_from]. rewrite Hc, Z.eqb_refl. by destruct (String.eqb c want).
    + destruct (String.eqb_spec c want) as [->|Hne]; (split; [intros Hb|intros (s & Hr & Hcs)]); try done.
      * exists step. split; [lia|done].
      * replace s with step in Hcs by lia. congruence.
  - assert (Hn : saturating_add64 step 1 = step + 1) by (unfold saturating_add64, u64_max; lia).
    destruct (IH (step + 1)) as (b & Hb & Hiff); [lia..|intros s Hr; apply Hok; lia|].
    exists (String.eqb c want || b). split.
    + intros [|fuel] Hf; [lia|]. cbn [verify_from]. rewrite Hc, Hn, (proj2 (Z.eqb_neq step stop)), Hb by lia.
      by destruct (String.eqb c want).
    + destruct (String.eqb_spec c want) as [->|Hne]; cbn [orb].
      * split; [intros _|done]. exists step. split; [lia|done].
      * rewrite Hiff. split; intros (s & Hr & Hcs); exists s; (split; [|done]); [lia|].
        destruct (Z.eq_dec s step) as [->|]; [congruence|lia].
Qed.

Context {HL : HmacLaws H}.

Lemma counter_code_total secret a digits counter : digits_ok digits = true ->
  exists d, hmac a secret (to_be_bytes 8 counter) = Ok d /\
    generate_counter_code secret a digits counter = Ok (fmt_padded digits (dynamic_value d mod 10 ^ digits)).
Proof.
  intros Hd. destruct (hmac_digest_len a secret (to_be_bytes 8 counter)) as (d & Hh & Hb & Hl). exists d. split; [done|].
  unfold generate_counter_code, hmac_digest. rewrite Hh. cbn [result_map_err result_bind]. apply truncate_code_value; [done| |done].
  rewrite Hl. by destruct a.
Qed.

Lemma verify_params_ok uri secret p : parse_totp_params uri = Ok (secret, p) -> digits_ok (digits p) = true -> 1 <= period p ->
  verify_params uri = Ok (secret, p).
Proof.
  intros Hp Hd Hper. unfold verify_params, checked_digits, checked_period. rewrite Hp. cbn [result_bind fst snd].
  rewrite Hd. destruct (Z.eqb_spec (period p) 0); [lia|done].
Qed.

(** The answer is that of the steps of the window, and it comes within as many turns. *)
Lemma window_decides uri code skew now secret p : parse_totp_params uri = Ok (secret, p) ->
  digits_ok (digits p) = true -> 1 <= period p -> 0 <= now <= 2 ^ 64 - 1 -> 0 <= skew ->
  exists b, (forall fuel, 2 * skew + 1 <= Z.of_nat fuel -> verify_totp_at fuel uri code skew now = Some (Ok b)) /\
    (b = true <-> exists step, Z.max 0 (now / period p - skew) <= step <= Z.min (now / period p + skew) (2 ^ 64 - 1) /\
       generate_counter_code secret (algorithm p) (digits p) step = Ok (trim code)).
Proof.
  intros Hp Hd Hper Hnow Hskew. unfold verify_totp_at, window. rewrite (verify_params_ok uri secret p) by done.
  assert (Hc : 0 <= now / period p <= now).
  { split; [apply Z.div_pos; lia|]. apply Z.div_le_upper_bound; [lia|]. nia. }
  assert (Hsat : saturating_add64 (now / period p) skew = Z.min (now / period p + skew) (2 ^ 64 - 1)) by (unfold saturating_add64, u64_max; lia).
  cbn [fst snd]. rewrite Hsat.
  destruct (verify_from_window (generate_counter_code secret (algorithm p) (digits p)) (trim code)
    (Z.max 0 (now / period p - skew)) (Z.min (now / period p + skew) (2 ^ 64 - 1))) as (b & Hb & Hiff); [lia..| |].
  { intros s _. destruct (counter_code_total secret (algorithm p) (digits p) s Hd) as (d & _ & Hg). eauto. }
  exists b. split; [|done]. intros fuel Hf. apply Hb. lia.
Qed.

Lemma generate_at uri t secret p : parse_totp_params uri = Ok (secret, p) -> digits_ok (digits p) = true -> 1 <= period p ->
  generate_totp_at uri t = generate_counter_code secret (algorithm p) (digits p) (t / period p).
Proof.
  intros Hp Hd Hper. unfold generate_totp_at, checked_digits, checked_period. rewrite Hp. cbn [result_bind fst snd].
  rewrite Hd. by destruct (Z.eqb_spec (period p) 0); [lia|].
Qed.

(** C39 Verification ends and decides: it has its answer within a turn of the loop for each
    step of the window, whatever time it is given beyond that, and accepts exactly the
    codes, white space around them aside, that are generated at a time whose step is at most
    the allowed number away from the current one. *)
Theorem verify_window uri code skew now secret p : parse_totp_params uri = Ok (secret, p) ->
  digits_ok (digits p) = true -> 1 <= period p -> 0 <= now -> 0 <= skew -> (now / period p + skew) * period p <= 2 ^ 64 - 1 ->
  now <= 2 ^ 64 - 1 ->
  exists b, (forall fuel, 2 * skew + 1 <= Z.of_nat fuel -> verify_totp_at fuel uri code skew now = Some (Ok b)) /\
    (b = true <-> exists t, 0 <= t /\ Z.abs (t / period p - now / period p) <= skew /\ generate_totp_at uri t = Ok (trim code)).
Proof.
  intros Hp Hd Hper Hnow Hskew Hmax Hnow'. destruct (window_decides uri code skew now secret p Hp Hd Hper (conj Hnow Hnow') Hskew) as (b & Hb & Hiff).
  exists b. split; [done|]. rewrite Hiff. assert (Hc : 0 <= now / period p) by (apply Z.div_pos; lia).
  split.
  - intros (s & Hr & Hs). exists (s * period p). rewrite (generate_at uri _ secret p), Z.div_mul by (done || lia). split_and!; [nia|lia|done].
  - intros (t & Ht & Habs & Hg). rewrite (generate_at uri t secret p) in Hg by done. exists (t / period p). split; [|done].
    pose proof (Z.div_pos t (period p) Ht ltac:(lia)). nia.
Qed.
End Uris.

(** ** Both ways to a code *)

(** What totp-rs documents: codes of RFC 6238, and of RFC 4226 with a step of one. *)
Class TotpRsLaws {H : Hmac} (T : TotpRs) : Prop := {
  build_generates a digits skew step seed issuer account t time d :
    build a digits skew step seed issuer account = Ok t -> digits_ok digits = true -> 1 <= step ->
    hmac a seed (to_be_bytes 8 (time / step)) = Ok d -> generate t time = fmt_padded digits (dynamic_value d mod 10 ^ digits);
  noncompliant_generates a digits skew step seed time d :
    digits_ok digits = true -> 1 <= step -> hmac a seed (to_be_bytes 8 (time / step)) = Ok d ->
    generate (build_noncompliant a digits skew step seed) time = fmt_padded digits (dynamic_value d mod 10 ^ digits);
  current_generates t now : generate_current t (Ok now) = generate t now
}.

Section Agree.
Context {U : Uppercase} {H : Hmac} {T : TotpRs} {HL : HmacLaws H} {TL : TotpRsLaws T}.

Lemma hotp_code_counter secret a digits counter : digits_ok digits = true ->
  generate_counter_code secret a digits counter = Ok (generate_hotp_code a digits secret counter).
Proof.
  intros Hd. destruct (counter_code_total secret a digits counter Hd) as (d & Hh & ->). f_equal. symmetry.
  unfold generate_hotp_code. rewrite Z.mod_small by (unfold digits_ok in Hd; lia).
  apply noncompliant_generates; [done..|]. by rewrite Z.div_1_r.
Qed.

(** The code of a bare seed is the one of RFC 6238 with the default parameters,
    whichever of the two implementations computes it; so are counter codes, and the one
    of a URI that was built for a counter is the one of its seed. *)
Theorem codes_agree now s issuer account code seed : decode_seed s = Ok seed ->
  generate_totp_from_secret (Ok now) s issuer account = Ok code ->
  generate_counter_code seed SHA1 DEFAULT_DIGITS (now / DEFAULT_STEP) = Ok code /\
  generate_hotp_from_secret s (now / DEFAULT_STEP) = Ok code /\
  forall uri first, is_nil seed = false -> 0 <= first <= 2 ^ 64 - 1 -> build_hotp_otpauth_uri s issuer account first = Ok uri ->
    generate_hotp uri (now / DEFAULT_STEP) = Ok code.
Proof.
  intros Hs Hg. assert (Hcode : generate_counter_code seed SHA1 DEFAULT_DIGITS (now / DEFAULT_STEP) = Ok code).
  { unfold generate_totp_from_secret in Hg. rewrite Hs in Hg. cbn [result_bind] in Hg. destruct (len seed <? STRICT_MIN_SEED_LEN); [done|].
    destruct (built seed issuer account) as [t|] eqn:Hb; [|done]. cbn [result_bind] in Hg. injection Hg as <-.
    destruct (counter_code_total seed SHA1 DEFAULT_DIGITS (now / DEFAULT_STEP) eq_refl) as (d & Hh & ->). f_equal.
    unfold built in Hb. destruct (build _ _ _ _ _ _ _) as [t'|] eqn:Hb'; [|done]. injection Hb as ->.
    rewrite current_generates. symmetry. by eapply build_generates. }
  split; [done|]. rewrite (hotp_code_counter seed SHA1 DEFAULT_DIGITS) in Hcode by done. injection Hcode as <-. split.
  - unfold generate_hotp_from_secret. by rewrite Hs.
  - intros uri first Hne Hf Hu. destruct (hotp_roundtrip s issuer account first seed Hs Hne Hf) as (uri' & Hu' & Hp).
    rewrite Hu in Hu'. injection Hu' as <-. unfold generate_hotp. by rewrite Hp.
Qed.
End Agree.

(** ** Where the code and its comments part *)

(** The label is taken as it is written: an issuer or account that needed escapes comes
    back with them. *)
Lemma extract_keeps_escapes n issuer account :
  extract_issuer_account (build_lenient_uri n issuer account) = (Some (percent_encode issuer), Some (percent_encode account)).
Proof.
  unfold extract_issuer_account, label_of.
  change (build_lenient_uri n issuer account) with
    ("otpauth://" +:+ "totp/" +:+ percent_encode issuer +:+ ":" +:+ percent_encode account +:+
     String "?" ("secret=" +:+ n +:+ "&issuer=" +:+ percent_encode issuer +:+ "&digits=" +:+ fmt_Z DEFAULT_DIGITS +:+
                 "&period=" +:+ fmt_Z DEFAULT_STEP)).
  set (q := "secret=" +:+ _). rewrite strip_prefix_app. cbn [option_bind mbind].
  change ("totp/" +:+ ?x) with ("totp" +:+ String "/" x). rewrite split_once_byte by done.
  assert (Hl : forall c, label_byte c = false -> c <> ":"%char ->
    contains_byte c (percent_encode issuer +:+ ":" +:+ percent_encode account) = false).
  { intros c Hc Hne. rewrite !contains_byte_app, (lacks _ _ _ (percent_encode_label issuer)), (lacks _ _ _ (percent_encode_label account)) by done.
    unfold contains_byte. cbn [all_bytes orb]. destruct (Ascii.eqb_spec ":" c); [by subst|done]. }
  replace (percent_encode issuer +:+ _) with ((percent_encode issuer +:+ ":" +:+ percent_encode account) +:+ String "?" q)
    by (by rewrite <- !app_assoc_str).
  pose proof (Hl "?"%char eq_refl ltac:(done)) as Hq. unfold contains_byte in Hq. apply negb_false_iff in Hq.
  rewrite split_char_app by done. unfold default, id. cbn [head].
  change (":" +:+ percent_encode account) with (String ":" (percent_encode account)). rewrite split_once_byte by (by apply (lacks _ _ _ (percent_encode_label issuer))).
  done.
Qed.

(** ** Concrete runs *)

Definition demo_hmac (a : Algorithm) (key message : bytes) : bytes :=
  map (fun i => (be_value key + be_value message + Z.of_nat i) mod 256) (seq 0 (Z.to_nat (digest_len a))).

#[export] Instance demo_hmac_instance : Hmac := {| hmac a key message := Ok (demo_hmac a key message) |}.

#[export] Instance demo_hmac_laws : HmacLaws demo_hmac_instance.
Proof.
  intros a key message. eexists. split; [reflexivity|]. unfold demo_hmac. split.
  - apply Forall_forall. intros b (i & <- & _)%list_elem_of_In%in_map_iff. by apply Z.mod_pos_bound.
  - unfold len. rewrite length_map, length_seq. by destruct a.
Qed.

#[export] Instance demo_uppercase : Uppercase := {| to_uppercase := ascii_uppercase |}.

(** A seed with its parameters. *)
Record DemoTotp := { d_algorithm : Algorithm; d_digits : Z; d_step : Z; d_seed : bytes }.

Definition demo_generate (t : DemoTotp) (time : Z) : string :=
  fmt_padded (d_digits t) (dynamic_value (demo_hmac (d_algorithm t) (d_seed t) (to_be_bytes 8 (time / d_step t))) mod 10 ^ d_digits t).

#[export] Instance demo_totp_rs : TotpRs := {|
  Totp := DemoTotp;
  from_url _ := None;
  build a digits _ step seed _ _ := Ok {| d_algorithm := a; d_digits := digits; d_step := step; d_seed := seed |};
  build_noncompliant a digits _ step seed := {| d_algorithm := a; d_digits := digits; d_step := step; d_seed := seed |};
  to_url _ := Err "unsupported";
  generate := demo_generate;
  generate_current t clock := match clock with Ok now => demo_generate t now | Err _ => "" end
|}.

#[export] Instance demo_totp_laws : TotpRsLaws demo_totp_rs.
Proof.
  split; cbn.
  - intros a digits skew step seed issuer account t time d [= <-] _ _ [= <-]. reflexivity.
  - intros a digits skew step seed time d _ _ [= <-]. reflexivity.
  - done.
Qed.

Definition demo_uri : string := build_lenient_uri "GEZDGNBV" "A & B" "me@x".

Lemma otpauth_roundtrip_witness :
  exists secret p, parse_totp_params demo_uri = Ok (secret, p) /\ secret = [49; 50; 51; 52; 53] /\ digits p = 6.
Proof.
  destruct (otpauth_roundtrip "gezd gnbv==" "A & B" "me@x" "GEZDGNBV") as (secret & Hs & _ & Hp); [by vm_compute|].
  eexists _, _. split; [exact Hp|]. split; [|reflexivity]. vm_compute in Hs. by injection Hs.
Defined.

Definition demo_params : TotpParams := {| seed := Some [49; 50; 51; 52; 53]; algorithm := SHA1; digits := 6; period := 30 |}.

Definition demo_code : string := match generate_totp_at demo_uri 100 with Ok c => c | Err _ => "" end.

(** A code of time 100 at time 120, one step later. *)
Lemma verify_window_witness :
  verify_totp_at 3 demo_uri (" " +:+ demo_code) 1 120 = Some (Ok true) /\
  verify_totp_at 1000 demo_uri (" " +:+ demo_code) 1 120 = Some (Ok true).
Proof.
  destruct (verify_window demo_uri (" " +:+ demo_code) 1 120 [49; 50; 51; 52; 53] demo_params) as (b & Hf & Hb);
    [by vm_compute|reflexivity|vm_compute; discriminate|lia|lia|vm_compute; discriminate|lia|].
  rewrite !Hf by lia. assert (b = true) as ->; [|done].
  apply Hb. exists 100. split; [lia|]. split; [vm_compute; discriminate|]. vm_compute. reflexivity.
Defined.

(** With less fuel than steps a wrong code has no answer yet. *)
Lemma verify_needs_window : verify_totp_at 2 demo_uri "no code" 1 120 = None /\ verify_totp_at 3 demo_uri "no code" 1 120 = Some (Ok false).
Proof. by vm_compute. Qed.

Lemma codes_agree_witness :
  exists code, generate_totp_from_secret (Ok 59) "GEZDGNBVGY3TQOJQGEZDGNBVGY3TQOJQ" "A" "me" = Ok code /\
    generate_hotp_from_secret "GEZDGNBVGY3TQOJQGEZDGNBVGY3TQOJQ" 1 = Ok code.
Proof.
  eexists. split; [vm_compute; reflexivity|].
  refine (proj1 (proj2 (codes_agree 59 "GEZDGNBVGY3TQOJQGEZDGNBVGY3TQOJQ" "A" "me" _ _ _ _))); vm_compute; reflexivity.
Defined.

(** The digits of a counter URI are not checked, and cast to a byte: 262 is taken for 6. *)
Lemma hotp_digits_wrap :
  generate_hotp "otpauth://hotp/a:b?secret=GEZDGNBV&digits=262" 1 = generate_hotp "otpauth://hotp/a:b?secret=GEZDGNBV&digits=6" 1.
Proof. vm_compute. reflexivity. Qed.

(** A bare secret may be empty; a URI's may not. *)
Lemma empty_seed_generates :
  is_ok (generate_totp_from_secret (Ok 59) "====" "A" "me") = true /\ is_ok (normalize_base32_secret "====") = false.
Proof. by vm_compute. Qed.
