(* ===== verification/Approvals.v ===== *)
(** * Approvals

    crates/oc-core/src/approval.rs and approval_log.rs, the queue of
    crates/oc-webui/src/approval_queue.rs with its start in lib.rs: signing requests that
    wait for a decision of the user, the log they are replayed from, and who is told what.
    An operation of the queue is a sequence of atomic steps: threads interleave between
    the steps.  Ids are the texts of uuids; serde_json and the order of a [HashMap] are
    arguments. *)

From Stdlib Require Import ZArith Lia Ascii String Bool.
From stdpp Require Import base list strings gmap.
From S2P Require Import Prelude Str Files Trace Json.

Local Open Scope oc_scope.

(** ** Types *)

Inductive RiskLevel := Safe | Warning | Danger | Forbidden.

#[export] Instance RiskLevel_eq_dec : EqDecision RiskLevel.
Proof. solve_decision. Defined.

(** The derived order. *)
Definition risk_rank (r : RiskLevel) : nat := match r with Safe => 0 | Warning => 1 | Danger => 2 | Forbidden => 3 end.

Definition risk_max (a b : RiskLevel) : RiskLevel := if (risk_rank a <=? risk_rank b)%nat then b else a.

Inductive RiskSource := SourcePolicy | SourceSimulation | SourceHeuristic.

Inductive ApprovalDecision := Approve | Reject (reason : string) | Timeout.

#[export] Instance ApprovalDecision_eq_dec : EqDecision ApprovalDecision.
Proof. solve_decision. Defined.

Inductive TokenDirection := TokenSend | TokenReceive.

Record TokenDelta := { token : string; direction : TokenDirection; amount : string }.

Record SiwxSummary := {
  ss_domain : string;
  ss_address : string;
  ss_uri : string;
  ss_chain_name : option string;
  ss_nonce : string;
  ss_issued_at : string;
  ss_expiration_time : option string;
  ss_resources : list string
}.

Section Approvals.
Context {S : SerdeNumber}.

Record RiskReason := {
  rr_code : string;
  rr_level : RiskLevel;
  rr_message : string;
  rr_source : RiskSource;
  rr_detail : option Value
}.

Record DecodedAction := {
  contract_name : string;
  function_name : string;
  da_args : Value;
  human_readable : string
}.

Record TxSimulation := {
  sim_success : bool;
  sim_gas_used : Z;
  sim_balance_change : list TokenDelta;
  sim_decoded_action : option DecodedAction;
  sim_error : option string
}.

Record PendingApproval := {
  pa_id : string;
  pa_method : string;
  pa_params : Value;
  pa_dapp_name : string;
  pa_dapp_origin : string;
  pa_chain_id : string;
  pa_risk : RiskLevel;
  pa_risk_reasons : list RiskReason;
  pa_simulation : option TxSimulation;
  pa_siwx_summary : option SiwxSummary;
  pa_created_at_unix : Z;
  pa_expires_at_unix : Z
}.

(** ** The log *)

Inductive ApprovalLogEvent :=
| Pending (id : string) (at_ : Z) (approval : PendingApproval)
| Resolved (id : string) (at_ : Z) (decision reason : string).

Definition event_id (e : ApprovalLogEvent) : string := match e with Pending id _ _ | Resolved id _ _ _ => id end.

Context {io_error json_error : Type}.

(** serde_json on the events. *)
Class EventJson := {
  event_to_json : ApprovalLogEvent -> result json_error string;
  event_from_json : string -> result json_error ApprovalLogEvent;
  (** [std::io::Error::other] *)
  io_other : json_error -> io_error
}.

(** An event reads back, and is a line that is not blank. *)
Class EventJsonLaws (E : EventJson) : Prop :=
  event_roundtrip e s : event_to_json e = Ok s ->
    event_from_json s = Ok e /\ contains_byte lf s = false /\ strip_cr s = s /\ is_empty (trim s) = false /\ utf8 s = true.

Context {E : EventJson}.

(** [unix_now]: zero when the clock is before the epoch. *)
Definition unix_now (clock : option Z) : Z := match clock with Some n => n | None => 0 end.

(** What an append meets: the file cannot be opened, or [written] bytes of the line are
    there when the write fails. *)
Record AppendIo := { append_open_err : option io_error; append_write_err : option (nat * io_error); append_clock : option Z }.

Definition appended (file : string) (io : AppendIo) (event : ApprovalLogEvent) : result io_error unit * string :=
  match event_to_json event with
  | Err e => (Err (io_other e), file)
  | Ok line =>
      match append_open_err io with
      | Some e => (Err e, file)
      | None =>
          let line := line +:+ String lf "" in
          match append_write_err io with
          | Some (n, e) => (Err e, file +:+ substring 0 n line)
          | None => (Ok tt, file +:+ line)
          end
      end
  end.

Definition append_pending (file : string) (io : AppendIo) (approval : PendingApproval) : result io_error unit * string :=
  appended file io (Pending (pa_id approval) (unix_now (append_clock io)) approval).

Definition append_resolved (file : string) (io : AppendIo) (id decision reason : string) : result io_error unit * string :=
  appended file io (Resolved id (unix_now (append_clock io)) decision reason).

(** One line of a replay; a malformed one is skipped. *)
Definition replay_line (pending : gmap string PendingApproval) (line : string) : gmap string PendingApproval :=
  if is_empty (trim line) then pending else
  match event_from_json line with
  | Ok (Pending id _ approval) => <[id := approval]> pending
  | Ok (Resolved id _ _ _) => delete id pending
  | Err _ => pending
  end.

Definition replayed (content : string) : gmap string PendingApproval := fold_left replay_line (buf_lines content) ∅.

(** The file as it can be read. *)
Definition read_log (read_err : option io_error) (bad_utf8 : io_error) (content : string) : result io_error string :=
  match read_err with
  | Some e => Err e
  | None => if utf8 content then Ok content else Err bad_utf8
  end.

(** The map yields its values in an order of its own. *)
Definition replay_unresolved (order : list (string * PendingApproval) -> list (string * PendingApproval))
    (read_err : option io_error) (bad_utf8 : io_error) (content : string) : result io_error (list PendingApproval) :=
  let? content := read_log read_err bad_utf8 content in
  Ok (map snd (order (map_to_list (replayed content)))).

(** [now.saturating_sub(days * 86_400)]; the product wraps. *)
Definition cutoff (now days : Z) : Z := saturating_sub now ((days * 86400) mod 2 ^ 64).

Definition stale_id (limit : Z) (line : string) : option string :=
  match event_from_json line with
  | Ok (Resolved id at_ _ _) => if (at_ <? limit)%Z then Some id else None
  | _ => None
  end.

Definition kept (stale : list string) (line : string) : bool :=
  match event_from_json line with
  | Ok e => negb (existsb (String.eqb (event_id e)) stale)
  | Err _ => true
  end.

(** Blank lines are dropped without being counted. *)
Definition gc_lines (limit : Z) (lines : list string) : list string * nat :=
  let stale := omap (stale_id limit) lines in
  let full := List.filter (fun line => negb (is_empty (trim line))) lines in
  let keep := List.filter (kept stale) full in
  (keep, length full - length keep).

(** [join("\n")], and a line feed when there is any line. *)
Definition joined_lines (lines : list string) : string :=
  let content := join_char lf lines in
  if is_empty content then content else content +:+ String lf "".

(** What one compaction meets. *)
Record GcIo := {
  gc_read_err : option io_error;
  gc_bad_utf8 : io_error;
  gc_missing : io_error;
  gc_clock : option Z;
  gc_dir_err : option io_error;
  gc_faults : WriteFaults io_error;
  gc_pid : Z; gc_nanos : Z; gc_seq : Z
}.

Definition gc_older_than (no_parent : Path -> io_error) (path : Path) (io : GcIo) (days : Z) (d : FS)
  : result io_error nat * list FS :=
  match d !! path with
  | None => (Err (gc_missing io), [d])
  | Some file =>
      match read_log (gc_read_err io) (gc_bad_utf8 io) (file_content file) with
      | Err e => (Err e, [d])
      | Ok content =>
          let '(keep, removed) := gc_lines (cutoff (unix_now (gc_clock io)) days) (buf_lines content) in
          if (0 <? removed)%nat then
            let '(r, trace) := write_atomic no_parent (gc_dir_err io) (gc_faults io) path (joined_lines keep)
                                 MODE_PRIVATE_FILE (gc_pid io) (gc_nanos io) (gc_seq io) d in
            (result_map (fun _ => removed) r, trace)
          else (Ok removed, [d])
      end
  end.

(** [open]: the file is created when it is not there, with its contents kept otherwise. *)
Record LogOpenIo := { logs_dir_err : option io_error; create_new_err : option io_error }.

Definition log_path (state_dir : string) : Path :=
  (Some (state_dir +:+ "/logs"), Some "approval_queue.jsonl").

Definition log_open (state_dir : string) (io : LogOpenIo) (d : FS) : result io_error Path * list FS :=
  let path := log_path state_dir in
  match logs_dir_err io with
  | Some e => (Err e, [d])
  | None =>
      match d !! path with
      | Some _ => (Ok path, [d])
      | None =>
          match create_new_err io with
          | Some e => (Err e, [d])
          | None => (Ok path, [<[path := {| file_mode := MODE_PRIVATE_FILE; file_content := "" |}]> d])
          end
      end
  end.

(** ** The queue *)

Inductive ResolveError := AlreadyResolved | ApprovalExpired.
Inductive ResolveOutcome := Delivered | Stale.

Inductive WsEvent :=
| WsPending (approval : PendingApproval)
| WsResolved (id : string) (decision : ApprovalDecision).

(** [resp_tx] names the channel of the requester. *)
Record QueueEntry := { approval : PendingApproval; resp_tx : option nat }.

(** A message that was sent to a requester, with what it is about and when. *)
Record Sent := { sent_to : nat; sent_decision : ApprovalDecision; sent_about : PendingApproval; sent_at : Z }.

(** What the threads share: the map, the broadcasts, the messages and the log file when
    there is one. *)
Record Queue := {
  pending : gmap string QueueEntry;
  broadcast : list WsEvent;
  sent : list Sent;
  log_file : option string
}.

Definition new_queue (log : option string) : Queue := {| pending := ∅; broadcast := []; sent := []; log_file := log |}.

Definition set_pending (q : Queue) (p : gmap string QueueEntry) : Queue :=
  {| pending := p; broadcast := broadcast q; sent := sent q; log_file := log_file q |}.

Definition announce (q : Queue) (e : WsEvent) : Queue :=
  {| pending := pending q; broadcast := broadcast q ++ [e]; sent := sent q; log_file := log_file q |}.

Definition deliver (q : Queue) (ch : nat) (decision : ApprovalDecision) (about : PendingApproval) (now : Z) : Queue :=
  {| pending := pending q; broadcast := broadcast q;
     sent := sent q ++ [{| sent_to := ch; sent_decision := decision; sent_about := about; sent_at := now |}];
     log_file := log_file q |}.

(** A failed append is reported and forgotten. *)
Definition with_log (q : Queue) (append : string -> result io_error unit * string) : Queue :=
  match log_file q with
  | Some file => {| pending := pending q; broadcast := broadcast q; sent := sent q; log_file := Some (append file).2 |}
  | None => q
  end.

Definition decision_text (decision : ApprovalDecision) : string * string :=
  match decision with
  | Approve => ("approved", "")
  | Reject reason => ("rejected", reason)
  | Timeout => ("timeout", "")
  end.

Definition record_resolution (io : AppendIo) (id : string) (decision : ApprovalDecision) (q : Queue) : Queue :=
  let q := announce q (WsResolved id decision) in
  let '(text, reason) := decision_text decision in
  with_log q (fun file => append_resolved file io id text reason).

(** *** [resolve], step by step *)

(** [self.pending.remove(&id)], under the lock of its shard. *)
Definition take_entry (id : string) (q : Queue) : option QueueEntry * Queue :=
  match pending q !! id with
  | Some e => (Some e, set_pending q (delete id (pending q)))
  | None => (None, q)
  end.

(** The answer to the requester, and what [resolve] will return. *)
Definition answer_entry (now : Z) (entry : QueueEntry) (decision : ApprovalDecision) (q : Queue)
  : result ResolveError ResolveOutcome * ApprovalDecision * Queue :=
  if (pa_expires_at_unix (approval entry) <=? now)%Z then
    (Err ApprovalExpired, Timeout,
     match resp_tx entry with Some ch => deliver q ch Timeout (approval entry) now | None => q end)
  else
    match resp_tx entry with
    | Some ch => (Ok Delivered, decision, deliver q ch decision (approval entry) now)
    | None => (Ok Stale, decision, q)
    end.

Definition resolve (clock : option Z) (io : AppendIo) (id : string) (decision : ApprovalDecision) (q : Queue)
  : result ResolveError ResolveOutcome * Queue :=
  match take_entry id q with
  | (None, q) => (Err AlreadyResolved, q)
  | (Some entry, q) =>
      let '(r, told, q) := answer_entry (unix_now clock) entry decision q in
      (r, record_resolution io id told q)
  end.

(** *** [insert], step by step *)

Definition announce_pending (a : PendingApproval) (q : Queue) : Queue := announce q (WsPending a).

Definition log_pending (io : AppendIo) (a : PendingApproval) (q : Queue) : Queue :=
  with_log q (fun file => append_pending file io a).

Definition store_entry (a : PendingApproval) (ch : option nat) (q : Queue) : Queue :=
  set_pending q (<[pa_id a := {| approval := a; resp_tx := ch |}]> (pending q)).

Definition insert_approval (io : AppendIo) (a : PendingApproval) (ch : nat) (q : Queue) : Queue :=
  store_entry a (Some ch) (log_pending io a (announce_pending a q)).

Definition replay_orphan (q : Queue) (a : PendingApproval) : Queue := store_entry a None (announce_pending a q).

Definition replay_orphans (approvals : list PendingApproval) (q : Queue) : Queue := fold_left replay_orphan approvals q.

Definition list_pending (q : Queue) : list PendingApproval := map (fun kv => approval kv.2) (map_to_list (pending q)).

Definition get_pending (id : string) (q : Queue) : option PendingApproval := approval <$> pending q !! id.

(** The start of the server: the queue with what an earlier run left. *)
Definition restart (order : list (string * PendingApproval) -> list (string * PendingApproval))
    (read_err : option io_error) (bad_utf8 : io_error) (file : string) : Queue :=
  match replay_unresolved order read_err bad_utf8 file with
  | Ok orphans => replay_orphans orphans (new_queue (Some file))
  | Err _ => new_queue (Some file)
  end.

(** ** Threads *)

(** Where a call of the queue is: what is left of it. *)
Inductive Task :=
| Inserting (a : PendingApproval) (ch : nat)
| Logging (a : PendingApproval) (ch : nat)
| Storing (a : PendingApproval) (ch : nat)
| Resolving (id : string) (decision : ApprovalDecision)
| Answering (entry : QueueEntry) (decision : ApprovalDecision)
| Announcing (a : PendingApproval) (told : ApprovalDecision)
| Noting (a : PendingApproval) (told : ApprovalDecision)
| Finished.

Definition noted (io : AppendIo) (id : string) (told : ApprovalDecision) (q : Queue) : Queue :=
  with_log q (fun file => append_resolved file io id (decision_text told).1 (decision_text told).2).

Definition task_step (clock : option Z) (io : AppendIo) (t : Task) (q : Queue) : Task * Queue :=
  match t with
  | Inserting a ch => (Logging a ch, announce_pending a q)
  | Logging a ch => (Storing a ch, log_pending io a q)
  | Storing a ch => (Finished, store_entry a (Some ch) q)
  | Resolving id decision =>
      match take_entry id q with
      | (Some entry, q) => (Answering entry decision, q)
      | (None, q) => (Finished, q)
      end
  | Answering entry decision =>
      let '(_, told, q) := answer_entry (unix_now clock) entry decision q in (Announcing (approval entry) told, q)
  | Announcing a told => (Noting a told, announce q (WsResolved (pa_id a) told))
  | Noting a told => (Finished, noted io (pa_id a) told q)
  | Finished => (Finished, q)
  end.

(** A call that nothing interrupts. *)
Fixpoint run_task (fuel : nat) (clock : option Z) (io : AppendIo) (t : Task) (q : Queue) : Task * Queue :=
  match fuel with
  | O => (t, q)
  | Datatypes.S fuel' => let '(t, q) := task_step clock io t q in run_task fuel' clock io t q
  end.

(** The steps are those of the two operations. *)
Lemma insert_task clock io a ch q : run_task 3 clock io (Inserting a ch) q = (Finished, insert_approval io a ch q).
Proof. done. Qed.

Lemma resolve_task clock io id decision q :
  (forall e, pending q !! id = Some e -> pa_id (approval e) = id) ->
  run_task 4 clock io (Resolving id decision) q = (Finished, (resolve clock io id decision q).2).
Proof.
  intros Hid. unfold resolve. cbn [run_task task_step]. unfold take_entry. destruct (pending q !! id) as [e|] eqn:He; [|done].
  specialize (Hid e eq_refl). subst id. destruct (answer_entry _ e decision _) as [[r told] q'] eqn:Ha.
  cbn. rewrite Ha. cbn. unfold record_resolution, noted. by destruct (decision_text told).
Qed.

(** ** Interleavings *)

(** [given]: what the user decided of which id. *)
Record System := {
  tasks : list Task;
  queue : Queue;
  used_ids : list string;
  used_channels : list nat;
  given : list (string * ApprovalDecision)
}.

(** A queue that holds what an earlier run left, and no call yet. *)
Definition started (q : Queue) : System :=
  {| tasks := []; queue := q; used_ids := map fst (map_to_list (pending q)); used_channels := []; given := [] |}.

Definition advance (s : System) (l1 : list Task) (tq : Task * Queue) (l2 : list Task) : System :=
  {| tasks := l1 ++ tq.1 :: l2; queue := tq.2; used_ids := used_ids s; used_channels := used_channels s; given := given s |}.

(** A uuid and a channel are new when a request is inserted; calls start at any time, and
    any of those that run takes its next step, at any time of the clock.  [fine] restricts
    what the appends meet. *)
Inductive sys_step (fine : AppendIo -> Prop) : System -> System -> Prop :=
| start_insert s a ch :
    pa_id a ∉ used_ids s -> ch ∉ used_channels s ->
    sys_step fine s {| tasks := Inserting a ch :: tasks s; queue := queue s;
                  used_ids := pa_id a :: used_ids s; used_channels := ch :: used_channels s; given := given s |}
| start_resolve s id decision :
    sys_step fine s {| tasks := Resolving id decision :: tasks s; queue := queue s;
                  used_ids := used_ids s; used_channels := used_channels s; given := (id, decision) :: given s |}
| one_step s l1 t l2 clock io :
    fine io -> tasks s = l1 ++ t :: l2 ->
    sys_step fine s (advance s l1 (task_step clock io t (queue s)) l2).

Definition task_channel (t : Task) : option nat :=
  match t with
  | Inserting _ ch | Logging _ ch | Storing _ ch => Some ch
  | Answering entry _ => resp_tx entry
  | _ => None
  end.

(** The approvals that have no entry yet. *)
Definition task_coming (t : Task) : option string :=
  match t with Inserting a _ | Logging a _ | Storing a _ => Some (pa_id a) | _ => None end.

(** What a call will answer is what the user decided. *)
Definition task_given (g : list (string * ApprovalDecision)) (t : Task) : Prop :=
  match t with
  | Resolving id d => (id, d) ∈ g
  | Answering entry d => (pa_id (approval entry), d) ∈ g
  | _ => True
  end.

Definition chans (q : Queue) : list nat := omap (fun kv => resp_tx kv.2) (map_to_list (pending q)).

Definition held (s : System) : list nat := chans (queue s) ++ omap task_channel (tasks s) ++ map sent_to (sent (queue s)).

Definition waiting (s : System) : list string :=
  map fst (map_to_list (pending (queue s))) ++ omap task_coming (tasks s).

(** A message carries the user's decision of that very approval, before its deadline, or
    says that it is over. *)
Definition honest (g : list (string * ApprovalDecision)) (m : Sent) : Prop :=
  sent_decision m = Timeout \/
  ((sent_at m < pa_expires_at_unix (sent_about m))%Z /\ (pa_id (sent_about m), sent_decision m) ∈ g).

(** Every channel has one holder, every id one approval. *)
Record tidy (s : System) : Prop := {
  held_once : NoDup (held s);
  held_used : forall ch, ch ∈ held s -> ch ∈ used_channels s;
  waiting_once : NoDup (waiting s);
  waiting_used : forall id, id ∈ waiting s -> id ∈ used_ids s;
  entries_keyed : forall id e, pending (queue s) !! id = Some e -> pa_id (approval e) = id;
  tasks_given : Forall (task_given (given s)) (tasks s);
  all_honest : Forall (honest (given s)) (sent (queue s))
}.

Lemma with_log_other q f :
  pending (with_log q f) = pending q /\ sent (with_log q f) = sent q /\ broadcast (with_log q f) = broadcast q.
Proof. unfold with_log. by destruct (log_file q). Qed.

(** A step moves the channel that its call holds, and loses none. *)
Lemma step_channels clock io t q :
  (forall a ch, t = Storing a ch -> pending q !! pa_id a = None) ->
  let tq := task_step clock io t q in
  chans tq.2 ++ option_list (task_channel tq.1) ++ map sent_to (sent tq.2) ≡ₚ
  chans q ++ option_list (task_channel t) ++ map sent_to (sent q).
Proof.
  intros Hnew tq. unfold tq, chans. destruct t as [a ch|a ch|a ch|id d|e d|a d|a d|]; cbn [task_step]; try done.
  - unfold log_pending. cbn. destruct (with_log_other q (fun file => append_pending file io a)) as (-> & -> & _). done.
  - cbn. rewrite map_to_list_insert by (by eapply Hnew). cbn. solve_Permutation.
  - unfold take_entry. destruct (pending q !! id) as [e|] eqn:He; [|done]. cbn.
    rewrite <- (map_to_list_delete (pending q) id e He). cbn. destruct (resp_tx e); cbn; [|done]. solve_Permutation.
  - unfold answer_entry. destruct (_ <=? _)%Z, (resp_tx e) as [ch|] eqn:Hch; cbn; rewrite ?map_app, ?Hch; cbn; try done; solve_Permutation.
  - unfold noted. cbn. destruct (with_log_other q (fun file => append_resolved file io (pa_id a) (decision_text d).1 (decision_text d).2))
      as (-> & -> & _). done.
Qed.

Lemma step_waiting clock io t q :
  (forall a ch, t = Storing a ch -> pending q !! pa_id a = None) ->
  let tq := task_step clock io t q in
  map fst (map_to_list (pending tq.2)) ++ option_list (task_coming tq.1) ⊆+
  map fst (map_to_list (pending q)) ++ option_list (task_coming t).
Proof.
  intros Hnew tq. unfold tq. destruct t as [a ch|a ch|a ch|id d|e d|a d|a d|]; cbn [task_step]; try done.
  - unfold log_pending. cbn. destruct (with_log_other q (fun file => append_pending file io a)) as (-> & _). done.
  - cbn. rewrite map_to_list_insert by (by eapply Hnew). cbn. rewrite app_nil_r. apply Permutation_submseteq. solve_Permutation.
  - unfold take_entry. destruct (pending q !! id) as [e|] eqn:He; [|done]. cbn. rewrite !app_nil_r.
    rewrite <- (map_to_list_delete (pending q) id e He). cbn. by apply submseteq_cons.
  - unfold answer_entry. destruct (_ <=? _)%Z, (resp_tx e) as [ch|] eqn:Hch; done.
  - unfold noted. cbn. destruct (with_log_other q (fun file => append_resolved file io (pa_id a) (decision_text d).1 (decision_text d).2))
      as (-> & _). done.
Qed.

Lemma omap_middle {A B} (f : A -> option B) l1 t l2 : omap f (l1 ++ t :: l2) = omap f l1 ++ option_list (f t) ++ omap f l2.
Proof. rewrite omap_app. cbn. by destruct (f t). Qed.

Lemma elem_of_middle {A} (t : A) l1 l2 : t ∈ l1 ++ t :: l2.
Proof. set_solver. Qed.

(** A call that is about to store has an id of its own. *)
Lemma storing_new s a ch : tidy s -> Storing a ch ∈ tasks s -> pending (queue s) !! pa_id a = None.
Proof.
  intros Ht Hin. apply not_elem_of_dom. intros Hd. apply elem_of_dom in Hd as [e He].
  pose proof (waiting_once _ Ht) as Hn. unfold waiting in Hn. apply NoDup_app in Hn as (_ & Hn & _).
  apply (Hn (pa_id a)).
  - apply list_elem_of_fmap. exists (pa_id a, e). split; [done|]. by apply elem_of_map_to_list.
  - apply list_elem_of_omap. by exists (Storing a ch).
Qed.

Lemma advance_held s l1 t l2 clock io : tidy s -> tasks s = l1 ++ t :: l2 ->
  held (advance s l1 (task_step clock io t (queue s)) l2) ≡ₚ held s.
Proof.
  intros Ht Hl. unfold held. cbn. rewrite Hl, !omap_middle.
  pose proof (step_channels clock io t (queue s)) as H. cbn in H.
  assert (Hs : forall a ch, t = Storing a ch -> pending (queue s) !! pa_id a = None).
  { intros a ch ->. apply (storing_new s a ch Ht). rewrite Hl. apply elem_of_middle. }
  specialize (H Hs). revert H. generalize (chans (task_step clock io t (queue s)).2), (chans (queue s)). intros c' c H.
  transitivity (omap task_channel l1 ++ omap task_channel l2 ++
    (c' ++ option_list (task_channel (task_step clock io t (queue s)).1) ++ map sent_to (sent (task_step clock io t (queue s)).2)));
    [solve_Permutation|]. rewrite H. solve_Permutation.
Qed.

Lemma advance_waiting s l1 t l2 clock io : tidy s -> tasks s = l1 ++ t :: l2 ->
  waiting (advance s l1 (task_step clock io t (queue s)) l2) ⊆+ waiting s.
Proof.
  intros Ht Hl. unfold waiting. cbn. rewrite Hl, !omap_middle.
  pose proof (step_waiting clock io t (queue s)) as H. cbn in H.
  assert (Hs : forall a ch, t = Storing a ch -> pending (queue s) !! pa_id a = None).
  { intros a ch ->. apply (storing_new s a ch Ht). rewrite Hl. apply elem_of_middle. }
  specialize (H Hs). revert H.
  generalize (map fst (map_to_list (pending (task_step clock io t (queue s)).2))), (map fst (map_to_list (pending (queue s)))).
  intros c' c H.
  transitivity (omap task_coming l1 ++ omap task_coming l2 ++ (c' ++ option_list (task_coming (task_step clock io t (queue s)).1)));
    [apply Permutation_submseteq; solve_Permutation|].
  transitivity (omap task_coming l1 ++ omap task_coming l2 ++ (c ++ option_list (task_coming t)));
    [by do 2 apply submseteq_skips_l|]. apply Permutation_submseteq. solve_Permutation.
Qed.

Lemma step_keyed clock io t q : (forall id e, pending q !! id = Some e -> pa_id (approval e) = id) ->
  forall id e, pending (task_step clock io t q).2 !! id = Some e -> pa_id (approval e) = id.
Proof.
  intros Hk. destruct t as [a ch|a ch|a ch|id d|x d|a d|a d|]; cbn [task_step]; try done.
  - cbn. unfold log_pending. destruct (with_log_other q (fun file => append_pending file io a)) as (-> & _). done.
  - cbn. intros id e [[<- <-]|[_ He]]%lookup_insert_Some; [done|by apply Hk].
  - unfold take_entry. destruct (pending q !! id) as [x|] eqn:Hx; [|done]. cbn.
    intros id' e [_ He]%lookup_delete_Some. by apply Hk.
  - unfold answer_entry. by destruct (_ <=? _)%Z, (resp_tx x).
  - cbn. unfold noted. destruct (with_log_other q (fun file => append_resolved file io (pa_id a) (decision_text d).1 (decision_text d).2))
      as (-> & _). done.
Qed.

Lemma step_honest clock io t q g : (forall id e, pending q !! id = Some e -> pa_id (approval e) = id) ->
  task_given g t -> Forall (honest g) (sent q) ->
  task_given g (task_step clock io t q).1 /\ Forall (honest g) (sent (task_step clock io t q).2).
Proof.
  intros Hk Hg Hs. destruct t as [a ch|a ch|a ch|id d|x d|a d|a d|]; cbn [task_step]; try done.
  - cbn. unfold log_pending. destruct (with_log_other q (fun file => append_pending file io a)) as (_ & -> & _). done.
  - unfold take_entry. destruct (pending q !! id) as [x|] eqn:Hx; [|done]. cbn. by rewrite (Hk id x Hx).
  - unfold answer_entry. destruct (_ <=? _)%Z eqn:Hd, (resp_tx x) as [ch|]; cbn; try done.
    + split; [done|]. apply Forall_app. split; [done|]. constructor; [by left|done].
    + split; [done|]. apply Forall_app. split; [done|]. constructor; [|done]. right. cbn. split; [lia|done].
  - cbn. unfold noted. destruct (with_log_other q (fun file => append_resolved file io (pa_id a) (decision_text d).1 (decision_text d).2))
      as (_ & -> & _). done.
Qed.

Lemma honest_grows g x m : honest g m -> honest (x :: g) m.
Proof. intros [?|[??]]; [by left|]. right. split; [done|]. by apply list_elem_of_further. Qed.

Lemma task_given_grows g x t : task_given g t -> task_given (x :: g) t.
Proof. destruct t; cbn; intros; try done; by apply list_elem_of_further. Qed.

(** Every step keeps the order. *)
Lemma step_tidy fine s s' : sys_step fine s s' -> tidy s -> tidy s'.
Proof.
  intros Hs Ht. destruct Hs as [s a ch Hid Hch|s id d|s l1 t l2 clock io _ Hl].
  - assert (Hp : held {| tasks := Inserting a ch :: tasks s; queue := queue s; used_ids := pa_id a :: used_ids s;
        used_channels := ch :: used_channels s; given := given s |} ≡ₚ ch :: held s) by (unfold held; cbn; solve_Permutation).
    assert (Hw : waiting {| tasks := Inserting a ch :: tasks s; queue := queue s; used_ids := pa_id a :: used_ids s;
        used_channels := ch :: used_channels s; given := given s |} ≡ₚ pa_id a :: waiting s) by (unfold waiting; cbn; solve_Permutation).
    split; cbn.
    + rewrite Hp. constructor; [|apply Ht]. intros H. by apply Hch, Ht.
    + intros c. rewrite Hp. intros [->|H]%elem_of_cons; [apply list_elem_of_here|]. apply list_elem_of_further. by apply Ht.
    + rewrite Hw. constructor; [|apply Ht]. intros H. by apply Hid, Ht.
    + intros c. rewrite Hw. intros [->|H]%elem_of_cons; [apply list_elem_of_here|]. apply list_elem_of_further. by apply Ht.
    + apply Ht.
    + constructor; [done|apply Ht].
    + apply Ht.
  - destruct Ht as [H1 H2 H3 H4 H5 H6 H7]. split; cbn; try done.
    + constructor; [apply list_elem_of_here|]. eapply Forall_impl; [done|]. intros t. apply task_given_grows.
    + eapply Forall_impl; [done|]. intros m. apply honest_grows.
  - pose proof (advance_held s l1 t l2 clock io Ht Hl) as Hp. pose proof (advance_waiting s l1 t l2 clock io Ht Hl) as Hw.
    destruct Ht as [H1 H2 H3 H4 H5 H6 H7]. rewrite Hl in H6. apply Forall_app in H6 as [H6 [H8 H9]%Forall_cons].
    destruct (step_honest clock io t (queue s) (given s) H5 H8 H7) as [Hg Hh]. split; cbn.
    + by rewrite Hp.
    + intros c. rewrite Hp. apply H2.
    + apply submseteq_Permutation in Hw as [k Hk]. rewrite Hk in H3. by apply NoDup_app in H3 as [? _].
    + intros c Hc. apply H4. by eapply elem_of_submseteq.
    + by apply step_keyed.
    + apply Forall_app. split; [done|]. by constructor.
    + done.
Qed.

(** What the start of the server makes of approvals: no channel, under their ids. *)
Definition orphaned (q : Queue) : Prop :=
  sent q = [] /\ forall id e, pending q !! id = Some e -> resp_tx e = None /\ pa_id (approval e) = id.

Lemma replay_orphaned l q : orphaned q -> orphaned (replay_orphans l q).
Proof.
  revert q. induction l as [|a l IH]; intros q [Hs Hq]; [by split|]. cbn. apply IH. split; [done|].
  intros id e. cbn. intros [[<- <-]|[_ He]]%lookup_insert_Some; [done|by apply Hq].
Qed.

Lemma restart_orphaned order re bad file : orphaned (restart order re bad file).
Proof.
  assert (Hn : orphaned (new_queue (Some file))). { split; [done|]. intros id e. cbn. by rewrite lookup_empty. }
  unfold restart. destruct (replay_unresolved order re bad file); [|done]. by apply replay_orphaned.
Qed.

Lemma started_tidy q : orphaned q -> tidy (started q).
Proof.
  intros [Hs Hq]. assert (Hh : held (started q) = []).
  { unfold held, chans. cbn. rewrite Hs, app_nil_r. assert (H : forall id e, (id, e) ∈ map_to_list (pending q) -> resp_tx e = None).
    { intros id e He%elem_of_map_to_list. by apply (Hq id e). }
    revert H. induction (map_to_list (pending q)) as [|[id e] l IH]; intros H; [done|]. cbn.
    rewrite (H id e) by apply list_elem_of_here. apply IH. intros id' e' He. apply (H id'). by apply list_elem_of_further. }
  split; cbn; try done.
  - rewrite Hh. constructor.
  - intros ch. rewrite Hh. by intros ?%not_elem_of_nil.
  - unfold waiting. cbn. rewrite app_nil_r. apply NoDup_fst_map_to_list.
  - intros id. unfold waiting. cbn. by rewrite app_nil_r.
  - intros id e He. by apply (Hq id e).
  - rewrite Hs. constructor.
Qed.

Lemma reachable_tidy fine q s : orphaned q -> rtc (sys_step fine) (started q) s -> tidy s.
Proof.
  intros Hq. apply (rtc_ind_r (fun s => tidy s)); [by apply started_tidy|].
  intros x y _ Hxy Hx. by eapply step_tidy.
Qed.

(** C10 Whatever the threads of the server do, in whatever order, and whatever the log's
    disk and the clock do: no requester is ever answered twice, an answer other than "over"
    is a decision the user gave for that very approval, and it is sent before the
    approval's deadline. *)
Theorem answered_once order re bad file fine s :
  rtc (sys_step fine) (started (restart order re bad file)) s ->
  NoDup (map sent_to (sent (queue s))) /\ Forall (honest (given s)) (sent (queue s)).
Proof.
  intros Hs. apply reachable_tidy in Hs; [|apply restart_orphaned]. split; [|apply Hs].
  pose proof (held_once _ Hs) as Hn. unfold held in Hn. apply NoDup_app in Hn as (_ & _ & Hn). by apply NoDup_app in Hn as (_ & _ & Hn).
Qed.

(** ** What the log holds *)

(** Every line of the file is ended. *)
Definition whole (file : string) : Prop := file = "" \/ exists a, file = a +:+ String lf "".

(** Appends that the disk lets through. *)
Definition smooth (io : AppendIo) : Prop := append_open_err io = None /\ append_write_err io = None.

Definition orphan (a : PendingApproval) : QueueEntry := {| approval := a; resp_tx := None |}.

Definition listed (q : Queue) : list (string * PendingApproval) := map (fun kv => (kv.1, approval kv.2)) (map_to_list (pending q)).

(** The approvals a call keeps out of the map: logged and not stored yet, or taken and not
    noted yet. *)
Definition task_alive (t : Task) : option (string * PendingApproval) :=
  match t with
  | Storing a _ | Announcing a _ | Noting a _ => Some (pa_id a, a)
  | Answering e _ => Some (pa_id (approval e), approval e)
  | _ => None
  end.

Definition task_unlogged (t : Task) : option string :=
  match t with Inserting a _ | Logging a _ => Some (pa_id a) | _ => None end.

Definition alive (s : System) : list (string * PendingApproval) := listed (queue s) ++ omap task_alive (tasks s).

Definition known (s : System) : list string := (alive s).*1 ++ omap task_unlogged (tasks s).

Lemma list_to_map_listed q : list_to_map (listed q) = approval <$> pending q.
Proof.
  rewrite <- (list_to_map_to_list (approval <$> pending q)). apply list_to_map_proper.
  - unfold listed. rewrite <- list_fmap_compose. apply NoDup_fst_map_to_list.
  - rewrite map_to_list_fmap. unfold listed. apply Permutation_refl'. apply list_fmap_ext. by intros ? [? ?].
Qed.

Lemma replayed_snoc (L : EventJsonLaws E) file e line : whole file -> event_to_json e = Ok line ->
  replayed (file +:+ (line +:+ String lf "")) = replay_line (replayed file) line.
Proof.
  intros Hw Hj. destruct (L e line Hj) as (_ & Hlf & Hcr & _). unfold replayed.
  assert (H1 : buf_lines (line +:+ String lf "") = [line]) by (apply buf_lines_app; [by apply negb_false_iff|done]).
  destruct Hw as [->|[a ->]].
  - change ("" +:+ (line +:+ String lf "")) with (line +:+ String lf ""). by rewrite H1.
  - rewrite <- app_assoc_str. cbn [String.append]. rewrite buf_lines_cut, fold_left_app, H1. done.
Qed.

Lemma whole_appended file line : whole (file +:+ (line +:+ String lf "")).
Proof. right. exists (file +:+ line). by rewrite app_assoc_str. Qed.

Lemma appended_line (L : EventJsonLaws E) file io e line : smooth io -> whole file -> utf8 file = true -> event_to_json e = Ok line ->
  let file' := (appended file io e).2 in
  whole file' /\ utf8 file' = true /\
  replayed file' = match e with Pending id _ a => <[id := a]> (replayed file) | Resolved id _ _ _ => delete id (replayed file) end.
Proof.
  intros [Ho Hw] Hf Hu Hj. destruct (L e line Hj) as (Hr & _ & _ & Ht & Hl).
  unfold appended. rewrite Hj, Ho, Hw. cbn [snd]. split; [apply whole_appended|]. split.
  - apply utf8_app; [done|]. by apply utf8_app.
  - rewrite (replayed_snoc L file e line Hf Hj). unfold replay_line. by rewrite Ht, Hr.
Qed.

(** What a step does to the approvals that are alive: nothing, or it logs their start or
    their end. *)
Lemma step_alive clock io t q :
  (forall id e, pending q !! id = Some e -> pa_id (approval e) = id) ->
  (forall a ch, t = Storing a ch -> pending q !! pa_id a = None) ->
  let tq := task_step clock io t q in
  (exists a, t = Logging a (default 0 (task_channel t)) /\ tq.1 = Storing a (default 0 (task_channel t)) /\ tq.2 = log_pending io a q) \/
  (exists a d, t = Noting a d /\ tq = (Finished, noted io (pa_id a) d q)) \/
  (listed tq.2 ++ option_list (task_alive tq.1) ≡ₚ listed q ++ option_list (task_alive t) /\
   task_unlogged tq.1 = task_unlogged t /\ log_file tq.2 = log_file q).
Proof.
  intros Hk Hnew tq. unfold tq. destruct t as [a ch|a ch|a ch|id d|x d|a d|a d|]; cbn [task_step];
    [right; right|left; by exists a|right; right|right; right|right; right|right; right|right; left; by exists a, d|right; right]; try done.
  - unfold listed. cbn. rewrite map_to_list_insert by (by eapply Hnew). cbn. split; [solve_Permutation|done].
  - unfold take_entry. destruct (pending q !! id) as [x|] eqn:Hx; [|done]. cbn. unfold listed. cbn.
    rewrite <- (map_to_list_delete (pending q) id x Hx). cbn. rewrite (Hk id x Hx). split; [solve_Permutation|done].
  - unfold answer_entry. by destruct (_ <=? _)%Z, (resp_tx x).
Qed.

Record logged (s : System) : Prop := {
  log_there : exists file, log_file (queue s) = Some file /\ whole file /\ utf8 file = true /\ replayed file = list_to_map (alive s);
  known_once : NoDup (known s);
  known_used : forall id, id ∈ known s -> id ∈ used_ids s
}.

Lemma smooth_append (L : EventJsonLaws E) (Htotal : forall e, is_ok (event_to_json e) = true) q io (e : ApprovalLogEvent) file :
  smooth io -> log_file q = Some file -> whole file -> utf8 file = true ->
  exists file', log_file (with_log q (fun f => appended f io e)) = Some file' /\ whole file' /\ utf8 file' = true /\
    replayed file' = match e with Pending id _ a => <[id := a]> (replayed file) | Resolved id _ _ _ => delete id (replayed file) end.
Proof.
  intros Hio Hq Hw Hu. specialize (Htotal e). destruct (event_to_json e) as [line|] eqn:Hj; [|done].
  exists (appended file io e).2. split; [unfold with_log; by rewrite Hq|]. by eapply appended_line.
Qed.

(** The two parts of [alive] and [known] that a step of one call leaves alone. *)
Lemma alive_middle s l1 t l2 : tasks s = l1 ++ t :: l2 ->
  alive s ≡ₚ (listed (queue s) ++ option_list (task_alive t)) ++ omap task_alive l1 ++ omap task_alive l2.
Proof. intros Hl. unfold alive. rewrite Hl, omap_middle. solve_Permutation. Qed.

Lemma known_middle s l1 t l2 : tasks s = l1 ++ t :: l2 ->
  known s ≡ₚ ((listed (queue s) ++ option_list (task_alive t)) ++ omap task_alive l1 ++ omap task_alive l2).*1 ++
             option_list (task_unlogged t) ++ omap task_unlogged l1 ++ omap task_unlogged l2.
Proof.
  intros Hl. unfold known. rewrite (alive_middle s l1 t l2 Hl), Hl, omap_middle. solve_Permutation.
Qed.

Lemma advance_logged (L : EventJsonLaws E) (Htotal : forall e, is_ok (event_to_json e) = true) s l1 t l2 clock io :
  smooth io -> tidy s -> logged s -> tasks s = l1 ++ t :: l2 -> logged (advance s l1 (task_step clock io t (queue s)) l2).
Proof.
  intros Hio Ht [(file & Hf & Hw & Hu & Hr) Hn Hused] Hl.
  assert (Hs : forall a ch, t = Storing a ch -> pending (queue s) !! pa_id a = None).
  { intros a ch ->. apply (storing_new s a ch Ht). rewrite Hl. apply elem_of_middle. }
  pose proof (alive_middle s l1 t l2 Hl) as Ha. pose proof (known_middle s l1 t l2 Hl) as Hk.
  set (s' := advance s l1 (task_step clock io t (queue s)) l2).
  pose proof (alive_middle s' l1 (task_step clock io t (queue s)).1 l2 eq_refl) as Ha'.
  pose proof (known_middle s' l1 (task_step clock io t (queue s)).1 l2 eq_refl) as Hk'.
  assert (Hna : NoDup (alive s).*1) by (unfold known in Hn; by apply NoDup_app in Hn as [? _]).
  destruct (step_alive clock io t (queue s) (entries_keyed _ Ht) Hs) as [(a & Et & E1 & E2)|[(a & d & Et & E1)|(E1 & E2 & E3)]].
  - cbn in Ha', Hk'. rewrite E1, E2 in Ha', Hk'. rewrite Et in Ha, Hk. cbn in Ha, Hk, Ha', Hk'.
    assert (El : listed (log_pending io a (queue s)) = listed (queue s)).
    { unfold listed, log_pending. by destruct (with_log_other (queue s) (fun file => append_pending file io a)) as (-> & _). }
    rewrite El in Ha', Hk'.
    assert (Pa : alive s' ≡ₚ (pa_id a, a) :: alive s) by (rewrite Ha', Ha; solve_Permutation).
    assert (Pk : known s' ≡ₚ known s) by (rewrite Hk', Hk, ?fmap_app; cbn; rewrite ?fmap_app; solve_Permutation).
    assert (Nn : NoDup (known s')) by (by rewrite Pk).
    split; [|done|intros id; rewrite Pk; apply Hused].
    destruct (smooth_append L Htotal (queue s) io (Pending (pa_id a) (unix_now (append_clock io)) a) file Hio Hf Hw Hu)
      as (file' & F1 & F2 & F3 & F4).
    exists file'. split; [cbn; by rewrite E2|]. do 2 (split; [done|]). rewrite F4, Hr.
    rewrite (list_to_map_proper (alive s') ((pa_id a, a) :: alive s)); [done| |done].
    unfold known in Nn. by apply NoDup_app in Nn as [? _].
  - cbn in Ha', Hk'. rewrite E1 in Ha', Hk'. rewrite Et in Ha, Hk. cbn in Ha, Hk, Ha', Hk'.
    assert (El : listed (noted io (pa_id a) d (queue s)) = listed (queue s)).
    { unfold listed, noted. by destruct (with_log_other (queue s)
        (fun file => append_resolved file io (pa_id a) (decision_text d).1 (decision_text d).2)) as (-> & _). }
    rewrite El in Ha', Hk'.
    assert (Pa : alive s ≡ₚ (pa_id a, a) :: alive s') by (rewrite Ha', Ha; solve_Permutation).
    assert (Pk : known s ≡ₚ pa_id a :: known s') by (rewrite Hk', Hk, ?fmap_app; cbn; rewrite ?fmap_app; solve_Permutation).
    rewrite Pk in Hn. apply NoDup_cons in Hn as [_ Hn].
    split; [|done|intros id Hid; apply Hused; rewrite Pk; by apply list_elem_of_further].
    destruct (smooth_append L Htotal (queue s) io
      (Resolved (pa_id a) (unix_now (append_clock io)) (decision_text d).1 (decision_text d).2) file Hio Hf Hw Hu)
      as (file' & F1 & F2 & F3 & F4).
    exists file'. split; [cbn; by rewrite E1|]. do 2 (split; [done|]). rewrite F4, Hr.
    rewrite (list_to_map_proper (alive s) ((pa_id a, a) :: alive s') Hna Pa). cbn.
    rewrite Pa in Hna. apply delete_insert_id. apply not_elem_of_list_to_map_1. by apply NoDup_cons in Hna as [? _].
  - assert (Pa : alive s' ≡ₚ alive s) by (rewrite Ha', Ha; cbn; by rewrite E1).
    assert (Pk : known s' ≡ₚ known s) by (rewrite Hk', Hk; cbn; by rewrite E1, E2).
    split.
    + exists file. split; [by cbn; rewrite E3|]. do 2 (split; [done|]). rewrite Hr. apply list_to_map_proper; [done|by symmetry].
    + by rewrite Pk.
    + intros id. rewrite Pk. apply Hused.
Qed.

Lemma step_logged (L : EventJsonLaws E) (Htotal : forall e, is_ok (event_to_json e) = true) s s' :
  sys_step smooth s s' -> tidy s -> logged s -> logged s'.
Proof.
  intros Hs Ht Hg. destruct Hs as [s a ch Hid Hch|s id d|s l1 t l2 clock io Hio Hl].
  - assert (Hp : known {| tasks := Inserting a ch :: tasks s; queue := queue s; used_ids := pa_id a :: used_ids s;
        used_channels := ch :: used_channels s; given := given s |} ≡ₚ pa_id a :: known s) by (unfold known, alive; cbn; solve_Permutation).
    destruct Hg as [H1 H2 H3]. split; [done| |].
    + rewrite Hp. constructor; [|done]. intros H. by apply Hid, H3.
    + intros i. rewrite Hp. cbn. intros [->|H]%elem_of_cons; [apply list_elem_of_here|]. apply list_elem_of_further. by apply H3.
  - by destruct Hg as [H1 H2 H3].
  - by apply advance_logged.
Qed.

Lemma replay_orphans_pending l q : NoDup l.*1 -> Forall (fun x : string * PendingApproval => pa_id x.2 = x.1) l ->
  forall id, pending (replay_orphans (map snd l) q) !! id =
    match (list_to_map l : gmap string PendingApproval) !! id with Some a => Some (orphan a) | None => pending q !! id end.
Proof.
  revert q. induction l as [|[i a] l IH]; intros q Hn Hk id; [done|].
  apply NoDup_cons in Hn as [Hi Hn]. apply Forall_cons in Hk as [Hk Hl]. cbn in Hk. subst i. cbn.
  rewrite (IH (replay_orphan q a) Hn Hl). cbn. destruct (decide (pa_id a = id)) as [<-|Hne].
  - rewrite (not_elem_of_list_to_map_1 _ _ Hi), !lookup_insert_eq. done.
  - by rewrite !lookup_insert_ne by done.
Qed.

Lemma replay_orphans_log l q : log_file (replay_orphans l q) = log_file q.
Proof. revert q. induction l as [|a l IH]; intros q; [done|]. cbn. by rewrite IH. Qed.

(** Every approval of the log is there under its own id. *)
Definition keyed_log (file : string) : Prop := forall id a, replayed file !! id = Some a -> pa_id a = id.

Lemma restart_pending order bad file : (forall l, order l ≡ₚ l) -> utf8 file = true -> keyed_log file ->
  pending (restart order None bad file) = orphan <$> replayed file /\ log_file (restart order None bad file) = Some file.
Proof.
  intros Ho Hu Hk. unfold restart, replay_unresolved, read_log. rewrite Hu. cbn [result_bind]. split; [|by rewrite replay_orphans_log].
  set (l := order (map_to_list (replayed file))). assert (Hl : l ≡ₚ map_to_list (replayed file)) by apply Ho.
  assert (Hn : NoDup l.*1) by (rewrite Hl; apply NoDup_fst_map_to_list).
  apply map_eq. intros id. rewrite replay_orphans_pending; [|done|].
  - rewrite (list_to_map_proper l _ Hn Hl), list_to_map_to_list, lookup_fmap. cbn. rewrite lookup_empty. by destruct (replayed file !! id).
  - rewrite Hl. apply Forall_forall. intros [i a] Hi%elem_of_map_to_list. by apply Hk.
Qed.

Lemma orphans_listed q m : pending q = orphan <$> m -> list_to_map (listed q) = m.
Proof. intros Hq. rewrite list_to_map_listed, Hq, <- map_fmap_compose. by apply map_fmap_id. Qed.

Lemma restart_logged order bad file : (forall l, order l ≡ₚ l) -> whole file -> utf8 file = true -> keyed_log file ->
  logged (started (restart order None bad file)).
Proof.
  intros Ho Hw Hu Hk. destruct (restart_pending order bad file Ho Hu Hk) as [Hp Hf].
  set (q := restart order None bad file) in *. split.
  - exists file. split; [done|]. do 2 (split; [done|]). unfold alive. cbn. rewrite app_nil_r. symmetry. by apply orphans_listed.
  - unfold known, alive. cbn. rewrite !app_nil_r. unfold listed. rewrite <- list_fmap_compose. apply NoDup_fst_map_to_list.
  - intros id. unfold known, alive. cbn. rewrite !app_nil_r. unfold listed. by rewrite <- list_fmap_compose.
Qed.

Lemma reachable_logged (L : EventJsonLaws E) (Htotal : forall e, is_ok (event_to_json e) = true) order bad file s :
  (forall l, order l ≡ₚ l) -> whole file -> utf8 file = true -> keyed_log file ->
  rtc (sys_step smooth) (started (restart order None bad file)) s -> logged s.
Proof.
  intros Ho Hw Hu Hk Hs.
  assert (H : tidy s /\ logged s); [|apply H]. revert s Hs. apply (rtc_ind_r (fun s => tidy s /\ logged s)).
  - split; [apply started_tidy, restart_orphaned|by apply restart_logged].
  - intros x y _ Hxy [Hx1 Hx2]. split; [by eapply step_tidy|by eapply step_logged].
Qed.

Lemma alive_keyed s : tidy s -> Forall (fun x : string * PendingApproval => pa_id x.2 = x.1) (alive s).
Proof.
  intros Ht. unfold alive. apply Forall_app. split; apply Forall_forall; intros [id a] H.
  - unfold listed in H. apply list_elem_of_fmap in H as ([i e] & [= -> ->] & Hi%elem_of_map_to_list). by apply (entries_keyed _ Ht).
  - apply list_elem_of_omap in H as (t & _ & H). destruct t; cbn in H; by simplify_eq.
Qed.

(** C23 When the disk lets the appends through, a server that is killed at any moment and
    started again asks for exactly the approvals that were undecided: those in the queue,
    the ones a call had logged and not stored yet, and the ones it had taken and not noted
    as resolved.  None is lost, none comes back after its end was noted, and none of them has a
    requester any more. *)
Theorem restart_recovers (L : EventJsonLaws E) (Htotal : forall e, is_ok (event_to_json e) = true) order order' bad bad' file s :
  (forall l, order l ≡ₚ l) -> (forall l, order' l ≡ₚ l) -> whole file -> utf8 file = true -> keyed_log file ->
  rtc (sys_step smooth) (started (restart order None bad file)) s ->
  exists file', log_file (queue s) = Some file' /\
    pending (restart order' None bad' file') = orphan <$> list_to_map (alive s) /\
    (Forall (eq Finished) (tasks s) -> pending (restart order' None bad' file') = (orphan ∘ approval) <$> pending (queue s)).
Proof.
  intros Ho Ho' Hw Hu Hk Hs. pose proof (reachable_tidy smooth _ s (restart_orphaned order None bad file) Hs) as Ht.
  destruct (reachable_logged L Htotal order bad file s Ho Hw Hu Hk Hs) as [(file' & Hf & Hw' & Hu' & Hr) Hn _].
  exists file'. split; [done|].
  assert (Hp : pending (restart order' None bad' file') = orphan <$> list_to_map (alive s)).
  { rewrite <- Hr. apply restart_pending; [done|done|]. intros id a. rewrite Hr. intros Ha%elem_of_list_to_map_2.
    pose proof (alive_keyed s Ht) as Hal. rewrite Forall_forall in Hal. exact (Hal _ Ha). }
  split; [done|]. intros Hd. rewrite Hp, map_fmap_compose, <- list_to_map_listed. f_equal. f_equal. unfold alive.
  replace (omap task_alive (tasks s)) with (@nil (string * PendingApproval)); [by rewrite app_nil_r|].
  induction Hd as [|t l <- _ IH]; [done|]. cbn. exact IH.
Qed.

(** ** Compaction *)

Lemma joined_read lines : Forall (fun l => contains_byte lf l = false /\ contains_byte cr l = false) lines ->
  Forall (fun l => is_empty l = false) lines -> buf_lines (joined_lines lines) = lines.
Proof.
  intros Hp He. destruct lines as [|l ls]; [done|].
  assert (H : forall l ls, Forall (fun l => contains_byte lf l = false /\ contains_byte cr l = false) (l :: ls) ->
    buf_lines (join_char lf (l :: ls) +:+ String lf "") = l :: ls).
  { clear. intros l ls. revert l. induction ls as [|x ls IH]; intros l H; apply Forall_cons in H as [[H1 H2] H3].
    - cbn [join_char]. by rewrite buf_lines_row.
    - cbn [join_char]. rewrite <- app_assoc_str. cbn [String.append]. rewrite buf_lines_row by done. f_equal. by apply IH. }
  apply Forall_cons in He as [He _]. unfold joined_lines. replace (is_empty (join_char lf (l :: ls))) with false; [by apply H|].
  symmetry. destruct l as [|c l]; [done|]. by destruct ls.
Qed.

(** The ids that were resolved before the limit. *)
Definition stale_ids (limit : Z) (content : string) : list string := omap (stale_id limit) (buf_lines content).

Lemma existsb_elem id stale : existsb (String.eqb id) stale = true <-> id ∈ stale.
Proof.
  rewrite existsb_exists. split.
  - intros (x & Hx & ->%String.eqb_eq). by apply list_elem_of_In.
  - intros H%list_elem_of_In. exists id. by rewrite String.eqb_refl.
Qed.

Definition keep_lines (stale lines : list string) : list string :=
  List.filter (kept stale) (List.filter (fun line => negb (is_empty (trim line))) lines).

Lemma keep_lines_cons stale line lines : keep_lines stale (line :: lines) =
  if is_empty (trim line) then keep_lines stale lines
  else if kept stale line then line :: keep_lines stale lines else keep_lines stale lines.
Proof. unfold keep_lines. cbn [List.filter]. by destruct (is_empty (trim line)). Qed.

Lemma kept_replay stale lines m m' :
  (forall id, id ∉ stale -> m !! id = m' !! id) -> (forall id, id ∈ stale -> m !! id = None) ->
  (forall id, id ∉ stale -> fold_left replay_line (keep_lines stale lines) m !! id = fold_left replay_line lines m' !! id) /\
  (forall id, id ∈ stale -> fold_left replay_line (keep_lines stale lines) m !! id = None).
Proof.
  revert m m'. induction lines as [|line lines IH]; intros m m' H1 H2; [done|].
  assert (Er : forall m0, replay_line m0 line = if is_empty (trim line) then m0 else
    match event_from_json line with Ok (Pending i _ a) => <[i := a]> m0 | Ok (Resolved i _ _ _) => delete i m0 | Err _ => m0 end) by done.
  rewrite keep_lines_cons. cbn [fold_left]. rewrite Er. destruct (is_empty (trim line)); [by apply IH|].
  unfold kept. destruct (event_from_json line) as [e|err].
  - destruct (existsb (String.eqb (event_id e)) stale) eqn:He; cbn [negb].
    + apply existsb_elem in He. apply IH; [|done]. intros id Hid. rewrite (H1 id Hid).
      assert (Hne : event_id e <> id) by (by intros <-).
      destruct e as [i at_ a|i at_ d r]; cbn in Hne; by rewrite ?lookup_insert_ne, ?lookup_delete_ne by done.
    + assert (Hn : event_id e ∉ stale). { intros H%existsb_elem. by rewrite H in He. }
      cbn [fold_left]. rewrite Er. apply IH.
      * intros id Hid. destruct e as [i at_ a|i at_ d r]; (destruct (decide (i = id)) as [->|Hne]).
        -- by rewrite !lookup_insert_eq.
        -- rewrite !lookup_insert_ne by done. by apply H1.
        -- by rewrite !lookup_delete_eq.
        -- rewrite !lookup_delete_ne by done. by apply H1.
      * intros id Hid. assert (Hne : event_id e <> id) by (by intros <-).
        destruct e as [i at_ a|i at_ d r]; cbn in Hne; rewrite ?lookup_insert_ne, ?lookup_delete_ne by done; by apply H2.
  - cbn [negb fold_left]. rewrite Er. by apply IH.
Qed.

Lemma gc_kept_read limit content : contains_byte cr content = false ->
  buf_lines (joined_lines (gc_lines limit (buf_lines content)).1) = (gc_lines limit (buf_lines content)).1.
Proof.
  intros Hcr. unfold gc_lines. cbn [fst].
  set (full := List.filter (fun line => negb (is_empty (trim line))) (buf_lines content)).
  assert (H : forall l, l ∈ List.filter (kept (omap (stale_id limit) (buf_lines content))) full -> l ∈ full).
  { intros l. rewrite !list_elem_of_In. by intros [H _]%filter_In. }
  apply joined_read; apply Forall_forall; intros l Hl%H%list_elem_of_In%filter_In; destruct Hl as [Hl Ht].
  - pose proof (buf_lines_plain content Hcr) as Hp. rewrite Forall_forall in Hp. apply Hp. by apply list_elem_of_In.
  - by destruct l.
Qed.

Lemma gc_keeps_replay limit content : contains_byte cr content = false ->
  (forall id, id ∈ stale_ids limit content -> replayed content !! id = None) ->
  replayed (joined_lines (gc_lines limit (buf_lines content)).1) = replayed content.
Proof.
  intros Hcr Hs. unfold replayed at 1. rewrite gc_kept_read by done.
  destruct (kept_replay (stale_ids limit content) (buf_lines content) ∅ ∅) as [H1 H2]; [done|intros; apply lookup_empty|].
  apply map_eq. intros id. destruct (decide (id ∈ stale_ids limit content)) as [Hid|Hid]; [|by apply H1].
  transitivity (@None PendingApproval); [by apply H2|]. symmetry. by apply Hs.
Qed.

(** Compaction never loses an undecided request, whatever fails or wherever it is
    killed: in every state of the disk the log replays as it did before, if no request came
    back under an id that was resolved long ago.  What it drops on success is counted. *)
Theorem gc_keeps no_parent path io days d file :
  d !! path = Some file -> contains_byte cr (file_content file) = false ->
  (forall id, id ∈ stale_ids (cutoff (unix_now (gc_clock io)) days) (file_content file) -> replayed (file_content file) !! id = None) ->
  let '(r, trace) := gc_older_than no_parent path io days d in
  Forall (fun d' => exists file', d' !! path = Some file' /\ replayed (file_content file') = replayed (file_content file)) trace /\
  (forall n, r = Ok n -> n = (gc_lines (cutoff (unix_now (gc_clock io)) days) (buf_lines (file_content file))).2 /\
     exists file', last trace ≫= (.!! path) = Some file' /\
       ((0 < n)%nat -> buf_lines (file_content file') =
          (gc_lines (cutoff (unix_now (gc_clock io)) days) (buf_lines (file_content file))).1)).
Proof.
  intros Hd Hcr Hs. unfold gc_older_than. rewrite Hd.
  set (limit := cutoff _ days) in *.
  assert (Hsame : Forall (fun d' : FS => exists file', d' !! path = Some file' /\ replayed (file_content file') = replayed (file_content file)) [d])
    by (constructor; [by exists file|done]).
  unfold read_log. destruct (gc_read_err io); [by split|]. destruct (utf8 (file_content file)); [|by split].
  pose proof (gc_kept_read limit _ Hcr) as Hk. pose proof (gc_keeps_replay limit _ Hcr Hs) as Hr.
  destruct (gc_lines limit (buf_lines (file_content file))) as [keep n]. cbn [fst snd] in *.
  destruct (0 <? n)%nat eqn:Hn; [|split; [done|intros ? [= <-]; split; [done|]; exists file; split; [done|intros Hlt; exfalso; apply Nat.ltb_ge in Hn; lia]]].
  pose proof (write_atomic_replaced no_parent (gc_dir_err io) (gc_faults io) path (joined_lines keep) MODE_PRIVATE_FILE
    (gc_pid io) (gc_nanos io) (gc_seq io) d) as Hw.
  pose proof (write_atomic_states no_parent (gc_dir_err io) (gc_faults io) path (joined_lines keep) MODE_PRIVATE_FILE
    (gc_pid io) (gc_nanos io) (gc_seq io) d) as Hne.
  destruct (write_atomic _ _ _ _ _ _ _ _ _ _) as [r trace]. destruct Hw as [Ha Hf]. split.
  - eapply Forall_impl; [exact Ha|]. intros d' [H|H]; rewrite H; [by exists file|]. eexists. by split.
  - cbn in Hne. destruct r as [u|e]; cbn; intros m [= <-]. split; [done|]. destruct (last trace) as [d'|] eqn:Hl.
    + cbn in *. rewrite Hf. eexists. by split.
    + by apply last_None in Hl as ->.
Qed.
(** ** What the code does besides *)

(** A failed write leaves a part of its line, and the next event is read as one line with it. *)
Lemma torn_append_merges (L : EventJsonLaws E) a part e line : contains_byte lf part = false -> event_to_json e = Ok line ->
  buf_lines ((a +:+ String lf "" +:+ part) +:+ (line +:+ String lf "")) = buf_lines (a +:+ String lf "") ++ [strip_cr (part +:+ line)].
Proof.
  intros Hp Hj. destruct (L e line Hj) as (_ & Hlf & _).
  replace ((a +:+ String lf "" +:+ part) +:+ (line +:+ String lf "")) with (a +:+ String lf ((part +:+ line) +:+ String lf ""))
    by (rewrite <- !app_assoc_str; done).
  rewrite buf_lines_cut. f_equal. unfold buf_lines. rewrite split_char_app; [done|].
  rewrite all_bytes_app. unfold contains_byte in Hp, Hlf. apply negb_false_iff in Hp, Hlf. by rewrite Hp, Hlf.
Qed.

(** With a clock before the epoch no approval is ever over. *)
Lemma no_clock_never_expires io id decision q e ch :
  pending q !! id = Some e -> resp_tx e = Some ch -> (0 < pa_expires_at_unix (approval e))%Z ->
  (resolve None io id decision q).1 = Ok Delivered.
Proof.
  intros He Hc Hx. unfold resolve, take_entry. rewrite He. unfold answer_entry, unix_now. rewrite Hc.
  by destruct (_ <=? 0)%Z eqn:H; [apply Z.leb_le in H; lia|].
Qed.
End Approvals.
