(* ===== verification/ApprovalsDemo.v ===== *)
(** * Concrete approvals

    A one-line text of the log's events, and runs that meet the hypotheses of the theorems
    of Approvals.v. *)

From Stdlib Require Import ZArith Lia Ascii String Bool.
From stdpp Require Import base list strings countable gmap.
From S2P Require Import Prelude Str Files Trace Json DemoText Approvals.

Local Open Scope oc_scope.

#[local] Instance demo_serde : SerdeNumber := {|
  number := Z;
  number_from_f64 := fun _ => None;
  number_as_f64 := fun _ => None;
  number_from_u64 := fun n => n;
  number_eqb := Z.eqb
|}.

(** ** A code of the events *)

Fixpoint value_tree (v : Value) : gen_tree (bool + Z + string) :=
  match v with
  | Null => GenNode 0 []
  | Bool b => GenLeaf (inl (inl b))
  | Number n => GenLeaf (inl (inr n))
  | VString s => GenLeaf (inr s)
  | Array l => GenNode 1 (map value_tree l)
  | Object m => GenNode 2 (map (fun kv => GenNode 3 [GenLeaf (inr kv.1); value_tree kv.2]) m)
  end.

Fixpoint tree_value (t : gen_tree (bool + Z + string)) : Value :=
  match t with
  | GenLeaf (inl (inl b)) => Bool b
  | GenLeaf (inl (inr n)) => Number n
  | GenLeaf (inr s) => VString s
  | GenNode 1 l => Array (map tree_value l)
  | GenNode 2 m =>
      Object (map (fun t => match t with GenNode _ [GenLeaf (inr k); v] => (k, tree_value v) | _ => ("", Null) end) m)
  | _ => Null
  end.

Lemma tree_value_tree v : tree_value (value_tree v) = v.
Proof.
  revert v. fix IH 1. intros [| | | |l|m]; cbn; try done; f_equal.
  - induction l as [|v l IHl]; [done|]. cbn. by rewrite IH, IHl.
  - induction m as [|[k v] m IHm]; [done|]. cbn. by rewrite IH, IHm.
Qed.

#[local] Instance value_eq_dec : EqDecision Value.
Proof.
  intros a b. destruct (decide (value_tree a = value_tree b)) as [H|H].
  - left. by rewrite <- (tree_value_tree a), <- (tree_value_tree b), H.
  - right. by intros ->.
Defined.

#[local] Instance value_countable : Countable Value := inj_countable' value_tree tree_value tree_value_tree.

Definition of_rank (n : nat) : RiskLevel := match n with 0 => Safe | 1 => Warning | 2 => Danger | _ => Forbidden end.
#[local] Instance risk_countable : Countable RiskLevel.
Proof. refine (inj_countable' risk_rank of_rank _). by intros []. Defined.

#[local] Instance source_eq_dec : EqDecision RiskSource.
Proof. solve_decision. Defined.
#[local] Instance source_countable : Countable RiskSource.
Proof.
  refine (inj_countable' (fun s => match s with SourcePolicy => 0 | SourceSimulation => 1 | SourceHeuristic => 2 end)
    (fun n : nat => match n with 0 => SourcePolicy | 1 => SourceSimulation | _ => SourceHeuristic end) _). by intros [].
Defined.

#[local] Instance direction_eq_dec : EqDecision TokenDirection.
Proof. solve_decision. Defined.
#[local] Instance direction_countable : Countable TokenDirection.
Proof.
  refine (inj_countable' (fun d => match d with TokenSend => true | TokenReceive => false end)
    (fun b : bool => if b then TokenSend else TokenReceive) _). by intros [].
Defined.

#[local] Instance delta_eq_dec : EqDecision TokenDelta.
Proof. solve_decision. Defined.
#[local] Instance delta_countable : Countable TokenDelta.
Proof.
  refine (inj_countable' (fun d => (token d, direction d, amount d))
    (fun '(t, d, a) => {| token := t; direction := d; amount := a |}) _). by intros [].
Defined.

#[local] Instance siwx_eq_dec : EqDecision SiwxSummary.
Proof. solve_decision. Defined.
#[local] Instance siwx_countable : Countable SiwxSummary.
Proof.
  refine (inj_countable' (fun s => (ss_domain s, ss_address s, ss_uri s, ss_chain_name s, ss_nonce s, ss_issued_at s,
      ss_expiration_time s, ss_resources s))
    (fun '(a, b, c, d, e, f, g, h) => {| ss_domain := a; ss_address := b; ss_uri := c; ss_chain_name := d; ss_nonce := e;
      ss_issued_at := f; ss_expiration_time := g; ss_resources := h |}) _). by intros [].
Defined.

#[local] Instance reason_eq_dec : EqDecision RiskReason.
Proof. solve_decision. Defined.
#[local] Instance reason_countable : Countable RiskReason.
Proof.
  refine (inj_countable' (fun r => (rr_code r, rr_level r, rr_message r, rr_source r, rr_detail r))
    (fun '(a, b, c, d, e) => {| rr_code := a; rr_level := b; rr_message := c; rr_source := d; rr_detail := e |}) _). by intros [].
Defined.

#[local] Instance action_eq_dec : EqDecision DecodedAction.
Proof. solve_decision. Defined.
#[local] Instance action_countable : Countable DecodedAction.
Proof.
  refine (inj_countable' (fun r => (contract_name r, function_name r, da_args r, human_readable r))
    (fun '(a, b, c, d) => {| contract_name := a; function_name := b; da_args := c; human_readable := d |}) _). by intros [].
Defined.

#[local] Instance simulation_eq_dec : EqDecision TxSimulation.
Proof. solve_decision. Defined.
#[local] Instance simulation_countable : Countable TxSimulation.
Proof.
  refine (inj_countable' (fun r => (sim_success r, sim_gas_used r, sim_balance_change r, sim_decoded_action r, sim_error r))
    (fun '(a, b, c, d, e) => {| sim_success := a; sim_gas_used := b; sim_balance_change := c; sim_decoded_action := d; sim_error := e |}) _).
  by intros [].
Defined.

#[local] Instance approval_eq_dec : EqDecision PendingApproval.
Proof. solve_decision. Defined.
#[local] Instance approval_countable : Countable PendingApproval.
Proof.
  refine (inj_countable' (fun r => (pa_id r, pa_method r, pa_params r, pa_dapp_name r, pa_dapp_origin r, pa_chain_id r,
      (pa_risk r, pa_risk_reasons r, pa_simulation r, pa_siwx_summary r, pa_created_at_unix r, pa_expires_at_unix r)))
    (fun '(a, b, c, d, e, f, (g, h, i, j, k, l)) => {| pa_id := a; pa_method := b; pa_params := c; pa_dapp_name := d;
      pa_dapp_origin := e; pa_chain_id := f; pa_risk := g; pa_risk_reasons := h; pa_simulation := i; pa_siwx_summary := j;
      pa_created_at_unix := k; pa_expires_at_unix := l |}) _).
  by intros [].
Defined.

#[local] Instance event_eq_dec : EqDecision ApprovalLogEvent.
Proof. solve_decision. Defined.
#[local] Instance event_countable : Countable ApprovalLogEvent.
Proof.
  refine (inj_countable' (fun e => match e with Pending i t a => inl (i, t, a) | Resolved i t d r => inr (i, t, d, r) end)
    (fun s => match s with inl (i, t, a) => Pending i t a | inr (i, t, d, r) => Resolved i t d r end) _).
  by intros [].
Defined.

#[local] Instance demo_events : EventJson (io_error := string) (json_error := string) := {|
  event_to_json e := Ok (to_text e);
  event_from_json s := match of_text s with Some e => Ok e | None => Err s end;
  io_other s := s
|}.

#[local] Instance demo_events_laws : EventJsonLaws demo_events.
Proof.
  intros e s [= <-]. destruct (to_text_line e) as (H1 & H2 & H3 & H4). split; [unfold event_from_json, demo_events; by rewrite of_to_text|].
  split; [|done]. unfold contains_byte. by rewrite H1.
Qed.

(** ** Two threads answer one request *)

Definition demo_approval (id : string) : PendingApproval := {|
  pa_id := id; pa_method := "personal_sign"; pa_params := Null; pa_dapp_name := "dapp"; pa_dapp_origin := "https://dapp";
  pa_chain_id := "eip155:1"; pa_risk := Warning; pa_risk_reasons := []; pa_simulation := None; pa_siwx_summary := None;
  pa_created_at_unix := 100; pa_expires_at_unix := 400 |}.

Definition demo_io : AppendIo (io_error := string) := {| append_open_err := None; append_write_err := None; append_clock := Some 100%Z |}.

Definition demo_start : Queue := restart (fun l => l) None "utf8" "".

(** A call that starts, and a step of the call at a place. *)
Definition asks (a : PendingApproval) (ch : nat) (s : System) : System :=
  {| tasks := Inserting a ch :: tasks s; queue := queue s;
     used_ids := pa_id a :: used_ids s; used_channels := ch :: used_channels s; given := given s |}.

Definition decides (id : string) (d : ApprovalDecision) (s : System) : System :=
  {| tasks := Resolving id d :: tasks s; queue := queue s;
     used_ids := used_ids s; used_channels := used_channels s; given := (id, d) :: given s |}.

Definition moves (n : nat) (now : Z) (s : System) : System :=
  match tasks s !! n with
  | Some t => advance s (take n (tasks s)) (task_step (Some now) demo_io t (queue s)) (drop (Datatypes.S n) (tasks s))
  | None => s
  end.

Lemma moves_step n now s : rtc (sys_step smooth) s (moves n now s).
Proof.
  unfold moves. destruct (tasks s !! n) as [t|] eqn:Ht; [|done]. apply rtc_once.
  apply (one_step smooth s _ t _ (Some now) demo_io); [done|]. by rewrite take_drop_middle.
Qed.

Definition waits : System := moves 0 100 (moves 0 100 (moves 0 100 (asks (demo_approval "a") 7 (started demo_start)))).

(** The second call finds no entry: it took its step after the first. *)
Definition race : System :=
  Nat.iter 4 (moves 0 200) (Nat.iter 4 (moves 1 200) (decides "a" (Reject "no") (decides "a" Approve waits))).

Lemma waits_reached : rtc (sys_step smooth) (started demo_start) waits.
Proof.
  eapply rtc_l; [apply (start_insert smooth (started demo_start) (demo_approval "a") 7)|].
  - intros H. by apply not_elem_of_nil in H.
  - intros H. by apply not_elem_of_nil in H.
  - do 3 (etransitivity; [|apply moves_step]). done.
Qed.

Lemma moves_many n k now s : rtc (sys_step smooth) s (Nat.iter k (moves n now) s).
Proof. induction k as [|k IH]; [done|]. cbn. etransitivity; [exact IH|apply moves_step]. Qed.

Lemma race_reached : rtc (sys_step smooth) (started demo_start) race.
Proof.
  etransitivity; [apply waits_reached|]. eapply rtc_l; [apply (start_resolve smooth waits "a" Approve)|].
  eapply rtc_l; [apply (start_resolve smooth _ "a" (Reject "no"))|]. unfold race.
  etransitivity; [|apply moves_many]. apply moves_many.
Qed.

Lemma answered_once_witness :
  map sent_decision (sent (queue race)) = [Approve] /\
  NoDup (map sent_to (sent (queue race))) /\ Forall (honest (given race)) (sent (queue race)).
Proof.
  split; [vm_compute; reflexivity|]. apply (answered_once (fun l => l) None "utf8" "" smooth). exact race_reached.
Defined.

Lemma keyed_empty : keyed_log "".
Proof. intros id a. unfold replayed. cbn. by rewrite lookup_empty. Qed.

(** The server is killed while the request waits. *)
Lemma restart_recovers_witness :
  map fst (alive waits) = ["a"] /\
  exists file', log_file (queue waits) = Some file' /\
    pending (restart (fun l => l) None "utf8" file') = orphan <$> list_to_map (alive waits) /\
    (Forall (eq Finished) (tasks waits) ->
     pending (restart (fun l => l) None "utf8" file') = (orphan ∘ approval) <$> pending (queue waits)).
Proof.
  split; [vm_compute; reflexivity|].
  apply (restart_recovers demo_events_laws (fun _ => eq_refl) (fun l => l) (fun l => l) "utf8" "utf8" "" waits).
  - done.
  - done.
  - by left.
  - done.
  - apply keyed_empty.
  - exact waits_reached.
Defined.

(** ** An old request is compacted away, a waiting one stays *)

Definition demo_lines : list ApprovalLogEvent :=
  [Pending "a" 100 (demo_approval "a"); Pending "b" 150 (demo_approval "b"); Resolved "a" 200 "approved" ""].

Fixpoint logged_text (events : list ApprovalLogEvent) : string :=
  match events with [] => "" | e :: events' => to_text e +:+ String lf (logged_text events') end.

Lemma to_text_no_cr (e : ApprovalLogEvent) : contains_byte cr (to_text e) = false.
Proof.
  unfold contains_byte. apply negb_false_iff. eapply all_bytes_impl; [|apply to_text_bits].
  by intros c [->|[->|[->| ->]]]%is_bit_cases.
Qed.

Lemma logged_text_lines events : buf_lines (logged_text events) = map to_text events /\ contains_byte cr (logged_text events) = false.
Proof.
  induction events as [|e events [IH1 IH2]]; [done|]. cbn [logged_text map]. split.
  - rewrite buf_lines_row; [by rewrite IH1| |apply to_text_no_cr].
    destruct (to_text_line e) as [H _]. unfold contains_byte. by rewrite H.
  - rewrite contains_byte_app, to_text_no_cr, contains_byte_cons, IH2. done.
Qed.

Lemma event_read (e : ApprovalLogEvent) : event_from_json (to_text e) = Ok e.
Proof. unfold event_from_json, demo_events. by rewrite of_to_text. Qed.

Definition demo_gc : GcIo (io_error := string) := {|
  gc_read_err := None; gc_bad_utf8 := "utf8"; gc_missing := "missing"; gc_clock := Some 1000000%Z; gc_dir_err := None;
  gc_faults := demo_faults; gc_pid := 1; gc_nanos := 2; gc_seq := 3 |}.

Definition demo_log_at : Path := log_path "/state".
Definition demo_log_entry : File := {| file_mode := MODE_PRIVATE_FILE; file_content := logged_text demo_lines |}.
Definition demo_disk : FS := {[demo_log_at := demo_log_entry]}.

Lemma demo_stale : stale_ids 395200 (logged_text demo_lines) = ["a"].
Proof.
  unfold stale_ids. rewrite (proj1 (logged_text_lines demo_lines)). unfold demo_lines. cbn [map omap list_omap].
  unfold stale_id. rewrite !event_read. done.
Qed.

Lemma demo_replayed : replayed (logged_text demo_lines) !! "a" = None.
Proof.
  unfold replayed. rewrite (proj1 (logged_text_lines demo_lines)). unfold demo_lines. cbn [map fold_left].
  unfold replay_line. rewrite !event_read. destruct (to_text_line (Resolved "a" 200 "approved" "")) as (_ & _ & _ & ->).
  apply lookup_delete_eq.
Qed.

Lemma gc_keeps_witness :
  let '(r, trace) := gc_older_than (fun _ => "no parent") demo_log_at demo_gc 7 demo_disk in
  Forall (fun d' => exists file', d' !! demo_log_at = Some file' /\ replayed (file_content file') = replayed (logged_text demo_lines)) trace /\
  (forall n, r = Ok n -> n = (gc_lines 395200 (buf_lines (logged_text demo_lines))).2 /\
     exists file', last trace ≫= (.!! demo_log_at) = Some file' /\
       ((0 < n)%nat -> buf_lines (file_content file') = (gc_lines 395200 (buf_lines (logged_text demo_lines))).1)).
Proof.
  apply (gc_keeps (fun _ => "no parent") demo_log_at demo_gc 7 demo_disk demo_log_entry).
  - apply lookup_singleton_eq.
  - apply (proj2 (logged_text_lines demo_lines)).
  - intros id. change (cutoff (unix_now (gc_clock demo_gc)) 7) with 395200%Z. cbn [demo_log_entry file_content].
    rewrite demo_stale. intros ->%list_elem_of_singleton. apply demo_replayed.
Defined.
