(* ===== verification/Sim.v ===== *)
(** * Reading a transaction for the approval card

    crates/oc-netagent/src/sim: the decoder of EVM transactions (rlp.rs), the selector map
    (abi_cache.rs), the decoder of calldata (abi_decode.rs) and the simulation (mod.rs).
    hex and alloy-dyn-abi are arguments. *)

From Stdlib Require Import ZArith Lia Ascii String Bool.
From stdpp Require Import base list strings gmap.
From S2P Require Import Prelude Str Decimal Json Bytes Rlp Approvals DemoText.

Local Open Scope oc_scope.
Local Open Scope Z_scope.

(** ** rlp.rs *)

Record TxFields := { tx_to : option bytes; tx_value : Z; tx_data : bytes }.

Definition be_usize (bs : bytes) : Z := fold_left (fun out b => Z.lor (usize_shl out 8) b) bs 0.

Definition be_u128 (bs : bytes) : Z :=
  if 16 <? len bs then u128_max
  else fold_left (fun out b => Z.lor (Z.land (Z.shiftl out 8) (Z.ones 128)) b) bs 0.

(** [tx.get(a..b)]. *)
Definition get_range (tx : bytes) (a b : Z) : option bytes :=
  if (a <=? b) && (b <=? len tx) then Some (take (Z.to_nat (b - a)) (drop (Z.to_nat a) tx)) else None.

Definition list_header (tx : bytes) (start : Z) : result string (Z * Z) :=
  match tx !! Z.to_nat start with
  | None => Err "truncated list header"
  | Some prefix =>
      if (0xc0 <=? prefix) && (prefix <=? 0xf7) then Ok (start + 1, prefix - 0xc0)
      else if 0xf8 <=? prefix then
        let len_bytes := prefix - 0xf7 in
        match get_range tx (start + 1) (start + 1 + len_bytes) with
        | None => Err "truncated long-list length"
        | Some bs => Ok (start + 1 + len_bytes, be_usize bs)
        end
      else Err "expected list header"
  end.

(** Where the item that starts [rest] has its content, and how long that is. *)
Definition item_bounds (rest : bytes) (prefix : Z) : result string (Z * Z) :=
  if prefix <=? 0x7f then Ok (0, 1)
  else if (0x80 <=? prefix) && (prefix <=? 0xb7) then Ok (1, prefix - 0x80)
  else if (0xb8 <=? prefix) && (prefix <=? 0xbf) then
    let len_bytes := prefix - 0xb7 in
    match get_range rest 1 (1 + len_bytes) with
    | None => Err "truncated long-string length"
    | Some bs => Ok (1 + len_bytes, be_usize bs)
    end
  else if (0xc0 <=? prefix) && (prefix <=? 0xf7) then Ok (1, prefix - 0xc0)
  else
    let len_bytes := prefix - 0xf7 in
    match get_range rest 1 (1 + len_bytes) with
    | None => Err "truncated long-list length"
    | Some bs => Ok (1 + len_bytes, be_usize bs)
    end.

(** The loop: [rest] is the payload from [pos].  Every turn takes a byte, so that the
    length of the payload is enough fuel. *)
Fixpoint split_at_pos (fuel : nat) (pos : Z) (rest : bytes) : result string (list bytes) :=
  match fuel, rest with
  | _, [] => Ok []
  | O, _ => Ok []
  | S fuel', prefix :: _ =>
      let? '(off, item_len) := item_bounds rest prefix in
      if 2 ^ 64 <=? pos + off + item_len then Err "item length overflow"
      else if len rest <? off + item_len then Err ("truncated RLP item at offset " +:+ fmt_Z pos)
      else
        let next := Z.to_nat (off + item_len) in
        let? items := split_at_pos fuel' (pos + off + item_len) (drop next rest) in
        Ok (take (Z.to_nat item_len) (drop (Z.to_nat off) rest) :: items)
  end.

Definition split_items (payload : bytes) : result string (list bytes) := split_at_pos (length payload) 0 payload.

(** The envelope: where the list starts, how many items it needs, and where [to], [value]
    and [data] are among them. *)
Definition envelope_of (b : Z) : option (Z * nat * (nat * nat * nat)) :=
  if 0xc0 <=? b then Some (0, 9%nat, (3, 4, 5)%nat)
  else if b =? 1 then Some (1, 11%nat, (4, 5, 6)%nat)
  else if b =? 2 then Some (1, 12%nat, (5, 6, 7)%nat)
  else if b =? 3 then Some (1, 14%nat, (5, 6, 7)%nat)
  else None.

Definition to_field (item : bytes) : result string (option bytes) :=
  match item with
  | [] => Ok None
  | _ => if len item =? 20 then Ok (Some item) else Err "to field is not a 20-byte address"
  end.

Definition decode_tx_fields (tx : bytes) : result string TxFields :=
  match tx with
  | [] => Err "empty transaction"
  | b :: _ =>
      match envelope_of b with
      | None => Err "unsupported transaction envelope byte"
      | Some (start, item_count, (to_idx, value_idx, data_idx)) =>
          let? '(list_offset, list_len) := list_header tx start in
          match get_range tx list_offset (usize_add list_offset list_len) with
          | None => Err "truncated RLP list payload"
          | Some payload =>
              let? items := split_items payload in
              if (length items <? item_count)%nat then
                Err ("transaction list has " +:+ fmt_Z (Z.of_nat (length items)) +:+ " items, expected at least " +:+
                     fmt_Z (Z.of_nat item_count))
              else
                let? to := to_field (nth to_idx items []) in
                Ok {| tx_to := to; tx_value := be_u128 (nth value_idx items []); tx_data := nth data_idx items [] |}
          end
      end
  end.

(** ** mod.rs: amounts *)

Definition ONE_ETH : Z := 1000000000000000000.
Definition ONE_GWEI : Z := 1000000000.

(** [trim_end_matches('0')]. *)
Fixpoint trim_zeros (s : string) : string :=
  match s with
  | EmptyString => ""
  | String c s' => let t := trim_zeros s' in if is_empty t && Ascii.eqb c "0" then "" else String c t
  end.

Definition format_wei (wei : Z) : string :=
  if wei =? 0 then "0"
  else if wei <? ONE_GWEI then fmt_Z wei +:+ " wei"
  else
    let whole := wei / ONE_ETH in
    let frac := wei mod ONE_ETH in
    if frac =? 0 then fmt_Z whole
    else
      let trimmed := trim_zeros (fmt_padded 18 frac) in
      if is_empty trimmed then fmt_Z whole else fmt_Z whole +:+ "." +:+ trimmed.

(** ** abi_cache.rs *)

Record AbiParam := { param_name : string; param_type : string }.
Record AbiFunction := { fn_name : string; fn_selector : string; fn_inputs : list AbiParam }.
Record ContractAbi := { abi_contract : string; abi_functions : list AbiFunction }.
Record ResolvedFunction := { rf_contract : string; rf_name : string; rf_inputs : list AbiParam }.

Abbreviation SelectorMap := (gmap string (list ResolvedFunction)).

Section Abi.
Context `{L : Lowercase}.

Definition selector_key (selector : string) : string := to_lowercase (default selector (strip_prefix "0x" selector)).

Definition candidates_of (m : SelectorMap) (key : string) : list ResolvedFunction := default [] (m !! key).

Definition is_dup (contract name : string) (existing : ResolvedFunction) : bool :=
  String.eqb (rf_contract existing) contract && String.eqb (rf_name existing) name.

Definition insert_function (contract : string) (m : SelectorMap) (func : AbiFunction) : SelectorMap :=
  let key := selector_key (fn_selector func) in
  let entry := candidates_of m key in
  if existsb (is_dup contract (fn_name func)) entry then <[key := entry]> m
  else <[key := entry ++ [{| rf_contract := contract; rf_name := fn_name func; rf_inputs := fn_inputs func |}]]> m.

Definition insert_functions (m : SelectorMap) (contracts : list ContractAbi) : SelectorMap :=
  fold_left (fun m c => fold_left (insert_function (abi_contract c)) (abi_functions c) m) contracts m.

(** The curated ABIs go in first; those of the user's cache directory after them. *)
Definition global_map (curated user : list ContractAbi) : SelectorMap := insert_functions (insert_functions ∅ curated) user.

Definition disambiguate (candidates : list ResolvedFunction) (hint : option string) : option ResolvedFunction :=
  match candidates with
  | [] => None
  | [c] => Some c
  | c :: _ =>
      match hint with
      | Some h => Some (default c (List.find (fun c => eq_ignore_ascii_case (rf_contract c) h) candidates))
      | None => Some c
      end
  end.
End Abi.

(** ** abi_decode.rs *)

(** [DynSolValue]: the variants the code matches, an address by its debug text. *)
Inductive SolValue :=
| SolAddress (text : string)
| SolBool (b : bool)
| SolUint (n : Z)
| SolInt (n : Z)
| SolFixedBytes (bs : bytes) (size : nat)
| SolBytes (bs : bytes)
| SolString (s : string)
| SolArray (items : list SolValue)
| SolFixedArray (items : list SolValue)
| SolTuple (items : list SolValue)
| SolFunction (bs : bytes).

(** alloy-dyn-abi: types from their names, the decoder of a parameter tuple, and whether a
    type is an address, a bool or an integer, with the decoder of its word. *)
Class DynAbi := {
  sol_type : Type;
  parse_type : string -> option sol_type;
  abi_decode_params : list sol_type -> bytes -> option (list SolValue);
  word_type : sol_type -> bool;
  abi_decode : sol_type -> bytes -> option SolValue
}.

(** The hex crate. *)
Class HexCodec := {
  hex_encode : bytes -> string;
  hex_decode : string -> result string bytes
}.

Section Decode.
Context {S : SerdeNumber} {D : DynAbi} {H : HexCodec}.
(** [Value::to_string]. *)
Context (json_text : Value -> string).

Fixpoint sol_value_to_json (v : SolValue) : Value :=
  match v with
  | SolAddress a => VString a
  | SolBool b => Bool b
  | SolUint n | SolInt n => VString (fmt_Z n)
  | SolFixedBytes bs size => VString ("0x" +:+ hex_encode (take size bs))
  | SolBytes bs | SolFunction bs => VString ("0x" +:+ hex_encode bs)
  | SolString s => VString s
  | SolArray items | SolFixedArray items | SolTuple items => Array (map sol_value_to_json items)
  end.

Definition decode_static_word (word : bytes) (ty : string) : Value :=
  let raw := VString ("0x" +:+ hex_encode word) in
  match parse_type ty with
  | Some t => if word_type t then match abi_decode t word with Some v => sol_value_to_json v | None => raw end else raw
  | None => raw
  end.

(** The value the fallback reads for the parameter at place [i]. *)
Definition slot_value (data : bytes) (i : nat) (input : AbiParam) : Value :=
  let offset := (i * 32)%nat in
  if (length data <? offset + 32)%nat then
    VString ("error: insufficient data for " +:+ param_type input +:+ ": need 32 bytes at offset " +:+
      fmt_Z (Z.of_nat offset) +:+ ", have " +:+ fmt_Z (Z.of_nat (length data - offset)))
  else decode_static_word (take 32 (drop offset data)) (param_type input).

Fixpoint fallback_args (data : bytes) (i : nat) (inputs : list AbiParam) (args : list (string * Value)) : list (string * Value) :=
  match inputs with
  | [] => args
  | input :: inputs' =>
      fallback_args data (i + 1) inputs' (object_insert (param_name input) (slot_value data i input) args)
  end.

Definition whole_args (inputs : list AbiParam) (values : list SolValue) : list (string * Value) :=
  fold_left (fun args iv => object_insert (param_name iv.1) (sol_value_to_json iv.2) args) (zip inputs values) [].

Definition decode_params (data : bytes) (inputs : list AbiParam) : Value :=
  match mapM (fun p => parse_type (param_type p)) inputs with
  | Some [] => Object []
  | Some types =>
      match abi_decode_params types data with
      | Some values => Object (whole_args inputs values)
      | None => Object (fallback_args data 0 inputs [])
      end
  | None => Object (fallback_args data 0 inputs [])
  end.

(** The slices are of texts of one-byte characters. *)
Definition shorten_address (addr : string) : string :=
  let stripped := default addr (strip_prefix "0x" addr) in
  let n := String.length stripped in
  if (10 <? n)%nat then "0x" +:+ substring 0 4 stripped +:+ "…" +:+ substring (n - 4) 4 stripped else addr.

Fixpoint join_comma (l : list string) : string :=
  match l with [] => "" | [x] => x | x :: l' => x +:+ ", " +:+ join_comma l' end.

Fixpoint render_value (v : Value) (ty : string) : string :=
  match v with
  | VString s => if String.eqb ty "address" then shorten_address s else s
  | Bool b => if b then "true" else "false"
  | Array items =>
      let elem_ty := default "" (strip_suffix "[]" ty) in
      "[" +:+ join_comma (map (fun i => render_value i elem_ty) items) +:+ "]"
  | _ => json_text v
  end.

Definition format_hr (fn contract : string) (ambiguous : bool) (inputs : list AbiParam) (args : Value) : string :=
  let part input :=
    param_name input +:+ "=" +:+
      match value_get (param_name input) args with Some v => render_value v (param_type input) | None => "?" end in
  let prefix := if ambiguous then contract +:+ "::" else "" in
  match map part inputs with
  | [] => prefix +:+ fn
  | parts => prefix +:+ fn +:+ "(" +:+ join_comma parts +:+ ")"
  end.

Definition decode_calldata_hinted (m : SelectorMap) (calldata : bytes) (known_contract : option string) : option DecodedAction :=
  if (length calldata <? 4)%nat then None
  else
    let candidates := candidates_of m (hex_encode (take 4 calldata)) in
    match disambiguate candidates known_contract with
    | None => None
    | Some func =>
        let args := decode_params (drop 4 calldata) (rf_inputs func) in
        Some {| contract_name := rf_contract func; function_name := rf_name func; da_args := args;
                human_readable := format_hr (rf_name func) (rf_contract func) (1 <? length candidates)%nat (rf_inputs func) args |}
    end.

Definition decode_calldata (m : SelectorMap) (calldata : bytes) : option DecodedAction := decode_calldata_hinted m calldata None.

Definition decode_calldata_hex (m : SelectorMap) (hex_str : string) : option DecodedAction :=
  match hex_decode (default hex_str (strip_prefix "0x" hex_str)) with
  | Ok bs => decode_calldata m bs
  | Err _ => None
  end.

(** ** mod.rs: the simulation *)

Inductive SimError :=
| HexDecode (msg : string)
| TxDecode (msg : string)
| Execution (msg : string)
| NotAvailable (msg : string).

Definition NATIVE_TRANSFER_GAS : Z := 21000.

Definition simulate_evm_tx_sync (m : SelectorMap) (hex chain_id : string) : result SimError TxSimulation :=
  let trimmed := trim hex in
  let stripped := default trimmed (strip_prefix "0x" trimmed) in
  let? tx_bytes := result_map_err HexDecode (hex_decode stripped) in
  let? fields := result_map_err TxDecode (decode_tx_fields tx_bytes) in
  if is_nil (tx_data fields) then
    Ok {| sim_success := true; sim_gas_used := NATIVE_TRANSFER_GAS;
          sim_balance_change := [{| token := "ETH"; direction := TokenSend; amount := format_wei (tx_value fields) |}];
          sim_decoded_action := None; sim_error := None |}
  else
    Ok {| sim_success := true; sim_gas_used := 0; sim_balance_change := [];
          sim_decoded_action := decode_calldata m (tx_data fields); sim_error := None |}.

(** [join_err]: the thread of the work did not end well. *)
Definition simulate_evm_tx (m : SelectorMap) (join_err : option string) (raw_tx_hex chain_id : string) : result SimError TxSimulation :=
  let hex := default raw_tx_hex (strip_prefix "0x" (trim raw_tx_hex)) in
  match join_err with
  | Some e => Err (Execution ("task join error: " +:+ e))
  | None => simulate_evm_tx_sync m hex chain_id
  end.
End Decode.

(** ** The decoder against the encoder *)

Lemma get_range_app a b c : get_range (a ++ b ++ c) (len a) (len a + len b) = Some b.
Proof.
  unfold get_range. rewrite !len_app. pose proof (len_nonneg b). pose proof (len_nonneg c).
  rewrite (proj2 (Z.leb_le _ _)), (proj2 (Z.leb_le _ _)) by lia. cbn [andb]. f_equal.
  replace (Z.to_nat (len a)) with (length a) by (unfold len; lia). rewrite drop_app_length.
  replace (Z.to_nat (len a + len b - len a)) with (length b) by (unfold len; lia). apply take_app_length.
Qed.

(** The long forms. *)
Lemma long_range prefix tl k off n : 0 <= k -> decode_long (prefix :: tl) k = Ok (off, n) ->
  off = 1 + k /\ exists bs, get_range (prefix :: tl) 1 (1 + k) = Some bs /\ be_usize bs = n.
Proof.
  intros Hk. unfold decode_long. destruct (Z.ltb_spec (len (prefix :: tl)) (1 + k)) as [|Hl]; [done|]. intros [= <- <-].
  split; [done|]. unfold get_range. rewrite (proj2 (Z.leb_le _ _)), (proj2 (Z.leb_le _ _)) by lia. cbn [andb].
  eexists. split; [done|]. replace (Z.to_nat (1 + k - 1)) with (Z.to_nat k) by lia. done.
Qed.

Lemma item_bounds_decode prefix tl off n : is_byte prefix -> decode_length (prefix :: tl) = Ok (off, n) ->
  item_bounds (prefix :: tl) prefix = Ok (off, n).
Proof.
  intros Hb. unfold is_byte in Hb. unfold item_bounds. cbn [decode_length].
  destruct (Z.leb_spec prefix 0x7f); [by intros [= <- <-]|]. destruct (Z.leb_spec prefix 0xb7) as [H1|H1].
  { rewrite (proj2 (Z.leb_le 0x80 prefix)) by lia. by intros [= <- <-]. }
  rewrite andb_false_r. destruct (Z.leb_spec prefix 0xbf) as [H2|H2].
  - rewrite (proj2 (Z.leb_le 0xb8 prefix)) by lia. cbn [andb].
    intros (-> & bs & -> & ->)%long_range; [done|lia].
  - rewrite andb_false_r. destruct (Z.leb_spec prefix 0xf7) as [H3|H3].
    + rewrite (proj2 (Z.leb_le 0xc0 prefix)) by lia. by intros [= <- <-].
    + rewrite andb_false_r. intros (-> & bs & -> & ->)%long_range; [done|lia].
Qed.

Lemma encode_bytes_first x b e : rlp_ok x -> encode x = b :: e -> is_byte b.
Proof.
  assert (Hlen : forall n offset c l, offset = 0x80 \/ offset = 0xc0 -> 0 <= n -> encode_length n offset = c :: l -> is_byte c).
  { intros n offset c l Ho Hn. unfold encode_length, u8_add, is_byte.
    destruct (Z.ltb_spec n 56); intros [= <- <-]; apply Z.mod_pos_bound; lia. }
  assert (Hcons : forall n offset t c l, offset = 0x80 \/ offset = 0xc0 -> 0 <= n -> encode_length n offset ++ t = c :: l -> is_byte c).
  { intros n offset t c l Ho Hn. pose proof (encode_length_nonempty n offset).
    destruct (encode_length n offset) as [|d h] eqn:E; [done|]. intros [= <- _]. by eapply Hlen. }
  destruct x as [data|items]; cbn [encode rlp_ok].
  - intros [Hb _] He. unfold encode_bytes in He. destruct data as [|c [|c' data]].
    + eapply Hcons; [| |exact He]; [by left|apply len_nonneg].
    + apply Forall_cons in Hb as [Hc _]. destruct (c <? 0x80); [by simplify_eq|].
      eapply Hcons; [| |exact He]; [by left|apply len_nonneg].
    + eapply Hcons; [| |exact He]; [by left|apply len_nonneg].
  - intros _ He. eapply Hcons; [| |exact He]; [by right|apply len_nonneg].
Qed.

Lemma split_at_pos_encoded fuel pos xs :
  Forall rlp_ok xs -> 0 <= pos -> pos + len (concat (map encode xs)) < 2 ^ 64 -> (length xs <= fuel)%nat ->
  split_at_pos fuel pos (concat (map encode xs)) = Ok (map payload_of xs).
Proof.
  intros Hok. revert fuel pos. induction Hok as [|x xs Hx _ IH]; intros fuel pos Hp Hl Hf; [by destruct fuel|].
  destruct fuel as [|fuel]; [simpl in Hf; lia|]. cbn [map concat] in *. destruct (encode_framed x Hx) as (h & Heq & Hdec).
  pose proof (encode_nonempty x) as Hpos. rewrite len_app in Hl. pose proof (len_nonneg (concat (map encode xs))).
  pose proof (f_equal len Heq) as Hlen. rewrite len_app in Hlen. pose proof (len_nonneg h). pose proof (len_nonneg (payload_of x)).
  set (tail := concat (map encode xs)) in *. specialize (Hdec tail).
  destruct (encode x) as [|b e] eqn:Ee; [done|]. cbn [app split_at_pos] in *.
  rewrite (item_bounds_decode b (e ++ tail) _ _ (encode_bytes_first x b e Hx Ee) Hdec). cbn [result_bind].
  rewrite (proj2 (Z.leb_gt _ _)) by lia. change (b :: e ++ tail) with ((b :: e) ++ tail). rewrite len_app, (proj2 (Z.ltb_ge _ _)) by lia.
  replace (Z.to_nat (len h + len (payload_of x))) with (length (b :: e)) by (unfold len in *; lia).
  rewrite drop_app_length, IH by (lia || (simpl in Hf; lia)). cbn [result_bind]. rewrite Heq, <- app_assoc.
  replace (Z.to_nat (len h)) with (length h) by (unfold len; lia). rewrite drop_app_length.
  replace (Z.to_nat (len (payload_of x))) with (length (payload_of x)) by (unfold len; lia). by rewrite take_app_length.
Qed.

(** The sender's items are the contents the encoder wrote. *)
Lemma split_items_payloads xs : Forall rlp_ok xs -> len (concat (map encode xs)) < 2 ^ 64 ->
  split_items (concat (map encode xs)) = Ok (map payload_of xs).
Proof. intros. apply split_at_pos_encoded; [done|lia|lia|apply concat_length_le]. Qed.

Lemma encode_list_first xs : len (concat (map encode xs)) < 2 ^ 64 ->
  exists b e, encode (List xs) = b :: e /\ 0xc0 <= b <= 0xff.
Proof.
  intros Hl. cbn [encode]. unfold encode_list, encode_length. set (n := len _) in *. pose proof (len_nonneg (concat (map encode xs))) as H0. fold n in H0.
  destruct (Z.ltb_spec n 56); cbn [app]; do 2 eexists; (split; [done|]); unfold u8_add.
  - rewrite (Z.mod_small n), Z.mod_small by lia. lia.
  - pose proof (be_bytes_len n ltac:(lia)). change ((0xc0 + 55) mod 2 ^ 8) with 0xf7. rewrite (Z.mod_small (len _)), Z.mod_small by lia. lia.
Qed.

Lemma list_header_decode pre b e off n : 0xc0 <= b -> decode_length (b :: e) = Ok (off, n) ->
  list_header (pre ++ b :: e) (len pre) = Ok (len pre + off, n).
Proof.
  intros Hb. unfold list_header. replace (Z.to_nat (len pre)) with (length pre) by (unfold len; lia).
  assert (Hlk : @lookup nat Z bytes _ (length pre) (pre ++ b :: e) = Some b) by exact (list_lookup_middle pre e b _ eq_refl).
  rewrite Hlk. cbn [decode_length].
  rewrite (proj2 (Z.leb_gt b 0x7f)), (proj2 (Z.leb_gt b 0xb7)), (proj2 (Z.leb_gt b 0xbf)), (proj2 (Z.leb_le 0xc0 b)) by lia. cbn [andb].
  destruct (Z.leb_spec b 0xf7) as [|Hb']; [by intros [= <- <-]|]. rewrite (proj2 (Z.leb_le 0xf8 b)) by lia.
  intros (-> & bs & Hr & <-)%long_range; [|lia].
  assert (E : get_range (pre ++ b :: e) (len pre + 1) (len pre + 1 + (b - 0xf7)) = Some bs).
  { revert Hr. unfold get_range. rewrite len_app. destruct (Z.leb_spec 1 (1 + (b - 0xf7))); [|lia].
    destruct (Z.leb_spec (1 + (b - 0xf7)) (len (b :: e))) as [Hle|]; [|done]. cbn [andb]. intros [= <-].
    rewrite (proj2 (Z.leb_le _ _)), (proj2 (Z.leb_le _ _)) by lia. cbn [andb]. f_equal.
    replace (Z.to_nat (len pre + 1)) with (length pre + 1)%nat by (unfold len; lia).
    rewrite drop_app_ge by lia. replace (length pre + 1 - length pre)%nat with 1%nat by lia. f_equal. lia. }
  rewrite E. do 2 f_equal. lia.
Qed.

(** An envelope and the transaction in it. *)
Definition enveloped (ty : option Z) (xs : list rlp) : bytes := option_list ty ++ encode (List xs).

Definition envelope_shape (ty : option Z) : nat * (nat * nat * nat) :=
  match ty with
  | None => (9, (3, 4, 5))%nat
  | Some b => if b =? 1 then (11, (4, 5, 6))%nat else if b =? 2 then (12, (5, 6, 7))%nat else (14, (5, 6, 7))%nat
  end.

Definition known_type (ty : option Z) : Prop := ty = None \/ ty = Some 1 \/ ty = Some 2 \/ ty = Some 3.

(** What the decoder makes of every well-formed transaction, of any of the four envelopes. *)
Lemma decode_enveloped ty xs : known_type ty -> rlp_ok (List xs) -> len (encode (List xs)) <= isize_max ->
  let '(item_count, (t, v, d)) := envelope_shape ty in
  decode_tx_fields (enveloped ty xs) =
    if (length xs <? item_count)%nat then
      Err ("transaction list has " +:+ fmt_Z (Z.of_nat (length xs)) +:+ " items, expected at least " +:+ fmt_Z (Z.of_nat item_count))
    else
      let item i := nth i (map payload_of xs) [] in
      let? to := to_field (item t) in Ok {| tx_to := to; tx_value := be_u128 (item v); tx_data := item d |}.
Proof.
  intros Hty [Hok Hl] Hsize. pose proof (rlp_ok_fields xs (conj Hok Hl)) as Hxs.
  pose proof (encode_list_framed _ Hl) as [Happ Hdec]. specialize (Hdec []). rewrite app_nil_r in Hdec.
  change (encode_list (concat (map encode xs))) with (encode (List xs)) in *.
  destruct (encode_list_first xs Hl) as (b & e & He & Hb).
  set (h := encode_length (len (concat (map encode xs))) 0xc0) in *. set (p := concat (map encode xs)) in *.
  assert (Hhead : list_header (enveloped ty xs) (len (option_list ty)) = Ok (len (option_list ty) + len h, len p)).
  { unfold enveloped. rewrite He. apply list_header_decode; [lia|]. by rewrite <- He. }
  assert (Hrange : get_range (enveloped ty xs) (len (option_list ty) + len h) (usize_add (len (option_list ty) + len h) (len p)) = Some p).
  { pose proof (f_equal len Happ) as Hs. rewrite len_app in Hs. pose proof (len_nonneg p). pose proof (len_nonneg h). unfold isize_max in Hsize.
    assert (len (option_list ty) <= 1) by (by destruct ty). pose proof (len_nonneg (option_list ty)).
    rewrite usize_add_small by lia. unfold enveloped. rewrite Happ.
    pose proof (get_range_app (option_list ty ++ h) p []) as G. by rewrite app_nil_r, !len_app, <- app_assoc in G. }
  pose proof (split_items_payloads xs Hxs Hl) as Hsplit. fold p in Hsplit.
  assert (Hstart : decode_tx_fields (enveloped ty xs) =
    let '(item_count, (t, v, d)) := envelope_shape ty in
    let? '(list_offset, list_len) := list_header (enveloped ty xs) (len (option_list ty)) in
    match get_range (enveloped ty xs) list_offset (usize_add list_offset list_len) with
    | None => Err "truncated RLP list payload"
    | Some payload =>
        let? items := split_items payload in
        if (length items <? item_count)%nat then
          Err ("transaction list has " +:+ fmt_Z (Z.of_nat (length items)) +:+ " items, expected at least " +:+ fmt_Z (Z.of_nat item_count))
        else let? to := to_field (nth t items []) in
          Ok {| tx_to := to; tx_value := be_u128 (nth v items []); tx_data := nth d items [] |}
    end).
  { unfold decode_tx_fields, enveloped. rewrite He. destruct Hty as [->|[->|[->| ->]]]; cbn [option_list option_rect app envelope_shape].
    - unfold envelope_of. by rewrite (proj2 (Z.leb_le _ _)) by lia.
    - done.
    - done.
    - done. }
  rewrite Hstart. destruct (envelope_shape ty) as [cnt [[t v] d]]. rewrite Hhead. cbn [result_bind]. rewrite Hrange, Hsplit. cbn [result_bind].
  by rewrite length_map.
Qed.

(** A signed EIP-2930 or EIP-1559 transaction as oc-signer writes it: its fields, then v,
    r and s. *)
Lemma signed_ok ty fields v r s : (ty = 1 \/ ty = 2) -> is_byte v -> is_bytes r -> is_bytes s -> len r < 2 ^ 64 -> len s < 2 ^ 64 ->
  Forall rlp_ok fields -> len (encode (signed fields (sig_item [v]) r s)) <= isize_max ->
  rlp_ok (signed fields (sig_item [v]) r s).
Proof.
  intros _ Hv Hr Hs Hlr Hls Hf Hl. unfold signed in *. set (items := fields ++ [sig_item [v]; sig_item r; sig_item s]) in *.
  assert (Hitem : forall x, is_bytes x -> len x < 2 ^ 64 -> rlp_ok (sig_item x)).
  { intros x Hx Hlx. cbn. split; [by apply drop_zeros_bytes|]. pose proof (drop_zeros_length x). unfold len in *. lia. }
  assert (Hall : Forall rlp_ok items).
  { apply Forall_app. split; [done|]. rewrite !Forall_cons. split_and!; try (by apply Hitem); [|by constructor].
    apply Hitem; [by apply Forall_cons|done]. }
  split.
  - clear -Hall. induction Hall as [|x l Hx _ IH]; [done|exact (conj Hx IH)].
  - cbn [encode] in Hl. unfold encode_list, isize_max in Hl. rewrite len_app in Hl.
    pose proof (len_nonneg (encode_length (len (concat (map encode items))) 0xc0)). lia.
Qed.

Lemma signed_read ty fields v r s tx :
  ty = 1 \/ ty = 2 -> rlp_ok (List fields) -> is_byte v -> is_bytes r -> is_bytes s -> len r < 2 ^ 64 -> len s < 2 ^ 64 ->
  len (encode (List fields)) <= isize_max -> len (encode (signed fields (sig_item [v]) r s)) <= isize_max ->
  encode_signed_typed_tx (ty :: encode (List fields)) v r s = Ret (Ok tx) ->
  let '(item_count, (t, i, d)) := envelope_shape (Some ty) in
  (item_count <= length fields + 3)%nat -> (d < length fields)%nat ->
  let field k := nth k (map payload_of fields) [] in
  decode_tx_fields tx = let? to := to_field (field t) in Ok {| tx_to := to; tx_value := be_u128 (field i); tx_data := field d |}.
Proof.
  intros Hty Hok Hv Hr Hs Hlr Hls Hl Hsl. rewrite (signed_typed_tx_spec ty fields v r s Hty Hok Hl). intros [= <-].
  pose proof (rlp_ok_fields fields Hok) as Hf.
  pose proof (signed_ok ty fields v r s Hty Hv Hr Hs Hlr Hls Hf Hsl) as Hsok.
  pose proof (decode_enveloped (Some ty) (fields ++ [sig_item [v]; sig_item r; sig_item s])) as Hdec.
  assert (Hk : known_type (Some ty)) by (destruct Hty as [->| ->]; [by right; left|by right; right; left]).
  specialize (Hdec Hk Hsok Hsl). unfold enveloped in Hdec. cbn [option_list option_rect app] in Hdec.
  unfold signed. destruct (envelope_shape (Some ty)) as [cnt [[t i] d]] eqn:Esh. intros Hcnt Hd.
  etransitivity; [exact Hdec|]. rewrite length_app. cbn [length]. rewrite (proj2 (Nat.ltb_ge _ _)) by lia.
  assert (Hord : (t <= d /\ i <= d)%nat) by (destruct Hty as [->| ->]; cbn in Esh; simplify_eq; lia).
  assert (Hin : forall k, (k <= d)%nat -> nth k (map payload_of (fields ++ [sig_item [v]; sig_item r; sig_item s])) [] = nth k (map payload_of fields) []).
  { intros k Hkd. rewrite map_app, app_nth1; [done|]. rewrite length_map. lia. }
  cbv zeta. by rewrite !Hin by lia.
Qed.

Lemma signed_decodes ty fields v r s tx to :
  ty = 1 \/ ty = 2 -> rlp_ok (List fields) -> is_byte v -> is_bytes r -> is_bytes s -> len r < 2 ^ 64 -> len s < 2 ^ 64 ->
  len (encode (List fields)) <= isize_max -> len (encode (signed fields (sig_item [v]) r s)) <= isize_max ->
  encode_signed_typed_tx (ty :: encode (List fields)) v r s = Ret (Ok tx) ->
  let '(item_count, (t, i, d)) := envelope_shape (Some ty) in
  (item_count <= length fields + 3)%nat -> (d < length fields)%nat ->
  let field k := nth k (map payload_of fields) [] in
  to_field (field t) = Ok to ->
  decode_tx_fields tx = Ok {| tx_to := to; tx_value := be_u128 (field i); tx_data := field d |}.
Proof.
  intros Hty Hok Hv Hr Hs Hlr Hls Hl Hsl Hsig. pose proof (signed_read ty fields v r s tx Hty Hok Hv Hr Hs Hlr Hls Hl Hsl Hsig) as Hread.
  destruct (envelope_shape (Some ty)) as [cnt [[t i] d]]. intros Hcnt Hd field Hto.
  etransitivity; [by apply Hread|]. fold field. by rewrite Hto.
Qed.

(** C22 The approval card reads of a signed transaction what the signer put into it: when
    oc-signer turns an unsigned EIP-2930 or EIP-1559 transaction into a signed one, the
    simulator's decoder finds the recipient, the amount and the data of the fields that
    were signed, byte for byte.  These are the items 4, 5 and 6 of an EIP-2930 transaction
    and 5, 6 and 7 of an EIP-1559 one; the comment of [decode_tx_fields] has 4, 5 and 6 for
    both. *)
Theorem card_reads_signed ty fields v r s tx to :
  ty = 1 \/ ty = 2 -> rlp_ok (List fields) -> is_byte v -> is_bytes r -> is_bytes s -> len r < 2 ^ 64 -> len s < 2 ^ 64 ->
  len (encode (List fields)) <= isize_max -> len (encode (signed fields (sig_item [v]) r s)) <= isize_max ->
  encode_signed_typed_tx (ty :: encode (List fields)) v r s = Ret (Ok tx) ->
  let '(item_count, (t, i, d)) := envelope_shape (Some ty) in
  (item_count <= length fields + 3)%nat -> (d < length fields)%nat ->
  let field k := nth k (map payload_of fields) [] in
  to_field (field t) = Ok to ->
  decode_tx_fields tx = Ok {| tx_to := to; tx_value := be_u128 (field i); tx_data := field d |}.
Proof. apply signed_decodes. Qed.

(** What the Key-Agent is asked to sign is the unsigned transaction, of nine fields, and
    the decoder wants the twelve of the signed one. *)
Lemma unsigned_eip1559_unread fields : rlp_ok (List fields) -> len (encode (List fields)) <= isize_max -> length fields = 9%nat ->
  decode_tx_fields (2 :: encode (List fields)) = Err "transaction list has 9 items, expected at least 12".
Proof.
  intros Hok Hl Hn. pose proof (decode_enveloped (Some 2) fields ltac:(by right; right; left) Hok Hl) as Hd.
  cbn [envelope_shape Z.eqb Pos.eqb] in Hd. unfold enveloped in Hd. cbn [option_list option_rect app] in Hd. by rewrite Hd, Hn.
Qed.

(** ** Amounts *)

(** How a reader takes the text of an amount. *)
Definition read_wei (s : string) : option Z :=
  match strip_suffix " wei" s with
  | Some digits => parse_digits 0 digits
  | None =>
      match split_once "." s with
      | Some (whole, frac) =>
          w ← parse_digits 0 whole; f ← parse_digits 0 frac; Some (w * ONE_ETH + f * 10 ^ (18 - str_len frac))
      | None => (fun w => w * ONE_ETH) <$> parse_digits 0 s
      end
  end.

Lemma parse_digits_app acc a b : parse_digits acc (a +:+ b) = parse_digits acc a ≫= fun v => parse_digits v b.
Proof. revert acc. induction a as [|c a IH]; intros acc; [done|]. cbn. by destruct (is_ascii_digit c). Qed.

Lemma parse_digits_zeros acc k : parse_digits acc (zeros k) = Some (acc * 10 ^ Z.of_nat k).
Proof.
  revert acc. induction k as [|k IH]; intros acc; [cbn; f_equal; lia|]. cbn [zeros parse_digits].
  change (is_ascii_digit "0") with true. change (digit_value "0") with 0. cbn [andb].
  rewrite IH, Nat2Z.inj_succ, Z.pow_succ_r by lia. f_equal. lia.
Qed.

Lemma trim_zeros_split s : exists k, s = trim_zeros s +:+ zeros k.
Proof.
  induction s as [|c s [k IH]]; [by exists 0%nat|]. cbn [trim_zeros]. destruct (is_empty (trim_zeros s)) eqn:He; cbn [andb].
  - apply is_empty_true in He. destruct (Ascii.eqb_spec c "0") as [->|].
    + exists (S k). cbn. f_equal. rewrite IH at 1. by rewrite He.
    + exists k. cbn. by rewrite IH at 1.
  - exists k. cbn. by rewrite IH at 1.
Qed.

Lemma digits_no_dot s : all_bytes is_ascii_digit s = true -> contains_byte "." s = false.
Proof. by apply digits_lack. Qed.

Lemma digits_no_wei s : s <> "" -> all_bytes is_ascii_digit s = true -> strip_suffix " wei" s = None.
Proof.
  intros Hne Hd. destruct (strip_suffix " wei" s) as [r|] eqn:E; [exfalso|done]. apply strip_suffix_some in E. subst s.
  rewrite all_bytes_app in Hd. by rewrite andb_false_r in Hd.
Qed.

Lemma split_once_digits a b : all_bytes is_ascii_digit a = true -> split_once "." (a +:+ String "." b) = Some (a, b).
Proof.
  induction a as [|c a IH]; [done|]. cbn [all_bytes]. intros [Hc Ha]%andb_prop. cbn [String.append split_once strip_prefix].
  destruct (Ascii.eqb_spec "." c) as [<-|]; [done|]. by rewrite IH.
Qed.

Lemma split_once_none s : all_bytes is_ascii_digit s = true -> split_once "." s = None.
Proof.
  induction s as [|c s IH]; [done|]. cbn [all_bytes]. intros [Hc Hs]%andb_prop. cbn [split_once strip_prefix].
  destruct (Ascii.eqb_spec "." c) as [<-|]; [done|]. by rewrite IH.
Qed.

(** The amount on the card is exact: a reader gets back every value below 2^128, from
    one wei up, with no digit lost to the zeros that are trimmed. *)
Theorem format_wei_exact n : 0 <= n <= u128_max -> read_wei (format_wei n) = Some n.
Proof.
  intros [Hn _]. unfold format_wei. destruct (Z.eqb_spec n 0) as [->|H0]; [by vm_compute|].
  destruct (Z.ltb_spec n ONE_GWEI) as [Hg|Hg].
  { unfold read_wei. rewrite strip_suffix_app. by destruct (fmt_Z_spec n Hn) as (_ & _ & ->). }
  assert (Hpos : 0 < ONE_ETH) by done. pose proof (Z.div_mod n ONE_ETH ltac:(done)) as Hdm. pose proof (Z.mod_pos_bound n ONE_ETH Hpos) as Hm.
  destruct (fmt_Z_spec (n / ONE_ETH)) as (Hne & Hd & Hp); [by apply Z.div_pos|].
  assert (Hwhole : n mod ONE_ETH = 0 -> read_wei (fmt_Z (n / ONE_ETH)) = Some n).
  { intros Hz. unfold read_wei. rewrite digits_no_wei, split_once_none, Hp by done. cbn. f_equal. lia. }
  destruct (Z.eqb_spec (n mod ONE_ETH) 0) as [Hz|Hz]; [by apply Hwhole|].
  destruct (fmt_padded_spec 18 (n mod ONE_ETH)) as (Hl & Hpd & Hpp); [lia|by change (10 ^ 18) with ONE_ETH|].
  destruct (trim_zeros_split (fmt_padded 18 (n mod ONE_ETH))) as [k Hk]. set (t := trim_zeros _) in *.
  rewrite Hk, parse_digits_app in Hpp. rewrite Hk, all_bytes_app in Hpd. apply andb_prop in Hpd as [Htd _].
  destruct (parse_digits 0 t) as [f|] eqn:Hf; [|done]. cbn in Hpp. rewrite parse_digits_zeros in Hpp.
  assert (Hfk : f * 10 ^ Z.of_nat k = n mod ONE_ETH) by congruence.
  assert (Hlen : str_len t + Z.of_nat k = 18).
  { rewrite <- Hl, Hk. unfold str_len. rewrite length_app_str. destruct (zeros_digits k "") as (_ & -> & _). lia. }
  destruct (is_empty t) eqn:Het.
  { apply is_empty_true in Het. rewrite Het in Hf. cbn in Hf. injection Hf as <-. lia. }
  unfold read_wei. assert (Hsuf : strip_suffix " wei" (fmt_Z (n / ONE_ETH) +:+ "." +:+ t) = None).
  { destruct (strip_suffix _ _) as [rr|] eqn:E; [exfalso|done]. apply strip_suffix_some in E.
    assert (Hi : last_byte (fmt_Z (n / ONE_ETH) +:+ "." +:+ t) = last_byte t).
    { rewrite app_assoc_str. apply last_byte_app. by intros ->. }
    rewrite E, last_byte_app in Hi by done. cbn in Hi. apply is_empty_false in Het.
    destruct (last_byte_digit t) as (c & Hc & Hcd); [by destruct t|done|]. rewrite Hc in Hi. by injection Hi as <-. }
  rewrite Hsuf. change ("." +:+ t) with (String "." t). rewrite split_once_digits, Hp, Hf by done. cbn. f_equal.
  replace (18 - str_len t) with (Z.of_nat k) by lia. lia.
Qed.

(** ** Selectors *)

Section Selectors.
Context `{L : Lowercase}.

Lemma candidates_insert m k e key : candidates_of (<[k := e]> m) key = if decide (k = key) then e else candidates_of m key.
Proof.
  unfold candidates_of. destruct (decide (k = key)) as [->|Hne]; [by rewrite lookup_insert_eq|by rewrite lookup_insert_ne].
Qed.

Lemma insert_function_prefix contract m func key : candidates_of m key `prefix_of` candidates_of (insert_function contract m func) key.
Proof.
  unfold insert_function. destruct (existsb _ _); rewrite candidates_insert; destruct (decide _) as [<-|]; try done.
  by apply prefix_app_r.
Qed.

Lemma insert_functions_prefix contracts m key : candidates_of m key `prefix_of` candidates_of (insert_functions m contracts) key.
Proof.
  revert m. induction contracts as [|c cs IH]; intros m; [done|]. cbn. etransitivity; [|apply IH].
  generalize (abi_functions c) as fs. intros fs. revert m. induction fs as [|f fs IHf]; intros m; [done|]. cbn.
  etransitivity; [apply insert_function_prefix|apply IHf].
Qed.

Lemma disambiguate_first candidates : disambiguate candidates None = head candidates.
Proof. by destruct candidates as [|c [|c' cs]]. Qed.

Context {S : SerdeNumber} {D : DynAbi} {H : HexCodec} (json_text : Value -> string).

(** The files a user, or anyone who can write there, drops into the ABI cache never
    change what the card says of a call the curated ABIs know: the contract, the function
    and the arguments are those of the curated ABIs alone. *)
Theorem user_cache_never_relabels curated user calldata a :
  decode_calldata json_text (global_map curated []) calldata = Some a ->
  exists a', decode_calldata json_text (global_map curated user) calldata = Some a' /\
    contract_name a' = contract_name a /\ function_name a' = function_name a /\ da_args a' = da_args a.
Proof.
  unfold decode_calldata, decode_calldata_hinted. destruct (_ <? 4)%nat; [done|]. rewrite !disambiguate_first.
  set (key := hex_encode (take 4 calldata)). unfold global_map. cbn [insert_functions fold_left].
  pose proof (insert_functions_prefix user (insert_functions ∅ curated) key) as [tl Ht].
  fold (insert_functions ∅ curated) in *. rewrite Ht.
  destruct (candidates_of (insert_functions ∅ curated) key) as [|c cs]; [done|]. cbn [head app]. intros [= <-].
  by eexists.
Qed.

(** No simulation says that a transaction reverts. *)
Lemma simulation_never_reverts m join_err raw chain sim :
  simulate_evm_tx json_text m join_err raw chain = Ok sim -> sim_success sim = true.
Proof.
  unfold simulate_evm_tx, simulate_evm_tx_sync. destruct join_err; [done|].
  destruct (hex_decode _); [|done]. cbn [result_bind result_map_err]. destruct (decode_tx_fields _); [|done]. cbn [result_bind result_map_err].
  destruct (is_nil _); by intros [= <-].
Qed.
End Selectors.

(** The fallback's message for a missing address is shortened as if it were one. *)
Lemma missing_address_shown (S : SerdeNumber) (json_text : Value -> string) :
  render_value json_text (VString "error: insufficient data for address: need 32 bytes at offset 0, have 0") "address" = "0xerro…ve 0".
Proof. reflexivity. Qed.

(** ** Concrete transactions *)

Definition demo_transfer : list rlp :=
  [Str [1]; Str [5]; Str [0x3b]; Str [0x77]; Str [0x52; 0x08]; Str (repeat 0x35 20); Str [0x0d; 0xe0; 0xb6]; Str []; List []].

Lemma demo_transfer_ok : rlp_ok (List demo_transfer).
Proof.
  repeat first
    [ exact I
    | apply conj
    | apply (bool_decide_unpack (is_bytes _)); vm_compute; exact I
    | match goal with |- Z.lt _ _ => vm_compute; reflexivity end ].
Defined.

Definition demo_signed : bytes := 2 :: encode (signed demo_transfer (sig_item [1]) [8] [3]).

Lemma card_reads_signed_witness :
  decode_tx_fields demo_signed = Ok {| tx_to := Some (repeat 0x35 20); tx_value := 909494; tx_data := [] |}.
Proof.
  apply (card_reads_signed 2 demo_transfer 1 [8] [3] demo_signed (Some (repeat 0x35 20))).
  - by right.
  - exact demo_transfer_ok.
  - vm_compute. split; [discriminate|reflexivity].
  - apply (bool_decide_unpack (is_bytes _)). vm_compute. exact I.
  - apply (bool_decide_unpack (is_bytes _)). vm_compute. exact I.
  - vm_compute. reflexivity.
  - vm_compute. reflexivity.
  - vm_compute. discriminate.
  - vm_compute. discriminate.
  - vm_compute. reflexivity.
  - vm_compute. lia.
  - vm_compute. lia.
  - vm_compute. reflexivity.
Defined.

Lemma format_wei_exact_witness : 0 <= 1500000000000000000 <= u128_max /\
  format_wei 1500000000000000000 = "1.5" /\ read_wei (format_wei 1500000000000000000) = Some 1500000000000000000.
Proof.
  split; [by split|]. split; [vm_compute; reflexivity|]. apply (format_wei_exact 1500000000000000000). by split.
Defined.

(** A user's file that claims the selector of [transfer]. *)
Definition demo_curated : list ContractAbi :=
  [{| abi_contract := "ERC20"; abi_functions :=
        [{| fn_name := "transfer"; fn_selector := "0xa9059cbb"; fn_inputs := [] |}] |}].
Definition demo_user : list ContractAbi :=
  [{| abi_contract := "Airdrop"; abi_functions :=
        [{| fn_name := "claim"; fn_selector := "0xA9059CBB"; fn_inputs := [] |}] |}].

#[local] Instance demo_lower : Lowercase := {| to_lowercase := ascii_lowercase |}.
#[local] Instance demo_no_abi : DynAbi := {|
  sol_type := unit; parse_type := fun _ => None; abi_decode_params := fun _ _ => None; word_type := fun _ => false;
  abi_decode := fun _ _ => None |}.
#[local] Instance demo_hex : HexCodec := {|
  hex_encode := DemoText.hex; hex_decode := fun s => Ok (DemoText.unhex s) |}.

Definition demo_resolved : ResolvedFunction := {| rf_contract := "ERC20"; rf_name := "transfer"; rf_inputs := [] |}.

Lemma demo_candidates : candidates_of (global_map demo_curated []) "a9059cbb" = [demo_resolved].
Proof.
  change (global_map demo_curated []) with (insert_function "ERC20" ∅ {| fn_name := "transfer"; fn_selector := "0xa9059cbb"; fn_inputs := [] |}).
  unfold insert_function. change (selector_key _) with "a9059cbb". unfold candidates_of at 2 3. rewrite lookup_empty.
  cbn [default existsb app]. rewrite candidates_insert. by destruct (decide _).
Qed.

Lemma user_cache_never_relabels_witness :
  exists a', decode_calldata (S := demo_number) (fun _ => "") (global_map demo_curated demo_user) [0xa9; 0x05; 0x9c; 0xbb] = Some a' /\
    contract_name a' = "ERC20" /\ function_name a' = "transfer" /\ da_args a' = Object [].
Proof.
  apply (user_cache_never_relabels (S := demo_number) (fun _ => "") demo_curated demo_user [0xa9; 0x05; 0x9c; 0xbb]
    {| contract_name := "ERC20"; function_name := "transfer"; da_args := Object []; human_readable := "transfer" |}).
  unfold decode_calldata, decode_calldata_hinted. change (hex_encode _) with "a9059cbb".
  rewrite demo_candidates. reflexivity.
Defined.
