(* ===== verification/Nonce.v ===== *)
(** * Single-use sign-in messages

    [crates/oc-keyagent/src/nonce_store.rs]: the file-backed registry of the
    message hashes that have been signed.  The [HashMap] is a finite map; its
    iteration order, which the code observes when it evicts, is a parameter, as
    are [serde_json] and [hex]. *)

From Stdlib Require Import ZArith Lia Ascii String.
From stdpp Require Import base list strings gmap.
From S2P Require Import Prelude Str Bytes Files MapStore DemoText.

Local Open Scope oc_scope.

Definition DEFAULT_SIWZ_TTL_SECS : Z := 86400.
Definition MAX_NONCE_ENTRIES : nat := Z.to_nat 10000.

(** [hash_hex -> expires_at_unix]. *)
Abbreviation NonceMap := (gmap string Z).

Inductive NonceStoreError {io_error json_error : Type} :=
| Io (e : io_error)
| Json (e : json_error)
| HomeNotSet
| Corrupt (path : Path) (detail : json_error)
| Replay.
Arguments NonceStoreError : clear implicits.

(** The libraries the store calls. *)
Class NonceEnv (io_error json_error : Type) := {
  nonce_codec :: Codec io_error json_error NonceMap;
  map_iter : NonceMap -> list (string * Z);
  hex_encode : bytes -> string
}.

(** What they document: iteration visits each entry once, and the hexadecimal text
    determines the bytes. *)
Class NonceLaws {io_error json_error} (E : NonceEnv io_error json_error) := {
  nonce_codec_laws :: CodecLaws (nonce_codec (NonceEnv := E));
  map_iter_perm m : map_iter m ≡ₚ map_to_list m;
  hex_encode_inj a b : is_bytes a -> is_bytes b -> hex_encode a = hex_encode b -> a = b
}.

Section Nonce.
Context {io_error json_error : Type} {E : NonceEnv io_error json_error}.
Context (path : Path).

Definition of_fault (f : StoreFault io_error json_error) : NonceStoreError io_error json_error :=
  match f with
  | IoFault e => Io e
  | ParseFault e => Corrupt path e
  | EncodeFault e => Json e
  end.

(** [map.retain(|_, exp| *exp > now)]. *)
Definition retain_live (now : Z) (m : NonceMap) : NonceMap :=
  filter (fun e => (now < e.2)%Z) m.

Definition load (io : StoreIo io_error) (now : Z) (d : FS)
  : result (NonceStoreError io_error json_error) NonceMap :=
  let? map := result_map_err of_fault (load_map path io d) in
  Ok (retain_live now map).

Definition save (io : StoreIo io_error) (map : NonceMap) (d : FS)
  : result (NonceStoreError io_error json_error) unit * list FS :=
  let '(r, trace) := save_map path io map d in (result_map_err of_fault r, trace).

(** [iter.min_by_key(|(_, exp)| *exp)]: the first of the entries with the least
    expiry. *)
Fixpoint min_by_expiry (best : string * Z) (l : list (string * Z)) : string * Z :=
  match l with
  | [] => best
  | e :: l' => min_by_expiry (if (e.2 <? best.2)%Z then e else best) l'
  end.

(** What a full map gives up. *)
Definition evict (m : NonceMap) : NonceMap :=
  if (MAX_NONCE_ENTRIES <=? size m)%nat then
    match map_iter m with
    | [] => m
    | e :: l => delete (min_by_expiry e l).1 m
    end
  else m.

(** [consume] up to the save: the map to write.  [now] is read by [load], [now']
    after it. *)
Definition consume_read (io : StoreIo io_error) (message_hash : bytes)
    (expires_at_unix now now' : Z) (d : FS)
  : result (NonceStoreError io_error json_error) NonceMap :=
  let? map := load io now d in
  let key := hex_encode message_hash in
  match map !! key with
  | Some _ => Err Replay
  | None => Ok (<[key := Z.max expires_at_unix (saturating_add64 now' 1)]> (evict map))
  end.

Definition consume (io : StoreIo io_error) (message_hash : bytes) (expires_at_unix now now' : Z)
    (d : FS) : result (NonceStoreError io_error json_error) unit * list FS :=
  match consume_read io message_hash expires_at_unix now now' d with
  | Err e => (Err e, [d])
  | Ok map => save io map d
  end.

Definition is_consumed (io : StoreIo io_error) (message_hash : bytes) (now : Z) (d : FS)
  : result (NonceStoreError io_error json_error) bool :=
  let? map := load io now d in
  Ok (bool_decide (is_Some (map !! hex_encode message_hash))).

Definition nonce_len (io : StoreIo io_error) (now : Z) (d : FS)
  : result (NonceStoreError io_error json_error) nat :=
  let? map := load io now d in Ok (size map).

Definition nonce_is_empty (io : StoreIo io_error) (now : Z) (d : FS)
  : result (NonceStoreError io_error json_error) bool :=
  let? map := load io now d in Ok (size map =? 0)%nat.

(** ** What the disk records *)

(** The disk remembers [key] at least up to [until]. *)
Definition guards (d : FS) (key : string) (until : Z) : Prop :=
  exists m e, holds path d m /\ m !! key = Some e /\ (until <= e)%Z.

Context {L : NonceLaws E}.

Lemma load_holds io now d live : load io now d = Ok live ->
  exists m, holds path d m /\ live = retain_live now m.
Proof.
  unfold load. intros H. bind1 H m Hm. injection H as <-. exists m. split; [|done].
  destruct (load_map path io d) eqn:E'; [|done]. injection Hm as ->. by eapply load_map_ok.
Qed.

Lemma load_guarded io now d m live : holds path d m -> load io now d = Ok live -> live = retain_live now m.
Proof. intros Hm (m' & Hm' & ->)%load_holds. by rewrite (holds_functional _ _ _ _ Hm Hm'). Qed.

(** A save leaves the old file or the whole new map, the latter when it
    succeeds. *)
Lemma save_holds io m d :
  (forall d', d' ∈ (save io m d).2 -> d' !! path = d !! path \/ holds path d' m) /\
  ((save io m d).1 = Ok tt -> holds path (default d (last (save io m d).2)) m).
Proof.
  unfold save. pose proof (save_map_spec path io m d) as [Hall Hfin].
  destruct (save_map path io m d) as [[[]|e] trace]; by split.
Qed.

Lemma consume_states io h expires now now' d :
  is_nil (consume io h expires now now' d).2 = false.
Proof.
  unfold consume. destruct (consume_read io h expires now now' d) as [m|]; [|done].
  unfold save. pose proof (save_map_states path io m d). by destruct (save_map path io m d).
Qed.

(** Only the file at [path] matters. *)
Lemma load_same io now d d' : d' !! path = d !! path -> load io now d' = load io now d.
Proof. intros H. unfold load. by rewrite (load_map_same path io d d' H). Qed.

Lemma guards_same key until d d' : d' !! path = d !! path -> guards d key until -> guards d' key until.
Proof. intros H (m & e & Hs & Hk). exists m, e. split; [by eapply holds_same|done]. Qed.

(** ** Single use *)

Lemma retain_live_lookup now m key e :
  retain_live now m !! key = Some e <-> m !! key = Some e /\ (now < e)%Z.
Proof. unfold retain_live. rewrite map_lookup_filter_Some. done. Qed.

(** The store has room: the next consume evicts nothing. *)
Definition room (io : StoreIo io_error) (now : Z) (d : FS) : Prop :=
  forall m, load io now d = Ok m -> (size m < MAX_NONCE_ENTRIES)%nat.

Lemma room_same io now d d' : d' !! path = d !! path -> room io now d -> room io now d'.
Proof. intros H Hr m. rewrite (load_same io now d d') by done. apply Hr. Qed.

(** A guarded key cannot be consumed, and no other consume removes it, at
    whatever point it fails or the process dies. *)
Lemma guards_blocks io h expires now now' d until :
  guards d (hex_encode h) until -> (now < until)%Z ->
  (consume io h expires now now' d).2 = [d] /\ (consume io h expires now now' d).1 <> Ok tt.
Proof.
  intros (m & e & Hs & Hk & He) Hn. unfold consume, consume_read.
  destruct (load io now d) as [live|err] eqn:Hl; [|done]. cbn [result_bind].
  rewrite (load_guarded _ _ _ _ _ Hs Hl).
  rewrite (proj2 (retain_live_lookup now m (hex_encode h) e)) by (split; [done|lia]). done.
Qed.

Lemma guards_step io h expires now now' d until key d' :
  guards d key until -> (now < until)%Z -> room io now d ->
  d' ∈ (consume io h expires now now' d).2 -> guards d' key until.
Proof.
  intros (m & e & Hs & Hk & He) Hn Hroom Hd'.
  assert (Hsame : d' !! path = d !! path -> guards d' key until).
  { intros Heq. eapply guards_same; [exact Heq|by exists m, e]. }
  unfold consume, consume_read in Hd'.
  destruct (load io now d) as [live|err] eqn:Hl;
    [|apply list_elem_of_singleton in Hd' as ->; by apply Hsame]. cbn [result_bind] in Hd'.
  specialize (Hroom live Hl). pose proof (load_guarded _ _ _ _ _ Hs Hl) as ->.
  destruct (retain_live now m !! hex_encode h) eqn:Hh;
    [apply list_elem_of_singleton in Hd' as ->; by apply Hsame|].
  unfold evict in Hd'. rewrite (proj2 (Nat.leb_gt _ _) Hroom) in Hd'.
  destruct (proj1 (save_holds io _ d) d' Hd') as [Heq|Hst]; [by apply Hsame|].
  eexists _, e. split; [exact Hst|]. split; [|done].
  assert (Hlive : retain_live now m !! key = Some e) by (apply retain_live_lookup; split; [done|lia]).
  rewrite lookup_insert_ne by congruence. done.
Qed.

(** The disks that later consumes can leave before [until], failures and crashes
    included, while the store has room. *)
Inductive later (until : Z) : FS -> FS -> Prop :=
| later_refl d : later until d d
| later_consume d d1 d2 io h expires now now' :
    later until d d1 -> (now < until)%Z -> room io now d1 ->
    d2 ∈ (consume io h expires now now' d1).2 -> later until d d2.

Lemma guards_later until key d d' : later until d d' -> guards d key until -> guards d' key until.
Proof.
  induction 1 as [|d d1 d2 io h x now now' _ IH Hn Hroom Hd]; [done|]. intros Hg.
  eapply guards_step; [by apply IH|exact Hn|exact Hroom|exact Hd].
Qed.

Lemma consume_guards io h expires now now' d :
  (consume io h expires now now' d).1 = Ok tt ->
  guards (default d (last (consume io h expires now now' d).2)) (hex_encode h)
    (Z.max expires (saturating_add64 now' 1)).
Proof.
  unfold consume. destruct (consume_read io h expires now now' d) as [m|e] eqn:Hc; [|done].
  intros Hok. apply (proj2 (save_holds io m d)) in Hok.
  exists m, (Z.max expires (saturating_add64 now' 1)). split; [done|]. split; [|done].
  unfold consume_read in Hc. bind1 Hc live Hl.
  destruct (live !! hex_encode h); [done|]. injection Hc as <-. by rewrite lookup_insert_eq.
Qed.

(** A message hash is single-use: once a consume has succeeded, no consume of
    the same hash succeeds before the recorded expiry, whatever consumes of other
    messages, I/O failures and crashes come between, as long as none of them
    finds the store full. *)
Theorem consumed_once io h expires now now' d d' io2 expires2 now2 now2' :
  let limit := Z.max expires (saturating_add64 now' 1) in
  (consume io h expires now now' d).1 = Ok tt ->
  later limit (default d (last (consume io h expires now now' d).2)) d' ->
  (now2 < limit)%Z ->
  (consume io2 h expires2 now2 now2' d').1 <> Ok tt.
Proof.
  intros limit Hok Hlater Hn.
  refine (proj2 (guards_blocks io2 h expires2 now2 now2' d' limit _ Hn)).
  eapply guards_later; [exact Hlater|by apply consume_guards].
Qed.

(** ** Capacity *)

Lemma min_by_expiry_in best l : min_by_expiry best l = best \/ min_by_expiry best l ∈ l.
Proof.
  revert best. induction l as [|e l IH]; intros best; [by left|]. cbn [min_by_expiry].
  rewrite elem_of_cons. destruct (e.2 <? best.2)%Z.
  - destruct (IH e) as [->|?]; auto.
  - destruct (IH best) as [->|?]; auto.
Qed.

Lemma min_by_expiry_least best l x :
  x = best \/ x ∈ l -> ((min_by_expiry best l).2 <= x.2)%Z.
Proof.
  revert best x. induction l as [|e l IH]; intros best x.
  - intros [->|H]; [done|]. by apply not_elem_of_nil in H.
  - cbn [min_by_expiry]. rewrite elem_of_cons.
    assert (Hb : forall y, ((min_by_expiry y l).2 <= y.2)%Z) by auto.
    destruct (Z.ltb_spec e.2 best.2) as [Hlt|Hge]; intros [->|[->|Hx]]; try (apply IH; by auto).
    + specialize (Hb e). lia.
    + specialize (Hb best). lia.
Qed.

(** The entry a full store gives up is the first to expire. *)
Definition first_to_expire (m : NonceMap) (key : string) : Prop :=
  exists e, m !! key = Some e /\ forall key' e', m !! key' = Some e' -> (e <= e')%Z.

Lemma evict_spec m :
  ((size m < MAX_NONCE_ENTRIES)%nat /\ evict m = m) \/
  ((MAX_NONCE_ENTRIES <= size m)%nat /\
   exists key, first_to_expire m key /\ evict m = delete key m).
Proof.
  unfold evict. destruct (Nat.leb_spec MAX_NONCE_ENTRIES (size m)) as [Hle|Hlt]; [right|by left].
  split; [done|]. pose proof (map_iter_perm m) as Hp.
  destruct (map_iter m) as [|e l] eqn:Hi.
  - apply Permutation_nil in Hp. apply map_to_list_empty_iff in Hp as ->.
    rewrite map_size_empty in Hle. unfold MAX_NONCE_ENTRIES in Hle. lia.
  - pose proof (min_by_expiry_in e l) as Hin. pose proof (min_by_expiry_least e l) as Hmin.
    destruct (min_by_expiry e l) as [key x]. exists key. split; [|done]. exists x. split.
    + apply elem_of_map_to_list. rewrite <- Hp, elem_of_cons. naive_solver.
    + intros key' e' Hk. apply elem_of_map_to_list in Hk. rewrite <- Hp, elem_of_cons in Hk.
      apply (Hmin (key', e')). naive_solver.
Qed.

(** What a successful consume does: the hash was not among the unexpired ones;
    the file then holds exactly those plus the hash, with an expiry in the future
    of the clock, less the first entry to expire when there were 10,000 or more;
    a store within the cap stays within it. *)
Theorem consume_spec io h expires now now' d :
  (consume io h expires now now' d).1 = Ok tt ->
  exists live kept,
    load io now d = Ok live /\ live !! hex_encode h = None /\
    ((size live < MAX_NONCE_ENTRIES)%nat /\ kept = live \/
     (MAX_NONCE_ENTRIES <= size live)%nat /\
     exists key, first_to_expire live key /\ kept = delete key live) /\
    let new := <[hex_encode h := Z.max expires (saturating_add64 now' 1)]> kept in
    holds path (default d (last (consume io h expires now now' d).2)) new /\
    ((size live <= MAX_NONCE_ENTRIES)%nat -> (size new <= MAX_NONCE_ENTRIES)%nat).
Proof.
  intros Hok. unfold consume in *.
  destruct (consume_read io h expires now now' d) as [m|e] eqn:Hc; [|done].
  apply (proj2 (save_holds io m d)) in Hok.
  unfold consume_read in Hc. bind1 Hc live Hl.
  destruct (live !! hex_encode h) eqn:Hh; [done|]. injection Hc as <-.
  exists live, (evict live). split; [done|]. split; [done|].
  destruct (evict_spec live) as [[Hlt He]|[Hle (key & Hf & He)]]; rewrite He in *.
  - split; [by left|]. split; [done|]. intros _. rewrite map_size_insert_None by done. lia.
  - split; [right; by eauto|]. split; [done|]. intros Hcap. destruct Hf as (x & Hx & _).
    rewrite map_size_insert_None by (rewrite lookup_delete_None; by right).
    rewrite map_size_delete, Hx. unfold MAX_NONCE_ENTRIES in *. cbn. lia.
Qed.
End Nonce.

(** ** A concrete environment *)

#[export] Instance demo_nonce_env : NonceEnv string unit := {|
  nonce_codec := demo_codec id id;
  map_iter := map_to_list;
  hex_encode := hex
|}.

#[export] Instance demo_nonce_laws : NonceLaws demo_nonce_env.
Proof.
  split.
  - by apply demo_codec_laws.
  - done.
  - intros a b Ha Hb H. apply (f_equal unhex) in H. cbn in H. by rewrite !unhex_hex in H.
Qed.

Definition demo_path : Path := (Some "/home/a/.onecipher", Some "siwx_nonces.json").

(** A message expiring at 2000, signed at 1000; another signed at 1500; the
    first again at 1999. *)
Lemma consumed_once_witness :
  let run h e t d := consume demo_path demo_io h e t t d in
  let d1 := default ∅ (last (run [1]%Z 2000 1000 ∅).2)%Z in
  let d2 := default d1 (last (run [2]%Z 3000 1500 d1).2)%Z in
  (run [1]%Z 2000 1999 d2).1%Z <> Ok tt /\ (run [1]%Z 2000 2000 d2).1%Z = Ok tt.
Proof.
  intros run d1 d2. split; [|vm_compute; reflexivity].
  apply (consumed_once demo_path demo_io [1]%Z 2000 1000 1000 ∅);
    [vm_compute; reflexivity| |vm_compute; reflexivity].
  apply (later_consume demo_path _ _ d1 d2 demo_io [2]%Z 3000 1500 1500);
    [apply later_refl|vm_compute; reflexivity| |].
  - intros m Hm. assert (E : load demo_path demo_io 1500 d1 = Ok {["01" := 2000%Z]}) by
      (vm_compute; reflexivity). rewrite E in Hm. injection Hm as <-.
    rewrite map_size_singleton. unfold MAX_NONCE_ENTRIES. lia.
  - apply last_in. vm_compute. reflexivity.
Defined.

Lemma consume_spec_witness :
  exists live kept, load demo_path demo_io 1000 ∅ = Ok live /\ live !! hex [1]%Z = None /\
    holds demo_path (default ∅ (last (consume demo_path demo_io [1]%Z 2000 1000 1000 ∅).2))
      (<[hex [1]%Z := 2000%Z]> kept).
Proof.
  destruct (consume_spec demo_path demo_io [1]%Z 2000 1000 1000 ∅) as
    (live & kept & Hl & Hn & _ & Hs & _); [vm_compute; reflexivity|].
  exists live, kept. split; [exact Hl|]. split; [exact Hn|exact Hs].
Defined.

(** Calls are not serialized: two threads that load the store before either saves
    both consume the same message. *)
Lemma concurrent_consumes_both_succeed :
  let io2 := {| read_err := None; parent_err := None; create_err := None;
                write_faults := write_faults demo_io; tmp_pid := 7; tmp_nanos := 0; tmp_seq := 1 |} in
  let read1 := consume_read demo_path demo_io [1]%Z 2000 1000 1000 ∅ in
  let read2 := consume_read demo_path io2 [1]%Z 2000 1000 1000 ∅ in
  exists m1 m2, read1 = Ok m1 /\ read2 = Ok m2 /\
    let save1 := save demo_path demo_io m1 ∅ in
    let save2 := save demo_path io2 m2 (default ∅ (last save1.2)) in
    save1.1 = Ok tt /\ save2.1 = Ok tt.
Proof.
  intros io2 read1 read2. exists {["01" := 2000%Z]}, {["01" := 2000%Z]}.
  refine (conj _ (conj _ (conj _ _))); vm_compute; reflexivity.
Qed.
