(* ===== verification/AuditChain.v ===== *)
(** * The append-only audit log

    [crates/oc-keyagent/src/audit.rs]: entries chained by hash and signed by the
    device, one JSON object per line.  [serde_json], SHA-256, Ed25519, [hex] and
    the iteration order of a [HashMap] are the class [AuditEnv]; what they
    document is [AuditLaws]. *)

From Stdlib Require Import ZArith Lia Bool Ascii String Sorting.Sorted.
From stdpp Require Import base list strings gmap.
From S2P Require Import Prelude F64 Str Files Json Bytes DemoText.

Local Open Scope oc_scope.

Inductive EventType :=
| CreateSessionKey | RevokeSessionKey | SignUserOp | PasskeyForged | PasskeyMissing
| PasskeyReplay | PolicyLookupFailed | PolicyParseFailed | EvHumanAlert | BudgetReclaim
| BackupAttemptFailed | BackupLocked | AuthFailed
| SecretRead | SecretWritten | SecretDeleted | SecretMigrated | AgeRecipientAdded | AgeReencrypted
| ChallengeIssued | VaultLocked | VaultUnlocked | TransactionSigned | AuthSigned | SiwxSigned
| PasskeyRegistered | EnclavePending | EnclaveResolved.

#[export] Instance EventType_eq_dec : EqDecision EventType.
Proof. solve_decision. Defined.

Section Entries.
Context {S : SerdeNumber}.

Record AuditEntry := {
  device_id : string;
  seq : Z;
  timestamp : string;
  event_type : EventType;
  session_key_id : option string;
  payload : Value;
  prev_hash : string;
  device_sig : string
}.

Definition with_sig (e : AuditEntry) (sig : string) : AuditEntry := {|
  device_id := device_id e; seq := seq e; timestamp := timestamp e; event_type := event_type e;
  session_key_id := session_key_id e; payload := payload e; prev_hash := prev_hash e;
  device_sig := sig
|}.
End Entries.

Inductive AuditError {io_error json_error : Type} :=
| Io (e : io_error)
| Json (e : json_error)
| Tampered (n : Z)
| ChainHashMismatch (n : Z)
| Signature (msg : string)
| DuplicateInMerge
| DeviceKeyError (msg : string).
Arguments AuditError : clear implicits.

(** [to_vec] and [to_string] give the same compact text; errors of [hex] are
    their text. *)
Class AuditEnv {S : SerdeNumber} (io_error json_error : Type) := {
  SigningKey : Type;
  VerifyingKey : Type;
  entry_to_json : AuditEntry -> result json_error string;
  entry_from_json : string -> result json_error AuditEntry;
  sha256 : string -> bytes;
  hex_encode : bytes -> string;
  hex_decode : string -> result string bytes;
  sign : SigningKey -> string -> bytes;
  verifying_key : SigningKey -> VerifyingKey;
  verify : VerifyingKey -> string -> bytes -> bool;
  key_from_bytes : string -> SigningKey;
  key_to_bytes : SigningKey -> string;
  hash_values : list AuditEntry -> list AuditEntry;
  invalid_utf8 : io_error;
  not_found : io_error;
  no_parent : Path -> io_error;
  show_io : io_error -> string
}.

(** Compact JSON is one line of UTF-8 that is not blank and reads back as the
    entry; hexadecimal text reads back as the bytes; a digest has 32 bytes and a
    signature 64; a signature verifies under its key; the values of a map come in
    some order. *)
Class AuditLaws {S : SerdeNumber} {io_error json_error} (E : AuditEnv io_error json_error) := {
  entry_roundtrip e s : entry_to_json e = Ok s -> entry_from_json s = Ok e;
  entry_one_line e s : entry_to_json e = Ok s ->
    all_bytes (fun c => negb (Ascii.eqb c lf)) s = true /\ strip_cr s = s /\
    utf8 s = true /\ is_empty (trim s) = false;
  hex_roundtrip b : is_bytes b -> hex_decode (hex_encode b) = Ok b;
  hex_length b : String.length (hex_encode b) = (2 * length b)%nat;
  sha256_bytes s : is_bytes (sha256 s) /\ len (sha256 s) = 32%Z;
  sign_bytes k s : is_bytes (sign k s) /\ len (sign k s) = 64%Z;
  verify_sign k s : verify (verifying_key k) s (sign k s) = true;
  key_roundtrip k : key_from_bytes (key_to_bytes k) = k;
  key_length k : String.length (key_to_bytes k) = 32%nat;
  hash_values_perm l : hash_values l ≡ₚ l
}.

Section Chain.
Context {S : SerdeNumber} {io_error json_error : Type} {E : AuditEnv io_error json_error}.

Abbreviation audit_result := (result (AuditError io_error json_error)).

Record AuditLog := {
  log_path : Path;
  log_device_id : string;
  device_key : SigningKey;
  last_hash : string;
  last_seq : Z
}.

Definition canonical_bytes (e : AuditEntry) : audit_result string :=
  result_map_err Json (entry_to_json (with_sig e "")).

Definition hash_entry (e : AuditEntry) : audit_result string :=
  let? canonical := canonical_bytes e in Ok (hex_encode (sha256 canonical)).

(** What a [BufReader] over the file yields: its lines, an invalid one as an error,
    and after some of them possibly a failing read. *)
Definition reader_lines (read_fault : option (nat * io_error)) (contents : string)
  : list (result io_error string) :=
  let ls := map (fun l => if utf8 l then Ok l else Err invalid_utf8) (buf_lines contents) in
  match read_fault with
  | Some (n, e) => take n ls ++ [Err e]
  | None => ls
  end.

(** [File::open] and the lines of the file. *)
Definition open_lines (open_err : option io_error) (read_fault : option (nat * io_error))
    (path : Path) (d : FS) : audit_result (list (result io_error string)) :=
  match open_err, d !! path with
  | Some e, _ => Err (Io e)
  | None, None => Err (Io not_found)
  | None, Some file => Ok (reader_lines read_fault (file_content file))
  end.

Fixpoint tail_of (lines : list (result io_error string)) (last_hash : string) (last_seq : Z)
  : audit_result (string * Z) :=
  match lines with
  | [] => Ok (last_hash, last_seq)
  | Err e :: _ => Err (Io e)
  | Ok line :: lines' =>
      if is_empty (trim line) then tail_of lines' last_hash last_seq
      else
        match entry_from_json line with
        | Ok entry => let? h := hash_entry entry in tail_of lines' h (seq entry)
        | Err _ => tail_of lines' last_hash last_seq
        end
  end.

Record OpenIo := {
  create_dir_err : option io_error;
  create_err : option io_error;
  chmod_ok : bool;
  reopen_err : option io_error;
  read_fault : option (nat * io_error)
}.

Definition load_tail (io : OpenIo) (path : Path) (d : FS) : audit_result (string * Z) :=
  let? lines := open_lines (reopen_err io) (read_fault io) path d in tail_of lines "" 0.

Definition has_named_parent (p : Path) : bool :=
  match p.1 with Some parent => negb (is_empty parent) | None => false end.

Definition open (io : OpenIo) (path : Path) (device_id : string) (key : SigningKey) (d : FS)
  : audit_result AuditLog * FS :=
  match (if has_named_parent path then create_dir_err io else None) with
  | Some e => (Err (Io e), d)
  | None =>
      let log h n := {| log_path := path; log_device_id := device_id; device_key := key;
                        last_hash := h; last_seq := n |} in
      match d !! path with
      | Some file =>
          let d := if chmod_ok io
                   then <[path := {| file_mode := MODE_PRIVATE_FILE;
                                     file_content := file_content file |}]> d
                   else d in
          (let? '(h, n) := load_tail io path d in Ok (log h n), d)
      | None =>
          match create_err io with
          | Some e => (Err (Io e), d)
          | None => (Ok (log "" 0%Z),
                     <[path := {| file_mode := MODE_PRIVATE_FILE; file_content := "" |}]> d)
          end
      end
  end.

(** A failing write has put [n] bytes of the line in the file. *)
Record AppendIo := {
  append_open_err : option io_error;
  append_fault : option (nat * io_error);
  append_sync_err : option io_error
}.

Definition append_to (path : Path) (text : string) (file : File) (d : FS) : FS :=
  <[path := {| file_mode := file_mode file; file_content := file_content file +:+ text |}]> d.

(** [now] is the RFC 3339 text of the clock. *)
Definition append (io : AppendIo) (now : string) (log : AuditLog) (ev : EventType)
    (skid : option string) (pl : Value) (d : FS) : audit_result Z * AuditLog * FS :=
  let n := ((last_seq log + 1) mod 2 ^ 64)%Z in
  let entry := {|
    device_id := log_device_id log; seq := n; timestamp := now; event_type := ev;
    session_key_id := skid; payload := pl; prev_hash := last_hash log; device_sig := ""
  |} in
  match canonical_bytes entry with
  | Err e => (Err e, log, d)
  | Ok canonical =>
      let signed := with_sig entry (hex_encode (sign (device_key log) canonical)) in
      match entry_to_json signed, append_open_err io, d !! log_path log with
      | Err e, _, _ => (Err (Json e), log, d)
      | _, Some e, _ => (Err (Io e), log, d)
      | _, _, None => (Err (Io not_found), log, d)
      | Ok line, None, Some file =>
          let text := line +:+ String lf "" in
          match append_fault io with
          | Some (k, e) =>
              (Err (Io e), log, append_to (log_path log) (String.substring 0 k text) file d)
          | None =>
              let d := append_to (log_path log) text file d in
              match append_sync_err io, hash_entry signed with
              | Some e, _ => (Err (Io e), log, d)
              | None, Err e => (Err e, log, d)
              | None, Ok h =>
                  (Ok n, {| log_path := log_path log; log_device_id := log_device_id log;
                            device_key := device_key log; last_hash := h; last_seq := n |}, d)
              end
          end
      end
  end.

(** An append writes no other file. *)
Lemma append_frame io now log ev skid pl d p :
  p <> log_path log ->
  log_path (append io now log ev skid pl d).1.2 = log_path log /\
  (append io now log ev skid pl d).2 !! p = d !! p.
Proof.
  intros Hp. unfold append, append_to.
  repeat (case_match; try done); cbn [fst snd log_path]; by rewrite ?lookup_insert_ne by congruence.
Qed.

Lemma append_path io now log ev skid pl d : log_path (append io now log ev skid pl d).1.2 = log_path log.
Proof. unfold append. repeat (case_match; try done). Qed.

(** An append, torn or not, only adds to the end of the file. *)
Definition begins (q : Path) (text : string) (d : FS) : Prop :=
  exists file rest, d !! q = Some file /\ file_content file = text +:+ rest.

Lemma append_to_begins path t file d text :
  d !! path = Some file -> begins path text d -> begins path text (append_to path t file d).
Proof.
  intros Hd (f & rest & Hf & Hc). rewrite Hd in Hf. injection Hf as <-. unfold begins, append_to.
  rewrite lookup_insert_eq. eexists _, (rest +:+ t). split; [done|]. cbn. by rewrite Hc, app_assoc_str.
Qed.

Lemma append_begins io now log ev skid pl d text :
  begins (log_path log) text d -> begins (log_path log) text (append io now log ev skid pl d).2.
Proof.
  intros H. unfold append. repeat (case_match; try done); cbn [snd]; by apply append_to_begins.
Qed.

(** ** The events with their own method *)

Definition json_object (fields : list (string * Value)) : Value :=
  Object (fold_left (fun m '(k, v) => object_insert k v m) fields []).

Definition log_secret_read (io : AppendIo) (now : string) (log : AuditLog) (name item_type : string) :=
  append io now log SecretRead None
    (json_object [("name", VString name); ("item_type", VString item_type)]).

Definition log_secret_written (io : AppendIo) (now : string) (log : AuditLog) (name item_type : string) :=
  append io now log SecretWritten None
    (json_object [("name", VString name); ("item_type", VString item_type)]).

Definition log_secret_deleted (io : AppendIo) (now : string) (log : AuditLog) (name : string) :=
  append io now log SecretDeleted None (json_object [("name", VString name)]).

Definition log_secret_migrated (io : AppendIo) (now : string) (log : AuditLog)
    (old_name new_name : string) :=
  append io now log SecretMigrated None
    (json_object [("old_name", VString old_name); ("new_name", VString new_name)]).

Definition log_age_recipient_added (io : AppendIo) (now : string) (log : AuditLog) (recipient : string) :=
  append io now log AgeRecipientAdded None (json_object [("recipient", VString recipient)]).

Definition log_age_reencrypted (io : AppendIo) (now : string) (log : AuditLog) (name : string) :=
  append io now log AgeReencrypted None (json_object [("name", VString name)]).

Definition log_challenge_issued (io : AppendIo) (now : string) (log : AuditLog) (credential_id : string) :=
  append io now log ChallengeIssued None (json_object [("credential_id", VString credential_id)]).

Definition log_vault_locked (io : AppendIo) (now : string) (log : AuditLog) (cache_cleared : bool) :=
  append io now log VaultLocked None (json_object [("cache_cleared", Bool cache_cleared)]).

Definition log_transaction_signed (io : AppendIo) (now : string) (log : AuditLog)
    (session_key_id : option string) (chain_id : string) :=
  append io now log TransactionSigned session_key_id (json_object [("chain_id", VString chain_id)]).

Definition log_auth_signed (io : AppendIo) (now : string) (log : AuditLog) (wallet_id chain_id : string) :=
  append io now log AuthSigned None
    (json_object [("wallet_id", VString wallet_id); ("chain_id", VString chain_id)]).

(** ** Verification *)

(** The body of the loop for one entry: the hash the next one has to name. *)
Definition verify_entry (vk : VerifyingKey) (prev : string) (entry : AuditEntry)
  : audit_result string :=
  if negb (String.eqb (prev_hash entry) prev) then Err (ChainHashMismatch (seq entry))
  else
    let? canonical := canonical_bytes entry in
    let? sig_bytes := result_map_err Signature (hex_decode (device_sig entry)) in
    if negb (len sig_bytes =? 64)%Z then
      Err (Signature ("invalid signature length: " +:+ fmt_Z (len sig_bytes) +:+
                      " (expected 64)"))
    else if negb (verify vk canonical sig_bytes) then Err (Tampered (seq entry))
    else hash_entry entry.

Fixpoint verify_lines (vk : VerifyingKey) (prev : string) (lines : list (result io_error string))
  : audit_result unit :=
  match lines with
  | [] => Ok tt
  | Err e :: _ => Err (Io e)
  | Ok line :: lines' =>
      if is_empty (trim line) then verify_lines vk prev lines'
      else
        let? entry := result_map_err Json (entry_from_json line) in
        let? h := verify_entry vk prev entry in
        verify_lines vk h lines'
  end.

Definition verify_chain (open_err : option io_error) (read_fault : option (nat * io_error))
    (log : AuditLog) (d : FS) : audit_result unit :=
  let? lines := open_lines open_err read_fault (log_path log) d in
  verify_lines (verifying_key (device_key log)) "" lines.

(** ** Merging fragments *)

Definition same_key (a b : AuditEntry) : bool :=
  String.eqb (device_id a) (device_id b) && (seq a =? seq b)%Z.

(** [seen.entry(key).or_insert(entry)]. *)
Definition or_insert (seen : list AuditEntry) (e : AuditEntry) : list AuditEntry :=
  if existsb (same_key e) seen then seen else seen ++ [e].

Fixpoint collect_lines (lines : list (result io_error string)) (seen : list AuditEntry)
  : audit_result (list AuditEntry) :=
  match lines with
  | [] => Ok seen
  | Err e :: _ => Err (Io e)
  | Ok line :: lines' =>
      if is_empty (trim line) then collect_lines lines' seen
      else
        let? entry := result_map_err Json (entry_from_json line) in
        collect_lines lines' (or_insert seen entry)
  end.

(** Each fragment with the faults of reading it. *)
Fixpoint collect (fragments : list (Path * option io_error * option (nat * io_error)))
    (d : FS) (seen : list AuditEntry) : audit_result (list AuditEntry) :=
  match fragments with
  | [] => Ok seen
  | (path, open_err, fault) :: fragments' =>
      let? lines := open_lines open_err fault path d in
      let? seen := collect_lines lines seen in
      collect fragments' d seen
  end.

(** [a.timestamp.cmp(&b.timestamp).then(seq).then(device_id)]. *)
Definition entry_compare (a b : AuditEntry) : comparison :=
  match String.compare (timestamp a) (timestamp b) with
  | Eq => match (seq a ?= seq b)%Z with
          | Eq => String.compare (device_id a) (device_id b)
          | c => c
          end
  | c => c
  end.

Definition entry_leb (a b : AuditEntry) : bool :=
  match entry_compare a b with Gt => false | _ => true end.

(** [sort_by]: a stable sort. *)
Fixpoint insert_entry (e : AuditEntry) (l : list AuditEntry) : list AuditEntry :=
  match l with
  | [] => [e]
  | x :: l' => if entry_leb e x then e :: l else x :: insert_entry e l'
  end.

Definition sort_entries (l : list AuditEntry) : list AuditEntry := fold_right insert_entry [] l.

Fixpoint entries_text (l : list AuditEntry) : audit_result string :=
  match l with
  | [] => Ok ""
  | e :: l' =>
      let? line := result_map_err Json (entry_to_json e) in
      let? rest := entries_text l' in
      Ok (line +:+ String lf rest)
  end.

Record MergeIo := {
  merge_dir_err : option io_error;
  merge_create_err : option io_error;
  merge_faults : WriteFaults io_error;
  tmp_pid : Z; tmp_nanos : Z; tmp_seq : Z
}.

Definition merge (io : MergeIo) (fragments : list (Path * option io_error * option (nat * io_error)))
    (output : Path) (key : SigningKey) (d : FS) : audit_result AuditLog * list FS :=
  match collect fragments d [] with
  | Err e => (Err e, [d])
  | Ok seen =>
      let all_entries := sort_entries (hash_values seen) in
      match (if has_named_parent output then merge_dir_err io else None), entries_text all_entries with
      | Some e, _ => (Err (Io e), [d])
      | None, Err e => (Err e, [d])
      | None, Ok merged =>
          match write_atomic_private no_parent (merge_create_err io) (merge_faults io) output merged
                  (tmp_pid io) (tmp_nanos io) (tmp_seq io) d with
          | (Err e, trace) => (Err (Io e), trace)
          | (Ok _, trace) =>
              let log h n dev := {| log_path := output; log_device_id := dev; device_key := key;
                                    last_hash := h; last_seq := n |} in
              (match last all_entries with
               | Some e => let? h := hash_entry e in Ok (log h (seq e) (device_id e))
               | None => Ok (log "" 0%Z "")
               end, trace)
          end
      end
  end.

(** ** The device key *)

Record KeyIo := {
  key_read_err : option io_error;
  key_dir_err : option io_error;
  key_chmod_err : option io_error;
  key_create_err : option io_error;
  key_faults : WriteFaults io_error;
  key_pid : Z; key_nanos : Z; key_seq : Z
}.

Definition key_load (io : KeyIo) (path : Path) (d : FS) : audit_result SigningKey :=
  match key_read_err io, d !! path with
  | Some e, _ => Err (DeviceKeyError ("read key: " +:+ show_io e))
  | None, None => Err (DeviceKeyError ("read key: " +:+ show_io not_found))
  | None, Some file =>
      if negb (String.length (file_content file) =? 32)%nat then
        Err (DeviceKeyError ("expected 32 bytes, got " +:+ fmt_Z (str_len (file_content file))))
      else Ok (key_from_bytes (file_content file))
  end.

(** [random] is what the generator fills the 32 bytes with. *)
Definition generate_and_save (io : KeyIo) (random : string) (path : Path) (d : FS)
  : audit_result SigningKey * list FS :=
  let key := key_from_bytes random in
  match path.1, key_dir_err io, key_chmod_err io with
  | Some _, Some e, _ => (Err (DeviceKeyError ("create dir: " +:+ show_io e)), [d])
  | Some _, None, Some e => (Err (DeviceKeyError ("set dir perms: " +:+ show_io e)), [d])
  | _, _, _ =>
      let '(r, trace) := write_atomic_private no_parent (key_create_err io) (key_faults io) path
                           (key_to_bytes key) (key_pid io) (key_nanos io) (key_seq io) d in
      (match r with
       | Ok _ => Ok key
       | Err e => Err (DeviceKeyError ("write key: " +:+ show_io e))
       end, trace)
  end.

Definition load_or_generate (io : KeyIo) (random : string) (path : Path) (d : FS)
  : audit_result SigningKey * list FS :=
  match d !! path with
  | Some _ => (key_load io path d, [d])
  | None => generate_and_save io random path d
  end.

(** ** What a file records *)

(** The entries of the lines that are not blank, if every one parses. *)
Fixpoint read_entries (lines : list (result io_error string)) : option (list AuditEntry) :=
  match lines with
  | [] => Some []
  | Err _ :: _ => None
  | Ok line :: lines' =>
      if is_empty (trim line) then read_entries lines'
      else match entry_from_json line with
           | Ok e => (e ::.) <$> read_entries lines'
           | Err _ => None
           end
  end.

(** The entries follow one another from the hash [prev] to the hash [h]. *)
Fixpoint chained (prev : string) (es : list AuditEntry) (h : string) : Prop :=
  match es with
  | [] => h = prev
  | e :: es' => prev_hash e = prev /\ exists h', hash_entry e = Ok h' /\ chained h' es' h
  end.

(** The signature of the entry covers everything else in it. *)
Definition verified (vk : VerifyingKey) (e : AuditEntry) : Prop :=
  exists c b, canonical_bytes e = Ok c /\ hex_decode (device_sig e) = Ok b /\
    len b = 64%Z /\ verify vk c b = true.

Lemma verify_entry_ok vk prev e h :
  verify_entry vk prev e = Ok h <-> prev_hash e = prev /\ verified vk e /\ hash_entry e = Ok h.
Proof.
  unfold verify_entry, verified.
  destruct (String.eqb_spec (prev_hash e) prev) as [Hp|Hp]; cbn [negb]; [|naive_solver].
  destruct (canonical_bytes e) as [c|]; cbn [result_bind]; [|naive_solver].
  destruct (hex_decode (device_sig e)) as [b|]; cbn [result_map_err result_bind]; [|naive_solver].
  destruct (Z.eqb_spec (len b) 64) as [Hl|Hl]; cbn [negb]; [|naive_solver].
  destruct (verify vk c b) eqn:Hv; cbn [negb].
  - split; [intros Hh; split_and!; [done|by exists c, b|done]|by intros (_ & _ & Hh)].
  - split; [done|]. intros (_ & (c' & b' & Hc & Hb & _ & Hv') & _). congruence.
Qed.

Lemma verify_lines_iff vk prev lines :
  verify_lines vk prev lines = Ok tt <->
  exists es h, read_entries lines = Some es /\ chained prev es h /\ Forall (verified vk) es.
Proof.
  revert prev. induction lines as [|[line|e] lines IH]; intros prev; cbn [verify_lines read_entries].
  - split; [|done]. intros _. exists [], prev. by repeat constructor.
  - destruct (is_empty (trim line)); [apply IH|].
    destruct (entry_from_json line) as [e|err]; cbn [result_map_err result_bind]; [|naive_solver].
    destruct (verify_entry vk prev e) as [h|] eqn:He; cbn [result_bind].
    + apply verify_entry_ok in He as (Hp & Hv & Hh). rewrite IH. split.
      * intros (es & h' & -> & Hc & Hall). exists (e :: es), h'.
        split; [done|]. split; [split; [done|by exists h]|by constructor].
      * intros (es & h' & Hes & Hc & Hall).
        destruct (read_entries lines) as [es'|]; [|done]. injection Hes as <-.
        destruct Hc as (_ & h2 & Hh2 & Hc). apply Forall_cons in Hall as [_ Hall]. assert (h2 = h) as -> by congruence. eauto.
    + split; [done|]. intros (es & h' & Hes & Hc & Hall).
      destruct (read_entries lines) as [es'|]; [|done]. injection Hes as <-.
      destruct Hc as (Hp & h2 & Hh2 & Hc). apply Forall_cons in Hall as [Hv _].
      by rewrite (proj2 (verify_entry_ok vk prev e h2)) in He.
  - naive_solver.
Qed.

Lemma tail_of_chained lines es prev h n :
  read_entries lines = Some es -> chained prev es h ->
  tail_of lines prev n = Ok (h, from_option seq n (last es)).
Proof.
  revert es prev n. induction lines as [|[line|e] lines IH]; intros es prev n; cbn [tail_of read_entries].
  - intros [= <-] ->. done.
  - destruct (is_empty (trim line)); [apply IH|].
    destruct (entry_from_json line) as [e|]; [|done].
    destruct (read_entries lines) as [es'|]; [|done]. intros [= <-] (Hp & h' & Hh & Hc).
    rewrite Hh. cbn [result_bind]. rewrite (IH es' h' (seq e) eq_refl Hc).
    rewrite last_cons. by destruct (last es').
  - done.
Qed.

(** What [verify_chain] accepts: a file whose lines are blank or entries, each
    naming the hash of the one before it, the first none, and carrying a valid
    signature of the device over everything else in it. *)
Theorem verify_chain_iff log d :
  verify_chain None None log d = Ok tt <->
  exists file es h, d !! log_path log = Some file /\
    read_entries (reader_lines None (file_content file)) = Some es /\
    chained "" es h /\ Forall (verified (verifying_key (device_key log))) es.
Proof.
  unfold verify_chain, open_lines. destruct (d !! log_path log) as [file|]; cbn [result_bind].
  - rewrite verify_lines_iff. naive_solver.
  - naive_solver.
Qed.

(** ** Tampering *)

Context {L : AuditLaws E}.

Lemma chained_snoc prev es e h :
  chained prev (es ++ [e]) h <-> chained prev es (prev_hash e) /\ hash_entry e = Ok h.
Proof.
  revert prev. induction es as [|x es IH]; intros prev; cbn [app chained].
  - split; [intros (-> & h' & Hh & ->); done|]. intros (-> & Hh). split; [done|]. by exists h.
  - setoid_rewrite IH. naive_solver.
Qed.

(** The hashed texts of the two entries differ and have the same digest: of two entries at
    hand, which is not a statement about all texts, among which such a pair always exists. *)
Definition collide (e1 e2 : AuditEntry) : Prop :=
  exists c1 c2, canonical_bytes e1 = Ok c1 /\ canonical_bytes e2 = Ok c2 /\ c1 <> c2 /\ sha256 c1 = sha256 c2.

(** The entries without their signatures. *)
Definition unsigned (es : list AuditEntry) : list AuditEntry := map (fun e => with_sig e "") es.

(** An entry of the one list collides with one of the other, and after these two the lists
    are the same. *)
Definition forged (es1 es2 : list AuditEntry) : Prop :=
  exists a1 e1 a2 e2 t1 t2, es1 = a1 ++ e1 :: t1 /\ es2 = a2 ++ e2 :: t2 /\ unsigned t1 = unsigned t2 /\ collide e1 e2.

Lemma hash_entry_inj a b h :
  hash_entry a = Ok h -> hash_entry b = Ok h -> with_sig a "" = with_sig b "" \/ collide a b.
Proof.
  unfold hash_entry. intros Ha Hb. bind1 Ha ca Hca. bind1 Hb cb Hcb. simplify_eq.
  assert (Hs : sha256 ca = sha256 cb).
  { pose proof (hex_roundtrip _ (proj1 (sha256_bytes ca))).
    pose proof (hex_roundtrip _ (proj1 (sha256_bytes cb))). congruence. }
  destruct (String.eqb_spec ca cb) as [->|Hne]; [left|right; by exists ca, cb].
  unfold canonical_bytes in Hca, Hcb.
  destruct (entry_to_json (with_sig a "")) as [xa|] eqn:Ea; [|done].
  destruct (entry_to_json (with_sig b "")) as [xb|] eqn:Eb; [|done].
  cbn in Hca, Hcb. apply entry_roundtrip in Ea, Eb. congruence.
Qed.

Lemma forged_snoc es1 es2 e1 e2 : with_sig e1 "" = with_sig e2 "" -> forged es1 es2 -> forged (es1 ++ [e1]) (es2 ++ [e2]).
Proof.
  intros He (a1 & f1 & a2 & f2 & t1 & t2 & -> & -> & Ht & Hc). exists a1, f1, a2, f2, (t1 ++ [e1]), (t2 ++ [e2]).
  unfold unsigned in *. rewrite <- !app_assoc, !map_app, Ht. cbn. by rewrite He.
Qed.

Lemma hash_entry_nonempty e h : hash_entry e = Ok h -> h <> "".
Proof.
  unfold hash_entry. intros Hh. bind1 Hh c Hc. injection Hh as <-. intros Hx.
  pose proof (hex_length (sha256 c)) as Hl. rewrite Hx in Hl.
  destruct (sha256_bytes c) as [_ H]. unfold len in H. cbn in Hl. lia.
Qed.

Lemma chained_unique es1 es2 h :
  chained "" es1 h -> chained "" es2 h ->
  unsigned es1 = unsigned es2 \/ forged es1 es2.
Proof.
  revert es2 h. induction es1 as [|e1 es1 IH] using rev_ind; intros es2 h.
  - intros ->. destruct es2 as [|e2 es2 _] using rev_ind; [by left|].
    rewrite chained_snoc. intros [_ Hh]. by apply hash_entry_nonempty in Hh.
  - rewrite chained_snoc. intros [Hc1 Hh1]. destruct es2 as [|e2 es2 _] using rev_ind.
    { intros ->. by apply hash_entry_nonempty in Hh1. }
    rewrite chained_snoc. intros [Hc2 Hh2].
    destruct (hash_entry_inj _ _ _ Hh1 Hh2) as [He|Hcol]; [|right; by exists es1, e1, es2, e2, [], []].
    assert (Hp : prev_hash e1 = prev_hash e2) by (by injection He).
    rewrite <- Hp in Hc2. destruct (IH es2 _ Hc1 Hc2) as [Hm|Hf]; [left|right; by apply forged_snoc].
    unfold unsigned in *. rewrite !map_app, Hm. cbn [map]. by rewrite He.
Qed.

(** C37 Tamper evidence: two logs that verify and end in the same hash hold the
    same entries, signatures aside, or an entry of the one and an entry of the other have
    different texts with the same SHA-256, the entries after these being the same.  Whoever
    keeps the last hash detects every change, removal, insertion and reordering of
    the entries before it, but by a collision that the two logs themselves exhibit. *)
Theorem tamper_evident log1 log2 io1 io2 d1 d2 h n1 n2 :
  verify_chain None None log1 d1 = Ok tt -> verify_chain None None log2 d2 = Ok tt ->
  reopen_err io1 = None -> read_fault io1 = None -> reopen_err io2 = None -> read_fault io2 = None ->
  load_tail io1 (log_path log1) d1 = Ok (h, n1) -> load_tail io2 (log_path log2) d2 = Ok (h, n2) ->
  exists file1 file2 es1 es2,
    d1 !! log_path log1 = Some file1 /\ d2 !! log_path log2 = Some file2 /\
    read_entries (reader_lines None (file_content file1)) = Some es1 /\
    read_entries (reader_lines None (file_content file2)) = Some es2 /\
    (unsigned es1 = unsigned es2 \/ forged es1 es2).
Proof.
  unfold verify_chain, load_tail, open_lines. intros H1 H2 -> -> -> ->.
  destruct (d1 !! log_path log1) as [f1|]; [|done].
  destruct (d2 !! log_path log2) as [f2|]; [|done]. cbn [result_bind] in *.
  apply verify_lines_iff in H1 as (es1 & h1 & Hr1 & Hc1 & _).
  apply verify_lines_iff in H2 as (es2 & h2 & Hr2 & Hc2 & _).
  rewrite (tail_of_chained _ _ _ _ _ Hr1 Hc1), (tail_of_chained _ _ _ _ _ Hr2 Hc2).
  intros [= <- _] [= Heq _]. subst. exists f1, f2, es1, es2. split_and!; try done.
  by eapply chained_unique.
Qed.

(** ** Appending *)

Lemma read_entries_text es c : entries_text es = Ok c -> read_entries (reader_lines None c) = Some es.
Proof.
  revert c. induction es as [|e es IH]; intros c; cbn [entries_text]; [by intros [= <-]|].
  destruct (entry_to_json e) as [line|] eqn:Hj; [|done]. cbn [result_map_err result_bind].
  intros H. bind1 H rest Hr. injection H as <-.
  destruct (entry_one_line e line Hj) as (Hlf & Hcr & Hu & Ht).
  unfold reader_lines. rewrite buf_lines_app by done. cbn [map read_entries].
  rewrite Hu, Ht, (entry_roundtrip _ _ Hj). change (map _ (buf_lines rest)) with (reader_lines None rest).
  by rewrite (IH rest).
Qed.

Lemma entries_text_snoc es c e line :
  entries_text es = Ok c -> entry_to_json e = Ok line ->
  entries_text (es ++ [e]) = Ok (c +:+ (line +:+ String lf "")).
Proof.
  revert c. induction es as [|x es IH]; intros c; cbn [app entries_text].
  - intros [= <-] ->. done.
  - intros H Hj. bind1 H lx Hx. bind1 H rest Hr. injection H as <-.
    rewrite Hx, (IH rest Hr Hj). cbn [result_bind]. by rewrite <- app_assoc_str.
Qed.

(** The sequence numbers an append-only log gives its entries. *)
Definition numbered (es : list AuditEntry) : Prop :=
  map seq es = map (fun i => (Z.of_nat i mod 2 ^ 64)%Z) (List.seq 1 (length es)).

(** The log and its file agree, and the file is sound. *)
Definition sound (log : AuditLog) (d : FS) : Prop :=
  exists file es, d !! log_path log = Some file /\
    entries_text es = Ok (file_content file) /\ chained "" es (last_hash log) /\
    Forall (verified (verifying_key (device_key log))) es /\ numbered es /\
    last_seq log = (Z.of_nat (length es) mod 2 ^ 64)%Z.

Lemma append_ok io now log ev skid pl d n log' d' :
  append io now log ev skid pl d = (Ok n, log', d') ->
  exists file e line h,
    d !! log_path log = Some file /\ entry_to_json e = Ok line /\ hash_entry e = Ok h /\
    prev_hash e = last_hash log /\ seq e = n /\ n = ((last_seq log + 1) mod 2 ^ 64)%Z /\
    verified (verifying_key (device_key log)) e /\
    d' = append_to (log_path log) (line +:+ String lf "") file d /\
    log' = {| log_path := log_path log; log_device_id := log_device_id log;
              device_key := device_key log; last_hash := h; last_seq := n |}.
Proof.
  unfold append. set (entry := {| prev_hash := last_hash log |}).
  destruct (canonical_bytes entry) as [c|] eqn:Hc; [|done].
  set (signed := with_sig entry _).
  destruct (entry_to_json signed) as [line|] eqn:Hj, (append_open_err io),
    (d !! log_path log) as [file|]; try done.
  destruct (append_fault io) as [[? ?]|]; [done|]. destruct (append_sync_err io); [done|].
  destruct (hash_entry signed) as [h|] eqn:Hh; [|done]. intros [= <- <- <-].
  exists file, signed, line, h. split_and!; try done.
  destruct (sign_bytes (device_key log) c) as [Hb Hl].
  exists c, (sign (device_key log) c). split_and!; [done| |done|apply verify_sign].
  by apply hex_roundtrip.
Qed.

Lemma append_sound io now log ev skid pl d n log' d' :
  sound log d -> append io now log ev skid pl d = (Ok n, log', d') -> sound log' d'.
Proof.
  intros (file & es & Hd & Ht & Hc & Hv & Hn & Hs) H.
  apply append_ok in H as (file' & e & line & h & Hd' & Hj & Hh & Hp & Hsq & Hn' & Hve & -> & ->).
  rewrite Hd in Hd'. injection Hd' as <-. cbn in *.
  exists {| file_mode := file_mode file; file_content := file_content file +:+ (line +:+ String lf "") |},
    (es ++ [e]). unfold append_to. cbn [file_content].
  assert (Hnum : n = (Z.of_nat (length (es ++ [e])) mod 2 ^ 64)%Z).
  { rewrite Hn', Hs, Zplus_mod_idemp_l, length_app. f_equal. cbn [length]. lia. }
  split_and!; [by simplify_map_eq|by apply entries_text_snoc|by rewrite chained_snoc, Hp
    |by apply Forall_app; repeat constructor| |done].
  unfold numbered in *. rewrite map_app, Hn. cbn [map]. rewrite Hsq, Hnum, length_app, seq_app, map_app.
  cbn [length map List.seq]. by rewrite (Nat.add_comm (length es) 1).
Qed.

(** Whatever an append that is not torn answers, the log stays sound. *)
Lemma append_whole io now log ev skid pl d :
  append_fault io = None -> append_sync_err io = None -> sound log d ->
  let '(_, log', d') := append io now log ev skid pl d in sound log' d'.
Proof.
  intros Hf Hs Hsound. destruct (append io now log ev skid pl d) as [[[n|e] log'] d'] eqn:H;
    [by eapply append_sound|]. revert H. unfold append. set (entry := {| prev_hash := last_hash log |}).
  destruct (canonical_bytes entry) as [c|] eqn:Hc; [|by intros [= _ <- <-]].
  set (signed := with_sig entry _). assert (Hh : hash_entry signed = Ok (hex_encode (sha256 c))).
  { unfold hash_entry. change (canonical_bytes signed) with (canonical_bytes entry). by rewrite Hc. }
  rewrite Hf, Hs, Hh. destruct (entry_to_json signed), (append_open_err io), (d !! log_path log);
    intros [=]; by subst.
Qed.

(** Reopening a sound log restores the tail state exactly. *)
Lemma reopen_sound io log d log' d' :
  sound log d -> open io (log_path log) (log_device_id log) (device_key log) d = (Ok log', d') ->
  log' = log /\ sound log' d'.
Proof.
  intros (file & es & Hd & Ht & Hc & Hv & Hn & Hs). unfold open.
  destruct (if has_named_parent _ then _ else _); [done|]. rewrite Hd.
  set (d1 := if chmod_ok io then _ else _). intros H. injection H as H <-.
  bind1 H t Ht'. destruct t as [h n]. injection H as <-.
  assert (Hd1 : exists m, d1 !! log_path log = Some {| file_mode := m; file_content := file_content file |}).
  { subst d1. destruct (chmod_ok io); [eexists; by simplify_map_eq|]. exists (file_mode file).
    rewrite Hd. by destruct file. }
  destruct Hd1 as (m & Hd1). unfold load_tail, open_lines in Ht'. rewrite Hd1 in Ht'.
  destruct (reopen_err io); [done|]. cbn [result_bind file_content] in Ht'.
  pose proof (read_entries_text es _ Ht) as Hr.
  assert (Htail : tail_of (reader_lines None (file_content file)) "" 0 =
                  Ok (last_hash log, from_option seq 0%Z (last es))) by (by apply tail_of_chained).
  unfold reader_lines in *. destruct (read_fault io) as [[k e]|].
  { exfalso. revert Ht'. generalize (map (fun l => if utf8 l then Ok l else Err invalid_utf8)
      (buf_lines (file_content file))). intros ls. generalize ""%string, 0%Z. revert ls.
    induction k as [|k IH]; intros [|[x|x] ls] p q; cbn; try done.
    destruct (is_empty (trim x)); [apply IH|]. destruct (entry_from_json x); [|apply IH].
    destruct (hash_entry _); [apply IH|done]. }
  rewrite Htail in Ht'. injection Ht' as <- <-.
  assert (Hseq : from_option seq 0%Z (last es) = last_seq log).
  { rewrite Hs. unfold numbered in Hn. destruct es as [|e es _] using rev_ind; [done|].
    rewrite last_snoc. cbn. rewrite map_app, length_app, seq_app, map_app in Hn.
    apply app_inj_2 in Hn as [_ Hn]; [|done]. cbn in Hn. injection Hn as ->.
    rewrite length_app. cbn [length]. by rewrite Nat.add_comm. }
  rewrite Hseq. split; [by destruct log|].
  exists {| file_mode := m; file_content := file_content file |}, es. by split_and!.
Qed.

(** The logs one device grows: a new file, entries appended, the process
    restarted. *)
Inductive grown : AuditLog -> FS -> Prop :=
| grown_create io path dev key d log d' :
    d !! path = None -> open io path dev key d = (Ok log, d') -> grown log d'
| grown_append io now log ev skid pl d n log' d' :
    grown log d -> append io now log ev skid pl d = (Ok n, log', d') -> grown log' d'
| grown_reopen io log d log' d' :
    grown log d -> open io (log_path log) (log_device_id log) (device_key log) d = (Ok log', d') ->
    grown log' d'.

Lemma grown_sound log d : grown log d -> sound log d.
Proof.
  induction 1 as [io path dev key d log d' Hd H|io now log ev skid pl d n log' d' _ IH H
    |io log d log' d' _ IH H].
  - unfold open in H. destruct (if has_named_parent _ then _ else _); [done|]. rewrite Hd in H.
    destruct (create_err io); [done|]. injection H as <- <-.
    exists {| file_mode := MODE_PRIVATE_FILE; file_content := "" |}, []. cbn.
    split_and!; try done. by simplify_map_eq.
  - by eapply append_sound.
  - by apply (reopen_sound io log d).
Qed.

(** A sound log verifies, and its file holds its numbered entries. *)
Lemma sound_verifies log d :
  sound log d ->
  verify_chain None None log d = Ok tt /\
  exists file es, d !! log_path log = Some file /\
    read_entries (reader_lines None (file_content file)) = Some es /\ numbered es /\
    last_seq log = (Z.of_nat (length es) mod 2 ^ 64)%Z /\ chained "" es (last_hash log).
Proof.
  intros (file & es & Hd & Ht & Hc & Hv & Hn & Hs).
  pose proof (read_entries_text es _ Ht) as Hr. split.
  - unfold verify_chain, open_lines. rewrite Hd. cbn [result_bind].
    apply verify_lines_iff. by exists es, (last_hash log).
  - by exists file, es.
Qed.

(** A log that one device has written verifies: after any sequence of
    successful appends and restarts, [verify_chain] accepts the file, which holds
    the entries numbered from 1 in order, and the log in memory names the last
    of them. *)
Theorem grown_verifies log d :
  grown log d ->
  verify_chain None None log d = Ok tt /\
  exists file es, d !! log_path log = Some file /\
    read_entries (reader_lines None (file_content file)) = Some es /\ numbered es /\
    last_seq log = (Z.of_nat (length es) mod 2 ^ 64)%Z /\ chained "" es (last_hash log).
Proof. intros H. by apply sound_verifies, grown_sound. Qed.

(** ** What verification does not see *)

Lemma verify_lines_prefix vk prev ls ls' :
  verify_lines vk prev (ls ++ ls') = Ok tt -> verify_lines vk prev ls = Ok tt.
Proof.
  revert prev. induction ls as [|[line|e] ls IH]; intros prev; cbn [app verify_lines]; try done.
  destruct (is_empty (trim line)); [apply IH|].
  destruct (entry_from_json line) as [e|]; [|done]. cbn [result_map_err result_bind].
  destruct (verify_entry vk prev e); [apply IH|done].
Qed.

(** Dropping entries from the end goes unnoticed: a log that verifies still does
    when its file is cut after any of its line feeds.  Only the last hash, kept
    elsewhere, tells the difference. *)
Theorem truncation_undetected log d mode a b :
  d !! log_path log = Some {| file_mode := mode; file_content := a +:+ String lf b |} ->
  verify_chain None None log d = Ok tt ->
  verify_chain None None log
    (<[log_path log := {| file_mode := mode; file_content := a +:+ String lf "" |}]> d) = Ok tt.
Proof.
  intros Hd. unfold verify_chain, open_lines, reader_lines. rewrite Hd, lookup_insert_eq.
  cbn [result_bind file_content]. rewrite buf_lines_cut, map_app. apply verify_lines_prefix.
Qed.
End Chain.

(** ** A concrete environment *)

Definition all_events : list EventType :=
  [CreateSessionKey; RevokeSessionKey; SignUserOp; PasskeyForged; PasskeyMissing; PasskeyReplay;
   PolicyLookupFailed; PolicyParseFailed; EvHumanAlert; BudgetReclaim; BackupAttemptFailed;
   BackupLocked; AuthFailed; SecretRead; SecretWritten; SecretDeleted; SecretMigrated;
   AgeRecipientAdded; AgeReencrypted; ChallengeIssued; VaultLocked; VaultUnlocked;
   TransactionSigned; AuthSigned; SiwxSigned; PasskeyRegistered; EnclavePending; EnclaveResolved].

Fixpoint event_index (l : list EventType) (e : EventType) : nat :=
  match l with
  | [] => O
  | x :: l' => if decide (x = e) then O else Datatypes.S (event_index l' e)
  end.

Lemma event_roundtrip e : all_events !! event_index all_events e = Some e.
Proof. by destruct e. Qed.

(** The payloads of the concrete runs: objects of strings, booleans, unsigned
    integers and nulls. *)
Definition scalar_code (v : @Value demo_number) : option (option (string + (bool + Z))) :=
  match v with
  | Null => Some None
  | Bool b => Some (Some (inr (inl b)))
  | Number (PosInt n) => Some (Some (inr (inr n)))
  | VString s => Some (Some (inl s))
  | _ => None
  end.

Definition scalar_of (c : option (string + (bool + Z))) : @Value demo_number :=
  match c with
  | None => Null
  | Some (inl s) => VString s
  | Some (inr (inl b)) => Bool b
  | Some (inr (inr n)) => Number (PosInt n : @number demo_number)
  end.

Lemma scalar_roundtrip v c : scalar_code v = Some c -> scalar_of c = v.
Proof. destruct v as [|b|n|s|l|m]; try done; [..|destruct n; try done|]; by intros [= <-]. Qed.

Definition field_code (f : string * @Value demo_number) : option (string * option (string + (bool + Z))) :=
  (fun c => (f.1, c)) <$> scalar_code f.2.

Definition payload_code (v : @Value demo_number) : option (list (string * option (string + (bool + Z)))) :=
  match v with Object m => mapM field_code m | _ => None end.

Definition payload_of (l : list (string * option (string + (bool + Z)))) : @Value demo_number :=
  Object (map (prod_map id scalar_of) l).

Lemma payload_roundtrip v l : payload_code v = Some l -> payload_of l = v.
Proof.
  destruct v as [| | | | |m]; cbn; try done. intros H%mapM_Some_1. unfold payload_of. f_equal.
  induction H as [|[k v] [k' s] m l Hf _ IH]; [done|]. cbn [map]. rewrite IH. f_equal.
  unfold field_code in Hf. cbn [fst snd] in Hf. destruct (scalar_code v) as [c|] eqn:Hc; [|done].
  injection Hf as <- <-. cbn. f_equal. by apply scalar_roundtrip.
Qed.

Abbreviation DemoEntry := (@AuditEntry demo_number).

Definition demo_entry_to_json (e : DemoEntry) : result unit string :=
  match payload_code (payload e) with
  | Some l => Ok (to_text (device_sig e, (prev_hash e, ((device_id e, (seq e, timestamp e)),
                          (event_index all_events (event_type e), (session_key_id e, l))))))
  | None => Err tt
  end.

Definition demo_entry_from_json (s : string) : result unit DemoEntry :=
  match of_text s with
  | Some (sig, (prev, ((dev, (n, ts)), (ev, (skid, l))))) =>
      match all_events !! (ev : nat) with
      | Some ev => Ok {| device_id := dev; seq := n; timestamp := ts; event_type := ev;
                         session_key_id := skid; payload := payload_of l; prev_hash := prev;
                         device_sig := sig |}
      | None => Err tt
      end
  | None => Err tt
  end.

(** A stand-in for a digest or a signature of [n] bytes. *)
Definition demo_digest (n : nat) (s : string) : bytes := to_be_bytes n (Z.land (Z.pos (encode s)) (Z.ones 512)).

Definition demo_verify (s : string) (b : bytes) : bool := bool_decide (b = demo_digest 64 s).

#[export] Instance demo_audit_env : AuditEnv (S := demo_number) string unit := {|
  SigningKey := unit;
  VerifyingKey := unit;
  entry_to_json := demo_entry_to_json;
  entry_from_json := demo_entry_from_json;
  sha256 := demo_digest 32;
  hex_encode := hex;
  hex_decode s := Ok (unhex (ascii_lowercase s));
  sign _ := demo_digest 64;
  verifying_key k := k;
  verify _ := demo_verify;
  key_from_bytes _ := tt;
  key_to_bytes _ := "0123456789abcdef0123456789abcdef";
  hash_values l := l;
  invalid_utf8 := "stream did not contain valid UTF-8";
  not_found := "not found";
  no_parent _ := "no parent";
  show_io e := e
|}.

Lemma demo_digest_bytes n s : is_bytes (demo_digest n s) /\ len (demo_digest n s) = Z.of_nat n.
Proof. split; [apply to_be_bytes_bytes|unfold len, demo_digest; by rewrite to_be_bytes_length]. Qed.

Lemma lowercase_hex b : is_bytes b -> ascii_lowercase (hex b) = hex b.
Proof.
  assert (Hd : forall d, (0 <= d < 16)%Z -> to_ascii_lowercase (hex_digit d) = hex_digit d).
  { intros d Hd. replace d with (Z.of_nat (Z.to_nat d)) by lia. assert (Hk : (Z.to_nat d < 16)%nat) by lia.
    revert Hk. generalize (Z.to_nat d) as k. intros k Hk. do 16 (destruct k as [|k]; [reflexivity|]). lia. }
  induction 1 as [|x b Hx _ IH]; [done|]. unfold is_byte in Hx. cbn [hex ascii_lowercase].
  pose proof (Z.mod_pos_bound x 16 ltac:(done)). pose proof (Z.div_mod x 16 ltac:(done)).
  by rewrite !Hd, IH by lia.
Qed.

#[export] Instance demo_audit_laws : AuditLaws demo_audit_env.
Proof.
  split; cbn [entry_to_json entry_from_json hex_encode hex_decode sha256 sign verify verifying_key
              key_from_bytes key_to_bytes hash_values demo_audit_env].
  - intros [dev n ts ev skid pl prev sig] s. unfold demo_entry_to_json.
    cbn [device_id seq timestamp event_type session_key_id payload prev_hash device_sig].
    destruct (payload_code pl) as [l|] eqn:Hl; [|done]. intros [= <-].
    unfold demo_entry_from_json. rewrite of_to_text. cbv beta iota.
    pose proof (event_roundtrip ev) as Hev. cbn in Hev. rewrite Hev.
    by rewrite (payload_roundtrip pl l).
  - intros e s. unfold demo_entry_to_json. destruct (payload_code (payload e)); [|done].
    intros [= <-]. apply to_text_line.
  - intros b Hb. by rewrite lowercase_hex, unhex_hex.
  - intros b. induction b as [|x b IH]; [done|]. cbn [hex String.length length]. rewrite IH. lia.
  - intros s. apply demo_digest_bytes.
  - intros k s. apply demo_digest_bytes.
  - intros k s. by apply bool_decide_eq_true.
  - by intros [].
  - done.
  - done.
Qed.

Definition demo_open_io : @OpenIo string := {|
  create_dir_err := None; create_err := None; chmod_ok := true; reopen_err := None; read_fault := None
|}.
Definition demo_append_io : @AppendIo string := {|
  append_open_err := None; append_fault := None; append_sync_err := None
|}.

Definition demo_key_io : @KeyIo string := {|
  key_read_err := None; key_dir_err := None; key_chmod_err := None; key_create_err := None;
  key_faults := demo_faults; key_pid := 7; key_nanos := 0; key_seq := 0
|}.

Definition demo_log_path : Path := (Some "logs", Some "audit.jsonl").
Definition demo_created : AuditLog * FS :=
  let '(r, d) := open demo_open_io demo_log_path "keyagent" tt ∅ in
  (match r with Ok log => log | Err _ => {| log_path := demo_log_path; log_device_id := "";
                device_key := tt; last_hash := ""; last_seq := 0 |} end, d).
Definition demo_log0 : AuditLog := demo_created.1.
Definition demo_append1 := log_secret_deleted demo_append_io "t1" demo_log0 "a" demo_created.2.
Definition demo_append2 := log_secret_deleted demo_append_io "t2" demo_append1.1.2 "b" demo_append1.2.

Lemma grown_verifies_witness :
  grown demo_append2.1.2 demo_append2.2 /\ last_seq demo_append2.1.2 = 2%Z /\
  verify_chain None None demo_append2.1.2 demo_append2.2 = Ok tt.
Proof.
  assert (H : grown demo_append2.1.2 demo_append2.2).
  { eapply (grown_append demo_append_io "t2" demo_append1.1.2 SecretDeleted None
      (json_object [("name", VString "b")]) demo_append1.2 2%Z); [|runs].
    eapply (grown_append demo_append_io "t1" demo_log0 SecretDeleted None
      (json_object [("name", VString "a")]) demo_created.2 1%Z); [|runs].
    eapply (grown_create (E := demo_audit_env) demo_open_io demo_log_path "keyagent" tt ∅); runs. }
  split; [exact H|]. split; [runs|]. exact (proj1 (grown_verifies _ _ H)).
Defined.

(** Another copy of the log of one entry: a blank line first, and the signature spelled in
    capitals, which hex reads the same. *)
Definition entries_at (d : FS) : list DemoEntry :=
  default [] (d !! demo_log_path ≫= fun f => read_entries (E := demo_audit_env) (reader_lines None (file_content f))).
Fixpoint capitals (s : string) : string :=
  match s with
  | String c s' => String (if in_range "a" "z" c then ascii_of_N (byte_of c - 32) else c) (capitals s')
  | EmptyString => ""
  end.
Definition capital_sig (e : DemoEntry) : DemoEntry := with_sig e (capitals (device_sig e)).
Definition demo_copy_text : string :=
  match entries_text (E := demo_audit_env) (map capital_sig (entries_at demo_append1.2)) with Ok c => String lf c | Err _ => "" end.
Definition demo_copy : FS := {[ demo_log_path := {| file_mode := MODE_PRIVATE_FILE; file_content := demo_copy_text |} ]}.

Lemma copy_differs : entries_at demo_append1.2 <> entries_at demo_copy.
Proof.
  assert (Hb : bool_decide (map device_sig (entries_at demo_append1.2) = map device_sig (entries_at demo_copy)) = false) by runs.
  intros H. exact (bool_decide_eq_false_1 _ Hb (f_equal (map device_sig) H)).
Qed.

Lemma tamper_evident_witness :
  exists file1 file2 es1 es2,
    demo_append1.2 !! demo_log_path = Some file1 /\ demo_copy !! demo_log_path = Some file2 /\
    read_entries (reader_lines None (file_content file1)) = Some es1 /\
    read_entries (reader_lines None (file_content file2)) = Some es2 /\
    (unsigned es1 = unsigned es2 \/ forged (E := demo_audit_env) es1 es2) /\ es1 <> es2.
Proof.
  destruct (tamper_evident demo_append1.1.2 demo_append1.1.2 demo_open_io demo_open_io demo_append1.2 demo_copy
    (last_hash demo_append1.1.2) 1%Z 1%Z) as (f1 & f2 & es1 & es2 & H1 & H2 & Hr1 & Hr2 & Hor); [runs..|].
  exists f1, f2, es1, es2. split_and!; [done..|]. intros Heq. apply copy_differs. unfold entries_at.
  rewrite (H1 : demo_append1.2 !! demo_log_path = Some f1), (H2 : demo_copy !! demo_log_path = Some f2). cbn [mbind option_bind].
  by rewrite Hr1, Hr2, Heq.
Defined.

(** The file of two entries, cut after the first. *)
Lemma truncation_undetected_witness :
  let line1 := match demo_append1.2 !! demo_log_path with
               | Some f => file_content f | None => "" end in
  let first := String.substring 0 (String.length line1 - 1) line1 in
  verify_chain None None demo_append2.1.2
    (<[demo_log_path := {| file_mode := MODE_PRIVATE_FILE; file_content := first +:+ String lf "" |}]>
       demo_append2.2) = Ok tt.
Proof.
  intros line1 first.
  apply (truncation_undetected demo_append2.1.2 demo_append2.2 MODE_PRIVATE_FILE first
    (match demo_append2.2 !! demo_log_path with
     | Some f => String.substring (String.length line1) (String.length (file_content f)) (file_content f)
     | None => "" end)); runs.
Defined.

(** An append that fails after writing part of its line leaves the log in memory as
    it was; the next append continues that line, and from then on the chain does
    not verify. *)
Lemma torn_append_breaks_chain :
  let io := {| append_open_err := None; append_fault := Some (40%nat, "disk full"); append_sync_err := None |} in
  let torn := log_secret_deleted io "t2" demo_append1.1.2 "b" demo_append1.2 in
  let next := log_secret_deleted demo_append_io "t3" torn.1.2 "c" torn.2 in
  torn.1.1 = Err (Io "disk full") /\ next.1.1 = Ok 2%Z /\
  verify_chain None None next.1.2 next.2 = Err (Json tt).
Proof. intros io torn next. split_and!; runs. Qed.
