(* ===== verification/AuditMerge.v ===== *)
(** * Merging audit logs

    What [AuditLog::merge] of [crates/oc-keyagent/src/audit.rs], modelled in
    [AuditChain], makes of its fragments. *)

From Stdlib Require Import ZArith Lia Bool Ascii String Sorting.Sorted.
From stdpp Require Import base list strings gmap sorting.
From S2P Require Import Prelude F64 Str Files Json Bytes DemoText AuditChain.

Local Open Scope oc_scope.

Section Merge.
Context {S : SerdeNumber}.

(** ** The order of the output *)

Definition entry_le (a b : AuditEntry) : Prop := entry_leb a b = true.

(** Timestamp first, then number, then device. *)
Definition entry_lt (a b : AuditEntry) : Prop :=
  str_lt (timestamp a) (timestamp b) \/
  timestamp a = timestamp b /\ ((seq a < seq b)%Z \/
    seq a = seq b /\ str_lt (device_id a) (device_id b)).

Lemma entry_le_iff a b :
  entry_le a b <-> entry_lt a b \/
    (timestamp a = timestamp b /\ seq a = seq b /\ device_id a = device_id b).
Proof.
  unfold entry_le, entry_leb, entry_compare, entry_lt.
  destruct (String.compare (timestamp a) (timestamp b)) eqn:Et.
  - apply str_compare_eq in Et as Et'. pose proof (str_lt_irrefl (timestamp b)).
    rewrite Et'. destruct (Z.compare_spec (seq a) (seq b)) as [Es|Es|Es].
    + pose proof (str_compare_eq (device_id a) (device_id b)).
      destruct (String.compare (device_id a) (device_id b)) eqn:Ed.
      * naive_solver.
      * unfold str_lt. rewrite Ed. naive_solver.
      * unfold str_lt at 2. rewrite Ed. split; [done|]. naive_solver lia.
    + naive_solver.
    + split; [done|]. naive_solver lia.
  - naive_solver.
  - apply str_compare_gt in Et as Et'. split; [done|]. unfold str_lt at 1. rewrite Et.
    intros [[?|[He _]]|[He _]]; [done|..]; rewrite He in Et'; by apply str_lt_irrefl in Et'.
Qed.

#[export] Instance entry_le_trans : Transitive entry_le.
Proof.
  intros a b c. rewrite !entry_le_iff. unfold entry_lt.
  intros [[H1|(T1 & [H1|[S1 H1]])]|(T1 & S1 & D1)] [[H2|(T2 & [H2|[S2 H2]])]|(T2 & S2 & D2)];
    rewrite ?T1, ?T2, ?S1, ?S2, ?D1, ?D2 in *; eauto 8 using str_lt_trans.
  left. right. split; [done|]. left. lia.
Qed.

Lemma entry_le_total a b : entry_leb a b = false -> entry_le b a.
Proof.
  unfold entry_le, entry_leb. intros H.
  assert (Hab : entry_compare a b = Gt) by (by destruct (entry_compare a b)). clear H.
  revert Hab. unfold entry_compare.
  rewrite (String.compare_antisym (timestamp b)), (String.compare_antisym (device_id b)),
    (Z.compare_antisym (seq a) (seq b)).
  destruct (String.compare (timestamp a) (timestamp b)); try done.
  destruct (seq a ?= seq b)%Z; try done.
  by destruct (String.compare (device_id a) (device_id b)).
Qed.

Lemma insert_entry_perm e l : insert_entry e l ≡ₚ e :: l.
Proof.
  induction l as [|x l IH]; cbn [insert_entry]; [done|]. destruct (entry_leb e x); [done|].
  rewrite IH. apply perm_swap.
Qed.

Lemma sort_entries_perm l : sort_entries l ≡ₚ l.
Proof. induction l as [|e l IH]; [done|]. cbn. by rewrite insert_entry_perm, IH. Qed.

Lemma insert_entry_sorted e l :
  StronglySorted entry_le l -> StronglySorted entry_le (insert_entry e l).
Proof.
  induction 1 as [|x l Hs IH Hx]; cbn [insert_entry]; [by repeat constructor|].
  destruct (entry_leb e x) eqn:Hle.
  - constructor; [by constructor|]. constructor; [done|].
    eapply Forall_impl; [exact Hx|]. intros y. by apply entry_le_trans.
  - constructor; [done|]. rewrite insert_entry_perm. constructor; [by apply entry_le_total|done].
Qed.

Lemma sort_entries_sorted l : StronglySorted entry_le (sort_entries l).
Proof. induction l as [|e l IH]; [constructor|]. by apply insert_entry_sorted. Qed.

(** ** The first entry of each key *)

Definition entry_key (e : AuditEntry) : string * Z := (device_id e, seq e).

Lemma same_key_true a b : same_key a b = true <-> entry_key a = entry_key b.
Proof.
  unfold same_key, entry_key. rewrite andb_true_iff, String.eqb_eq, Z.eqb_eq.
  split; [by intros [-> ->]|by intros [= -> ->]].
Qed.

(** [e] is the first entry of [all] with its device and number. *)
Definition first_of (all : list AuditEntry) (e : AuditEntry) : Prop :=
  exists before after, all = before ++ e :: after /\
    Forall (fun x => entry_key x <> entry_key e) before.

Lemma first_of_in all e : first_of all e -> e ∈ all.
Proof. intros (b & a & -> & _). apply elem_of_app. right. by left. Qed.

Lemma first_of_snoc all x e :
  first_of (all ++ [x]) e <->
  first_of all e \/ e = x /\ Forall (fun y => entry_key y <> entry_key x) all.
Proof.
  split.
  - intros (b & a & Heq & Hb). destruct a as [|y a _] using rev_ind.
    + apply app_inj_tail in Heq as [-> ->]. by right.
    + left. rewrite app_comm_cons, app_assoc in Heq. apply app_inj_tail in Heq as [-> _].
      by exists b, a.
  - intros [(b & a & -> & Hb)|[-> Hb]].
    + exists b, (a ++ [x]). by rewrite <- app_assoc.
    + by exists all, [].
Qed.

(** What the map of the merge holds after the entries [all]. *)
Record firsts (all seen : list AuditEntry) : Prop := {
  firsts_keys : NoDup (map entry_key seen);
  firsts_in e : e ∈ seen <-> first_of all e;
  firsts_all e : e ∈ all -> entry_key e ∈ map entry_key seen
}.

Lemma existsb_same_key x seen :
  existsb (same_key x) seen = true <-> entry_key x ∈ map entry_key seen.
Proof.
  rewrite existsb_exists, list_elem_of_fmap. setoid_rewrite same_key_true.
  setoid_rewrite <- list_elem_of_In.
  split; intros (y & ? & ?); by exists y.
Qed.

Lemma or_insert_firsts all seen x : firsts all seen -> firsts (all ++ [x]) (or_insert seen x).
Proof.
  intros [Hk Hi Ha]. unfold or_insert. destruct (existsb (same_key x) seen) eqn:Hx.
  - apply existsb_same_key in Hx. split; [done| |].
    + intros e. rewrite first_of_snoc, Hi. split; [by left|]. intros [?|[-> Hall]]; [done|].
      apply list_elem_of_fmap in Hx as (y & Hy & Hin). apply Hi, first_of_in in Hin.
      rewrite Forall_forall in Hall. by destruct (Hall y Hin).
    + intros e. rewrite elem_of_app, list_elem_of_singleton. intros [?| ->]; auto.
  - assert (Hn : entry_key x ∉ map entry_key seen) by (rewrite <- existsb_same_key; congruence).
    split.
    + rewrite map_app. apply NoDup_app. split; [done|]. split; [|apply NoDup_singleton].
      intros k Hin. cbn. rewrite list_elem_of_singleton. by intros ->.
    + intros e. rewrite first_of_snoc, elem_of_app, list_elem_of_singleton, Hi.
      split; [|by intros [?|[-> _]]; [left|right]]. intros [?| ->]; [by left|right]. split; [done|]. apply Forall_forall. intros y Hy Heq.
      apply Hn. rewrite <- Heq. by apply Ha.
    + intros e. rewrite map_app, !elem_of_app, list_elem_of_singleton. cbn. rewrite list_elem_of_singleton.
      intros [?| ->]; auto.
Qed.

Lemma fold_firsts all : firsts all (fold_left or_insert all []).
Proof.
  induction all as [|x all IH] using rev_ind.
  - cbn. split; [constructor| |by intros e ?%not_elem_of_nil].
    intros e. split; [by intros ?%not_elem_of_nil|]. by intros ?%first_of_in%not_elem_of_nil.
  - rewrite fold_left_app. by apply or_insert_firsts.
Qed.

(** Distinct keys make the order of the output total. *)
Lemma sort_entries_unique l l' :
  NoDup (map entry_key l) -> l ≡ₚ l' -> sort_entries l = sort_entries l'.
Proof.
  intros Hk Hp. apply (StronglySorted_unique_strong entry_le); [|by apply sort_entries_sorted..|].
  - intros a b Ha Hb Hab Hba. rewrite sort_entries_perm in Ha. rewrite sort_entries_perm, <- Hp in Hb.
    assert (Heq : entry_key a = entry_key b).
    { apply entry_le_iff in Hab, Hba. unfold entry_lt in Hab, Hba. unfold entry_key.
      destruct Hab as [[H|(T & [H|[Hs H]])]|(_ & -> & ->)]; [exfalso..|done];
        destruct Hba as [[H'|(T' & [H'|[Hs' H']])]|(T' & Hs' & D')];
        try lia; try (rewrite ?T, ?T', ?D' in *; by eapply str_lt_irrefl, str_lt_trans; eassumption);
        rewrite ?T, ?T', ?D' in *; by eapply str_lt_irrefl. }
    apply list_elem_of_lookup in Ha as [i Hi], Hb as [j Hj].
    assert (i = j) as ->; [|congruence].
    eapply (NoDup_lookup _ i j (entry_key a) Hk); rewrite list_lookup_fmap, ?Hi, ?Hj; [done|cbn; congruence].
  - by rewrite !sort_entries_perm.
Qed.
End Merge.

Section Fragments.
Context {S : SerdeNumber} {io_error json_error : Type} {E : AuditEnv io_error json_error}.

(** A fragment, with the faults of reading it. *)
Abbreviation Fragment := (Path * option io_error * option (nat * io_error))%type.

(** The fragment reads without a fault as the entries [es]. *)
Definition fragment_holds (d : FS) (frag : Fragment) (es : list AuditEntry) : Prop :=
  let '(path, open_err, fault) := frag in
  exists lines, open_lines (json_error := json_error) open_err fault path d = Ok lines /\
    read_entries lines = Some es.

(** The entries of all fragments, in order. *)
Definition gathered (d : FS) (fragments : list Fragment) (all : list AuditEntry) : Prop :=
  exists parts, Forall2 (fragment_holds d) fragments parts /\ all = concat parts.

Lemma collect_lines_ok lines seen seen' :
  collect_lines lines seen = Ok seen' ->
  exists es, read_entries lines = Some es /\ seen' = fold_left or_insert es seen.
Proof.
  revert seen. induction lines as [|[line|e] lines IH]; intros seen; cbn [collect_lines read_entries]; try done.
  - intros [= <-]. by exists [].
  - destruct (is_empty (trim line)); [apply IH|].
    destruct (entry_from_json line) as [e|]; [|done]. cbn [result_map_err result_bind].
    intros (es & -> & ->)%IH. by exists (e :: es).
Qed.

Lemma collect_ok fragments d seen seen' :
  collect fragments d seen = Ok seen' ->
  exists all, gathered d fragments all /\ seen' = fold_left or_insert all seen.
Proof.
  revert seen. induction fragments as [|[[path open_err] fault] fragments IH]; intros seen; cbn [collect].
  - intros [= <-]. exists []. split; [exists []; by split|done].
  - intros H. bind1 H lines Hl. bind1 H seen1 Hs. apply collect_lines_ok in Hs as (es & Hes & ->).
    apply IH in H as (all & (parts & Hp & ->) & ->). exists (es ++ concat parts).
    split; [|by rewrite fold_left_app]. exists (es :: parts). split; [|done].
    constructor; [by exists lines|done].
Qed.

Context {L : AuditLaws E}.

(** What a merge writes: of the entries of all fragments in the order given, the
    first with each device and number, and nothing else, sorted by timestamp,
    number and device, one per line, in a private file; whatever order the map
    yields them in.  The log returned continues after the last. *)
Theorem merge_spec io fragments output key d log trace :
  merge io fragments output key d = (Ok log, trace) ->
  exists all out text,
    gathered d fragments all /\
    (forall e, e ∈ out <-> first_of all e) /\ NoDup (map entry_key out) /\
    StronglySorted entry_le out /\
    default d (last trace) !! output =
      Some {| file_mode := MODE_PRIVATE_FILE; file_content := text |} /\
    read_entries (reader_lines None text) = Some out /\
    out = sort_entries (fold_left or_insert all []) /\
    log_path log = output /\ last_seq log = from_option seq 0%Z (last out) /\
    from_option (fun e => hash_entry e = Ok (last_hash log)) (last_hash log = "") (last out).
Proof.
  unfold merge. destruct (collect fragments d []) as [seen|] eqn:Hc; [|done].
  apply collect_ok in Hc as (all & Hall & ->). pose proof (fold_firsts all) as [Hk Hi _].
  rewrite <- (sort_entries_unique _ _ Hk (symmetry (hash_values_perm _))).
  set (out := sort_entries _).
  destruct (if has_named_parent output then _ else _); [done|].
  destruct (entries_text out) as [text|] eqn:Ht; [|done].
  pose proof (write_atomic_replaced no_parent (merge_create_err io) (merge_faults io) output text
    MODE_PRIVATE_FILE (tmp_pid io) (tmp_nanos io) (tmp_seq io) d) as Hw.
  unfold write_atomic_private. destruct (write_atomic _ _ _ _ _ _ _ _ _ _) as [[[]|] tr]; [|done].
  destruct Hw as [_ Hfile]. intros [= Hlog <-]. exists all, out, text.
  assert (Hperm : out ≡ₚ fold_left or_insert all []) by apply sort_entries_perm.
  split_and!; try done.
  - intros e. by rewrite Hperm.
  - by rewrite Hperm.
  - apply sort_entries_sorted.
  - by apply read_entries_text.
  - destruct (last out); [bind1 Hlog h Hh|]; by simplify_eq.
  - destruct (last out); [bind1 Hlog h Hh|]; by simplify_eq.
  - destruct (last out); [bind1 Hlog h Hh|]; by simplify_eq.
Qed.
End Fragments.

(** ** A concrete run *)

Definition demo_fragment2 : Path := (Some "logs", Some "old.jsonl").
Definition demo_output : Path := (Some "logs", Some "merged.jsonl").

(** A log of two entries, and an older copy of it with the first only. *)
Definition demo_disk : FS :=
  match demo_append1.2 !! demo_log_path with
  | Some file => <[demo_fragment2 := file]> demo_append2.2
  | None => ∅
  end.

Definition demo_merge_io : @MergeIo string := {|
  merge_dir_err := None; merge_create_err := None;
  merge_faults := {| open_err := None; exists_err := "exists"; write_err := None;
                     sync_err := None; rename_err := None; remove_fails := false |};
  tmp_pid := 7; tmp_nanos := 0; tmp_seq := 0
|}.

Definition demo_merged := merge (E := demo_audit_env) demo_merge_io [(demo_log_path, None, None); (demo_fragment2, None, None)]
                            demo_output tt demo_disk.

Lemma merge_spec_witness :
  exists all out text,
    gathered (E := demo_audit_env) demo_disk [(demo_log_path, None, None); (demo_fragment2, None, None)] all /\
    (forall e, e ∈ out <-> first_of all e) /\ StronglySorted entry_le out /\
    default demo_disk (last demo_merged.2) !! demo_output =
      Some {| file_mode := MODE_PRIVATE_FILE; file_content := text |} /\
    read_entries (reader_lines None text) = Some out /\ result_map last_seq demo_merged.1 = Ok 2%Z.
Proof.
  destruct (merge_spec (E := demo_audit_env) demo_merge_io [(demo_log_path, None, None); (demo_fragment2, None, None)]
    demo_output (tt : @SigningKey _ _ _ demo_audit_env) demo_disk {| log_path := demo_output; log_device_id := "keyagent"; device_key := (tt : @SigningKey _ _ _ demo_audit_env);
      last_hash := last_hash demo_append2.1.2; last_seq := 2 |} demo_merged.2)
    as (all & out & text & H1 & H2 & _ & H3 & H4 & H5 & _); [runs|].
  exists all, out, text. split; [exact H1|]. split; [exact H2|]. split; [exact H3|].
  split; [exact H4|]. split; [exact H5|]. runs.
Defined.
