(* ===== verification/Passkey.v ===== *)
(** * Passkey challenges and registered keys

    [crates/oc-keyagent/src/passkey.rs]: the verifier with its single-use
    challenges ([PasskeyVerifier]) and the file of registered public keys
    ([PasskeyPubkeyStore]).  The curve libraries, [serde_json] and the random
    source are parameters. *)

From Stdlib Require Import ZArith Lia Bool Ascii String Sorting.Sorted.
From stdpp Require Import base list strings gmap.
From S2P Require Import Prelude Str Bytes Files MapStore.

Local Open Scope oc_scope.

Definition CHALLENGE_TTL_SECS : Z := 120.
Definition MAX_PENDING_CHALLENGES : nat := 256.

Inductive PasskeyError := Forged | Replay | Missing | CredentialMismatch | RateLimited.

Definition show_passkey_error (e : PasskeyError) : string :=
  match e with
  | Forged => "passkey signature forged"
  | Replay => "passkey challenge replayed"
  | Missing => "passkey authorization missing"
  | CredentialMismatch => "passkey credential ID mismatch"
  | RateLimited => "passkey challenge rate limited"
  end.

(** [proto::PasskeyAuthorization]. *)
Record PasskeyAuthorization := {
  challenge : bytes;
  auth_signature : bytes;
  credential_id : string
}.

(** The bytes of a string ([as_bytes]). *)
Definition str_bytes (s : string) : bytes :=
  map (fun c => Z.of_N (N_of_ascii c)) (list_ascii_of_string s).

(** The two signature schemes: keys decode or not, signature bytes parse or not. *)
Class Curves := {
  P256Key : Type; P256Signature : Type;
  p256_from_sec1_bytes : bytes -> result string P256Key;
  p256_signature_from_slice : bytes -> option P256Signature;
  p256_verify : P256Key -> bytes -> P256Signature -> bool;
  Ed25519Key : Type; Ed25519Signature : Type;
  ed25519_from_bytes : bytes -> result string Ed25519Key;
  ed25519_signature_from_slice : bytes -> option Ed25519Signature;
  ed25519_verify : Ed25519Key -> bytes -> Ed25519Signature -> bool
}.

Section Verifier.
Context {K : Curves}.

Inductive PasskeyPubkey :=
| P256 (vk : P256Key)
| Ed25519 (vk : Ed25519Key).

(** [pending_challenges]: nonce to expiry. *)
Record PasskeyVerifier := {
  stored_pubkey : PasskeyPubkey;
  stored_credential_id : string;
  pending_challenges : gmap bytes Z
}.

Definition new (pubkey : PasskeyPubkey) (credential_id : string) : PasskeyVerifier := {|
  stored_pubkey := pubkey; stored_credential_id := credential_id; pending_challenges := ∅
|}.

Definition set_pending (v : PasskeyVerifier) (p : gmap bytes Z) : PasskeyVerifier := {|
  stored_pubkey := stored_pubkey v; stored_credential_id := stored_credential_id v;
  pending_challenges := p
|}.

Definition sweep_expired (now : Z) (v : PasskeyVerifier) : PasskeyVerifier :=
  set_pending v (filter (fun e => (now < e.2)%Z) (pending_challenges v)).

(** The loop of [generate_challenge]: draws until one was not pending.  A draw
    that was pending has its expiry renewed.  [None] when [fuel] draws were all
    pending. *)
Fixpoint draw_challenge (fuel : nat) (rng : nat -> bytes) (expires_at : Z) (p : gmap bytes Z)
  : option (bytes * gmap bytes Z) :=
  match fuel with
  | O => None
  | Datatypes.S fuel' =>
      let nonce := rng O in
      let p' := <[nonce := expires_at]> p in
      match p !! nonce with
      | None => Some (nonce, p')
      | Some _ => draw_challenge fuel' (fun i => rng (Datatypes.S i)) expires_at p'
      end
  end.

(** [now] is read by the sweep, [now'] for the expiry.  [MAX_PENDING_CHALLENGES]
    different draws are enough ([draw_challenge_total]). *)
Definition generate_challenge (now now' : Z) (rng : nat -> bytes) (v : PasskeyVerifier)
  : option (result PasskeyError bytes * PasskeyVerifier) :=
  let v := sweep_expired now v in
  if (MAX_PENDING_CHALLENGES <=? size (pending_challenges v))%nat then Some (Err RateLimited, v)
  else
    let expires_at := ((now' + CHALLENGE_TTL_SECS) mod 2 ^ 64)%Z in
    match draw_challenge MAX_PENDING_CHALLENGES rng expires_at (pending_challenges v) with
    | Some (nonce, p) => Some (Ok nonce, set_pending v p)
    | None => None
    end.

Definition verify_signature (key : PasskeyPubkey) (message sig : bytes) : result PasskeyError unit :=
  match key with
  | P256 vk =>
      match p256_signature_from_slice sig with
      | None => Err Forged
      | Some s => if p256_verify vk message s then Ok tt else Err Forged
      end
  | Ed25519 vk =>
      match ed25519_signature_from_slice sig with
      | None => Err Forged
      | Some s => if ed25519_verify vk message s then Ok tt else Err Forged
      end
  end.

(** [now] is read by the sweep, [now'] by the check of the expiry. *)
Definition verify (now now' : Z) (v : PasskeyVerifier) (auth : PasskeyAuthorization)
  : result PasskeyError unit * PasskeyVerifier :=
  if negb (len (challenge auth) =? 32)%Z || is_empty (credential_id auth) then (Err Missing, v)
  else if negb (String.eqb (credential_id auth) (stored_credential_id v)) then
    (Err CredentialMismatch, v)
  else
    let v := sweep_expired now v in
    match pending_challenges v !! challenge auth with
    | None => (Err Replay, v)
    | Some expiry =>
        if negb (now' <? expiry)%Z then (Err Replay, v)
        else
          let message := (challenge auth ++ str_bytes (credential_id auth))%list in
          match verify_signature (stored_pubkey v) message (auth_signature auth) with
          | Err e => (Err e, v)
          | Ok _ => (Ok tt, set_pending v (delete (challenge auth) (pending_challenges v)))
          end
    end.

Definition pending_count (v : PasskeyVerifier) : nat := size (pending_challenges v).

(** ** Acceptance *)

Definition valid_signature (key : PasskeyPubkey) (message sig : bytes) : Prop :=
  match key with
  | P256 vk => exists s, p256_signature_from_slice sig = Some s /\ p256_verify vk message s = true
  | Ed25519 vk => exists s, ed25519_signature_from_slice sig = Some s /\ ed25519_verify vk message s = true
  end.

Lemma verify_signature_ok key message sig :
  verify_signature key message sig = Ok tt <-> valid_signature key message sig.
Proof.
  destruct key as [vk|vk]; cbn.
  - destruct (p256_signature_from_slice sig) as [s|]; [|split; [done|by intros (? & ? & _)]].
    destruct (p256_verify vk message s) eqn:H; split; try done; [by exists s|].
    intros (s' & [= <-] & H'). congruence.
  - destruct (ed25519_signature_from_slice sig) as [s|]; [|split; [done|by intros (? & ? & _)]].
    destruct (ed25519_verify vk message s) eqn:H; split; try done; [by exists s|].
    intros (s' & [= <-] & H'). congruence.
Qed.

Lemma sweep_lookup now v c e :
  pending_challenges (sweep_expired now v) !! c = Some e <->
  pending_challenges v !! c = Some e /\ (now < e)%Z.
Proof. cbn. by rewrite map_lookup_filter_Some. Qed.

(** When a proof is accepted. *)
Lemma verify_accepts now now' v auth v' :
  verify now now' v auth = (Ok tt, v') <->
  len (challenge auth) = 32%Z /\ credential_id auth <> "" /\
  credential_id auth = stored_credential_id v /\
  (exists e, pending_challenges v !! challenge auth = Some e /\ (now < e)%Z /\ (now' < e)%Z) /\
  valid_signature (stored_pubkey v) (challenge auth ++ str_bytes (credential_id auth))
    (auth_signature auth) /\
  v' = set_pending v (delete (challenge auth) (pending_challenges (sweep_expired now v))).
Proof.
  unfold verify. rewrite <- verify_signature_ok, <- is_empty_false.
  destruct (Z.eqb_spec (len (challenge auth)) 32) as [Hl|Hl]; cbn [negb orb]; [|naive_solver].
  destruct (is_empty (credential_id auth)); [naive_solver|].
  destruct (String.eqb_spec (credential_id auth) (stored_credential_id v)) as [Hc|Hc]; cbn [negb];
    [|naive_solver].
  pose proof (sweep_lookup now v (challenge auth)) as Hs.
  destruct (pending_challenges (sweep_expired now v) !! challenge auth) as [e|].
  - destruct (proj1 (Hs e) eq_refl) as [Hp Hn].
    destruct (Z.ltb_spec now' e) as [Hlt|Hge]; cbn [negb].
    + cbn [stored_pubkey sweep_expired set_pending].
      destruct (verify_signature _ _ _) as [[]|err]; [|naive_solver]. split.
      * intros [= <-]. split_and!; try done. by exists e.
      * by intros (_ & _ & _ & _ & _ & ->).
    + split; [done|]. intros (_ & _ & _ & (e' & He & _ & Hlt) & _). rewrite Hp in He.
      injection He as <-. lia.
  - split; [done|]. intros (_ & _ & _ & (e' & He & Hlt & _) & _).
    pose proof (proj2 (Hs e') (conj He Hlt)). done.
Qed.

(** A proof is accepted exactly when its challenge is one of the 32-byte nonces
    still pending and not expired, its credential is the one the verifier is bound
    to, and the signature over the challenge and the credential verifies under the
    registered key; the challenge is then no longer pending. *)
Theorem verify_ok_iff now now' v auth v' :
  verify now now' v auth = (Ok tt, v') <->
  len (challenge auth) = 32%Z /\ credential_id auth <> "" /\
  credential_id auth = stored_credential_id v /\
  (exists e, pending_challenges v !! challenge auth = Some e /\ (now < e)%Z /\ (now' < e)%Z) /\
  valid_signature (stored_pubkey v) (challenge auth ++ str_bytes (credential_id auth))
    (auth_signature auth) /\
  v' = set_pending v (delete (challenge auth) (pending_challenges (sweep_expired now v))).
Proof. apply verify_accepts. Qed.

(** ** Single use *)

(** What a challenge request draws, in order. *)
Fixpoint draws (fuel : nat) (rng : nat -> bytes) (p : gmap bytes Z) (expires_at : Z) : list bytes :=
  match fuel with
  | O => []
  | Datatypes.S fuel' =>
      match p !! rng O with
      | None => [rng O]
      | Some _ => rng O :: draws fuel' (fun i => rng (Datatypes.S i)) (<[rng O := expires_at]> p) expires_at
      end
  end.

Lemma draw_challenge_lookup fuel rng e p c p' k x :
  draw_challenge fuel rng e p = Some (c, p') -> p' !! k = Some x ->
  (k ∈ draws fuel rng p e /\ x = e) \/ p !! k = Some x.
Proof.
  revert rng p. induction fuel as [|fuel IH]; intros rng p; cbn [draw_challenge draws]; [done|].
  assert (Hins : <[rng O := e]> p !! k = Some x -> (k = rng O /\ x = e) \/ p !! k = Some x).
  { rewrite lookup_insert_Some. naive_solver. }
  destruct (p !! rng O) as [y|] eqn:Hp.
  - intros Hd Hk. rewrite elem_of_cons.
    destruct (IH _ _ Hd Hk) as [[Hin ->]|Hk']; [by left; auto|].
    destruct (Hins Hk') as [[-> ->]|?]; auto.
  - intros [= <- <-] Hk. rewrite list_elem_of_singleton. auto.
Qed.

Lemma draw_challenge_drawn fuel rng e p c p' :
  draw_challenge fuel rng e p = Some (c, p') -> c ∈ draws fuel rng p e /\ p !! c = None /\ p' !! c = Some e.
Proof.
  revert rng p. induction fuel as [|fuel IH]; intros rng p; cbn [draw_challenge draws]; [done|].
  destruct (p !! rng O) as [y|] eqn:Hp.
  - intros (Hin & Hn & Hc)%IH. rewrite elem_of_cons. apply lookup_insert_None in Hn as [Hn _]. auto.
  - intros [= <- <-]. rewrite list_elem_of_singleton, lookup_insert_eq. auto.
Qed.

Lemma draw_challenge_size fuel rng e p c p' :
  draw_challenge fuel rng e p = Some (c, p') -> size p' = Datatypes.S (size p).
Proof.
  revert rng p. induction fuel as [|fuel IH]; intros rng p; cbn [draw_challenge]; [done|].
  destruct (p !! rng O) as [y|] eqn:Hp.
  - intros ->%IH. by rewrite map_size_insert_Some by (by eexists).
  - intros [= _ <-]. by rewrite map_size_insert_None.
Qed.

Inductive event :=
| Drawn (c : bytes) (t : Z)
| Used (c : bytes).

(** What has happened to a verifier since it was made, newest first. *)
Inductive run : list event -> PasskeyVerifier -> Prop :=
| run_new key cred : run [] (new key cred)
| run_generate tr v now now' rng r v' :
    run tr v -> generate_challenge now now' rng v = Some (r, v') ->
    run (match r with
         | Ok _ =>
             let p := pending_challenges (sweep_expired now v) in
             let e := ((now' + CHALLENGE_TTL_SECS) mod 2 ^ 64)%Z in
             (map (fun c => Drawn c now') (draws MAX_PENDING_CHALLENGES rng p e) ++ tr)%list
         | Err _ => tr
         end) v'
| run_verify tr v now now' auth r v' :
    run tr v -> verify now now' v auth = (r, v') ->
    run (match r with Ok _ => Used (challenge auth) :: tr | Err _ => tr end) v'.

(** [c] was drawn at [t] and has not been used since. *)
Definition unused (tr : list event) (c : bytes) (t : Z) : Prop :=
  exists newer older, tr = newer ++ Drawn c t :: older /\ Used c ∉ newer.

Definition wf (tr : list event) (v : PasskeyVerifier) : Prop :=
  (size (pending_challenges v) <= MAX_PENDING_CHALLENGES)%nat /\
  forall c e, pending_challenges v !! c = Some e ->
    exists t, unused tr c t /\ e = ((t + CHALLENGE_TTL_SECS) mod 2 ^ 64)%Z.

Lemma unused_cons tr c t ev : ev <> Used c -> unused tr c t -> unused (ev :: tr) c t.
Proof.
  intros Hne (n & o & -> & Hn). exists (ev :: n), o. split; [done|]. rewrite elem_of_cons. naive_solver.
Qed.

Lemma unused_app tr l c t now : unused tr c t -> unused (map (fun c => Drawn c now) l ++ tr) c t.
Proof. intros H. induction l as [|x l IH]; [done|]. by apply unused_cons. Qed.

Lemma unused_drawn tr l c now : c ∈ l -> unused (map (fun c => Drawn c now) l ++ tr) c now.
Proof.
  intros (l1 & l2 & ->)%list_elem_of_split.
  exists (map (fun c => Drawn c now) l1), (map (fun c => Drawn c now) l2 ++ tr).
  rewrite map_app. cbn [map]. rewrite <- app_assoc. split; [done|].
  intros (x & ? & _)%list_elem_of_fmap. done.
Qed.

Lemma wf_sweep tr v now : wf tr v -> wf tr (sweep_expired now v).
Proof.
  intros [Hs Hp]. split.
  - etrans; [|exact Hs]. cbn. apply map_size_filter.
  - intros c e [H _]%sweep_lookup. by apply Hp.
Qed.

Lemma verify_state now now' v auth r v' :
  verify now now' v auth = (r, v') ->
  match r with
  | Ok _ => v' = set_pending v (delete (challenge auth) (pending_challenges (sweep_expired now v)))
  | Err _ => v' = v \/ v' = sweep_expired now v
  end.
Proof.
  intros H. destruct r as [[]|err]; [by apply verify_accepts in H as (_ & _ & _ & _ & _ & ->)|].
  unfold verify in H. repeat (case_match; simplify_eq; auto).
Qed.

Lemma run_wf tr v : run tr v -> wf tr v.
Proof.
  induction 1 as [key cred|tr v now now' rng r v' _ IH H|tr v now now' auth r v' _ IH H].
  - split; [cbn; unfold MAX_PENDING_CHALLENGES; rewrite map_size_empty; lia|]. intros c e. cbn. by rewrite lookup_empty.
  - apply (wf_sweep _ _ now) in IH. unfold generate_challenge in H.
    set (v1 := sweep_expired now v) in *. destruct IH as [Hs Hp].
    destruct (Nat.leb_spec MAX_PENDING_CHALLENGES (size (pending_challenges v1))) as [Hle|Hlt];
      [by injection H as <- <-|].
    destruct (draw_challenge _ _ _ _) as [[c p]|] eqn:Hd; [|done]. injection H as <- <-. split.
    + cbn. rewrite (draw_challenge_size _ _ _ _ _ _ Hd). lia.
    + intros k e Hk. destruct (draw_challenge_lookup _ _ _ _ _ _ _ _ Hd Hk) as [[Hin ->]|Hold].
      * exists now'. split; [by apply unused_drawn|done].
      * destruct (Hp k e Hold) as (t & Hu & ->). exists t. split; [by apply unused_app|done].
  - apply verify_state in H. destruct r as [[]|err].
    + apply (wf_sweep _ _ now) in IH as [Hs Hp]. subst v'. split.
      * cbn. etrans; [|exact Hs]. apply map_subseteq_size, delete_subseteq.
      * intros c e. cbn. rewrite lookup_delete_Some. intros [Hne Hc].
        destruct (Hp c e Hc) as (t & Hu & ->). exists t. split; [|done].
        apply unused_cons; [by intros [= ?]|done].
    + destruct H as [->| ->]; [done|by apply wf_sweep].
Qed.

(** Challenges are single-use and short-lived: whatever sequence of challenge
    requests and proofs a verifier has seen, it accepts a proof only if its nonce
    was drawn for a challenge request less than 120 s before and has not been
    accepted since; and at most 256 are ever pending. *)
Theorem challenge_single_use tr v now now' auth v' :
  run tr v ->
  (size (pending_challenges v) <= MAX_PENDING_CHALLENGES)%nat /\
  (verify now now' v auth = (Ok tt, v') ->
   exists t, unused tr (challenge auth) t /\ (now' < (t + CHALLENGE_TTL_SECS) mod 2 ^ 64)%Z).
Proof.
  intros [Hs Hp]%run_wf. split; [done|].
  intros (_ & _ & _ & (e & Hc & _ & Hlt) & _)%verify_accepts.
  destruct (Hp _ _ Hc) as (t & Hu & ->). by exists t.
Qed.

(** ** The loop of [generate_challenge] ends *)

Lemma draw_challenge_total fuel rng e p :
  NoDup (map rng (seq 0 fuel)) -> (size p < fuel)%nat -> is_Some (draw_challenge fuel rng e p).
Proof.
  intros Hnd Hlt.
  assert (Hgen : forall fuel rng p, (exists i, (i < fuel)%nat /\ p !! rng i = None) ->
    NoDup (map rng (seq 0 fuel)) -> is_Some (draw_challenge fuel rng e p)).
  { clear. induction fuel as [|fuel IH]; intros rng p (i & Hi & Hp) Hnd; [lia|].
    cbn [draw_challenge]. destruct (p !! rng O) as [y|] eqn:H0; [|by eexists].
    destruct i as [|i]; [congruence|]. cbn [seq map] in Hnd. apply NoDup_cons in Hnd as [Hnot Hnd].
    rewrite <- seq_shift, map_map in Hnd, Hnot.
    apply IH; [|done]. exists i. split; [lia|]. rewrite lookup_insert_ne; [done|].
    intros Heq. apply Hnot. apply list_elem_of_fmap. exists i. split; [done|].
    apply elem_of_seq. lia. }
  apply Hgen; [|done]. clear Hgen.
  destruct (decide (Forall (fun i => is_Some (p !! rng i)) (seq 0 fuel))) as [Hall|Hall].
  - exfalso. assert (Hsub : list_to_set (map rng (seq 0 fuel)) ⊆ (dom p : gset bytes)).
    { intros c. rewrite elem_of_list_to_set, list_elem_of_fmap. intros (i & -> & Hi).
      apply elem_of_dom. rewrite Forall_forall in Hall. by apply Hall. }
    apply subseteq_size in Hsub. rewrite size_list_to_set, length_map, length_seq, size_dom in Hsub by done.
    lia.
  - apply not_Forall_Exists in Hall; [|apply _]. apply Exists_exists in Hall as (i & Hi & Hn).
    exists i. apply elem_of_seq in Hi. split; [lia|]. by apply eq_None_not_Some.
Qed.

(** A source that does not repeat itself is enough. *)
Lemma generate_challenge_ends now now' rng v :
  NoDup (map rng (seq 0 MAX_PENDING_CHALLENGES)) ->
  exists r v', generate_challenge now now' rng v = Some (r, v') /\
    match r with
    | Ok c => pending_challenges (sweep_expired now v) !! c = None /\
        pending_challenges v' !! c = Some ((now' + CHALLENGE_TTL_SECS) mod 2 ^ 64)%Z
    | Err e => e = RateLimited /\ v' = sweep_expired now v /\
        (MAX_PENDING_CHALLENGES <= size (pending_challenges v'))%nat
    end.
Proof.
  intros Hnd. unfold generate_challenge. set (v1 := sweep_expired now v).
  destruct (Nat.leb_spec MAX_PENDING_CHALLENGES (size (pending_challenges v1))) as [Hle|Hlt];
    [by eexists _, _|].
  destruct (draw_challenge_total MAX_PENDING_CHALLENGES rng ((now' + CHALLENGE_TTL_SECS) mod 2 ^ 64)
    (pending_challenges v1) Hnd Hlt) as [[c p] Hd].
  rewrite Hd. eexists _, _. split; [done|].
  by destruct (draw_challenge_drawn _ _ _ _ _ _ Hd) as (_ & Hn & Hc).
Qed.

(** A challenge request always gets an answer when the random source does not
    repeat itself: within 256 draws a nonce is found that is not pending; it is
    then pending until 120 s after the request. *)
Theorem generate_challenge_total now now' rng v :
  NoDup (map rng (seq 0 MAX_PENDING_CHALLENGES)) ->
  exists r v', generate_challenge now now' rng v = Some (r, v') /\
    match r with
    | Ok c => pending_challenges (sweep_expired now v) !! c = None /\
        pending_challenges v' !! c = Some ((now' + CHALLENGE_TTL_SECS) mod 2 ^ 64)%Z
    | Err e => e = RateLimited /\ v' = sweep_expired now v /\
        (MAX_PENDING_CHALLENGES <= size (pending_challenges v'))%nat
    end.
Proof. apply generate_challenge_ends. Qed.
End Verifier.

(** ** The file of registered keys *)

Inductive PasskeyStoreError {io_error json_error : Type} :=
| Io (e : io_error)
| Json (e : json_error)
| HomeNotSet
| Corrupt (path : Path) (detail : json_error)
| UnsupportedAlgorithm (name : string)
| InvalidPublicKey (msg : string).
Arguments PasskeyStoreError : clear implicits.

Record StoredPasskeyPubkey := {
  algorithm : string;
  public_key : bytes;
  wallet_id : string;
  registered_at : Z;
  rp_id : string
}.

Definition default_rp_id : string := "localhost".

(** [ids.sort()]. *)
Fixpoint insert_str (s : string) (l : list string) : list string :=
  match l with
  | [] => [s]
  | x :: l' => match String.compare s x with Gt => x :: insert_str s l' | _ => s :: l end
  end.

Definition sort_strs (l : list string) : list string := fold_right insert_str [] l.

Section PubkeyStore.
Context {K : Curves} {io_error json_error : Type}.
Context {C : Codec io_error json_error (gmap string StoredPasskeyPubkey)}.
Context (path : Path).

Definition of_fault (f : StoreFault io_error json_error) : PasskeyStoreError io_error json_error :=
  match f with
  | IoFault e => Io e
  | ParseFault e => Corrupt path e
  | EncodeFault e => Json e
  end.

Definition load (io : StoreIo io_error) (d : FS)
  : result (PasskeyStoreError io_error json_error) (gmap string StoredPasskeyPubkey) :=
  result_map_err of_fault (load_map path io d).

Definition save (io : StoreIo io_error) (map : gmap string StoredPasskeyPubkey) (d : FS)
  : result (PasskeyStoreError io_error json_error) unit * list FS :=
  let '(r, trace) := save_map path io map d in (result_map_err of_fault r, trace).

Definition get (io : StoreIo io_error) (credential_id : string) (d : FS)
  : result (PasskeyStoreError io_error json_error) (option StoredPasskeyPubkey) :=
  let? map := load io d in Ok (map !! credential_id).

Definition credential_ids_for_wallet (io : StoreIo io_error) (wallet : string) (d : FS) : list string :=
  match load io d with
  | Ok map => sort_strs (map_to_list (filter (fun e => wallet_id e.2 = wallet) map)).*1
  | Err _ => []
  end.

Definition register (io : StoreIo io_error) (credential_id : string) (stored : StoredPasskeyPubkey)
    (d : FS) : result (PasskeyStoreError io_error json_error) unit * list FS :=
  match load io d with
  | Err e => (Err e, [d])
  | Ok map => save io (<[credential_id := stored]> map) d
  end.

Definition to_passkey_pubkey (stored : StoredPasskeyPubkey)
  : result (PasskeyStoreError io_error json_error) PasskeyPubkey :=
  if String.eqb (algorithm stored) "p256" then
    result_map P256 (result_map_err InvalidPublicKey (p256_from_sec1_bytes (public_key stored)))
  else if String.eqb (algorithm stored) "ed25519" then
    if negb (len (public_key stored) =? 32)%Z then
      Err (InvalidPublicKey ("ed25519 public key must be 32 bytes, got " +:+
                             fmt_Z (len (public_key stored))))
    else
      result_map Ed25519 (result_map_err InvalidPublicKey (ed25519_from_bytes (public_key stored)))
  else Err (UnsupportedAlgorithm (algorithm stored)).
End PubkeyStore.

(** ** A concrete environment: a signature is the key followed by the message *)

#[export] Instance demo_curves : Curves := {|
  P256Key := bytes; P256Signature := bytes;
  p256_from_sec1_bytes b := if (len b =? 33)%Z then Ok b else Err "bad point";
  p256_signature_from_slice b := match b with [] => None | _ => Some b end;
  p256_verify k m s := bool_decide (s = k ++ m);
  Ed25519Key := bytes; Ed25519Signature := bytes;
  ed25519_from_bytes b := Ok b;
  ed25519_signature_from_slice b := match b with [] => None | _ => Some b end;
  ed25519_verify k m s := bool_decide (s = k ++ m)
|}.

Definition describe_stored (s : StoredPasskeyPubkey) : string * (bytes * (string * (Z * string))) :=
  (algorithm s, (public_key s, (wallet_id s, (registered_at s, rp_id s)))).

Definition build_stored (x : string * (bytes * (string * (Z * string)))) : StoredPasskeyPubkey :=
  let '(a, (k, (w, (t, r)))) := x in
  {| algorithm := a; public_key := k; wallet_id := w; registered_at := t; rp_id := r |}.

#[export] Instance demo_stored_codec : Codec string unit (gmap string StoredPasskeyPubkey) :=
  demo_codec describe_stored build_stored.

#[export] Instance demo_stored_laws : CodecLaws demo_stored_codec.
Proof. apply demo_codec_laws. by intros []. Qed.

Definition demo_key : PasskeyPubkey := Ed25519 (repeat 5%Z 32).
Definition demo_nonce (n : Z) : bytes := repeat n 32.
Definition demo_rng (i : nat) : bytes := demo_nonce (Z.of_nat i).

Definition demo_proof (n : Z) : PasskeyAuthorization := {|
  challenge := demo_nonce n; auth_signature := repeat 5%Z 32 ++ demo_nonce n ++ str_bytes "cred";
  credential_id := "cred"
|}.

(** Challenged at 1000. *)
Definition demo_challenged : PasskeyVerifier :=
  match generate_challenge 1000 1000 demo_rng (new demo_key "cred") with
  | Some (_, v) => v
  | None => new demo_key "cred"
  end.

(** Answered at 1100 and again at 1110: the nonce is used up. *)
Lemma challenge_single_use_witness :
  let '(r, v) := verify 1100 1100 demo_challenged (demo_proof 0) in
  r = Ok tt /\ (verify 1110 1110 v (demo_proof 0)).1 = Err Replay /\
  exists t, unused [Drawn (demo_nonce 0) 1000] (demo_nonce 0) t /\ (1100 < (t + CHALLENGE_TTL_SECS) mod 2 ^ 64)%Z.
Proof.
  assert (E : verify 1100 1100 demo_challenged (demo_proof 0) = (Ok tt, new demo_key "cred")) by
    (vm_compute; reflexivity).
  rewrite E. split; [reflexivity|]. split; [vm_compute; reflexivity|].
  apply (challenge_single_use [Drawn (demo_nonce 0) 1000] demo_challenged 1100 1100 (demo_proof 0)
    (new demo_key "cred")); [|exact E].
  change [Drawn (demo_nonce 0) 1000] with
    ((map (fun c => Drawn c 1000) (draws MAX_PENDING_CHALLENGES demo_rng ∅ 1120) ++ [])%list).
  apply (run_generate [] (new demo_key "cred") 1000 1000 demo_rng (Ok (demo_nonce 0)) demo_challenged);
    [apply run_new|vm_compute; reflexivity].
Defined.

Lemma generate_challenge_total_witness :
  exists r v', generate_challenge 1000 1000 demo_rng (new demo_key "cred") = Some (r, v') /\ is_ok r = true.
Proof.
  destruct (generate_challenge_total 1000 1000 demo_rng (new demo_key "cred")) as (r & v' & E & _).
  - apply (bool_decide_unpack _). vm_compute. exact I.
  - exists r, v'. split; [exact E|].
    assert (Hr : is_ok <$> (fst <$> generate_challenge 1000 1000 demo_rng (new demo_key "cred")) = Some true)
      by (vm_compute; reflexivity).
    rewrite E in Hr. cbn in Hr. congruence.
Defined.
