(* ===== verification/SessionKeys.v ===== *)
(** * The registry of session keys

    [crates/oc-keyagent/src/session_keys.rs]: session keys are created, listed and
    revoked, and signing handlers ask whether one is active. *)

From Stdlib Require Import ZArith Lia Bool String Sorting.Sorted.
From stdpp Require Import base list strings gmap.
From S2P Require Import Prelude Str Files MapStore.

Local Open Scope oc_scope.

Inductive SessionKeyStoreError {io_error json_error : Type} :=
| Io (e : io_error)
| Json (e : json_error)
| HomeNotSet
| Corrupt (path : Path) (detail : json_error)
| AlreadyExists (id : string)
| NotFound (id : string).
Arguments SessionKeyStoreError : clear implicits.

Inductive SessionKeyStatus := Active | Revoked.

#[export] Instance SessionKeyStatus_eq_dec : EqDecision SessionKeyStatus.
Proof. solve_decision. Defined.

Record SessionKeyRecord := {
  session_key_id : string;
  label : string;
  status : SessionKeyStatus;
  created_at_unix : Z;
  revoked_at_unix : option Z
}.

Abbreviation SessionMap := (gmap string SessionKeyRecord).

Definition with_status (r : SessionKeyRecord) (s : SessionKeyStatus) (at_unix : option Z) : SessionKeyRecord := {|
  session_key_id := session_key_id r; label := label r; status := s;
  created_at_unix := created_at_unix r; revoked_at_unix := at_unix
|}.

(** [created_at_unix.cmp(..).then_with(|| session_key_id.cmp(..))]. *)
Definition record_leb (a b : SessionKeyRecord) : bool :=
  match (created_at_unix a ?= created_at_unix b)%Z with
  | Lt => true
  | Gt => false
  | Eq => match String.compare (session_key_id a) (session_key_id b) with Gt => false | _ => true end
  end.

Fixpoint insert_record (r : SessionKeyRecord) (l : list SessionKeyRecord) : list SessionKeyRecord :=
  match l with
  | [] => [r]
  | x :: l' => if record_leb r x then r :: l else x :: insert_record r l'
  end.

Definition sort_records (l : list SessionKeyRecord) : list SessionKeyRecord := fold_right insert_record [] l.

Section Registry.
Context {io_error json_error : Type} {C : Codec io_error json_error SessionMap}.
(** [into_values], in the map's order. *)
Context (map_values : SessionMap -> list SessionKeyRecord).
Context (path : Path).

Abbreviation store_result := (result (SessionKeyStoreError io_error json_error)).

Definition of_fault (f : StoreFault io_error json_error) : SessionKeyStoreError io_error json_error :=
  match f with
  | IoFault e => Io e
  | ParseFault e => Corrupt path e
  | EncodeFault e => Json e
  end.

Definition load (io : StoreIo io_error) (d : FS) : store_result SessionMap :=
  result_map_err of_fault (load_map path io d).

Definition save (io : StoreIo io_error) (map : SessionMap) (d : FS) : store_result unit * list FS :=
  let '(r, trace) := save_map path io map d in (result_map_err of_fault r, trace).

Definition create (io : StoreIo io_error) (record : SessionKeyRecord) (d : FS)
  : store_result SessionKeyRecord * list FS :=
  match load io d with
  | Err e => (Err e, [d])
  | Ok map =>
      match map !! session_key_id record with
      | Some _ => (Err (AlreadyExists (session_key_id record)), [d])
      | None =>
          let record := with_status record Active None in
          let '(r, trace) := save io (<[session_key_id record := record]> map) d in
          (result_map (fun _ => record) r, trace)
      end
  end.

Definition get (io : StoreIo io_error) (id : string) (d : FS) : store_result (option SessionKeyRecord) :=
  let? map := load io d in Ok (map !! id).

Definition list_records (io : StoreIo io_error) (d : FS) : store_result (list SessionKeyRecord) :=
  let? map := load io d in Ok (sort_records (map_values map)).

Definition is_active (io : StoreIo io_error) (id : string) (d : FS) : store_result bool :=
  let? map := load io d in
  Ok (match map !! id with Some r => bool_decide (status r = Active) | None => false end).

Definition revoke (io : StoreIo io_error) (id : string) (now : Z) (d : FS)
  : store_result SessionKeyRecord * list FS :=
  match load io d with
  | Err e => (Err e, [d])
  | Ok map =>
      match map !! id with
      | None => (Err (NotFound id), [d])
      | Some record =>
          let revoked := if decide (status record = Revoked) then record
                         else with_status record Revoked (Some now) in
          let '(r, trace) := save io (<[id := revoked]> map) d in
          (result_map (fun _ => revoked) r, trace)
      end
  end.

(** ** What each operation does *)

Context {L : CodecLaws C}.

Lemma load_reads io d m : load io d = Ok m -> holds path d m.
Proof.
  unfold load. destruct (load_map path io d) eqn:E; [|done]. intros [= ->]. by eapply load_map_ok.
Qed.

(** The states a save goes through, and the one it ends in. *)
Lemma save_leaves_map io m d :
  (forall d', d' ∈ (save io m d).2 -> d' !! path = d !! path \/ holds path d' m) /\
  match (save io m d).1 with
  | Ok _ => holds path (default d (last (save io m d).2)) m
  | Err _ => default d (last (save io m d).2) !! path = d !! path
  end.
Proof.
  unfold save. pose proof (save_map_spec path io m d) as H.
  by destruct (save_map path io m d) as [[[]|e] trace].
Qed.

(** Creating a key makes it active, revoking one makes it inactive, and neither
    touches another key; a creation under a taken id and a revocation of an
    unknown one are refused; any failure leaves the registry as it was. *)
Theorem create_revoke_spec io record id now d m :
  holds path d m -> read_err io = None ->
  (let '(r, trace) := create io record d in
   let final := default d (last trace) in
   match r with
   | Ok r => r = with_status record Active None /\ m !! session_key_id record = None /\
       holds path final (<[session_key_id record := r]> m)
   | Err e => holds path final m /\
       (e = AlreadyExists (session_key_id record) \/ m !! session_key_id record = None)
   end) /\
  (let '(r, trace) := revoke io id now d in
   let final := default d (last trace) in
   match r with
   | Ok r => status r = Revoked /\ holds path final (<[id := r]> m) /\
       exists old, m !! id = Some old /\ label r = label old /\
         created_at_unix r = created_at_unix old /\ (status old = Revoked -> r = old)
   | Err e => holds path final m /\ (e = NotFound id \/ is_Some (m !! id))
   end).
Proof.
  intros Hm Hr. assert (Hl : load io d = Ok m) by (unfold load; by rewrite (load_map_holds _ _ _ _ Hr Hm)).
  split.
  - unfold create. rewrite Hl. destruct (m !! session_key_id record) as [old|] eqn:Ho; [by split; [|left]|].
    cbn zeta. change (session_key_id (with_status record Active None)) with (session_key_id record).
    pose proof (save_leaves_map io (<[session_key_id record := with_status record Active None]> m) d) as [_ Hs].
    destruct (save _ _ _) as [[[]|e] trace]; cbn in *; [done|].
    split; [by eapply holds_same|by right].
  - unfold revoke. rewrite Hl. destruct (m !! id) as [old|] eqn:Ho; [|by split; [|left]]. cbn zeta.
    set (new := if decide _ then _ else _).
    pose proof (save_leaves_map io (<[id := new]> m) d) as [_ Hs].
    destruct (save _ _ _) as [[[]|e] trace]; cbn in *.
    + assert (status new = Revoked) by (subst new; by destruct (decide _)).
      split_and!; [done|done|]. exists old. subst new. destruct (decide _); by split_and!.
    + split; [by eapply holds_same|right; by eexists].
Qed.

(** ** Revocation lasts *)

Definition revoked_in (id : string) (d : FS) : Prop :=
  exists m r, holds path d m /\ m !! id = Some r /\ status r = Revoked.

(** The disks that later operations can leave, failures and crashes included. *)
Inductive later : FS -> FS -> Prop :=
| later_refl d : later d d
| later_create d d1 d2 io record :
    later d d1 -> d2 ∈ (create io record d1).2 -> later d d2
| later_revoke d d1 d2 io id now :
    later d d1 -> d2 ∈ (revoke io id now d1).2 -> later d d2.

Lemma revoked_same id d d' : d' !! path = d !! path -> revoked_in id d -> revoked_in id d'.
Proof. intros H (m & r & Hm & Hr). exists m, r. split; [by eapply holds_same|done]. Qed.

Lemma later_revoked id d d' : later d d' -> revoked_in id d -> revoked_in id d'.
Proof.
  induction 1 as [d|d d1 d2 io record _ IH Hin|d d1 d2 io id' now _ IH Hin]; intros Hd; [done|..];
    specialize (IH Hd); destruct IH as (m & r & Hm & Hr & Hs).
  - unfold create in Hin. destruct (load io d1) as [m'|] eqn:Hl;
      [|apply list_elem_of_singleton in Hin as ->; by exists m, r].
    apply load_reads in Hl. rewrite <- (holds_functional _ _ _ _ Hm Hl) in *.
    destruct (m !! session_key_id record) as [old|] eqn:Ho;
      [apply list_elem_of_singleton in Hin as ->; by exists m, r|].
    cbn zeta in Hin. change (session_key_id (with_status record Active None)) with (session_key_id record) in Hin.
    pose proof (save_leaves_map io (<[session_key_id record := with_status record Active None]> m) d1) as [Hall _].
    destruct (save _ _ _) as [res trace]. destruct (Hall _ Hin) as [Hsame|Hnew];
      [apply (revoked_same _ _ _ Hsame); by exists m, r|].
    eexists _, r. split; [exact Hnew|]. split; [|done]. rewrite lookup_insert_ne by congruence. done.
  - unfold revoke in Hin. destruct (load io d1) as [m'|] eqn:Hl;
      [|apply list_elem_of_singleton in Hin as ->; by exists m, r].
    apply load_reads in Hl. rewrite <- (holds_functional _ _ _ _ Hm Hl) in *.
    destruct (m !! id') as [old|] eqn:Ho; [|apply list_elem_of_singleton in Hin as ->; by exists m, r].
    cbn zeta in Hin. set (new := if decide _ then _ else _) in Hin.
    pose proof (save_leaves_map io (<[id' := new]> m) d1) as [Hall _].
    destruct (save _ _ _) as [res trace]. destruct (Hall _ Hin) as [Hsame|Hnew];
      [apply (revoked_same _ _ _ Hsame); by exists m, r|].
    destruct (decide (id = id')) as [->|Hne].
    + exists (<[id' := new]> m), new. split; [exact Hnew|]. rewrite lookup_insert_eq. split; [done|].
      subst new. by destruct (decide _).
    + exists (<[id' := new]> m), r. by rewrite lookup_insert_ne.
Qed.

Lemma revoke_revoked io id now d :
  is_ok (revoke io id now d).1 = true -> revoked_in id (default d (last (revoke io id now d).2)).
Proof.
  intros Hok. unfold revoke in *. destruct (load io d) as [m|] eqn:Hl; [|done].
  destruct (m !! id) as [old|]; [|done]. cbn zeta in *. set (new := if decide _ then _ else _) in *.
  pose proof (save_leaves_map io (<[id := new]> m) d) as [_ Hs].
  destruct (save _ _ _) as [[[]|e] trace]; [|done]. cbn in *.
  exists (<[id := new]> m), new. rewrite lookup_insert_eq. split_and!; try done.
  subst new. by destruct (decide _).
Qed.

Lemma revoked_inactive io id d : revoked_in id d -> is_active io id d <> Ok true.
Proof.
  intros (m & r & Hm & Hr & Hs). unfold is_active. destruct (load io d) as [m'|] eqn:Hl; [|done].
  cbn [result_bind]. apply load_reads in Hl. by rewrite <- (holds_functional _ _ _ _ Hm Hl), Hr, Hs.
Qed.

(** Revocation is final: once a key has been revoked, no later creation or
    revocation of whatever keys, no failure and no crash makes it active again. *)
Theorem revoked_forever io id now d d' io' :
  is_ok (revoke io id now d).1 = true ->
  later (default d (last (revoke io id now d).2)) d' ->
  is_active io' id d' <> Ok true.
Proof.
  intros Hok Hlater. apply revoked_inactive. eapply later_revoked; [exact Hlater|by apply revoke_revoked].
Qed.
End Registry.

(** ** Concrete runs *)

Definition describe_record (r : SessionKeyRecord) : string * (string * (bool * (Z * option Z))) :=
  (session_key_id r, (label r, (bool_decide (status r = Active), (created_at_unix r, revoked_at_unix r)))).

Definition build_record (x : string * (string * (bool * (Z * option Z)))) : SessionKeyRecord :=
  let '(i, (l, (s, (c, r)))) := x in
  {| session_key_id := i; label := l; status := if s then Active else Revoked;
     created_at_unix := c; revoked_at_unix := r |}.

#[export] Instance demo_session_codec : Codec string unit SessionMap := demo_codec describe_record build_record.

#[export] Instance demo_session_laws : CodecLaws demo_session_codec.
Proof. apply demo_codec_laws. by intros [i l [|] c r]. Qed.

Definition demo_path : Path := (Some "/home/a/.onecipher", Some "session_keys.json").

Definition demo_record (id : string) : SessionKeyRecord := {|
  session_key_id := id; label := "agent"; status := Active; created_at_unix := 100; revoked_at_unix := None
|}.

Definition after {A : Type} (d : FS) (o : A * list FS) : FS := default d (last o.2).

Definition demo_disk : FS := after ∅ (create demo_path demo_io (demo_record "a") ∅).
Definition demo_revoked : FS := after demo_disk (revoke demo_path demo_io "a" 200 demo_disk).
Definition demo_later : FS := after demo_revoked (create demo_path demo_io (demo_record "b") demo_revoked).

Lemma create_revoke_spec_witness :
  holds demo_path (after demo_disk (revoke demo_path demo_io "a" 200 demo_disk))
    (<["a" := with_status (demo_record "a") Revoked (Some 200%Z)]> {["a" := demo_record "a"]}).
Proof.
  destruct (create_revoke_spec demo_path demo_io (demo_record "b") "a" 200 demo_disk {["a" := demo_record "a"]})
    as [_ H]; [vm_compute; reflexivity|reflexivity|].
  unfold after. destruct (revoke demo_path demo_io "a" 200 demo_disk) as [r trace] eqn:E.
  assert (Hr : (revoke demo_path demo_io "a" 200 demo_disk).1 =
    Ok (with_status (demo_record "a") Revoked (Some 200%Z))) by (vm_compute; reflexivity).
  rewrite E in Hr. cbn in Hr. subst r. apply H.
Defined.

Lemma revoked_forever_witness :
  is_active demo_path demo_io "a" demo_later <> Ok true /\
  is_active demo_path demo_io "b" demo_later = Ok true.
Proof.
  split; [|vm_compute; reflexivity].
  apply (revoked_forever demo_path demo_io "a" 200 demo_disk demo_later); [vm_compute; reflexivity|].
  apply (later_create demo_path demo_revoked demo_revoked demo_later demo_io (demo_record "b"));
    [apply later_refl|]. apply last_in. vm_compute. reflexivity.
Defined.

(** Calls are not serialized: a creation that has read the file before a revocation
    writes and writes after it undoes the revocation. *)
Lemma concurrent_create_undoes_revoke :
  exists m, load demo_path demo_io demo_disk = Ok m /\
    is_ok (revoke demo_path demo_io "a" 200 demo_disk).1 = true /\
    is_active demo_path demo_io "a" demo_revoked = Ok false /\
    let overwritten := after demo_revoked
      (save demo_path demo_io (<["b" := demo_record "b"]> m) demo_revoked) in
    is_active demo_path demo_io "a" overwritten = Ok true.
Proof.
  exists {["a" := demo_record "a"]}. refine (conj _ (conj _ (conj _ _))); vm_compute; reflexivity.
Qed.
