(* ===== verification/Proto.v ===== *)
(** * The messages of the agents' protocol

    The prost message types of crates/oc-keyagent/src/proto.rs and the request
    enum of request.rs.  Rust's field names are prefixed with the initials of
    their message.  Strings and byte fields that the program compares or parses
    are [string]s of bytes; signatures, keys and nonces are [bytes].  The codec of
    the response messages is prost's, the parameter [Wire]. *)

From Stdlib Require Import ZArith String.
From stdpp Require Import base list strings.
From S2P Require Import Prelude F64 Bytes Passkey.

Local Open Scope oc_scope.

Record GenerateChallengeRequest := { gc_credential_id : string }.
Record GenerateChallengeResponse := { gc_challenge : bytes }.

(** ** Policies *)

Record PolicyRulesV2 := {
  pr_max_single_amount_usd : f64;
  pr_max_daily_amount_usd : f64;
  pr_max_monthly_amount_usd : f64;
  pr_expiry_unix : Z;
  pr_rate_limit_per_minute : Z;
  pr_rate_limit_per_hour : Z;
  pr_cooldown_after_denial_sec : Z;
  pr_asset_whitelist : list string;
  pr_chain_whitelist : list string;
  pr_contract_whitelist : list string;
  pr_payment_protocols : list string
}.

Record BudgetAllocation := {
  ba_allocated_usd : f64;
  ba_allocated_at_unix : Z;
  ba_parent_total_usd : f64;
  ba_parent_session_id : string
}.

Record Policy := {
  po_version : Z;
  po_session_key_id : string;
  po_device_id : string;
  po_rules : option PolicyRulesV2;
  po_budget_allocation : option BudgetAllocation
}.

(** ** Session keys *)

Record CreateSessionKeyRequest := {
  ck_label : string;
  ck_rules : option Policy;
  ck_budget : option BudgetAllocation;
  ck_auth : option PasskeyAuthorization
}.

Record CreateSessionKeyResponse := {
  ck_session_key_id : string;
  ck_created_at_unix : Z;
  ck_policy : option Policy
}.

Record RevokeSessionKeyRequest := {
  rk_session_key_id : string;
  rk_auth : option PasskeyAuthorization
}.

Record RevokeSessionKeyResponse := { rk_revoked_at_unix : Z }.

(** [status] is the number of a [SessionKeyStatus]. *)
Record SessionKeyInfo := {
  si_session_key_id : string;
  si_label : string;
  si_created_at_unix : Z;
  si_expires_at_unix : Z;
  si_policy : option Policy;
  si_status : Z
}.

Record ListSessionKeysResponse := { lk_keys : list SessionKeyInfo }.

(** ** Wallets *)

Record WalletAccount := {
  wa_account_id : string;
  wa_address : string;
  wa_chain_id : string;
  wa_derivation_path : string
}.

Record WalletInfo := {
  wi_id : string;
  wi_name : string;
  wi_key_type : string;
  wi_created_at : Z;
  wi_accounts : list WalletAccount
}.

Record ListWalletsResponse := { lw_wallets : list WalletInfo }.

Record GetBalanceRequest := { gb_wallet_id : string; gb_chain_id : string }.

(** ** Signing *)

Record SignTransactionRequest := {
  st_session_key_id : string;
  st_wallet_id : string;
  st_chain_id : string;
  st_raw_tx_hex : string;
  st_auth : option PasskeyAuthorization
}.

Record SignTransactionResponse := { st_signature : bytes; st_signed_tx_hex : string }.

Record SignUserOpRequest := {
  su_session_key_id : string;
  su_wallet_id : string;
  su_chain_id : string;
  su_user_op_hex : string;
  su_auth : option PasskeyAuthorization
}.

Record SignUserOpResponse := { su_signature : bytes; su_signed_user_op_hex : string }.

Record SignMessageRequest := {
  sm_session_key_id : string;
  sm_wallet_id : string;
  sm_message : string;
  sm_auth : option PasskeyAuthorization
}.

Record SignMessageResponse := { sm_signature : bytes }.

Record SignAuthRequest := {
  sa_wallet_id : string;
  sa_chain_id : string;
  sa_message : string;
  sa_auth : option PasskeyAuthorization;
  sa_agent_token : string
}.

Record SignAuthResponse := {
  sa_signature : bytes;
  sa_address : string;
  sa_res_chain_id : string;
  sa_public_key : bytes
}.

Record SignSiwxRequest := {
  req_wallet_id : string;
  req_chain_id : string;
  req_message : string;
  req_auth : option PasskeyAuthorization;
  req_agent_token : string
}.

Record SignSiwxResponse := {
  res_signature : bytes;
  res_address : string;
  res_chain_id : string;
  res_public_key : bytes
}.

Record SignTypedDataRequest := {
  sd_session_key_id : string;
  sd_wallet_id : string;
  sd_typed_data_json : string;
  sd_auth : option PasskeyAuthorization
}.

Record SignTypedDataResponse := { sd_signature : bytes }.

(** ** Vault and passkeys *)

Record LockVaultResponse := { lv_locked : bool }.

Record UnlockVaultRequest := {
  uv_wallet_id : string;
  uv_auth : option PasskeyAuthorization
}.

Record UnlockVaultResponse := { uv_unlock_token : bytes; uv_expires_at_unix : Z }.

Record RegisterPasskeyRequest := {
  rp_wallet_id : string;
  rp_credential_id : string;
  rp_algorithm : string;
  rp_public_key : bytes;
  rp_rp_id : string
}.

Record RegisterPasskeyResponse := { rp_registered : bool }.

(** ** Secrets and telemetry *)

Record GetSecretRequest := { gs_name : string; gs_api_token : string }.
Record ListSecretsRequest := { ls_api_token : string }.
Record GenerateTotpRequest := { gt_name : string; gt_api_token : string }.
Record DrainTelemetryRequest := { dt_max_records : Z }.

Record DrainTelemetryResponse := {
  dt_batch_json : string;
  dt_record_count : Z;
  dt_dropped : Z
}.

(** ** Requests *)

Inductive KeyAgentRequestKind :=
| CreateSessionKey (r : CreateSessionKeyRequest)
| RevokeSessionKey (r : RevokeSessionKeyRequest)
| SignTransaction (r : SignTransactionRequest)
| SignUserOp (r : SignUserOpRequest)
| SignMessage (r : SignMessageRequest)
| SignTypedData (r : SignTypedDataRequest)
| GetBalance (r : GetBalanceRequest)
| ListWallets
| LockVault
| UnlockVault (r : UnlockVaultRequest)
| RegisterPasskey (r : RegisterPasskeyRequest)
| GenerateChallenge (r : GenerateChallengeRequest)
| GetSecret (r : GetSecretRequest)
| ListSecrets (r : ListSecretsRequest)
| GenerateTotp (r : GenerateTotpRequest)
| DrainTelemetry (r : DrainTelemetryRequest)
| SignAuth (r : SignAuthRequest)
| ListSessionKeys
| SignSiwx (r : SignSiwxRequest).

Record KeyAgentRequest := { request_kind : option KeyAgentRequestKind }.

(** The message in the payload of a successful response. *)
Inductive Reply :=
| ReCreateSessionKey (r : CreateSessionKeyResponse)
| ReRevokeSessionKey (r : RevokeSessionKeyResponse)
| ReListSessionKeys (r : ListSessionKeysResponse)
| ReListWallets (r : ListWalletsResponse)
| ReSignTransaction (r : SignTransactionResponse)
| ReSignUserOp (r : SignUserOpResponse)
| ReSignMessage (r : SignMessageResponse)
| ReSignAuth (r : SignAuthResponse)
| ReSignSiwx (r : SignSiwxResponse)
| ReSignTypedData (r : SignTypedDataResponse)
| ReLockVault (r : LockVaultResponse)
| ReUnlockVault (r : UnlockVaultResponse)
| ReRegisterPasskey (r : RegisterPasskeyResponse)
| ReGenerateChallenge (r : GenerateChallengeResponse)
| ReDrainTelemetry (r : DrainTelemetryResponse).

(** [Message::encode_to_vec] of each response message. *)
Class Wire := { encode_reply : Reply -> bytes }.

(** ** Enumerations *)

Inductive DenyReason :=
| RateLimitMinute | RateLimitHour | BudgetExceeded | Whitelist | Expired
| PasskeyForged | PolicyMissing | Cooldown | Unknown.

Definition deny_code (r : DenyReason) : Z :=
  match r with
  | RateLimitMinute => 0 | RateLimitHour => 1 | BudgetExceeded => 2 | Whitelist => 3 | Expired => 4
  | PasskeyForged => 5 | PolicyMissing => 6 | Cooldown => 7 | Unknown => 8
  end.

Definition as_str_name (r : DenyReason) : string :=
  match r with
  | RateLimitMinute => "DENY_REASON_RATE_LIMIT_MINUTE"
  | RateLimitHour => "DENY_REASON_RATE_LIMIT_HOUR"
  | BudgetExceeded => "DENY_REASON_BUDGET_EXCEEDED"
  | Whitelist => "DENY_REASON_WHITELIST"
  | Expired => "DENY_REASON_EXPIRED"
  | PasskeyForged => "DENY_REASON_PASSKEY_FORGED"
  | PolicyMissing => "DENY_REASON_POLICY_MISSING"
  | Cooldown => "DENY_REASON_COOLDOWN"
  | Unknown => "DENY_REASON_UNKNOWN"
  end.

Definition from_str_name (name : string) : option DenyReason :=
  if String.eqb name "DENY_REASON_RATE_LIMIT_MINUTE" then Some RateLimitMinute
  else if String.eqb name "DENY_REASON_RATE_LIMIT_HOUR" then Some RateLimitHour
  else if String.eqb name "DENY_REASON_BUDGET_EXCEEDED" then Some BudgetExceeded
  else if String.eqb name "DENY_REASON_WHITELIST" then Some Whitelist
  else if String.eqb name "DENY_REASON_EXPIRED" then Some Expired
  else if String.eqb name "DENY_REASON_PASSKEY_FORGED" then Some PasskeyForged
  else if String.eqb name "DENY_REASON_POLICY_MISSING" then Some PolicyMissing
  else if String.eqb name "DENY_REASON_COOLDOWN" then Some Cooldown
  else if String.eqb name "DENY_REASON_UNKNOWN" then Some Unknown
  else None.

Lemma deny_name_roundtrip r : from_str_name (as_str_name r) = Some r.
Proof. by destruct r. Qed.

Inductive SessionKeyStatus := StatusActive | StatusRevoked | StatusExpired.

Definition status_code (s : SessionKeyStatus) : Z :=
  match s with StatusActive => 0 | StatusRevoked => 1 | StatusExpired => 2 end.

Definition status_str_name (s : SessionKeyStatus) : string :=
  match s with
  | StatusActive => "SESSION_KEY_STATUS_ACTIVE"
  | StatusRevoked => "SESSION_KEY_STATUS_REVOKED"
  | StatusExpired => "SESSION_KEY_STATUS_EXPIRED"
  end.

Definition status_from_str_name (name : string) : option SessionKeyStatus :=
  if String.eqb name "SESSION_KEY_STATUS_ACTIVE" then Some StatusActive
  else if String.eqb name "SESSION_KEY_STATUS_REVOKED" then Some StatusRevoked
  else if String.eqb name "SESSION_KEY_STATUS_EXPIRED" then Some StatusExpired
  else None.

Lemma status_name_roundtrip s : status_from_str_name (status_str_name s) = Some s.
Proof. by destruct s. Qed.
