(* ===== verification/Net.v ===== *)
(** * The network agent's calls on the world

    crates/oc-netagent talks to the clock, the user, the Key-Agent and RPC nodes.  A handler
    is a tree of such calls, each with a continuation for every answer; [run] follows one
    sequence of answers and records what was called.  [wp] is the calculus the handlers'
    theorems are proved with: a condition on every call given what the calls before it have
    shown, and one on the result. *)

From Stdlib Require Import ZArith Lia String Bool.
From stdpp Require Import base list strings.
From S2P Require Import Prelude F64 Json Bytes Frame Proto Approvals.

Local Open Scope oc_scope.

(** The JSON-RPC error codes of crates/oc-walletconnect/src/jsonrpc.rs. *)
Inductive JsonRpcErrorCode :=
| UserRejected | Unauthorized | UnsupportedMethod | VaultLocked
| PolicyRateLimit | PolicyBudgetExceeded | PolicyWhitelist | PolicyCooldown | PolicyAmountExceeded
| CodePolicyMissing | PolicyExpired | PolicyContractNotWhitelisted | PolicyChainNotWhitelisted
| Internal | CodeSigner.

Definition code_number (c : JsonRpcErrorCode) : Z :=
  match c with
  | UserRejected => 4001 | Unauthorized => 4100 | UnsupportedMethod => 4200 | VaultLocked => 4900
  | PolicyRateLimit => 4031 | PolicyBudgetExceeded => 4032 | PolicyWhitelist => 4033 | PolicyCooldown => 4034
  | PolicyAmountExceeded => 4035 | CodePolicyMissing => 4036 | PolicyExpired => 4037
  | PolicyContractNotWhitelisted => 4038 | PolicyChainNotWhitelisted => 4039 | Internal => 5000 | CodeSigner => 5001
  end.

Definition RpcFailure : Type := JsonRpcErrorCode * string.

(** [RpcError] of intent/rpc.rs. *)
Inductive RpcError :=
| RpcRpc (msg : string) | RpcTransport (msg : string) | RpcParse (msg : string) | RpcServer (msg : string)
| RpcTimeout | RpcNotFound.

Record CallData := { cd_from : option string; cd_to : string; cd_value : option string; cd_data : option bytes }.

(** How a wait for the user's decision ends: with a decision, with the other side gone, or
    with the time over. *)
Inductive WaitEnd := Answered (d : ApprovalDecision) | SenderGone | Elapsed.

(** An RPC client: the chain it was made for and its endpoint. *)
Record Client := { client_chain : string; client_url : string }.

Section Net.
Context {S : SerdeNumber} (Instant : Type).

Inductive Ev : Type -> Type :=
(** The seconds since the epoch, [None] when the clock is before it; its other forms. *)
| Now : Ev (option Z)
| NowInstant : Ev Instant
| NowText : Ev string
| ApprovalMode : Ev bool
(** [try_lock] and [get] on the session table. *)
| SessionMeta (topic : string) : Ev (option (option (option string * option string)))
| FreshId : Ev string
| LogPending (a : PendingApproval) : Ev unit
| LogResolved (id decision reason : string) : Ev unit
| Submit (a : PendingApproval) : Ev bool
| AwaitAnswer (timeout : Z) : Ev WaitEnd
(** A blocking task's thread: the error it is joined with. *)
| JoinTask : Ev (option string)
(** Whether tokio lets this thread block on a future: in an asynchronous context it panics. *)
| MayBlock : Ev bool
| Send (k : KeyAgentRequestKind) : Ev (result string KeyAgentResponse)
| EnvRpcUrl : Ev (option string)
| NewClient (chain url : string) : Ev (result string unit)
| EstimateGas (c : Client) (call : CallData) : Ev (result RpcError Z)
| EthCall (c : Client) (call : CallData) : Ev (result RpcError Value)
| SendRaw (c : Client) (tx : bytes) : Ev (result RpcError string)
| WaitReceipt (c : Client) (hash : string) : Ev (result RpcError Value)
| GasPrice (c : Client) : Ev (result RpcError Z)
| NativePrice (c : Client) : Ev (result RpcError f64)
| TransactionCount (c : Client) (address : string) : Ev (result RpcError Z).

Inductive Prog (A : Type) : Type :=
| Done (a : A)
| Crash
| Do {B : Type} (e : Ev B) (k : B -> Prog A).
Arguments Done {A} a.
Arguments Crash {A}.
Arguments Do {A B} e k.

Fixpoint bind {A B} (p : Prog A) (f : A -> Prog B) : Prog B :=
  match p with
  | Done a => f a
  | Crash => Crash
  | Do e k => Do e (fun b => bind (k b) f)
  end.

Definition call {B} (e : Ev B) : Prog B := Do e Done.

(** [?] in an async function. *)
Definition bind_ok {E A B} (p : Prog (result E A)) (f : A -> Prog (result E B)) : Prog (result E B) :=
  bind p (fun r => match r with Ok a => f a | Err e => Done (Err e) end).

(** A call that was made, and its answer. *)
Inductive Did : Type :=
| did {B : Type} (e : Ev B) (b : B).

(** [o] answers the call of each place in the sequence. *)
Fixpoint run {A} (o : forall B, nat -> Ev B -> B) (n : nat) (p : Prog A) : list Did * outcome A :=
  match p with
  | Done a => ([], Ret a)
  | Crash => ([], Panic)
  | @Do _ B e k =>
      let b := o B n e in
      let '(tr, a) := run o (Datatypes.S n) (k b) in (did e b :: tr, a)
  end.

(** ** The calculus *)

Section Wp.
(** What the calls so far have shown, and what each call asks of it. *)
Context {St : Type} (note : St -> Did -> St) (guard : St -> forall B, Ev B -> Prop).

Fixpoint wp {A} (s : St) (p : Prog A) (Q : St -> A -> Prop) : Prop :=
  match p with
  | Done a => Q s a
  | Crash => True
  | @Do _ B e k => guard s B e /\ forall b, wp (note s (did e b)) (k b) Q
  end.

Lemma wp_mono {A} (p : Prog A) s (Q Q' : St -> A -> Prop) :
  wp s p Q -> (forall s' a, Q s' a -> Q' s' a) -> wp s p Q'.
Proof.
  revert s. induction p as [a| |B e k IH]; intros s H Hq; cbn in *; [by apply Hq|done|].
  destruct H as [Hg Hk]. split; [done|]. intros b. by apply IH.
Qed.

Lemma wp_bind {A B} (p : Prog A) (f : A -> Prog B) s Q :
  wp s p (fun s' a => wp s' (f a) Q) -> wp s (bind p f) Q.
Proof.
  revert s. induction p as [a| |C e k IH]; intros s H; cbn in *; [done|done|]. destruct H as [Hg Hk].
  split; [done|]. intros b. by apply IH.
Qed.

(** A step of [?]: only the answers that are not errors go on. *)
Lemma wp_bind_ok {E A B} (p : Prog (result E A)) (f : A -> Prog (result E B)) s Q :
  wp s p (fun s' r => match r with Ok a => wp s' (f a) Q | Err e => Q s' (Err e) end) -> wp s (bind_ok p f) Q.
Proof. intros H. apply wp_bind. eapply wp_mono; [exact H|]. by intros s' [a|e]. Qed.

(** Every call of a run met its condition, and the result its own, unless the handler panicked. *)
Lemma wp_run {A} (p : Prog A) s Q o n : wp s p Q ->
  let '(tr, a) := run o n p in
  (forall x, a = Ret x -> Q (fold_left note tr s) x) /\
  forall l B (e : Ev B) b r, tr = l ++ did e b :: r -> guard (fold_left note l s) B e.
Proof.
  revert s n. induction p as [a| |B e k IH]; intros s n H; cbn in *.
  - split; [by intros x [= <-]|]. intros l B e b r Hr. by destruct l.
  - split; [done|]. intros l B e b r Hr. by destruct l.
  - destruct H as [Hg Hk]. specialize (IH (o B n e) (note s (did e (o B n e))) (Datatypes.S n) (Hk _)).
    destruct (run o (Datatypes.S n) (k (o B n e))) as [tr a]. destruct IH as [IH1 IH2]. split; [done|].
    intros [|d l] C e' b r Hr; pose proof (f_equal head Hr) as Hd; cbn in Hd; apply (inj Some) in Hd.
    + change (match did e' b with @did B e _ => guard s B e end). by rewrite <- Hd.
    + subst d. exact (IH2 l C e' b r (f_equal tail Hr)).
Qed.
End Wp.
End Net.

Arguments Now {S Instant}.
Arguments NowInstant {S Instant}.
Arguments NowText {S Instant}.
Arguments ApprovalMode {S Instant}.
Arguments SessionMeta {S Instant}.
Arguments FreshId {S Instant}.
Arguments LogPending {S Instant}.
Arguments LogResolved {S Instant}.
Arguments Submit {S Instant}.
Arguments AwaitAnswer {S Instant}.
Arguments JoinTask {S Instant}.
Arguments MayBlock {S Instant}.
Arguments Send {S Instant}.
Arguments EnvRpcUrl {S Instant}.
Arguments NewClient {S Instant}.
Arguments EstimateGas {S Instant}.
Arguments EthCall {S Instant}.
Arguments SendRaw {S Instant}.
Arguments WaitReceipt {S Instant}.
Arguments GasPrice {S Instant}.
Arguments NativePrice {S Instant}.
Arguments TransactionCount {S Instant}.
Arguments Done {S Instant A} a.
Arguments Crash {S Instant A}.
Arguments Do {S Instant A B} e k.
Arguments call {S Instant B} e.
Arguments bind {S Instant A B} p f.
Arguments bind_ok {S Instant E A B} p f.
Arguments did {S Instant B} e b.
Arguments run {S Instant A} o n p.
Arguments wp {S Instant St} note guard {A} s p Q.

Declare Scope net_scope.
Delimit Scope net_scope with net.
Notation "'let*' x ':=' p 'in' k" := (bind p (fun x => k)) (at level 10, x name, p at level 100, k at level 200) : net_scope.
Notation "'let*' ' x ':=' p 'in' k" := (bind p (fun x => k))
  (at level 10, x strict pattern, p at level 100, k at level 200) : net_scope.
Notation "'try*' x ':=' p 'in' k" := (bind_ok p (fun x => k)) (at level 10, x name, p at level 100, k at level 200) : net_scope.
Notation "'try*' ' x ':=' p 'in' k" := (bind_ok p (fun x => k))
  (at level 10, x strict pattern, p at level 100, k at level 200) : net_scope.
