(* ===== verification/ChainKey.v ===== *)
(** * Unlocking a chain key

    The key-loading helpers of crates/oc-keyagent/src/handler.rs: the device key
    ([AuditChain]'s key store), the unlock token derived from it
    (crates/oc-core/src/secure_types.rs), the decryption of a wallet under the
    token, and the message-signing core.  [decrypt_signing_key] of oc-wallet, the
    signers of oc-signer ([ChainSigner] and its implementations), HKDF and the
    locking of memory are the classes [WalletKeys], [Signers] and [Kdf].  The
    state is the process's chain-id interner and the disk. *)

From Stdlib Require Import ZArith Lia Bool String Ascii.
From stdpp Require Import base list strings gmap.
From S2P Require Import Prelude Str Files Json Bytes Passkey.
From S2P Require AuditChain Chain.

Local Open Scope oc_scope.

(** [err_code] and [coded]. *)
Definition E_AUTH : string := "E_AUTH".
Definition E_PARAM : string := "E_PARAM".
Definition E_WALLET : string := "E_WALLET".
Definition E_DECRYPT : string := "E_DECRYPT".
Definition E_SESSION_KEY : string := "E_SESSION_KEY".
Definition E_AUDIT : string := "E_AUDIT".
Definition E_INTERNAL : string := "E_INTERNAL".

Definition coded (code detail : string) : string := code +:+ ": " +:+ detail.

(** [oc_signer::Curve] and [SignOutput]. *)
Inductive Curve := Secp256k1 | Ed25519Curve.

Record SignOutput := {
  signature : bytes;
  recovery_id : option Z;
  public_key : option bytes
}.

(** [signer_for_chain] and the methods of [ChainSigner]; errors are their texts.
    [sign_typed_data] is [EvmSigner]'s; the last two are the point encodings of
    k256 and ed25519-dalek. *)
Class Signers := {
  curve : Chain.ChainType -> Curve;
  derive_address : Chain.ChainType -> bytes -> result string string;
  sign_message : Chain.ChainType -> bytes -> string -> result string SignOutput;
  extract_signable_bytes : Chain.ChainType -> bytes -> result string bytes;
  sign_transaction : Chain.ChainType -> bytes -> bytes -> result string SignOutput;
  encode_signed_transaction : Chain.ChainType -> bytes -> SignOutput -> result string bytes;
  sign_typed_data : bytes -> string -> result string SignOutput;
  secp256k1_public : bytes -> option bytes;
  ed25519_public : bytes -> bytes
}.

(** [oc_wallet::ops::decrypt_signing_key]: wallet, chain, passphrase, HD index and
    vault root; it only reads the disk. *)
Class WalletKeys := {
  decrypt_signing_key :
    FS -> string -> Chain.ChainType -> bytes -> option Z -> option string -> result string bytes
}.

(** HKDF-SHA256 for 32 bytes of output, and [HardenedBytes::from_slice], which
    copies or reports that memory cannot be locked. *)
Class Kdf := {
  hkdf_sha256 : bytes -> bytes -> bytes -> result string bytes;
  harden : bytes -> result string bytes
}.

(** The texts of the errors a handler puts into its answer; the last is
    [FromUtf8Error]'s for the bytes it met. *)
Class Display (json_error : Type) := {
  show_json : json_error -> string;
  debug_str : string -> string;
  show_path : Path -> string;
  show_from_utf8 : string -> string
}.

Definition show_audit_error {S : SerdeNumber} {io_error json_error}
    {A : AuditChain.AuditEnv io_error json_error} {D : Display json_error}
    (e : AuditChain.AuditError io_error json_error) : string :=
  match e with
  | AuditChain.Io e => "I/O error: " +:+ AuditChain.show_io e
  | AuditChain.Json e => "JSON error: " +:+ show_json e
  | AuditChain.Tampered n => "signature verification failed at seq " +:+ fmt_Z n
  | AuditChain.ChainHashMismatch n => "chain hash mismatch at seq " +:+ fmt_Z n
  | AuditChain.Signature m => "signature error: " +:+ m
  | AuditChain.DuplicateInMerge => "duplicate (device_id, seq) detected during merge"
  | AuditChain.DeviceKeyError m => "device key error: " +:+ m
  end.

(** ** Unlock tokens *)

(** Instants and durations in milliseconds. *)
Record UnlockToken := {
  token_key : bytes;
  issued_at : Z;
  ttl : Z;
  token_wallet_id : string
}.

Definition TOKEN_DEFAULT_TTL_SECS : Z := 30.

Definition show_invalid_input (m : string) : string := "invalid input: " +:+ m.

Section Tokens.
Context {K : Kdf}.

Definition token_new (now : Z) (wallet_id : string) (key_material : bytes) : result string UnlockToken :=
  let? hash := result_map_err
    (fun e => show_invalid_input ("unlock token hkdf expand failed: " +:+ e))
    (hkdf_sha256 (str_bytes "onecipher-unlock-token-v2") key_material (str_bytes wallet_id)) in
  let? key := result_map_err
    (fun e => show_invalid_input ("failed to harden unlock token: " +:+ e)) (harden hash) in
  Ok {| token_key := key; issued_at := now; ttl := TOKEN_DEFAULT_TTL_SECS * 1000;
        token_wallet_id := wallet_id |}.

Definition is_valid (now : Z) (t : UnlockToken) : bool := (saturating_sub now (issued_at t) <? ttl t)%Z.

Definition to_passphrase (t : UnlockToken) : result string bytes :=
  result_map_err (fun e => show_invalid_input ("failed to harden passphrase: " +:+ e))
    (harden (token_key t)).
End Tokens.

(** ** Loading a key *)

Section ChainKey.
Context {S : SerdeNumber} {io_error json_error : Type}.
Context {A : AuditChain.AuditEnv io_error json_error} {D : Display json_error}.
Context {L : Lowercase} {G : Signers} {W : WalletKeys} {K : Kdf}.

(** [DeviceKeyStore::open_default] (the path below [HOME], or why there is none),
    its system calls, the generator's 32 bytes and the token's clock. *)
Record KeyWorld := {
  key_store : result (AuditChain.AuditError io_error json_error) Path;
  key_io : @AuditChain.KeyIo io_error;
  key_random : string;
  token_clock : Z
}.

(** The interner and the disk. *)
Definition KeyState : Type := Chain.Interner * FS.

Definition load_device_key (w : KeyWorld) (d : FS) : result string bytes * FS :=
  match key_store w with
  | Err e => (Err (coded E_INTERNAL ("device key store: " +:+ show_audit_error e)), d)
  | Ok path =>
      let '(r, trace) := AuditChain.load_or_generate (key_io w) (key_random w) path d in
      (match r with
       | Ok key => Ok (str_bytes (AuditChain.key_to_bytes key))
       | Err e => Err (coded E_INTERNAL ("device key: " +:+ show_audit_error e))
       end, default d (last trace))
  end.

Definition attempt_decrypt_with_token_at (wallet_id : string) (ct : Chain.ChainType) (token : UnlockToken)
    (vault : option string) (d : FS) : result string bytes :=
  let? pp := result_map_err (fun e => coded E_DECRYPT ("passphrase derivation: " +:+ e)) (to_passphrase token) in
  result_map_err (fun e => coded E_DECRYPT ("wallet decrypt failed: " +:+ e))
    (decrypt_signing_key d wallet_id ct pp None vault).

Definition vault_path : option string := None.

Definition attempt_decrypt_with_token (wallet_id : string) (ct : Chain.ChainType) (token : UnlockToken)
    (d : FS) : result string bytes :=
  attempt_decrypt_with_token_at wallet_id ct token vault_path d.

Definition wallet_decrypts_with_token (wallet_id : string) (token : UnlockToken) (d : FS) : bool :=
  existsb (fun ct => is_ok (attempt_decrypt_with_token wallet_id ct token d)) [Chain.Evm; Chain.Solana].

(** The signer is that of the chain type. *)
Definition load_chain_key_at (w : KeyWorld) (wallet_id chain_id : string) (vault : option string)
    (st : KeyState) : result string (bytes * Chain.ChainType) * KeyState :=
  let '(i, d) := st in
  match Chain.parse_chain chain_id i with
  | (Err e, i) => (Err (coded E_PARAM ("invalid chain: " +:+ e)), (i, d))
  | (Ok chain, i) =>
      match load_device_key w d with
      | (Err e, d) => (Err e, (i, d))
      | (Ok device_key, d) =>
          (let? token := result_map_err (fun e => coded E_DECRYPT ("token derivation: " +:+ e))
             (token_new (token_clock w) wallet_id device_key) in
           let? key := attempt_decrypt_with_token_at wallet_id (Chain.chain_type chain) token vault d in
           Ok (key, Chain.chain_type chain), (i, d))
      end
  end.

Definition load_chain_key (w : KeyWorld) (wallet_id chain_id : string) (st : KeyState)
  : result string (bytes * Chain.ChainType) * KeyState :=
  load_chain_key_at w wallet_id chain_id vault_path st.

(** The key is lent to [f] and dropped. *)
Definition with_signing_key_at {R : Type} (w : KeyWorld) (vault : option string)
    (wallet_id chain_id : string) (f : bytes -> R) (st : KeyState) : result string R * KeyState :=
  let '(r, st) := load_chain_key_at w wallet_id chain_id vault st in
  (result_map (fun '(key, _) => f key) r, st).

Definition with_signing_key {R : Type} (w : KeyWorld) (wallet_id chain_id : string) (f : bytes -> R)
    (st : KeyState) : result string R * KeyState :=
  with_signing_key_at w None wallet_id chain_id f st.

Definition derive_public_key (c : Curve) (private_key : bytes) : option bytes :=
  match c with
  | Secp256k1 => secp256k1_public private_key
  | Ed25519Curve =>
      if (length private_key <? 32)%nat then None else Some (ed25519_public (take 32 private_key))
  end.

(** Signature, address and public key of a message. *)
Definition sign_with_key (ct : Chain.ChainType) (message : string) (key : bytes)
  : result string (bytes * string * bytes) :=
  match sign_message ct key message, derive_address ct key with
  | Ok output, Ok address =>
      let pk := match public_key output with
                | Some pk => pk
                | None => default [] (derive_public_key (curve ct) key)
                end in
      Ok (signature output, address, pk)
  | Err e, _ => Err (coded E_INTERNAL ("signing failed: " +:+ e))
  | _, Err e => Err (coded E_INTERNAL ("address derivation: " +:+ e))
  end.

Definition sign_message_core (w : KeyWorld) (wallet_id chain_id message : string) (st : KeyState)
  : result string (bytes * string * bytes) * KeyState :=
  let '(i, d) := st in
  match Chain.parse_chain chain_id i with
  | (Err e, i) => (Err (coded E_PARAM ("invalid chain: " +:+ e)), (i, d))
  | (Ok chain, i) =>
      let '(r, st) := with_signing_key w wallet_id chain_id
                        (sign_with_key (Chain.chain_type chain) message) (i, d) in
      (result_bind r (fun r => r), st)
  end.

(** ** What loading a key does to the disk *)

(** [d'] agrees with [d] on every durable file but the device key's. *)
Definition only_key (w : KeyWorld) (d d' : FS) : Prop :=
  forall q, durable q -> (forall p, key_store w = Ok p -> q <> p) -> d' !! q = d !! q.

Lemma generate_leaves io random path d q :
  q <> path -> durable q -> leaves q d (AuditChain.generate_and_save io random path d).
Proof.
  intros Hq Hd. unfold AuditChain.generate_and_save, leaves.
  pose proof (write_private_leaves AuditChain.no_parent (AuditChain.key_create_err io)
    (AuditChain.key_faults io) path (AuditChain.key_to_bytes (AuditChain.key_from_bytes random))
    (AuditChain.key_pid io) (AuditChain.key_nanos io) (AuditChain.key_seq io) d q Hq Hd) as Hw.
  unfold leaves in Hw.
  destruct path.1, (AuditChain.key_dir_err io), (AuditChain.key_chmod_err io);
    try (by repeat constructor); by destruct (write_atomic_private _ _ _ _ _ _ _ _ _).
Qed.

Lemma load_device_key_frame w d : only_key w d (load_device_key w d).2.
Proof.
  intros q Hd Hq. unfold load_device_key. destruct (key_store w) as [p|]; [|done].
  assert (H : leaves q d (AuditChain.load_or_generate (key_io w) (key_random w) p d)).
  { unfold AuditChain.load_or_generate. destruct (d !! p); [by repeat constructor|].
    apply generate_leaves; auto. }
  apply leaves_final in H. by destruct (AuditChain.load_or_generate _ _ _ _).
Qed.

Lemma only_key_refl w d : only_key w d d.
Proof. done. Qed.

Lemma load_chain_key_frame w wid cid vault st :
  only_key w st.2 (load_chain_key_at w wid cid vault st).2.2.
Proof.
  destruct st as [i d]. unfold load_chain_key_at. destruct (Chain.parse_chain cid i) as [[c|] i1]; [|done].
  pose proof (load_device_key_frame w d) as H. by destruct (load_device_key w d) as [[]].
Qed.

Lemma sign_message_core_frame w wid cid m st : only_key w st.2 (sign_message_core w wid cid m st).2.2.
Proof.
  destruct st as [i d]. unfold sign_message_core, with_signing_key, with_signing_key_at.
  destruct (Chain.parse_chain cid i) as [[c|] i1]; [|done].
  pose proof (load_chain_key_frame w wid cid None (i1, d)) as H.
  by destruct (load_chain_key_at w wid cid None (i1, d)).
Qed.

(** A token unlocks only what its wallet's key unlocks: the passphrase is the
    HKDF of the device key with the wallet id. *)
Lemma attempt_decrypt_key now wid dk ct t vault d key :
  token_new now wid dk = Ok t ->
  attempt_decrypt_with_token_at wid ct t vault d = Ok key ->
  exists h k pp, hkdf_sha256 (str_bytes "onecipher-unlock-token-v2") dk (str_bytes wid) = Ok h /\
    harden h = Ok k /\ harden k = Ok pp /\ decrypt_signing_key d wid ct pp None vault = Ok key.
Proof.
  unfold token_new, attempt_decrypt_with_token_at, to_passphrase. intros Ht Hk.
  destruct (hkdf_sha256 _ _ _) as [h|] eqn:Hh; [|done]. cbn [result_map_err result_bind] in Ht.
  destruct (harden h) as [k|] eqn:Hk1; [|done]. cbn in Ht. injection Ht as <-. cbn [token_key] in Hk.
  destruct (harden k) as [pp|] eqn:Hk2; [|done]. cbn [result_map_err result_bind] in Hk.
  exists h, k, pp. split_and!; try done.
  by destruct (decrypt_signing_key _ _ _ _ _ _) eqn:E; [injection Hk as <-|].
Qed.
End ChainKey.

(** ** Concrete instances *)

#[export] Instance demo_display : Display unit := {|
  show_json _ := "json"; debug_str s := s; show_path _ := "path"; show_from_utf8 _ := "invalid utf-8"
|}.

#[export] Instance demo_signers : Signers := {|
  curve ct := match ct with Chain.Solana => Ed25519Curve | _ => Secp256k1 end;
  derive_address _ _ := Ok "0xAbC";
  sign_message _ _ _ := Ok {| signature := [1]%Z; recovery_id := Some 0%Z; public_key := Some [2]%Z |};
  extract_signable_bytes _ tx := Ok tx;
  sign_transaction _ _ tx := Ok {| signature := [3]%Z; recovery_id := Some 1%Z; public_key := None |};
  encode_signed_transaction _ tx o := Ok (tx ++ signature o);
  sign_typed_data _ _ := Ok {| signature := [4]%Z; recovery_id := Some 1%Z; public_key := None |};
  secp256k1_public key := Some key;
  ed25519_public key := key
|}.

(** One wallet, "w", that any passphrase opens. *)
#[export] Instance demo_wallet_keys : WalletKeys := {|
  decrypt_signing_key _ wallet _ pp _ _ := if String.eqb wallet "w" then Ok pp else Err "wallet not found"
|}.

#[export] Instance demo_kdf : Kdf := {|
  hkdf_sha256 _ ikm info := Ok (take 32 (info ++ ikm));
  harden k := Ok k
|}.

Definition demo_key_path : Path := (Some "/home/a/.onecipher", Some "device_key").

Definition demo_key_world : @KeyWorld string unit := {|
  key_store := Ok demo_key_path;
  key_io := AuditChain.demo_key_io;
  key_random := "0123456789abcdef0123456789abcdef";
  token_clock := 0
|}.
