(* ===== verification/Enclave.v ===== *)
(** * The signing enclave

    crates/oc-keyagent/src/enclave.rs: every signing request is served by a child
    process that receives one JSON line, decrypts the wallet, signs and answers with
    one JSON line.  Both sides are here: the requests and their validation, the
    child's handlers over [ChainKey], and the parent that spawns, feeds, polls and
    checks the child.  serde_json is the class [EnclaveJson]; what the operating
    system makes of a spawned process is the record [Child]. *)

From Stdlib Require Import ZArith Lia Bool String Ascii.
From stdpp Require Import base list strings gmap.
From S2P Require Import Prelude Str Files Json Bytes DemoText ChainKey.
From S2P Require AuditChain Chain Passkey.

Local Open Scope oc_scope.

Definition ENCLAVE_PROTOCOL_VERSION : Z := 1.
Definition ENCLAVE_CHILD_ARG : string := "--enclave-child".
Definition ENCLAVE_DEFAULT_TIMEOUT : Z := 30.
Definition ENCLAVE_MAX_PAYLOAD_BYTES : Z := 1024 * 1024.
Definition ENCLAVE_MAX_EXTRA_JSON_BYTES : Z := 256 * 1024.
Definition ENCLAVE_MAX_FIELD_CHARS : Z := 256.

Definition OP_PING : string := "ping".
Definition OP_SIGN_MESSAGE : string := "sign_message".
Definition OP_SIGN_TRANSACTION : string := "sign_transaction".
Definition OP_SIGN_TYPED_DATA : string := "sign_typed_data".
Definition OP_SIGN_USER_OP : string := "sign_user_op".
Definition OP_SIGN_AUTH : string := "sign_auth".
Definition OP_PUBLIC_KEY : string := "public_key".

(** The list of Unix builds. *)
Definition CHILD_ENV_ALLOWLIST : list string :=
  ["HOME"; "USER"; "LOGNAME"; "XDG_RUNTIME_DIR"; "XDG_CONFIG_HOME"; "XDG_CACHE_HOME";
   "TMPDIR"; "TEMP"; "TMP"; "OC_STRICT_HARDEN"].

Definition CHILD_ENV_SCRUB : list string :=
  ["ONECIPHER_PASSPHRASE"; "OC_PASSPHRASE"; "OWS_PASSPHRASE"; "OWX_PASSPHRASE"; "LWS_PASSPHRASE";
   "ONECIPHER_MNEMONIC"; "OWS_MNEMONIC"; "LWS_MNEMONIC";
   "ONECIPHER_PRIVATE_KEY"; "OWS_PRIVATE_KEY"; "LWS_PRIVATE_KEY"].

(** A process environment; values that are not UTF-8 are left out. *)
Abbreviation Environment := (gmap string string).

Inductive EnclaveMode := Enabled | Disabled.

Definition in_strings (l : list string) (s : string) : bool := existsb (String.eqb s) l.

(** Release builds: unset and unknown values enable. *)
Definition enclave_mode (env : Environment) : EnclaveMode :=
  match env !! "OC_ENCLAVE" with
  | Some v => if in_strings ["0"; "off"; "false"; "no"] (ascii_lowercase (trim v)) then Disabled
              else Enabled
  | None => Enabled
  end.

Definition enclave_enabled (env : Environment) : bool :=
  match enclave_mode env with Enabled => true | Disabled => false end.

(** In seconds. *)
Definition enclave_timeout (env : Environment) : Z :=
  match env !! "OC_ENCLAVE_TIMEOUT_SECS" with
  | Some v => match parse_unsigned u64_max (trim v) with
              | Some secs => if (0 <? secs)%Z then secs else ENCLAVE_DEFAULT_TIMEOUT
              | None => ENCLAVE_DEFAULT_TIMEOUT
              end
  | None => ENCLAVE_DEFAULT_TIMEOUT
  end.

(** ** Requests and responses *)

Record EnclaveRequest := {
  oc_version : Z;
  request_id : string;
  op : string;
  wallet_id : string;
  chain_id : string;
  payload_hex : string;
  extra_json : string;
  index : Z;
  credential_hex : option string;
  vault_dir : option string
}.

(** [{:x}] for at most [fuel] digits. *)
Fixpoint fmt_hex (fuel : nat) (n : Z) : string :=
  match fuel with
  | O => ""
  | S fuel' => (if (n <? 16)%Z then "" else fmt_hex fuel' (n / 16)) +:+ String (hex_digit (n mod 16)) ""
  end.

(** The pid, the time in nanoseconds and the counter it reads. *)
Definition new_request_id (pid nanos counter : Z) : string :=
  fmt_hex 8 pid +:+ "-" +:+ fmt_hex 32 nanos +:+ "-" +:+ fmt_hex 16 counter.

(** [EnclaveRequest::sign]. *)
Definition sign_request (id o wallet chain payload : string) (credential : option string) : EnclaveRequest := {|
  oc_version := ENCLAVE_PROTOCOL_VERSION; request_id := id; op := o; wallet_id := wallet;
  chain_id := chain; payload_hex := payload; extra_json := ""; index := 0;
  credential_hex := credential; vault_dir := None
|}.

Definition ping (id : string) : EnclaveRequest := sign_request id OP_PING "" "" "" None.

Definition needs_chain (o : string) : bool :=
  in_strings [OP_SIGN_MESSAGE; OP_SIGN_TRANSACTION; OP_SIGN_TYPED_DATA; OP_SIGN_USER_OP;
              OP_SIGN_AUTH; OP_PUBLIC_KEY] o.

Definition validate (r : EnclaveRequest) : result string unit :=
  if negb (oc_version r =? ENCLAVE_PROTOCOL_VERSION)%Z then
    Err ("enclave version mismatch: got " +:+ fmt_Z (oc_version r) +:+ ", want " +:+
         fmt_Z ENCLAVE_PROTOCOL_VERSION)
  else if is_empty (request_id r) || (ENCLAVE_MAX_FIELD_CHARS <? str_len (request_id r))%Z then
    Err "enclave request_id missing or oversized"
  else if (ENCLAVE_MAX_FIELD_CHARS <? str_len (wallet_id r))%Z then Err "enclave wallet_id oversized"
  else if (ENCLAVE_MAX_FIELD_CHARS <? str_len (chain_id r))%Z then Err "enclave chain_id oversized"
  else if negb (String.eqb (op r) OP_PING) && is_empty (wallet_id r) then
    Err ("enclave op '" +:+ op r +:+ "' requires wallet_id")
  else if needs_chain (op r) && is_empty (chain_id r) then
    Err ("enclave op '" +:+ op r +:+ "' requires chain_id")
  else if (ENCLAVE_MAX_PAYLOAD_BYTES * 2 + 8 <? str_len (payload_hex r))%Z then
    Err "enclave payload_hex oversized"
  else if (ENCLAVE_MAX_EXTRA_JSON_BYTES <? str_len (extra_json r))%Z then
    Err "enclave extra_json oversized"
  else if in_strings [OP_PING; OP_SIGN_MESSAGE; OP_SIGN_TRANSACTION; OP_SIGN_TYPED_DATA;
                      OP_SIGN_USER_OP; OP_SIGN_AUTH; OP_PUBLIC_KEY] (op r) then Ok tt
  else Err ("unknown enclave op: " +:+ op r).

Record EnclaveResponse := {
  resp_version : Z;
  resp_request_id : string;
  resp_ok : bool;
  signature_hex : option string;
  signed_tx_hex : option string;
  address : option string;
  public_key_hex : option string;
  resp_recovery_id : option Z;
  resp_pid : Z;
  error : option string
}.

Definition response_ok (id : string) (pid : Z) : EnclaveResponse := {|
  resp_version := ENCLAVE_PROTOCOL_VERSION; resp_request_id := id; resp_ok := true;
  signature_hex := None; signed_tx_hex := None; address := None; public_key_hex := None;
  resp_recovery_id := None; resp_pid := pid; error := None
|}.

Definition response_fail (id : string) (pid : Z) (e : string) : EnclaveResponse := {|
  resp_version := ENCLAVE_PROTOCOL_VERSION; resp_request_id := id; resp_ok := false;
  signature_hex := None; signed_tx_hex := None; address := None; public_key_hex := None;
  resp_recovery_id := None; resp_pid := pid; error := Some e
|}.

Record EnclaveError := error_new { error_pid : option Z; message : string }.

Definition show_enclave_error (e : EnclaveError) : string :=
  match error_pid e with
  | Some pid => "enclave(pid " +:+ fmt_Z pid +:+ "): " +:+ message e
  | None => "enclave: " +:+ message e
  end.

(** ** The environment of the child *)

Definition child_env (env : Environment) : list (string * string) :=
  omap (fun name => (fun value => (name, value)) <$> env !! name) CHILD_ENV_ALLOWLIST.

Definition scrub_child_env (env : Environment) : Environment :=
  foldr (fun name env => delete name env) env CHILD_ENV_SCRUB.

Class EnclaveJson (json_error : Type) := {
  request_to_json : EnclaveRequest -> result json_error string;
  request_from_json : string -> result json_error EnclaveRequest;
  response_to_json : EnclaveResponse -> result json_error string;
  response_from_json : string -> result json_error EnclaveResponse;
  is_json : string -> bool
}.

(** Compact JSON is one line of UTF-8 without white space around it, and reads
    back as the value. *)
Definition one_line (s : string) : Prop :=
  all_bytes (fun c => negb (Ascii.eqb c lf)) s = true /\ utf8 s = true /\
  trim s = s /\ trim (s +:+ String lf "") = s /\ is_empty s = false.

Class EnclaveJsonLaws {json_error} (J : EnclaveJson json_error) : Prop := {
  request_roundtrip r s : request_to_json r = Ok s -> request_from_json s = Ok r /\ one_line s;
  response_roundtrip r s : response_to_json r = Ok s -> response_from_json s = Ok r /\ one_line s
}.

(** ** The child *)

Section Enclave.
Context {S : SerdeNumber} {io_error json_error : Type}.
Context {A : AuditChain.AuditEnv io_error json_error} {D : Display json_error}.
Context {L : Lowercase} {G : Signers} {W : WalletKeys} {K : Kdf} {J : EnclaveJson json_error}.

Definition load_child_key (w : KeyWorld) (req : EnclaveRequest) (vault : option string) (st : KeyState)
  : result string (bytes * Chain.ChainType) * KeyState :=
  let '(i, d) := st in
  match Chain.parse_chain (chain_id req) i with
  | (Err e, i) => (Err (coded E_PARAM ("invalid chain: " +:+ e)), (i, d))
  | (Ok chain, i) =>
      match credential_hex req with
      | Some cred_hex =>
          (let? raw := result_map_err (fun e => coded E_PARAM ("invalid credential hex: " +:+ e))
             (AuditChain.hex_decode (trim cred_hex)) in
           if (1024 <? len raw)%Z then Err (coded E_PARAM "credential oversized")
           else
             let? key := result_map_err (fun e => coded E_DECRYPT ("wallet decrypt failed: " +:+ e))
               (decrypt_signing_key d (wallet_id req) (Chain.chain_type chain) raw (Some (index req)) vault) in
             Ok (key, Chain.chain_type chain), (i, d))
      | None => load_chain_key_at w (wallet_id req) (chain_id req) vault (i, d)
      end
  end.

Definition decode_payload (req : EnclaveRequest) : result string bytes :=
  let text := default (payload_hex req) (strip_prefix "0x" (payload_hex req)) in
  let? bs := result_map_err (fun e => coded E_PARAM ("invalid payload hex: " +:+ e))
    (AuditChain.hex_decode (trim text)) in
  if (ENCLAVE_MAX_PAYLOAD_BYTES <? len bs)%Z then Err (coded E_PARAM "payload exceeds enclave limit")
  else if is_nil bs then Err (coded E_PARAM "empty payload")
  else Ok bs.

(** The bytes a [string] is made of. *)
Definition bytes_string (l : bytes) : string := bytes_str (map Z.to_N l).

(** The failure of a step is the response. *)
Definition or_fail {R : Type} (req : EnclaveRequest) (pid : Z) (r : result string R)
    (k : R -> EnclaveResponse) : EnclaveResponse :=
  match r with
  | Ok x => k x
  | Err e => response_fail (request_id req) pid e
  end.

Definition signing_failed {R : Type} : result string R -> result string R :=
  result_map_err (fun e => coded E_INTERNAL ("signing failed: " +:+ e)).

Definition sign_message_child (w : KeyWorld) (req : EnclaveRequest) (vault : option string) (pid : Z)
    (st : KeyState) : EnclaveResponse * KeyState :=
  match decode_payload req with
  | Err e => (response_fail (request_id req) pid e, st)
  | Ok message =>
      let '(r, st) := load_child_key w req vault st in
      (or_fail req pid r (fun '(key, ct) =>
       or_fail req pid (signing_failed (sign_message ct key (bytes_string message))) (fun output =>
       or_fail req pid (result_map_err (fun e => coded E_INTERNAL ("address derivation: " +:+ e))
                          (derive_address ct key)) (fun addr =>
       let pk := match public_key output with
                 | Some pk => Some pk
                 | None => derive_public_key (curve ct) key
                 end in
       {| resp_version := ENCLAVE_PROTOCOL_VERSION; resp_request_id := request_id req; resp_ok := true;
          signature_hex := Some (AuditChain.hex_encode (signature output)); signed_tx_hex := None;
          address := Some addr; public_key_hex := AuditChain.hex_encode <$> pk;
          resp_recovery_id := recovery_id output; resp_pid := pid; error := None |}))), st)
  end.

Definition sign_transaction_child (w : KeyWorld) (req : EnclaveRequest) (vault : option string) (pid : Z)
    (st : KeyState) : EnclaveResponse * KeyState :=
  match decode_payload req with
  | Err e => (response_fail (request_id req) pid e, st)
  | Ok tx_bytes =>
      let '(r, st) := load_child_key w req vault st in
      (or_fail req pid r (fun '(key, ct) =>
       or_fail req pid (result_map_err (fun e => coded E_PARAM ("extract signable failed: " +:+ e))
                          (extract_signable_bytes ct tx_bytes)) (fun signable =>
       or_fail req pid (signing_failed (sign_transaction ct key signable)) (fun output =>
       or_fail req pid (result_map_err (fun e => coded E_INTERNAL ("encode signed tx failed: " +:+ e))
                          (encode_signed_transaction ct tx_bytes output)) (fun signed_tx =>
       {| resp_version := ENCLAVE_PROTOCOL_VERSION; resp_request_id := request_id req; resp_ok := true;
          signature_hex := Some (AuditChain.hex_encode (signature output));
          signed_tx_hex := Some (AuditChain.hex_encode signed_tx);
          address := None; public_key_hex := None;
          resp_recovery_id := recovery_id output; resp_pid := pid; error := None |})))), st)
  end.

Definition sign_typed_data_child (w : KeyWorld) (req : EnclaveRequest) (vault : option string) (pid : Z)
    (st : KeyState) : EnclaveResponse * KeyState :=
  let fail e := response_fail (request_id req) pid (coded E_PARAM e) in
  if is_empty (extra_json req) then (fail "missing typed-data JSON", st)
  else if negb (is_json (extra_json req)) then (fail "invalid typed-data JSON", st)
  else
    let '(i, d) := st in
    match Chain.parse_chain (chain_id req) i with
    | (Err e, i) => (fail ("invalid chain: " +:+ e), (i, d))
    | (Ok chain, i) =>
        if negb (bool_decide (Chain.chain_type chain = Chain.Evm)) then
          (fail "typed-data signing is EVM-only", (i, d))
        else
          let '(r, st) := load_child_key w req vault (i, d) in
          (or_fail req pid r (fun '(key, ct) =>
           or_fail req pid (signing_failed (sign_typed_data key (extra_json req))) (fun output =>
           {| resp_version := ENCLAVE_PROTOCOL_VERSION; resp_request_id := request_id req; resp_ok := true;
              signature_hex := Some (AuditChain.hex_encode (signature output)); signed_tx_hex := None;
              address := None; public_key_hex := None;
              resp_recovery_id := recovery_id output; resp_pid := pid; error := None |})), st)
    end.

Definition public_key_child (w : KeyWorld) (req : EnclaveRequest) (vault : option string) (pid : Z)
    (st : KeyState) : EnclaveResponse * KeyState :=
  let '(r, st) := load_child_key w req vault st in
  (or_fail req pid r (fun '(key, ct) =>
   or_fail req pid (result_map_err (fun e => coded E_INTERNAL ("address derivation: " +:+ e))
                      (derive_address ct key)) (fun addr =>
   or_fail req pid (ok_or (coded E_INTERNAL "public key derivation failed")
                      (derive_public_key (curve ct) key)) (fun pk =>
   {| resp_version := ENCLAVE_PROTOCOL_VERSION; resp_request_id := request_id req; resp_ok := true;
      signature_hex := None; signed_tx_hex := None; address := Some addr;
      public_key_hex := Some (AuditChain.hex_encode pk);
      resp_recovery_id := None; resp_pid := pid; error := None |}))), st).

Definition handle_enclave_request_at (w : KeyWorld) (pid : Z) (req : EnclaveRequest)
    (vault : option string) (st : KeyState) : EnclaveResponse * KeyState :=
  match validate req with
  | Err e => (response_fail (request_id req) pid e, st)
  | Ok _ =>
      if String.eqb (op req) OP_PING then (response_ok (request_id req) pid, st)
      else
        let effective_vault := match vault with Some v => Some v | None => vault_dir req end in
        if in_strings [OP_SIGN_MESSAGE; OP_SIGN_AUTH] (op req) then
          sign_message_child w req effective_vault pid st
        else if in_strings [OP_SIGN_TRANSACTION; OP_SIGN_USER_OP] (op req) then
          sign_transaction_child w req effective_vault pid st
        else if String.eqb (op req) OP_SIGN_TYPED_DATA then
          sign_typed_data_child w req effective_vault pid st
        else if String.eqb (op req) OP_PUBLIC_KEY then public_key_child w req effective_vault pid st
        else (response_fail (request_id req) pid ("unknown enclave op: " +:+ op req), st)
  end.

Definition handle_enclave_request (w : KeyWorld) (pid : Z) (req : EnclaveRequest) (st : KeyState)
  : EnclaveResponse * KeyState := handle_enclave_request_at w pid req None st.

(** What the child process meets besides its input. *)
Record ChildWorld := {
  child_keys : @KeyWorld io_error json_error;
  hardening : result string unit;
  sandbox : result string unit;
  stdin_err : option string;
  stdout_err : option (nat * string);
  flush_err : option string
}.

(** [BufRead::read_line] on the whole input [s]. *)
Definition read_line (s : string) : result string string :=
  let line := match split_once (String lf "") s with
              | Some (l, _) => l +:+ String lf ""
              | None => s
              end in
  if utf8 line then Ok line else Err "stream did not contain valid UTF-8".

(** The result decides the exit status; what has reached stdout comes with it. *)
Definition run_enclave_child (w : ChildWorld) (pid : Z) (stdin : string) (d : FS)
  : result string unit * string * FS :=
  match hardening w, sandbox w with
  | Err e, _ => (Err ("enclave hardening: " +:+ e), "", d)
  | _, Err e => (Err ("enclave sandbox: " +:+ e), "", d)
  | Ok _, Ok _ =>
      match (match stdin_err w with Some e => Err e | None => read_line stdin end) with
      | Err e => (Err ("enclave stdin: " +:+ e), "", d)
      | Ok line =>
          if is_empty (trim line) then (Err "enclave request: empty input", "", d)
          else if (ENCLAVE_MAX_PAYLOAD_BYTES * 2 + ENCLAVE_MAX_EXTRA_JSON_BYTES + 4096 <? str_len line)%Z then
            (Err "enclave request: input oversized", "", d)
          else
            match request_from_json (trim line) with
            | Err e => (Err ("enclave request JSON: " +:+ show_json e), "", d)
            | Ok req =>
                let '(resp, (_, d)) := handle_enclave_request (child_keys w) pid req (Held ∅, d) in
                match response_to_json resp with
                | Err e => (Err ("enclave response JSON: " +:+ show_json e), "", d)
                | Ok out =>
                    let text := out +:+ String lf "" in
                    match stdout_err w, flush_err w with
                    | Some (n, e), _ => (Err ("enclave stdout: " +:+ e), String.substring 0 n text, d)
                    | None, Some e => (Err ("enclave flush: " +:+ e), text, d)
                    | None, None => (Ok tt, text, d)
                    end
                end
            end
      end
  end.

(** ** The parent *)

Record ExitStatus := { success : bool; show_status : string }.

(** What a spawned process does, as the parent can see it: the successive polls and
    the time in milliseconds at each, the same while it is reaped, and its exit
    status and complete output when it is collected. *)
Record Child := {
  try_wait : nat -> result string bool;
  elapsed_ms : nat -> Z;
  reap_try_wait : nat -> result string bool;
  reap_elapsed_ms : nat -> Z;
  output : result string (ExitStatus * string)
}.

(** Up to two seconds after the kill; [None] is fuel exhaustion. *)
Fixpoint reap_loop (fuel i : nat) (c : Child) : option (result string unit) :=
  match fuel with
  | O => None
  | Datatypes.S fuel' =>
      match reap_try_wait c i with
      | Ok true => Some (Ok tt)
      | Ok false => if (2000 <? reap_elapsed_ms c i)%Z then Some (Ok tt)
                    else reap_loop fuel' (Datatypes.S i) c
      | Err e => Some (Err ("enclave reap: " +:+ e))
      end
  end.

Fixpoint wait_loop (fuel i : nat) (c : Child) (timeout : Z) : option (result string (ExitStatus * string)) :=
  match fuel with
  | O => None
  | Datatypes.S fuel' =>
      match try_wait c i with
      | Err e => Some (Err ("enclave wait: " +:+ e))
      | Ok true => Some (result_map_err (fun e => "enclave output: " +:+ e) (output c))
      | Ok false =>
          if (timeout * 1000 <? elapsed_ms c i)%Z then
            match reap_loop 202 0 c with
            | None => None
            | Some (Err e) => Some (Err e)
            | Some (Ok _) => Some (Err ("enclave timeout after " +:+ fmt_Z timeout +:+ "s"))
            end
          else wait_loop fuel' (Datatypes.S i) c timeout
      end
  end.

(** One poll every 10 ms: [100 * timeout + 2] polls are enough. *)
Definition wait_with_timeout (c : Child) (timeout : Z) : option (result string (ExitStatus * string)) :=
  wait_loop (Z.to_nat (100 * timeout + 2)) 0 c timeout.

(** The operating system: a spawned process has a pid, and what it does depends on
    what is written to its stdin and on the disk, which it changes. *)
Definition Spawn : Type :=
  string -> list (string * string) -> result string (Z * (string -> FS -> Child * FS)).

(** The checks of a child's answer. *)
Definition check_answer (req : EnclaveRequest) (pid : Z) (status : ExitStatus) (stdout : string)
  : result EnclaveError EnclaveResponse :=
  let err m := Err (error_new (Some pid) m) in
  if negb (success status) then err ("enclave child exited with " +:+ show_status status)
  else if negb (utf8 stdout) then err ("enclave stdout UTF8: " +:+ show_from_utf8 stdout)
  else
    match response_from_json (trim stdout) with
    | Err e => err ("enclave response JSON: " +:+ show_json e)
    | Ok resp =>
        if negb (resp_version resp =? ENCLAVE_PROTOCOL_VERSION)%Z then
          err ("enclave version mismatch: got " +:+ fmt_Z (resp_version resp) +:+ ", want " +:+
               fmt_Z ENCLAVE_PROTOCOL_VERSION)
        else if negb (String.eqb (resp_request_id resp) (request_id req)) then
          err "enclave request_id mismatch"
        else if resp_ok resp then Ok resp
        else err (default "enclave failed" (error resp))
    end.

(** [None] is fuel exhaustion of the polling loop. *)
Definition spawn_enclave_child (spawn : Spawn) (exe : string) (env : Environment)
    (req : EnclaveRequest) (timeout : Z) (d : FS)
  : option (result EnclaveError EnclaveResponse) * FS :=
  match validate req with
  | Err e => (Some (Err (error_new None ("enclave request invalid: " +:+ e))), d)
  | Ok _ =>
      match spawn exe (child_env env) with
      | Err e => (Some (Err (error_new None ("enclave spawn: " +:+ e))), d)
      | Ok (pid, run) =>
          match request_to_json req with
          | Err e => (Some (Err (error_new (Some pid) ("enclave request JSON: " +:+ show_json e))), (run "" d).2)
          | Ok input =>
              let '(child, d) := run (input +:+ String lf "") d in
              (match wait_with_timeout child timeout with
               | None => None
               | Some (Err e) => Some (Err (error_new (Some pid) e))
               | Some (Ok (status, stdout)) => Some (check_answer req pid status stdout)
               end, d)
          end
      end
  end.

(** ** Polling ends *)

(** Each turn of a loop sleeps 10 ms before the next poll. *)
Definition paced (c : Child) : Prop :=
  forall i, (10 * Z.of_nat i <= elapsed_ms c i /\ 10 * Z.of_nat i <= reap_elapsed_ms c i)%Z.

Lemma reap_loop_total fuel i c :
  paced c -> (2000 < 10 * (Z.of_nat i + Z.of_nat fuel - 1))%Z -> (0 < fuel)%nat -> reap_loop fuel i c <> None.
Proof.
  intros Hp. revert i. induction fuel as [|fuel IH]; intros i Ht Hf; [lia|]. cbn [reap_loop].
  destruct (reap_try_wait c i) as [[|]|e]; try done.
  destruct (Hp i) as [_ Hi]. destruct (Z.ltb_spec 2000 (reap_elapsed_ms c i)); [done|]. apply IH; lia.
Qed.

Lemma poll_loop_total fuel i c timeout :
  paced c -> (timeout * 1000 < 10 * (Z.of_nat i + Z.of_nat fuel - 1))%Z -> (0 < fuel)%nat ->
  wait_loop fuel i c timeout <> None.
Proof.
  intros Hp. revert i. induction fuel as [|fuel IH]; intros i Ht Hf; [lia|]. cbn [wait_loop].
  destruct (try_wait c i) as [[|]|e]; try done.
  destruct (Hp i) as [Hi _]. destruct (Z.ltb_spec (timeout * 1000) (elapsed_ms c i)); [|apply IH; lia].
  pose proof (reap_loop_total 202 0 c Hp) as Hr. destruct (reap_loop 202 0 c) as [[]|]; try done.
  exfalso. apply Hr; [lia..|done].
Qed.

Lemma wait_child_total c timeout : paced c -> (0 <= timeout)%Z -> wait_with_timeout c timeout <> None.
Proof. intros Hp Ht. apply poll_loop_total; [done|lia..]. Qed.

(** The parent always gets an answer, whatever the child does. *)
Lemma spawn_enclave_child_total (spawn : Spawn) exe env req timeout d :
  (forall pid run, spawn exe (child_env env) = Ok (pid, run) -> forall s d', paced (run s d').1) ->
  (0 <= timeout)%Z -> (spawn_enclave_child spawn exe env req timeout d).1 <> None.
Proof.
  intros Hp Ht. unfold spawn_enclave_child. destruct (validate req); [|done].
  destruct (spawn exe (child_env env)) as [[pid run]|] eqn:Hs; [|done].
  destruct (request_to_json req) as [input|]; [|done].
  pose proof (Hp pid run eq_refl (input +:+ String lf "") d) as Hc.
  destruct (run (input +:+ String lf "") d) as [c d']. cbn [fst] in *.
  pose proof (wait_child_total c timeout Hc Ht). by destruct (wait_with_timeout c timeout) as [[[]|]|].
Qed.

(** ** The child answers its request *)

(** The response carries the request's id and the protocol version. *)
Definition answers (req : EnclaveRequest) (pid : Z) (resp : EnclaveResponse) : Prop :=
  resp_version resp = ENCLAVE_PROTOCOL_VERSION /\ resp_request_id resp = request_id req /\ resp_pid resp = pid.

Lemma or_fail_answers {R} req pid (r : result string R) k :
  (forall x, answers req pid (k x)) -> answers req pid (or_fail req pid r k).
Proof. intros H. destruct r; [apply H|by split_and!]. Qed.

Lemma handle_request_answers w pid req vault st :
  answers req pid (handle_enclave_request_at w pid req vault st).1.
Proof.
  unfold handle_enclave_request_at, sign_message_child, sign_transaction_child, sign_typed_data_child,
    public_key_child.
  repeat first
    [ by split_and!
    | apply or_fail_answers; intros
    | match goal with |- context [match ?x with _ => _ end] => destruct x end; cbn [fst] ].
Qed.

(** ** Parent and child together *)

(** An answer the parent accepts says it succeeded, in the parent's version, for
    the request, from a process that exited successfully in time. *)
Lemma check_answer_ok req pid status out resp :
  check_answer req pid status out = Ok resp <->
  success status = true /\ utf8 out = true /\ response_from_json (trim out) = Ok resp /\
  resp_version resp = ENCLAVE_PROTOCOL_VERSION /\ resp_request_id resp = request_id req /\
  resp_ok resp = true.
Proof.
  unfold check_answer. destruct (success status); cbn [negb]; [|naive_solver].
  destruct (utf8 out); cbn [negb]; [|naive_solver].
  destruct (response_from_json (trim out)) as [r|e]; [|naive_solver].
  destruct (Z.eqb_spec (resp_version r) ENCLAVE_PROTOCOL_VERSION) as [Hv|Hv]; cbn [negb]; [|naive_solver].
  destruct (String.eqb_spec (resp_request_id r) (request_id req)); cbn [negb]; [|naive_solver].
  destruct (resp_ok r) eqn:Hok.
  - split; [by intros [= <-]|]. by intros (_ & _ & [= <-] & _).
  - split; [done|]. intros (_ & _ & [= <-] & _ & _ & H). congruence.
Qed.

(** The parent takes an answer exactly when the request is valid, the child was
    spawned and fed it, exited successfully within the timeout, and printed a
    response in UTF-8 JSON with the parent's version, the request's id and [ok]. *)
Theorem spawn_enclave_child_ok (spawn : Spawn) exe env req timeout d resp :
  (spawn_enclave_child spawn exe env req timeout d).1 = Some (Ok resp) <->
  validate req = Ok tt /\
  exists pid run input status out,
    spawn exe (child_env env) = Ok (pid, run) /\ request_to_json req = Ok input /\
    wait_with_timeout (run (input +:+ String lf "") d).1 timeout = Some (Ok (status, out)) /\
    success status = true /\ utf8 out = true /\ response_from_json (trim out) = Ok resp /\
    resp_version resp = ENCLAVE_PROTOCOL_VERSION /\ resp_request_id resp = request_id req /\
    resp_ok resp = true.
Proof.
  unfold spawn_enclave_child. destruct (validate req) as [[]|]; [|naive_solver].
  destruct (spawn exe (child_env env)) as [[pid run]|]; [|naive_solver].
  destruct (request_to_json req) as [input|]; [|naive_solver].
  destruct (run (input +:+ String lf "") d) as [c d'] eqn:Hr; cbn [fst].
  destruct (wait_with_timeout c timeout) as [[[status out]|e]|] eqn:Hw.
  - split.
    + intros [= H]. apply check_answer_ok in H. split; [done|]. exists pid, run, input, status, out.
      rewrite Hr. done.
    + intros (_ & pid' & run' & input' & status' & out' & [= <- <-] & [= <-] & Hw' & H).
      rewrite Hr in Hw'. cbn [fst] in Hw'. rewrite Hw in Hw'. injection Hw' as <- <-.
      f_equal. by apply check_answer_ok.
  - split; [done|]. intros (_ & pid' & run' & input' & status' & out' & [= <- <-] & [= <-] & Hw' & _).
    rewrite Hr in Hw'. cbn [fst] in Hw'. congruence.
  - split; [done|]. intros (_ & pid' & run' & input' & status' & out' & [= <- <-] & [= <-] & Hw' & _).
    rewrite Hr in Hw'. cbn [fst] in Hw'. congruence.
Qed.

(** A process that runs [run_enclave_child], is ready to exit after [finish]
    milliseconds, and whose stdout is a pipe of [cap] bytes that nobody reads
    before it exits: with more to write, it never does. *)
Definition child_process (cap finish : Z) (w : ChildWorld) (pid : Z) (stdin : string) (d : FS)
  : Child * FS :=
  let '(r, out, d) := run_enclave_child w pid stdin d in
  ({| try_wait i := Ok ((finish <=? 10 * Z.of_nat i)%Z && (str_len out <=? cap)%Z);
      elapsed_ms i := (10 * Z.of_nat i)%Z;
      reap_try_wait _ := Ok true;
      reap_elapsed_ms i := (10 * Z.of_nat i)%Z;
      output := Ok ({| success := is_ok r; show_status := "exit status: 1" |}, out) |}, d).

(** Nothing but the request decides how the child ends. *)
Definition undisturbed (w : ChildWorld) : Prop :=
  hardening w = Ok tt /\ sandbox w = Ok tt /\ stdin_err w = None /\ stdout_err w = None /\ flush_err w = None.

Lemma first_line s : all_bytes (fun c => negb (Ascii.eqb c lf)) s = true ->
  split_once (String lf "") (s +:+ String lf "") = Some (s, "").
Proof.
  induction s as [|c s IH]; [done|]. cbn [all_bytes String.append split_once strip_prefix].
  intros [Hc Hs]%andb_prop. rewrite Ascii.eqb_sym. destruct (Ascii.eqb c lf); [done|]. by rewrite IH.
Qed.

Lemma read_line_line s : all_bytes (fun c => negb (Ascii.eqb c lf)) s = true -> utf8 s = true ->
  read_line (s +:+ String lf "") = Ok (s +:+ String lf "").
Proof. intros Hl Hu. unfold read_line. rewrite first_line by done. by rewrite utf8_app. Qed.

(** The polls before the child is done are within the timeout. *)
Lemma wait_loop_done fuel i k c timeout :
  (k < fuel)%nat -> try_wait c (i + k) = Ok true ->
  (forall j, (j < k)%nat -> try_wait c (i + j) = Ok false /\ (elapsed_ms c (i + j) <= timeout * 1000)%Z) ->
  wait_loop fuel i c timeout = Some (result_map_err (fun e => "enclave output: " +:+ e) (output c)).
Proof.
  revert i k. induction fuel as [|fuel IH]; intros i k Hk Hd Hb; [lia|]. cbn [wait_loop].
  destruct k as [|k]; [by rewrite Nat.add_0_r in Hd; rewrite Hd|].
  destruct (Hb 0%nat ltac:(lia)) as [H0 H1]. rewrite Nat.add_0_r in H0, H1. rewrite H0.
  rewrite (proj2 (Z.ltb_ge _ _)) by lia. apply (IH _ k); [lia|by rewrite Nat.add_succ_comm|].
  intros j Hj. rewrite Nat.add_succ_comm. apply Hb. lia.
Qed.

Lemma wait_loop_never fuel i c timeout :
  (forall j, try_wait c j = Ok false) -> (forall j, reap_try_wait c j = Ok true) ->
  (forall j, elapsed_ms c j = (10 * Z.of_nat j)%Z) ->
  (timeout * 1000 < 10 * (Z.of_nat i + Z.of_nat fuel - 1))%Z -> (0 < fuel)%nat ->
  wait_loop fuel i c timeout = Some (Err ("enclave timeout after " +:+ fmt_Z timeout +:+ "s")).
Proof.
  intros Hw Hr He. revert i. induction fuel as [|fuel IH]; intros i Ht Hf; [lia|]. cbn [wait_loop].
  rewrite Hw. destruct (Z.ltb_spec (timeout * 1000) (elapsed_ms c i)) as [Hi|Hi].
  - cbn [reap_loop]. by rewrite Hr.
  - rewrite He in Hi. apply IH; lia.
Qed.

(** What the child prints for a request. *)
Lemma run_enclave_child_prints {JL : EnclaveJsonLaws J} w pid req input d out resp i d' :
  handle_enclave_request (child_keys w) pid req (Held ∅, d) = (resp, (i, d')) ->
  undisturbed w -> request_to_json req = Ok input -> response_to_json resp = Ok out ->
  (str_len input < ENCLAVE_MAX_PAYLOAD_BYTES * 2 + ENCLAVE_MAX_EXTRA_JSON_BYTES + 4096)%Z ->
  run_enclave_child w pid (input +:+ String lf "") d = (Ok tt, out +:+ String lf "", d').
Proof.
  intros Hh (Hhd & Hsb & Hin & Hout & Hfl) Hreq Hresp Hlen. unfold run_enclave_child.
  destruct (request_roundtrip req input Hreq) as [Hrt (Hl & Hu & Ht & Ht1 & He)].
  rewrite Hhd, Hsb, Hin, read_line_line by done. rewrite Ht1, He.
  rewrite (proj2 (Z.ltb_ge _ _)) by (unfold str_len in *; rewrite length_app_str; cbn [String.length]; lia).
  rewrite Hrt, Hh, Hresp, Hout, Hfl. done.
Qed.

(** C27 Parent and child compose: a child that is not disturbed, is done within the
    timeout and whose response fits its pipe gives the parent exactly the response of
    the request handler, or the handler's error with the child's pid; and the disk is
    as the handler leaves it. *)
Theorem enclave_answers {JL : EnclaveJsonLaws J} (spawn : Spawn) exe env req timeout d pid cap finish w input out resp i d' :
  handle_enclave_request (child_keys w) pid req (Held ∅, d) = (resp, (i, d')) ->
  validate req = Ok tt -> undisturbed w ->
  spawn exe (child_env env) = Ok (pid, child_process cap finish w pid) ->
  request_to_json req = Ok input -> response_to_json resp = Ok out ->
  (str_len input < ENCLAVE_MAX_PAYLOAD_BYTES * 2 + ENCLAVE_MAX_EXTRA_JSON_BYTES + 4096)%Z ->
  (str_len out < cap)%Z -> (0 <= finish <= timeout * 1000)%Z ->
  spawn_enclave_child spawn exe env req timeout d =
    (Some (if resp_ok resp then Ok resp
           else Err (error_new (Some pid) (default "enclave failed" (error resp)))), d').
Proof.
  intros Hh Hv Hw Hs Hreq Hresp Hlen Hcap Hfin.
  pose proof (run_enclave_child_prints w pid req input d out resp i d' Hh) as Hrun.
  pose proof (handle_request_answers (child_keys w) pid req None (Held ∅, d)) as Hans.
  unfold handle_enclave_request in Hh. rewrite Hh in Hans. unfold spawn_enclave_child. rewrite Hv, Hs, Hreq.
  unfold child_process. rewrite Hrun by done. cbn [is_ok].
  set (c := {| try_wait := _ |}).
  destruct (response_roundtrip resp out Hresp) as [Hrt (Hl & Hu & _ & Ht & _)].
  assert (Hwait : wait_with_timeout c timeout =
    Some (Ok ({| success := true; show_status := "exit status: 1" |}, out +:+ String lf ""))).
  { assert (Hc : forall j, try_wait c j = Ok (finish <=? 10 * Z.of_nat j)%Z).
    { intros j. cbn. rewrite (proj2 (Z.leb_le (str_len _) _)), andb_true_r; [done|].
      unfold str_len in *. rewrite length_app_str. cbn [String.length]. lia. }
    apply (wait_loop_done _ 0 (Z.to_nat ((finish + 9) / 10))).
    - pose proof (Z.div_mod (finish + 9) 10). pose proof (Z.mod_pos_bound (finish + 9) 10). lia.
    - rewrite Hc. do 2 f_equal. apply Z.leb_le. cbn [Nat.add].
      rewrite Z2Nat.id by (apply Z.div_pos; lia).
      pose proof (Z.div_mod (finish + 9) 10). pose proof (Z.mod_pos_bound (finish + 9) 10). lia.
    - intros j Hj. rewrite Hc. cbn [Nat.add elapsed_ms c].
      assert (10 * Z.of_nat j < finish)%Z.
      { pose proof (Z.div_mod (finish + 9) 10). pose proof (Z.mod_pos_bound (finish + 9) 10). lia. }
      split; [do 2 f_equal; apply Z.leb_gt; lia|lia]. }
  rewrite Hwait. unfold check_answer. cbn [success negb]. rewrite utf8_app by done. cbn [negb].
  cbn [fst] in Hans. rewrite Ht, Hrt. destruct Hans as (-> & -> & _). rewrite Z.eqb_refl, String.eqb_refl. done.
Qed.

(** A response larger than the pipe never reaches the parent, which reads
    nothing before the child has exited: the child is killed at the timeout. *)
Theorem large_response_times_out {JL : EnclaveJsonLaws J} (spawn : Spawn) exe env req timeout d pid cap finish w input out resp i d' :
  handle_enclave_request (child_keys w) pid req (Held ∅, d) = (resp, (i, d')) ->
  validate req = Ok tt -> undisturbed w ->
  spawn exe (child_env env) = Ok (pid, child_process cap finish w pid) ->
  request_to_json req = Ok input -> response_to_json resp = Ok out ->
  (str_len input < ENCLAVE_MAX_PAYLOAD_BYTES * 2 + ENCLAVE_MAX_EXTRA_JSON_BYTES + 4096)%Z ->
  (cap <= str_len out)%Z -> (0 <= timeout)%Z ->
  spawn_enclave_child spawn exe env req timeout d =
    (Some (Err (error_new (Some pid) ("enclave timeout after " +:+ fmt_Z timeout +:+ "s"))), d').
Proof.
  intros Hh Hv Hw Hs Hreq Hresp Hlen Hcap Hto.
  pose proof (run_enclave_child_prints w pid req input d out resp i d' Hh) as Hrun.
  unfold spawn_enclave_child. rewrite Hv, Hs, Hreq.
  unfold child_process. rewrite Hrun by done. unfold wait_with_timeout.
  rewrite wait_loop_never; [done| |done|done|lia|lia].
  intros j. cbn [try_wait]. rewrite (proj2 (Z.leb_gt (str_len _) _)), andb_false_r; [done|].
  unfold str_len in *. rewrite length_app_str. cbn [String.length]. lia.
Qed.

(** ** What the child is given *)

(** No variable that carries an owner secret is inherited. *)
Lemma child_env_allowed env name value :
  (name, value) ∈ child_env env -> name ∈ CHILD_ENV_ALLOWLIST /\ env !! name = Some value.
Proof.
  unfold child_env. rewrite list_elem_of_omap. intros (x & Hx & Hv).
  destruct (env !! x) as [v|] eqn:He; [|done]. by injection Hv as <- <-.
Qed.

Lemma allowlist_no_secrets : Forall (fun n => n ∉ CHILD_ENV_SCRUB) CHILD_ENV_ALLOWLIST.
Proof. apply (bool_decide_unpack _). vm_compute. exact I. Qed.

Lemma child_env_no_secrets env : Forall (fun e => e.1 ∉ CHILD_ENV_SCRUB) (child_env env).
Proof.
  apply Forall_forall. intros [n v] [Hn _]%child_env_allowed.
  exact (proj1 (Forall_forall _ _) allowlist_no_secrets n Hn).
Qed.

Lemma scrubbed env n : n ∈ CHILD_ENV_SCRUB -> scrub_child_env env !! n = None.
Proof.
  unfold scrub_child_env. induction CHILD_ENV_SCRUB as [|x l IH]; [by intros ?%not_elem_of_nil|].
  cbn [foldr]. intros [->|Hn]%elem_of_cons; [apply lookup_delete_eq|].
  destruct (decide (n = x)) as [->|Hne]; [apply lookup_delete_eq|]. rewrite lookup_delete_ne by done. auto.
Qed.

(** The child touches no durable file but the device key's. *)
Lemma load_child_key_frame w req vault st : only_key w st.2 (load_child_key w req vault st).2.2.
Proof.
  destruct st as [i d]. unfold load_child_key. destruct (Chain.parse_chain _ _) as [[c|] i1]; [|done].
  destruct (credential_hex req); [done|]. apply (load_chain_key_frame w _ _ _ (i1, d)).
Qed.

Lemma handle_request_frame w pid req vault st :
  only_key w st.2 (handle_enclave_request_at w pid req vault st).2.2.
Proof.
  unfold handle_enclave_request_at. destruct (validate req); [|done]. destruct (String.eqb _ _); [done|].
  set (v := match vault with Some v => Some v | None => vault_dir req end). clearbody v.
  pose proof (load_child_key_frame w req v st) as Hl.
  repeat match goal with |- context [if ?b then _ else _] => destruct b end; [..|done].
  - unfold sign_message_child. destruct (decode_payload req); [|done]. by destruct (load_child_key _ _ _ _).
  - unfold sign_transaction_child. destruct (decode_payload req); [|done]. by destruct (load_child_key _ _ _ _).
  - unfold sign_typed_data_child. destruct (is_empty _); [done|]. destruct (negb (is_json _)); [done|].
    destruct st as [i d]. destruct (Chain.parse_chain _ _) as [[c|] i1]; [|done].
    destruct (negb _); [done|]. pose proof (load_child_key_frame w req v (i1, d)) as Hl1.
    by destruct (load_child_key w req v (i1, d)).
  - unfold public_key_child. by destruct (load_child_key _ _ _ _).
Qed.

Lemma child_process_frame cap finish w pid stdin d :
  only_key (child_keys w) d (child_process cap finish w pid stdin d).2.
Proof.
  unfold child_process, run_enclave_child.
  destruct (hardening w); [|done]. destruct (sandbox w); [|done].
  destruct (match stdin_err w with Some _ => _ | None => _ end) as [line|]; [|done].
  destruct (is_empty (trim line)); [done|]. destruct (_ <? _)%Z; [done|].
  destruct (request_from_json (trim line)) as [req|]; [|done].
  pose proof (handle_request_frame (child_keys w) pid req None (Held ∅, d)) as Hf.
  unfold handle_enclave_request. destruct (handle_enclave_request_at _ _ _ _ _) as [resp [i d']].
  destruct (response_to_json resp); [|done]. by destruct (stdout_err w) as [[]|], (flush_err w).
Qed.
End Enclave.

(** ** Concrete runs *)

Definition describe_request (r : EnclaveRequest) :=
  (oc_version r, (request_id r, (op r, (wallet_id r, (chain_id r, (payload_hex r, (extra_json r,
    (index r, (credential_hex r, vault_dir r))))))))).

Definition build_request x : EnclaveRequest :=
  let '(v, (id, (o, (wal, (ch, (p, (e, (n, (c, d))))))))) := x in
  {| oc_version := v; request_id := id; op := o; wallet_id := wal; chain_id := ch; payload_hex := p;
     extra_json := e; index := n; credential_hex := c; vault_dir := d |}.

Definition describe_response (r : EnclaveResponse) :=
  (resp_version r, (resp_request_id r, (resp_ok r, (signature_hex r, (signed_tx_hex r, (address r,
    (public_key_hex r, (resp_recovery_id r, (resp_pid r, error r))))))))).

Definition build_response x : EnclaveResponse :=
  let '(v, (id, (k, (sg, (tx, (ad, (pk, (rc, (pid, er))))))))) := x in
  {| resp_version := v; resp_request_id := id; resp_ok := k; signature_hex := sg; signed_tx_hex := tx;
     address := ad; public_key_hex := pk; resp_recovery_id := rc; resp_pid := pid; error := er |}.

#[export] Instance demo_enclave_json : EnclaveJson unit := {|
  request_to_json r := Ok (to_text (describe_request r));
  request_from_json s := ok_or tt (build_request <$> of_text s);
  response_to_json r := Ok (to_text (describe_response r));
  response_from_json s := ok_or tt (build_response <$> of_text s);
  is_json s := negb (is_empty s)
|}.

Lemma to_text_one_line {X} `{Countable X} (x : X) : one_line (to_text x).
Proof.
  destruct (to_text_line x) as (Hl & _ & Hu & _). pose proof (to_text_bits x) as Hb.
  split_and!; [done|done|by apply trim_bits|by apply trim_bits_lf|done].
Defined.

#[export] Instance demo_enclave_json_laws : EnclaveJsonLaws demo_enclave_json.
Proof.
  split; intros r s [= <-]; (split; [|apply to_text_one_line]);
    cbn [request_from_json response_from_json demo_enclave_json]; rewrite of_to_text; by destruct r.
Defined.

Abbreviation DemoChildWorld := (@ChildWorld string unit).

Definition demo_child_world : DemoChildWorld := {|
  child_keys := demo_key_world; hardening := Ok tt; sandbox := Ok tt;
  stdin_err := None; stdout_err := None; flush_err := None
|}.

Definition demo_spawn (cap finish : Z) : Spawn := fun _ _ =>
  Ok (7%Z, child_process (A := AuditChain.demo_audit_env) (L := Chain.demo_lowercase)
        cap finish demo_child_world 7).

Definition demo_enclave_request : EnclaveRequest :=
  sign_request "1-2-3" OP_SIGN_TRANSACTION "w" "eip155:1" "0xc0" None.

Definition demo_run (cap finish : Z) :=
  spawn_enclave_child (demo_spawn cap finish) "onecipher" ∅
    demo_enclave_request 30 ∅.

Definition demo_handled := handle_enclave_request (A := AuditChain.demo_audit_env)
  (L := Chain.demo_lowercase) demo_key_world 7 demo_enclave_request (Held ∅, ∅).

(** A transaction signed in 1.2 s through a pipe of 64 KiB. *)
Lemma enclave_answers_witness :
  demo_run 65536 1200 = (Some (Ok demo_handled.1), demo_handled.2.2).
Proof.
  refine (enclave_answers (A := AuditChain.demo_audit_env) (L := Chain.demo_lowercase) (demo_spawn 65536 1200) "onecipher" ∅ demo_enclave_request 30 ∅ 7 65536 1200
    demo_child_world _ _ demo_handled.1 demo_handled.2.1 demo_handled.2.2
    _ _ _ _ eq_refl eq_refl _ _ _).
  - unfold demo_handled. cbn [child_keys demo_child_world].
    by destruct (handle_enclave_request _ _ _ _) as [? []].
  - runs.
  - done.
  - done.
  - vm_compute. reflexivity.
  - vm_compute. reflexivity.
  - done.
Defined.

(** The same through a pipe of 16 bytes. *)
Lemma large_response_times_out_witness :
  demo_run 16 1200 = (Some (Err (error_new (Some 7%Z) "enclave timeout after 30s")), demo_handled.2.2).
Proof.
  refine (large_response_times_out (A := AuditChain.demo_audit_env) (L := Chain.demo_lowercase) (demo_spawn 16 1200) "onecipher" ∅ demo_enclave_request 30 ∅ 7 16 1200
    demo_child_world _ _ demo_handled.1 demo_handled.2.1 demo_handled.2.2
    _ _ _ _ eq_refl eq_refl _ _ _).
  - unfold demo_handled. cbn [child_keys demo_child_world].
    by destruct (handle_enclave_request _ _ _ _) as [? []].
  - runs.
  - done.
  - done.
  - vm_compute. reflexivity.
  - vm_compute. discriminate.
  - done.
Defined.
