(* ===== verification/Hd.v ===== *)
(** * Key derivation

    crates/oc-signer: mnemonic.rs, the derivation kernel of hd.rs with the cached
    variant over the process-wide [KeyCache], the curve and the default path of each
    chain's signer (chains/), and the derivation styles of crates/oc-core/src/derivation.rs.
    BIP-39, BIP-32 for secp256k1 and HMAC-SHA512 are the class [HdCrypto]; whether a
    buffer can be locked in memory is its [lock_fails]. *)

From Stdlib Require Import ZArith Lia Bool String Ascii.
From stdpp Require Import base list strings gmap.
From S2P Require Import Prelude Str Decimal Bytes Names DemoText Passkey ChainKey.
From S2P Require Chain KeyCache.

Local Open Scope oc_scope.

(** ** Errors *)

Inductive MnemonicError :=
| GenerationFailed (message : string)
| InvalidPhrase (message : string)
| SeedDerivationFailed (message : string)
| MlockFailed (message : string).

Definition show_mnemonic_error (e : MnemonicError) : string :=
  match e with
  | GenerationFailed m => "mnemonic generation failed: " +:+ m
  | InvalidPhrase m => "invalid mnemonic phrase: " +:+ m
  | SeedDerivationFailed m => "seed derivation failed: " +:+ m
  | MlockFailed m => "mlock failed: " +:+ m
  end.

Inductive HdError :=
| InvalidPath (message : string)
| DerivationFailed (message : string)
| Ed25519NonHardened
| InvalidSeedLength (n : Z)
| IndexOverflow (start count : Z)
| InvalidRange (start end_ : Z).

(** [From<MemGuardError>] and [From<MnemonicError>]. *)
Definition of_mem_guard (e : string) : HdError := DerivationFailed ("memory hardening failed: " +:+ e).
Definition of_mnemonic_error (e : MnemonicError) : HdError := DerivationFailed (show_mnemonic_error e).

(** ** What is called *)

(** coins-bip39, coins-bip32, HMAC-SHA512, SHA-256 in lower-case hexadecimal, and the
    locking of a buffer, with the error when it fails. *)
Class HdCrypto := {
  Mnemonic : Type;
  from_entropy : bytes -> Mnemonic;
  new_from_phrase : string -> result string Mnemonic;
  to_phrase : Mnemonic -> string;
  bip39_seed : Mnemonic -> option string -> result string bytes;
  bip32_derive : bytes -> string -> result HdError bytes;
  hmac_sha512 : bytes -> bytes -> bytes;
  sha256_hex : string -> string;
  lock_fails : bytes -> option string
}.

(** A phrase reads back as its mnemonic and is UTF-8 text of words and spaces; the code of
    a message has 64 bytes. *)
Class HdLaws (H : HdCrypto) : Prop := {
  phrase_roundtrip m : new_from_phrase (to_phrase m) = Ok m;
  phrase_words m : contains_byte ":" (to_phrase m) = false;
  phrase_utf8 m : utf8 (to_phrase m) = true;
  hmac_length k msg : is_bytes (hmac_sha512 k msg) /\ length (hmac_sha512 k msg) = 64%nat
}.

(** ** The chains *)

(** [curve] of the signer of a chain; the placeholder of a chain that is not compiled in
    has the curve of the real one. *)
Definition chain_curve (ct : Chain.ChainType) : Curve :=
  match ct with
  | Chain.Evm | Chain.Bitcoin | Chain.Cosmos | Chain.Tron | Chain.Spark | Chain.Filecoin | Chain.Xrpl => Secp256k1
  | Chain.Solana | Chain.Ton | Chain.Sui | Chain.Nano | Chain.Near => Ed25519Curve
  end.

(** [default_derivation_path] of each chain's signer, for the default configuration. *)
Definition evm_path (index : Z) : string := "m/44'/60'/0'/0/" +:+ fmt_Z index.
Definition solana_path (index : Z) : string := "m/44'/501'/" +:+ fmt_Z index +:+ "'/0'".
Definition bitcoin_path (index : Z) : string := "m/84'/0'/0'/0/" +:+ fmt_Z index.
Definition cosmos_path (index : Z) : string := "m/44'/118'/0'/0/" +:+ fmt_Z index.
Definition tron_path (index : Z) : string := "m/44'/195'/0'/0/" +:+ fmt_Z index.
Definition ton_path (index : Z) : string := "m/44'/607'/" +:+ fmt_Z index +:+ "'".
Definition spark_path (index : Z) : string := "m/84'/0'/0'/0/" +:+ fmt_Z index.
Definition filecoin_path (index : Z) : string := "m/44'/461'/0'/0/" +:+ fmt_Z index.
Definition sui_path (index : Z) : string := "m/44'/784'/" +:+ fmt_Z index +:+ "'/0'/0'".
Definition xrpl_path (index : Z) : string := "m/44'/144'/0'/0/" +:+ fmt_Z index.
Definition nano_path (index : Z) : string := "m/44'/165'/" +:+ fmt_Z index +:+ "'".
Definition near_path (index : Z) : string := "m/44'/397'/" +:+ fmt_Z index +:+ "'".

Definition default_derivation_path (ct : Chain.ChainType) (index : Z) : string :=
  match ct with
  | Chain.Evm => evm_path index
  | Chain.Solana => solana_path index
  | Chain.Bitcoin => bitcoin_path index
  | Chain.Cosmos => cosmos_path index
  | Chain.Tron => tron_path index
  | Chain.Ton => ton_path index
  | Chain.Spark => spark_path index
  | Chain.Filecoin => filecoin_path index
  | Chain.Sui => sui_path index
  | Chain.Xrpl => xrpl_path index
  | Chain.Nano => nano_path index
  | Chain.Near => near_path index
  end.

(** ** Paths *)

(** The suffix of a hardened component. *)
Definition unhardened (component : string) : option string :=
  match strip_suffix "'" component with
  | Some s => Some s
  | None => match strip_suffix "h" component with
            | Some s => Some s
            | None => strip_suffix "H" component
            end
  end.

Fixpoint first_error {A E} (f : A -> option E) (l : list A) : result E unit :=
  match l with
  | [] => Ok tt
  | x :: l' => match f x with Some e => Err e | None => first_error f l' end
  end.

Definition component_fault (path component : string) : option HdError :=
  let index_str := default component (unhardened component) in
  if is_empty index_str then Some (InvalidPath ("empty component in path '" +:+ path +:+ "'"))
  else match parse_unsigned u32_max index_str with
       | None => Some (InvalidPath ("invalid index '" +:+ component +:+ "' in path '" +:+ path +:+ "'"))
       | Some _ => None
       end.

(** [path[2..].split('/')] of a path that starts with [m/]. *)
Definition components (path : string) : list string :=
  match strip_prefix "m/" path with Some rest => split_char "/" rest | None => [] end.

Definition validate_path (path : string) : result HdError unit :=
  if negb (starts_with "m/" path) && negb (String.eqb path "m") then
    Err (InvalidPath ("path must start with 'm/', got '" +:+ path +:+ "'"))
  else if String.eqb path "m" then Ok tt
  else first_error (component_fault path) (components path).

(** [2^31]. *)
Definition HARDENED_OFFSET : Z := 0x80000000.

Definition parse_slip10_index (component full_path : string) : result HdError Z :=
  match unhardened component with
  | None =>
      Err (InvalidPath ("non-hardened index '" +:+ component +:+ "' in ed25519 path '" +:+ full_path +:+
        "': ed25519 requires hardened derivation; add " +:+ String Names.quote "'" +:+ String Names.quote
        " suffix, e.g. " +:+ String Names.quote component +:+ "'" +:+ String Names.quote ""))
  | Some index_str =>
      if is_empty index_str then Err (InvalidPath ("empty index in ed25519 path '" +:+ full_path +:+ "'"))
      else
        let? index := ok_or (InvalidPath ("invalid index '" +:+ component +:+ "' in path '" +:+ full_path +:+ "'"))
                        (parse_unsigned u32_max index_str) in
        if (HARDENED_OFFSET <=? index)%Z then
          Err (InvalidPath ("hardened index '" +:+ component +:+ "' in path '" +:+ full_path +:+
            "' must be < 2^31; add " +:+ String Names.quote "'" +:+ String Names.quote
            " to an index below 2147483648 instead"))
        else Ok index
  end.

(** ** Derivation *)

(** The cache of derived keys. *)
Abbreviation Keys := (@KeyCache.KeyCache bytes).

Section Derive.
Context {H : HdCrypto}.

(** [SecretBytes::from_vec]. *)
Definition locked {E} (of_guard : string -> E) (b : bytes) : result E bytes :=
  match lock_fails b with None => Ok b | Some e => Err (of_guard e) end.

Definition phrase_of (m : Mnemonic) : result MnemonicError bytes := locked MlockFailed (str_bytes (to_phrase m)).

Definition from_phrase (phrase : string) : result MnemonicError Mnemonic :=
  result_map_err InvalidPhrase (new_from_phrase phrase).

Definition to_seed_sealed (m : Mnemonic) (passphrase : string) : result MnemonicError bytes :=
  let pass := if is_empty passphrase then None else Some passphrase in
  let? seed := result_map_err SeedDerivationFailed (bip39_seed m pass) in
  locked MlockFailed seed.

Fixpoint collect {A B E} (f : A -> result E B) (l : list A) : result E (list B) :=
  match l with
  | [] => Ok []
  | x :: l' => let? y := f x in let? ys := collect f l' in Ok (y :: ys)
  end.

(** One hardened child: the key and the chain code. *)
Definition slip10_child (node : bytes * bytes) (index : Z) : bytes * bytes :=
  let '(key, chain_code) := node in
  let derived := hmac_sha512 chain_code ([0%Z] ++ key ++ to_be_bytes 4 (Z.lor index HARDENED_OFFSET)) in
  (take 32 derived, drop 32 derived).

Definition slip10_master (seed : bytes) : bytes * bytes :=
  let r := hmac_sha512 (str_bytes "ed25519 seed") seed in (take 32 r, drop 32 r).

Definition derive_ed25519 (seed : bytes) (path : string) : result HdError bytes :=
  let? indices := if String.eqb path "m" then Ok []
                  else collect (fun c => parse_slip10_index c path) (components path) in
  locked of_mem_guard (fold_left slip10_child indices (slip10_master seed)).1.

Definition derive_secp256k1 (seed : bytes) (path : string) : result HdError bytes :=
  let? key := bip32_derive seed path in
  locked of_mem_guard key.

Definition derive_inner (seed : bytes) (path : string) (curve : Curve) : result HdError bytes :=
  if (len seed <? 16)%Z || (64 <? len seed)%Z then Err (InvalidSeedLength (len seed))
  else
    let? _ := validate_path path in
    match curve with
    | Secp256k1 => derive_secp256k1 seed path
    | Ed25519Curve => derive_ed25519 seed path
    end.

Definition derive_from_mnemonic (m : Mnemonic) (passphrase path : string) (curve : Curve) : result HdError bytes :=
  let? seed := result_map_err of_mnemonic_error (to_seed_sealed m passphrase) in
  derive_inner seed path curve.

(** [n] more keys from [index] on; [left] counts the turns after this one. *)
Fixpoint derive_loop (m : Mnemonic) (passphrase : string) (curve : Curve) (make_path : Z -> string)
    (start count index : Z) (n : nat) : result HdError (list bytes) :=
  match n with
  | O => Ok []
  | S n' =>
      let? key := derive_from_mnemonic m passphrase (make_path index) curve in
      match n' with
      | O => Ok [key]
      | S _ =>
          if (index + 1 <=? u32_max)%Z then
            let? keys := derive_loop m passphrase curve make_path start count (index + 1) n' in
            Ok (key :: keys)
          else Err (IndexOverflow start count)
      end
  end.

Definition derive_many (m : Mnemonic) (passphrase : string) (curve : Curve) (make_path : Z -> string)
    (start count : Z) : result HdError (list bytes) :=
  derive_loop m passphrase curve make_path start count start (Z.to_nat count).

Definition derive_range (m : Mnemonic) (passphrase : string) (curve : Curve) (make_path : Z -> string)
    (start end_exclusive : Z) : result HdError (list bytes) :=
  if (end_exclusive <=? start)%Z then Err (InvalidRange start end_exclusive)
  else derive_many m passphrase curve make_path start (end_exclusive - start).

(** ** The cached derivation *)

Definition curve_label (c : Curve) : string :=
  match c with Secp256k1 => "secp256k1" | Ed25519Curve => "ed25519" end.

(** What is hashed into the key of the cache. *)
Definition cache_text (phrase passphrase path : string) (curve : Curve) : string :=
  phrase +:+ ":" +:+ passphrase +:+ ":" +:+ path +:+ ":" +:+ curve_label curve.

Definition cache_key (m : Mnemonic) (passphrase path : string) (curve : Curve) : string :=
  sha256_hex (cache_text (to_phrase m) passphrase path curve).

(** The clock as the four calls inside the cache read it. *)
Record CacheClock := { get_now : Z; get_now' : Z; insert_now : Z; insert_now' : Z }.

Definition derive_from_mnemonic_cached (clock : CacheClock) (m : Mnemonic) (passphrase path : string)
    (curve : Curve) (c : Keys) : result HdError bytes * Keys :=
  match phrase_of m with
  | Err e => (Err (of_mnemonic_error e), c)
  | Ok _ =>
      let id := cache_key m passphrase path curve in
      match KeyCache.get id (get_now clock) (get_now' clock) c with
      | (Some cached, c) => (Ok cached, c)
      | (None, c) =>
          match derive_from_mnemonic m passphrase path curve with
          | Err e => (Err e, c)
          | Ok key => (Ok key, KeyCache.insert id key (insert_now clock) (insert_now' clock) c)
          end
      end
  end.
End Derive.

(** ** Default paths

    The components of a default path as numbers, the hardened ones marked. *)

Definition default_indices (ct : Chain.ChainType) (i : Z) : list (Z * bool) :=
  match ct with
  | Chain.Evm => [(44, true); (60, true); (0, true); (0, false); (i, false)]
  | Chain.Solana => [(44, true); (501, true); (i, true); (0, true)]
  | Chain.Bitcoin | Chain.Spark => [(84, true); (0, true); (0, true); (0, false); (i, false)]
  | Chain.Cosmos => [(44, true); (118, true); (0, true); (0, false); (i, false)]
  | Chain.Tron => [(44, true); (195, true); (0, true); (0, false); (i, false)]
  | Chain.Ton => [(44, true); (607, true); (i, true)]
  | Chain.Filecoin => [(44, true); (461, true); (0, true); (0, false); (i, false)]
  | Chain.Sui => [(44, true); (784, true); (i, true); (0, true); (0, true)]
  | Chain.Xrpl => [(44, true); (144, true); (0, true); (0, false); (i, false)]
  | Chain.Nano => [(44, true); (165, true); (i, true)]
  | Chain.Near => [(44, true); (397, true); (i, true)]
  end%Z.

Definition render_index (x : Z * bool) : string := fmt_Z x.1 +:+ (if x.2 then "'" else "").

Lemma default_path_render ct i :
  default_derivation_path ct i = "m/" +:+ join_char "/" (map render_index (default_indices ct i)).
Proof. destruct ct; unfold default_indices, render_index; cbn [map join_char fst snd]; rewrite ?app_nil_r_str, <- ?app_assoc_str; reflexivity. Qed.

Lemma render_index_lacks x : (0 <= x.1)%Z -> contains_byte "/" (render_index x) = false.
Proof.
  intros (_ & Hd & _)%fmt_Z_spec. unfold render_index. rewrite contains_byte_app, (digits_lack "/" (fmt_Z x.1)) by done.
  by destruct x.2.
Qed.

Lemma default_indices_range ct i : (0 <= i <= u32_max)%Z ->
  Forall (fun x => 0 <= x.1 <= u32_max)%Z (default_indices ct i).
Proof. intros Hi. destruct ct; repeat apply Forall_cons_2; cbn; try constructor; unfold u32_max in *; lia. Qed.

Lemma default_path_components ct i : (0 <= i)%Z ->
  components (default_derivation_path ct i) = map render_index (default_indices ct i).
Proof.
  intros Hi. unfold components. rewrite default_path_render, strip_prefix_app. apply split_join_char; [by destruct ct|].
  apply Forall_map. destruct ct; repeat apply Forall_cons_2; try constructor; apply render_index_lacks; cbn; lia.
Qed.

(** The last byte of a rendered number tells whether it is hardened. *)
Lemma digits_not_hardened s : all_bytes is_ascii_digit s = true -> unhardened s = None.
Proof.
  intros Hs. unfold unhardened.
  assert (Hn : forall c, is_ascii_digit c = false -> strip_suffix (String c "") s = None).
  { intros c Hc. destruct (strip_suffix _ s) as [r|] eqn:E; [|done]. exfalso. apply strip_suffix_some in E as ->.
    rewrite all_bytes_app in Hs. apply andb_true_iff in Hs as [_ Hs]. cbn in Hs. by rewrite Hc in Hs. }
  by rewrite !Hn.
Qed.

Lemma unhardened_render x : (0 <= x.1)%Z ->
  unhardened (render_index x) = if x.2 then Some (fmt_Z x.1) else None.
Proof.
  intros (_ & Hd & _)%fmt_Z_spec. unfold render_index. destruct x.2.
  - unfold unhardened. by rewrite strip_suffix_app.
  - rewrite app_nil_r_str. by apply digits_not_hardened.
Qed.

Lemma render_index_ok path x : (0 <= x.1 <= u32_max)%Z -> component_fault path (render_index x) = None.
Proof.
  intros Hx. unfold component_fault. rewrite unhardened_render by lia.
  assert (He : default (render_index x) (if x.2 then Some (fmt_Z x.1) else None) = fmt_Z x.1).
  { unfold render_index. destruct x.2; cbn; [done|apply app_nil_r_str]. }
  rewrite He. destruct (fmt_Z_spec x.1) as (Hne & _); [lia|]. apply is_empty_false in Hne as ->.
  by rewrite parse_fmt_Z.
Qed.

Lemma slip10_render path x : (0 <= x.1 <= u32_max)%Z -> x.2 = true ->
  if (HARDENED_OFFSET <=? x.1)%Z then exists m, parse_slip10_index (render_index x) path = Err (InvalidPath m)
  else parse_slip10_index (render_index x) path = Ok x.1.
Proof.
  intros Hx Hh. unfold parse_slip10_index. rewrite unhardened_render, Hh by lia.
  destruct (fmt_Z_spec x.1) as (Hne & _); [lia|]. apply is_empty_false in Hne as ->. rewrite parse_fmt_Z by done.
  cbn [ok_or result_bind]. destruct (HARDENED_OFFSET <=? x.1)%Z; [by eexists|done].
Qed.

Lemma collect_map_ok {A B C E} (f : B -> result E C) (g : A -> B) (h : A -> C) (l : list A) :
  Forall (fun x => f (g x) = Ok (h x)) l -> collect f (map g l) = Ok (map h l).
Proof. induction 1 as [|x l Hx _ IH]; [done|]. cbn. rewrite Hx. cbn. by rewrite IH. Qed.

Lemma collect_map_err {A B C E} (P : E -> Prop) (f : B -> result E C) (g : A -> B) (l : list A) :
  Forall (fun x => is_ok (f (g x)) = true \/ exists e, f (g x) = Err e /\ P e) l ->
  Exists (fun x => is_ok (f (g x)) = false) l -> exists e, collect f (map g l) = Err e /\ P e.
Proof.
  induction 1 as [|x l Hx Hl IH]; intros He; [by apply Exists_nil in He|]. cbn.
  destruct Hx as [Hx|(e & Hx & HP)]; [|rewrite Hx; cbn; by exists e].
  apply Exists_cons in He as [He|He]; [congruence|]. destruct (f (g x)) as [y|]; [|done]. cbn.
  destruct (IH He) as (e & -> & HP). cbn. by exists e.
Qed.

Lemma first_error_none {A E} (f : A -> option E) (l : list A) : Forall (fun x => f x = None) l -> first_error f l = Ok tt.
Proof. induction 1 as [|x l Hx _ IH]; [done|]. cbn. by rewrite Hx. Qed.

Section Paths.
Context {H : HdCrypto}.

Lemma default_path_valid ct i : (0 <= i <= u32_max)%Z -> validate_path (default_derivation_path ct i) = Ok tt.
Proof.
  intros Hi. unfold validate_path.
  assert (Hs : starts_with "m/" (default_derivation_path ct i) = true)
    by (unfold starts_with; by rewrite default_path_render, strip_prefix_app).
  assert (Hm : String.eqb (default_derivation_path ct i) "m" = false)
    by (apply String.eqb_neq; rewrite default_path_render; discriminate).
  rewrite Hs, Hm, default_path_components by lia. apply first_error_none, Forall_map.
  eapply Forall_impl; [by apply default_indices_range|]. intros x. apply render_index_ok.
Qed.

(** The node at the end of a hardened path. *)
Definition slip10_node (seed : bytes) (indices : list Z) : bytes * bytes :=
  fold_left slip10_child indices (slip10_master seed).

(** C33 The default path of every chain is a valid path at every 32-bit account index.  On
    the ed25519 chains it derives the node of its components below 2^31, and from there
    on it is refused as an invalid path: no index is reduced into another account's. *)
Theorem default_path_derives ct i seed :
  (0 <= i <= u32_max)%Z ->
  validate_path (default_derivation_path ct i) = Ok tt /\
  (chain_curve ct = Ed25519Curve -> (16 <= len seed <= 64)%Z ->
   if (i <? HARDENED_OFFSET)%Z then
     derive_inner seed (default_derivation_path ct i) Ed25519Curve =
       locked of_mem_guard (slip10_node seed (map fst (default_indices ct i))).1
   else exists m, derive_inner seed (default_derivation_path ct i) Ed25519Curve = Err (InvalidPath m)).
Proof.
  intros Hi. split; [by apply default_path_valid|]. intros Hc Hs. unfold derive_inner, derive_ed25519.
  rewrite default_path_valid by done. cbn [result_bind].
  replace ((len seed <? 16)%Z || (64 <? len seed)%Z) with false by (symmetry; apply orb_false_iff; lia).
  assert (Hm : String.eqb (default_derivation_path ct i) "m" = false)
    by (apply String.eqb_neq; rewrite default_path_render; discriminate).
  rewrite Hm, default_path_components by lia. set (path := default_derivation_path ct i).
  assert (Hall : Forall (fun x => (0 <= x.1 <= u32_max)%Z /\ x.2 = true) (default_indices ct i)).
  { destruct ct; try done; repeat apply Forall_cons_2; cbn; try constructor; unfold u32_max in *; split; done || lia. }
  destruct (Z.ltb_spec i HARDENED_OFFSET) as [Hlt|Hge].
  - rewrite (collect_map_ok _ render_index fst); [done|].
    assert (Hsm : Forall (fun x => (x.1 < HARDENED_OFFSET)%Z) (default_indices ct i)).
    { destruct ct; repeat apply Forall_cons_2; cbn; try constructor; unfold HARDENED_OFFSET in *; lia. }
    eapply Forall_impl; [exact (proj2 (Forall_and _ _) (conj Hall Hsm))|]. cbn. intros x [[Hx Hh] Hl].
    pose proof (slip10_render path x Hx Hh) as Hr. by rewrite (proj2 (Z.leb_gt _ _) Hl) in Hr.
  - destruct (collect_map_err (fun e => exists m, e = InvalidPath m) (fun c => parse_slip10_index c path) render_index
      (default_indices ct i)) as (e & -> & m & ->); [| |by exists m].
    + eapply Forall_impl; [exact Hall|]. cbn. intros x [Hx Hh]. pose proof (slip10_render path x Hx Hh) as Hr.
      destruct (HARDENED_OFFSET <=? x.1)%Z; [right; destruct Hr as [m ->]; eauto|left; by rewrite Hr].
    + apply Exists_exists. exists (i, true). split; [destruct ct; try done; cbn; set_solver|].
      pose proof (slip10_render path (i, true) Hi eq_refl) as Hr. cbn [fst] in Hr.
      rewrite (proj2 (Z.leb_le _ _) Hge) in Hr. by destruct Hr as [m ->].
Qed.
End Paths.

(** ** Batches *)

Section Batch.
Context {H : HdCrypto}.

Lemma derive_loop_ok m pp curve mp start count n index :
  (index + Z.of_nat n <= u32_max + 1)%Z ->
  derive_loop m pp curve mp start count index n =
    collect (fun i => derive_from_mnemonic m pp (mp i) curve) (seqZ index (Z.of_nat n)).
Proof.
  revert index. induction n as [|n IH]; intros index Hn; [done|].
  rewrite seqZ_cons by lia. replace (Z.pred (Z.of_nat (S n))) with (Z.of_nat n) by lia.
  replace (Z.succ index) with (index + 1)%Z by lia.
  cbn [derive_loop collect]. destruct (derive_from_mnemonic _ _ _ _) as [key|]; [|done]. cbn [result_bind].
  destruct n as [|n]; [done|]. rewrite (proj2 (Z.leb_le _ _)) by lia. by rewrite IH by lia.
Qed.

Lemma derive_loop_overflow m pp curve mp start count n index :
  (index <= u32_max)%Z -> (u32_max + 1 < index + Z.of_nat n)%Z ->
  derive_loop m pp curve mp start count index n =
    let? _ := collect (fun i => derive_from_mnemonic m pp (mp i) curve) (seqZ index (u32_max + 1 - index)) in
    Err (IndexOverflow start count).
Proof.
  revert index. induction n as [|n IH]; intros index Hi Hn; [unfold u32_max in *; lia|].
  rewrite seqZ_cons by lia. replace (Z.succ index) with (index + 1)%Z by lia.
  cbn [derive_loop collect]. destruct (derive_from_mnemonic _ _ _ _) as [key|]; [|done]. cbn [result_bind].
  destruct n as [|n]; [lia|]. destruct (Z.leb_spec (index + 1) u32_max) as [Hle|Hgt].
  - rewrite IH by lia. replace (u32_max + 1 - (index + 1))%Z with (Z.pred (u32_max + 1 - index)) by lia.
    by destruct (collect _ _).
  - by replace (Z.pred (u32_max + 1 - index)) with 0%Z by lia.
Qed.

(** C34 A batch of derivations is the sequence of the single ones for [count] indices from
    [start] on; a batch that would run past the last 32-bit index ends there with the
    overflow error, unless a derivation failed before, and never wraps around.  A batch
    may end exactly at the last index: there [start + count] is [u32_max + 1], for which the
    comments of the error and of the method announce the overflow error. *)
Theorem derive_many_spec m pp curve mp start count :
  (0 <= start <= u32_max)%Z -> (0 <= count)%Z ->
  let singles n := collect (fun i => derive_from_mnemonic m pp (mp i) curve) (seqZ start n) in
  derive_many m pp curve mp start count =
    if (start + count <=? u32_max + 1)%Z then singles count
    else let? _ := singles (u32_max + 1 - start)%Z in Err (IndexOverflow start count).
Proof.
  intros Hs Hc singles. unfold derive_many, singles. destruct (Z.leb_spec (start + count) (u32_max + 1)).
  - rewrite derive_loop_ok by lia. by rewrite Z2Nat.id.
  - by rewrite derive_loop_overflow by lia.
Qed.
End Batch.

(** ** The cache does not change what is derived *)

Section Cached.
Context {H : HdCrypto} {HL : HdLaws H}.

Abbreviation held c := (KeyCache.entries (KeyCache.inner c)).

Lemma removed_entries id (i : @KeyCache.Inner bytes) : KeyCache.entries (KeyCache.remove id i) ⊆ KeyCache.entries i.
Proof. unfold KeyCache.remove. destruct (_ !! id); [apply delete_subseteq|done]. Qed.

Lemma evicted_entries now ttl (i : @KeyCache.Inner bytes) :
  KeyCache.entries (KeyCache.inner_evict_expired now ttl i) ⊆ KeyCache.entries i.
Proof.
  unfold KeyCache.inner_evict_expired. set (l := (map_to_list _).*1). clearbody l. induction l as [|id l IH]; [done|]. cbn [foldr]. etrans; [apply removed_entries|done].
Qed.

(** What the cache holds after a lookup was there before, and what is found was there. *)
Lemma get_holds id now now' (c : Keys) :
  (forall v, (KeyCache.get id now now' c).1 = Some v -> exists e, held c !! id = Some e /\ KeyCache.entry_key e = v) /\
  forall j e, held (KeyCache.get id now now' c).2 !! j = Some e ->
    exists e', held c !! j = Some e' /\ KeyCache.entry_key e' = KeyCache.entry_key e.
Proof.
  unfold KeyCache.get. destruct (held c !! id) as [x|] eqn:Hx; [|split; [done|eauto]].
  destruct (_ <? _)%Z.
  - split; [done|]. cbn. intros j e He. exists e. split; [|done].
    exact (lookup_weaken _ _ _ _ He (removed_entries id _)).
  - split; [intros v [= <-]; eauto|]. cbn. intros j e. rewrite lookup_insert_Some.
    intros [[<- <-]|[_ He]]; eauto.
Qed.

Lemma insert_holds id key now now' (c : Keys) j e :
  held (KeyCache.insert id key now now' c) !! j = Some e ->
  j = id /\ KeyCache.entry_key e = key \/ held c !! j = Some e.
Proof.
  unfold KeyCache.insert. cbn. set (i := KeyCache.remove id _). set (k := if (KeyCache.max_entries c <=? _)%nat then _ else _).
  rewrite lookup_insert_Some. intros [[<- <-]|[_ He]]; [by left|right].
  assert (Hk : KeyCache.entries k ⊆ held c).
  { assert (Hi : KeyCache.entries i ⊆ held c) by (etrans; [apply removed_entries|apply evicted_entries]).
    subst k. destruct (_ <=? _)%nat; [|done]. destruct (KeyCache.recency i) as [|[? lru] ?]; [done|].
    etrans; [apply removed_entries|done]. }
  exact (lookup_weaken _ _ _ _ He Hk).
Qed.

Definition plain (s : string) : Prop := contains_byte ":" s = false.

(** Every entry is a key derived for inputs that its id was computed from. *)
Definition sound (c : Keys) : Prop :=
  forall id e, held c !! id = Some e ->
    exists m pp path curve, plain pp /\ plain path /\ id = cache_key m pp path curve /\
      derive_from_mnemonic m pp path curve = Ok (KeyCache.entry_key e).

(** What the inputs find in the cache is the key of other inputs, whose text has the same
    SHA-256: a collision of the text at hand with one that this very cache has seen. *)
Definition confused (c : Keys) m pp path curve : Prop :=
  exists e m' pp' path' curve', held c !! cache_key m pp path curve = Some e /\
    derive_from_mnemonic m' pp' path' curve' = Ok (KeyCache.entry_key e) /\
    cache_text (to_phrase m') pp' path' curve' <> cache_text (to_phrase m) pp path curve /\
    cache_key m' pp' path' curve' = cache_key m pp path curve.

Lemma cache_text_join p pp path curve : cache_text p pp path curve = join_char ":" [p; pp; path; curve_label curve].
Proof. done. Qed.

(** Texts without colons in their parts determine the parts. *)
Lemma cache_text_inj p pp path c p' pp' path' c' :
  plain p -> plain pp -> plain path -> plain p' -> plain pp' -> plain path' ->
  cache_text p pp path c = cache_text p' pp' path' c' -> p = p' /\ pp = pp' /\ path = path' /\ c = c'.
Proof.
  intros ?????? Heq. rewrite !cache_text_join in Heq.
  assert (Hs : forall a b d (k : Curve), plain a -> plain b -> plain d ->
    split_char ":" (join_char ":" [a; b; d; curve_label k]) = [a; b; d; curve_label k]).
  { intros a b d k ???. apply split_join_char; [done|]. repeat apply Forall_cons_2; try done. by destruct k. }
  apply (f_equal (split_char ":")) in Heq. rewrite !Hs in Heq by done.
  injection Heq as -> -> -> Hc. split_and!; [done..|]. by destruct c, c'.
Qed.

Lemma to_phrase_inj m m' : to_phrase m = to_phrase m' -> m = m'.
Proof. intros Hp. pose proof (phrase_roundtrip m) as Hm. rewrite Hp, phrase_roundtrip in Hm. congruence. Qed.

(** With colon-free inputs, as in every call of the wallet, the cached derivation gives
    the answer of the direct one and keeps every entry of the cache a key derived for
    the inputs behind its id, unless the cache holds the key of other inputs with the same
    SHA-256. *)
Theorem cached_same clock m pp path curve c :
  sound c -> plain pp -> plain path -> lock_fails (str_bytes (to_phrase m)) = None ->
  sound (derive_from_mnemonic_cached clock m pp path curve c).2 /\
  ((derive_from_mnemonic_cached clock m pp path curve c).1 = derive_from_mnemonic m pp path curve \/ confused c m pp path curve).
Proof.
  intros Hs Hpp Hpath Hl. unfold derive_from_mnemonic_cached, phrase_of, locked. rewrite Hl.
  set (id := cache_key m pp path curve).
  destruct (get_holds id (get_now clock) (get_now' clock) c) as [Hfound Hkept].
  destruct (KeyCache.get _ _ _ _) as [[v|] c1] eqn:Hg; cbn [fst snd] in *.
  - split; [intros j e (e' & He' & <-)%Hkept; by apply Hs|].
    destruct (Hfound v eq_refl) as (e & He & <-). destruct (Hs id e He) as (m' & pp' & path' & curve' & Hp1 & Hp2 & Hid & Hd).
    destruct (decide (cache_text (to_phrase m) pp path curve = cache_text (to_phrase m') pp' path' curve')) as [Ht|Ht].
    + apply cache_text_inj in Ht as (Hm & -> & -> & ->); try done; [|apply phrase_words..].
      apply to_phrase_inj in Hm as ->. by left.
    + right. exists e, m', pp', path', curve'. split_and!; [done..|congruence|done].
  - destruct (derive_from_mnemonic m pp path curve) as [key|e] eqn:Hd; cbn [fst snd].
    + split; [|by left]. intros j e [[-> <-]|He]%insert_holds; [by exists m, pp, path, curve|].
      apply Hkept in He as (e' & He' & <-). by apply Hs.
    + split; [|by left]. intros j x (e' & He' & <-)%Hkept. by apply Hs.
Qed.

Lemma empty_sound ttl cap : sound (KeyCache.new ttl cap).
Proof. intros id e He. cbn in He. by rewrite lookup_empty in He. Qed.
End Cached.

(** ** Concrete runs *)

(** Mnemonics whose phrase is their binary code; stand-ins for the hashes. *)
#[export] Instance demo_hd : HdCrypto := {|
  Mnemonic := positive;
  from_entropy b := Pos.of_nat (S (Z.to_nat (be_value b)));
  new_from_phrase s := ok_or "unknown word" (unbits s);
  to_phrase := bits;
  bip39_seed m _ := Ok (to_be_bytes 64 (Z.pos m));
  bip32_derive seed path := Ok (to_be_bytes 32 (be_value seed + Z.pos (countable.encode path)));
  hmac_sha512 k msg := to_be_bytes 64 (be_value k + 7 * be_value msg);
  sha256_hex s := s;
  lock_fails _ := None
|}.

#[export] Instance demo_hd_laws : HdLaws demo_hd.
Proof.
  split.
  - intros m. cbn. by rewrite unbits_bits.
  - intros m. cbn. induction m as [m IH|m IH|]; cbn [bits]; [by rewrite contains_byte_cons, IH..|done].
  - intros m. cbn. by induction m.
  - intros k msg. cbn [hmac_sha512 demo_hd]. split; [apply to_be_bytes_bytes|by rewrite to_be_bytes_length].
Qed.

Lemma default_path_derives_witness :
  (exists k, derive_inner (repeat 1%Z 32) (default_derivation_path Chain.Solana 7) Ed25519Curve = Ok k) /\
  exists m, derive_inner (repeat 1%Z 32) (default_derivation_path Chain.Solana 2147483648) Ed25519Curve = Err (InvalidPath m).
Proof.
  assert (Hs : (16 <= len (repeat 1 32) <= 64)%Z) by (vm_compute; by split).
  split.
  - destruct (default_path_derives Chain.Solana 7 (repeat 1%Z 32)) as [_ H]; [unfold u32_max; lia|].
    specialize (H eq_refl Hs). eexists. exact H.
  - destruct (default_path_derives Chain.Solana 2147483648 (repeat 1%Z 32)) as [_ H]; [unfold u32_max; lia|].
    exact (H eq_refl Hs).
Defined.

Lemma derive_many_spec_witness :
  derive_many (H := demo_hd) 5%positive "" Secp256k1 (default_derivation_path Chain.Evm) 4294967295 2 =
    Err (IndexOverflow 4294967295 2).
Proof.
  rewrite (derive_many_spec (H := demo_hd) 5%positive "" Secp256k1 (default_derivation_path Chain.Evm) 4294967295 2);
    [vm_compute; reflexivity|unfold u32_max; lia|lia].
Defined.

(** A batch that ends at the last index succeeds. *)
Lemma batch_to_last_index :
  exists keys, derive_many (H := demo_hd) 5%positive "" Secp256k1 (default_derivation_path Chain.Evm) 4294967294 2 = Ok keys /\
    length keys = 2%nat.
Proof. eexists. by split; vm_compute. Qed.

Definition demo_clock : CacheClock := {| get_now := 1; get_now' := 2; insert_now := 3; insert_now' := 4 |}.

(** The cache after one derivation, in which a second one is found. *)
Definition demo_keys (pp path : string) : Keys :=
  (derive_from_mnemonic_cached (H := demo_hd) demo_clock 5%positive pp path Ed25519Curve KeyCache.default_cache).2.

Lemma cached_same_witness :
  (derive_from_mnemonic_cached (H := demo_hd) demo_clock 5%positive "" "m/44'/501'/0'/0'" Ed25519Curve
     (demo_keys "" "m/44'/501'/0'/0'")).1 = derive_from_mnemonic (H := demo_hd) 5%positive "" "m/44'/501'/0'/0'" Ed25519Curve.
Proof.
  assert (Hs : sound (demo_keys "" "m/44'/501'/0'/0'")).
  { apply (cached_same (H := demo_hd) demo_clock 5%positive "" "m/44'/501'/0'/0'" Ed25519Curve); [apply empty_sound|done..]. }
  destruct (cached_same (H := demo_hd) demo_clock 5%positive "" "m/44'/501'/0'/0'" Ed25519Curve (demo_keys "" "m/44'/501'/0'/0'"))
    as [_ [H|(s & t & Hne & H)]]; [exact Hs|reflexivity..|exact H|]. by destruct Hne.
Defined.

(** With a colon in the passphrase the parts run together, whatever the hash: a path that
    validation refuses is answered with the key of another one. *)
Lemma cache_key_ambiguous {H : HdCrypto} m curve :
  cache_key m "a:m/0'" "m/1'" curve = cache_key m "a" "m/0':m/1'" curve.
Proof. done. Qed.

Lemma refused_path_answered :
  is_ok (derive_from_mnemonic_cached (H := demo_hd) demo_clock 5%positive "a" "m/0':m/1'" Ed25519Curve (demo_keys "a:m/0'" "m/1'")).1 = true /\
  is_ok (derive_from_mnemonic (H := demo_hd) 5%positive "a" "m/0':m/1'" Ed25519Curve) = false.
Proof. split; vm_compute; reflexivity. Qed.
