(* ===== verification/Derivation.v ===== *)
(** * Derivation styles

    crates/oc-core/src/derivation.rs: the layouts of derivation paths that EVM, Solana,
    TON and Bitcoin wallets use, with their names, aliases and templates.  The trait is
    the class [DerivationStyle]. *)

From Stdlib Require Import ZArith Lia Bool String Ascii.
From stdpp Require Import base list strings.
From S2P Require Import Prelude Str Decimal Names Hd.
From S2P Require Chain.

Local Open Scope oc_scope.

Record ParseDerivationStyleError := {
  chain : string;
  input : string;
  accepted_tokens : list string
}.

Fixpoint joined (sep : string) (l : list string) : string :=
  match l with
  | [] => ""
  | [x] => x
  | x :: l' => x +:+ sep +:+ joined sep l'
  end.

Definition show_style_error (e : ParseDerivationStyleError) : string :=
  "unknown derivation style '" +:+ input e +:+ "' for chain '" +:+ chain e +:+ "'; accepted: " +:+
  joined ", " (accepted_tokens e).

(** [style_of] is the match of [from_str] on the normalized token; [all_styles] lists the
    constructors. *)
Class DerivationStyle (A : Type) := {
  style_chain : string;
  accepted : list string;
  derivation_template : A -> string;
  style_label : A -> string;
  style_of : string -> option A;
  all_styles : list A
}.

Definition normalize {L : Lowercase} (s : string) : string := to_lowercase (trim s).

Definition from_str {L : Lowercase} (A : Type) {D : DerivationStyle A} (s : string)
  : result ParseDerivationStyleError A :=
  ok_or {| chain := style_chain (A := A); input := trim s; accepted_tokens := accepted (A := A) |}
        (style_of (normalize s)).

Definition derivation_path {A : Type} {D : DerivationStyle A} (style : A) (index : Z) : string :=
  replace_from 0 "{index}" (fmt_Z index) (derivation_template style).

Definition among (l : list string) (s : string) : bool := existsb (String.eqb s) l.

(** ** EVM *)

Inductive EvmDerivationStyle := EvmBip44 | LedgerLive.

Definition EVM_ACCEPTED : list string := ["bip44"; "ledger-live"].

#[export] Instance evm_style : DerivationStyle EvmDerivationStyle := {|
  style_chain := "evm";
  accepted := EVM_ACCEPTED;
  derivation_template s := match s with
    | EvmBip44 => "m/44'/60'/0'/0/{index}"
    | LedgerLive => "m/44'/60'/{index}'/0/0"
    end;
  style_label s := match s with EvmBip44 => "bip44" | LedgerLive => "ledger-live" end;
  style_of t :=
    if among ["bip44"; "default"; "standard"; "ethereum"] t then Some EvmBip44
    else if among ["ledger-live"; "ledgerlive"; "ledger"] t then Some LedgerLive
    else None;
  all_styles := [EvmBip44; LedgerLive]
|}.

(** ** Solana *)

Inductive SolanaDerivationStyle := Phantom | SolanaBip44.

Definition SOLANA_ACCEPTED : list string := ["phantom"; "bip44"].

#[export] Instance solana_style : DerivationStyle SolanaDerivationStyle := {|
  style_chain := "solana";
  accepted := SOLANA_ACCEPTED;
  derivation_template s := match s with
    | Phantom => "m/44'/501'/{index}'/0'"
    | SolanaBip44 => "m/44'/501'/0'/{index}'"
    end;
  style_label s := match s with Phantom => "phantom" | SolanaBip44 => "bip44" end;
  style_of t :=
    if among ["phantom"; "default"; "backpack"; "standard"] t then Some Phantom
    else if among ["bip44"; "ledger"; "ledger-live"] t then Some SolanaBip44
    else None;
  all_styles := [Phantom; SolanaBip44]
|}.

(** ** TON *)

Inductive TonDerivationStyle := V5R1 | V4R2.

Definition TON_ACCEPTED : list string := ["v5r1"; "v4r2"].

#[export] Instance ton_style : DerivationStyle TonDerivationStyle := {|
  style_chain := "ton";
  accepted := TON_ACCEPTED;
  derivation_template _ := "m/44'/607'/{index}'";
  style_label s := match s with V5R1 => "v5r1" | V4R2 => "v4r2" end;
  style_of t :=
    if among ["v5r1"; "v5"; "default"; "standard"] t then Some V5R1
    else if among ["v4r2"; "v4"; "legacy"] t then Some V4R2
    else None;
  all_styles := [V5R1; V4R2]
|}.

(** ** Bitcoin *)

Inductive BitcoinDerivationStyle := NativeSegwit | NestedSegwit | Taproot | Legacy.

Definition BITCOIN_ACCEPTED : list string := ["native-segwit"; "nested-segwit"; "taproot"; "legacy"].

#[export] Instance bitcoin_style : DerivationStyle BitcoinDerivationStyle := {|
  style_chain := "bitcoin";
  accepted := BITCOIN_ACCEPTED;
  derivation_template s := match s with
    | NativeSegwit => "m/84'/0'/0'/0/{index}"
    | NestedSegwit => "m/49'/0'/0'/0/{index}"
    | Taproot => "m/86'/0'/0'/0/{index}"
    | Legacy => "m/44'/0'/0'/0/{index}"
    end;
  style_label s := match s with
    | NativeSegwit => "native-segwit" | NestedSegwit => "nested-segwit"
    | Taproot => "taproot" | Legacy => "legacy"
    end;
  style_of t :=
    if among ["native-segwit"; "nativesegwit"; "bip84"; "bech32"; "default"; "standard"] t then Some NativeSegwit
    else if among ["nested-segwit"; "nestedsegwit"; "bip49"] t then Some NestedSegwit
    else if among ["taproot"; "bip86"; "p2tr"] t then Some Taproot
    else if among ["legacy"; "bip44"; "p2pkh"] t then Some Legacy
    else None;
  all_styles := [NativeSegwit; NestedSegwit; Taproot; Legacy]
|}.

(** ** What the styles promise *)

(** The constructors are listed; the accepted tokens are their names, in order, plain
    ASCII in lower case; each name means its style; and each template is a path with the
    index in one place. *)
Class StyleLaws {A : Type} (D : DerivationStyle A) : Prop := {
  styles_listed (x : A) : In x all_styles;
  labels_accepted : accepted (A := A) = map style_label all_styles;
  labels_plain (x : A) : all_bytes is_ascii (style_label x) = true /\
    ascii_lowercase (style_label x) = style_label x /\ trim (style_label x) = style_label x;
  label_means (x : A) : style_of (style_label x) = Some x;
  path_valid (x : A) i : (0 <= i <= u32_max)%Z -> validate_path (derivation_path x i) = Ok tt
}.

(** A rendered path of the styles below. *)
Lemma path_of_indices l : l <> [] -> Forall (fun x => 0 <= x.1 <= u32_max)%Z l ->
  validate_path ("m/" +:+ join_char "/" (map render_index l)) = Ok tt.
Proof.
  intros Hne Hl. unfold validate_path.
  assert (Hs : starts_with "m/" ("m/" +:+ join_char "/" (map render_index l)) = true)
    by (unfold starts_with; by rewrite strip_prefix_app).
  rewrite Hs. cbn [negb andb]. destruct (String.eqb_spec ("m/" +:+ join_char "/" (map render_index l)) "m"); [done|].
  unfold components. rewrite strip_prefix_app, split_join_char.
  - apply first_error_none, Forall_map. eapply Forall_impl; [exact Hl|]. intros x. apply render_index_ok.
  - by destruct l.
  - apply Forall_map. eapply Forall_impl; [exact Hl|]. intros x [Hx _]. by apply render_index_lacks.
Qed.

Lemma index_range (i : Z) (l : list (Z * bool)) : (0 <= i <= u32_max)%Z -> Forall (fun x => 0 <= x.1 <= 100000)%Z l ->
  forall l' : list (Z * bool), Forall (fun x => 0 <= x.1 <= 100000)%Z l' -> forall b, Forall (fun x => 0 <= x.1 <= u32_max)%Z (l ++ (i, b) :: l').
Proof.
  assert (Hw : forall k, Forall (fun x : Z * bool => 0 <= x.1 <= 100000)%Z k -> Forall (fun x => 0 <= x.1 <= u32_max)%Z k).
  { intros k Hk. eapply Forall_impl; [exact Hk|]. cbn. unfold u32_max. lia. }
  intros Hi Hl l' Hl' b. apply Forall_app. split; [by apply Hw|]. constructor; [done|by apply Hw].
Qed.

(** The template, as its components before and after the index. *)
Local Ltac valid_path i before after b :=
  match goal with |- validate_path ?p = _ =>
    replace p with ("m/" +:+ join_char "/" (map render_index (before ++ (i, b) :: after)))
      by (unfold render_index, derivation_path; cbn [app map join_char fst snd];
          rewrite ?app_nil_r_str, <- ?app_assoc_str; cbn; by rewrite ?app_nil_r_str)
  end;
  apply path_of_indices; [done|apply index_range; [done|repeat constructor; cbn; lia..]].

#[export] Instance evm_style_laws : StyleLaws evm_style.
Proof.
  split; [by intros []; cbn; auto|done|by intros []|by intros []|].
  intros [] i Hi; [valid_path i [(44, true); (60, true); (0, true); (0, false)]%Z ([] : list (Z * bool)) false|
                   valid_path i [(44, true); (60, true)]%Z [(0, false); (0, false)]%Z true].
Qed.

#[export] Instance solana_style_laws : StyleLaws solana_style.
Proof.
  split; [by intros []; cbn; auto|done|by intros []|by intros []|].
  intros [] i Hi; [valid_path i [(44, true); (501, true)]%Z [(0, true)]%Z true|
                   valid_path i [(44, true); (501, true); (0, true)]%Z ([] : list (Z * bool)) true].
Qed.

#[export] Instance ton_style_laws : StyleLaws ton_style.
Proof.
  split; [by intros []; cbn; auto|done|by intros []|by intros []|].
  intros [] i Hi; valid_path i [(44, true); (607, true)]%Z ([] : list (Z * bool)) true.
Qed.

#[export] Instance bitcoin_style_laws : StyleLaws bitcoin_style.
Proof.
  split; [by intros []; cbn; auto|done|by intros []|by intros []|].
  intros [] i Hi;
    [valid_path i [(84, true); (0, true); (0, true); (0, false)]%Z ([] : list (Z * bool)) false|
     valid_path i [(49, true); (0, true); (0, true); (0, false)]%Z ([] : list (Z * bool)) false|
     valid_path i [(86, true); (0, true); (0, true); (0, false)]%Z ([] : list (Z * bool)) false|
     valid_path i [(44, true); (0, true); (0, true); (0, false)]%Z ([] : list (Z * bool)) false].
Qed.

Section Styles.
Context {L : Lowercase} {LL : LowercaseLaws L} {A : Type} {D : DerivationStyle A} {DL : StyleLaws D}.

(** Parsing a style's name gives the style, whatever the case and the white space
    around; a failure names the chain and lists every name; every style's path is valid
    at every 32-bit index. *)
Theorem style_roundtrip (x : A) s i :
  to_lowercase (trim s) = style_label x -> (0 <= i <= u32_max)%Z ->
  from_str A s = Ok x /\ validate_path (derivation_path x i) = Ok tt.
Proof.
  intros Hs Hi. split; [|by apply path_valid]. unfold from_str, normalize. by rewrite Hs, label_means.
Qed.

Theorem style_label_parses (x : A) : from_str A (style_label x) = Ok x.
Proof.
  destruct (labels_plain x) as (Ha & Hl & Ht). apply (style_roundtrip x _ 0); [|unfold u32_max; lia].
  by rewrite Ht, lowercase_ascii, Hl.
Qed.

Lemma style_error s e : from_str A s = Err e ->
  chain e = style_chain (A := A) /\ accepted_tokens e = map style_label (all_styles (A := A)).
Proof. unfold from_str. destruct (style_of _); [done|]. intros [= <-]. split; [done|apply labels_accepted]. Qed.
End Styles.

(** The default style of a chain has the path of its signer. *)
Lemma default_styles i :
  derivation_path EvmBip44 i = default_derivation_path Chain.Evm i /\
  derivation_path Phantom i = default_derivation_path Chain.Solana i /\
  derivation_path V5R1 i = default_derivation_path Chain.Ton i /\
  derivation_path NativeSegwit i = default_derivation_path Chain.Bitcoin i.
Proof. unfold derivation_path. cbn. rewrite ?app_nil_r_str, <- ?app_assoc_str. split_and!; reflexivity. Qed.
