(* ===== verification/Credential.v ===== *)
(** * Credentials and envelopes

    crates/oc-core/src/credential.rs (passphrases, API tokens, the comparison without
    early exit), api_key.rs (the record of a key) and crates/oc-vault/src/crypto/envelope.rs
    (the age envelope of a wallet's secret, and the identity behind an API token).  age,
    bech32 and base64 are the class [AgeFile]; hexadecimal and SHA-256 those of
    [AuditChain.AuditEnv]. *)

From Stdlib Require Import ZArith Lia Bool String Ascii.
From stdpp Require Import base list strings gmap.
From S2P Require Import Prelude Str Json Bytes Passkey Hd.
From S2P Require AuditChain.

Local Open Scope oc_scope.

(** ** Credentials *)

Definition TOKEN_PREFIX : string := "oc_key_".

Inductive Credential :=
| Passphrase (s : string)
| ApiToken (s : string).

Definition parse_credential (raw : string) : Credential :=
  if starts_with TOKEN_PREFIX raw then ApiToken raw else Passphrase raw.

Definition is_token (c : Credential) : bool := match c with ApiToken _ => true | Passphrase _ => false end.

Definition credential_str (c : Credential) : string := match c with Passphrase s | ApiToken s => s end.

Definition show_credential (c : Credential) : string :=
  match c with Passphrase _ => "<passphrase>" | ApiToken _ => "<api-token>" end.

(** [diff |= x ^ y] over the bytes in pairs. *)
Fixpoint fold_diff (diff : Z) (a b : bytes) : Z :=
  match a, b with
  | x :: a', y :: b' => fold_diff (Z.lor diff (Z.lxor x y)) a' b'
  | _, _ => diff
  end.

Definition ct_eq (a b : string) : bool :=
  if negb (str_len a =? str_len b)%Z then false
  else (fold_diff 0 (str_bytes a) (str_bytes b) =? 0)%Z.

(** ** Key files *)

Record SecretPermissions := {
  read_patterns : list string;
  write_patterns : list string;
  allow_totp : bool;
  max_reads_per_minute : Z
}.

Definition no_permissions : SecretPermissions :=
  {| read_patterns := []; write_patterns := []; allow_totp := false; max_reads_per_minute := 0 |}.

Section KeyFile.
Context {S : SerdeNumber}.

Record ApiKeyFile := {
  key_id : string;
  key_name : string;
  token_hash : string;
  recipient : string;
  key_created_at : string;
  wallet_ids : list string;
  policy_ids : list string;
  expires_at : option string;
  wallet_secrets : gmap string Value;
  secret_permissions : SecretPermissions
}.
End KeyFile.

(** ** Envelopes *)

Inductive CryptoError :=
| EncryptionFailed (message : string)
| DecryptionFailed (message : string)
| InvalidParams (message : string).

Definition of_guard (e : string) : CryptoError := DecryptionFailed ("memory hardening failed: " +:+ e).

Record AgeEnvelope := { cipher : string; ciphertext : string }.

Definition AGE_CIPHER : string := "age".

(** age files under a passphrase or for recipients, with the randomness they draw; the
    identity with given key bytes, through its bech32 text; base64. *)
Class AgeFile := {
  AgeIdentity : Type;
  AgeRecipient : Type;
  to_recipient_string : AgeIdentity -> string;
  identity_of_bytes : bytes -> result CryptoError AgeIdentity;
  parse_recipient : string -> result string AgeRecipient;
  seal_scrypt : Z -> string -> bytes -> result string bytes;
  open_scrypt : string -> bytes -> result string bytes;
  seal_x25519 : Z -> list AgeRecipient -> bytes -> result string bytes;
  open_x25519 : AgeIdentity -> bytes -> result string bytes;
  base64_encode : bytes -> string;
  base64_decode : string -> result string bytes
}.

(** What is sealed opens with the same passphrase, or with the identity of a recipient;
    a recipient prints to a text that reads back; base64 decodes what it encoded. *)
Class AgeFileLaws (G : AgeFile) : Prop := {
  scrypt_opens rand pass b c : seal_scrypt rand pass b = Ok c -> open_scrypt pass c = Ok b;
  x25519_opens rand rs b c id r : seal_x25519 rand rs b = Ok c ->
    parse_recipient (to_recipient_string id) = Ok r -> In r rs -> open_x25519 id c = Ok b;
  base64_roundtrip b : base64_decode (base64_encode b) = Ok b
}.

Section Envelope.
Context {S : SerdeNumber} {io_error json_error : Type} {A : AuditChain.AuditEnv io_error json_error}.
Context {H : HdCrypto} {G : AgeFile}.

Definition scrypt_secret (passphrase : bytes) : string := AuditChain.hex_encode passphrase.

Definition encode_envelope (c : bytes) : AgeEnvelope := {| cipher := AGE_CIPHER; ciphertext := base64_encode c |}.

Definition decode_envelope (envelope : AgeEnvelope) : result CryptoError bytes :=
  if negb (String.eqb (cipher envelope) AGE_CIPHER) then
    Err (InvalidParams ("unsupported cipher '" +:+ cipher envelope +:+ "': this build reads only age ('" +:+ AGE_CIPHER +:+
      "') envelopes; recreate the wallet, token or backup under the current format"))
  else result_map_err (fun e => InvalidParams ("invalid age ciphertext base64: " +:+ e))
         (base64_decode (ciphertext envelope)).

(** [decrypt_raw], of what age answers. *)
Definition decrypt_raw (plaintext : result string bytes) : result CryptoError bytes :=
  let? b := result_map_err DecryptionFailed plaintext in locked of_guard b.

Definition encrypt_with_passphrase (rand : Z) (plaintext passphrase : bytes) : result CryptoError AgeEnvelope :=
  let? raw := result_map_err EncryptionFailed (seal_scrypt rand (scrypt_secret passphrase) plaintext) in
  Ok (encode_envelope raw).

Definition decrypt_with_passphrase (envelope : AgeEnvelope) (passphrase : bytes) : result CryptoError bytes :=
  let? raw := decode_envelope envelope in
  decrypt_raw (open_scrypt (scrypt_secret passphrase) raw).

Definition encrypt_to_recipients (rand : Z) (plaintext : bytes) (recipients : list string) : result CryptoError AgeEnvelope :=
  if is_nil recipients then Err (InvalidParams "no age recipients provided")
  else
    let? parsed := collect (fun s => result_map_err
      (fun e => InvalidParams ("invalid age recipient '" +:+ s +:+ "': " +:+ e)) (parse_recipient s)) recipients in
    let? raw := result_map_err EncryptionFailed (seal_x25519 rand parsed plaintext) in
    Ok (encode_envelope raw).

Definition decrypt_with_identity (envelope : AgeEnvelope) (identity : AgeIdentity) : result CryptoError bytes :=
  let? raw := decode_envelope envelope in
  decrypt_raw (open_x25519 identity raw).

Definition invalid_token (why : string) : CryptoError := InvalidParams ("invalid API token: " +:+ why).

Definition token_key_bytes (token : string) : result CryptoError bytes :=
  let? hexpart := ok_or (invalid_token "missing prefix") (strip_prefix TOKEN_PREFIX token) in
  let? bs := result_map_err (fun _ => invalid_token "malformed hex") (AuditChain.hex_decode hexpart) in
  if (len bs =? 32)%Z then Ok bs else Err (invalid_token "wrong length").

Definition token_identity (token : string) : result CryptoError AgeIdentity :=
  let? bs := token_key_bytes token in identity_of_bytes bs.

Definition token_recipient (token : string) : result CryptoError string :=
  let? i := token_identity token in Ok (to_recipient_string i).
End Envelope.

(** ** Lemmas *)

Lemma lor_zero a b : Z.lor a b = 0%Z <-> a = 0%Z /\ b = 0%Z.
Proof. apply Z.lor_eq_0_iff. Qed.

Lemma fold_diff_zero d a b : length a = length b -> fold_diff d a b = 0%Z <-> d = 0%Z /\ a = b.
Proof.
  revert d b. induction a as [|x a IH]; intros d [|y b] Hl; try done; cbn [fold_diff]; [naive_solver|].
  injection Hl as Hl. rewrite IH, lor_zero, Z.lxor_eq_0_iff by done. naive_solver.
Qed.

Lemma str_bytes_inj a b : str_bytes a = str_bytes b -> a = b.
Proof.
  unfold str_bytes. revert b. induction a as [|c a IH]; intros [|c' b]; try done.
  cbn. intros [= Hc Ht]. f_equal; [|by apply IH].
  apply N2Z.inj in Hc. apply (f_equal ascii_of_N) in Hc. by rewrite !ascii_N_embedding in Hc.
Qed.

Lemma str_bytes_length s : length (str_bytes s) = String.length s.
Proof. unfold str_bytes. rewrite length_map. induction s as [|c s IH]; [done|]. cbn. by rewrite IH. Qed.

Lemma str_bytes_ok s : is_bytes (str_bytes s).
Proof.
  unfold str_bytes, is_bytes. apply Forall_map. induction s as [|c s IH]; cbn; constructor; [|done].
  unfold is_byte. pose proof (N_ascii_bounded c). lia.
Qed.

(** The comparison without early exit is equality. *)
Theorem ct_eq_iff a b : ct_eq a b = true <-> a = b.
Proof.
  unfold ct_eq, str_len. destruct (Z.eqb_spec (Z.of_nat (String.length a)) (Z.of_nat (String.length b))) as [Hl|Hl]; cbn [negb].
  - rewrite Z.eqb_eq, fold_diff_zero by (rewrite !str_bytes_length; lia). split; [|by intros ->].
    intros [_ He]. by apply str_bytes_inj.
  - split; [done|]. by intros ->.
Qed.

Section EnvelopeLaws.
Context {S : SerdeNumber} {io_error json_error : Type} {A : AuditChain.AuditEnv io_error json_error}.
Context {H : HdCrypto} {G : AgeFile} {GL : AgeFileLaws G}.

Lemma decode_encoded c : decode_envelope (encode_envelope c) = Ok c.
Proof. unfold decode_envelope, encode_envelope. cbn. by rewrite base64_roundtrip. Qed.

Lemma passphrase_opens rand b pass envelope : encrypt_with_passphrase rand b pass = Ok envelope ->
  decrypt_with_passphrase envelope pass = locked of_guard b.
Proof.
  unfold encrypt_with_passphrase, decrypt_with_passphrase. destruct (seal_scrypt _ _ _) as [c|] eqn:Hs; [|done].
  cbn. intros [= <-]. rewrite decode_encoded. cbn. by rewrite (scrypt_opens _ _ _ _ Hs).
Qed.

Lemma identity_opens rand b id envelope :
  encrypt_to_recipients rand b [to_recipient_string id] = Ok envelope ->
  decrypt_with_identity envelope id = locked of_guard b.
Proof.
  unfold encrypt_to_recipients, decrypt_with_identity. cbn. destruct (parse_recipient _) as [r|] eqn:Hp; [|done].
  cbn. destruct (seal_x25519 _ _ _) as [c|] eqn:Hs; [|done]. cbn. intros [= <-].
  rewrite decode_encoded. cbn. by rewrite (x25519_opens _ _ _ _ _ _ Hs Hp (or_introl eq_refl)).
Qed.

(** Only envelopes tagged with age are opened. *)
Lemma opened_age envelope pass b : decrypt_with_passphrase envelope pass = Ok b -> cipher envelope = AGE_CIPHER.
Proof.
  unfold decrypt_with_passphrase, decode_envelope. destruct (String.eqb_spec (cipher envelope) AGE_CIPHER); [done|].
  done.
Qed.
End EnvelopeLaws.
