(* ===== verification/WalletWorld.v ===== *)
(** * What wallet operations meet, and how they fail

    crates/oc-wallet/src/error.rs, and the file accesses that the key store and the policy
    store share: directories that are created, files that are looked for, read, replaced
    and removed, each of which may fail ([DirIo]). *)

From Stdlib Require Import ZArith Lia Bool String Ascii.
From stdpp Require Import base list strings gmap.
From S2P Require Import Prelude Str Names Files Trace Json Hd Credential.
From S2P Require AuditChain Vault ChainKey.

Local Open Scope oc_scope.

(** ** Errors *)

(** The variants of [OcError] that wallet operations raise. *)
Inductive OcError :=
| ApiKeyNotFound
| ApiKeyExpired (id : string)
| CoreInvalidInput (message : string)
| PolicyDenied (policy_id reason : string).

Inductive PolicyStoreError := SignatureInvalid (path reason : string).

(** A signer's error is its text. *)
Inductive OcWalletError {io_error json_error : Type} :=
| WalletNotFound (id : string)
| AmbiguousWallet (name : string) (count : nat)
| WalletNameExists (name : string)
| InvalidInput (message : string)
| BroadcastFailed (message : string)
| Crypto (e : CryptoError)
| Signer (e : string)
| MnemonicFailed (e : MnemonicError)
| Hd (e : HdError)
| Core (e : OcError)
| Io (e : io_error)
| Json (e : json_error)
| PolicyStore (e : PolicyStoreError).
Arguments OcWalletError : clear implicits.

(** [From<OcVaultError>]. *)
Definition of_vault_error {io_error json_error} (show_io : io_error -> string) (show_json : json_error -> string)
    (e : Vault.OcVaultError io_error json_error) : OcWalletError io_error json_error :=
  match e with
  | Vault.WalletNotFound id => WalletNotFound id
  | Vault.AmbiguousWallet name count => AmbiguousWallet name count
  | Vault.VIo e => Io e
  | Vault.Serde e => Json e
  | other => InvalidInput (Vault.show_vault_error show_io show_json other)
  end.

(** ** Files *)

(** What the calls on one directory meet. *)
Record DirIo (io_error : Type) := {
  mkdir_err : option io_error;
  stat_fails : Path -> bool;
  read_fails : Path -> option io_error;
  missing : io_error;
  not_utf8 : io_error;
  listing_err : option (bool * io_error);
  listing_order : list string -> list string;
  listing_entry_err : option (nat * io_error);
  parent_fails : Path -> option io_error;
  faults : Path -> WriteFaults io_error;
  tmp_pid : Z; tmp_nanos : Z; tmp_seq : Path -> Z;
  unlink_fails : Path -> option io_error
}.
Arguments mkdir_err {io_error}.
Arguments stat_fails {io_error}.
Arguments read_fails {io_error}.
Arguments missing {io_error}.
Arguments not_utf8 {io_error}.
Arguments listing_err {io_error}.
Arguments listing_order {io_error}.
Arguments listing_entry_err {io_error}.
Arguments parent_fails {io_error}.
Arguments faults {io_error}.
Arguments tmp_pid {io_error}.
Arguments tmp_nanos {io_error}.
Arguments tmp_seq {io_error}.
Arguments unlink_fails {io_error}.

(** 0644. *)
Definition MODE_REGULAR_FILE : Z := 420.

(** The last slash of a text: what is before and after it. *)
Fixpoint rsplit_slash (s : string) : option (string * string) :=
  match s with
  | EmptyString => None
  | String c s' =>
      match rsplit_slash s' with
      | Some (p, f) => Some (String c p, f)
      | None => if Ascii.eqb c "/" then Some ("", s') else None
      end
  end.

(** [dir.join(file)] as parent and final component; a slash in [file] leads into another
    directory, and one at its beginning out of [dir]. *)
Definition file_in (dir file : string) : Path :=
  match rsplit_slash file with
  | None => (Some dir, Some file)
  | Some (p, f) =>
      (Some (if starts_with "/" file then (if is_empty p then "/" else p) else Names.join dir p), Some f)
  end.

Section Files.
Context {S : SerdeNumber} {io_error json_error : Type} {A : AuditChain.AuditEnv io_error json_error}.

Abbreviation wallet_result := (result (OcWalletError io_error json_error)).

(** [Path::exists]: a failing stat counts as no file. *)
Definition exists_at (io : DirIo io_error) (p : Path) (d : FS) : bool :=
  negb (stat_fails io p) && bool_decide (is_Some (d !! p)).

(** [fs::read]. *)
Definition read_bytes (io : DirIo io_error) (p : Path) (d : FS) : result io_error string :=
  match read_fails io p, d !! p with
  | Some e, _ => Err e
  | None, None => Err (missing io)
  | None, Some f => Ok (file_content f)
  end.

(** [fs::read_to_string]. *)
Definition read_text (io : DirIo io_error) (p : Path) (d : FS) : result io_error string :=
  let? text := read_bytes io p d in
  if utf8 text then Ok text else Err (not_utf8 io).

Definition write_mode (io : DirIo io_error) (p : Path) (contents : string) (mode : Z)
  : Disk (OcWalletError io_error json_error) unit := fun d =>
  let '(r, trace) := write_atomic AuditChain.no_parent (parent_fails io p) (faults io p) p contents mode
                       (tmp_pid io) (tmp_nanos io) (tmp_seq io p) d in
  (result_map_err Io r, trace).

Definition write_private (io : DirIo io_error) (p : Path) (contents : string)
  : Disk (OcWalletError io_error json_error) unit := write_mode io p contents MODE_PRIVATE_FILE.

(** [fs::remove_file]. *)
Definition remove_at (io : DirIo io_error) (p : Path) : Disk (OcWalletError io_error json_error) unit := fun d =>
  match unlink_fails io p, d !! p with
  | Some e, _ => (Err (Io e), [d])
  | None, None => (Err (Io (missing io)), [d])
  | None, Some _ => (Ok tt, [d; delete p d])
  end.

(** [create_dir_all] and the directory below the vault. *)
Definition dir_below (io : DirIo io_error) (base sub : string) : wallet_result string :=
  match mkdir_err io with Some e => Err (Io e) | None => Ok (Names.join base sub) end.

(** ** Listings *)

(** A file of the listing, when it is JSON, can be read and parses. *)
Definition listed_at {B} (io : DirIo io_error) (parse : string -> result json_error B) (dir : string) (d : FS)
    (name : string) : option B :=
  match Vault.json_stem name, read_text io (Some dir, Some name) d with
  | Some _, Ok text => match parse text with Ok b => Some b | Err _ => None end
  | _, _ => None
  end.

Definition list_dir {B} (io : DirIo io_error) (parse : string -> result json_error B) (dir : string) (d : FS)
  : wallet_result (list B) :=
  match listing_err io with
  | Some (true, _) => Ok []
  | Some (false, e) => Err (Io e)
  | None =>
      let names := listing_order io (Vault.names_in dir d) in
      match listing_entry_err io with
      | Some (n, e) => if (n <=? length names)%nat then Err (Io e) else Ok (omap (listed_at io parse dir d) names)
      | None => Ok (omap (listed_at io parse dir d) names)
      end
  end.

(** A replaced file: in every state it is the old or the whole new one and the other files
    are as they were; when the call succeeds it is the new one. *)
Lemma write_mode_spec (io : DirIo io_error) p contents mode d :
  let new := Some {| file_mode := mode; file_content := contents |} in
  Forall (fun d' => (d' !! p = d !! p \/ d' !! p = new) /\ forall q, durable q -> q <> p -> d' !! q = d !! q)
    (write_mode io p contents mode d).2 /\
  ((write_mode io p contents mode d).1 = Ok tt -> final d (write_mode io p contents mode d) !! p = new).
Proof.
  intros new. unfold write_mode, final.
  pose proof (write_atomic_replaced AuditChain.no_parent (parent_fails io p) (faults io p) p contents mode
    (tmp_pid io) (tmp_nanos io) (tmp_seq io p) d) as Hr.
  pose proof (fun q => write_atomic_leaves AuditChain.no_parent (parent_fails io p) (faults io p) p contents mode
    (tmp_pid io) (tmp_nanos io) (tmp_seq io p) d q) as Hl.
  destruct (write_atomic _ _ _ _ _ _ _ _ _ _) as [r trace]. destruct Hr as [Hall Hfin]. cbn [fst snd]. split.
  - rewrite Forall_forall in Hall |- *. intros d' Hin. split; [by apply Hall|]. intros q Hd Hq.
    specialize (Hl q Hq Hd). unfold leaves in Hl. rewrite Forall_forall in Hl. by apply Hl.
  - destruct r; [|done]. intros _. exact Hfin.
Qed.

Lemma write_mode_final (io : DirIo io_error) p contents mode d q :
  durable q -> q <> p -> final d (write_mode io p contents mode d) !! q = d !! q.
Proof.
  intros Hd Hq. destruct (write_mode_spec io p contents mode d) as [Hall _].
  apply (final_state (fun d' => d' !! q = d !! q)); [done|]. eapply Forall_impl; [exact Hall|]. cbn. naive_solver.
Qed.
End Files.

(** [sort_by] on a text key, descending ([Lt]) or ascending ([Gt]); it is stable. *)
Section SortBy.
Context {B : Type} (key : B -> string) (after : comparison).

Fixpoint insert_by (b : B) (l : list B) : list B :=
  match l with
  | [] => [b]
  | x :: l' => if bool_decide (String.compare (key x) (key b) = after) then b :: l else
               match String.compare (key x) (key b) with
               | Eq => b :: l
               | _ => x :: insert_by b l'
               end
  end.

Definition sort_by (l : list B) : list B := fold_right insert_by [] l.

Lemma insert_by_perm b l : insert_by b l ≡ₚ b :: l.
Proof.
  induction l as [|x l IH]; cbn; [done|]. case_bool_decide; [done|]. destruct (String.compare _ _); [done|..];
    rewrite IH; constructor.
Qed.

Lemma sort_by_perm l : sort_by l ≡ₚ l.
Proof. induction l as [|b l IH]; cbn; [done|]. by rewrite insert_by_perm, IH. Qed.
End SortBy.
