(* ===== verification/PolicyStore.v ===== *)
(** * Signed policy documents

    crates/oc-wallet/src/policy_store.rs: one JSON file per policy with a detached Ed25519
    signature beside it, made with a key in the vault's root.  Signing, hexadecimal and
    the codec of policies are classes ([AuditChain.AuditEnv], [PolicyJson]). *)

From Stdlib Require Import ZArith Lia Bool String Ascii.
From stdpp Require Import base list strings gmap.
From S2P Require Import Prelude Str Decimal Files Trace Json Bytes Passkey ChainKey WalletWorld.
From S2P Require AuditChain PolicyV1 Names.

Local Open Scope oc_scope.

(** serde_json on policies: [to_vec_pretty] and [from_slice]; and the text of the error that
    ed25519-dalek's verification gives. *)
Class PolicyJson {S : SerdeNumber} (json_error : Type) := {
  policy_to_vec : PolicyV1.Policy -> result json_error string;
  policy_from_slice : string -> result json_error PolicyV1.Policy;
  verify_error : string
}.

Class PolicyJsonLaws {S : SerdeNumber} {json_error} (J : PolicyJson json_error) : Prop :=
  policy_roundtrip p s : policy_to_vec p = Ok s -> policy_from_slice s = Ok p.

(** Hexadecimal text is ASCII without white space. *)
Class HexText {S : SerdeNumber} {io_error json_error} (A : AuditChain.AuditEnv io_error json_error) : Prop :=
  hex_text b : is_bytes b -> trim (AuditChain.hex_encode b) = AuditChain.hex_encode b /\ utf8 (AuditChain.hex_encode b) = true.

Definition SIGNING_KEY_FILE : string := "policy_signing.key".

Section Policies.
Context {S : SerdeNumber} {io_error json_error : Type} {A : AuditChain.AuditEnv io_error json_error}.
Context {D : Display json_error} {J : PolicyJson json_error}.

Abbreviation wallet_error := (OcWalletError io_error json_error).

Record SignedPolicy := { policy : PolicyV1.Policy; signature_verified : bool }.

Definition is_signed (p : SignedPolicy) : bool := signature_verified p.

(** [base] is the resolved vault path. *)
Definition policies_dir (io : DirIo io_error) (base : string) : result wallet_error string :=
  dir_below io base "policies".

Definition policy_path (dir id : string) : Path := file_in dir (id +:+ ".json").

Definition sidecar_path (policy_path : Path) : Path :=
  (policy_path.1, option_map (fun n => n +:+ ".sig") policy_path.2).

Definition signing_key_path (base : string) : Path := (Some base, Some SIGNING_KEY_FILE).

Definition read_signing_key (io : DirIo io_error) (path : Path) (d : FS) : result string AuditChain.SigningKey :=
  let? data := result_map_err (fun e => "read signing key: " +:+ AuditChain.show_io e) (read_bytes io path d) in
  if (str_len data =? 32)%Z then Ok (AuditChain.key_from_bytes data)
  else Err ("expected a 32-byte Ed25519 seed, got " +:+ fmt_Z (str_len data) +:+ " bytes").

(** [seed] is what the generator answers. *)
Definition load_or_generate_signing_key (io : DirIo io_error) (seed : result string string) (base : string)
  : Disk wallet_error AuditChain.SigningKey :=
  fun d =>
  let path := signing_key_path base in
  if exists_at io path d then (result_map_err InvalidInput (read_signing_key io path d), [d])
  else (let> s := on_result (result_map_err (fun e => InvalidInput ("generate signing key: " +:+ e)) seed) in
        let key := AuditChain.key_from_bytes s in
        let> _ := write_private io path (AuditChain.key_to_bytes key) in
        on_result (Ok key)) d.

Definition save_policy (io : DirIo io_error) (seed : result string string) (policy : PolicyV1.Policy) (base : string)
  : Disk wallet_error unit :=
  let> dir := on_result (policies_dir io base) in
  let path := policy_path dir (PolicyV1.policy_id_of policy) in
  let> json := on_result (result_map_err Json (policy_to_vec policy)) in
  let> _ := write_mode io path json MODE_REGULAR_FILE in
  let> signing_key := load_or_generate_signing_key io seed base in
  let sig_hex := AuditChain.hex_encode (AuditChain.sign signing_key json) in
  write_private io (sidecar_path path) sig_hex.

Definition verify_sidecar (io : DirIo io_error) (path sig_path : Path) (contents base : string) (d : FS)
  : result wallet_error unit :=
  let invalid reason := PolicyStore (SignatureInvalid (show_path path) reason) in
  let key_path := signing_key_path base in
  if negb (exists_at io key_path d) then Err (invalid "policy signing key not found; cannot verify")
  else
    let? signing_key := result_map_err invalid (read_signing_key io key_path d) in
    let? sig_text := result_map_err (fun e => invalid ("read sidecar: " +:+ AuditChain.show_io e))
                       (read_text io sig_path d) in
    let? raw := result_map_err (fun e => invalid ("corrupt sidecar (bad hex): " +:+ e))
                  (AuditChain.hex_decode (trim sig_text)) in
    if negb (len raw =? 64)%Z then Err (invalid ("corrupt sidecar (bad length " +:+ fmt_Z (len raw) +:+ ")"))
    else if AuditChain.verify (AuditChain.verifying_key signing_key) contents raw then Ok tt
    else Err (invalid ("signature mismatch: " +:+ verify_error)).

Definition load_policy (io : DirIo io_error) (id base : string) (d : FS) : result wallet_error SignedPolicy :=
  let? dir := policies_dir io base in
  let path := policy_path dir id in
  if negb (exists_at io path d) then Err (InvalidInput ("policy not found: " +:+ id))
  else
    let? contents := result_map_err Io (read_bytes io path d) in
    let sig_path := sidecar_path path in
    if negb (exists_at io sig_path d) then
      let? p := result_map_err Json (policy_from_slice contents) in
      Ok {| policy := p; signature_verified := false |}
    else
      let? _ := verify_sidecar io path sig_path contents base d in
      let? p := result_map_err Json (policy_from_slice contents) in
      Ok {| policy := p; signature_verified := true |}.

Definition list_policies (io : DirIo io_error) (base : string) (d : FS) : result wallet_error (list PolicyV1.Policy) :=
  let? dir := policies_dir io base in
  let? ps := list_dir io policy_from_slice dir d in
  Ok (sort_by PolicyV1.policy_name Gt ps).

Definition delete_policy (io : DirIo io_error) (id base : string) : Disk wallet_error unit := fun d =>
  match policies_dir io base with
  | Err e => (Err e, [d])
  | Ok dir =>
      let path := policy_path dir id in
      if negb (exists_at io path d) then (Err (InvalidInput ("policy not found: " +:+ id)), [d])
      else
        (let> _ := remove_at io path in
         fun d => let sig_path := sidecar_path path in
                  if exists_at io sig_path d then remove_at io sig_path d else (Ok tt, [d])) d
  end.

(** ** What a loaded policy is *)

(** The key on the disk, as [verify_sidecar] finds it. *)
Definition key_on_disk (io : DirIo io_error) (base : string) (d : FS) (k : AuditChain.SigningKey) : Prop :=
  exists_at io (signing_key_path base) d = true /\ read_signing_key io (signing_key_path base) d = Ok k.

(** The sidecar holds a signature of the contents under the key on the disk. *)
Definition signed_on_disk (io : DirIo io_error) (base : string) (sig_path : Path) (contents : string) (d : FS) : Prop :=
  exists k text raw, key_on_disk io base d k /\ read_text io sig_path d = Ok text /\
    AuditChain.hex_decode (trim text) = Ok raw /\ len raw = 64%Z /\
    AuditChain.verify (AuditChain.verifying_key k) contents raw = true.

Lemma verify_sidecar_ok io path sig_path contents base d :
  verify_sidecar io path sig_path contents base d = Ok tt <-> signed_on_disk io base sig_path contents d.
Proof.
  unfold verify_sidecar, signed_on_disk, key_on_disk. split.
  - destruct (exists_at _ _ _); [|done]. cbn [negb].
    destruct (read_signing_key _ _ _) as [k|]; [|done]. cbn [result_map_err result_bind].
    destruct (read_text _ _ _) as [text|] eqn:Ht; [|done]. cbn [result_map_err result_bind].
    destruct (AuditChain.hex_decode _) as [raw|] eqn:Hr; [|done]. cbn [result_map_err result_bind].
    destruct (Z.eqb_spec (len raw) 64); [|done]. cbn [negb].
    destruct (AuditChain.verify _ _ _) eqn:Hv; [|done]. intros _. by exists k, text, raw.
  - intros (k & text & raw & [-> ->] & -> & Hr & Hl & Hv). cbn [negb result_map_err result_bind].
    rewrite Hr. cbn [result_map_err result_bind]. by rewrite Hl, Hv.
Qed.

(** A policy is loaded exactly when its file is there, can be read and holds that policy,
    and either the signature beside it verifies for the exact bytes of the file under the
    key of the vault, or no file is seen in the signature's place: then, and only then, it
    is marked unsigned. *)
Theorem load_policy_iff io id base d sp :
  load_policy io id base d = Ok sp <->
  exists dir contents, policies_dir io base = Ok dir /\
    let path := policy_path dir id in
    exists_at io path d = true /\ read_bytes io path d = Ok contents /\
    policy_from_slice contents = Ok (policy sp) /\
    if exists_at io (sidecar_path path) d
    then signature_verified sp = true /\ signed_on_disk io base (sidecar_path path) contents d
    else signature_verified sp = false.
Proof.
  unfold load_policy. split.
  - intros H. bind1 H dir Hdir. rewrite Hdir. exists dir.
    destruct (exists_at io (policy_path dir id) d); [|done]. cbn [negb] in H. bind1 H contents Hc.
    destruct (read_bytes _ _ _) as [c|]; [|done]. injection Hc as <-. exists c.
    destruct (exists_at io (sidecar_path _) d); cbn [negb] in H.
    + bind1 H u Hu. destruct u. apply verify_sidecar_ok in Hu. bind1 H p Hp.
      destruct (policy_from_slice c); [|done]. injection Hp as ->. by injection H as <-.
    + bind1 H p Hp. destruct (policy_from_slice c); [|done]. injection Hp as ->. by injection H as <-.
  - intros (dir & contents & -> & He & Hc & Hp & Hs). cbn [result_bind]. rewrite He, Hc.
    cbn [negb result_map_err result_bind]. destruct sp as [p v]. cbn [policy signature_verified] in *.
    destruct (exists_at io (sidecar_path _) d); cbn [negb].
    + destruct Hs as [-> Hs]. apply (verify_sidecar_ok io (policy_path dir id)) in Hs. rewrite Hs. cbn [result_bind].
      by rewrite Hp.
    + rewrite Hp. cbn. by rewrite Hs.
Qed.

(** ** Saving *)

Lemma rsplit_suffix s suf : contains_byte "/" suf = false ->
  rsplit_slash (s +:+ suf) = match rsplit_slash s with Some (p, f) => Some (p, f +:+ suf) | None => None end.
Proof.
  intros Hs. induction s as [|c s IH]; cbn [String.append rsplit_slash].
  - induction suf as [|c suf IH]; [done|]. rewrite contains_byte_cons in Hs. apply orb_false_iff in Hs as [Hc Hs].
    cbn [rsplit_slash]. by rewrite (IH Hs), Hc.
  - rewrite IH. destruct (rsplit_slash s) as [[p f]|]; [done|]. by destruct (Ascii.eqb c "/").
Qed.

(** The last byte of a file's name. *)
Definition name_end (p : Path) : option ascii := p.2 ≫= last_byte.

Lemma file_in_end dir s suf : contains_byte "/" suf = false -> suf <> "" ->
  name_end (file_in dir (s +:+ suf)) = last_byte suf.
Proof.
  intros Hs Hne. unfold file_in, name_end. rewrite rsplit_suffix by done.
  destruct (rsplit_slash s) as [[p f]|]; cbn; by rewrite last_byte_app.
Qed.

Lemma policy_path_end dir id : name_end (policy_path dir id) = Some "n"%char.
Proof. unfold policy_path. by rewrite file_in_end. Qed.

Lemma sidecar_end dir id : name_end (sidecar_path (policy_path dir id)) = Some "g"%char.
Proof.
  pose proof (policy_path_end dir id) as H. unfold sidecar_path, name_end in *.
  destruct (policy_path dir id) as [q [n|]]; [|done]. cbn. by rewrite last_byte_app.
Qed.

Lemma end_durable p c : name_end p = Some c -> c <> "p"%char -> durable p.
Proof.
  intros He Hc. unfold durable. apply not_true_iff_false. intros [q Hq]%ends_with_iff.
  unfold name_end in He. destruct (p.2) as [n|]; [|done]. cbn in *. subst n. rewrite last_byte_app in He by done.
  cbn in He. congruence.
Qed.

Lemma end_ne p q c c' : name_end p = Some c -> name_end q = Some c' -> c <> c' -> p <> q.
Proof. intros Hp Hq Hne ->. congruence. Qed.

(** What a load reads of the disk. *)
Lemma load_policy_same io id base d d' :
  (forall dir, policies_dir io base = Ok dir ->
     d' !! policy_path dir id = d !! policy_path dir id /\
     d' !! sidecar_path (policy_path dir id) = d !! sidecar_path (policy_path dir id)) ->
  d' !! signing_key_path base = d !! signing_key_path base ->
  load_policy io id base d' = load_policy io id base d.
Proof.
  intros Hd Hk. unfold load_policy. destruct (policies_dir io base) as [dir|]; [|done]. cbn [result_bind].
  destruct (Hd dir eq_refl) as [Hp Hs].
  unfold verify_sidecar, read_signing_key, read_text, read_bytes, exists_at. by rewrite Hp, Hs, Hk.
Qed.

(** The directory is there, files are seen and can be read. *)
Definition readable (io : DirIo io_error) : Prop :=
  mkdir_err io = None /\ (forall p, stat_fails io p = false) /\ forall p, read_fails io p = None.

Context {JL : PolicyJsonLaws J} {AL : AuditChain.AuditLaws A} {HT : HexText A}.

Definition stored_text (p : Path) (text : string) (d : FS) : Prop :=
  exists m, d !! p = Some {| file_mode := m; file_content := text |}.

Lemma stored_read io p text d : readable io -> stored_text p text d ->
  exists_at io p d = true /\ read_bytes io p d = Ok text.
Proof.
  intros (_ & Hs & Hr) (m & Hm). unfold exists_at, read_bytes. rewrite Hs, Hr, Hm. split; [|done].
  apply bool_decide_eq_true. by eexists.
Qed.

(** A saved policy in its file, with the signature and the key beside it, loads. *)
Lemma signed_loads io p base d k json : readable io -> policy_to_vec p = Ok json ->
  let path := policy_path (Names.join base "policies") (PolicyV1.policy_id_of p) in
  stored_text path json d ->
  stored_text (sidecar_path path) (AuditChain.hex_encode (AuditChain.sign k json)) d ->
  (exists text, stored_text (signing_key_path base) text d /\ str_len text = 32%Z /\ AuditChain.key_from_bytes text = k) ->
  load_policy io (PolicyV1.policy_id_of p) base d = Ok {| policy := p; signature_verified := true |}.
Proof.
  intros Hio Hj path Hp Hs (text & Hk & Hl & Hfrom). apply load_policy_iff.
  exists (Names.join base "policies"), json.
  split; [unfold policies_dir, dir_below; by rewrite (proj1 Hio)|]. cbv zeta. fold path.
  destruct (stored_read io _ _ _ Hio Hp) as [-> ->], (stored_read io _ _ _ Hio Hs) as [-> Hrs].
  destruct (stored_read io _ _ _ Hio Hk) as [Hek Hrk]. destruct (hex_text (AuditChain.sign k json) (proj1 (AuditChain.sign_bytes k json))) as [Ht Hu].
  destruct (AuditChain.sign_bytes k json) as [Hb Hlen].
  split_and!; [done|done|by apply policy_roundtrip|done|].
  exists k, (AuditChain.hex_encode (AuditChain.sign k json)), (AuditChain.sign k json). split_and!; try done.
  - split; [done|]. unfold read_signing_key. rewrite Hrk. cbn [result_map_err result_bind]. by rewrite Hl, Hfrom.
  - unfold read_text. rewrite Hrs. cbn [result_bind]. by rewrite Hu.
  - rewrite Ht. by apply AuditChain.hex_roundtrip.
  - apply AuditChain.verify_sign.
Qed.

(** What may be on the disk while a policy is saved: nothing of the three files has
    changed yet, or the policy's file is the new one. *)
Definition saving (path side keyp : Path) (json : string) (d d' : FS) : Prop :=
  (d' !! path = d !! path /\ d' !! side = d !! side /\ d' !! keyp = d !! keyp) \/ stored_text path json d'.

Lemma stored_kept p q text d (io : DirIo io_error) contents mode :
  durable p -> p <> q -> stored_text p text d ->
  Forall (stored_text p text) (write_mode io q contents mode d).2 /\
  stored_text p text (final d (write_mode io q contents mode d)).
Proof.
  intros Hd Hne (m & Hm). destruct (write_mode_spec io q contents mode d) as [Hall _]. split.
  - eapply Forall_impl; [exact Hall|]. intros d' [_ Hq]. exists m. by rewrite Hq.
  - exists m. by rewrite write_mode_final.
Qed.

(** The signing key, existing or new, is the one on the disk afterwards. *)
Lemma signing_key_steps io seed base p json d :
  readable io -> (forall s, seed = Ok s -> str_len s = 32%Z) ->
  durable p -> p <> signing_key_path base -> stored_text p json d ->
  steps (stored_text p json)
    (fun k d' => stored_text p json d' /\ exists text, stored_text (signing_key_path base) text d' /\ str_len text = 32%Z /\
       AuditChain.key_from_bytes text = k) d
    (load_or_generate_signing_key io seed base d).
Proof.
  intros Hio Hseed Hd Hne Hp. unfold load_or_generate_signing_key.
  destruct (exists_at io (signing_key_path base) d) eqn:He.
  - split; [by apply Forall_singleton|]. cbn [fst]. intros k Hk. unfold final. cbn. split; [done|].
    unfold exists_at in He. apply andb_true_iff in He as [_ Hex%bool_decide_eq_true].
    destruct Hex as [[m text] Hf]. unfold read_signing_key, read_bytes in Hk. destruct Hio as (_ & _ & Hr).
    rewrite Hr, Hf in Hk. cbn in Hk. destruct (Z.eqb_spec (str_len text) 32); [|done]. injection Hk as <-.
    exists text. split_and!; [by exists m|done|done].
  - apply (in_turn_steps _ (fun _ d' => stored_text p json d')); [done| |].
    + apply on_result_steps; [done|]. done.
    + intros s d' _ Hp'. apply (in_turn_steps _ (fun _ d'' => stored_text p json d'' /\
        stored_text (signing_key_path base) (AuditChain.key_to_bytes (AuditChain.key_from_bytes s)) d'')); [done| |].
      * destruct (stored_kept p (signing_key_path base) json d' io (AuditChain.key_to_bytes (AuditChain.key_from_bytes s))
          MODE_PRIVATE_FILE Hd Hne Hp') as [Ha Hf]. split; [done|]. intros [] Hok. split; [done|].
        eexists. by apply (write_mode_spec io (signing_key_path base)).
      * intros _ d'' _ [Hp'' Hk]. apply on_result_steps; [done|]. intros k [= <-]. split; [done|].
        exists (AuditChain.key_to_bytes (AuditChain.key_from_bytes s)). split_and!; [done| |apply AuditChain.key_roundtrip].
        unfold str_len. by rewrite AuditChain.key_length.
Qed.

(** C14 A policy that was saved loads again as that policy, verified.  While it is saved, and
    when the save fails or stops anywhere, loading its id gives what it gave before, or
    this policy, or an error: never a policy nobody saved. *)
Theorem save_policy_atomic io seed p base d :
  readable io -> (forall s, seed = Ok s -> str_len s = 32%Z) ->
  let o := save_policy io seed p base d in
  let load := load_policy io (PolicyV1.policy_id_of p) base in
  (o.1 = Ok tt -> load (final d o) = Ok {| policy := p; signature_verified := true |}) /\
  Forall (fun d' => load d' = load d \/ forall sp, load d' = Ok sp -> policy sp = p) o.2.
Proof.
  intros Hio Hseed o load. pose (path := policy_path (Names.join base "policies") (PolicyV1.policy_id_of p)).
  pose (keyp := signing_key_path base).
  assert (Hdir : policies_dir io base = Ok (Names.join base "policies"))
    by (unfold policies_dir, dir_below; by rewrite (proj1 Hio)).
  pose proof (policy_path_end (Names.join base "policies") (PolicyV1.policy_id_of p)) as Hpe.
  pose proof (sidecar_end (Names.join base "policies") (PolicyV1.policy_id_of p)) as Hse. fold path in Hpe, Hse.
  assert (Hke : name_end keyp = Some "y"%char) by done.
  assert (Hdp : durable path) by (by eapply end_durable).
  assert (Hds : durable (sidecar_path path)) by (by eapply end_durable).
  assert (Hdk : durable keyp) by (by eapply end_durable).
  destruct (policy_to_vec p) as [json|e] eqn:Hj.
  2: { unfold o, save_policy. rewrite Hdir, !in_turn_pure. rewrite Hj. cbn.
       split; [done|]. repeat constructor; by left. }
  assert (Hsteps : steps (saving path (sidecar_path path) keyp json d)
    (fun _ d' => exists k, stored_text path json d' /\
       stored_text (sidecar_path path) (AuditChain.hex_encode (AuditChain.sign k json)) d' /\
       exists text, stored_text keyp text d' /\ str_len text = 32%Z /\ AuditChain.key_from_bytes text = k) d o).
  { unfold o, save_policy. fold path.
    apply (in_turn_steps _ (fun dir d' => dir = Names.join base "policies" /\ d' = d)); [by left| |].
    { apply on_result_steps; [by left|]. rewrite Hdir. by intros ? [= <-]. }
    intros dir d' _ [-> ->]. fold path.
    apply (in_turn_steps _ (fun j d' => j = json /\ d' = d)); [by left| |].
    { apply on_result_steps; [by left|]. rewrite Hj. by intros ? [= <-]. }
    intros j d' _ [-> ->]. apply (in_turn_steps _ (fun _ d' => stored_text path json d')); [by left| |].
    { destruct (write_mode_spec io path json MODE_REGULAR_FILE d) as [Hall Hfin]. split.
      - eapply Forall_impl; [exact Hall|]. cbn. intros d' [[Ho|Hn] Hq]; [left|right; by eexists].
        split_and!; [done|apply Hq; [done|by eapply end_ne]|apply Hq; [done|by eapply end_ne]].
      - intros [] Hok. eexists. by apply Hfin. }
    intros _ d1 _ Hp1.
    apply (in_turn_steps _ (fun k d' => stored_text path json d' /\ exists text, stored_text keyp text d' /\
      str_len text = 32%Z /\ AuditChain.key_from_bytes text = k)); [by right| |].
    { eapply (steps_weaken (stored_text path json)); [intros d'; apply or_intror|intros a d' HQ; exact HQ|].
      apply signing_key_steps; [done..|by eapply end_ne|done]. }
    intros k d2 _ [Hp2 (text & Ht & Hl & Hfrom)].
    destruct (stored_kept path (sidecar_path path) json d2 io (AuditChain.hex_encode (AuditChain.sign k json))
      MODE_PRIVATE_FILE Hdp ltac:(by eapply end_ne) Hp2) as [Ha Hf].
    destruct (stored_kept keyp (sidecar_path path) text d2 io (AuditChain.hex_encode (AuditChain.sign k json))
      MODE_PRIVATE_FILE Hdk ltac:(by eapply end_ne) Ht) as [_ Hfk].
    split; [eapply Forall_impl; [exact Ha|]; intros d'; apply or_intror|].
    intros [] Hok. exists k. split_and!; [done|eexists; by apply (write_mode_spec io (sidecar_path path))|by exists text]. }
  destruct Hsteps as [Hall Hfin]. split.
  - intros Hok. destruct (Hfin tt Hok) as (k & H1 & H2 & H3). by eapply signed_loads.
  - eapply Forall_impl; [exact Hall|]. cbn. intros d' [(H1 & H2 & H3)|Hn].
    + left. apply load_policy_same; [|done]. rewrite Hdir. intros dir [= <-]. by fold path.
    + right. intros sp (dir & contents & Hd' & _ & Hc & Hp & _)%load_policy_iff. rewrite Hdir in Hd'. injection Hd' as <-.
      fold path in Hc. destruct (stored_read io _ _ _ Hio Hn) as [_ Hr]. rewrite Hr in Hc. injection Hc as <-.
      rewrite (policy_roundtrip p json Hj) in Hp. congruence.
Qed.

(** Once saved, changed bytes are refused, unless the old signature covers them too: the
    sidecar decides as long as it is seen. *)
Lemma changed_bytes_refused io id base d sp dir contents :
  policies_dir io base = Ok dir -> exists_at io (sidecar_path (policy_path dir id)) d = true ->
  read_bytes io (policy_path dir id) d = Ok contents -> load_policy io id base d = Ok sp ->
  signed_on_disk io base (sidecar_path (policy_path dir id)) contents d.
Proof.
  intros Hd Hs Hc (dir' & c' & Hd' & _ & Hc' & _ & H)%load_policy_iff. rewrite Hd in Hd'. injection Hd' as <-.
  rewrite Hc in Hc'. injection Hc' as <-. rewrite Hs in H. by destruct H.
Qed.

(** A sidecar whose stat fails is treated as if there were none, although it is there: the
    changed policy is loaded unsigned. *)
Lemma unseen_sidecar_ignored io id base d dir p contents :
  policies_dir io base = Ok dir -> exists_at io (policy_path dir id) d = true ->
  read_bytes io (policy_path dir id) d = Ok contents -> policy_from_slice contents = Ok p ->
  stat_fails io (sidecar_path (policy_path dir id)) = true ->
  load_policy io id base d = Ok {| policy := p; signature_verified := false |}.
Proof.
  intros Hd He Hc Hp Hs. apply load_policy_iff. exists dir, contents. cbv zeta. split_and!; try done.
  unfold exists_at. by rewrite Hs.
Qed.
End Policies.
