(* ===== verification/KeyStore.v ===== *)
(** * API key files

    crates/oc-wallet/src/key_store.rs: one JSON file per API key below [<vault>/keys], with
    the hash of its token.  The codec of key files is the class [KeyJson]. *)

From Stdlib Require Import ZArith Lia Bool String Ascii.
From stdpp Require Import base list strings gmap.
From S2P Require Import Prelude Str Decimal Files Trace Json Bytes Passkey Hd Credential WalletWorld.
From S2P Require AuditChain Vault Names PolicyStore.

Local Open Scope oc_scope.

Class KeyJson {S : SerdeNumber} (json_error : Type) := {
  key_to_json_pretty : ApiKeyFile -> result json_error string;
  key_from_json : string -> result json_error ApiKeyFile
}.

(** A key file reads back; JSON text is UTF-8. *)
Class KeyJsonLaws {S : SerdeNumber} {json_error} (J : KeyJson json_error) : Prop :=
  key_roundtrip k s : key_to_json_pretty k = Ok s -> key_from_json s = Ok k /\ utf8 s = true.

Section Keys.
Context {S : SerdeNumber} {io_error json_error : Type} {A : AuditChain.AuditEnv io_error json_error}.
Context {J : KeyJson json_error}.

Abbreviation wallet_error := (OcWalletError io_error json_error).

(** [random] is the generator's 32 bytes. *)
Definition generate_token (random : bytes) : string := TOKEN_PREFIX +:+ AuditChain.hex_encode random.

Definition hash_token (token : string) : string := AuditChain.hex_encode (AuditChain.sha256 token).

Definition keys_dir (io : DirIo io_error) (base : string) : result wallet_error string := dir_below io base "keys".

Definition key_path (dir id : string) : Path := file_in dir (id +:+ ".json").

Definition save_api_key (io : DirIo io_error) (key : ApiKeyFile) (base : string) : Disk wallet_error unit :=
  let> dir := on_result (keys_dir io base) in
  let path := key_path dir (key_id key) in
  let> json := on_result (result_map_err Json (key_to_json_pretty key)) in
  write_private io path json.

Definition load_api_key (io : DirIo io_error) (id base : string) (d : FS) : result wallet_error ApiKeyFile :=
  let? dir := keys_dir io base in
  let path := key_path dir id in
  if negb (exists_at io path d) then Err (Core ApiKeyNotFound)
  else
    let? contents := result_map_err Io (read_text io path d) in
    result_map_err Json (key_from_json contents).

Definition list_api_keys (io : DirIo io_error) (base : string) (d : FS) : result wallet_error (list ApiKeyFile) :=
  let? dir := keys_dir io base in
  let? keys := list_dir io key_from_json dir d in
  Ok (sort_by key_created_at Lt keys).

Definition load_api_key_by_token_hash (io : DirIo io_error) (h base : string) (d : FS)
  : result wallet_error ApiKeyFile :=
  let? keys := list_api_keys io base d in
  ok_or (Core ApiKeyNotFound) (List.find (fun k => ct_eq (token_hash k) h) keys).

Definition delete_api_key (io : DirIo io_error) (id base : string) : Disk wallet_error unit := fun d =>
  match keys_dir io base with
  | Err e => (Err e, [d])
  | Ok dir =>
      let path := key_path dir id in
      if negb (exists_at io path d) then (Err (Core ApiKeyNotFound), [d])
      else remove_at io path d
  end.

(** ** Lookup by token *)

(** The key in a file of the directory, as the listing meets it. *)
Definition key_at (io : DirIo io_error) (dir : string) (d : FS) (name : string) : option ApiKeyFile :=
  listed_at io key_from_json dir d name.

(** Nothing disturbs the listing. *)
Definition listing_quiet (io : DirIo io_error) : Prop :=
  mkdir_err io = None /\ listing_err io = None /\ listing_entry_err io = None /\
  (forall p, read_fails io p = None) /\ forall l, listing_order io l ≡ₚ l.

Lemma list_api_keys_elem io base d ks k : list_api_keys io base d = Ok ks -> k ∈ ks ->
  exists dir name, keys_dir io base = Ok dir /\ key_at io dir d name = Some k.
Proof.
  unfold list_api_keys. intros H Hk. bind1 H dir Hdir. bind1 H l Hl. injection H as <-.
  rewrite sort_by_perm in Hk. exists dir. unfold list_dir in Hl.
  assert (Hom : l = omap (listed_at io key_from_json dir d) (listing_order io (Vault.names_in dir d)) \/ l = []).
  { destruct (listing_err io) as [[[] ?]|]; [by injection Hl as <-; right|done|].
    destruct (listing_entry_err io) as [[n e]|]; [destruct (_ <=? _)%nat; [done|]|]; injection Hl as <-; by left. }
  destruct Hom as [->| ->]; [|by apply elem_of_nil in Hk].
  apply list_elem_of_omap in Hk as (name & _ & Hn). by exists name.
Qed.

(** A key found by a hash has that hash and is in a file of the directory. *)
Lemma found_key io h base d k : load_api_key_by_token_hash io h base d = Ok k ->
  token_hash k = h /\ exists dir name, keys_dir io base = Ok dir /\ key_at io dir d name = Some k.
Proof.
  unfold load_api_key_by_token_hash. intros H. bind1 H ks Hks.
  destruct (List.find _ ks) as [x|] eqn:Hf; [|done]. injection H as ->.
  apply List.find_some in Hf as [Hin Hh%ct_eq_iff]. split; [done|].
  eapply list_api_keys_elem; [done|]. by apply list_elem_of_In.
Qed.

Lemma names_in_listed io dir d name k : key_at io dir d name = Some k -> name ∈ Vault.names_in dir d.
Proof.
  unfold key_at, listed_at, read_text, read_bytes. intros H. apply Vault.names_in_spec.
  destruct (Vault.json_stem name); [|done]. destruct (read_fails io _); [done|].
  by destruct (d !! (Some dir, Some name)).
Qed.

(** Without disturbance, the only key with a hash is found by it. *)
Lemma unique_key_found io h base d k name :
  listing_quiet io -> key_at io (Names.join base "keys") d name = Some k -> token_hash k = h ->
  (forall n k', key_at io (Names.join base "keys") d n = Some k' -> token_hash k' = h -> k' = k) ->
  load_api_key_by_token_hash io h base d = Ok k.
Proof.
  intros (Hm & Hl & He & Hr & Ho) Hk Hh Hu. set (dir := Names.join base "keys") in *.
  assert (Hdir : keys_dir io base = Ok dir) by (unfold keys_dir, dir_below; by rewrite Hm).
  set (l := omap (listed_at io key_from_json dir d) (listing_order io (Vault.names_in dir d))).
  assert (Hlist : list_api_keys io base d = Ok (sort_by key_created_at Lt l)).
  { unfold list_api_keys, list_dir. by rewrite Hdir, Hl, He. }
  unfold load_api_key_by_token_hash. rewrite Hlist. cbn [result_bind].
  assert (Hin : In k (sort_by key_created_at Lt l)).
  { apply list_elem_of_In. rewrite sort_by_perm. unfold l. apply list_elem_of_omap. exists name. split; [|done].
    rewrite Ho. by eapply names_in_listed. }
  destruct (List.find _ _) as [x|] eqn:Hf.
  - destruct (List.find_some _ _ Hf) as [Hx Hxh%ct_eq_iff]. cbn. f_equal.
    apply list_elem_of_In in Hx. destruct (list_api_keys_elem io base d _ x Hlist Hx) as (dir' & n & Hd' & Hn).
    rewrite Hdir in Hd'. injection Hd' as <-. by apply (Hu n).
  - exfalso. pose proof (List.find_none _ _ Hf k Hin) as Hnone. cbn in Hnone.
    rewrite (proj2 (ct_eq_iff (token_hash k) h) Hh) in Hnone. done.
Qed.

(** ** Saving *)

Context {JL : KeyJsonLaws J}.

Lemma file_in_plain dir id : contains_byte "/" id = false -> file_in dir (id +:+ ".json") = (Some dir, Some (id +:+ ".json")).
Proof.
  intros Hid. unfold file_in. rewrite PolicyStore.rsplit_suffix by done.
  assert (Hn : rsplit_slash id = None).
  { induction id as [|c id IH]; [done|]. rewrite contains_byte_cons in Hid. apply orb_false_iff in Hid as [Hc Hid].
    cbn [rsplit_slash]. by rewrite (IH Hid), Hc. }
  by rewrite Hn.
Qed.

(** A save writes the key into the file of its id and leaves the others alone. *)
Lemma save_key_spec io key base d :
  mkdir_err io = None -> contains_byte "/" (key_id key) = false ->
  let o := save_api_key io key base d in
  let dir := Names.join base "keys" in
  (o.1 = Ok tt -> exists json, key_to_json_pretty key = Ok json /\
     final d o !! (Some dir, Some (key_id key +:+ ".json")) =
       Some {| file_mode := MODE_PRIVATE_FILE; file_content := json |}) /\
  Forall (fun d' => forall q, durable q -> q <> (Some dir, Some (key_id key +:+ ".json")) -> d' !! q = d !! q) o.2.
Proof.
  intros Hm Hid o dir. unfold o, save_api_key.
  assert (Hdir : keys_dir io base = Ok dir) by (unfold keys_dir, dir_below; by rewrite Hm).
  rewrite Hdir, in_turn_pure, in_turn_pure. unfold key_path. rewrite file_in_plain by done.
  destruct (key_to_json_pretty key) as [json|e]; cbn [result_map_err].
  2: { cbn. split; [done|]. by repeat constructor. }
  destruct (write_mode_spec io (Some dir, Some (key_id key +:+ ".json")) json MODE_PRIVATE_FILE d) as [Hall Hfin].
  unfold write_private. unfold final in *. destruct (write_mode _ _ _ _ _) as [r t]. cbn [fst snd] in *. split.
  - intros ->. exists json. split; [done|]. specialize (Hfin eq_refl). unfold final in *. cbn [fst snd] in *.
    change (d :: d :: t) with ([d; d] ++ t). rewrite last_app_default. cbn. done.
  - repeat constructor; try done. eapply Forall_impl; [exact Hall|]. cbn. naive_solver.
Qed.
End Keys.
