(* ===== verification/WalletOps.v ===== *)
(** * Wallet operations

    crates/oc-wallet/src/ops.rs up to signing: creating, importing, listing, exporting,
    renaming and deleting wallets, and the key of a wallet for a chain.  Composes [Vault],
    [Credential] (envelopes), [Hd] (derivation and its cache) and [Chain].  The signers are
    [ChainKey.Signers] with [ChainSupport]; the codecs of JSON are classes.

    What an operation reads of the world is [OpsIo]; the process has the cache of derived
    keys and the interner of chain ids ([Proc]). *)

From Stdlib Require Import ZArith Lia Bool String Ascii.
From stdpp Require Import base list strings gmap.
From S2P Require Import Prelude Str Files Trace Json Bytes Passkey WalletFile Hd Credential WalletWorld.
From S2P Require AuditChain Vault Chain ChainKey Enclave KeyCache.

Local Open Scope oc_scope.

(** serde_json on envelopes and on plain values. *)
Class EnvelopeJson {S : SerdeNumber} (json_error : Type) := {
  envelope_to_value : AgeEnvelope -> result json_error Value;
  envelope_from_value : Value -> result json_error AgeEnvelope;
  value_to_text : Value -> result json_error string;
  value_from_text : string -> result json_error Value
}.

(** They read back what they wrote; the members of an object are found again. *)
Class EnvelopeJsonLaws {S : SerdeNumber} {json_error} (J : EnvelopeJson json_error) : Prop := {
  envelope_roundtrip e v : envelope_to_value e = Ok v -> envelope_from_value v = Ok e;
  value_text_roundtrip v s : value_to_text v = Ok s ->
    exists v', value_from_text s = Ok v' /\ forall k, value_get k v' = value_get k v
}.

(** Which chains are compiled in. *)
Class ChainSupport := { xrpl_compiled : bool }.

Definition is_available {C : ChainSupport} (ct : Chain.ChainType) : bool :=
  match ct with Chain.Xrpl => xrpl_compiled | _ => true end.

Record AccountInfo := { info_chain_id : string; info_address : string; info_path : string }.

Record WalletInfo := {
  info_id : string;
  info_name : string;
  info_accounts : list AccountInfo;
  info_created_at : string
}.

(** The vault calls of an operation in order, the clock and the generator. *)
Record OpsIo (io_error : Type) := {
  vault_call : nat -> Vault.VaultIo io_error;
  clock_text : string;
  new_uuid : string;
  entropy : nat -> bytes;
  random_key : result string bytes;
  seal_rand : Z
}.
Arguments vault_call {io_error}.
Arguments clock_text {io_error}.
Arguments new_uuid {io_error}.
Arguments entropy {io_error}.
Arguments random_key {io_error}.
Arguments seal_rand {io_error}.

(** The process. *)
Record Proc := { key_cache : Keys; interner : Chain.Interner }.

Definition set_cache (c : Keys) (p : Proc) : Proc := {| key_cache := c; interner := interner p |}.
Definition set_interner (i : Chain.Interner) (p : Proc) : Proc := {| key_cache := key_cache p; interner := i |}.

Section Ops.
Context {S : SerdeNumber} {io_error json_error : Type} {A : AuditChain.AuditEnv io_error json_error}.
Context {D : ChainKey.Display json_error} {L : Lowercase} {H : HdCrypto} {G : AgeFile}.
Context {VJ : Vault.WalletJson io_error json_error} {EJ : EnvelopeJson json_error}.
Context {GS : ChainKey.Signers} {CS : ChainSupport}.

Abbreviation wallet_error := (OcWalletError io_error json_error).
Abbreviation wallet_result := (result wallet_error).

(** [?] on a vault's error. *)
Definition from_vault {B} (r : result (Vault.OcVaultError io_error json_error) B) : wallet_result B :=
  result_map_err (of_vault_error AuditChain.show_io ChainKey.show_json) r.

Definition wallet_to_info (w : EncryptedWallet) : WalletInfo := {|
  info_id := id w;
  info_name := name w;
  info_accounts := map (fun a => {| info_chain_id := chain_id a; info_address := address a;
                                    info_path := derivation_path a |}) (accounts w);
  info_created_at := created_at w
|}.

Definition parse_chain (s : string) (p : Proc) : wallet_result Chain.Chain * Proc :=
  let '(r, i) := Chain.parse_chain s (interner p) in
  (result_map_err InvalidInput r, set_interner i p).

(** The id of a chain type's default chain; [Chain.default_chain_total]: it has one. *)
Definition default_chain_id (ct : Chain.ChainType) : string :=
  match Chain.default_chain_for_type ct with Ret c => Chain.chain_id c | Panic => "" end.

Definition account_of (ct : Chain.ChainType) (addr path : string) : WalletAccount := {|
  account_id := default_chain_id ct +:+ ":" +:+ addr; address := addr;
  chain_id := default_chain_id ct; derivation_path := path
|}.

Definition available_chains : list Chain.ChainType := List.filter is_available Chain.ALL_CHAIN_TYPES.

Definition account_at (m : Mnemonic) (index : Z) (ct : Chain.ChainType) : wallet_result WalletAccount :=
  let path := default_derivation_path ct index in
  let? key := result_map_err Hd (derive_from_mnemonic m "" path (chain_curve ct)) in
  let? addr := result_map_err Signer (ChainKey.derive_address ct key) in
  Ok (account_of ct addr path).

Definition derive_all_accounts (m : Mnemonic) (index : Z) : wallet_result (list WalletAccount) :=
  collect (account_at m index) available_chains.

(** ** Key pairs *)

Record KeyPair := { secp256k1 : bytes; ed25519 : bytes }.

Definition key_for_curve (k : KeyPair) (c : ChainKey.Curve) : bytes :=
  match c with ChainKey.Secp256k1 => secp256k1 k | ChainKey.Ed25519Curve => ed25519 k end.

(** [SecretBytes::from_vec(..).map_err(CryptoError::from)?]. *)
Definition secret_bytes (b : bytes) : wallet_result bytes := locked (fun e => Crypto (of_guard e)) b.

Definition key_pair_value (k : KeyPair) : Value :=
  Object (object_insert "ed25519" (VString (AuditChain.hex_encode (ed25519 k)))
         (object_insert "secp256k1" (VString (AuditChain.hex_encode (secp256k1 k))) [])).

Definition to_json_bytes (k : KeyPair) : wallet_result bytes :=
  let? raw := result_map_err Json (value_to_text (key_pair_value k)) in
  secret_bytes (str_bytes raw).

Definition hex_member (obj : Value) (field : string) : wallet_result string :=
  ok_or (InvalidInput ("missing " +:+ field +:+ " key")) (value_get field obj ≫= as_str).

Definition from_json_bytes (b : bytes) : wallet_result KeyPair :=
  let? obj := result_map_err Json (value_from_text (Enclave.bytes_string b)) in
  let? secp := hex_member obj "secp256k1" in
  let? ed := hex_member obj "ed25519" in
  let? secp_bytes := result_map_err (fun e => InvalidInput ("invalid secp256k1 hex: " +:+ e)) (AuditChain.hex_decode secp) in
  let? ed_bytes := result_map_err (fun e => InvalidInput ("invalid ed25519 hex: " +:+ e)) (AuditChain.hex_decode ed) in
  let? s := secret_bytes secp_bytes in
  let? e := secret_bytes ed_bytes in
  Ok {| secp256k1 := s; ed25519 := e |}.

Definition account_of_keys (keys : KeyPair) (ct : Chain.ChainType) : wallet_result WalletAccount :=
  let? addr := result_map_err Signer (ChainKey.derive_address ct (key_for_curve keys (chain_curve ct))) in
  Ok (account_of ct addr "").

Definition derive_all_accounts_from_keys (keys : KeyPair) : wallet_result (list WalletAccount) :=
  collect (account_of_keys keys) available_chains.

(** The key of a chain from a wallet's secret. *)
Definition secret_to_signing_key (clock : CacheClock) (secret : bytes) (kt : KeyType) (ct : Chain.ChainType)
    (index : option Z) (p : Proc) : wallet_result bytes * Proc :=
  match kt with
  | WalletFile.Mnemonic =>
      let phrase := Enclave.bytes_string secret in
      if negb (utf8 phrase) then (Err (InvalidInput "wallet contains invalid UTF-8 mnemonic"), p)
      else match from_phrase phrase with
           | Err e => (Err (MnemonicFailed e), p)
           | Ok m =>
               let path := default_derivation_path ct (default 0%Z index) in
               let '(r, c) := derive_from_mnemonic_cached clock m "" path (chain_curve ct) (key_cache p) in
               (result_map_err Hd r, set_cache c p)
           end
  | PrivateKey =>
      (let? keys := from_json_bytes secret in secret_bytes (key_for_curve keys (chain_curve ct)), p)
  end.

(** ** Phrases and addresses *)

Definition BAD_WORDS : wallet_error := InvalidInput "words must be 12, 15, 18, 21, or 24".

(** [MnemonicStrength] as the bytes of its entropy. *)
Definition strength (words : Z) : wallet_result nat :=
  if (words =? 12)%Z then Ok 16%nat
  else if (words =? 15)%Z then Ok 20%nat
  else if (words =? 18)%Z then Ok 24%nat
  else if (words =? 21)%Z then Ok 28%nat
  else if (words =? 24)%Z then Ok 32%nat
  else Err BAD_WORDS.

Definition generate_mnemonic (io : OpsIo io_error) (words : Z) : wallet_result bytes :=
  let? n := strength words in
  result_map_err MnemonicFailed (phrase_of (from_entropy (entropy io n))).

(** A phrase copied into locked memory and parsed. *)
Definition parsed_phrase (phrase : string) : wallet_result Mnemonic :=
  let? hardened := secret_bytes (str_bytes phrase) in
  let text := Enclave.bytes_string hardened in
  if negb (utf8 text) then Err (InvalidInput "invalid UTF-8 in mnemonic")
  else result_map_err MnemonicFailed (from_phrase text).

Definition derive_address (phrase chain : string) (index : option Z) (p : Proc) : wallet_result string * Proc :=
  match parse_chain chain p with
  | (Err e, p) => (Err e, p)
  | (Ok chain, p) =>
      let ct := Chain.chain_type chain in
      (let? m := parsed_phrase phrase in
       let path := default_derivation_path ct (default 0%Z index) in
       let? key := result_map_err Hd (derive_from_mnemonic m "" path (chain_curve ct)) in
       result_map_err Signer (ChainKey.derive_address ct key), p)
  end.

(** ** Creating and importing *)

(** [wallet_name_exists(..)?], and the refusal. *)
Definition name_free (io : OpsIo io_error) (nm : string) (vault : option string) (d : FS) : wallet_result unit :=
  let? taken := from_vault (Vault.wallet_name_exists (vault_call io 0) nm vault d) in
  if (taken : bool) then Err (WalletNameExists nm) else Ok tt.

(** A secret sealed into a new wallet file. *)
Definition sealed_wallet (io : OpsIo io_error) (nm : string) (accs : list WalletAccount) (secret : bytes)
    (passphrase : string) (kt : KeyType) : wallet_result EncryptedWallet :=
  let? envelope := result_map_err Crypto (encrypt_with_passphrase (seal_rand io) secret (str_bytes passphrase)) in
  let? crypto_json := result_map_err Json (envelope_to_value envelope) in
  Ok (wallet_new (clock_text io) (new_uuid io) nm accs crypto_json kt).

Definition save_wallet (io : OpsIo io_error) (w : EncryptedWallet) (vault : option string) : Disk wallet_error unit :=
  fun d => let '(r, trace) := Vault.save_encrypted_wallet (vault_call io 1) w vault d in (from_vault r, trace).

(** The new wallet of an operation saved. *)
Definition store_new (io : OpsIo io_error) (w : wallet_result EncryptedWallet) (vault : option string)
  : Disk wallet_error WalletInfo :=
  let> w := on_result w in
  let> _ := save_wallet io w vault in
  on_result (Ok (wallet_to_info w)).

Definition mnemonic_wallet (io : OpsIo io_error) (nm passphrase : string) (m : Mnemonic) (index : Z)
  : wallet_result EncryptedWallet :=
  let? accs := derive_all_accounts m index in
  let? phrase := result_map_err MnemonicFailed (phrase_of m) in
  sealed_wallet io nm accs phrase passphrase WalletFile.Mnemonic.

Definition create_wallet (io : OpsIo io_error) (nm : string) (words : option Z) (passphrase : option string)
    (vault : option string) : Disk wallet_error WalletInfo :=
  let> n := on_result (strength (default 12%Z words)) in
  let> _ := on_disk_of (name_free io nm vault) in
  store_new io (mnemonic_wallet io nm (default "" passphrase) (from_entropy (entropy io n)) 0) vault.

Definition import_wallet_mnemonic (io : OpsIo io_error) (nm phrase : string) (passphrase : option string)
    (index : option Z) (vault : option string) : Disk wallet_error WalletInfo :=
  let> _ := on_disk_of (name_free io nm vault) in
  store_new io (let? m := parsed_phrase phrase in
                mnemonic_wallet io nm (default "" passphrase) m (default 0%Z index)) vault.

Definition decode_hex_key (hex_str : string) : wallet_result bytes :=
  let trimmed := default hex_str (strip_prefix "0x" hex_str) in
  result_map_err (fun e => InvalidInput ("invalid hex private key: " +:+ e)) (AuditChain.hex_decode trimmed).

Definition given_key (hex_str : string) : wallet_result bytes :=
  let? b := decode_hex_key hex_str in secret_bytes b.

Definition generate_random (io : OpsIo io_error) : wallet_result bytes :=
  let? b := result_map_err (fun e => InvalidInput ("failed to generate random key: " +:+ e)) (random_key io) in
  secret_bytes b.

(** The complementary key: given, or random. *)
Definition other_key (io : OpsIo io_error) (hex_str : option string) : wallet_result bytes :=
  match hex_str with Some h => given_key h | None => generate_random io end.

Definition source_curve (chain : option string) (p : Proc) : wallet_result ChainKey.Curve * Proc :=
  match chain with
  | Some c => let '(r, p) := parse_chain c p in (result_map (fun c => chain_curve (Chain.chain_type c)) r, p)
  | None => (Ok ChainKey.Secp256k1, p)
  end.

Definition imported_keys (io : OpsIo io_error) (private_key_hex : string) (chain secp_hex ed_hex : option string)
    (p : Proc) : wallet_result KeyPair * Proc :=
  match secp_hex, ed_hex with
  | Some secp, Some ed =>
      (let? s := given_key secp in let? e := given_key ed in Ok {| secp256k1 := s; ed25519 := e |}, p)
  | _, _ =>
      match decode_hex_key private_key_hex with
      | Err e => (Err e, p)
      | Ok key_bytes =>
          let '(r, p) := source_curve chain p in
          (let? curve := r in
           match curve with
           | ChainKey.Secp256k1 =>
               let? s := secret_bytes key_bytes in
               let? e := other_key io ed_hex in
               Ok {| secp256k1 := s; ed25519 := e |}
           | ChainKey.Ed25519Curve =>
               let? e := secret_bytes key_bytes in
               let? s := other_key io secp_hex in
               Ok {| secp256k1 := s; ed25519 := e |}
           end, p)
      end
  end.

Definition key_pair_wallet (io : OpsIo io_error) (nm passphrase : string) (keys : KeyPair) : wallet_result EncryptedWallet :=
  let? accs := derive_all_accounts_from_keys keys in
  let? payload := to_json_bytes keys in
  sealed_wallet io nm accs payload passphrase PrivateKey.

Definition import_wallet_private_key (io : OpsIo io_error) (nm private_key_hex : string) (chain passphrase vault : option string)
    (secp_hex ed_hex : option string) (p : Proc) (d : FS) : (wallet_result WalletInfo * list FS) * Proc :=
  match name_free io nm vault d with
  | Err e => ((Err e, [d]), p)
  | Ok _ =>
      let '(r, p) := imported_keys io private_key_hex chain secp_hex ed_hex p in
      (store_new io (let? keys := r in key_pair_wallet io nm (default "" passphrase) keys) vault d, p)
  end.

(** ** The vault's wallets *)

Definition load_wallet (io : OpsIo io_error) (name_or_id : string) (vault : option string) (d : FS)
  : wallet_result EncryptedWallet :=
  from_vault (Vault.load_wallet_by_name_or_id (vault_call io 0) name_or_id vault d).

Definition list_wallets (io : OpsIo io_error) (vault : option string) (d : FS) : wallet_result (list WalletInfo) :=
  let? ws := from_vault (Vault.list_encrypted_wallets (vault_call io 0) vault d) in
  Ok (map wallet_to_info ws).

Definition get_wallet (io : OpsIo io_error) (name_or_id : string) (vault : option string) (d : FS)
  : wallet_result WalletInfo :=
  let? w := load_wallet io name_or_id vault d in Ok (wallet_to_info w).

Definition delete_wallet (io : OpsIo io_error) (name_or_id : string) (vault : option string) : Disk wallet_error unit :=
  let> w := on_disk_of (load_wallet io name_or_id vault) in
  fun d => let '(r, d') := Vault.delete_wallet_file (vault_call io 1) (id w) vault d in (from_vault r, [d']).

(** The secret of a loaded wallet under a passphrase. *)
Definition opened_wallet (w : EncryptedWallet) (passphrase : bytes) : wallet_result bytes :=
  let? envelope := result_map_err Json (envelope_from_value (crypto w)) in
  result_map_err Crypto (decrypt_with_passphrase envelope passphrase).

Definition export_wallet (io : OpsIo io_error) (name_or_id : string) (passphrase vault : option string) (d : FS)
  : wallet_result bytes :=
  let? w := load_wallet io name_or_id vault d in
  opened_wallet w (str_bytes (default "" passphrase)).

Definition renamed (w : EncryptedWallet) (nm : string) : EncryptedWallet := {|
  oc_version := oc_version w; id := id w; name := nm; created_at := created_at w; chain_type := chain_type w;
  accounts := accounts w; crypto := crypto w; key_type := key_type w; metadata := metadata w
|}.

Definition rename_wallet (io : OpsIo io_error) (name_or_id new_name : string) (vault : option string)
  : Disk wallet_error unit := fun d =>
  match load_wallet io name_or_id vault d with
  | Err e => (Err e, [d])
  | Ok w =>
      if String.eqb (name w) new_name then (Ok tt, [d])
      else
        match from_vault (Vault.wallet_name_exists (vault_call io 2) new_name vault d) with
        | Err e => (Err e, [d])
        | Ok true => (Err (WalletNameExists new_name), [d])
        | Ok false => save_wallet io (renamed w new_name) vault d
        end
  end.

(** The key of a wallet for a chain, with the owner's passphrase. *)
Definition decrypt_signing_key (io : OpsIo io_error) (clock : CacheClock) (name_or_id : string) (ct : Chain.ChainType)
    (passphrase : bytes) (index : option Z) (vault : option string) (d : FS) (p : Proc) : wallet_result bytes * Proc :=
  match (let? w := load_wallet io name_or_id vault d in
         let? secret := opened_wallet w passphrase in Ok (w, secret)) with
  | Err e => (Err e, p)
  | Ok (w, secret) => secret_to_signing_key clock secret (key_type w) ct index p
  end.
End Ops.
