(* ===== verification/KeyOps.v ===== *)
(** * API keys and what they may sign

    crates/oc-wallet/src/key_ops.rs: creating an API key for some wallets, and signing with
    its token under the policies of the key.  Composes [KeyStore], [PolicyStore], [Vault],
    the v1 policy engine ([PolicyV1]) and the operations of [WalletOps].

    A policy's program may never end: the answer of an operation is an option, [None] when
    it does not come ([token_answers]: it does when polls take time). *)

From Stdlib Require Import ZArith Lia Bool String Ascii.
From stdpp Require Import base list strings gmap.
From S2P Require Import Prelude Str Files Trace Json Bytes Passkey Hd Credential WalletWorld PolicyStore KeyStore WalletOps.
From S2P Require AuditChain Vault Chain ChainKey WalletFile PolicyV1.

Local Open Scope oc_scope.

(** What policy evaluation calls: the arguments of [PolicyV1.evaluate_policies]. *)
Class PolicyEnv {S : SerdeNumber} := {
  spawn : string -> result string PolicyV1.Child;
  context_to_value : PolicyV1.PolicyContext -> result string Value;
  value_to_vec : Value -> result string bytes;
  context_to_vec : PolicyV1.PolicyContext -> result string bytes;
  verdict_from_slice : bytes -> result string PolicyV1.PolicyResult;
  from_utf8_lossy : bytes -> string;
  rfc3339_to_unix : string -> option Z
}.

(** jiff's parser of timestamps, in nanoseconds. *)
Class Jiff := { parse_timestamp : string -> result string Z }.

(** [alloy]'s typed data, and [Value::as_u64]. *)
Record TypedData {S : SerdeNumber} := { domain : list (string * Value); primary_type : string }.

(** What the signers of [ChainKey.Signers] lack: raw signing, the EIP-712 parser of the
    signer crate, and a JSON number as [u64]. *)
Class MoreSigners {S : SerdeNumber} := {
  sign_raw : Chain.ChainType -> bytes -> bytes -> result string ChainKey.SignOutput;
  parse_typed_data : string -> result string TypedData;
  number_as_u64 : number -> option Z
}.

(** What a signing operation reads: the disk calls of its stores, two clocks. *)
Record SignIo (io_error : Type) := {
  key_dir : DirIo io_error;
  policy_dir : DirIo io_error;
  ops_io : OpsIo io_error;
  cache_clock : CacheClock;
  expiry_now : Z;
  context_now : string;
  context_date : string
}.
Arguments key_dir {io_error}.
Arguments policy_dir {io_error}.
Arguments ops_io {io_error}.
Arguments cache_clock {io_error}.
Arguments expiry_now {io_error}.
Arguments context_now {io_error}.
Arguments context_date {io_error}.

Record SignResult := { sig_hex : string; sig_recovery_id : option Z }.

Section KeyOps.
Context {S : SerdeNumber} {io_error json_error : Type} {A : AuditChain.AuditEnv io_error json_error}.
Context {D : ChainKey.Display json_error} {L : Lowercase} {H : HdCrypto} {G : AgeFile}.
Context {VJ : Vault.WalletJson io_error json_error} {EJ : EnvelopeJson json_error}.
Context {KJ : KeyJson json_error} {PJ : PolicyJson json_error}.
Context {GS : ChainKey.Signers} {CS : ChainSupport} {MS : MoreSigners} {PE : PolicyEnv} {T : Jiff} {C : Chain.Caip}.

Abbreviation wallet_error := (OcWalletError io_error json_error).
Abbreviation wallet_result := (result wallet_error).

(** The vault's root, as [resolve_vault_path] gives it. *)
Definition vault_base (io : OpsIo io_error) (vault : option string) : string :=
  Vault.resolve_vault_path (vault_call io 0) vault.

(** ** Creating a key *)

(** One wallet's secret, opened with the owner's passphrase and sealed for the token. *)
Definition shared_secret (io : OpsIo io_error) (token passphrase wallet_id : string) (vault : option string) (d : FS)
  : wallet_result (string * Value) :=
  let? w := load_wallet io wallet_id vault d in
  let? secret := opened_wallet w (str_bytes passphrase) in
  let? recipient := result_map_err Crypto (token_recipient token) in
  let? envelope := result_map_err Crypto (encrypt_to_recipients (seal_rand io) secret [recipient]) in
  let? envelope_json := result_map_err Json (envelope_to_value envelope) in
  Ok (WalletFile.id w, envelope_json).

(** What the creation of a key reads. *)
Record CreateIo := {
  create_keys : DirIo io_error;
  create_policies : DirIo io_error;
  create_ops : OpsIo io_error;
  token_random : bytes;
  now_text : string
}.

Definition create_api_key_with_secret_permissions (io : CreateIo) (nm : string) (wallets policies : list string)
    (passphrase : string) (expires : option string) (permissions : SecretPermissions) (vault : option string)
  : Disk wallet_error (string * ApiKeyFile) := fun d =>
  let token := generate_token (token_random io) in
  let base := vault_base (create_ops io) vault in
  (let> secrets := on_disk_of (fun d => collect (fun wid => shared_secret (create_ops io) token passphrase wid vault d) wallets) in
   let> _ := on_disk_of (fun d => collect (fun pid => load_policy (create_policies io) pid base d) policies) in
   let> recipient := on_result (result_map_err Crypto (token_recipient token)) in
   let key_file := {|
     key_id := new_uuid (create_ops io); key_name := nm; token_hash := hash_token token; recipient := recipient;
     key_created_at := now_text io; wallet_ids := map fst secrets; policy_ids := policies; expires_at := expires;
     wallet_secrets := foldl (fun m kv => <[kv.1 := kv.2]> m) ∅ secrets; secret_permissions := permissions
   |} in
   let> _ := save_api_key (create_keys io) key_file base in
   on_result (Ok (token, key_file))) d.

Definition create_api_key (io : CreateIo) (nm : string) (wallets policies : list string) (passphrase : string)
    (expires vault : option string) : Disk wallet_error (string * ApiKeyFile) :=
  create_api_key_with_secret_permissions io nm wallets policies passphrase expires no_permissions vault.

(** ** The gate *)

Definition check_expiry (io : SignIo io_error) (key : ApiKeyFile) : wallet_result unit :=
  match expires_at key with
  | None => Ok tt
  | Some expires =>
      let? exp := result_map_err (fun e => Core (CoreInvalidInput
        ("invalid expires_at timestamp '" +:+ expires +:+ "': " +:+ e))) (parse_timestamp expires) in
      if (exp <? expiry_now io)%Z then Err (Core (ApiKeyExpired (key_id key))) else Ok tt
  end.

Definition load_policies_for_key (io : DirIo io_error) (key : ApiKeyFile) (base : string) (d : FS)
  : wallet_result (list PolicyV1.Policy) :=
  collect (fun pid => result_map policy (load_policy io pid base d)) (policy_ids key).

(** The key of the token, and a wallet in its scope. *)
Definition key_and_wallet (io : SignIo io_error) (token name_or_id : string) (vault : option string) (d : FS)
  : wallet_result (ApiKeyFile * WalletFile.EncryptedWallet) :=
  let? key := load_api_key_by_token_hash (key_dir io) (hash_token token) (vault_base (ops_io io) vault) d in
  let? _ := check_expiry io key in
  let? w := load_wallet (ops_io io) name_or_id vault d in
  if negb (existsb (String.eqb (WalletFile.id w)) (wallet_ids key)) then
    Err (InvalidInput ("API key '" +:+ key_name key +:+ "' does not have access to wallet '" +:+ WalletFile.id w +:+ "'"))
  else Ok (key, w).

Definition no_transaction (raw_hex : string) : PolicyV1.TransactionContext :=
  {| PolicyV1.to := None; PolicyV1.value := None; PolicyV1.raw_hex := raw_hex; PolicyV1.data := None |}.

Definition noop_spending_context (date : string) : PolicyV1.SpendingContext :=
  {| PolicyV1.daily_total := "0"; PolicyV1.date := date |}.

Definition policy_context (io : SignIo io_error) (key : ApiKeyFile) (w : WalletFile.EncryptedWallet) (chain : Chain.Chain)
    (raw_hex : string) (typed : option PolicyV1.TypedDataContext) : PolicyV1.PolicyContext := {|
  PolicyV1.chain_id := Chain.chain_id chain; PolicyV1.wallet_id := WalletFile.id w;
  PolicyV1.api_key_id := key_id key; PolicyV1.transaction := no_transaction raw_hex;
  PolicyV1.spending := noop_spending_context (context_date io); PolicyV1.timestamp := context_now io;
  PolicyV1.typed_data := typed
|}.

Definition evaluate (ps : list PolicyV1.Policy) (ctx : PolicyV1.PolicyContext) : option PolicyV1.PolicyResult :=
  PolicyV1.evaluate_policies spawn context_to_value value_to_vec context_to_vec verdict_from_slice from_utf8_lossy
    to_lowercase rfc3339_to_unix ps ctx.

Definition denial (r : PolicyV1.PolicyResult) : wallet_error :=
  Core (PolicyDenied (default "" (PolicyV1.policy_id r)) (default "denied" (PolicyV1.reason r))).

Definition decrypt_key_from_api_key (io : SignIo io_error) (key : ApiKeyFile) (w : WalletFile.EncryptedWallet)
    (token : string) (ct : Chain.ChainType) (index : option Z) (p : Proc) : wallet_result bytes * Proc :=
  match (let? value := ok_or (InvalidInput ("API key has no encrypted secret for wallet " +:+ WalletFile.id w))
                         (wallet_secrets key !! WalletFile.id w) in
         let? envelope := result_map_err Json (envelope_from_value value) in
         let? identity := result_map_err Crypto (token_identity token) in
         if negb (ct_eq (to_recipient_string identity) (recipient key)) then
           Err (InvalidInput "API token does not match key recipient")
         else result_map_err Crypto (decrypt_with_identity envelope identity)) with
  | Err e => (Err e, p)
  | Ok secret => secret_to_signing_key (cache_clock io) secret (WalletFile.key_type w) ct index p
  end.

(** The policies of the key on a context, then the key itself. *)
Definition policies_then_key (io : SignIo io_error) (token : string) (key : ApiKeyFile) (w : WalletFile.EncryptedWallet)
    (chain : Chain.Chain) (raw_hex : string) (typed : option PolicyV1.TypedDataContext) (index : option Z)
    (vault : option string) (d : FS) (p : Proc) : option (wallet_result bytes) * Proc :=
  match load_policies_for_key (policy_dir io) key (vault_base (ops_io io) vault) d with
  | Err e => (Some (Err e), p)
  | Ok policies =>
      match evaluate policies (policy_context io key w chain raw_hex typed) with
      | None => (None, p)
      | Some r =>
          if negb (PolicyV1.allow r) then (Some (Err (denial r)), p)
          else let '(k, p) := decrypt_key_from_api_key io key w token (Chain.chain_type chain) index p in (Some k, p)
      end
  end.

Definition enforce_policy_and_decrypt_key_with_raw_hex (io : SignIo io_error) (token name_or_id : string)
    (chain : Chain.Chain) (raw_hex : string) (index : option Z) (vault : option string) (d : FS) (p : Proc)
  : option (wallet_result (bytes * ApiKeyFile)) * Proc :=
  match key_and_wallet io token name_or_id vault d with
  | Err e => (Some (Err e), p)
  | Ok (key, w) =>
      let '(r, p) := policies_then_key io token key w chain raw_hex None index vault d p in
      (option_map (result_map (fun k => (k, key))) r, p)
  end.

Definition enforce_policy_and_decrypt_key (io : SignIo io_error) (token name_or_id : string) (chain : Chain.Chain)
    (tx_bytes : bytes) (index : option Z) (vault : option string) (d : FS) (p : Proc)
  : option (wallet_result (bytes * ApiKeyFile)) * Proc :=
  enforce_policy_and_decrypt_key_with_raw_hex io token name_or_id chain (AuditChain.hex_encode tx_bytes) index vault d p.

(** ** Signing *)

Definition sign_result (o : result string ChainKey.SignOutput) : wallet_result SignResult :=
  let? output := result_map_err Signer o in
  Ok {| sig_hex := AuditChain.hex_encode (ChainKey.signature output); sig_recovery_id := ChainKey.recovery_id output |}.

(** What follows the key, in each of the operations below. *)
Definition with_key (r : option (wallet_result (bytes * ApiKeyFile)) * Proc) (k : bytes -> wallet_result SignResult)
  : option (wallet_result SignResult) * Proc :=
  let '(r, p) := r in (option_map (fun r => let? key := r in k key.1) r, p).

Definition sign_tx (ct : Chain.ChainType) (key tx_bytes : bytes) : wallet_result SignResult :=
  let? signable := result_map_err Signer (ChainKey.extract_signable_bytes ct tx_bytes) in
  sign_result (ChainKey.sign_transaction ct key signable).

Definition sign_with_api_key (io : SignIo io_error) (token name_or_id : string) (chain : Chain.Chain) (tx_bytes : bytes)
    (index : option Z) (vault : option string) (d : FS) (p : Proc) : option (wallet_result SignResult) * Proc :=
  with_key (enforce_policy_and_decrypt_key_with_raw_hex io token name_or_id chain (AuditChain.hex_encode tx_bytes) index
              vault d p)
    (fun key => sign_tx (Chain.chain_type chain) key tx_bytes).

Definition sign_message_with_api_key (io : SignIo io_error) (token name_or_id : string) (chain : Chain.Chain)
    (msg_bytes : bytes) (index : option Z) (vault : option string) (d : FS) (p : Proc)
  : option (wallet_result SignResult) * Proc :=
  with_key (enforce_policy_and_decrypt_key_with_raw_hex io token name_or_id chain (AuditChain.hex_encode msg_bytes) index
              vault d p)
    (fun key => sign_result (ChainKey.sign_message (Chain.chain_type chain) key (Enclave.bytes_string msg_bytes))).

Definition sign_hash_with_api_key (io : SignIo io_error) (token name_or_id : string) (chain : Chain.Chain)
    (policy_bytes hash_bytes : bytes) (index : option Z) (vault : option string) (d : FS) (p : Proc)
  : option (wallet_result SignResult) * Proc :=
  with_key (enforce_policy_and_decrypt_key_with_raw_hex io token name_or_id chain (AuditChain.hex_encode policy_bytes)
              index vault d p)
    (fun key => sign_result (sign_raw (Chain.chain_type chain) key hash_bytes)).

(** ** Typed data *)

Definition parse_domain_chain_id (v : Value) : option Z :=
  match as_str v ≫= parse_unsigned u64_max with
  | Some n => Some n
  | None => match v with Number n => number_as_u64 n | _ => None end
  end.

Definition member (k : string) (m : list (string * Value)) : option Value := value_get k (Object m).

Definition domain_chain (parsed : TypedData) : option Z := member "chainId" (domain parsed) ≫= parse_domain_chain_id.

Definition check_domain_chain (chain : Chain.Chain) (parsed : TypedData) : wallet_result unit :=
  match domain_chain parsed with
  | None => Ok tt
  | Some domain_chain_id =>
      let? expected := result_map_err InvalidInput (Chain.evm_chain_id_u64 chain) in
      if negb (expected =? domain_chain_id)%Z then
        Err (InvalidInput ("EIP-712 domain chainId (" +:+ fmt_Z domain_chain_id +:+ ") does not match requested chain (" +:+
          Chain.chain_id chain +:+ ")"))
      else Ok tt
  end.

Definition typed_data_context (parsed : TypedData) (raw_json : string) : PolicyV1.TypedDataContext := {|
  PolicyV1.verifying_contract := member "verifyingContract" (domain parsed) ≫= as_str;
  PolicyV1.domain_chain_id := domain_chain parsed;
  PolicyV1.primary_type := primary_type parsed;
  PolicyV1.domain_name := member "name" (domain parsed) ≫= as_str;
  PolicyV1.domain_version := member "version" (domain parsed) ≫= as_str;
  PolicyV1.raw_json := raw_json
|}.

Definition NOT_EVM : string := "EIP-712 typed data signing is only supported for EVM chains".

Definition sign_typed_data_with_api_key (io : SignIo io_error) (token name_or_id : string) (chain : Chain.Chain)
    (typed_data_json : string) (index : option Z) (vault : option string) (d : FS) (p : Proc)
  : option (wallet_result SignResult) * Proc :=
  if negb (bool_decide (Chain.chain_type chain = Chain.Evm)) then (Some (Err (InvalidInput NOT_EVM)), p)
  else
    match (let? kw := key_and_wallet io token name_or_id vault d in
           let? parsed := result_map_err Signer (parse_typed_data typed_data_json) in
           let? _ := check_domain_chain chain parsed in
           Ok (kw, parsed)) with
    | Err e => (Some (Err e), p)
    | Ok ((key, w), parsed) =>
        let '(r, p) := policies_then_key io token key w chain "" (Some (typed_data_context parsed typed_data_json)) index
                         vault d p in
        (option_map (fun r => let? k := r in sign_result (ChainKey.sign_typed_data k typed_data_json)) r, p)
    end.
End KeyOps.
