(* ===== verification/WalletSign.v ===== *)
(** * Signing with a credential

    The signing operations of crates/oc-wallet/src/ops.rs and the transaction pipeline of
    broadcast.rs: the credential is the owner's passphrase, which unlocks the wallet, or an
    API token, which goes through the gate of [KeyOps].  Looking up the endpoint and posting
    the signed bytes is the argument [send]. *)

From Stdlib Require Import ZArith Lia Bool String Ascii.
From stdpp Require Import base list strings gmap.
From S2P Require Import Prelude Str Files Trace Json Bytes Passkey Hd Credential WalletWorld PolicyStore KeyStore WalletOps KeyOps.
From S2P Require AuditChain Vault Chain ChainKey Enclave WalletFile PolicyV1.

Local Open Scope oc_scope.

(** [authorization_payload] and [authorization_hash] of the EVM signer. *)
Class Eip7702 := {
  authorization_payload : string -> string -> string -> result string bytes;
  authorization_hash : string -> string -> string -> result string bytes
}.

Section Sign.
Context {S : SerdeNumber} {io_error json_error : Type} {A : AuditChain.AuditEnv io_error json_error}.
Context {D : ChainKey.Display json_error} {L : Lowercase} {H : HdCrypto} {G : AgeFile}.
Context {VJ : Vault.WalletJson io_error json_error} {EJ : EnvelopeJson json_error}.
Context {KJ : KeyJson json_error} {PJ : PolicyJson json_error}.
Context {GS : ChainKey.Signers} {CS : ChainSupport} {MS : MoreSigners} {PE : PolicyEnv} {T : Jiff} {C : Chain.Caip}.
Context {E77 : Eip7702}.

Abbreviation wallet_error := (OcWalletError io_error json_error).
Abbreviation wallet_result := (result wallet_error).

(** An answer with the process it leaves. *)
Abbreviation answer B := (option (wallet_result B) * Proc)%type.

Definition fail {B : Type} (e : wallet_error) (p : Proc) : answer B := (Some (Err e), p).

(** The first step of an operation, without the process. *)
Definition or_fail {X B : Type} (r : wallet_result X) (p : Proc) (k : X -> answer B) : answer B :=
  match r with Ok x => k x | Err e => fail e p end.

(** [parse_chain(..)?]. *)
Definition on_chain {B : Type} (chain : string) (p : Proc) (k : Chain.Chain -> Proc -> answer B) : answer B :=
  match parse_chain chain p with (Ok c, p) => k c p | (Err e, p) => fail e p end.

(** Owner mode: the key under the passphrase, then the signature. *)
Definition with_owner_key {B : Type} (io : SignIo io_error) (wallet : string) (ct : Chain.ChainType) (credential : string)
    (index : option Z) (vault : option string) (d : FS) (p : Proc) (k : bytes -> wallet_result B) : answer B :=
  let '(r, p) := decrypt_signing_key (ops_io io) (cache_clock io) wallet ct (str_bytes credential) index vault d p in
  (Some (let? key := r in k key), p).

Definition hex_param (what text : string) : wallet_result bytes :=
  result_map_err (fun e => InvalidInput ("invalid hex " +:+ what +:+ ": " +:+ e))
    (AuditChain.hex_decode (default text (strip_prefix "0x" text))).

Definition not_32 (b : bytes) : wallet_error :=
  InvalidInput ("raw hash signing requires exactly 32 bytes, got " +:+ fmt_Z (len b)).

Definition decode_hash_hex (hash_hex : string) : wallet_result bytes :=
  let? hash := hex_param "hash" hash_hex in
  if negb (len hash =? 32)%Z then Err (not_32 hash) else Ok hash.

Definition sign_hash_with_credential (io : SignIo io_error) (wallet : string) (chain : Chain.Chain)
    (policy_bytes hash_bytes : bytes) (credential : string) (index : option Z) (vault : option string) (d : FS) (p : Proc)
  : answer SignResult :=
  let ct := Chain.chain_type chain in
  match chain_curve ct with
  | ChainKey.Ed25519Curve => fail (InvalidInput "raw hash signing is only supported for secp256k1-backed chains") p
  | ChainKey.Secp256k1 =>
      if negb (len hash_bytes =? 32)%Z then fail (not_32 hash_bytes) p
      else if is_token (parse_credential credential) then
        sign_hash_with_api_key io credential wallet chain policy_bytes hash_bytes index vault d p
      else with_owner_key io wallet ct credential index vault d p (fun key => sign_result (sign_raw ct key hash_bytes))
  end.

Definition sign_transaction (io : SignIo io_error) (wallet chain tx_hex : string) (passphrase : option string)
    (index : option Z) (vault : option string) (d : FS) (p : Proc) : answer SignResult :=
  let credential := default "" passphrase in
  or_fail (hex_param "transaction" tx_hex) p (fun tx_bytes =>
  on_chain chain p (fun c p =>
    if is_token (parse_credential credential) then sign_with_api_key io credential wallet c tx_bytes index vault d p
    else with_owner_key io wallet (Chain.chain_type c) credential index vault d p
           (fun key => sign_tx (Chain.chain_type c) key tx_bytes))).

Definition sign_hash (io : SignIo io_error) (wallet chain hash_hex : string) (passphrase : option string)
    (index : option Z) (vault : option string) (d : FS) (p : Proc) : answer SignResult :=
  let credential := default "" passphrase in
  on_chain chain p (fun c p =>
  or_fail (decode_hash_hex hash_hex) p (fun hash =>
  sign_hash_with_credential io wallet c hash hash credential index vault d p)).

Definition sign_authorization (io : SignIo io_error) (wallet chain address nonce : string) (passphrase : option string)
    (index : option Z) (vault : option string) (d : FS) (p : Proc) : answer SignResult :=
  let credential := default "" passphrase in
  on_chain chain p (fun c p =>
  if negb (bool_decide (Chain.chain_type c = Chain.Evm)) then
    fail (InvalidInput "EIP-7702 authorization signing is only supported for EVM chains") p
  else
  or_fail (ok_or (InvalidInput ("EVM chain '" +:+ Chain.chain_id c +:+ "' is missing an eip155 reference"))
             (strip_prefix "eip155:" (Chain.chain_id c))) p (fun authorization_chain_id =>
  or_fail (result_map_err Signer (authorization_payload authorization_chain_id address nonce)) p (fun payload =>
  or_fail (result_map_err Signer (authorization_hash authorization_chain_id address nonce)) p (fun hash =>
  sign_hash_with_credential io wallet c payload hash credential index vault d p)))).

Definition message_bytes (message : string) (encoding : option string) : wallet_result bytes :=
  let encoding := default "utf8" encoding in
  if String.eqb encoding "utf8" then Ok (str_bytes message)
  else if String.eqb encoding "hex" then
    result_map_err (fun e => InvalidInput ("invalid hex message: " +:+ e)) (AuditChain.hex_decode message)
  else Err (InvalidInput ("unsupported encoding: " +:+ encoding +:+ " (use 'utf8' or 'hex')")).

Definition sign_message (io : SignIo io_error) (wallet chain message : string) (passphrase encoding : option string)
    (index : option Z) (vault : option string) (d : FS) (p : Proc) : answer SignResult :=
  let credential := default "" passphrase in
  or_fail (message_bytes message encoding) p (fun msg_bytes =>
  on_chain chain p (fun c p =>
    if is_token (parse_credential credential) then sign_message_with_api_key io credential wallet c msg_bytes index vault d p
    else with_owner_key io wallet (Chain.chain_type c) credential index vault d p
           (fun key => sign_result (ChainKey.sign_message (Chain.chain_type c) key (Enclave.bytes_string msg_bytes))))).

Definition sign_typed_data (io : SignIo io_error) (wallet chain typed_data_json : string) (passphrase : option string)
    (index : option Z) (vault : option string) (d : FS) (p : Proc) : answer SignResult :=
  let credential := default "" passphrase in
  on_chain chain p (fun c p =>
  if negb (bool_decide (Chain.chain_type c = Chain.Evm)) then fail (InvalidInput NOT_EVM) p
  else if is_token (parse_credential credential) then
    sign_typed_data_with_api_key io credential wallet c typed_data_json index vault d p
  else with_owner_key io wallet (Chain.chain_type c) credential index vault d p
         (fun key => sign_result (ChainKey.sign_typed_data key typed_data_json))).

(** ** Sending *)

(** [resolve_rpc_url] and [broadcast] of a signed transaction for a chain. *)
Context (send : Chain.Chain -> option string -> bytes -> wallet_result string).

(** Both variants, which differ in the type of the key. *)
Definition sign_encode_and_broadcast (key : bytes) (chain : string) (tx_bytes : bytes) (rpc_url : option string)
    (p : Proc) : answer string :=
  on_chain chain p (fun c p =>
  let ct := Chain.chain_type c in
  (Some (let? signable := result_map_err Signer (ChainKey.extract_signable_bytes ct tx_bytes) in
         let? output := result_map_err Signer (ChainKey.sign_transaction ct key signable) in
         let? signed_tx := result_map_err Signer (ChainKey.encode_signed_transaction ct tx_bytes output) in
         send c rpc_url signed_tx), p)).

Definition sign_and_send (io : SignIo io_error) (wallet chain tx_hex : string) (passphrase : option string)
    (index : option Z) (rpc_url vault : option string) (d : FS) (p : Proc) : answer string :=
  let credential := default "" passphrase in
  or_fail (hex_param "transaction" tx_hex) p (fun tx_bytes =>
  on_chain chain p (fun c p =>
  if is_token (parse_credential credential) then
    let '(r, p) := enforce_policy_and_decrypt_key io credential wallet c tx_bytes index vault d p in
    match r with
    | Some (Ok (key, _)) => sign_encode_and_broadcast key chain tx_bytes rpc_url p
    | Some (Err e) => fail e p
    | None => (None, p)
    end
  else
    let '(r, p) := decrypt_signing_key (ops_io io) (cache_clock io) wallet (Chain.chain_type c) (str_bytes credential) index
                     vault d p in
    match r with
    | Ok key => sign_encode_and_broadcast key chain tx_bytes rpc_url p
    | Err e => fail e p
    end)).
End Sign.
