(* ===== verification/WalletVault.v ===== *)
(** * Wallets in the vault

    The theorems about the operations of [WalletOps] on the vault: names stay unique, and a
    created wallet exports its phrase and signs for the addresses it lists. *)

From Stdlib Require Import ZArith Lia Bool String Ascii.
From stdpp Require Import base list strings gmap relations.
From S2P Require Import Prelude Str Decimal Files Trace Json Bytes Passkey Hd Credential WalletWorld WalletOps.
From S2P Require AuditChain Vault Chain ChainKey Enclave WalletFile Names.

Local Open Scope oc_scope.

(** The operations that change the vault. *)
Inductive Change :=
| Create (nm : string) (words : option Z) (passphrase : option string)
| ImportMnemonic (nm phrase : string) (passphrase : option string) (index : option Z)
| ImportKey (nm private_key_hex : string) (chain passphrase secp_hex ed_hex : option string)
| Rename (name_or_id new_name : string)
| Delete (name_or_id : string).

Section WalletVault.
Context {S : SerdeNumber} {io_error json_error : Type} {A : AuditChain.AuditEnv io_error json_error}.
Context {D : ChainKey.Display json_error} {L : Lowercase} {H : HdCrypto} {G : AgeFile}.
Context {VJ : Vault.WalletJson io_error json_error} {EJ : EnvelopeJson json_error}.
Context {GS : ChainKey.Signers} {CS : ChainSupport}.
Context {VL : Vault.WalletJsonLaws VJ}.

Abbreviation wallet_error := (OcWalletError io_error json_error).
Abbreviation wallet_result := (result wallet_error).
Abbreviation Wallets := (gmap string WalletFile.EncryptedWallet).

(** Its run: the states of the disk, with the process for the import of a key. *)
Definition run (io : OpsIo io_error) (vault : option string) (c : Change) (p : Proc) (d : FS)
  : result wallet_error (option WalletInfo) * list FS :=
  match c with
  | Create nm words pass => (let> i := create_wallet io nm words pass vault in on_result (Ok (Some i))) d
  | ImportMnemonic nm phrase pass index =>
      (let> i := import_wallet_mnemonic io nm phrase pass index vault in on_result (Ok (Some i))) d
  | ImportKey nm key chain pass secp ed =>
      (let> i := (fun d => (import_wallet_private_key io nm key chain pass vault secp ed p d).1) in on_result (Ok (Some i))) d
  | Rename w nm => (let> _ := rename_wallet io w nm vault in on_result (Ok None)) d
  | Delete w => (let> _ := delete_wallet io w vault in on_result (Ok None)) d
  end.

(** The directory can be read whenever the vault at [base] is listed. *)
Definition steady (base : string) (vault : option string) (io : OpsIo io_error) : Prop :=
  forall n, Vault.readable (vault_call io n) /\ Vault.resolve_vault_path (vault_call io n) vault = base.

Abbreviation wallets base := (Names.join base "wallets").

(** No two wallets have the same name. *)
Definition distinct (m : Wallets) : Prop :=
  forall i j w w', m !! i = Some w -> m !! j = Some w' -> WalletFile.name w = WalletFile.name w' -> i = j.

(** The vault holds wallets with distinct names. *)
Definition well_named (base : string) (d : FS) : Prop := exists m, Vault.represents (wallets base) d m /\ distinct m.

Definition unused (m : Wallets) (nm : string) : Prop :=
  forall i w, m !! i = Some w -> WalletFile.name w <> nm.

Lemma distinct_insert m w : distinct m -> unused m (WalletFile.name w) -> distinct (<[WalletFile.id w := w]> m).
Proof.
  intros Hd Hu i j x y. rewrite !lookup_insert_Some. intros [[<- <-]|[_ Hi]] [[<- <-]|[_ Hj]] Hn; [done| | |by eapply Hd].
  - by destruct (Hu _ _ Hj).
  - by destruct (Hu _ _ Hi).
Qed.

Lemma distinct_delete m i : distinct m -> distinct (delete i m).
Proof. intros Hd j k w w' [_ Hj]%lookup_delete_Some [_ Hk]%lookup_delete_Some. by apply Hd with (1 := Hj). Qed.

(** ** Reading the vault *)

Lemma name_unused io n base nm vault d m :
  steady base vault io -> Vault.represents (wallets base) d m ->
  Vault.wallet_name_exists (vault_call io n) nm vault d = Ok false -> unused m nm.
Proof.
  intros Hs Hm He i w Hi Hn. destruct (Hs n) as [Hr Hb]. unfold Vault.wallet_name_exists in He.
  destruct (Vault.list_wallets_ok (vault_call io n) vault d Hr) as (ws & Hl & _ & _). rewrite Hl in He. cbn in He.
  injection He as He. assert (Hin : w ∈ ws).
  { apply (Vault.list_wallets_elem _ _ _ _ _ Hr Hl). rewrite Hb. exists (WalletFile.id w +:+ ".json").
    apply Hm. split; [|done]. by rewrite (proj1 Hm _ _ Hi). }
  apply list_elem_of_In in Hin. assert (Hx : existsb (fun w => String.eqb (WalletFile.name w) nm) ws = true).
  { apply existsb_exists. exists w. split; [done|]. by apply String.eqb_eq. }
  congruence.
Qed.

Lemma name_free_unused io base nm vault d m :
  steady base vault io -> Vault.represents (wallets base) d m -> name_free io nm vault d = Ok tt -> unused m nm.
Proof.
  intros Hs Hm. unfold name_free, from_vault. destruct (Vault.wallet_name_exists _ _ _ _) as [[]|] eqn:He; [done| |done].
  intros _. by eapply name_unused.
Qed.

Lemma loaded_in io base nm vault d m w :
  steady base vault io -> Vault.represents (wallets base) d m -> load_wallet io nm vault d = Ok w ->
  m !! WalletFile.id w = Some w /\ (WalletFile.oc_version w <= WalletFile.MAX_SUPPORTED_VERSION)%Z.
Proof.
  intros Hs Hm. destruct (Hs 0%nat) as [Hr Hb]. unfold load_wallet, from_vault. rewrite <- Hb in Hm.
  destruct (Vault.load_wallet_by_name_or_id _ _ _ _) as [w'|] eqn:Hw; [|done]. intros [= ->].
  assert (Hi : m !! WalletFile.id w = Some w).
  { destruct (m !! nm) as [x|] eqn:Hx.
    - rewrite (Vault.load_present _ _ _ _ _ _ Hr Hm Hx) in Hw. injection Hw as ->. by rewrite (proj1 Hm _ _ Hx).
    - by destruct (Vault.load_absent _ _ _ _ _ _ Hr Hm Hx Hw). }
  split; [done|]. assert (Hst : Vault.stored (wallets (Vault.resolve_vault_path (vault_call io 0) vault)) d (WalletFile.id w +:+ ".json") = Some w)
    by (by apply Hm).
  unfold Vault.stored in Hst. destruct (Vault.json_stem _); [|done]. destruct (d !! _) as [f|]; [|done].
  destruct (WalletFile.deserialize _) as [x|] eqn:Hd; [|done]. injection Hst as ->.
  by destruct (WalletFile.deserialize_supported _ _ Hd).
Qed.

(** ** Saving *)

(** A save, at any moment and when it is through. *)
Lemma saved_steps io base vault d m w :
  steady base vault io -> Vault.represents (wallets base) d m ->
  (WalletFile.oc_version w <= WalletFile.MAX_SUPPORTED_VERSION)%Z ->
  steps (fun d' => Vault.represents (wallets base) d' m \/ Vault.represents (wallets base) d' (<[WalletFile.id w := w]> m))
    (fun _ d' => Vault.represents (wallets base) d' (<[WalletFile.id w := w]> m)) d (save_wallet io w vault d).
Proof.
  intros Hs Hm Hv. destruct (Hs 1%nat) as [_ Hb]. rewrite <- Hb in Hm |- *.
  pose proof (Vault.save_inserts (vault_call io 1) w vault d m Hm Hv) as Hi. unfold save_wallet, steps, final.
  destruct (Vault.save_encrypted_wallet _ _ _ _) as [r t]. destruct Hi as [Ht Hf]. cbn [fst snd]. split; [exact Ht|].
  destruct r; [|done]. intros u _. exact Hf.
Qed.

Lemma well_named_saved base m w : distinct m -> unused m (WalletFile.name w) -> forall d',
  Vault.represents (wallets base) d' m \/ Vault.represents (wallets base) d' (<[WalletFile.id w := w]> m) -> well_named base d'.
Proof. intros Hd Hu d' [Hm|Hm]; [by exists m|]. eexists. split; [exact Hm|]. by apply distinct_insert. Qed.

(** A new wallet is saved under a name that no wallet has. *)
Lemma store_steps io base vault d m r :
  steady base vault io -> Vault.represents (wallets base) d m -> distinct m ->
  (forall w, r = Ok w -> unused m (WalletFile.name w) /\ WalletFile.oc_version w = WalletFile.CURRENT_VERSION) ->
  steps (well_named base) (fun _ _ => True) d (store_new io r vault d).
Proof.
  intros Hs Hm Hd Hr. assert (Hw : well_named base d) by (by exists m). unfold store_new.
  apply (in_turn_steps _ (fun w d' => r = Ok w /\ d' = d)); [done|by apply on_result_steps|].
  intros w d' _ [-> ->]. destruct (Hr w eq_refl) as [Hu Hv].
  apply (in_turn_steps _ (fun _ _ => True)); [done| |intros; by apply on_result_steps].
  eapply steps_weaken; [by apply (well_named_saved base m w)|done|]. apply saved_steps; [done..|].
  by rewrite Hv.
Qed.

Lemma sealed_named io nm accs secret pass kt w : sealed_wallet io nm accs secret pass kt = Ok w ->
  WalletFile.name w = nm /\ WalletFile.oc_version w = WalletFile.CURRENT_VERSION.
Proof. unfold sealed_wallet. intros Hs. bind1 Hs e He. bind1 Hs v Hv. by injection Hs as <-. Qed.

Lemma mnemonic_named io nm pass mn index w : mnemonic_wallet io nm pass mn index = Ok w ->
  WalletFile.name w = nm /\ WalletFile.oc_version w = WalletFile.CURRENT_VERSION.
Proof. unfold mnemonic_wallet. intros Hs. bind1 Hs a Ha. bind1 Hs ph Hp. by eapply sealed_named. Qed.

Lemma key_pair_named io nm pass keys w : key_pair_wallet io nm pass keys = Ok w ->
  WalletFile.name w = nm /\ WalletFile.oc_version w = WalletFile.CURRENT_VERSION.
Proof. unfold key_pair_wallet. intros Hs. bind1 Hs a Ha. bind1 Hs ph Hp. by eapply sealed_named. Qed.

(** What follows the check of the name. *)
Lemma named_steps io base vault d nm r : steady base vault io -> well_named base d ->
  (forall w, r = Ok w -> WalletFile.name w = nm /\ WalletFile.oc_version w = WalletFile.CURRENT_VERSION) ->
  name_free io nm vault d = Ok tt -> steps (well_named base) (fun _ _ => True) d (store_new io r vault d).
Proof.
  intros Hs (m & Hm & Hd) Hr Hf. apply (store_steps _ _ _ _ m); [done..|]. intros w [<- ->]%Hr. split; [|done].
  by eapply name_free_unused.
Qed.

Lemma created_steps io base vault d nm r : steady base vault io -> well_named base d ->
  (forall w, r = Ok w -> WalletFile.name w = nm /\ WalletFile.oc_version w = WalletFile.CURRENT_VERSION) ->
  steps (well_named base) (fun _ _ => True) d ((let> _ := on_disk_of (name_free io nm vault) in store_new io r vault) d).
Proof.
  intros Hs Hw Hr. apply (in_turn_steps _ (fun _ d' => d' = d /\ name_free io nm vault d = Ok tt)); [done| |].
  - apply on_disk_steps; [done|]. intros [] Hf. done.
  - intros u d' _ [-> Hf]. by eapply named_steps.
Qed.

Lemma renamed_steps io base vault d w nm : steady base vault io -> well_named base d ->
  steps (well_named base) (fun _ _ => True) d (rename_wallet io w nm vault d).
Proof.
  intros Hs Hw. pose proof Hw as (m & Hm & Hd). unfold rename_wallet.
  destruct (load_wallet io w vault d) as [x|] eqn:Hl; [|by apply steps_stop].
  destruct (String.eqb _ _); [by apply steps_ret|]. unfold from_vault.
  destruct (Vault.wallet_name_exists _ _ _ _) as [[]|] eqn:He; cbn [result_map_err]; [by apply steps_stop| |by apply steps_stop].
  destruct (loaded_in _ _ _ _ _ _ _ Hs Hm Hl) as [_ Hv]. eapply steps_weaken; [|done|by apply (saved_steps io base vault d m)].
  apply well_named_saved; [done|]. by eapply (name_unused io 2).
Qed.

Lemma deleted_steps io base vault d w : steady base vault io -> well_named base d ->
  steps (well_named base) (fun _ _ => True) d (delete_wallet io w vault d).
Proof.
  intros Hs Hw. pose proof Hw as (m & Hm & Hd). unfold delete_wallet.
  apply (in_turn_steps _ (fun _ d' => d' = d)); [done|by apply on_disk_steps|]. intros x d' _ ->.
  destruct (Hs 1%nat) as [_ Hb]. rewrite <- Hb in Hm.
  pose proof (Vault.delete_spec (vault_call io 1) (WalletFile.id x) vault d m Hm) as Hx. unfold steps.
  destruct (Vault.delete_wallet_file _ _ _ _) as [r d']. cbn [fst snd]. split; [|done]. apply Forall_singleton.
  destruct r; [|by subst]. rewrite Hb in Hx. exists (delete (WalletFile.id x) m). split; [done|]. by apply distinct_delete.
Qed.

Lemma run_steps io base vault c p d : steady base vault io -> well_named base d ->
  steps (well_named base) (fun _ _ => True) d (run io vault c p d).
Proof.
  intros Hs Hw. assert (Hk : forall B (o : Disk wallet_error B) (f : B -> option WalletInfo),
    steps (well_named base) (fun _ _ => True) d (o d) ->
    steps (well_named base) (fun _ _ => True) d ((let> i := o in on_result (Ok (f i))) d)).
  { intros B o f Ho. eapply in_turn_steps; [done|exact Ho|]. intros. by apply on_result_steps. }
  destruct c as [nm words pass|nm phrase pass index|nm key chain pass secp ed|w nm|w]; cbn [run].
  - apply (Hk _ _ (fun i => Some i)). unfold create_wallet.
    apply (in_turn_steps _ (fun _ d' => d' = d)); [done|by apply on_result_steps|]. intros n d' _ ->.
    apply created_steps; [done..|]. intros x. apply mnemonic_named.
  - apply (Hk _ _ (fun i => Some i)). unfold import_wallet_mnemonic. apply created_steps; [done..|].
    intros x Hx. bind1 Hx mn Hm. by eapply mnemonic_named.
  - apply (Hk _ (fun d => (import_wallet_private_key io nm key chain pass vault secp ed p d).1) (fun i => Some i)).
    unfold import_wallet_private_key. destruct (name_free io nm vault d) as [[]|] eqn:Hf; [|by apply steps_stop].
    destruct (imported_keys _ _ _ _ _ _) as [r q]. cbn [fst]. apply (named_steps _ _ _ _ nm); [done..| |done].
    intros x Hx. bind1 Hx keys Hkeys. by eapply key_pair_named.
  - apply (Hk _ _ (fun _ => None)). by apply renamed_steps.
  - apply (Hk _ _ (fun _ => None)). by apply deleted_steps.
Qed.

(** One operation, through or stopped anywhere. *)
Inductive changes (base : string) (d : FS) : FS -> Prop :=
| Changed io vault c p d' : steady base vault io -> d' ∈ (run io vault c p d).2 -> changes base d d'.

(** C13 No two wallets of a vault get the same name, whatever wallets are created, imported,
    renamed and deleted one after the other, which of the writes fail and wherever an
    operation is killed. *)
Theorem names_unique base d d' : well_named base d -> rtc (changes base) d d' -> well_named base d'.
Proof.
  intros Hw Hr. induction Hr as [d|d d1 d2 Hstep _ IH]; [done|]. apply IH. destruct Hstep as [io vault c p d1 Hs Hin].
  destruct (run_steps io base vault c p d Hs Hw) as [Hall _]. rewrite Forall_forall in Hall. by apply Hall.
Qed.

Lemma empty_well_named base : well_named base ∅.
Proof.
  exists ∅. split; [|intros i j w w' Hi; by rewrite lookup_empty in Hi]. split; [intros i w Hi; by rewrite lookup_empty in Hi|].
  intros n w. rewrite lookup_empty. unfold Vault.stored. rewrite lookup_empty. split; [by destruct (Vault.json_stem n)|by intros [? _]].
Qed.
End WalletVault.

(** ** What a new wallet is good for *)

Section Created.
Context {S : SerdeNumber} {io_error json_error : Type} {A : AuditChain.AuditEnv io_error json_error}.
Context {D : ChainKey.Display json_error} {L : Lowercase} {H : HdCrypto} {G : AgeFile}.
Context {VJ : Vault.WalletJson io_error json_error} {EJ : EnvelopeJson json_error}.
Context {GS : ChainKey.Signers} {CS : ChainSupport}.
Context {VL : Vault.WalletJsonLaws VJ} {HL : HdLaws H} {GL : AgeFileLaws G} {EL : EnvelopeJsonLaws EJ}.

Abbreviation wallet_error := (OcWalletError io_error json_error).
Abbreviation wallet_result := (result wallet_error).
Abbreviation wallets base := (Names.join base "wallets").

(** The bytes of entropy that are asked for. *)
Abbreviation entropy_size words := (strength (io_error := io_error) (json_error := json_error) (default 12%Z words)).

(** Nothing of the paths collides with the separator of the cache's text. *)
Lemma default_path_plain ct i : (0 <= i)%Z -> plain (default_derivation_path ct i).
Proof.
  intros (_ & Hd & _)%fmt_Z_spec. unfold plain.
  destruct ct; cbn [default_derivation_path];
    unfold evm_path, solana_path, bitcoin_path, cosmos_path, tron_path, ton_path, spark_path, filecoin_path, sui_path,
      xrpl_path, nano_path, near_path; rewrite !contains_byte_app, (digits_lack ":" (fmt_Z i)) by done; done.
Qed.

Lemma bytes_string_str_bytes s : Enclave.bytes_string (str_bytes s) = s.
Proof.
  unfold Enclave.bytes_string, bytes_str, str_bytes. induction s as [|c s IH]; [done|]. cbn in *.
  by rewrite N2Z.id, ascii_N_embedding, IH.
Qed.

Lemma phrase_ok mn b : phrase_of mn = Ok b ->
  b = str_bytes (to_phrase mn) /\ lock_fails (str_bytes (to_phrase mn)) = None.
Proof. unfold phrase_of, locked. destruct (lock_fails _); [done|]. by intros [= <-]. Qed.

(** A wallet file sealed for a phrase opens with the passphrase again. *)
Lemma sealed_opens (io : OpsIo io_error) nm accs secret pass kt w : sealed_wallet io nm accs secret pass kt = Ok w ->
  (lock_fails secret = None -> opened_wallet w (str_bytes pass) = (Ok secret : wallet_result bytes)) /\
  WalletFile.accounts w = accs /\ WalletFile.key_type w = kt /\ WalletFile.oc_version w = WalletFile.CURRENT_VERSION.
Proof.
  unfold sealed_wallet. intros Hs. bind1 Hs env He. bind1 Hs v Hv. injection Hs as <-. split; [|done]. intros Hl.
  unfold opened_wallet. cbn [WalletFile.crypto WalletFile.wallet_new].
  destruct (envelope_to_value env) as [v'|] eqn:Hv'; [|done]. injection Hv as <-.
  rewrite (envelope_roundtrip _ _ Hv'). cbn [result_map_err result_bind].
  destruct (encrypt_with_passphrase _ _ _) as [env'|] eqn:He'; [|done]. injection He as <-.
  rewrite (passphrase_opens _ _ _ _ He'). unfold locked. by rewrite Hl.
Qed.

(** The key of a mnemonic wallet's secret is the one derived for the chain. *)
Lemma phrase_key clock mn ct p : lock_fails (str_bytes (to_phrase mn)) = None -> sound (key_cache p) ->
  (secret_to_signing_key (io_error := io_error) (json_error := json_error) clock (str_bytes (to_phrase mn)) WalletFile.Mnemonic ct None p).1 =
    result_map_err Hd (derive_from_mnemonic mn "" (default_derivation_path ct 0) (chain_curve ct)) \/ confused (key_cache p) mn "" (default_derivation_path ct 0) (chain_curve ct).
Proof.
  intros Hl Hs. unfold secret_to_signing_key. rewrite bytes_string_str_bytes, phrase_utf8. cbn [negb].
  unfold from_phrase. rewrite phrase_roundtrip. cbn [result_map_err default].
  destruct (cached_same clock mn "" (default_derivation_path ct 0) (chain_curve ct) (key_cache p) Hs eq_refl
    (default_path_plain ct 0 ltac:(done)) Hl) as [_ [He|Hc]]; [left|by right].
  cbn [default from_option]. destruct (derive_from_mnemonic_cached _ _ _ _ _ _) as [r c]. cbn [fst] in *. by rewrite He.
Qed.

Lemma available_in ct : is_available ct = true -> ct ∈ available_chains.
Proof.
  intros Ha. unfold available_chains. apply list_elem_of_In, List.filter_In. split; [|done]. destruct ct; cbn; tauto.
Qed.

Lemma map_err_ok {E E' B} (f : E -> E') (r : result E B) b : result_map_err f r = Ok b -> r = Ok b.
Proof. destruct r; [by intros [= ->]|done]. Qed.

Lemma account_listed mn accs ct : derive_all_accounts mn 0 = (Ok accs : wallet_result _) -> is_available ct = true ->
  exists addr key, In (account_of ct addr (default_derivation_path ct 0)) accs /\
    derive_from_mnemonic mn "" (default_derivation_path ct 0) (chain_curve ct) = Ok key /\
    ChainKey.derive_address ct key = Ok addr.
Proof.
  unfold derive_all_accounts. intros Hc Hin%available_in. revert Hc. generalize available_chains, Hin. clear Hin.
  intros l. revert accs. induction l as [|x l IH]; intros accs Hin Hc; [by apply elem_of_nil in Hin|]. cbn [collect] in Hc.
  apply elem_of_cons in Hin as [->|Hin].
  - bind1 Hc a Ha. bind1 Hc ys Hy. injection Hc as <-. unfold account_at in Ha. bind1 Ha key Hk. bind1 Ha addr Had.
    injection Ha as <-. apply map_err_ok in Hk, Had. exists addr, key. split; [by left|done].
  - bind1 Hc a Ha. bind1 Hc ys Hy. injection Hc as <-. destruct (IH ys Hin Hy) as (addr & key & Hi & Hrest).
    exists addr, key. split; [by right|done].
Qed.

Lemma steps_answer {E B : Type} (P : FS -> Prop) (Q : B -> FS -> Prop) (d : FS) (o : result E B * list FS) b :
  steps P Q d o -> o.1 = Ok b -> Q b (final d o).
Proof. intros [_ HQ]. apply HQ. Qed.

(** What a successful creation has left. *)
Lemma created_wallet io base nm words pass vault d m info :
  steady base vault io -> Vault.represents (wallets base) d m ->
  let o := create_wallet io nm words pass vault d in
  o.1 = Ok info ->
  exists n w, entropy_size words = Ok n /\
    mnemonic_wallet io nm (default "" pass) (from_entropy (entropy io n)) 0 = Ok w /\ info = wallet_to_info w /\
    Vault.represents (wallets base) (final d o) (<[WalletFile.id w := w]> m).
Proof.
  intros Hs Hm o Ho. revert Ho. apply (steps_answer (fun _ => True)
    (fun info d' => exists n w, entropy_size words = Ok n /\
      mnemonic_wallet io nm (default "" pass) (from_entropy (entropy io n)) 0 = Ok w /\ info = wallet_to_info w /\
      Vault.represents (wallets base) d' (<[WalletFile.id w := w]> m))). unfold o, create_wallet.
  apply (in_turn_steps _ (fun n d' => d' = d /\ entropy_size words = Ok n)); [done|by apply on_result_steps|].
  intros n d' _ [-> Hn]. apply (in_turn_steps _ (fun _ d' => d' = d)); [done|by apply on_disk_steps|]. intros u d' _ ->.
  unfold store_new. apply (in_turn_steps _ (fun w d' => mnemonic_wallet io nm (default "" pass) (from_entropy (entropy io n)) 0 = Ok w /\ d' = d));
    [done|by apply on_result_steps|]. intros w d' _ [Hw ->]. destruct (mnemonic_named _ _ _ _ _ _ Hw) as [_ Hv].
  apply (in_turn_steps _ (fun _ d' => Vault.represents (wallets base) d' (<[WalletFile.id w := w]> m))); [done| |].
  - eapply (steps_weaken _ (fun _ => True)); [done|intros a d' HQ; exact HQ|]. apply saved_steps; [done..|]. by rewrite Hv.
  - intros u' d' _ Hd'. apply on_result_steps; [done|]. intros i [= <-]. by exists n, w.
Qed.

(** C15 A wallet that was created is there: under its id and passphrase its phrase is
    exported, which reads back as the mnemonic it was made of; and for every chain it
    lists an address of the key that the owner signs with, unless the cache of the process
    holds, where it looks for that key, the key of other inputs with the same SHA-256. *)
Theorem created_signs io io' clock nm words pass vault base d m info :
  steady base vault io -> steady base vault io' -> Vault.represents (wallets base) d m ->
  let o := create_wallet io nm words pass vault d in
  let passphrase := str_bytes (default "" pass) in
  o.1 = Ok info ->
  exists n mn, entropy_size words = Ok n /\ mn = from_entropy (entropy io n) /\
    export_wallet io' (info_id info) pass vault (final d o) = Ok (str_bytes (to_phrase mn)) /\
    from_phrase (to_phrase mn) = Ok mn /\
    forall ct p, is_available ct = true -> sound (key_cache p) ->
      exists a, In a (info_accounts info) /\ info_chain_id a = default_chain_id ct /\
        ((exists key, (decrypt_signing_key io' clock (info_id info) ct passphrase None vault (final d o) p).1 = Ok key /\
            ChainKey.derive_address ct key = Ok (info_address a)) \/
         confused (key_cache p) mn "" (default_derivation_path ct 0) (chain_curve ct)).
Proof.
  intros Hs Hs' Hm o passphrase Ho. destruct (created_wallet _ _ _ _ _ _ _ _ _ Hs Hm Ho) as (n & w & Hn & Hw & -> & Hf).
  fold o in Hf. set (mn := from_entropy (entropy io n)) in *. exists n, mn. unfold mnemonic_wallet in Hw.
  bind1 Hw accs Ha. bind1 Hw ph Hp. destruct (phrase_of mn) as [b|] eqn:Hph; [|done]. injection Hp as ->.
  apply phrase_ok in Hph as [-> Hl]. destruct (sealed_opens _ _ _ _ _ _ _ Hw) as (Hopen & Hacc & Hkt & _).
  specialize (Hopen Hl). fold passphrase in Hopen.
  assert (Hload : load_wallet io' (WalletFile.id w) vault (final d o) = Ok w).
  { destruct (Hs' 0%nat) as [Hr Hb]. rewrite <- Hb in Hf. unfold load_wallet, from_vault.
    by rewrite (Vault.load_present _ _ _ _ _ w Hr Hf) by apply lookup_insert_eq. }
  split_and!; [done|done|unfold export_wallet; cbn [info_id wallet_to_info]; by rewrite Hload|unfold from_phrase; by rewrite phrase_roundtrip|].
  intros ct p Hav Hsound. destruct (account_listed mn accs ct Ha Hav) as (addr & key & Hin & Hd & Haddr).
  eexists. split_and!.
  - cbn [info_accounts wallet_to_info]. rewrite Hacc. apply in_map, Hin.
  - done.
  - cbn [info_address]. unfold decrypt_signing_key. cbn [info_id wallet_to_info]. rewrite Hload. cbn [result_bind].
    rewrite Hopen. cbn [result_bind]. rewrite Hkt. destruct (phrase_key clock mn ct p Hl Hsound) as [He|Hc]; [left|by right].
    rewrite He, Hd. by exists key.
Qed.
End Created.
