(* ===== verification/WalletGate.v ===== *)
(** * What an API token may sign

    The theorems about [KeyOps] and [WalletSign]: which checks stand between a token and a
    signature, that a token signs with the owner's keys, and which rules of a policy see
    nothing of what is signed. *)

From Stdlib Require Import ZArith Lia Bool String Ascii.
From stdpp Require Import base list strings gmap.
From S2P Require Import Prelude Str Files Trace Json Bytes Passkey Hd Credential WalletWorld PolicyStore KeyStore WalletOps KeyOps WalletSign.
From S2P Require AuditChain Vault Chain ChainKey Enclave WalletFile PolicyV1 Names.

Local Open Scope oc_scope.

(** What is asked to be signed. *)
Inductive Request :=
| SignTransaction (tx_hex : string)
| SignMessage (message : string) (encoding : option string)
| SignHash (hash_hex : string)
| SignAuthorization (address nonce : string)
| SignTypedData (typed_data_json : string).

Section Gate.
Context {S : SerdeNumber} {io_error json_error : Type} {A : AuditChain.AuditEnv io_error json_error}.
Context {D : ChainKey.Display json_error} {L : Lowercase} {H : HdCrypto} {G : AgeFile}.
Context {VJ : Vault.WalletJson io_error json_error} {EJ : EnvelopeJson json_error}.
Context {KJ : KeyJson json_error} {PJ : PolicyJson json_error}.
Context {GS : ChainKey.Signers} {CS : ChainSupport} {MS : MoreSigners} {PE : PolicyEnv} {T : Jiff} {C : Chain.Caip}.
Context {E77 : Eip7702}.

Abbreviation wallet_error := (OcWalletError io_error json_error).
Abbreviation wallet_result := (result wallet_error).

(** The chain of an operation. *)
Abbreviation chain_read := (parse_chain (io_error := io_error) (json_error := json_error)).

(** The operation for a request. *)
Definition perform (io : SignIo io_error) (wallet chain : string) (r : Request) (credential : string) (index : option Z)
    (vault : option string) (d : FS) (p : Proc) : option (wallet_result SignResult) * Proc :=
  match r with
  | SignTransaction tx => sign_transaction io wallet chain tx (Some credential) index vault d p
  | SignMessage m e => sign_message io wallet chain m (Some credential) e index vault d p
  | SignHash h => sign_hash io wallet chain h (Some credential) index vault d p
  | SignAuthorization a n => sign_authorization io wallet chain a n (Some credential) index vault d p
  | SignTypedData j => sign_typed_data io wallet chain j (Some credential) index vault d p
  end.

(** The payload of an EIP-7702 authorization for a chain. *)
Definition authorization_bytes (c : Chain.Chain) (a n : string) : wallet_result bytes :=
  let? reference := ok_or (InvalidInput ("EVM chain '" +:+ Chain.chain_id c +:+ "' is missing an eip155 reference"))
                      (strip_prefix "eip155:" (Chain.chain_id c)) in
  result_map_err Signer (authorization_payload reference a n).

(** What of a request the policies are shown. *)
Definition presented (c : Chain.Chain) (r : Request) : wallet_result (string * option PolicyV1.TypedDataContext) :=
  match r with
  | SignTransaction tx => let? b := hex_param "transaction" tx in Ok (AuditChain.hex_encode b, None)
  | SignMessage m e => let? b := message_bytes m e in Ok (AuditChain.hex_encode b, None)
  | SignHash h => let? b := decode_hash_hex h in Ok (AuditChain.hex_encode b, None)
  | SignAuthorization a n => let? b := authorization_bytes c a n in Ok (AuditChain.hex_encode b, None)
  | SignTypedData j =>
      let? parsed := result_map_err Signer (parse_typed_data j) in
      let? _ := check_domain_chain c parsed in
      Ok ("", Some (typed_data_context parsed j))
  end.

(** The token's key is on the disk and has not expired; the wallet is in its scope. *)
Definition in_scope (io : SignIo io_error) (token name_or_id : string) (vault : option string) (d : FS)
    (key : ApiKeyFile) (w : WalletFile.EncryptedWallet) : Prop :=
  token_hash key = hash_token token /\
  (exists file, key_at (key_dir io) (Names.join (vault_base (ops_io io) vault) "keys") d file = Some key) /\
  (forall t, expires_at key = Some t -> exists n, parse_timestamp t = Ok n /\ (expiry_now io <= n)%Z) /\
  load_wallet (ops_io io) name_or_id vault d = Ok w /\
  In (WalletFile.id w) (wallet_ids key).

Abbreviation passes := (PolicyV1.passes spawn context_to_value value_to_vec context_to_vec verdict_from_slice
  from_utf8_lossy to_lowercase rfc3339_to_unix).

(** Every policy of the key loads, in order, and lets the context pass. *)
Definition policies_pass (io : SignIo io_error) (key : ApiKeyFile) (vault : option string) (d : FS)
    (ctx : PolicyV1.PolicyContext) : Prop :=
  exists ps, Forall2 (fun pid p => exists v, load_policy (policy_dir io) pid (vault_base (ops_io io) vault) d =
                                     Ok {| policy := p; signature_verified := v |}) (policy_ids key) ps /\
    Forall (passes ctx) ps.

(** The token is the one the key's recipient was made from, and opens its envelope. *)
Definition unlocks (token : string) (key : ApiKeyFile) (w : WalletFile.EncryptedWallet) (secret : bytes) : Prop :=
  exists ident value envelope, token_identity token = Ok ident /\ to_recipient_string ident = recipient key /\
    wallet_secrets key !! WalletFile.id w = Some value /\ envelope_from_value value = Ok envelope /\
    decrypt_with_identity envelope ident = Ok secret.

(** ** The parts of the gate *)

Lemma check_expiry_ok (io : SignIo io_error) key : (check_expiry io key : wallet_result unit) = Ok tt <->
  forall t, expires_at key = Some t -> exists n, parse_timestamp t = Ok n /\ (expiry_now io <= n)%Z.
Proof.
  unfold check_expiry. destruct (expires_at key) as [t|]; [|naive_solver].
  destruct (parse_timestamp t) as [n|] eqn:Hp; cbn.
  - destruct (Z.ltb_spec n (expiry_now io)); split; try naive_solver.
    intros Hx. destruct (Hx t eq_refl) as (n' & Hn & ?). rewrite Hp in Hn. injection Hn as <-. lia.
  - split; [done|]. intros Hx. destruct (Hx t eq_refl) as (n' & ? & _). congruence.
Qed.

Lemma scope_of io token nm vault d key w : key_and_wallet io token nm vault d = Ok (key, w) ->
  in_scope io token nm vault d key w.
Proof.
  unfold key_and_wallet. intros Hk. bind1 Hk k Hl. bind1 Hk u He. destruct u. bind1 Hk x Hw.
  destruct (existsb _ (wallet_ids k)) eqn:Hin; [|done]. injection Hk as <- <-.
  apply found_key in Hl as (Hh & dir & file & Hd & Hat). unfold keys_dir, dir_below in Hd.
  destruct (mkdir_err _); [done|]. injection Hd as <-. split_and!; [done|by exists file|by apply check_expiry_ok|done|].
  apply existsb_exists in Hin as (i & Hi & ->%String.eqb_eq). done.
Qed.

Lemma scope_loads io token nm vault d key w :
  load_api_key_by_token_hash (key_dir io) (hash_token token) (vault_base (ops_io io) vault) d = Ok key ->
  (forall t, expires_at key = Some t -> exists n, parse_timestamp t = Ok n /\ (expiry_now io <= n)%Z) ->
  load_wallet (ops_io io) nm vault d = Ok w -> In (WalletFile.id w) (wallet_ids key) ->
  key_and_wallet io token nm vault d = Ok (key, w).
Proof.
  intros Hk He%check_expiry_ok Hw Hin. unfold key_and_wallet. rewrite Hk. cbn [result_bind]. rewrite He.
  cbn [result_bind]. rewrite Hw. cbn [result_bind].
  assert (Hx : existsb (String.eqb (WalletFile.id w)) (wallet_ids key) = true)
    by (apply existsb_exists; exists (WalletFile.id w); split; [done|apply String.eqb_refl]).
  by rewrite Hx.
Qed.

Lemma collect_forall2 {X Y E} (f : X -> result E Y) l ys : collect f l = Ok ys <-> Forall2 (fun x y => f x = Ok y) l ys.
Proof.
  revert ys. induction l as [|x l IH]; intros ys; cbn [collect].
  - split; [intros [= <-]; constructor|]. by inversion 1.
  - split.
    + intros Hc. bind1 Hc y Hy. bind1 Hc zs Hz. injection Hc as <-. constructor; [done|]. by apply IH.
    + inversion 1; subst. match goal with E : f x = Ok _ |- _ => rewrite E end. cbn [result_bind].
      match goal with E : Forall2 _ l _ |- _ => apply IH in E; by rewrite E end.
Qed.

Lemma policies_loaded io key base d ps : load_policies_for_key io key base d = Ok ps <->
  Forall2 (fun pid p => exists v, load_policy io pid base d = Ok {| policy := p; signature_verified := v |}) (policy_ids key) ps.
Proof.
  unfold load_policies_for_key. rewrite collect_forall2.
  assert (Hi : forall pid p, result_map policy (load_policy io pid base d) = Ok p <->
    exists v, load_policy io pid base d = Ok {| policy := p; signature_verified := v |}).
  { intros pid p. destruct (load_policy io pid base d) as [[q v]|]; cbn; naive_solver. }
  split; intros Hf; (eapply Forall2_impl; [exact Hf|]; intros pid p; apply Hi).
Qed.

Lemma evaluate_allows ps ctx r : evaluate ps ctx = Some r -> PolicyV1.allow r = true <-> Forall (passes ctx) ps.
Proof.
  intros He. pose proof He as Hand. unfold evaluate in Hand. apply PolicyV1.evaluate_policies_and in Hand. split.
  - intros Ha. destruct Hand as [[_ Hp]|[Hf _]]; [done|congruence].
  - intros Hp. assert (Hok : evaluate ps ctx = Some PolicyV1.allowed)
      by (apply PolicyV1.evaluate_policies_and; by left). rewrite He in Hok. by injection Hok as ->.
Qed.

Lemma policies_evaluate io key vault d ctx : policies_pass io key vault d ctx ->
  exists ps, load_policies_for_key (policy_dir io) key (vault_base (ops_io io) vault) d = Ok ps /\
    evaluate ps ctx = Some PolicyV1.allowed.
Proof.
  intros (ps & Hl & Hp). exists ps. split; [by apply policies_loaded|]. apply PolicyV1.evaluate_policies_and. by left.
Qed.

(** The key behind the gate: the secret the token unlocks, turned into the chain's key. *)
Lemma unlocked_key io key w token ct index p secret : unlocks token key w secret ->
  decrypt_key_from_api_key io key w token ct index p =
    secret_to_signing_key (cache_clock io) secret (WalletFile.key_type w) ct index p.
Proof.
  intros (ident & value & envelope & Hi & Hr & Hv & He & Ho). unfold decrypt_key_from_api_key.
  rewrite Hv. cbn [ok_or result_bind]. rewrite He. cbn [result_map_err result_bind]. rewrite Hi.
  cbn [result_map_err result_bind]. rewrite (proj2 (ct_eq_iff _ _) Hr), Ho. done.
Qed.

Lemma decrypted_unlocks io key w token ct index p k p' :
  decrypt_key_from_api_key io key w token ct index p = (Ok k, p') ->
  exists secret, unlocks token key w secret /\
    secret_to_signing_key (cache_clock io) secret (WalletFile.key_type w) ct index p = (Ok k, p').
Proof.
  unfold decrypt_key_from_api_key. destruct (result_bind _ _) as [secret|] eqn:Hs; [|done]. intros Hk.
  exists secret. split; [|done]. bind1 Hs val Hv. bind1 Hs env He. bind1 Hs ident Hi.
  destruct (ct_eq _ _) eqn:Hc; [|done]. apply ct_eq_iff in Hc. cbn [negb] in Hs.
  exists ident, val, env.
  destruct (wallet_secrets key !! _); [|done]. injection Hv as ->.
  destruct (envelope_from_value val) eqn:Hev; [|done]. injection He as ->.
  destruct (token_identity token); [|done]. injection Hi as ->.
  destruct (decrypt_with_identity _ _); [|done]. by injection Hs as ->.
Qed.

(** What stands behind a key that the gate gives. *)
Definition cleared (io : SignIo io_error) (token name_or_id : string) (c : Chain.Chain) (raw : string)
    (typed : option PolicyV1.TypedDataContext) (vault : option string) (d : FS) (key : ApiKeyFile)
    (w : WalletFile.EncryptedWallet) : Prop :=
  in_scope io token name_or_id vault d key w /\
  policies_pass io key vault d (policy_context io key w c raw typed) /\
  exists secret, unlocks token key w secret.

Lemma policies_then_key_ok io token key w c raw typed index vault d p k p' :
  policies_then_key io token key w c raw typed index vault d p = (Some (Ok k), p') ->
  policies_pass io key vault d (policy_context io key w c raw typed) /\ exists secret, unlocks token key w secret.
Proof.
  unfold policies_then_key. destruct (load_policies_for_key _ _ _ _) as [ps|] eqn:Hl; [|done].
  destruct (evaluate _ _) as [r|] eqn:He; [|done]. destruct (PolicyV1.allow r) eqn:Ha; [|done]. cbn [negb].
  destruct (decrypt_key_from_api_key _ _ _ _ _ _ _) as [r' p''] eqn:Hd. intros [= -> ->].
  apply decrypted_unlocks in Hd as (secret & Hu & _). split; [|by exists secret].
  exists ps. split; [by apply policies_loaded|]. by eapply evaluate_allows.
Qed.

Lemma enforced_cleared io token nm c raw index vault d p k key p' :
  enforce_policy_and_decrypt_key_with_raw_hex io token nm c raw index vault d p = (Some (Ok (k, key)), p') ->
  exists w, cleared io token nm c raw None vault d key w.
Proof.
  unfold enforce_policy_and_decrypt_key_with_raw_hex. destruct (key_and_wallet _ _ _ _ _) as [[key' w]|] eqn:Hk; [|done].
  destruct (policies_then_key _ _ _ _ _ _ _ _ _ _ _) as [r p''] eqn:Hp. intros [= Hr ->].
  destruct r as [[k'|]|]; [|done..]. injection Hr as -> ->. exists w. split; [by apply scope_of|].
  by eapply policies_then_key_ok.
Qed.

Lemma with_key_ok (r : option (wallet_result (bytes * ApiKeyFile)) * Proc) f s p' : with_key r f = (Some (Ok s), p') -> exists k key, r = (Some (Ok (k, key)), p').
Proof.
  unfold with_key. destruct r as [[[[k key]|]|] q]; cbn; [|done..]. intros [= Hs ->]. by exists k, key.
Qed.

(** The chain's key and the gate, in each operation of a token. *)
Lemma keyed_cleared io token nm c raw index vault d p f s p' :
  with_key (enforce_policy_and_decrypt_key_with_raw_hex io token nm c raw index vault d p) f = (Some (Ok s), p') ->
  exists key w, cleared io token nm c raw None vault d key w.
Proof. intros (k & key & Hk)%with_key_ok. exists key. by eapply enforced_cleared. Qed.

Lemma on_chain_ok {B} chain p (k : Chain.Chain -> Proc -> option (wallet_result B) * Proc) s p' :
  on_chain chain p k = (Some (Ok s), p') -> exists c q, chain_read chain p = (Ok c, q) /\ k c q = (Some (Ok s), p').
Proof. unfold on_chain. destruct (parse_chain chain p) as [[c|] q]; [|done]. by exists c, q. Qed.

Lemma or_fail_ok {X B} (r : wallet_result X) p (k : X -> option (wallet_result B) * Proc) s p' :
  or_fail r p k = (Some (Ok s), p') -> exists x, r = Ok x /\ k x = (Some (Ok s), p').
Proof. destruct r as [x|]; [|done]. by exists x. Qed.

Lemma hash_cleared io wallet c policy_bytes hash token index vault d p s p' :
  is_token (parse_credential token) = true ->
  sign_hash_with_credential io wallet c policy_bytes hash token index vault d p = (Some (Ok s), p') ->
  exists key w, cleared io token wallet c (AuditChain.hex_encode policy_bytes) None vault d key w.
Proof.
  intros Ht. unfold sign_hash_with_credential. destruct (chain_curve _); [|done]. destruct (negb _); [done|].
  rewrite Ht. apply keyed_cleared.
Qed.

Lemma typed_cleared io token wallet c json index vault d p s p' :
  sign_typed_data_with_api_key io token wallet c json index vault d p = (Some (Ok s), p') ->
  exists raw typed key w, presented c (SignTypedData json) = Ok (raw, typed) /\
    cleared io token wallet c raw typed vault d key w.
Proof.
  unfold sign_typed_data_with_api_key. destruct (negb _); [done|].
  destruct (result_bind _ _) as [[[key w] parsed]|] eqn:Hr; [|done].
  bind1 Hr kw Hk. bind1 Hr pd Hp. bind1 Hr u Hc. destruct u. injection Hr as -> ->.
  destruct (policies_then_key _ _ _ _ _ _ _ _ _ _ _) as [r q] eqn:Ht. intros [= Hs ->].
  destruct r as [[k|]|]; [|done..]. exists "", (Some (typed_data_context parsed json)), key, w. split.
  - cbn [presented]. rewrite Hp. cbn [result_bind]. by rewrite Hc.
  - split; [by apply scope_of|]. by eapply policies_then_key_ok.
Qed.

(** C6 A token gets something signed only if all of this held of the disk: a key file
    holds the hash of the token and has not expired; the wallet is in its scope; every
    policy it names was loaded and passes the context, which has the chain and what is
    presented of the request; and the token unlocks the wallet's secret in the key. *)
Theorem signature_gated io wallet chain r token index vault d p s p' :
  is_token (parse_credential token) = true ->
  perform io wallet chain r token index vault d p = (Some (Ok s), p') ->
  exists c raw typed key w, (chain_read chain p).1 = Ok c /\ presented c r = Ok (raw, typed) /\
    cleared io token wallet c raw typed vault d key w.
Proof.
  intros Ht. assert (Hpc : forall c q, chain_read chain p = (Ok c, q) -> (chain_read chain p).1 = Ok c) by (by intros c q ->).
  destruct r as [tx|m e|h|a n|j]; cbn [perform];
    unfold sign_transaction, sign_message, sign_hash, sign_authorization, sign_typed_data; cbn [default from_option]; unfold Datatypes.id.
  - intros (b & Hb & (c & q & Hc & Hs)%on_chain_ok)%or_fail_ok. rewrite Ht in Hs. apply keyed_cleared in Hs as (key & w & Hw).
    exists c, (AuditChain.hex_encode b), None, key, w. cbn [presented]. rewrite Hb. eauto.
  - intros (b & Hb & (c & q & Hc & Hs)%on_chain_ok)%or_fail_ok. rewrite Ht in Hs. apply keyed_cleared in Hs as (key & w & Hw).
    exists c, (AuditChain.hex_encode b), None, key, w. cbn [presented]. rewrite Hb. eauto.
  - intros (c & q & Hc & (b & Hb & Hs)%or_fail_ok)%on_chain_ok. apply hash_cleared in Hs as (key & w & Hw); [|done].
    exists c, (AuditChain.hex_encode b), None, key, w. cbn [presented]. rewrite Hb. eauto.
  - intros (c & q & Hc & Hs)%on_chain_ok. destruct (negb _); [done|].
    apply or_fail_ok in Hs as (i & Hi & Hs). apply or_fail_ok in Hs as (b & Hb & Hs).
    apply or_fail_ok in Hs as (hash & Hh & Hs). apply hash_cleared in Hs as (key & w & Hw); [|done].
    exists c, (AuditChain.hex_encode b), None, key, w. cbn [presented]. unfold authorization_bytes.
    rewrite Hi. cbn [result_bind]. rewrite Hb. eauto.
  - intros (c & q & Hc & Hs)%on_chain_ok. destruct (negb _); [done|]. rewrite Ht in Hs.
    apply typed_cleared in Hs as (raw & typed & key & w & Hp & Hw). exists c, raw, typed, key, w. eauto.
Qed.

(** ** A token signs with the owner's keys *)

Context {EL : EnvelopeJsonLaws EJ} {GL : AgeFileLaws G}.

(** What an entry of a created key is: the secret the owner's passphrase opens, sealed for
    the token. *)
Definition shared (token passphrase : string) (w : WalletFile.EncryptedWallet) (value : Value) : Prop :=
  exists secret ident envelope, opened_wallet w (str_bytes passphrase) = Ok secret /\
    token_identity token = Ok ident /\ envelope_from_value value = Ok envelope /\
    decrypt_with_identity envelope ident = Ok secret.

Lemma opened_locked (w : WalletFile.EncryptedWallet) pass secret : opened_wallet w pass = Ok secret ->
  lock_fails secret = None.
Proof.
  unfold opened_wallet, decrypt_with_passphrase, decrypt_raw, locked. intros Ho. bind1 Ho envelope He.
  destruct (decode_envelope envelope) as [c|]; [|done]. cbn [result_bind] in Ho.
  destruct (open_scrypt _ _) as [b|]; [|done]. cbn [result_map_err result_bind] in Ho.
  destruct (lock_fails b) eqn:Hl; [done|]. by injection Ho as <-.
Qed.

Lemma shared_secret_ok io token pass wid vault d i value : shared_secret io token pass wid vault d = Ok (i, value) ->
  exists w, load_wallet io wid vault d = Ok w /\ WalletFile.id w = i /\ shared token pass w value.
Proof.
  unfold shared_secret. intros Hs. bind1 Hs w Hw. bind1 Hs secret Ho. bind1 Hs r Hr. bind1 Hs e He. bind1 Hs v Hv.
  injection Hs as <- <-. exists w. split_and!; [done..|].
  destruct (token_recipient token) as [r'|] eqn:Hr'; [|done]. injection Hr as <-.
  unfold token_recipient in Hr'. bind1 Hr' ident Hi. injection Hr' as <-.
  destruct (encrypt_to_recipients _ _ _) as [e'|] eqn:He'; [|done]. injection He as <-.
  destruct (envelope_to_value e') as [v'|] eqn:Hv'; [|done]. injection Hv as <-.
  exists secret, ident, e'. split_and!; [done|done|by apply envelope_roundtrip|].
  rewrite (identity_opens _ _ _ _ He'). unfold locked. by rewrite (opened_locked _ _ _ Ho).
Qed.

(** The map of the entries, inserted in order. *)
Abbreviation entered m l := (foldl (fun m kv => <[kv.1 := kv.2]> m) (m : gmap string _) l).

Lemma fold_entries {X} (l : list (string * X)) (m : gmap string X) i x :
  entered m l !! i = Some x -> m !! i = Some x \/ In (i, x) l.
Proof.
  revert m. induction l as [|[k v] l IH]; intros m; cbn [foldl]; [by left|].
  intros [Hx|Hx]%IH; [|right; by right]. cbn in Hx. rewrite lookup_insert_Some in Hx.
  destruct Hx as [[-> ->]|[_ Hx]]; [right; by left|by left].
Qed.

Lemma fold_entries_in {X} (l : list (string * X)) (m : gmap string X) i :
  In i (map fst l) -> is_Some (entered m l !! i).
Proof.
  assert (Hkeep : forall (l : list (string * X)) m, is_Some (m !! i) -> is_Some (entered m l !! i)).
  { clear. induction l as [|[k v] l IH]; intros m Hm; [done|]. cbn [foldl]. apply IH. cbn.
    destruct (decide (k = i)) as [->|Hn]; [rewrite lookup_insert_eq; by eexists|by rewrite lookup_insert_ne]. }
  revert m. induction l as [|[k v] l IH]; intros m; [done|]. cbn [foldl map]. intros [<-|Hi]; [|by apply IH].
  apply Hkeep. cbn. rewrite lookup_insert_eq. by eexists.
Qed.

(** Each wallet of a created key has an entry, of a wallet that was loaded; the recipient is
    the token's. *)
Lemma created_key io nm wallets policies pass expires vault d token key :
  (create_api_key io nm wallets policies pass expires vault d).1 = Ok (token, key) ->
  (exists ident, token_identity token = Ok ident /\ to_recipient_string ident = recipient key) /\
  forall i, In i (wallet_ids key) -> exists value, wallet_secrets key !! i = Some value /\
    exists wid w, load_wallet (create_ops io) wid vault d = Ok w /\ WalletFile.id w = i /\ shared token pass w value.
Proof.
  unfold create_api_key, create_api_key_with_secret_permissions. set (tok := generate_token _).
  rewrite in_turn_read. destruct (collect _ wallets) as [secrets|] eqn:Hs; [|done].
  rewrite in_turn_read. destruct (collect _ policies) as [ps|]; [|done].
  rewrite in_turn_pure. destruct (result_map_err Crypto (token_recipient tok)) as [r|] eqn:Hr; [|done].
  set (kf := Build_ApiKeyFile _ _ _ _ _ _ _ _ _ _).
  unfold in_turn, then_on. destruct (save_api_key _ _ _ _) as [[u|] t]; [|done]. cbn. intros [= <- <-].
  destruct (token_recipient tok) as [r'|] eqn:Hr'; [|done]. injection Hr as <-. split.
  { unfold token_recipient in Hr'. bind1 Hr' ident Hi. exists ident. split; [done|]. by injection Hr' as ->. }
  cbn. intros i Hi. destruct (fold_entries_in secrets ∅ i Hi) as [value Hv]. exists value. split; [done|].
  apply fold_entries in Hv as [Hv|Hv]; [by rewrite lookup_empty in Hv|].
  apply collect_forall2 in Hs. apply list_elem_of_In, list_elem_of_lookup in Hv as [n Hn].
  destruct (Forall2_lookup_r _ _ _ _ _ Hs Hn) as (wid & _ & Hw). apply shared_secret_ok in Hw as (w & Hw & Hi' & Hsh).
  exists wid, w. by split_and!.
Qed.

(** The vault determines the wallet loaded under an id. *)
Lemma loaded_wallet io nm vault d m w :
  Vault.readable (vault_call io 0) ->
  Vault.represents (Names.join (vault_base io vault) "wallets") d m ->
  load_wallet io nm vault d = Ok w -> m !! WalletFile.id w = Some w.
Proof.
  unfold load_wallet, from_vault. intros Hr Hm Hl. destruct (Vault.load_wallet_by_name_or_id _ _ _ _) as [w'|] eqn:Hw; [|done].
  injection Hl as ->. destruct (m !! nm) as [x|] eqn:Hx.
  - rewrite (Vault.load_present _ _ _ _ _ _ Hr Hm Hx) in Hw. injection Hw as ->. by rewrite (proj1 Hm _ _ Hx).
  - by destruct (Vault.load_absent _ _ _ _ _ _ Hr Hm Hx Hw).
Qed.

(** C12 The token of a new key signs with the keys of the wallets' owner: wherever the key is
    found and has not expired, a wallet in its scope is as it was and its policies load and
    pass, the gate answers what unlocking that wallet with the owner's passphrase does, key
    or error, and leaves the same cache. *)
Theorem token_signs_as_owner cio io nm wallets policies pass expires vault d0 m token key name w d c raw index p :
  (create_api_key cio nm wallets policies pass expires vault d0).1 = Ok (token, key) ->
  Vault.readable (vault_call (create_ops cio) 0) ->
  Vault.represents (Names.join (vault_base (create_ops cio) vault) "wallets") d0 m ->
  load_api_key_by_token_hash (key_dir io) (hash_token token) (vault_base (ops_io io) vault) d = Ok key ->
  (forall t, expires_at key = Some t -> exists n, parse_timestamp t = Ok n /\ (expiry_now io <= n)%Z) ->
  load_wallet (ops_io io) name vault d = Ok w -> m !! WalletFile.id w = Some w -> In (WalletFile.id w) (wallet_ids key) ->
  policies_pass io key vault d (policy_context io key w c raw None) ->
  enforce_policy_and_decrypt_key_with_raw_hex io token name c raw index vault d p =
    let '(r, p') := decrypt_signing_key (ops_io io) (cache_clock io) name (Chain.chain_type c) (str_bytes pass) index vault d p in
    (Some (result_map (fun k => (k, key)) r), p').
Proof.
  intros Hc Hr Hm Hk He Hw Hmw Hin Hp. apply created_key in Hc as [(ident & Hi & Hrec) Hent].
  destruct (Hent _ Hin) as (value & Hv & wid & w' & Hw' & Hid & (secret & i' & envelope & Ho & Hi' & Hev & Hd)).
  pose proof (loaded_wallet _ _ _ _ _ _ Hr Hm Hw') as Hm'. rewrite Hid, Hmw in Hm'. injection Hm' as <-.
  rewrite Hi in Hi'. injection Hi' as <-.
  unfold enforce_policy_and_decrypt_key_with_raw_hex. rewrite (scope_loads _ _ _ _ _ _ _ Hk He Hw Hin).
  unfold policies_then_key. destruct (policies_evaluate _ _ _ _ _ Hp) as (ps & Hl & Hev'). rewrite Hl, Hev'.
  cbn [PolicyV1.allow PolicyV1.allowed negb]. rewrite (unlocked_key _ _ _ _ _ _ _ secret) by (by exists ident, value, envelope).
  unfold decrypt_signing_key. rewrite Hw. cbn [result_bind]. rewrite Ho. cbn [result_bind].
  by destruct (secret_to_signing_key _ _ _ _ _ _) as [r q].
Qed.

(** ** Rules that see nothing

    The context of every signature has neither destination nor value. *)

Abbreviation rule := (PolicyV1.evaluate_rule spawn context_to_vec verdict_from_slice from_utf8_lossy to_lowercase rfc3339_to_unix).

(** A cap on the amount lets every signature pass, whatever the transaction moves. *)
Lemma amount_cap_blind (io : SignIo io_error) key w c raw typed pid cap n : PolicyV1.decimal cap = Some n ->
  PolicyV1.allow (rule (PolicyV1.MaxAmount cap) pid (policy_context io key w c raw typed)) = true.
Proof. unfold PolicyV1.decimal. intros Hn. cbn. unfold PolicyV1.amount_exceeds. by rewrite Hn. Qed.

(** An allowlist of recipients, too. *)
Lemma recipients_blind (io : SignIo io_error) key w c raw typed pid l :
  PolicyV1.allow (rule (PolicyV1.AllowedAddresses l) pid (policy_context io key w c raw typed)) = true.
Proof. done. Qed.

(** A list of contracts binds the typed data that is signed as such: what is signed as a
    transaction, message, authorization or hash passes it, the EIP-712 hash of any typed
    data included. *)
Lemma contracts_blind (io : SignIo io_error) key w c raw pid l :
  PolicyV1.allow (rule (PolicyV1.AllowedTypedDataContracts l) pid (policy_context io key w c raw None)) = true.
Proof. done. Qed.
End Gate.
