(* ===== verification/WalletDemo.v ===== *)
(** * A wallet and a key, run

    Concrete codecs and signers that meet what the wallet files assume, and the
    witnesses of their theorems: a policy is saved, a wallet created, an API key made for
    it and a transaction signed with the key's token. *)

From Stdlib Require Import ZArith Lia Bool String Ascii.
From stdpp Require Import base list strings gmap relations.
From S2P Require Import Prelude Str Decimal Files Trace Json Bytes DemoText Passkey Hd Credential WalletWorld PolicyStore KeyStore WalletOps KeyOps WalletSign WalletVault WalletGate.
From S2P Require AuditChain Vault Chain ChainKey Enclave WalletFile PolicyV1 KeyCache Names.

Local Open Scope oc_scope.

#[local] Existing Instances AuditChain.demo_audit_env AuditChain.demo_audit_laws ChainKey.demo_display ChainKey.demo_signers
  Chain.demo_lowercase Chain.demo_caip.

(** ** Codecs *)

(** Texts on lines of their own. *)
Definition demo_lines (l : list string) : option string :=
  if negb (is_nil l) && forallb (fun s => negb (contains_byte lf s)) l then Some (join_char lf l) else None.

Lemma demo_lines_split l s : demo_lines l = Some s -> split_char lf s = l.
Proof.
  unfold demo_lines. destruct (is_nil l) eqn:Hn; [done|]. destruct (forallb _ l) eqn:Hl; [|done]. intros [= <-].
  apply split_join_char; [by destruct l|]. apply Forall_forall. intros x Hx%list_elem_of_In.
  apply (proj1 (forallb_forall _ _) Hl) in Hx. by apply negb_true_iff.
Qed.

(** Sealed bytes carry the passphrase, or the recipients, that open them; an identity is a
    number. *)
Definition demo_sealed {K} `{Countable K} (k : K) (b : bytes) : bytes := str_bytes (to_text (k, b)).
Definition demo_unsealed {K} `{Countable K} (c : bytes) : result string (K * bytes) :=
  ok_or "not sealed" (of_text (Enclave.bytes_string c)).

Lemma demo_unseal {K} `{Countable K} (k : K) b : demo_unsealed (demo_sealed k b) = Ok (k, b).
Proof. unfold demo_unsealed, demo_sealed. by rewrite bytes_string_str_bytes, of_to_text. Qed.

Definition is_byteb (x : Z) : bool := (0 <=? x)%Z && (x <? 256)%Z.

(** Bytes are printed in hexadecimal; the class asks for any list of numbers. *)
Definition demo_print (b : bytes) : string :=
  if forallb is_byteb b then String "h" (hex b) else to_text b.

Definition demo_unprint (s : string) : option bytes :=
  match s with String "h" s' => Some (unhex s') | _ => of_text s end.

Lemma demo_print_back b : demo_unprint (demo_print b) = Some b.
Proof.
  unfold demo_print. destruct (forallb is_byteb b) eqn:Hb; cbn [demo_unprint].
  - rewrite unhex_hex; [done|]. apply Forall_forall. intros x Hx%list_elem_of_In.
    apply (proj1 (forallb_forall _ _) Hb) in Hx. unfold is_byteb in Hx. unfold is_byte. lia.
  - exact (of_to_text b).
Qed.

#[export] Instance demo_age_file : AgeFile := {|
  AgeIdentity := Z;
  AgeRecipient := string;
  to_recipient_string := fmt_Z;
  identity_of_bytes b := Ok (be_value b mod 1009)%Z;
  parse_recipient s := Ok s;
  seal_scrypt _ pass b := Ok (demo_sealed pass b);
  open_scrypt pass c := let? '(p, b) := demo_unsealed c in if String.eqb p pass then Ok b else Err "incorrect passphrase";
  seal_x25519 _ rs b := Ok (demo_sealed rs b);
  open_x25519 i c := let? '(rs, b) := demo_unsealed c in
                     if existsb (String.eqb (fmt_Z i)) rs then Ok b else Err "no matching keys found";
  base64_encode := demo_print;
  base64_decode s := ok_or "invalid base64" (demo_unprint s)
|}.

#[export] Instance demo_age_file_laws : AgeFileLaws demo_age_file.
Proof.
  split; cbn [seal_scrypt open_scrypt seal_x25519 open_x25519 parse_recipient to_recipient_string base64_encode
    base64_decode demo_age_file].
  - intros _ pass b c [= <-]. rewrite (demo_unseal pass b). cbn. by rewrite String.eqb_refl.
  - intros _ rs b c i r [= <-] [= <-] Hin. rewrite (demo_unseal rs b). cbn [result_bind].
    assert (Hx : existsb (String.eqb (fmt_Z i)) rs = true)
      by (apply existsb_exists; exists (fmt_Z i); split; [done|apply String.eqb_refl]). by rewrite Hx.
  - intros b. by rewrite demo_print_back.
Qed.

(** An envelope is the text of its bytes; an object of texts is their list. *)
Definition demo_members (v : @Value demo_number) : option (list (string * string)) :=
  match v with
  | Object m => mapM (fun kv => pair kv.1 <$> as_str kv.2) m
  | _ => None
  end.

#[export] Instance demo_envelopes : EnvelopeJson (S := demo_number) unit := {|
  envelope_to_value e := if String.eqb (cipher e) AGE_CIPHER then Ok (VString (ciphertext e)) else Err tt;
  envelope_from_value v := match v with VString s => Ok {| cipher := AGE_CIPHER; ciphertext := s |} | _ => Err tt end;
  value_to_text v := match demo_members v with Some l => Ok (to_text l) | None => Err tt end;
  value_from_text s := match of_text s with
                       | Some l => Ok (Object (map (fun kv => (kv.1, VString kv.2)) (l : list (string * string))))
                       | None => Err tt
                       end
|}.

#[export] Instance demo_envelopes_laws : EnvelopeJsonLaws demo_envelopes.
Proof.
  split; cbn [envelope_to_value envelope_from_value value_to_text value_from_text demo_envelopes].
  - intros [c t] v. cbn. destruct (String.eqb_spec c AGE_CIPHER) as [->|]; [|done]. by intros [= <-].
  - intros v s. destruct (demo_members v) as [l|] eqn:Hl; [|done]. intros [= <-]. rewrite of_to_text.
    eexists. split; [done|]. intros k. destruct v as [| | | | |mv]; try done. f_equal. f_equal.
    clear k. revert l Hl. induction mv as [|[k v] mv IH]; intros l; cbn.
    + by intros [= <-].
    + destruct v as [| | |t| |]; try done. cbn. unfold demo_members in IH. destruct (mapM _ mv) as [l'|] eqn:Hl'; [|done].
      cbn. intros [= <-]. cbn. by rewrite (IH l').
Qed.

(** A policy with one rule, a list of chains. *)
#[export] Instance demo_policies_json : PolicyJson (S := demo_number) unit := {|
  policy_to_vec p :=
    match PolicyV1.policy_rules p, PolicyV1.executable p, PolicyV1.config p with
    | [PolicyV1.AllowedChains l], None, None =>
        Ok (to_text (PolicyV1.policy_version p, PolicyV1.policy_id_of p :: PolicyV1.policy_name p :: PolicyV1.created_at p :: l))
    | _, _, _ => Err tt
    end;
  policy_from_slice s :=
    match of_text s with
    | Some (v, i :: n :: t :: l) =>
        Ok {| PolicyV1.policy_id_of := i; PolicyV1.policy_name := n; PolicyV1.policy_version := v;
              PolicyV1.created_at := t; PolicyV1.policy_rules := [PolicyV1.AllowedChains l];
              PolicyV1.executable := None; PolicyV1.config := None; PolicyV1.action := PolicyV1.ActionDeny |}
    | _ => Err tt
    end;
  verify_error := "signature error"
|}.

#[export] Instance demo_policies_laws : PolicyJsonLaws demo_policies_json.
Proof.
  intros [i n v t rules exe cfg []] s. cbn. destruct rules as [|[l| | | | | |] [|? ?]]; try done.
  destruct exe, cfg; try done. intros [= <-]. by rewrite of_to_text.
Qed.

(** A key whose secrets are texts. *)
Definition demo_secret_lines (m : gmap string (@Value demo_number)) : list string :=
  concat (map (fun kv => [kv.1; default "" (as_str kv.2)]) (map_to_list m)).

Fixpoint demo_secrets_of (l : list string) : gmap string (@Value demo_number) :=
  match l with
  | k :: v :: l' => <[k := VString v]> (demo_secrets_of l')
  | _ => ∅
  end.

#[export] Instance demo_keys_json : KeyJson (S := demo_number) unit := {|
  key_to_json_pretty k :=
    ok_or tt (demo_lines ([key_id k; key_name k; token_hash k; recipient k; key_created_at k; default "" (expires_at k);
      join_char "," (wallet_ids k); join_char "," (policy_ids k)] ++ demo_secret_lines (wallet_secrets k))%list);
  key_from_json s :=
    match split_char lf s with
    | i :: n :: h :: r :: t :: x :: ws :: ps :: l =>
        Ok {| key_id := i; key_name := n; token_hash := h; recipient := r; key_created_at := t;
              wallet_ids := split_char "," ws; policy_ids := split_char "," ps;
              expires_at := if is_empty x then None else Some x; wallet_secrets := demo_secrets_of l;
              secret_permissions := no_permissions |}
    | _ => Err tt
    end
|}.

(** Wallets as lines. *)
Definition demo_account_lines (l : list WalletFile.WalletAccount) : list string :=
  concat (map (fun a => [WalletFile.account_id a; WalletFile.address a; WalletFile.chain_id a; WalletFile.derivation_path a]) l).

Fixpoint demo_accounts_of (l : list string) : list WalletFile.WalletAccount :=
  match l with
  | i :: a :: c :: p :: l' =>
      {| WalletFile.account_id := i; WalletFile.address := a; WalletFile.chain_id := c; WalletFile.derivation_path := p |} ::
      demo_accounts_of l'
  | _ => []
  end.

Lemma demo_accounts_back l : demo_accounts_of (demo_account_lines l) = l.
Proof. induction l as [|[i a c p] l IH]; [done|]. change (demo_account_lines (_ :: l)) with (i :: a :: c :: p :: demo_account_lines l). cbn [demo_accounts_of]. by rewrite IH. Qed.

Definition demo_key_type (k : string) : WalletFile.KeyType :=
  if String.eqb k "mnemonic" then WalletFile.Mnemonic else WalletFile.PrivateKey.

#[export] Instance demo_wallets_json : Vault.WalletJson (S := demo_number) string unit := {|
  Vault.wallet_fields s :=
    match split_char lf s with
    | v :: k :: i :: n :: t :: c :: l =>
        Ok {| WalletFile.oc_version := default 0%Z (parse_unsigned u64_max v); WalletFile.id := i; WalletFile.name := n;
              WalletFile.created_at := t; WalletFile.chain_type := None; WalletFile.accounts := demo_accounts_of l;
              WalletFile.crypto := VString c; WalletFile.key_type := demo_key_type k; WalletFile.metadata := Null |}
    | _ => Err "not a wallet"
    end;
  Vault.wallet_to_json_pretty w :=
    match WalletFile.crypto w, WalletFile.metadata w, WalletFile.chain_type w with
    | VString c, Null, None =>
        let v := fmt_Z (WalletFile.oc_version w) in
        if bool_decide (default 0%Z (parse_unsigned u64_max v) = WalletFile.oc_version w) then
          ok_or tt (demo_lines (v :: (if bool_decide (WalletFile.key_type w = WalletFile.Mnemonic) then "mnemonic" else "private_key") ::
            WalletFile.id w :: WalletFile.name w :: WalletFile.created_at w :: c :: demo_account_lines (WalletFile.accounts w)))
        else Err tt
    | _, _, _ => Err tt
    end;
  Vault.vault_no_parent _ := "path has no parent directory"
|}.

#[export] Instance demo_wallets_laws : Vault.WalletJsonLaws demo_wallets_json.
Proof.
  intros [v i n t ct accs c kt md] s.
  cbn [Vault.wallet_fields Vault.wallet_to_json_pretty demo_wallets_json WalletFile.oc_version WalletFile.id WalletFile.name
       WalletFile.created_at WalletFile.chain_type WalletFile.accounts WalletFile.crypto WalletFile.key_type WalletFile.metadata].
  destruct c as [| | |c| |], md, ct; try done. case_bool_decide as Hv; [|done].
  destruct (demo_lines _) as [s'|] eqn:Hs; [|done]. intros [= <-]. rewrite (demo_lines_split _ _ Hs).
  rewrite Hv, demo_accounts_back. by destruct kt.
Qed.

(** Hexadecimal digits, which are not white space. *)
Definition demo_hex_char (c : ascii) : bool := existsb (fun n => Ascii.eqb c (hex_digit (Z.of_nat n))) (seq 0 16).

Lemma hex_chars b : is_bytes b -> all_bytes demo_hex_char (hex b) = true.
Proof.
  assert (Hd : forall n, (0 <= n < 16)%Z -> demo_hex_char (hex_digit n) = true).
  { intros n Hn. apply existsb_exists. exists (Z.to_nat n). rewrite Z2Nat.id by lia. split; [|apply Ascii.eqb_refl].
    apply in_seq. lia. }
  induction 1 as [|x b Hx _ IH]; [done|]. unfold is_byte in Hx. cbn [hex all_bytes].
  pose proof (Z.div_mod x 16 ltac:(done)). pose proof (Z.mod_pos_bound x 16 ltac:(done)). rewrite !Hd by lia. done.
Qed.

Lemma space_not_hex w : In w white_space -> all_bytes demo_hex_char w = false.
Proof.
  intros Hw. assert (Hx : forallb (fun w => negb (all_bytes demo_hex_char w)) white_space = true) by runs.
  apply (proj1 (forallb_forall _ _) Hx) in Hw. by apply negb_true_iff.
Qed.

#[export] Instance demo_hex_text : HexText AuditChain.demo_audit_env.
Proof.
  intros b Hb%hex_chars. cbn. split.
  - apply trim_id. split; apply first_some_no; intros w Hw%space_not_hex.
    + destruct (strip_prefix w (hex b)) as [r|] eqn:Hr; [exfalso|done]. apply strip_prefix_some in Hr.
      rewrite Hr, all_bytes_app, Hw in Hb. done.
    + destruct (strip_suffix w (hex b)) as [r|] eqn:Hr; [exfalso|done]. apply strip_suffix_some in Hr.
      rewrite Hr, all_bytes_app, Hw, andb_false_r in Hb. done.
  - revert Hb. generalize (hex b) as s. induction s as [|c s IH]; [done|]. cbn [all_bytes].
    intros [Hc Hs]%andb_true_iff. apply existsb_exists in Hc as (n & Hn%in_seq & ->%Ascii.eqb_eq).
    specialize (IH Hs). revert Hn IH. do 16 (destruct n as [|n]; [intros _ IH; exact IH|]). lia.
Qed.

(** ** Programs, clocks and signers *)

#[export] Instance demo_policy_env : PolicyEnv (S := demo_number) := {|
  spawn := PolicyV1.demo_spawn;
  context_to_value _ := Ok (Object []);
  value_to_vec _ := Ok [];
  context_to_vec _ := Ok [];
  verdict_from_slice := PolicyV1.demo_verdict;
  from_utf8_lossy _ := "";
  rfc3339_to_unix := PolicyV1.demo_seconds
|}.

#[export] Instance demo_jiff : Jiff := {| parse_timestamp s := ok_or "not a timestamp" (parse_unsigned u64_max s) |}.

#[export] Instance demo_more_signers : MoreSigners (S := demo_number) := {|
  sign_raw _ key h := Ok {| ChainKey.signature := key ++ h; ChainKey.recovery_id := Some 0%Z; ChainKey.public_key := None |};
  parse_typed_data _ := Err "not typed data";
  number_as_u64 n := match n with PosInt z => Some z | _ => None end
|}.

#[export] Instance demo_7702 : Eip7702 := {|
  authorization_payload c a n := Ok (str_bytes (c +:+ a +:+ n));
  authorization_hash c a n := Ok (repeat 1%Z 32)
|}.

#[export] Instance demo_chains : ChainSupport := {| xrpl_compiled := true |}.

(** ** The world *)

Definition demo_dir_io : DirIo string := {|
  mkdir_err := None; stat_fails _ := false; read_fails _ := None; missing := "not found"; not_utf8 := "not UTF-8";
  listing_err := None; listing_order l := l; listing_entry_err := None; parent_fails _ := None; faults _ := demo_faults;
  tmp_pid := 7; tmp_nanos := 0; tmp_seq _ := 0%Z; unlink_fails _ := None
|}.

Definition demo_ops (uuid : string) : OpsIo string := {|
  vault_call _ := Vault.demo_vault_io; clock_text := "T1"; new_uuid := uuid; entropy n := repeat 0%Z n;
  random_key := Ok (repeat 2%Z 32); seal_rand := 0
|}.

Definition demo_base : string := "/home/a/.onecipher".

Lemma demo_dir_readable : PolicyStore.readable demo_dir_io.
Proof. by split_and!. Qed.

Lemma demo_vault_readable : Vault.readable Vault.demo_vault_io.
Proof. unfold Vault.readable. split_and!; try done. by exists 16832%Z. Qed.

Lemma demo_steady uuid : steady demo_base None (demo_ops uuid).
Proof. intros n. split; [apply demo_vault_readable|done]. Qed.

(** ** The run *)

Definition demo_policy : PolicyV1.Policy := {|
  PolicyV1.policy_id_of := "p1"; PolicyV1.policy_name := "mainnet only"; PolicyV1.policy_version := 1;
  PolicyV1.created_at := "T0"; PolicyV1.policy_rules := [PolicyV1.AllowedChains ["eip155:1"]];
  PolicyV1.executable := None; PolicyV1.config := None; PolicyV1.action := PolicyV1.ActionDeny
|}.

Definition demo_seed : result string string := Ok "0123456789abcdef0123456789abcdef".

Definition demo_policy_saved : FS := final ∅ (save_policy demo_dir_io demo_seed demo_policy demo_base ∅).

Definition demo_created : result (OcWalletError string unit) WalletInfo * list FS :=
  create_wallet (demo_ops "w") "main" None (Some "pw") None demo_policy_saved.

Definition demo_with_wallet : FS := final demo_policy_saved demo_created.

Definition demo_create_io : CreateIo := {|
  create_keys := demo_dir_io; create_policies := demo_dir_io; create_ops := demo_ops "k"; token_random := repeat 3%Z 32;
  now_text := "T2"
|}.

Definition demo_key_made : result (OcWalletError string unit) (string * ApiKeyFile) * list FS :=
  create_api_key demo_create_io "bot" ["main"] ["p1"] "pw" (Some "2000") None demo_with_wallet.

Definition demo_with_key : FS := final demo_with_wallet demo_key_made.

Definition demo_token : string := generate_token (token_random demo_create_io).

Definition demo_sign_io : SignIo string := {|
  key_dir := demo_dir_io; policy_dir := demo_dir_io; ops_io := demo_ops "-"; cache_clock := demo_clock;
  expiry_now := 1000; context_now := "1000"; context_date := "2026-01-01"
|}.

Definition demo_proc : Proc := {| key_cache := KeyCache.default_cache; interner := Chain.demo_interner |}.

Definition demo_signed (chain : string) :=
  perform demo_sign_io "main" chain (SignTransaction "0x0102") demo_token None None demo_with_key demo_proc.

(** The wallet as it is found, and the owner's key. *)
Abbreviation demo_loaded d := (load_wallet (io_error := string) (json_error := unit) (demo_ops "-") "main" None d).
Abbreviation demo_owner_key ct w d :=
  (decrypt_signing_key (io_error := string) (json_error := unit) (demo_ops "-") demo_clock w ct (str_bytes "pw") None None d demo_proc).

Lemma demo_ok {B E : Type} (r : result E B) : is_ok r = true -> exists b, r = Ok b.
Proof. destruct r as [b|]; [by exists b|done]. Qed.

Lemma demo_vault_start : Vault.represents (Names.join demo_base "wallets") demo_policy_saved (∅ : gmap string WalletFile.EncryptedWallet).
Proof.
  split; [intros i w Hi; by rewrite lookup_empty in Hi|]. intros n w. rewrite lookup_empty. split; [|by intros [? _]].
  intros Hn%Vault.stored_in. assert (Hx : Vault.names_in (Names.join demo_base "wallets") demo_policy_saved = []) by runs.
  rewrite Hx in Hn. destruct (proj1 (elem_of_nil _) Hn).
Qed.

(** The wallet of the run, in its vault. *)
Lemma demo_in_vault : exists m w, Vault.represents (Names.join demo_base "wallets") demo_with_wallet m /\
  demo_loaded demo_with_wallet = Ok w /\ m !! WalletFile.id w = Some w.
Proof.
  destruct (demo_ok demo_created.1 ltac:(runs)) as [info Hi].
  destruct (created_wallet _ _ _ _ _ _ _ _ _ (demo_steady "w") demo_vault_start Hi) as (n & w0 & _ & _ & _ & Hf).
  assert (Hok : is_ok (demo_loaded demo_with_wallet) = true) by runs. destruct (demo_ok _ Hok) as [w Hw].
  exists (<[WalletFile.id w0 := w0]> ∅), w. split_and!; [exact Hf|done|].
  by destruct (loaded_in _ _ _ _ _ _ _ (demo_steady "-") Hf Hw).
Qed.

(** ** Witnesses *)

Lemma save_policy_atomic_witness :
  load_policy demo_dir_io "p1" demo_base demo_policy_saved = Ok {| policy := demo_policy; signature_verified := true |}.
Proof.
  destruct (save_policy_atomic demo_dir_io demo_seed demo_policy demo_base ∅ demo_dir_readable) as [Hl _];
    [by intros s [= <-]|]. apply Hl. runs.
Defined.

Lemma names_unique_witness : well_named demo_base demo_with_wallet.
Proof.
  apply (names_unique demo_base demo_policy_saved).
  - exists ∅. split; [apply demo_vault_start|]. intros i j w w' Hi. by rewrite lookup_empty in Hi.
  - apply rtc_once. apply (Changed _ _ (demo_ops "w") None (Create "main" None (Some "pw")) demo_proc); [apply demo_steady|].
    change demo_with_wallet with (final demo_policy_saved demo_created).
    assert (Hf : final demo_policy_saved demo_created =
      final demo_policy_saved (run (demo_ops "w") None (Create "main" None (Some "pw")) demo_proc demo_policy_saved)) by runs.
    rewrite Hf. apply final_in. runs.
Defined.

Lemma created_signs_witness : exists info phrase a key,
  demo_created.1 = Ok info /\ export_wallet (demo_ops "-") (info_id info) (Some "pw") None demo_with_wallet = Ok phrase /\
  In a (info_accounts info) /\ info_chain_id a = "solana:5eykt4UsFv8P8NJdTREpY1vzqKqZKvdp" /\
  (demo_owner_key Chain.Solana (info_id info) demo_with_wallet).1 = Ok key.
Proof.
  destruct (demo_ok demo_created.1 ltac:(runs)) as [info Hi].
  destruct (created_signs (demo_ops "w") (demo_ops "-") demo_clock "main" None (Some "pw") None demo_base demo_policy_saved ∅ info
    (demo_steady "w") (demo_steady "-") demo_vault_start Hi) as (n & mn & _ & _ & He & _ & Hs).
  destruct (Hs Chain.Solana demo_proc eq_refl (empty_sound _ _)) as (a & Hin & Hc & [(key & Hk & _)|(e & _ & _ & _ & _ & Hheld & _)]);
    [|rewrite (lookup_empty _ : KeyCache.entries (KeyCache.inner (key_cache demo_proc)) !! _ = None) in Hheld; discriminate Hheld].
  exists info, (str_bytes (to_phrase mn)), a, key. split_and!; [exact Hi|exact He|exact Hin|rewrite Hc; runs|exact Hk].
Defined.

Lemma signature_gated_witness : exists s c raw typed key w,
  (demo_signed "ethereum").1 = Some (Ok s) /\ presented c (SignTransaction "0x0102") = Ok (raw, typed) /\
  cleared demo_sign_io demo_token "main" c raw typed None demo_with_key key w.
Proof.
  assert (Hs : exists s, (demo_signed "ethereum").1 = Some (Ok s)) by (vm_compute; by eexists). destruct Hs as [s Hs].
  assert (Hrun : demo_signed "ethereum" = (Some (Ok s), (demo_signed "ethereum").2))
    by (rewrite <- Hs; apply surjective_pairing).
  destruct (signature_gated demo_sign_io "main" "ethereum" (SignTransaction "0x0102") demo_token None None demo_with_key demo_proc s
    (demo_signed "ethereum").2) as (c & raw & typed & key & w & _ & Hp & Hc); [runs|exact Hrun|].
  exists s, c, raw, typed, key, w. exact (conj Hs (conj Hp Hc)).
Defined.

(** With the token as with the passphrase. *)
Lemma token_signs_as_owner_witness : exists c key k,
  (enforce_policy_and_decrypt_key_with_raw_hex demo_sign_io demo_token "main" c "00" None None demo_with_key demo_proc).1 =
    Some (Ok (k, key)) /\
  (demo_owner_key (Chain.chain_type c) "main" demo_with_key).1 = Ok k.
Proof.
  destruct (demo_ok demo_key_made.1 ltac:(runs)) as [[token key] Hk].
  destruct demo_in_vault as (m & w & Hm & Hw & Hmw).
  assert (Ht : token = demo_token).
  { assert (Hx : result_map fst demo_key_made.1 = Ok demo_token) by runs. rewrite Hk in Hx. injection Hx as Hx. exact Hx. }
  subst token. set (c := Chain.mk "ethereum" Chain.Evm "eip155:1").
  assert (Hl : load_api_key_by_token_hash demo_dir_io (hash_token demo_token) demo_base demo_with_key = Ok key).
  { assert (Hx : load_api_key_by_token_hash demo_dir_io (hash_token demo_token) demo_base demo_with_key = result_map snd demo_key_made.1) by runs.
    rewrite Hx, Hk. reflexivity. }
  assert (Hids : wallet_ids key = ["w"] /\ policy_ids key = ["p1"] /\ expires_at key = Some "2000").
  { assert (Hx : result_map (fun tk => (wallet_ids tk.2, policy_ids tk.2, expires_at tk.2)) demo_key_made.1 = Ok (["w"], ["p1"], Some "2000"))
      by runs. rewrite Hk in Hx. injection Hx as H1 H2 H3. exact (conj H1 (conj H2 H3)). }
  destruct Hids as (Hws & Hps & Hexp).
  assert (Hid : WalletFile.id w = "w").
  { assert (Hx : result_map WalletFile.id (demo_loaded demo_with_wallet) = Ok "w") by runs.
    rewrite Hw in Hx. injection Hx as Hx. exact Hx. }
  assert (Hw' : demo_loaded demo_with_key = Ok w).
  { assert (Hx : demo_loaded demo_with_key = demo_loaded demo_with_wallet) by runs.
    rewrite Hx. exact Hw. }
  pose proof (token_signs_as_owner demo_create_io demo_sign_io "bot" ["main"] ["p1"] "pw" (Some "2000") None demo_with_wallet m
    demo_token key "main" w demo_with_key c "00" None demo_proc Hk demo_vault_readable Hm Hl) as Hsame.
  rewrite Hexp, Hws, Hid in Hsame. rewrite Hid in Hmw.
  specialize (Hsame ltac:(intros t [= <-]; exists 2000%Z; split; [runs|done]) Hw' Hmw ltac:(by left)).
  assert (Hpass : policies_pass demo_sign_io key None demo_with_key (policy_context demo_sign_io key w c "00" None)).
  { exists [demo_policy]. rewrite Hps. split.
    - constructor; [|constructor]. exists true. runs.
    - constructor; [|constructor]. exists PolicyV1.allowed. split; [|done]. reflexivity. }
  specialize (Hsame Hpass).
  assert (Hok : is_ok (demo_owner_key (Chain.chain_type c) "main" demo_with_key).1 = true) by runs.
  destruct (demo_ok _ Hok) as [k Hkey].
  exists c, key, k. split; [|exact Hkey]. cbn [ops_io cache_clock demo_sign_io] in Hsame. rewrite Hsame.
  destruct (decrypt_signing_key _ _ _ _ _ _ _ _ _) as [r q]. cbn [fst] in Hkey |- *. by rewrite Hkey.
Defined.

(** A rule on amounts is in force and a transaction of any size is signed. *)
Example demo_amount_unseen : exists ctx,
  PolicyV1.decimal "1" = Some 1%Z /\ PolicyV1.raw_hex (PolicyV1.transaction ctx) = "0102" /\
  evaluate [{| PolicyV1.policy_id_of := "cap"; PolicyV1.policy_name := "one wei"; PolicyV1.policy_version := 1;
               PolicyV1.created_at := ""; PolicyV1.policy_rules := [PolicyV1.MaxAmount "1"];
               PolicyV1.executable := None; PolicyV1.config := None; PolicyV1.action := PolicyV1.ActionDeny |}] ctx =
    Some PolicyV1.allowed.
Proof.
  exists {| PolicyV1.chain_id := "eip155:1"; PolicyV1.wallet_id := "w"; PolicyV1.api_key_id := "k";
            PolicyV1.transaction := no_transaction "0102"; PolicyV1.spending := noop_spending_context "2026-01-01";
            PolicyV1.timestamp := "1000"; PolicyV1.typed_data := None |}. repeat split; runs.
Qed.
