(* ===== verification/SiwxMessage.v ===== *)
(** * Sign-In with X messages: data, field checks and builders

    [crates/oc-siwx/src/message.rs], [error.rs] and [nonce.rs].  The crates the
    code calls ([jiff] for time, [iri-string] for RFC 3986 syntax) are the class
    [External]; what they document is [ExternalLaws]. *)

From Stdlib Require Import ZArith Lia Bool String Ascii DecimalString.
From stdpp Require Import base list strings.
From S2P Require Import Prelude Str.

Local Open Scope oc_scope.

(** ** Errors *)

Inductive FormatReason :=
| CrLf
| MissingPreamble
| MissingAccountSuffix
| UnexpectedEof
| ExpectedBlankLine
| UnexpectedTrailing
| MissingField (tag : string)
| VersionNotOne
| EmptyChainId
| ResourceSyntax
| Other.

Inductive ChainIdReason := Empty | NotDecimal | LeadingZero | Overflow | BadCharset.

Inductive SiwxError :=
| InvalidDomain (reason : string)
| DomainMismatch (expected actual : string)
| InvalidScheme (reason : string)
| SchemeMismatch (expected actual : option string)
| InvalidAddress (reason : string)
| InvalidUri (reason : string)
| UriMismatch (expected actual : string)
| InvalidTimestamp (reason : string)
| InvalidNonce (reason : string)
| NonceMismatch (expected actual : string)
| InvalidStatement (reason : string)
| InvalidRequestId (reason : string)
| RequestIdMismatch (expected actual : option string)
| InvalidChainId (reason : ChainIdReason)
| ChainIdMismatch (expected actual : string)
| ChainNameMismatch (expected : string) (actual : option string)
| Expired
| NotYetValid
| StaleIssuedAt
| InvalidFormat (reason : FormatReason)
| MessageTooLarge (len max : Z)
| TooManyResources (count max : Z)
| InvalidSignature (reason : string)
| VerificationFailed (reason : string)
| Backend (reason : string).

Definition invalid_format (reason : FormatReason) : SiwxError := InvalidFormat reason.

Definition show_format_reason (r : FormatReason) : string :=
  match r with
  | CrLf => "CR not allowed"
  | MissingPreamble => "missing preamble marker"
  | MissingAccountSuffix => "missing account suffix"
  | UnexpectedEof => "unexpected end of input"
  | ExpectedBlankLine => "expected blank line"
  | UnexpectedTrailing => "unexpected trailing content"
  | MissingField field => "missing " +:+ field
  | VersionNotOne => "version must be 1"
  | EmptyChainId => "empty chain id"
  | ResourceSyntax => "resource line must start with '- '"
  | Other => "invalid format"
  end.

Definition show_chain_id_reason (r : ChainIdReason) : string :=
  match r with
  | Empty => "empty"
  | NotDecimal => "not decimal"
  | LeadingZero => "leading zero"
  | Overflow => "overflow"
  | BadCharset => "bad charset"
  end.

(** [Display]; [debug_str] is the [Debug] form of a string, and [Some] and [None]
    print as themselves. *)
Definition show_siwx_error (debug_str : string -> string) (e : SiwxError) : string :=
  let debug o := match o with Some s => "Some(" +:+ debug_str s +:+ ")" | None => "None" end in
  let mismatch what expected actual :=
    what +:+ " mismatch: expected " +:+ expected +:+ ", got " +:+ actual in
  match e with
  | InvalidDomain r => "invalid domain: " +:+ r
  | DomainMismatch e a => mismatch "domain" e a
  | InvalidScheme r => "invalid scheme: " +:+ r
  | SchemeMismatch e a => mismatch "scheme" (debug e) (debug a)
  | InvalidAddress r => "invalid address: " +:+ r
  | InvalidUri r => "invalid uri: " +:+ r
  | UriMismatch e a => mismatch "uri" e a
  | InvalidTimestamp r => "invalid timestamp: " +:+ r
  | InvalidNonce r => "invalid nonce: " +:+ r
  | NonceMismatch e a => mismatch "nonce" e a
  | InvalidStatement r => "invalid statement: " +:+ r
  | InvalidRequestId r => "invalid request id: " +:+ r
  | RequestIdMismatch e a => mismatch "request id" (debug e) (debug a)
  | InvalidChainId r => "invalid chain id: " +:+ show_chain_id_reason r
  | ChainIdMismatch e a => mismatch "chain id" e a
  | ChainNameMismatch e a => mismatch "chain name" e (debug a)
  | Expired => "message expired"
  | NotYetValid => "message not yet valid"
  | StaleIssuedAt => "issued-at exceeds max age"
  | InvalidFormat r => "invalid message format: " +:+ show_format_reason r
  | MessageTooLarge len max =>
      "message exceeds maximum size of " +:+ fmt_Z max +:+ " bytes, got " +:+ fmt_Z len
  | TooManyResources count max => "too many resources: " +:+ fmt_Z count +:+ " > " +:+ fmt_Z max
  | InvalidSignature r => "invalid signature: " +:+ r
  | VerificationFailed r => "verification failed: " +:+ r
  | Backend r => "backend error: " +:+ r
  end.

(** ** Limits *)

Definition VERSION : string := "1".
Definition MIN_NONCE_LEN : Z := 8.
Definition MAX_MESSAGE_BYTES : Z := 16384.
Definition MAX_RESOURCES : Z := 32.
Definition MAX_STATEMENT_BYTES : Z := 4096.
Definition MAX_REQUEST_ID_BYTES : Z := 128.
Definition MAX_URI_BYTES : Z := 2048.

(** [parser.rs] defines it; [check_domain] needs it. *)
Definition PREAMBLE_MID : string := " wants you to sign in with your ".

(** ** Characters *)

Definition one_of (chars : string) (c : ascii) : bool :=
  existsb (Ascii.eqb c) (list_ascii_of_string chars).

Definition is_scheme_char (c : ascii) : bool := is_ascii_alphanumeric c || one_of "+-." c.

Definition is_statement_char (c : ascii) : bool :=
  is_ascii_alphanumeric c || one_of "-._~:/?#[]@!$&'()*+,;= " c.

Definition is_unreserved (c : ascii) : bool := is_ascii_alphanumeric c || one_of "-._~" c.
Definition is_sub_delim (c : ascii) : bool := one_of "!$&'()*+,;=" c.

Fixpoint is_pchar_string (s : string) : bool :=
  match s with
  | EmptyString => true
  | String c s' =>
      if is_unreserved c || is_sub_delim c || Ascii.eqb c ":" || Ascii.eqb c "@"
      then is_pchar_string s'
      else if Ascii.eqb c "%" then
        match s' with
        | String h1 (String h2 s'') =>
            if is_ascii_hexdigit h1 && is_ascii_hexdigit h2 then is_pchar_string s'' else false
        | _ => false
        end
      else false
  end.

(** The last byte, or the last six, of the text. *)
Definition has_rfc3339_timezone (s : string) : bool :=
  match rev (list_ascii_of_string s) with
  | c :: rest =>
      if Ascii.eqb c "Z" || Ascii.eqb c "z" then true
      else match c :: rest with
           | m2 :: m1 :: colon :: h2 :: h1 :: sign :: _ =>
               (Ascii.eqb sign "+" || Ascii.eqb sign "-") && Ascii.eqb colon ":" &&
               is_ascii_digit h1 && is_ascii_digit h2 && is_ascii_digit m1 && is_ascii_digit m2
           | _ => false
           end
  | [] => false
  end.

(** ** What the code calls *)

(** [jiff::Timestamp] and [SignedDuration], [iri_string]'s validators; errors are
    their text. *)
Class External := {
  Instant : Type;
  Duration : Type;
  instant_parse : string -> result string Instant;
  instant_display : Instant -> string;
  instant_eqb : Instant -> Instant -> bool;
  as_second : Instant -> Z;
  duration_since : Instant -> Instant -> Duration;
  from_secs : Z -> Duration;
  duration_sub : Duration -> Duration -> outcome Duration;
  duration_ltb : Duration -> Duration -> bool;
  authority : string -> bool;
  uri_string : string -> result string unit
}.

(** RFC 3986: an authority has no slash, and no URI has a space or a control
    character. *)
Definition is_uri_char (c : ascii) : bool :=
  is_unreserved c || is_sub_delim c || one_of ":/?#[]@%" c.
Definition is_authority_char (c : ascii) : bool :=
  is_unreserved c || is_sub_delim c || one_of ":[]@%" c.

Definition no_line_break (c : ascii) : bool := negb (Ascii.eqb c lf) && negb (Ascii.eqb c cr).

(** The documented behaviour the theorems rely on: the character sets of RFC
    3986, no line break in a date-time, RFC 3339 as the display format, equality
    of instants, and durations that count nanoseconds, with a subtraction that is
    exact unless it panics. *)
Class ExternalLaws (E : External) := {
  authority_chars s : authority s = true -> all_bytes is_authority_char s = true;
  uri_chars s : uri_string s = Ok tt -> all_bytes is_uri_char s = true;
  instant_chars s t : instant_parse s = Ok t -> all_bytes no_line_break s = true;
  instant_display_form t :
    contains_byte "T" (instant_display t) = true /\ has_rfc3339_timezone (instant_display t) = true;
  instant_eqb_spec a b : instant_eqb a b = true <-> a = b;
  instant_ns : Instant -> Z;
  duration_ns : Duration -> Z;
  duration_since_ns a b : duration_ns (duration_since a b) = (instant_ns a - instant_ns b)%Z;
  from_secs_ns s : duration_ns (from_secs s) = (s * 1000000000)%Z;
  duration_sub_ns a b d : duration_sub a b = Ret d -> duration_ns d = (duration_ns a - duration_ns b)%Z;
  duration_ltb_ns a b : duration_ltb a b = (duration_ns a <? duration_ns b)%Z
}.

Section Message.
Context `{E : External}.

(** ** Timestamps *)

Record Timestamp := { parsed : Instant; original : string }.

Definition timestamp_parse (s : string) : result SiwxError Timestamp :=
  if negb (contains_byte "T" s) && negb (contains_byte "t" s) then
    Err (InvalidTimestamp "must contain T date-time separator")
  else if negb (has_rfc3339_timezone s) then
    Err (InvalidTimestamp "must have timezone Z or ±HH:MM")
  else
    let? parsed := result_map_err InvalidTimestamp (instant_parse s) in
    Ok {| parsed := parsed; original := s |}.

Definition from_instant (t : Instant) : result SiwxError Timestamp :=
  let original := instant_display t in
  let? reparsed := result_map_err InvalidTimestamp (instant_parse original) in
  if negb (instant_eqb reparsed t) then Err (InvalidTimestamp "timestamp round-trip mismatch")
  else Ok {| parsed := t; original := original |}.

(** ** Field checks *)

Definition check_scheme (scheme : string) : result SiwxError string :=
  match scheme with
  | EmptyString => Err (InvalidScheme "empty")
  | String c _ =>
      if negb (is_ascii_alphabetic c) then Err (InvalidScheme "must start with ASCII letter")
      else if negb (all_bytes is_scheme_char scheme) then
        Err (InvalidScheme "must be ASCII alphanumeric, '+', '-', or '.'")
      else Ok scheme
  end.

Definition check_domain (domain : string) : result SiwxError string :=
  if is_empty domain then Err (InvalidDomain "empty")
  else if contains PREAMBLE_MID domain then Err (InvalidDomain "preamble marker")
  else if negb (authority domain) then Err (InvalidDomain "not RFC 3986 authority")
  else Ok domain.

Definition check_statement (statement : string) : result SiwxError unit :=
  if is_empty statement then Err (InvalidStatement "empty")
  else if (MAX_STATEMENT_BYTES <? str_len statement)%Z then
    Err (InvalidStatement "exceeds maximum size")
  else if negb (all_bytes is_statement_char statement) then
    Err (InvalidStatement "must be reserved / unreserved / SP")
  else Ok tt.

Definition check_uri (uri : string) : result SiwxError string :=
  if (MAX_URI_BYTES <? str_len uri)%Z then
    Err (InvalidUri ("exceeds maximum size of " +:+ fmt_Z MAX_URI_BYTES +:+ " bytes, got " +:+
                     fmt_Z (str_len uri)))
  else
    let? _ := result_map_err InvalidUri (uri_string uri) in Ok uri.

Definition check_request_id (rid : string) : result SiwxError string :=
  if (MAX_REQUEST_ID_BYTES <? str_len rid)%Z then Err (InvalidRequestId "exceeds maximum size")
  else if negb (is_pchar_string rid) then Err (InvalidRequestId "must be pchar")
  else Ok rid.

Fixpoint check_uris (uris : list string) : result SiwxError unit :=
  match uris with
  | [] => Ok tt
  | uri :: uris' => let? _ := check_uri uri in check_uris uris'
  end.

Definition check_resources (resources : list string) : result SiwxError (list string) :=
  let n := Z.of_nat (length resources) in
  if (MAX_RESOURCES <? n)%Z then Err (TooManyResources n MAX_RESOURCES)
  else let? _ := check_uris resources in Ok resources.

Definition check_nonce_shape (nonce : string) : result SiwxError string :=
  if (str_len nonce <? MIN_NONCE_LEN)%Z then
    Err (InvalidNonce ("must be at least " +:+ fmt_Z MIN_NONCE_LEN +:+ " characters, got " +:+
                       fmt_Z (str_len nonce)))
  else if negb (all_bytes is_ascii_alphanumeric nonce) then
    Err (InvalidNonce "must be ASCII alphanumeric")
  else Ok nonce.

(** ** Messages *)

Record SiwxMessage := {
  scheme : option string;
  domain : string;
  address : string;
  statement : option string;
  uri : string;
  version : string;
  chain_id : string;
  chain_name : option string;
  nonce : string;
  issued_at : Timestamp;
  expiration_time : option Timestamp;
  not_before : option Timestamp;
  request_id : option string;
  resources : list string
}.

(** The wire form has the same fields. *)
Definition SiwxMessageDto : Type := SiwxMessage.

Definition check_optional {A} (check : string -> result SiwxError A) (o : option string)
  : result SiwxError (option A) := transpose (option_map check o).

Definition try_from (dto : SiwxMessageDto) : result SiwxError SiwxMessage :=
  let? scheme := check_optional check_scheme (scheme dto) in
  let? domain := check_domain (domain dto) in
  if is_empty (address dto) then Err (InvalidAddress "empty")
  else
    let? _ := match statement dto with Some s => check_statement s | None => Ok tt end in
    let? uri := check_uri (uri dto) in
    if negb (String.eqb (version dto) VERSION) then Err (InvalidFormat VersionNotOne)
    else if is_empty (chain_id dto) then Err (InvalidChainId Empty)
    else
      let? nonce := check_nonce_shape (nonce dto) in
      let? request_id := check_optional check_request_id (request_id dto) in
      let? resources := check_resources (resources dto) in
      Ok {| scheme := scheme; domain := domain; address := address dto;
            statement := statement dto; uri := uri; version := version dto;
            chain_id := chain_id dto; chain_name := chain_name dto; nonce := nonce;
            issued_at := issued_at dto; expiration_time := expiration_time dto;
            not_before := not_before dto; request_id := request_id; resources := resources |}.

(** [now] is what [jiff::Timestamp::now()] reads. *)
Definition new (now : Instant) (domain address uri chain_id nonce : string)
  : result SiwxError SiwxMessage :=
  let? domain := check_domain domain in
  if is_empty address then Err (InvalidAddress "empty")
  else
    let? uri := check_uri uri in
    if is_empty chain_id then Err (InvalidChainId Empty)
    else
      let? nonce := check_nonce_shape nonce in
      let? issued_at := from_instant now in
      Ok {| scheme := None; domain := domain; address := address; statement := None; uri := uri;
            version := VERSION; chain_id := chain_id; chain_name := None; nonce := nonce;
            issued_at := issued_at; expiration_time := None; not_before := None;
            request_id := None; resources := [] |}.

(** ** Builders *)

Definition with_scheme (m : SiwxMessage) (s : string) : result SiwxError SiwxMessage :=
  let? s := check_scheme s in
  Ok {| scheme := Some s; domain := domain m; address := address m; statement := statement m;
        uri := uri m; version := version m; chain_id := chain_id m; chain_name := chain_name m;
        nonce := nonce m; issued_at := issued_at m; expiration_time := expiration_time m;
        not_before := not_before m; request_id := request_id m; resources := resources m |}.

Definition with_statement (m : SiwxMessage) (s : string) : result SiwxError SiwxMessage :=
  let? _ := check_statement s in
  Ok {| scheme := scheme m; domain := domain m; address := address m; statement := Some s;
        uri := uri m; version := version m; chain_id := chain_id m; chain_name := chain_name m;
        nonce := nonce m; issued_at := issued_at m; expiration_time := expiration_time m;
        not_before := not_before m; request_id := request_id m; resources := resources m |}.

Definition with_nonce (m : SiwxMessage) (n : string) : result SiwxError SiwxMessage :=
  let? n := check_nonce_shape n in
  Ok {| scheme := scheme m; domain := domain m; address := address m; statement := statement m;
        uri := uri m; version := version m; chain_id := chain_id m; chain_name := chain_name m;
        nonce := n; issued_at := issued_at m; expiration_time := expiration_time m;
        not_before := not_before m; request_id := request_id m; resources := resources m |}.

Definition set_times (m : SiwxMessage) (iat : Timestamp) (exp nbf : option Timestamp)
  : SiwxMessage :=
  {| scheme := scheme m; domain := domain m; address := address m; statement := statement m;
     uri := uri m; version := version m; chain_id := chain_id m; chain_name := chain_name m;
     nonce := nonce m; issued_at := iat; expiration_time := exp; not_before := nbf;
     request_id := request_id m; resources := resources m |}.

Definition with_issued_at (m : SiwxMessage) (t : Instant) : result SiwxError SiwxMessage :=
  let? t := from_instant t in Ok (set_times m t (expiration_time m) (not_before m)).
Definition with_expiration_time (m : SiwxMessage) (t : Instant) : result SiwxError SiwxMessage :=
  let? t := from_instant t in Ok (set_times m (issued_at m) (Some t) (not_before m)).
Definition with_not_before (m : SiwxMessage) (t : Instant) : result SiwxError SiwxMessage :=
  let? t := from_instant t in Ok (set_times m (issued_at m) (expiration_time m) (Some t)).
Definition with_issued_at_raw (m : SiwxMessage) (s : string) : result SiwxError SiwxMessage :=
  let? t := timestamp_parse s in Ok (set_times m t (expiration_time m) (not_before m)).
Definition with_expiration_time_raw (m : SiwxMessage) (s : string)
  : result SiwxError SiwxMessage :=
  let? t := timestamp_parse s in Ok (set_times m (issued_at m) (Some t) (not_before m)).
Definition with_not_before_raw (m : SiwxMessage) (s : string) : result SiwxError SiwxMessage :=
  let? t := timestamp_parse s in Ok (set_times m (issued_at m) (expiration_time m) (Some t)).

Definition with_request_id (m : SiwxMessage) (rid : string) : result SiwxError SiwxMessage :=
  let? rid := check_request_id rid in
  Ok {| scheme := scheme m; domain := domain m; address := address m; statement := statement m;
        uri := uri m; version := version m; chain_id := chain_id m; chain_name := chain_name m;
        nonce := nonce m; issued_at := issued_at m; expiration_time := expiration_time m;
        not_before := not_before m; request_id := Some rid; resources := resources m |}.

Definition with_resources (m : SiwxMessage) (rs : list string) : result SiwxError SiwxMessage :=
  let? rs := check_resources rs in
  Ok {| scheme := scheme m; domain := domain m; address := address m; statement := statement m;
        uri := uri m; version := version m; chain_id := chain_id m; chain_name := chain_name m;
        nonce := nonce m; issued_at := issued_at m; expiration_time := expiration_time m;
        not_before := not_before m; request_id := request_id m; resources := rs |}.

(** ** CAIP-10 *)

Definition is_caip2_namespace (s : string) : bool :=
  (3 <=? str_len s)%Z && (str_len s <=? 8)%Z &&
  all_bytes (fun b => is_ascii_lowercase b || is_ascii_digit b || Ascii.eqb b "-") s.

Definition is_caip10_address (s : string) : bool :=
  (1 <=? str_len s)%Z && (str_len s <=? 128)%Z &&
  all_bytes (fun b => is_ascii_alphanumeric b || one_of "-.%" b) s.

Definition caip10 (m : SiwxMessage) (namespace : string) : result SiwxError string :=
  if negb (is_caip2_namespace namespace) then
    Err (InvalidAddress "CAIP-10 namespace must be [-a-z0-9]{3,8}")
  else if negb (is_caip10_address (address m)) then
    Err (InvalidAddress "CAIP-10 address must be [-.%a-zA-Z0-9]{1,128}")
  else Ok (namespace +:+ ":" +:+ chain_id m +:+ ":" +:+ address m).

(** ** Nonces ([nonce.rs]): [random_range] at [0..62] is [rng] *)

Definition DEFAULT_LEN : nat := 17.
Definition ALPHABET : string := "ABCDEFGHIJKLMNOPQRSTUVWXYZabcdefghijklmnopqrstuvwxyz0123456789".

Fixpoint random_alnum_from (rng : nat -> nat) (i len : nat) : string :=
  match len with
  | O => EmptyString
  | S len' =>
      String (nth (rng i) (list_ascii_of_string ALPHABET) "A"%char) (random_alnum_from rng (S i) len')
  end.

Definition random_alnum (rng : nat -> nat) (len : nat) : string := random_alnum_from rng 0 len.

Definition generate (rng : nat -> nat) (len : nat) : result SiwxError string :=
  if (Z.of_nat len <? MIN_NONCE_LEN)%Z then
    Err (InvalidNonce ("length must be at least " +:+ fmt_Z MIN_NONCE_LEN +:+ ", got " +:+
                       fmt_Z (Z.of_nat len)))
  else Ok (random_alnum rng len).

Definition generate_default (rng : nat -> nat) : string := random_alnum rng DEFAULT_LEN.

(** ** Well-formed messages *)

(** A timestamp whose text denotes its instant. *)
Definition ts_ok (t : Timestamp) : Prop := timestamp_parse (original t) = Ok t.

Record shape_ok (m : SiwxMessage) : Prop := {
  ok_scheme : forall s, scheme m = Some s -> check_scheme s = Ok s;
  ok_domain : check_domain (domain m) = Ok (domain m);
  ok_address : address m <> "";
  ok_statement : forall s, statement m = Some s -> check_statement s = Ok tt;
  ok_uri : check_uri (uri m) = Ok (uri m);
  ok_version : version m = VERSION;
  ok_chain_id : chain_id m <> "";
  ok_nonce : check_nonce_shape (nonce m) = Ok (nonce m);
  ok_request_id : forall s, request_id m = Some s -> check_request_id s = Ok s;
  ok_resources : check_resources (resources m) = Ok (resources m);
  ok_issued_at : ts_ok (issued_at m);
  ok_expiration : forall t, expiration_time m = Some t -> ts_ok t;
  ok_not_before : forall t, not_before m = Some t -> ts_ok t
}.

(** Every check returns its argument. *)
Lemma check_scheme_id s s' : check_scheme s = Ok s' -> s' = s.
Proof. unfold check_scheme. intros H. repeat case_match; simplify_eq; done. Qed.
Lemma check_domain_id s s' : check_domain s = Ok s' -> s' = s.
Proof. unfold check_domain. intros H. repeat case_match; simplify_eq; done. Qed.
Lemma check_uri_id s s' : check_uri s = Ok s' -> s' = s.
Proof. unfold check_uri. intros H. case_match; [done|]. bind_ok H. congruence. Qed.
Lemma check_nonce_id s s' : check_nonce_shape s = Ok s' -> s' = s.
Proof. unfold check_nonce_shape. intros H. repeat case_match; simplify_eq; done. Qed.
Lemma check_request_id_id s s' : check_request_id s = Ok s' -> s' = s.
Proof. unfold check_request_id. intros H. repeat case_match; simplify_eq; done. Qed.
Lemma check_resources_id s s' : check_resources s = Ok s' -> s' = s.
Proof. unfold check_resources. intros H. case_match; [done|]. bind_ok H. congruence. Qed.

Lemma check_optional_id (check : string -> result SiwxError string) o o' :
  (forall s s', check s = Ok s' -> s' = s) -> check_optional check o = Ok o' ->
  o' = o /\ forall s, o = Some s -> check s = Ok s.
Proof.
  unfold check_optional. intros Hid. destruct o as [s|]; simpl; [|intros [= <-]; done].
  destruct (check s) as [s'|] eqn:Ec; [|done]. intros [= <-].
  assert (s' = s) as -> by auto. split; [done|]. by intros s' [= <-].
Qed.

Lemma timestamp_parse_ok s t : timestamp_parse s = Ok t -> original t = s /\ ts_ok t.
Proof.
  intros H. assert (original t = s) as Hs.
  { unfold timestamp_parse in H. repeat case_match; try done. bind_ok H. by injection H as <-. }
  split; [done|]. unfold ts_ok. by rewrite Hs.
Qed.

Lemma from_instant_ok `{!ExternalLaws E} i t : from_instant i = Ok t -> parsed t = i /\ ts_ok t.
Proof.
  unfold from_instant. intros H. bind_ok H.
  destruct (instant_eqb a i) eqn:He; [|done]. injection H as <-. split; [done|].
  apply instant_eqb_spec in He as ->. unfold ts_ok, timestamp_parse. cbn [original].
  destruct (instant_display_form i) as [-> ->]. simpl. by rewrite Hok.
Qed.

(** The generated nonces are accepted: whatever the random source, a nonce of
    an admissible length has the shape the checks require. *)
Theorem generated_nonce_ok rng n s :
  (forall i, (rng i < 62)%nat) ->
  (generate rng n = Ok s -> check_nonce_shape s = Ok s) /\
  check_nonce_shape (generate_default rng) = Ok (generate_default rng).
Proof.
  intros Hrng.
  assert (Hchar : forall i, is_ascii_alphanumeric
                    (nth i (list_ascii_of_string ALPHABET) "A"%char) = true).
  { intros i. do 62 (destruct i as [|i]; [reflexivity|]). by destruct i. }
  assert (Hok : forall n i, (MIN_NONCE_LEN <= Z.of_nat n)%Z ->
    check_nonce_shape (random_alnum_from rng i n) = Ok (random_alnum_from rng i n)).
  { intros k i Hk. unfold check_nonce_shape.
    assert (Hl : str_len (random_alnum_from rng i k) = Z.of_nat k).
    { unfold str_len. f_equal. clear. revert i. induction k; intros i; simpl; congruence. }
    rewrite Hl, (proj2 (Z.ltb_ge _ _)) by done.
    assert (Ha : all_bytes is_ascii_alphanumeric (random_alnum_from rng i k) = true).
    { clear -Hchar. revert i. induction k as [|k IH]; intros i; [done|].
      cbn [random_alnum_from all_bytes]. by rewrite Hchar, IH. }
    by rewrite Ha. }
  split; [|by apply Hok].
  unfold generate. destruct (Z.ltb_spec (Z.of_nat n) MIN_NONCE_LEN); [done|].
  intros [= <-]. by apply Hok.
Qed.
End Message.

(** ** A concrete environment, for the witnesses

    Instants are nanoseconds written [T<n>Z]; the syntax checks are the RFC 3986
    character sets; a subtraction outside 64-bit seconds panics. *)

Definition demo_instant_parse (s : string) : result string Z :=
  if negb (all_bytes no_line_break s) then Err "line break"
  else match strip_prefix "T" s with
       | None => Err "no date"
       | Some s => match strip_suffix "Z" s with
                   | None => Err "no zone"
                   | Some s => ok_or "no digits" (parse_unsigned u64_max s)
                   end
       end.

Definition demo_instant_display (t : Z) : string :=
  "T" +:+ NilZero.string_of_uint (N.to_uint (Z.to_N t)) +:+ "Z".

#[export] Instance demo_external : External := {|
  Instant := Z;
  Duration := Z;
  instant_parse := demo_instant_parse;
  instant_display := demo_instant_display;
  instant_eqb := Z.eqb;
  as_second t := (t / 1000000000)%Z;
  duration_since a b := (a - b)%Z;
  from_secs s := (s * 1000000000)%Z;
  duration_sub a b :=
    if (Z.abs (a - b) <? 2 ^ 63 * 1000000000)%Z then Ret (a - b)%Z else Panic;
  duration_ltb := Z.ltb;
  authority := all_bytes is_authority_char;
  uri_string s := if all_bytes is_uri_char s then Ok tt else Err "not a URI"
|}.

Lemma timezone_Z s : has_rfc3339_timezone (s +:+ "Z") = true.
Proof.
  unfold has_rfc3339_timezone.
  assert (Hl : list_ascii_of_string (s +:+ "Z") = (list_ascii_of_string s ++ ["Z"%char])%list)
    by (induction s as [|c s IH]; simpl; congruence).
  by rewrite Hl, rev_app_distr.
Qed.

#[export] Instance demo_external_laws : ExternalLaws demo_external.
Proof.
  refine {| instant_ns := (fun z => z : Z) : @Instant demo_external -> Z;
            duration_ns := (fun z => z : Z) : @Duration demo_external -> Z |}; cbn.
  - done.
  - intros s. by destruct (all_bytes is_uri_char s).
  - intros s t. unfold demo_instant_parse. by destruct (all_bytes no_line_break s).
  - intros t. split; [done|].
    apply (timezone_Z ("T" +:+ NilZero.string_of_uint (N.to_uint (Z.to_N t)))).
  - intros a b. apply Z.eqb_eq.
  - done.
  - done.
  - intros a b d. destruct (_ <? _)%Z; [|done]. by intros [= <-].
  - done.
Qed.

Lemma generated_nonce_ok_witness :
  generate (fun i => Nat.modulo i 62) 12 = Ok "ABCDEFGHIJKL" /\
  check_nonce_shape "ABCDEFGHIJKL" = Ok "ABCDEFGHIJKL".
Proof.
  split; [reflexivity|].
  apply (generated_nonce_ok (fun i => Nat.modulo i 62) 12); [|reflexivity].
  intros i. apply Nat.mod_upper_bound. discriminate.
Defined.
