(* ===== verification/SiwxParse.v ===== *)
(** * Parsing and rendering the signing string

    [crates/oc-siwx/src/parser.rs] and [formatter.rs].  The [Peekable] iterator
    over the lines is the list of the lines still to come. *)

From Stdlib Require Import ZArith Lia Bool String Ascii.
From stdpp Require Import base list strings.
From S2P Require Import Prelude Str SiwxMessage.

Local Open Scope oc_scope.

Definition PREAMBLE_TAIL : string := " account:".
Definition URI_TAG : string := "URI: ".
Definition VERSION_TAG : string := "Version: ".
Definition CHAIN_TAG : string := "Chain ID: ".
Definition NONCE_TAG : string := "Nonce: ".
Definition IAT_TAG : string := "Issued At: ".
Definition EXP_TAG : string := "Expiration Time: ".
Definition NBF_TAG : string := "Not Before: ".
Definition RID_TAG : string := "Request ID: ".
Definition RES_TAG : string := "Resources:".

Definition TAGGED_FIELDS : list string :=
  [URI_TAG; VERSION_TAG; CHAIN_TAG; NONCE_TAG; IAT_TAG; EXP_TAG; NBF_TAG; RID_TAG].

Definition is_tagged (line : string) : bool :=
  existsb (fun tag => starts_with tag line) TAGGED_FIELDS || String.eqb line RES_TAG.

Section Parse.
Context `{Ext : External}.

Abbreviation parser A := (list string -> result SiwxError (A * list string)).

(** ** Line by line *)

Definition next : parser string := fun lines =>
  match lines with
  | [] => Err (invalid_format UnexpectedEof)
  | l :: lines => Ok (l, lines)
  end.

Definition split_scheme_domain (auth : string) : result SiwxError (option string * string) :=
  match split_once "://" auth with
  | Some (scheme, rest) =>
      if is_empty scheme || is_empty rest then Err (invalid_format Other)
      else Ok (Some scheme, rest)
  | None => Ok (None, auth)
  end.

Definition parse_preamble (header : string)
  : result SiwxError (option string * string * string) :=
  match split_once PREAMBLE_MID header with
  | None => Err (invalid_format MissingPreamble)
  | Some (auth, after_mid) =>
      let? '(scheme, domain) := split_scheme_domain auth in
      match strip_suffix PREAMBLE_TAIL after_mid with
      | None => Err (invalid_format MissingAccountSuffix)
      | Some chain_name => Ok (scheme, domain, chain_name)
      end
  end.

Definition expect_blank : parser unit := fun lines =>
  let? '(line, lines) := next lines in
  if negb (is_empty line) then Err (invalid_format ExpectedBlankLine) else Ok (tt, lines).

(** The peek for the URI line that ends both branches. *)
Definition before_uri {A} (a : A) : parser A := fun lines =>
  match lines with
  | next_line :: _ =>
      if starts_with URI_TAG next_line then Ok (a, lines)
      else Err (invalid_format (MissingField URI_TAG))
  | [] => Err (invalid_format (MissingField URI_TAG))
  end.

Definition take_optional_statement : parser (option string) := fun lines =>
  match lines with
  | [] => Err (invalid_format UnexpectedEof)
  | line :: rest =>
      if is_empty line then before_uri None rest
      else if is_tagged line then Err (invalid_format ExpectedBlankLine)
      else
        let? '(stmt, lines) := next lines in
        let? _ := check_statement stmt in
        let? '(_, lines) := expect_blank lines in
        before_uri (Some stmt) lines
  end.

Definition take_required_tag (tag : string) : parser string := fun lines =>
  match lines with
  | [] => Err (invalid_format (MissingField tag))
  | line :: rest =>
      match strip_prefix tag line with
      | None => Err (invalid_format (MissingField tag))
      | Some value => Ok (value, rest)
      end
  end.

Definition take_optional_tag (tag : string) (lines : list string)
  : option string * list string :=
  match lines with
  | [] => (None, lines)
  | line :: rest =>
      match strip_prefix tag line with
      | None => (None, lines)
      | Some value => (Some value, rest)
      end
  end.

Definition take_required_ts (tag : string) : parser Timestamp := fun lines =>
  let? '(s, lines) := take_required_tag tag lines in
  let? t := timestamp_parse s in
  Ok (t, lines).

Definition take_optional_ts (tag : string) : parser (option Timestamp) := fun lines =>
  let '(s, lines) := take_optional_tag tag lines in
  let? t := transpose (option_map timestamp_parse s) in
  Ok (t, lines).

Fixpoint resources_loop (lines : list string) : result SiwxError (list string * list string) :=
  match lines with
  | [] => Ok ([], lines)
  | l :: rest =>
      if negb (is_empty l) && negb (String.eqb l RES_TAG) then
        match strip_prefix "- " l with
        | None => Err (invalid_format ResourceSyntax)
        | Some item => let? '(items, lines) := resources_loop rest in Ok (item :: items, lines)
        end
      else Ok ([], lines)
  end.

Definition take_resources : parser (list string) := fun lines =>
  match lines with
  | l :: rest =>
      if String.eqb l RES_TAG then
        let? '(resources, lines) := resources_loop rest in
        let? resources := check_resources resources in
        Ok (resources, lines)
      else Ok ([], lines)
  | [] => Ok ([], lines)
  end.

Definition reject_trailing (lines : list string) : result SiwxError unit :=
  match lines with
  | [] => Ok tt
  | _ => Err (invalid_format UnexpectedTrailing)
  end.

(** [from_str] after the split into lines. *)
Definition parse_lines (lines : list string) : result SiwxError SiwxMessage :=
  let? '(header, lines) := next lines in
  let? '(scheme, domain, chain_name) := parse_preamble header in
  let? scheme := check_optional check_scheme scheme in
  let? domain := check_domain domain in
  let chain_name := if negb (is_empty chain_name) then Some chain_name else None in
  let? '(address, lines) := next lines in
  if is_empty address then Err (InvalidAddress "empty")
  else
    let? '(_, lines) := expect_blank lines in
    let? '(statement, lines) := take_optional_statement lines in
    let? '(u, lines) := take_required_tag URI_TAG lines in
    let? uri := check_uri u in
    let? '(version, lines) := take_required_tag VERSION_TAG lines in
    if negb (String.eqb version VERSION) then Err (invalid_format VersionNotOne)
    else
      let? '(chain_id, lines) := take_required_tag CHAIN_TAG lines in
      if is_empty chain_id then Err (invalid_format EmptyChainId)
      else
        let? '(n, lines) := take_required_tag NONCE_TAG lines in
        let? nonce := check_nonce_shape n in
        let? '(issued_at, lines) := take_required_ts IAT_TAG lines in
        let? '(expiration_time, lines) := take_optional_ts EXP_TAG lines in
        let? '(not_before, lines) := take_optional_ts NBF_TAG lines in
        let '(rid, lines) := take_optional_tag RID_TAG lines in
        let? request_id := check_optional check_request_id rid in
        let? '(resources, lines) := take_resources lines in
        let? _ := reject_trailing lines in
        Ok {| scheme := scheme; domain := domain; address := address; statement := statement;
              uri := uri; version := version; chain_id := chain_id; chain_name := chain_name;
              nonce := nonce; issued_at := issued_at; expiration_time := expiration_time;
              not_before := not_before; request_id := request_id; resources := resources |}.

Definition from_str (input : string) : result SiwxError SiwxMessage :=
  if (MAX_MESSAGE_BYTES <? str_len input)%Z then
    Err (MessageTooLarge (str_len input) MAX_MESSAGE_BYTES)
  else if contains_byte cr input then Err (invalid_format CrLf)
  else parse_lines (split_char lf input).

(** ** Rendering *)

Definition push_tag (out tag value : string) : string :=
  out +:+ tag +:+ value +:+ String lf "".

Definition push_optional_tag (out tag : string) (value : option string) : string :=
  match value with Some v => push_tag out tag v | None => out end.

Fixpoint push_resources (out : string) (rs : list string) : string :=
  match rs with
  | [] => out
  | r :: rs' => push_resources (out +:+ "- " +:+ r +:+ String lf "") rs'
  end.

(** [trim_end_matches] at a line feed. *)
Fixpoint trim_end_lf (s : string) : string :=
  match s with
  | EmptyString => EmptyString
  | String c s' =>
      let t := trim_end_lf s' in
      if is_empty t && Ascii.eqb c lf then EmptyString else String c t
  end.

Definition to_sign_string (m : SiwxMessage) (chain : string) : string :=
  let out := match scheme m with Some s => s +:+ "://" | None => "" end in
  let out := out +:+ domain m +:+ PREAMBLE_MID +:+ chain +:+ PREAMBLE_TAIL +:+ String lf "" in
  let out := out +:+ address m +:+ String lf (String lf "") in
  let out := match statement m with Some s => out +:+ s +:+ String lf "" | None => out end in
  let out := out +:+ String lf "" in
  let out := push_tag out URI_TAG (uri m) in
  let out := push_tag out VERSION_TAG (version m) in
  let out := push_tag out CHAIN_TAG (chain_id m) in
  let out := push_tag out NONCE_TAG (nonce m) in
  let out := push_tag out IAT_TAG (original (issued_at m)) in
  let out := push_optional_tag out EXP_TAG (option_map original (expiration_time m)) in
  let out := push_optional_tag out NBF_TAG (option_map original (not_before m)) in
  let out := push_optional_tag out RID_TAG (request_id m) in
  let out :=
    if is_nil (resources m) then out
    else push_resources (out +:+ RES_TAG +:+ String lf "") (resources m) in
  trim_end_lf out.

(** ** The lines of a message *)

Definition optional_line (tag : string) (o : option string) : list string :=
  match o with Some v => [tag +:+ v] | None => [] end.

Definition authority_of (m : SiwxMessage) : string :=
  match scheme m with Some s => s +:+ "://" +:+ domain m | None => domain m end.

Definition header_of (m : SiwxMessage) (chain : string) : string :=
  authority_of m +:+ PREAMBLE_MID +:+ chain +:+ PREAMBLE_TAIL.

Definition statement_lines (o : option string) : list string :=
  match o with Some s => [s; ""] | None => [""] end.

Definition resource_lines (rs : list string) : list string :=
  if is_nil rs then [] else RES_TAG :: map (String.append "- ") rs.

(** From the expiration time on. *)
Definition tail_lines (exp nbf rid : option string) (rs : list string) : list string :=
  optional_line EXP_TAG exp ++ optional_line NBF_TAG nbf ++ optional_line RID_TAG rid ++
  resource_lines rs.

Definition lines_of (m : SiwxMessage) (chain : string) : list string :=
  [header_of m chain; address m; ""] ++ statement_lines (statement m) ++
  [URI_TAG +:+ uri m; VERSION_TAG +:+ version m; CHAIN_TAG +:+ chain_id m;
   NONCE_TAG +:+ nonce m; IAT_TAG +:+ original (issued_at m)] ++
  tail_lines (option_map original (expiration_time m)) (option_map original (not_before m))
    (request_id m) (resources m).

(** What parsing gives back of a rendered message: the chain label is in the
    preamble. *)
Definition with_chain_name (m : SiwxMessage) (chain : string) : SiwxMessage :=
  {| scheme := scheme m; domain := domain m; address := address m; statement := statement m;
     uri := uri m; version := version m; chain_id := chain_id m;
     chain_name := if negb (is_empty chain) then Some chain else None; nonce := nonce m;
     issued_at := issued_at m; expiration_time := expiration_time m;
     not_before := not_before m; request_id := request_id m; resources := resources m |}.

(** The fields no check looks into. *)
Record line_safe (m : SiwxMessage) (chain : string) : Prop := {
  safe_address : all_bytes no_line_break (address m) = true;
  safe_chain_id : all_bytes no_line_break (chain_id m) = true;
  safe_chain : all_bytes no_line_break chain = true;
  safe_statement : forall s, statement m = Some s -> is_tagged s = false
}.

(** ** Rendering is joining the lines *)

Fixpoint unlines (ls : list string) : string :=
  match ls with
  | [] => ""
  | l :: ls' => l +:+ String lf (unlines ls')
  end.

Lemma unlines_app a b : unlines (a ++ b) = unlines a +:+ unlines b.
Proof.
  induction a as [|l a IH]; [done|]. simpl. rewrite IH, <- app_assoc_str. done.
Qed.

Lemma push_resources_unlines out rs :
  push_resources out rs = out +:+ unlines (map (String.append "- ") rs).
Proof.
  revert out. induction rs as [|r rs IH]; intros out; [by rewrite app_nil_r_str|].
  cbn [push_resources map unlines]. rewrite IH, <- !app_assoc_str. done.
Qed.

Lemma push_tag_unlines out tag v : push_tag out tag v = out +:+ unlines [tag +:+ v].
Proof. unfold push_tag. cbn [unlines]. by rewrite <- app_assoc_str. Qed.

Lemma push_optional_unlines out tag o :
  push_optional_tag out tag o = out +:+ unlines (optional_line tag o).
Proof. destruct o; [apply push_tag_unlines|]. simpl. by rewrite app_nil_r_str. Qed.

Lemma to_sign_string_unlines m chain : to_sign_string m chain = trim_end_lf (unlines (lines_of m chain)).
Proof.
  unfold to_sign_string, lines_of, tail_lines. cbv zeta. f_equal.
  rewrite !push_tag_unlines, !push_optional_unlines.
  assert (Hres : forall out, (if is_nil (resources m) then out
    else push_resources (out +:+ RES_TAG +:+ String lf "") (resources m)) =
    out +:+ unlines (resource_lines (resources m))).
  { intros out. unfold resource_lines. destruct (resources m) as [|r rs]; simpl is_nil.
    - by rewrite app_nil_r_str.
    - rewrite push_resources_unlines. cbn [unlines]. by rewrite <- !app_assoc_str. }
  rewrite Hres, !unlines_app.
  change (unlines [URI_TAG +:+ uri m; VERSION_TAG +:+ version m; CHAIN_TAG +:+ chain_id m;
    NONCE_TAG +:+ nonce m; IAT_TAG +:+ original (issued_at m)])
    with (unlines ([URI_TAG +:+ uri m] ++ [VERSION_TAG +:+ version m] ++
      [CHAIN_TAG +:+ chain_id m] ++ [NONCE_TAG +:+ nonce m] ++
      [IAT_TAG +:+ original (issued_at m)])).
  rewrite !unlines_app, !app_assoc_str. do 8 f_equal.
  unfold header_of, authority_of, statement_lines. cbn [unlines].
  destruct (scheme m), (statement m); cbn [unlines]; rewrite <- ?app_assoc_str; cbn [String.append];
    rewrite <- ?app_assoc_str; done.
Qed.

Definition not_lf (c : ascii) : bool := negb (Ascii.eqb c lf).

Lemma no_line_break_not_lf s : all_bytes no_line_break s = true -> all_bytes not_lf s = true.
Proof.
  apply all_bytes_impl. unfold no_line_break, not_lf. intros c [H _]%andb_true_iff. done.
Qed.

Lemma trim_end_lf_keep p t :
  t <> "" -> all_bytes not_lf t = true -> trim_end_lf (p +:+ t) = p +:+ t.
Proof.
  intros Hne Ht.
  assert (Hkeep : trim_end_lf t = t).
  { clear p Hne. induction t as [|c t IH]; [done|]. cbn [all_bytes] in Ht.
    apply andb_true_iff in Ht as [Hc Ht]. cbn [trim_end_lf]. rewrite (IH Ht).
    unfold not_lf in Hc. apply negb_true_iff in Hc. by rewrite Hc, andb_false_r. }
  induction p as [|c p IH]; [done|]. cbn [String.append trim_end_lf]. rewrite IH.
  destruct (p +:+ t) eqn:E; [|done]. destruct p; [|done]. by destruct t.
Qed.

Lemma trim_end_lf_app s : trim_end_lf (s +:+ String lf "") = trim_end_lf s.
Proof.
  induction s as [|c s IH]; [done|]. cbn [String.append trim_end_lf]. by rewrite IH.
Qed.

Lemma unlines_join ls : ls <> [] -> unlines ls = join_char lf ls +:+ String lf "".
Proof.
  induction ls as [|l [|l' ls] IH]; intros Hne; [done|done|].
  change (unlines (l :: l' :: ls)) with (l +:+ String lf (unlines (l' :: ls))).
  rewrite IH by done. cbn [join_char]. by rewrite <- app_assoc_str.
Qed.

Lemma join_ends_with_last ls l : exists p, join_char lf (ls ++ [l]) = p +:+ l.
Proof.
  induction ls as [|x ls [p IH]]; [by exists ""|].
  destruct ls as [|y ls]; cbn [app join_char] in *.
  - exists (x +:+ String lf ""). by rewrite <- app_assoc_str.
  - exists (x +:+ String lf p). rewrite IH. by rewrite <- app_assoc_str.
Qed.

Lemma trim_unlines ls l :
  l <> "" -> all_bytes not_lf l = true ->
  trim_end_lf (unlines (ls ++ [l])) = join_char lf (ls ++ [l]).
Proof.
  intros Hne Hl. rewrite unlines_join by (by destruct ls). rewrite trim_end_lf_app.
  destruct (join_ends_with_last ls l) as [p ->]. by apply trim_end_lf_keep.
Qed.

Lemma split_join ls :
  ls <> [] -> Forall (fun l => all_bytes not_lf l = true) ls -> split_char lf (join_char lf ls) = ls.
Proof.
  intros Hne H. apply split_join_char; [done|]. eapply Forall_impl; [exact H|]. intros l Hl.
  by apply negb_false_iff.
Qed.

(** ** The preamble *)

Definition lacks (c : ascii) (s : string) : Prop :=
  all_bytes (fun x => negb (Ascii.eqb x c)) s = true.

Lemma split_once_here c p a b :
  lacks c a -> split_once (String c p) (a +:+ String c (p +:+ b)) = Some (a, b).
Proof.
  unfold lacks. induction a as [|x a IH]; cbn [String.append all_bytes]; intros H.
  - cbn [split_once]. cbn [strip_prefix]. by rewrite Ascii.eqb_refl, strip_prefix_app.
  - apply andb_true_iff in H as [Hx Ha]. apply negb_true_iff in Hx.
    cbn [split_once strip_prefix]. rewrite Ascii.eqb_sym, Hx. by rewrite (IH Ha).
Qed.

Lemma split_once_some_eq pat s l r : split_once pat s = Some (l, r) -> s = l +:+ pat +:+ r.
Proof.
  revert l. induction s as [|c s IH]; intros l; cbn [split_once].
  - destruct (strip_prefix pat "") eqn:Hs; [|done]. intros [= <- <-].
    by apply strip_prefix_some in Hs.
  - destruct (strip_prefix pat (String c s)) eqn:Hs.
    + intros [= <- <-]. by apply strip_prefix_some in Hs.
    + destruct (split_once pat s) as [[l' r']|] eqn:Hs'; [|done]. intros [= <- <-].
      cbn [String.append]. f_equal. by apply IH.
Qed.

(** A pattern with a byte the text lacks does not occur in it. *)
Lemma split_once_absent c p1 p2 s :
  lacks c s -> split_once (p1 +:+ String c p2) s = None.
Proof.
  intros H. destruct (split_once (p1 +:+ String c p2) s) as [[l r]|] eqn:Hs; [|done].
  apply split_once_some_eq in Hs as ->. unfold lacks in H. rewrite !all_bytes_app in H.
  cbn [all_bytes] in H. rewrite Ascii.eqb_refl in H. cbn in H.
  by rewrite !andb_false_r in H.
Qed.

Context `{!ExternalLaws Ext}.

(** Decides a fact about every byte. *)
Ltac all_ascii :=
  intros [[] [] [] [] [] [] [] []]; vm_compute; congruence.

Lemma scheme_char_lacks c : is_scheme_char c = true ->
  negb (Ascii.eqb c " ") && negb (Ascii.eqb c ":") && no_line_break c = true.
Proof. revert c. all_ascii. Qed.

Lemma authority_char_lacks c : is_authority_char c = true ->
  negb (Ascii.eqb c " ") && negb (Ascii.eqb c "/") && no_line_break c = true.
Proof. revert c. all_ascii. Qed.

Lemma uri_char_safe c : is_uri_char c = true -> no_line_break c = true.
Proof. revert c. all_ascii. Qed.

Lemma statement_char_safe c : is_statement_char c = true -> no_line_break c = true.
Proof. revert c. all_ascii. Qed.

Lemma alphanumeric_safe c : is_ascii_alphanumeric c = true -> no_line_break c = true.
Proof. revert c. all_ascii. Qed.

Lemma pchar_safe c :
  is_unreserved c || is_sub_delim c || Ascii.eqb c ":" || Ascii.eqb c "@" || Ascii.eqb c "%" ||
  is_ascii_hexdigit c = true -> no_line_break c = true.
Proof. revert c. all_ascii. Qed.

Lemma all_bytes_and p q s :
  all_bytes (fun c => p c && q c) s = all_bytes p s && all_bytes q s.
Proof. induction s as [|c s IH]; [done|]. simpl. rewrite IH. by destruct (p c), (q c), (all_bytes p s). Qed.

Lemma scheme_facts s : check_scheme s = Ok s ->
  s <> "" /\ lacks " " s /\ lacks ":" s /\ all_bytes no_line_break s = true.
Proof.
  unfold check_scheme, lacks. intros H. destruct s as [|c s]; [done|].
  destruct (negb (is_ascii_alphabetic c)); [done|].
  destruct (all_bytes is_scheme_char (String c s)) eqn:Ha; [|done]. split; [done|].
  apply (all_bytes_impl _ _ _ scheme_char_lacks) in Ha. rewrite !all_bytes_and in Ha.
  apply andb_true_iff in Ha as [[? ?]%andb_true_iff ?]. done.
Qed.

Lemma domain_facts d : check_domain d = Ok d ->
  d <> "" /\ lacks " " d /\ lacks "/" d /\ all_bytes no_line_break d = true.
Proof.
  unfold check_domain, lacks. intros H. destruct d as [|c d]; [done|].
  destruct (contains PREAMBLE_MID _); [done|].
  destruct (authority (String c d)) eqn:Ha; [|done]. split; [done|].
  apply authority_chars in Ha.
  apply (all_bytes_impl _ _ _ authority_char_lacks) in Ha. rewrite !all_bytes_and in Ha.
  apply andb_true_iff in Ha as [[? ?]%andb_true_iff ?]. done.
Qed.

Lemma uri_facts u : check_uri u = Ok u -> all_bytes no_line_break u = true.
Proof.
  unfold check_uri. destruct (_ <? _)%Z; [done|]. intros H. bind_ok H.
  destruct (uri_string u) as [[]|] eqn:Hu; [|done]. apply uri_chars in Hu.
  by apply (all_bytes_impl _ _ _ uri_char_safe).
Qed.

Lemma statement_facts s : check_statement s = Ok tt ->
  s <> "" /\ all_bytes no_line_break s = true.
Proof.
  unfold check_statement. intros H. destruct s as [|c s]; [done|].
  destruct (_ <? _)%Z; [done|].
  destruct (all_bytes is_statement_char (String c s)) eqn:Ha; [|done]. split; [done|].
  by apply (all_bytes_impl _ _ _ statement_char_safe).
Qed.

Lemma nonce_facts n : check_nonce_shape n = Ok n -> all_bytes no_line_break n = true.
Proof.
  unfold check_nonce_shape. destruct (_ <? _)%Z; [done|].
  destruct (all_bytes is_ascii_alphanumeric n) eqn:Ha; [|done]. intros _.
  by apply (all_bytes_impl _ _ _ alphanumeric_safe).
Qed.

Lemma pchar_string_safe s : is_pchar_string s = true -> all_bytes no_line_break s = true.
Proof.
  remember (String.length s) as k eqn:Hk. revert s Hk.
  induction (lt_wf k) as [k _ IH]. intros [|c s] ->; [done|]. cbn [is_pchar_string].
  intros H.
  destruct (is_unreserved c || is_sub_delim c || Ascii.eqb c ":" || Ascii.eqb c "@") eqn:Hc.
  - cbn [all_bytes]. rewrite (pchar_safe c) by (by rewrite Hc).
    apply (IH (String.length s)); [simpl; lia|done|done].
  - destruct (Ascii.eqb c "%") eqn:Hp; [|done].
    destruct s as [|h1 [|h2 s]]; [done..|].
    destruct (is_ascii_hexdigit h1) eqn:H1; [|done]. destruct (is_ascii_hexdigit h2) eqn:H2; [|done].
    cbn [all_bytes andb] in *.
    rewrite (pchar_safe c) by (by rewrite Hp, orb_true_r).
    rewrite (pchar_safe h1) by (by rewrite H1, orb_true_r).
    rewrite (pchar_safe h2) by (by rewrite H2, orb_true_r).
    apply (IH (String.length s)); [simpl; lia|done|done].
Qed.

Lemma request_id_facts r : check_request_id r = Ok r -> all_bytes no_line_break r = true.
Proof.
  unfold check_request_id. destruct (_ <? _)%Z; [done|].
  destruct (is_pchar_string r) eqn:Hp; [|done]. intros _. by apply pchar_string_safe.
Qed.

Lemma ts_facts t : ts_ok t -> all_bytes no_line_break (original t) = true.
Proof.
  unfold ts_ok, timestamp_parse. intros H. repeat case_match; try done. bind_ok H.
  destruct (instant_parse (original t)) eqn:Hp; [|done]. by apply instant_chars in Hp.
Qed.

Lemma resources_facts rs :
  check_resources rs = Ok rs -> Forall (fun r => all_bytes no_line_break r = true) rs.
Proof.
  unfold check_resources. destruct (_ <? _)%Z; [done|]. intros H. bind_ok H. clear H.
  destruct a. revert Hok. induction rs as [|r rs IH]; [constructor|]. cbn [check_uris].
  intros H. bind_ok H. pose proof (check_uri_id _ _ Hok) as ->. constructor; [by apply uri_facts|auto].
Qed.

(** ** Each line is safe *)

Definition safe (l : string) : Prop := all_bytes no_line_break l = true.

Lemma safe_app a b : safe a -> safe b -> safe (a +:+ b).
Proof. unfold safe. rewrite all_bytes_app. by intros -> ->. Qed.

Lemma optional_line_safe tag o :
  safe tag -> (forall v, o = Some v -> safe v) -> Forall safe (optional_line tag o).
Proof. intros Ht Ho. destruct o; repeat constructor. apply safe_app; auto. Qed.

Lemma lines_safe m chain : shape_ok m -> line_safe m chain -> Forall safe (lines_of m chain).
Proof.
  intros Hm Hs. destruct Hs as [Ha Hc Hn _].
  pose proof (domain_facts _ (ok_domain m Hm)) as (_ & _ & _ & Hd).
  unfold lines_of, tail_lines. repeat (apply Forall_app_2); repeat constructor; try done.
  - unfold header_of, authority_of. repeat apply safe_app; try done.
    destruct (scheme m) as [sc|] eqn:Esc; [|done].
    destruct (scheme_facts sc) as (_ & _ & _ & Hsc); [by apply (ok_scheme m Hm)|].
    by repeat apply safe_app.
  - destruct (statement m) as [st|] eqn:Est; repeat constructor.
    by apply statement_facts, (ok_statement m Hm).
  - apply safe_app; [done|]. apply uri_facts, (ok_uri m Hm).
  - rewrite (ok_version m Hm). done.
  - apply safe_app; [done|]. apply nonce_facts, (ok_nonce m Hm).
  - apply safe_app; [done|]. apply ts_facts, (ok_issued_at m Hm).
  - apply optional_line_safe; [done|]. intros v. destruct (expiration_time m) eqn:Et; [|done].
    intros [= <-]. by apply ts_facts, (ok_expiration m Hm).
  - apply optional_line_safe; [done|]. intros v. destruct (not_before m) eqn:Et; [|done].
    intros [= <-]. by apply ts_facts, (ok_not_before m Hm).
  - apply optional_line_safe; [done|]. intros v Hv. by apply request_id_facts, (ok_request_id m Hm).
  - unfold resource_lines. pose proof (resources_facts _ (ok_resources m Hm)) as Hr.
    destruct (resources m) as [|r rs]; [constructor|]. cbn [is_nil]. constructor; [done|].
    apply Forall_map. eapply Forall_impl; [exact Hr|]. intros x Hx. by apply safe_app.
Qed.

Lemma rs_last (r : string) rs : exists ls l, r :: rs = ls ++ [l].
Proof.
  destruct (exists_last (l := r :: rs)) as (ls & l & ->); [done|]. by exists ls, l.
Qed.

(** The last line of a message is not empty. *)
Lemma lines_last m chain : exists ls l, lines_of m chain = ls ++ [l] /\ l <> "".
Proof.
  unfold lines_of, tail_lines, resource_lines.
  set (front := [header_of m chain; address m; ""] ++ statement_lines (statement m)).
  change ([header_of m chain; address m; ""] ++ statement_lines (statement m) ++ ?x)
    with (front ++ x).
  assert (Hgen : forall a b : list string, (exists ls l, b = ls ++ [l] /\ l <> "") ->
    exists ls l, a ++ b = ls ++ [l] /\ l <> "").
  { intros a b (ls & l & -> & Hl). exists (a ++ ls), l. by rewrite app_assoc. }
  destruct (resources m) as [|r rs]; cbn [is_nil].
  - rewrite app_nil_r. destruct (request_id m) as [rid|]; cbn [optional_line].
    { do 4 apply Hgen. by exists [], (RID_TAG +:+ rid). }
    rewrite app_nil_r. destruct (not_before m) as [t|]; cbn [optional_line option_map].
    { do 3 apply Hgen. by exists [], (NBF_TAG +:+ original t). }
    rewrite app_nil_r. destruct (expiration_time m) as [t|]; cbn [optional_line option_map].
    { do 2 apply Hgen. by exists [], (EXP_TAG +:+ original t). }
    rewrite app_nil_r. apply Hgen.
    exists [URI_TAG +:+ uri m; VERSION_TAG +:+ version m; CHAIN_TAG +:+ chain_id m;
            NONCE_TAG +:+ nonce m], (IAT_TAG +:+ original (issued_at m)). done.
  - do 5 apply Hgen. destruct (rs_last r rs) as (ls & l & Heq).
    exists (RES_TAG :: map (String.append "- ") ls), ("- " +:+ l). split; [|done].
    rewrite Heq, map_app. done.
Qed.

(** The rendered string is the lines joined. *)
Lemma to_sign_string_join m chain :
  shape_ok m -> line_safe m chain -> to_sign_string m chain = join_char lf (lines_of m chain).
Proof.
  intros Hm Hs. rewrite to_sign_string_unlines. pose proof (lines_safe m chain Hm Hs) as Hall.
  destruct (lines_last m chain) as (ls & l & Heq & Hne). rewrite Heq in *.
  apply Forall_app in Hall as [_ Hl]. inversion Hl; subst.
  apply trim_unlines; [done|]. by apply no_line_break_not_lf.
Qed.

(** ** Parsing the lines of a message *)

Lemma parse_header m chain :
  shape_ok m ->
  parse_preamble (header_of m chain) = Ok (scheme m, domain m, chain).
Proof.
  intros Hm. destruct (domain_facts _ (ok_domain m Hm)) as (Hne & Hsp & Hsl & _).
  assert (Hauth : lacks " " (authority_of m) /\
                  split_scheme_domain (authority_of m) = Ok (scheme m, domain m)).
  { unfold authority_of, split_scheme_domain. destruct (scheme m) as [sc|] eqn:Esc.
    - destruct (scheme_facts sc) as (Hsne & Hssp & Hscol & _); [by apply (ok_scheme m Hm)|].
      split.
      + unfold lacks in *. rewrite all_bytes_app, Hssp. cbn. exact Hsp.
      + change ("://" +:+ domain m) with (String ":" ("//" +:+ domain m)).
        rewrite (split_once_here ":" "//") by done.
        destruct sc; [done|]. by destruct (domain m).
    - split; [done|]. change "://" with (":" +:+ String "/" "/").
      by rewrite (split_once_absent "/" ":" "/") by done. }
  destruct Hauth as [Hlack Hsplit]. unfold parse_preamble, header_of.
  change (PREAMBLE_MID +:+ chain +:+ PREAMBLE_TAIL)
    with (String " " ("wants you to sign in with your " +:+ (chain +:+ PREAMBLE_TAIL))).
  rewrite (split_once_here " " "wants you to sign in with your ") by done.
  rewrite Hsplit. cbn [result_bind]. by rewrite strip_suffix_app.
Qed.

Lemma take_required_tag_line tag v rest : take_required_tag tag ((tag +:+ v) :: rest) = Ok (v, rest).
Proof. unfold take_required_tag. by rewrite strip_prefix_app. Qed.

Lemma take_optional_tag_line tag v rest : take_optional_tag tag ((tag +:+ v) :: rest) = (Some v, rest).
Proof. unfold take_optional_tag. by rewrite strip_prefix_app. Qed.

Lemma take_optional_exp exp nbf rid rs :
  take_optional_tag EXP_TAG (tail_lines exp nbf rid rs) =
  (exp, optional_line NBF_TAG nbf ++ optional_line RID_TAG rid ++ resource_lines rs).
Proof.
  unfold tail_lines. destruct exp; [apply take_optional_tag_line|].
  by destruct nbf, rid, rs.
Qed.

Lemma take_optional_nbf nbf rid rs :
  take_optional_tag NBF_TAG (optional_line NBF_TAG nbf ++ optional_line RID_TAG rid ++ resource_lines rs) =
  (nbf, optional_line RID_TAG rid ++ resource_lines rs).
Proof. destruct nbf; [apply take_optional_tag_line|]. by destruct rid, rs. Qed.

Lemma take_optional_rid rid rs :
  take_optional_tag RID_TAG (optional_line RID_TAG rid ++ resource_lines rs) =
  (rid, resource_lines rs).
Proof. destruct rid; [apply take_optional_tag_line|]. by destruct rs. Qed.

Lemma resources_loop_lines rs : resources_loop (map (String.append "- ") rs) = Ok (rs, []).
Proof. induction rs as [|r rs IH]; [done|]. cbn [map resources_loop]. rewrite IH. done. Qed.

Lemma take_resources_lines rs :
  check_resources rs = Ok rs -> take_resources (resource_lines rs) = Ok (rs, []).
Proof.
  intros Hr. unfold take_resources, resource_lines. destruct rs as [|r rs]; [done|].
  cbn [is_nil]. rewrite String.eqb_refl, resources_loop_lines. cbn [result_bind].
  by rewrite Hr.
Qed.

Lemma optional_ts_ok t :
  (forall x, t = Some x -> ts_ok x) ->
  transpose (option_map timestamp_parse (option_map original t)) = Ok t.
Proof.
  destruct t as [t|]; [|done]. intros H. cbn. specialize (H t eq_refl). unfold ts_ok in H.
  by rewrite H.
Qed.

Lemma check_optional_ok (check : string -> result SiwxError string) o :
  (forall s, o = Some s -> check s = Ok s) -> check_optional check o = Ok o.
Proof. destruct o as [s|]; [|done]. unfold check_optional. cbn. intros H. by rewrite (H s). Qed.

Lemma take_statement_lines o u rest :
  (forall s, o = Some s -> check_statement s = Ok tt /\ is_tagged s = false) ->
  take_optional_statement (statement_lines o ++ (URI_TAG +:+ u) :: rest) =
  Ok (o, (URI_TAG +:+ u) :: rest).
Proof.
  intros Ho. destruct o as [s|]; cbn [statement_lines app].
  - destruct (Ho s eq_refl) as [Hs Ht]. destruct (statement_facts s Hs) as [Hne _].
    unfold take_optional_statement. destruct s as [|c s]; [done|]. cbn [is_empty].
    rewrite Ht. cbn [next result_bind]. rewrite Hs. cbn [result_bind expect_blank next is_empty negb].
    unfold before_uri, starts_with. by rewrite strip_prefix_app.
  - cbn [take_optional_statement is_empty]. unfold before_uri, starts_with.
    by rewrite strip_prefix_app.
Qed.

Lemma parse_lines_of m chain :
  shape_ok m -> line_safe m chain -> parse_lines (lines_of m chain) = Ok (with_chain_name m chain).
Proof.
  intros Hm Hs. unfold parse_lines, lines_of. cbn [app next result_bind].
  rewrite (parse_header m chain Hm). cbn [result_bind].
  rewrite (check_optional_ok check_scheme _ (ok_scheme m Hm)). cbn [result_bind].
  rewrite (ok_domain m Hm). cbn [result_bind next].
  destruct (address m) as [|a0 addr] eqn:Ea; [by destruct (ok_address m Hm)|]. cbn [is_empty].
  cbn [expect_blank next result_bind is_empty negb].
  rewrite take_statement_lines
    by (intros s Hst; split; [by apply (ok_statement m Hm)|by apply (safe_statement m chain Hs)]).
  cbn [result_bind]. rewrite take_required_tag_line. cbn [result_bind].
  rewrite (ok_uri m Hm). cbn [result_bind]. rewrite take_required_tag_line. cbn [result_bind].
  rewrite (ok_version m Hm), String.eqb_refl. cbn [negb].
  rewrite take_required_tag_line. cbn [result_bind].
  destruct (chain_id m) as [|c0 ch] eqn:Ec; [by destruct (ok_chain_id m Hm)|]. cbn [is_empty].
  rewrite take_required_tag_line. cbn [result_bind]. rewrite (ok_nonce m Hm). cbn [result_bind].
  unfold take_required_ts. rewrite take_required_tag_line. cbn [result_bind].
  pose proof (ok_issued_at m Hm) as Hiat. unfold ts_ok in Hiat. rewrite Hiat. cbn [result_bind].
  unfold take_optional_ts. rewrite take_optional_exp.
  rewrite (optional_ts_ok _ (ok_expiration m Hm)). cbn [result_bind].
  rewrite take_optional_nbf, (optional_ts_ok _ (ok_not_before m Hm)). cbn [result_bind].
  rewrite take_optional_rid, (check_optional_ok check_request_id _ (ok_request_id m Hm)).
  cbn [result_bind]. rewrite (take_resources_lines _ (ok_resources m Hm)).
  cbn [result_bind reject_trailing]. unfold with_chain_name.
  by rewrite Ea, Ec, (ok_version m Hm).
Qed.

Lemma safe_no_cr s : safe s -> contains_byte cr s = false.
Proof.
  unfold safe, contains_byte. intros Hs. apply negb_false_iff.
  revert Hs. apply all_bytes_impl. unfold no_line_break. intros c [_ H]%andb_true_iff. done.
Qed.

Lemma join_no_cr ls : Forall safe ls -> contains_byte cr (join_char lf ls) = false.
Proof.
  unfold contains_byte. intros H. apply negb_false_iff.
  induction H as [|l [|l' ls] Hl _ IH]; [done| |].
  - apply safe_no_cr in Hl. unfold contains_byte in Hl. by apply negb_false_iff in Hl.
  - change (join_char lf (l :: l' :: ls)) with (l +:+ String lf (join_char lf (l' :: ls))).
    rewrite all_bytes_app. cbn [all_bytes]. rewrite IH.
    apply safe_no_cr in Hl. unfold contains_byte in Hl. apply negb_false_iff in Hl. by rewrite Hl.
Qed.

(** C21 Rendering then parsing gives the message back, every field and every
    timestamp text included, with the preamble's chain label filled in: for
    every well-formed message whose unchecked fields stay on their line, whose
    statement does not look like a field, and whose text is within the limit. *)
Theorem parse_to_sign_string m chain :
  shape_ok m -> line_safe m chain ->
  (str_len (to_sign_string m chain) <= MAX_MESSAGE_BYTES)%Z ->
  from_str (to_sign_string m chain) = Ok (with_chain_name m chain).
Proof.
  intros Hm Hs Hlen. unfold from_str. rewrite (proj2 (Z.ltb_ge _ _)) by done.
  rewrite (to_sign_string_join m chain Hm Hs). pose proof (lines_safe m chain Hm Hs) as Hall.
  rewrite (join_no_cr _ Hall), split_join.
  - by apply parse_lines_of.
  - by unfold lines_of.
  - eapply Forall_impl; [exact Hall|]. apply no_line_break_not_lf.
Qed.

(** ** What a successful parse says of the text *)

Lemma next_inv lines l rest : next lines = Ok (l, rest) -> lines = l :: rest.
Proof. destruct lines; [done|]. cbn. by intros [= <- <-]. Qed.

Lemma expect_blank_inv lines u rest : expect_blank lines = Ok (u, rest) -> lines = "" :: rest.
Proof.
  unfold expect_blank. intros H. bind_ok H. destruct a as [l ls]. apply next_inv in Hok as ->.
  destruct l; [|done]. by injection H as _ <-.
Qed.

Lemma take_required_tag_inv tag lines v rest :
  take_required_tag tag lines = Ok (v, rest) -> lines = (tag +:+ v) :: rest.
Proof.
  unfold take_required_tag. destruct lines as [|l ls]; [done|].
  destruct (strip_prefix tag l) eqn:Hs; [|done]. intros [= <- <-].
  by apply strip_prefix_some in Hs as ->.
Qed.

Lemma take_optional_tag_inv tag lines o rest :
  take_optional_tag tag lines = (o, rest) -> lines = optional_line tag o ++ rest.
Proof.
  unfold take_optional_tag. destruct lines as [|l ls]; [by intros [= <- <-]|].
  destruct (strip_prefix tag l) eqn:Hs; intros [= <- <-]; [|done].
  by apply strip_prefix_some in Hs as ->.
Qed.

Lemma before_uri_inv {A} (a b : A) lines rest :
  before_uri a lines = Ok (b, rest) -> b = a /\ lines = rest.
Proof.
  unfold before_uri. destruct lines as [|l ls]; [done|]. destruct (starts_with _ _); [|done].
  by intros [= <- <-].
Qed.

Lemma take_statement_inv lines o rest :
  take_optional_statement lines = Ok (o, rest) ->
  lines = statement_lines o ++ rest /\
  forall s, o = Some s -> check_statement s = Ok tt /\ is_tagged s = false.
Proof.
  unfold take_optional_statement. destruct lines as [|l ls]; [done|].
  destruct l as [|c l]; cbn [is_empty].
  - intros [-> ->]%before_uri_inv. by split.
  - destruct (is_tagged (String c l)) eqn:Ht; [done|]. cbn [next result_bind]. intros H.
    bind_ok H. destruct a0 as [u ls']. apply expect_blank_inv in Hok0 as ->.
    apply before_uri_inv in H as [-> ->]. split; [done|]. intros s [= <-].
    destruct a. by split.
Qed.

Lemma resources_loop_inv lines rs rest :
  resources_loop lines = Ok (rs, rest) -> lines = map (String.append "- ") rs ++ rest.
Proof.
  revert rs. induction lines as [|l ls IH]; intros rs; cbn [resources_loop].
  - by intros [= <- <-].
  - destruct (negb (is_empty l) && negb (String.eqb l RES_TAG)); [|by intros [= <- <-]].
    destruct (strip_prefix "- " l) as [item|] eqn:Hs; [|done].
    apply strip_prefix_some in Hs as ->. intros H. bind_ok H. destruct a as [items ls'].
    injection H as <- <-. cbn [map app]. by rewrite <- (IH items).
Qed.

Lemma take_resources_inv lines rs :
  take_resources lines = Ok (rs, []) ->
  check_resources rs = Ok rs /\ (lines = resource_lines rs \/ rs = [] /\ lines = [RES_TAG]).
Proof.
  unfold take_resources. destruct lines as [|l ls]; [intros [= <-]; by split; [|left]|].
  destruct (String.eqb_spec l RES_TAG) as [->|]; [|done]. intros H. bind_ok H.
  destruct a as [rs' rest]. bind_ok H. injection H as -> ->.
  pose proof (check_resources_id _ _ Hok0) as ->. split; [done|].
  apply resources_loop_inv in Hok. rewrite app_nil_r in Hok. subst ls.
  destruct rs' as [|r rs']; [right; by split|]. by left.
Qed.

Lemma reject_trailing_inv lines u : reject_trailing lines = Ok u -> lines = [].
Proof. by destruct lines. Qed.

Lemma parse_preamble_inv h sc d chain :
  parse_preamble h = Ok (sc, d, chain) ->
  h = (match sc with Some s => s +:+ "://" +:+ d | None => d end) +:+ PREAMBLE_MID +:+ chain +:+ PREAMBLE_TAIL.
Proof.
  unfold parse_preamble. destruct (split_once PREAMBLE_MID h) as [[auth after]|] eqn:Hs; [|done].
  apply split_once_some_eq in Hs as ->. intros H. bind_ok H. destruct a as [sc' d'].
  destruct (strip_suffix PREAMBLE_TAIL after) as [c|] eqn:Ht; [|done].
  apply strip_suffix_some in Ht as ->. injection H as -> -> ->.
  unfold split_scheme_domain in Hok.
  destruct (split_once "://" auth) as [[s r]|] eqn:Hs; [|by injection Hok as <- <-].
  destruct (is_empty s || is_empty r); [done|]. injection Hok as <- <-.
  by apply split_once_some_eq in Hs as ->.
Qed.

Lemma optional_ts_inv o t :
  transpose (option_map timestamp_parse o) = Ok t ->
  o = option_map original t /\ forall x, t = Some x -> ts_ok x.
Proof.
  destruct o as [s|]; cbn; [|by intros [= <-]].
  destruct (timestamp_parse s) as [x|] eqn:Hp; [|done]. intros [= <-].
  destruct (timestamp_parse_ok _ _ Hp) as [Ho Hok]. split; [by rewrite <- Ho|].
  by intros y [= <-].
Qed.

(** The label the preamble carries. *)
Definition label (m : SiwxMessage) : string := default "" (chain_name m).

Lemma parse_lines_inv lines m :
  parse_lines lines = Ok m ->
  shape_ok m /\ (forall s, statement m = Some s -> is_tagged s = false) /\
  (lines = lines_of m (label m) \/
   resources m = [] /\ lines = lines_of m (label m) ++ [RES_TAG]).
Proof.
  unfold parse_lines. intros H.
  bind1 H a Hok. destruct a as [header l0]. apply next_inv in Hok as ->. cbv beta iota in H.
  bind1 H a Hok. destruct a as [[sc d] chain]. apply parse_preamble_inv in Hok as ->. cbv beta iota in H.
  bind1 H a Hok. apply check_optional_id in Hok as [-> Hsc]; [|exact check_scheme_id].
  bind1 H a Hok. pose proof (check_domain_id _ _ Hok) as ->. rename Hok into Hd.
  bind1 H a Hok. destruct a as [addr l1]. apply next_inv in Hok as ->. cbv beta iota in H.
  destruct addr as [|a0 addr]; [done|]. cbn [is_empty] in H.
  bind1 H a Hok. destruct a as [u l2]. apply expect_blank_inv in Hok as ->. cbv beta iota in H.
  bind1 H a Hok. destruct a as [st l3]. apply take_statement_inv in Hok as [-> Hst]. cbv beta iota in H.
  bind1 H a Hok. destruct a as [ur l4]. apply take_required_tag_inv in Hok as ->. cbv beta iota in H.
  bind1 H a Hok. pose proof (check_uri_id _ _ Hok) as ->. rename Hok into Huri.
  bind1 H a Hok. destruct a as [ver l5]. apply take_required_tag_inv in Hok as ->. cbv beta iota in H.
  destruct (String.eqb_spec ver VERSION) as [->|]; [|done]. cbn [negb] in H.
  bind1 H a Hok. destruct a as [cid l6]. apply take_required_tag_inv in Hok as ->. cbv beta iota in H.
  destruct cid as [|c0 cid]; [done|]. cbn [is_empty] in H.
  bind1 H a Hok. destruct a as [n l7]. apply take_required_tag_inv in Hok as ->. cbv beta iota in H.
  bind1 H a Hok. pose proof (check_nonce_id _ _ Hok) as ->. rename Hok into Hn.
  bind1 H a Hok. destruct a as [iat l8]. cbv beta iota in H. unfold take_required_ts in Hok.
  bind1 Hok a Hok0. destruct a as [iats l8']. apply take_required_tag_inv in Hok0 as ->. cbv beta iota in Hok.
  bind1 Hok a Hok0. injection Hok as -> ->. apply timestamp_parse_ok in Hok0 as [<- Hiat].
  bind1 H a Hok. destruct a as [exp l9]. cbv beta iota in H. unfold take_optional_ts in Hok.
  destruct (take_optional_tag EXP_TAG l8) as [exps l9'] eqn:Hexp.
  apply take_optional_tag_inv in Hexp as ->. bind1 Hok a Hok0. injection Hok as -> ->.
  apply optional_ts_inv in Hok0 as [-> Hexp].
  bind1 H a Hok. destruct a as [nbf l10]. cbv beta iota in H. unfold take_optional_ts in Hok.
  destruct (take_optional_tag NBF_TAG l9) as [nbfs l10'] eqn:Hnbf.
  apply take_optional_tag_inv in Hnbf as ->. bind1 Hok a Hok0. injection Hok as -> ->.
  apply optional_ts_inv in Hok0 as [-> Hnbf].
  destruct (take_optional_tag RID_TAG l10) as [rid l11] eqn:Hrid.
  apply take_optional_tag_inv in Hrid as ->.
  bind1 H a Hok. apply check_optional_id in Hok as [-> Hrid]; [|exact check_request_id_id].
  bind1 H a Hok. destruct a as [rs l12]. cbv beta iota in H. bind1 H a Hok0.
  apply reject_trailing_inv in Hok0 as ->. apply take_resources_inv in Hok as [Hrs Hres].
  injection H as <-. split; [|split].
  - split; cbn; try done. intros s Hs. by apply Hst.
  - cbn. intros s Hs. by apply Hst.
  - unfold lines_of, tail_lines, label, header_of, authority_of. cbn.
    assert (Hlabel : default "" (if negb (is_empty chain) then Some chain else None) = chain)
      by (by destruct chain).
    rewrite Hlabel. destruct Hres as [->|[-> ->]]; [left|right; split; [done|]];
      rewrite <- ?app_assoc; cbn [app]; rewrite <- ?app_assoc; done.
Qed.

Lemma split_char_not_lf s : Forall (fun l => all_bytes not_lf l = true) (split_char lf s).
Proof.
  induction s as [|c s IH]; [by repeat constructor|]. cbn [split_char].
  destruct (Ascii.eqb c lf) eqn:Hc; [by constructor|].
  destruct (split_char lf s) as [|l ls]; [constructor; [cbn [all_bytes]; unfold not_lf; by rewrite Hc|constructor]|].
  inversion IH; subst. constructor; [|done]. cbn [all_bytes]. unfold not_lf at 1. by rewrite Hc.
Qed.

Lemma split_char_no_cr s :
  contains_byte cr s = false ->
  Forall (fun l => all_bytes (fun x => negb (Ascii.eqb x cr)) l = true) (split_char lf s).
Proof.
  unfold contains_byte. intros H%negb_false_iff. revert H.
  induction s as [|c s IH]; [by repeat constructor|]. cbn [all_bytes split_char].
  intros [Hc Hs]%andb_true_iff. specialize (IH Hs).
  destruct (Ascii.eqb c lf); [by constructor|].
  destruct (split_char lf s) as [|l ls]; [constructor; [cbn [all_bytes]; by rewrite Hc|constructor]|].
  inversion IH; subst. constructor; [|done]. cbn [all_bytes]. by rewrite Hc.
Qed.

Lemma safe_app_inv a b : safe (a +:+ b) -> safe a /\ safe b.
Proof. unfold safe. rewrite all_bytes_app, andb_true_iff. done. Qed.

Lemma lines_line_safe m chain tail :
  Forall safe (lines_of m chain ++ tail) -> (forall s, statement m = Some s -> is_tagged s = false) ->
  line_safe m chain.
Proof.
  intros H Hst. unfold lines_of in H. cbn [app] in H.
  apply Forall_cons in H as [Hh H]. apply Forall_cons in H as [Ha H].
  apply Forall_cons in H as [_ H]. rewrite <- app_assoc in H. apply Forall_app in H as [_ H].
  cbn [app] in H. apply Forall_cons in H as [_ H]. apply Forall_cons in H as [_ H].
  apply Forall_cons in H as [Hc _]. unfold header_of in Hh.
  apply safe_app_inv in Hh as [_ Hh]. apply safe_app_inv in Hh as [_ Hh].
  apply safe_app_inv in Hh as [Hh _]. apply safe_app_inv in Hc as [_ Hc]. by split.
Qed.

Lemma join_snoc ls l : ls <> [] -> join_char lf (ls ++ [l]) = join_char lf ls +:+ String lf l.
Proof.
  induction ls as [|x [|y ls] IH]; intros Hne; [done|done|].
  change (join_char lf ((x :: y :: ls) ++ [l]))
    with (x +:+ String lf (join_char lf ((y :: ls) ++ [l]))).
  rewrite IH by done.
  change (join_char lf (x :: y :: ls)) with (x +:+ String lf (join_char lf (y :: ls))).
  by rewrite <- app_assoc_str.
Qed.

Lemma from_str_inv raw m :
  from_str raw = Ok m ->
  shape_ok m /\ line_safe m (label m) /\ (str_len raw <= MAX_MESSAGE_BYTES)%Z /\
  (raw = to_sign_string m (label m) \/
   resources m = [] /\ raw = to_sign_string m (label m) +:+ String lf RES_TAG).
Proof.
  unfold from_str. destruct (Z.ltb_spec MAX_MESSAGE_BYTES (str_len raw)); [done|].
  destruct (contains_byte cr raw) eqn:Hcr; [done|]. intros Hp.
  destruct (parse_lines_inv _ _ Hp) as (Hm & Hst & Hl).
  assert (Hsafe : Forall safe (split_char lf raw)).
  { pose proof (split_char_not_lf raw) as H1. pose proof (split_char_no_cr raw Hcr) as H2.
    rewrite Forall_forall in H1, H2 |- *. intros l Hin. specialize (H1 l Hin).
    specialize (H2 l Hin). unfold safe, no_line_break. rewrite all_bytes_and.
    unfold not_lf in H1. by rewrite H1, H2. }
  assert (Hraw : raw = join_char lf (split_char lf raw)) by (by rewrite join_split).
  split; [done|]. assert (Hls : line_safe m (label m)).
  { destruct Hl as [Hl|[_ Hl]]; rewrite Hl in Hsafe.
    - apply (lines_line_safe m (label m) []); [by rewrite app_nil_r|done].
    - by eapply lines_line_safe. }
  split; [done|]. split; [done|]. rewrite (to_sign_string_join m _ Hm Hls).
  destruct Hl as [Hl|[Hr Hl]]; rewrite Hl in Hraw; [by left|right]. split; [done|].
  rewrite Hraw. apply join_snoc. by unfold lines_of.
Qed.

(** Parsing is unambiguous: an accepted text is the rendering of the message
    it parses to, byte for byte, except for an optional empty resource list at
    its end.  Two accepted texts that parse to the same message differ at most
    by that line. *)
Theorem from_str_canonical raw m :
  from_str raw = Ok m ->
  shape_ok m /\ line_safe m (label m) /\
  (raw = to_sign_string m (label m) \/
   resources m = [] /\ raw = to_sign_string m (label m) +:+ String lf RES_TAG).
Proof. intros H%from_str_inv. tauto. Qed.

(** ** The type invariant *)

(** Every way the library has of making a message. *)
Inductive constructed : SiwxMessage -> Prop :=
| by_new now d a u c n m : new now d a u c n = Ok m -> constructed m
| by_from_str raw m : from_str raw = Ok m -> constructed m
| by_try_from dto m : ts_ok (issued_at dto) ->
    (forall t, expiration_time dto = Some t -> ts_ok t) ->
    (forall t, not_before dto = Some t -> ts_ok t) -> try_from dto = Ok m -> constructed m
| by_scheme m s m' : constructed m -> with_scheme m s = Ok m' -> constructed m'
| by_statement m s m' : constructed m -> with_statement m s = Ok m' -> constructed m'
| by_nonce m s m' : constructed m -> with_nonce m s = Ok m' -> constructed m'
| by_issued_at m t m' : constructed m -> with_issued_at m t = Ok m' -> constructed m'
| by_expiration m t m' : constructed m -> with_expiration_time m t = Ok m' -> constructed m'
| by_not_before m t m' : constructed m -> with_not_before m t = Ok m' -> constructed m'
| by_issued_at_raw m s m' : constructed m -> with_issued_at_raw m s = Ok m' -> constructed m'
| by_expiration_raw m s m' : constructed m -> with_expiration_time_raw m s = Ok m' -> constructed m'
| by_not_before_raw m s m' : constructed m -> with_not_before_raw m s = Ok m' -> constructed m'
| by_request_id m s m' : constructed m -> with_request_id m s = Ok m' -> constructed m'
| by_resources m l m' : constructed m -> with_resources m l = Ok m' -> constructed m'.

Lemma new_shape now d a u c n m : new now d a u c n = Ok m -> shape_ok m.
Proof.
  unfold new. intros H. bind1 H d' Hd. pose proof (check_domain_id _ _ Hd) as ->.
  destruct a as [|a0 a]; [done|]. cbn [is_empty] in H.
  bind1 H u' Hu. pose proof (check_uri_id _ _ Hu) as ->.
  destruct c as [|c0 c]; [done|]. cbn [is_empty] in H.
  bind1 H n' Hn. pose proof (check_nonce_id _ _ Hn) as ->.
  bind1 H t Ht. apply from_instant_ok in Ht as [_ Ht]. injection H as <-. by split.
Qed.

Lemma try_from_shape dto m :
  ts_ok (issued_at dto) -> (forall t, expiration_time dto = Some t -> ts_ok t) ->
  (forall t, not_before dto = Some t -> ts_ok t) -> try_from dto = Ok m -> shape_ok m.
Proof.
  unfold try_from. intros Hi He Hn H.
  bind1 H sc Hsc. apply check_optional_id in Hsc as [-> Hsc]; [|exact check_scheme_id].
  bind1 H d Hd. pose proof (check_domain_id _ _ Hd) as ->.
  destruct (address dto) as [|a0 a] eqn:Ea; [done|]. cbn [is_empty] in H.
  bind1 H x Hst. bind1 H u Hu. pose proof (check_uri_id _ _ Hu) as ->.
  destruct (String.eqb_spec (version dto) VERSION) as [Ev|]; [|done]. cbn [negb] in H.
  destruct (chain_id dto) as [|c0 c] eqn:Ec; [done|]. cbn [is_empty] in H.
  bind1 H n Hno. pose proof (check_nonce_id _ _ Hno) as ->.
  bind1 H rid Hr. apply check_optional_id in Hr as [-> Hr]; [|exact check_request_id_id].
  bind1 H rs Hrs. pose proof (check_resources_id _ _ Hrs) as ->. injection H as <-.
  split; cbn; try done. intros s Es. rewrite Es in Hst. by destruct x.
Qed.

(** Type invariant: whichever constructor, parser, deserializer or builder
    made it, a message satisfies every field check, its version is 1, and each
    of its timestamps denotes the instant its text says. *)
Theorem constructed_shape_ok m : constructed m -> shape_ok m.
Proof.
  induction 1 as [now d a u c n m H|raw m H|dto m Hi He Hn H|m s m' _ IH H|m s m' _ IH H|m s m' _ IH H
    |m s m' _ IH H|m s m' _ IH H|m s m' _ IH H|m s m' _ IH H|m s m' _ IH H|m s m' _ IH H
    |m s m' _ IH H|m s m' _ IH H].
  - by eapply new_shape.
  - by apply from_str_inv in H as [? _].
  - by eapply try_from_shape.
  - unfold with_scheme in H. bind1 H x Hx. pose proof (check_scheme_id _ _ Hx) as ->.
    injection H as <-. destruct IH. split; cbn; try done. by intros ? [= <-].
  - unfold with_statement in H. bind1 H x Hx. destruct x. injection H as <-.
    destruct IH. split; cbn; try done. by intros ? [= <-].
  - unfold with_nonce in H. bind1 H x Hx. pose proof (check_nonce_id _ _ Hx) as ->.
    injection H as <-. destruct IH. by split.
  - unfold with_issued_at in H. bind1 H x Hx. apply from_instant_ok in Hx as [_ Hx].
    injection H as <-. destruct IH. by split.
  - unfold with_expiration_time in H. bind1 H x Hx. apply from_instant_ok in Hx as [_ Hx].
    injection H as <-. destruct IH. split; cbn; try done. by intros ? [= <-].
  - unfold with_not_before in H. bind1 H x Hx. apply from_instant_ok in Hx as [_ Hx].
    injection H as <-. destruct IH. split; cbn; try done. by intros ? [= <-].
  - unfold with_issued_at_raw in H. bind1 H x Hx. apply timestamp_parse_ok in Hx as [_ Hx].
    injection H as <-. destruct IH. by split.
  - unfold with_expiration_time_raw in H. bind1 H x Hx. apply timestamp_parse_ok in Hx as [_ Hx].
    injection H as <-. destruct IH. split; cbn; try done. by intros ? [= <-].
  - unfold with_not_before_raw in H. bind1 H x Hx. apply timestamp_parse_ok in Hx as [_ Hx].
    injection H as <-. destruct IH. split; cbn; try done. by intros ? [= <-].
  - unfold with_request_id in H. bind1 H x Hx. pose proof (check_request_id_id _ _ Hx) as ->.
    injection H as <-. destruct IH. split; cbn; try done. by intros ? [= <-].
  - unfold with_resources in H. bind1 H x Hx. pose proof (check_resources_id _ _ Hx) as ->.
    injection H as <-. destruct IH. by split.
Qed.
End Parse.

(** ** Concrete runs *)

Definition demo_ts (n : Z) : Timestamp := {| parsed := n; original := demo_instant_display n |}.

Definition demo_message : SiwxMessage := {|
  scheme := Some "https";
  domain := "example.com";
  address := "0xAbC";
  statement := Some "I accept the terms: https://example.com/tos";
  uri := "https://example.com/login";
  version := "1";
  chain_id := "1";
  chain_name := None;
  nonce := "abcdefgh12345678";
  issued_at := demo_ts 1000;
  expiration_time := Some (demo_ts 5000);
  not_before := None;
  request_id := Some "req%2F1";
  resources := ["https://example.com/a"; "ipfs://b"]
|}.

Lemma demo_message_shape : shape_ok demo_message.
Proof.
  split; cbn; try done; intros x [= <-]; reflexivity.
Defined.

Lemma demo_message_safe : line_safe demo_message "Ethereum".
Proof. split; try done. intros s [= <-]. reflexivity. Defined.

Lemma parse_to_sign_string_witness :
  exists raw, raw = to_sign_string demo_message "Ethereum" /\
    from_str raw = Ok (with_chain_name demo_message "Ethereum").
Proof.
  eexists. split; [reflexivity|].
  apply (parse_to_sign_string demo_message "Ethereum" demo_message_shape demo_message_safe).
  vm_compute. discriminate.
Defined.

(** A text with an empty resource list. *)
Definition demo_raw : string := join_char lf
  ["example.com wants you to sign in with your Ethereum account:"; "0xAbC"; ""; "";
   "URI: https://example.com/login"; "Version: 1"; "Chain ID: 1"; "Nonce: abcdefgh1";
   "Issued At: T7Z"; "Resources:"].

Definition demo_parsed : SiwxMessage := {|
  scheme := None;
  domain := "example.com";
  address := "0xAbC";
  statement := None;
  uri := "https://example.com/login";
  version := "1";
  chain_id := "1";
  chain_name := Some "Ethereum";
  nonce := "abcdefgh1";
  issued_at := demo_ts 7;
  expiration_time := None;
  not_before := None;
  request_id := None;
  resources := []
|}.

Lemma from_str_canonical_witness :
  from_str demo_raw = Ok demo_parsed /\ shape_ok demo_parsed /\
  demo_raw = to_sign_string demo_parsed "Ethereum" +:+ String lf RES_TAG.
Proof.
  assert (H : from_str demo_raw = Ok demo_parsed) by runs.
  split; [exact H|]. split; [exact (proj1 (from_str_canonical demo_raw demo_parsed H))|].
  runs.
Defined.

Definition demo_new (address : string) : result SiwxError SiwxMessage :=
  new (1000 : Z) "example.com" address "https://example.com/login" "1" "abcdefgh1".

(** What [demo_new] makes. *)
Definition demo_made (address : string) (statement : option string) : SiwxMessage := {|
  scheme := None;
  domain := "example.com";
  address := address;
  statement := statement;
  uri := "https://example.com/login";
  version := "1";
  chain_id := "1";
  chain_name := None;
  nonce := "abcdefgh1";
  issued_at := demo_ts 1000;
  expiration_time := None;
  not_before := None;
  request_id := None;
  resources := []
|}.

Lemma constructed_shape_ok_witness :
  demo_new "0xAbC" = Ok (demo_made "0xAbC" None) /\
  with_statement (demo_made "0xAbC" None) "Hello" = Ok (demo_made "0xAbC" (Some "Hello")) /\
  shape_ok (demo_made "0xAbC" (Some "Hello")).
Proof.
  assert (H1 : demo_new "0xAbC" = Ok (demo_made "0xAbC" None)) by runs.
  assert (H2 : with_statement (demo_made "0xAbC" None) "Hello" = Ok (demo_made "0xAbC" (Some "Hello")))
    by runs.
  split; [exact H1|]. split; [exact H2|].
  exact (constructed_shape_ok _ (by_statement _ _ _ 
           (by_new (1000 : Z) "example.com" "0xAbC" "https://example.com/login" "1" "abcdefgh1" _ H1)
           H2)).
Defined.

(** A statement that begins like a field passes the builder, and the message
    then renders to a text its own parser rejects. *)
Theorem tagged_statement_does_not_parse :
  let m := demo_made "0xAbC" (Some "URI: https://evil.example") in
  with_statement (demo_made "0xAbC" None) "URI: https://evil.example" = Ok m /\
  from_str (to_sign_string m "Ethereum") = Err (InvalidFormat ExpectedBlankLine).
Proof. split; runs. Qed.

(** An address with line breaks passes the constructor: the rendered text then
    shows lines of the address's choosing, such as a statement the message does
    not have, and does not parse. *)
Theorem address_line_injection :
  let address := "0xAbC" +:+ String lf (String lf "I accept nothing") in
  let m := demo_made address None in
  demo_new address = Ok m /\ statement m = None /\
  nth 3 (split_char lf (to_sign_string m "Ethereum")) "" = "I accept nothing" /\
  is_ok (from_str (to_sign_string m "Ethereum")) = false.
Proof. split; [runs|]. split; [done|]. split; runs. Qed.
