(* ===== verification/SiwxAuth.v ===== *)
(** * Validating and authenticating a sign-in

    [crates/oc-siwx/src/validate.rs], [verifier.rs] and [auth.rs]. *)

From Stdlib Require Import ZArith Lia Bool String Ascii.
From stdpp Require Import base list strings.
From S2P Require Import Prelude Str Bytes SiwxMessage SiwxParse.

Local Open Scope oc_scope.

Definition DEFAULT_CLOCK_SKEW_SECS : Z := 60.

Definition EVM_CHAIN_NAME : string := "Ethereum".
Definition EVM_NAMESPACE : string := "eip155".
Definition SOLANA_CHAIN_NAME : string := "Solana".
Definition SOLANA_NAMESPACE : string := "solana".

Section Auth.
Context `{Ext : External}.

Record AuthOpts := {
  opt_domain : string;
  opt_nonce : string;
  opt_scheme : option string;
  opt_uri : option string;
  opt_chain_id : option string;
  opt_request_id : option string;
  opt_timestamp : option Instant;
  clock_skew_secs : Z;
  max_issued_age_secs : option Z
}.

Definition opts_new (domain nonce : string) : AuthOpts := {|
  opt_domain := domain; opt_nonce := nonce; opt_scheme := None; opt_uri := None;
  opt_chain_id := None; opt_request_id := None; opt_timestamp := None;
  clock_skew_secs := DEFAULT_CLOCK_SKEW_SECS; max_issued_age_secs := None
|}.

Definition opts_with_scheme (o : AuthOpts) (s : string) : AuthOpts := {|
  opt_domain := opt_domain o; opt_nonce := opt_nonce o; opt_scheme := Some s;
  opt_uri := opt_uri o; opt_chain_id := opt_chain_id o; opt_request_id := opt_request_id o;
  opt_timestamp := opt_timestamp o; clock_skew_secs := clock_skew_secs o;
  max_issued_age_secs := max_issued_age_secs o |}.
Definition opts_with_uri (o : AuthOpts) (u : string) : AuthOpts := {|
  opt_domain := opt_domain o; opt_nonce := opt_nonce o; opt_scheme := opt_scheme o;
  opt_uri := Some u; opt_chain_id := opt_chain_id o; opt_request_id := opt_request_id o;
  opt_timestamp := opt_timestamp o; clock_skew_secs := clock_skew_secs o;
  max_issued_age_secs := max_issued_age_secs o |}.
Definition opts_with_chain_id (o : AuthOpts) (c : string) : AuthOpts := {|
  opt_domain := opt_domain o; opt_nonce := opt_nonce o; opt_scheme := opt_scheme o;
  opt_uri := opt_uri o; opt_chain_id := Some c; opt_request_id := opt_request_id o;
  opt_timestamp := opt_timestamp o; clock_skew_secs := clock_skew_secs o;
  max_issued_age_secs := max_issued_age_secs o |}.
Definition opts_with_request_id (o : AuthOpts) (r : string) : AuthOpts := {|
  opt_domain := opt_domain o; opt_nonce := opt_nonce o; opt_scheme := opt_scheme o;
  opt_uri := opt_uri o; opt_chain_id := opt_chain_id o; opt_request_id := Some r;
  opt_timestamp := opt_timestamp o; clock_skew_secs := clock_skew_secs o;
  max_issued_age_secs := max_issued_age_secs o |}.
Definition opts_with_timestamp (o : AuthOpts) (t : Instant) : AuthOpts := {|
  opt_domain := opt_domain o; opt_nonce := opt_nonce o; opt_scheme := opt_scheme o;
  opt_uri := opt_uri o; opt_chain_id := opt_chain_id o; opt_request_id := opt_request_id o;
  opt_timestamp := Some t; clock_skew_secs := clock_skew_secs o;
  max_issued_age_secs := max_issued_age_secs o |}.
Definition opts_with_clock_skew_secs (o : AuthOpts) (s : Z) : AuthOpts := {|
  opt_domain := opt_domain o; opt_nonce := opt_nonce o; opt_scheme := opt_scheme o;
  opt_uri := opt_uri o; opt_chain_id := opt_chain_id o; opt_request_id := opt_request_id o;
  opt_timestamp := opt_timestamp o; clock_skew_secs := s;
  max_issued_age_secs := max_issued_age_secs o |}.
Definition opts_with_max_issued_age_secs (o : AuthOpts) (a : Z) : AuthOpts := {|
  opt_domain := opt_domain o; opt_nonce := opt_nonce o; opt_scheme := opt_scheme o;
  opt_uri := opt_uri o; opt_chain_id := opt_chain_id o; opt_request_id := opt_request_id o;
  opt_timestamp := opt_timestamp o; clock_skew_secs := clock_skew_secs o;
  max_issued_age_secs := Some a |}.

(** [clock] is what [jiff::Timestamp::now()] reads. *)
Definition opts_now (o : AuthOpts) (clock : Instant) : Instant := default clock (opt_timestamp o).

(** ** Validation *)

Definition check_required_shapes (m : SiwxMessage) : result SiwxError unit :=
  let? _ := match scheme m with
            | Some s => result_map (fun _ => tt) (check_scheme s)
            | None => Ok tt
            end in
  let? _ := check_domain (domain m) in
  if is_empty (address m) then Err (InvalidAddress "empty")
  else if negb (String.eqb (version m) VERSION) then Err (InvalidFormat VersionNotOne)
  else if is_empty (chain_id m) then Err (InvalidChainId Empty)
  else let? _ := check_nonce_shape (nonce m) in Ok tt.

Definition check_domain_binding (m : SiwxMessage) (expected : string) : result SiwxError unit :=
  if negb (String.eqb expected (domain m)) then Err (DomainMismatch expected (domain m)) else Ok tt.

Definition check_nonce_binding (m : SiwxMessage) (expected : string) : result SiwxError unit :=
  if negb (String.eqb expected (nonce m)) then Err (NonceMismatch expected (nonce m)) else Ok tt.

Definition some_eqb (a : option string) (b : string) : bool :=
  match a with Some a => String.eqb a b | None => false end.

Definition check_scheme_binding (m : SiwxMessage) (expected : option string)
  : result SiwxError unit :=
  match expected with
  | Some e => if negb (some_eqb (scheme m) e) then Err (SchemeMismatch (Some e) (scheme m)) else Ok tt
  | None => Ok tt
  end.

Definition check_uri_binding (m : SiwxMessage) (expected : option string)
  : result SiwxError unit :=
  match expected with
  | Some e => if negb (String.eqb e (uri m)) then Err (UriMismatch e (uri m)) else Ok tt
  | None => Ok tt
  end.

Definition check_chain_id_binding (m : SiwxMessage) (expected : option string)
  : result SiwxError unit :=
  match expected with
  | Some e => if negb (String.eqb e (chain_id m)) then Err (ChainIdMismatch e (chain_id m)) else Ok tt
  | None => Ok tt
  end.

Definition check_request_id_binding (m : SiwxMessage) (expected : option string)
  : result SiwxError unit :=
  match expected with
  | Some e => if negb (some_eqb (request_id m) e)
              then Err (RequestIdMismatch (Some e) (request_id m)) else Ok tt
  | None => Ok tt
  end.

(** [a > b] on durations. *)
Definition duration_gtb (a b : Duration) : bool := duration_ltb b a.

(** The difference [(now - issued) - skew] is the only arithmetic that can
    panic, and it is computed only under the first test. *)
Definition check_issued_age (m : SiwxMessage) (now : Instant) (skew : Duration) (max_age : Z)
  : outcome (result SiwxError unit) :=
  let issued := parsed (issued_at m) in
  if duration_gtb (duration_since issued now) skew then Ret (Ok tt)
  else match duration_sub (duration_since now issued) skew with
       | Panic => Panic
       | Ret age => if duration_gtb age (from_secs max_age) then Ret (Err StaleIssuedAt)
                    else Ret (Ok tt)
       end.

Definition check_temporal_window (m : SiwxMessage) (opts : AuthOpts) (clock : Instant)
  : outcome (result SiwxError unit) :=
  let now := opts_now opts clock in
  let skew := from_secs (clock_skew_secs opts) in
  let expired := match expiration_time m with
                 | Some e => duration_gtb (duration_since now (parsed e)) skew
                 | None => false
                 end in
  let early := match not_before m with
               | Some n => duration_gtb (duration_since (parsed n) now) skew
               | None => false
               end in
  if expired then Ret (Err Expired)
  else if early then Ret (Err NotYetValid)
  else match max_issued_age_secs opts with
       | Some max_age => check_issued_age m now skew max_age
       | None => Ret (Ok tt)
       end.

Definition validate (m : SiwxMessage) (opts : AuthOpts) (clock : Instant)
  : outcome (result SiwxError unit) :=
  let! _ := Ret (
    let? _ := check_required_shapes m in
    let? _ := check_uri (uri m) in
    let? _ := match statement m with Some s => check_statement s | None => Ok tt end in
    let? _ := match request_id m with
              | Some r => result_map (fun _ => tt) (check_request_id r)
              | None => Ok tt
              end in
    let? _ := check_resources (resources m) in
    let? _ := check_domain_binding m (opt_domain opts) in
    let? _ := check_nonce_binding m (opt_nonce opts) in
    let? _ := check_scheme_binding m (opt_scheme opts) in
    let? _ := check_uri_binding m (opt_uri opts) in
    let? _ := check_chain_id_binding m (opt_chain_id opts) in
    check_request_id_binding m (opt_request_id opts)) in
  check_temporal_window m opts clock.

(** ** Verifiers *)

Definition default_validate_address (address : string) : result SiwxError unit :=
  if is_empty address then Err (InvalidAddress "empty") else Ok tt.

Definition default_validate_chain_id (chain_id : string) : result SiwxError unit :=
  if is_empty chain_id then Err (InvalidChainId Empty) else Ok tt.

Class SyncVerifier (V : Type) := {
  CHAIN_NAME : string;
  NAMESPACE : string;
  validate_address : string -> result SiwxError unit;
  validate_chain_id : string -> result SiwxError unit;
  verify : V -> SiwxMessage -> string -> bytes -> result SiwxError unit
}.

Definition format_message (V : Type) `{SyncVerifier V} (m : SiwxMessage) : string :=
  to_sign_string m CHAIN_NAME.

(** ** Authentication *)

Record Authenticated := { message : SiwxMessage }.

Definition authenticate {V} `{SyncVerifier V} (verifier : V) (raw_message : string)
    (signature : bytes) (opts : AuthOpts) (clock : Instant)
  : outcome (result SiwxError Authenticated) :=
  if (MAX_MESSAGE_BYTES <? str_len raw_message)%Z then
    Ret (Err (MessageTooLarge (str_len raw_message) MAX_MESSAGE_BYTES))
  else
    let! m := Ret (from_str raw_message) in
    let! _ := validate m opts clock in
    if negb (some_eqb (chain_name m) CHAIN_NAME) then
      Ret (Err (ChainNameMismatch CHAIN_NAME (chain_name m)))
    else Ret (
      let? _ := validate_address (address m) in
      let? _ := validate_chain_id (chain_id m) in
      let? _ := verify verifier m raw_message signature in
      Ok {| message := m |}).

(** ** What validation means *)

Context `{!ExternalLaws Ext}.

Definition binds {A} (expected : option A) (actual : A) : Prop :=
  forall e, expected = Some e -> actual = e.

(** The bindings a relying party asked for. *)
Record bound (m : SiwxMessage) (o : AuthOpts) : Prop := {
  bound_domain : domain m = opt_domain o;
  bound_nonce : nonce m = opt_nonce o;
  bound_scheme : forall s, opt_scheme o = Some s -> scheme m = Some s;
  bound_uri : binds (opt_uri o) (uri m);
  bound_chain_id : binds (opt_chain_id o) (chain_id m);
  bound_request_id : forall r, opt_request_id o = Some r -> request_id m = Some r
}.

Definition billion : Z := 1000000000.

(** The window in nanoseconds, the skew on the permissive side of each bound. *)
Record in_window (m : SiwxMessage) (o : AuthOpts) (now : Instant) : Prop := {
  not_expired : forall t, expiration_time m = Some t ->
    (instant_ns now <= instant_ns (parsed t) + clock_skew_secs o * billion)%Z;
  not_early : forall t, not_before m = Some t ->
    (instant_ns (parsed t) - clock_skew_secs o * billion <= instant_ns now)%Z;
  not_stale : forall a, max_issued_age_secs o = Some a ->
    (instant_ns (parsed (issued_at m)) <= instant_ns now + clock_skew_secs o * billion)%Z ->
    (instant_ns now - instant_ns (parsed (issued_at m)) <= (a + clock_skew_secs o) * billion)%Z
}.

(** The subtraction of [check_issued_age] is in range. *)
Definition age_in_range (m : SiwxMessage) (o : AuthOpts) (now : Instant) : Prop :=
  duration_sub (duration_since now (parsed (issued_at m))) (from_secs (clock_skew_secs o)) <> Panic.

Lemma some_eqb_spec a b : some_eqb a b = true <-> a = Some b.
Proof. destruct a; simpl; [rewrite String.eqb_eq|]; split; congruence. Qed.

Lemma duration_gtb_spec a b : duration_gtb a b = true <-> (duration_ns b < duration_ns a)%Z.
Proof. unfold duration_gtb. rewrite duration_ltb_ns. apply Z.ltb_lt. Qed.

Lemma duration_gtb_false a b : duration_gtb a b = false <-> (duration_ns a <= duration_ns b)%Z.
Proof. unfold duration_gtb. rewrite duration_ltb_ns. apply Z.ltb_ge. Qed.

Lemma optional_gtb {A} (o : option A) f skew :
  match o with Some x => duration_gtb (f x) skew | None => false end = false <->
  forall x, o = Some x -> (duration_ns (f x) <= duration_ns skew)%Z.
Proof.
  destruct o as [x|]; [|naive_solver]. rewrite duration_gtb_false. split; [|auto].
  by intros H y [= <-].
Qed.

Lemma check_issued_age_ok m now skew a :
  duration_sub (duration_since now (parsed (issued_at m))) skew <> Panic ->
  check_issued_age m now skew a = Ret (Ok tt) <->
  ((instant_ns (parsed (issued_at m)) <= instant_ns now + duration_ns skew)%Z ->
   (instant_ns now - instant_ns (parsed (issued_at m)) <= a * billion + duration_ns skew)%Z).
Proof.
  intros Hr. unfold check_issued_age.
  destruct (duration_gtb (duration_since (parsed (issued_at m)) now) skew) eqn:Hf.
  - apply duration_gtb_spec in Hf. rewrite duration_since_ns in Hf. split; [|done]. intros _. lia.
  - apply duration_gtb_false in Hf. rewrite duration_since_ns in Hf.
    destruct (duration_sub _ skew) as [d|] eqn:Hd; [|done].
    apply duration_sub_ns in Hd. rewrite duration_since_ns in Hd.
    destruct (duration_gtb d (from_secs a)) eqn:Hg.
    + apply duration_gtb_spec in Hg. rewrite from_secs_ns in Hg. unfold billion.
      split; [done|]. intros H. specialize (H ltac:(lia)). lia.
    + apply duration_gtb_false in Hg. rewrite from_secs_ns in Hg. unfold billion.
      split; [|done]. intros _ _. lia.
Qed.

Lemma check_temporal_window_ok m opts clock :
  let now := opts_now opts clock in
  age_in_range m opts now ->
  check_temporal_window m opts clock = Ret (Ok tt) <-> in_window m opts now.
Proof.
  intros now Hr. unfold check_temporal_window. fold now.
  set (skew := from_secs (clock_skew_secs opts)).
  assert (Hskew : duration_ns skew = (clock_skew_secs opts * billion)%Z) by apply from_secs_ns.
  pose proof (optional_gtb (expiration_time m) (fun e => duration_since now (parsed e)) skew) as He.
  pose proof (optional_gtb (not_before m) (fun n => duration_since (parsed n) now) skew) as Hn.
  destruct (match expiration_time m with Some _ => _ | None => _ end).
  { split; [done|]. intros [Hx _ _]. destruct He as [_ He]. discriminate He.
    intros t Ht. rewrite duration_since_ns, Hskew. specialize (Hx t Ht). lia. }
  destruct (match not_before m with Some _ => _ | None => _ end).
  { split; [done|]. intros [_ Hx _]. destruct Hn as [_ Hn]. discriminate Hn.
    intros t Ht. rewrite duration_since_ns, Hskew. specialize (Hx t Ht). lia. }
  pose proof (proj1 He eq_refl) as He'. pose proof (proj1 Hn eq_refl) as Hn'.
  assert (Hexp : forall t, expiration_time m = Some t ->
    (instant_ns now <= instant_ns (parsed t) + clock_skew_secs opts * billion)%Z).
  { intros t Ht. specialize (He' t Ht). rewrite duration_since_ns, Hskew in He'. lia. }
  assert (Hnbf : forall t, not_before m = Some t ->
    (instant_ns (parsed t) - clock_skew_secs opts * billion <= instant_ns now)%Z).
  { intros t Ht. specialize (Hn' t Ht). rewrite duration_since_ns, Hskew in Hn'. lia. }
  destruct (max_issued_age_secs opts) as [a|] eqn:Ha.
  - rewrite (check_issued_age_ok m now skew a Hr), Hskew. split.
    + intros H. split; [done|done|]. rewrite Ha. intros a' [= <-] Hle. specialize (H Hle). lia.
    + intros [_ _ H] Hle. specialize (H a Ha Hle). lia.
  - split; [|done]. intros _. split; [done|done|]. rewrite Ha. done.
Qed.

Lemma eqb_binding a b (e : SiwxError) : (if negb (String.eqb a b) then Err e else Ok tt) = Ok tt <-> b = a.
Proof. destruct (String.eqb_spec a b); simpl; split; congruence. Qed.

Lemma result_unit_ok (A B C D F G : result SiwxError unit) :
  (let? _ := A in let? _ := B in let? _ := C in let? _ := D in let? _ := F in G) = Ok tt <->
  A = Ok tt /\ B = Ok tt /\ C = Ok tt /\ D = Ok tt /\ F = Ok tt /\ G = Ok tt.
Proof.
  destruct A as [[]|], B as [[]|], C as [[]|], D as [[]|], F as [[]|]; simpl; intuition congruence.
Qed.

Lemma bindings_ok m o :
  (let? _ := check_domain_binding m (opt_domain o) in
   let? _ := check_nonce_binding m (opt_nonce o) in
   let? _ := check_scheme_binding m (opt_scheme o) in
   let? _ := check_uri_binding m (opt_uri o) in
   let? _ := check_chain_id_binding m (opt_chain_id o) in
   check_request_id_binding m (opt_request_id o)) = Ok tt <-> bound m o.
Proof.
  rewrite result_unit_ok. unfold check_domain_binding, check_nonce_binding.
  rewrite !eqb_binding.
  assert (Hs : check_scheme_binding m (opt_scheme o) = Ok tt <->
               forall s, opt_scheme o = Some s -> scheme m = Some s).
  { unfold check_scheme_binding. destruct (opt_scheme o) as [e|]; [|split; [intros _ s [=]|done]].
    pose proof (some_eqb_spec (scheme m) e) as H. destruct (some_eqb (scheme m) e); simpl; split;
      try done. - intros _ s [= <-]. by apply H. - intros Hx. specialize (Hx e eq_refl).
      apply H in Hx. done. }
  assert (Hr : check_request_id_binding m (opt_request_id o) = Ok tt <->
               forall s, opt_request_id o = Some s -> request_id m = Some s).
  { unfold check_request_id_binding.
    destruct (opt_request_id o) as [e|]; [|split; [intros _ s [=]|done]].
    pose proof (some_eqb_spec (request_id m) e) as H. destruct (some_eqb (request_id m) e); simpl;
      split; try done. - intros _ s [= <-]. by apply H. - intros Hx. specialize (Hx e eq_refl).
      apply H in Hx. done. }
  assert (Hu : check_uri_binding m (opt_uri o) = Ok tt <-> binds (opt_uri o) (uri m)).
  { unfold check_uri_binding, binds. destruct (opt_uri o) as [e|]; [|split; [intros _ s [=]|done]].
    rewrite eqb_binding. split; [intros H x [= <-]; done|auto]. }
  assert (Hc : check_chain_id_binding m (opt_chain_id o) = Ok tt <-> binds (opt_chain_id o) (chain_id m)).
  { unfold check_chain_id_binding, binds.
    destruct (opt_chain_id o) as [e|]; [|split; [intros _ s [=]|done]].
    rewrite eqb_binding. split; [intros H x [= <-]; done|auto]. }
  rewrite Hs, Hr, Hu, Hc. split; [intros (?&?&?&?&?&?); by split|intros []; by split_and!].
Qed.

Lemma shape_checks m {B} (k : result SiwxError B) :
  shape_ok m ->
  (let? _ := check_required_shapes m in
   let? _ := check_uri (uri m) in
   let? _ := match statement m with Some s => check_statement s | None => Ok tt end in
   let? _ := match request_id m with
             | Some r => result_map (fun _ => tt) (check_request_id r)
             | None => Ok tt
             end in
   let? _ := check_resources (resources m) in k) = k.
Proof.
  intros [Hsc Hd Ha Hst Hu Hv Hc Hn Hr Hrs _ _ _].
  assert (Hreq : check_required_shapes m = Ok tt).
  { unfold check_required_shapes.
    assert (E : match scheme m with
                | Some s => result_map (fun _ => tt) (check_scheme s)
                | None => Ok tt
                end = Ok tt).
    { destruct (scheme m) as [s|]; [|done]. by rewrite (Hsc s). }
    rewrite E, Hd. cbn [result_bind]. destruct (address m); [done|]. cbn [is_empty].
    rewrite Hv, String.eqb_refl. cbn [negb]. destruct (chain_id m); [done|]. cbn [is_empty].
    by rewrite Hn. }
  rewrite Hreq, Hu, Hrs. cbn [result_bind].
  assert (E1 : match statement m with Some s => check_statement s | None => Ok tt end = Ok tt)
    by (destruct (statement m); auto).
  assert (E2 : match request_id m with
               | Some r => result_map (fun _ => tt) (check_request_id r)
               | None => Ok tt
               end = Ok tt).
  { destruct (request_id m) as [r|]; [|done]. by rewrite (Hr r). }
  by rewrite E1, E2.
Qed.

Lemma validate_ok m opts clock :
  shape_ok m -> age_in_range m opts (opts_now opts clock) ->
  validate m opts clock = Ret (Ok tt) <-> bound m opts /\ in_window m opts (opts_now opts clock).
Proof.
  intros Hm Hr. unfold validate. rewrite (shape_checks m _ Hm), <- (bindings_ok m opts).
  rewrite <- (check_temporal_window_ok m opts clock Hr).
  destruct (let? _ := check_domain_binding m (opt_domain opts) in _) as [[]|e]; simpl; intuition congruence.
Qed.

(** On a well-formed message validation accepts exactly the messages that
    carry the expected domain, nonce and optional bindings and whose time
    window, widened by the skew, contains the clock. *)
Theorem validate_iff m opts clock :
  shape_ok m -> age_in_range m opts (opts_now opts clock) ->
  validate m opts clock = Ret (Ok tt) <-> bound m opts /\ in_window m opts (opts_now opts clock).
Proof. apply validate_ok. Qed.

(** C20 Authentication accepts exactly when the original text parses, within the
    size limit, to a message bound to the caller's domain, nonce and optional
    fields, inside its time window, labelled with the verifier's chain, with an
    address and chain id the verifier accepts, and the signature verifies over
    the original bytes; the message returned is that message. *)
Theorem authenticate_iff {V} `{SyncVerifier V} (v : V) raw sig opts clock a :
  (forall m, from_str raw = Ok m -> age_in_range m opts (opts_now opts clock)) ->
  authenticate v raw sig opts clock = Ret (Ok a) <->
  let m := message a in
  from_str raw = Ok m /\ bound m opts /\ in_window m opts (opts_now opts clock) /\
  chain_name m = Some CHAIN_NAME /\ validate_address (address m) = Ok tt /\
  validate_chain_id (chain_id m) = Ok tt /\ verify v m raw sig = Ok tt.
Proof.
  intros Hr. cbv zeta. unfold authenticate.
  assert (Hlen : forall m, from_str raw = Ok m -> (MAX_MESSAGE_BYTES <? str_len raw)%Z = false).
  { intros m Hp. apply from_str_inv in Hp as (_ & _ & Hl & _). by apply Z.ltb_ge. }
  destruct (from_str raw) as [m|e] eqn:Hp.
  2: { destruct (_ <? _)%Z; split; try done; by intros [? _]. }
  rewrite (Hlen m eq_refl). cbn [comp_bind]. specialize (Hr m eq_refl).
  apply from_str_inv in Hp as (Hm & _).
  pose proof (validate_ok m opts clock Hm Hr) as Hv.
  destruct (validate m opts clock) as [[[]|e]|] eqn:Hval; cbn [comp_bind].
  2: { split; [done|]. intros ([= <-] & Hb & Hw & _). by discriminate (proj2 Hv (conj Hb Hw)). }
  2: { split; [done|]. intros ([= <-] & Hb & Hw & _). by discriminate (proj2 Hv (conj Hb Hw)). }
  destruct (proj1 Hv eq_refl) as [Hb Hw].
  pose proof (some_eqb_spec (chain_name m) CHAIN_NAME) as Hcn.
  destruct (some_eqb (chain_name m) CHAIN_NAME); cbn [negb].
  2: { split; [done|]. intros ([= <-] & _ & _ & Hc & _). by apply Hcn in Hc. }
  destruct (validate_address (address m)) as [[]|] eqn:Ha; cbn [result_bind];
    [|split; [done|]; intros ([= <-] & _ & _ & _ & E & _); congruence].
  destruct (validate_chain_id (chain_id m)) as [[]|] eqn:Hc; cbn [result_bind];
    [|split; [done|]; intros ([= <-] & _ & _ & _ & _ & E & _); congruence].
  destruct (verify v m raw sig) as [[]|] eqn:Hs; cbn [result_bind];
    [|split; [done|]; intros ([= <-] & _ & _ & _ & _ & _ & E); congruence].
  split; [intros [= <-]; cbn; by split_and!; try apply Hcn|].
  intros ([= Hma] & _). destruct a. by rewrite Hma.
Qed.
End Auth.

(** ** A concrete sign-in *)

(** A verifier that knows one signature. *)
#[export] Instance demo_verifier : SyncVerifier unit := {|
  CHAIN_NAME := EVM_CHAIN_NAME;
  NAMESPACE := EVM_NAMESPACE;
  validate_address := default_validate_address;
  validate_chain_id := default_validate_chain_id;
  verify _ _ _ signature :=
    if bool_decide (signature = [1; 2]%Z) then Ok tt else Err (VerificationFailed "no match")
|}.

Definition demo_opts : AuthOpts :=
  opts_with_max_issued_age_secs
    (opts_with_chain_id (opts_new "example.com" "abcdefgh1") "1") 3600.

(** A nanosecond clock reading one hour and half a minute after [demo_raw]: stale
    without the skew. *)
Definition demo_clock : Z := 3630000000000.

Lemma demo_age_in_range m : from_str demo_raw = Ok m -> age_in_range m demo_opts demo_clock.
Proof.
  assert (H : from_str demo_raw = Ok demo_parsed) by runs.
  rewrite H. intros [= <-]. vm_compute. discriminate.
Defined.

Lemma validate_iff_witness :
  bound demo_parsed demo_opts /\ in_window demo_parsed demo_opts demo_clock.
Proof.
  apply (validate_iff demo_parsed demo_opts demo_clock).
  - split; cbn; try done; intros x [=].
  - apply demo_age_in_range. runs.
  - runs.
Defined.

Lemma authenticate_iff_witness :
  authenticate tt demo_raw [1; 2]%Z demo_opts demo_clock = Ret (Ok {| message := demo_parsed |}) /\
  bound demo_parsed demo_opts /\ chain_name demo_parsed = Some "Ethereum".
Proof.
  assert (H : authenticate tt demo_raw [1; 2]%Z demo_opts demo_clock =
              Ret (Ok {| message := demo_parsed |})) by runs.
  split; [exact H|].
  destruct (proj1 (authenticate_iff tt demo_raw [1; 2]%Z demo_opts demo_clock
                     {| message := demo_parsed |} demo_age_in_range) H)
    as (_ & Hb & _ & Hc & _).
  split; [exact Hb|exact Hc].
Defined.
