(* ===== verification/WcAuth.v ===== *)
(** * WalletConnect sign-in requests

    crates/oc-walletconnect/src/auth.rs: the parameters of [wc_authRequest], their
    validation, and the text that is signed for them. *)

From Stdlib Require Import ZArith Lia Ascii String Bool.
From stdpp Require Import base list strings.
From S2P Require Import Prelude Str Decimal SiwxMessage SiwxParse.

Local Open Scope oc_scope.

Inductive AuthError :=
| MissingField (field : string)
| InvalidValue (field message : string)
| UnsupportedType (type : string)
| UnsupportedChain (chain : string).

Inductive AuthType := Eip4361 | Eip191.

Definition auth_type_parse (s : string) : result AuthError AuthType :=
  if String.eqb s "eip4361" then Ok Eip4361
  else if String.eqb s "eip191" then Ok Eip191
  else Err (UnsupportedType s).

Record AuthRequestParams := {
  ar_type : AuthType;
  ar_chain_id : string;
  ar_aud : string;
  ar_domain : string;
  ar_nonce : string;
  ar_statement : string;
  ar_resources : list string;
  ar_version : string;
  ar_issued_at : string;
  ar_expiration_time : string;
  ar_not_before : string;
  ar_request_id : string
}.

Definition validate (p : AuthRequestParams) : result AuthError unit :=
  if is_empty (ar_chain_id p) then Err (MissingField "chainId")
  else if is_empty (ar_aud p) then Err (MissingField "aud")
  else if is_empty (ar_domain p) then Err (MissingField "domain")
  else if is_empty (ar_nonce p) then Err (MissingField "nonce")
  else if (str_len (ar_nonce p) <? 8)%Z then
    Err (InvalidValue "nonce" "must be at least 8 characters (single-use, unpredictable)")
  else if is_empty (ar_version p) then Err (MissingField "version")
  else Ok tt.

Definition split_caip2 (caip2 : string) : result AuthError (string * string) :=
  ok_or (InvalidValue "chainId" ("'" +:+ caip2 +:+ "' is not a CAIP-2 chain id")) (split_once ":" caip2).

Definition non_numeric (caip2 : string) : AuthError :=
  InvalidValue "chainId" ("'" +:+ caip2 +:+ "' has a non-numeric eip155 reference").

Definition chain_reference (caip2 : string) : result AuthError string :=
  let? '(ns, reference) := split_caip2 caip2 in
  if String.eqb ns "eip155" then
    let? decimal := ok_or (non_numeric caip2) (parse_unsigned u64_max reference) in Ok (fmt_Z decimal)
  else if is_empty reference then Err (InvalidValue "chainId" ("'" +:+ caip2 +:+ "' has an empty reference"))
  else Ok reference.

Definition chain_id_field (caip2 : string) : result AuthError string :=
  match split_once ":" caip2 with
  | Some (ns, reference) =>
      if String.eqb ns "eip155" then
        let? decimal := ok_or (non_numeric caip2) (parse_unsigned u64_max reference) in Ok (fmt_Z decimal)
      else Ok caip2
  | None => Err (InvalidValue "chainId" ("'" +:+ caip2 +:+ "' is not a CAIP-2 chain id"))
  end.

Definition nl : string := String lf "".

Fixpoint resource_lines (rs : list string) : string :=
  match rs with [] => "" | r :: rs' => nl +:+ "- " +:+ r +:+ resource_lines rs' end.

Definition SIWE_HEAD : string := " wants you to sign in with your account:".

(** [now]: what [now_rfc3339] gives. *)
Definition build_siwe_message (now : string) (address : string) (p : AuthRequestParams) : result AuthError string :=
  let? _ := validate p in
  if is_empty address then Err (MissingField "address")
  else
    let? chain_id := chain_id_field (ar_chain_id p) in
    let msg := ar_domain p +:+ SIWE_HEAD +:+ nl +:+ address +:+ nl in
    let msg := if is_empty (ar_statement p) then msg else msg +:+ nl +:+ ar_statement p +:+ nl in
    let msg := msg +:+ nl +:+ "URI: " +:+ ar_aud p +:+ nl +:+ "Version: " +:+ ar_version p +:+ nl +:+ "Chain ID: " +:+ chain_id +:+
      nl +:+ "Nonce: " +:+ ar_nonce p +:+ nl +:+ "Issued At: " in
    let msg := msg +:+ (if is_empty (ar_issued_at p) then now else ar_issued_at p) in
    let msg := if is_empty (ar_expiration_time p) then msg else msg +:+ nl +:+ "Expiration Time: " +:+ ar_expiration_time p in
    let msg := if is_empty (ar_request_id p) then msg else msg +:+ nl +:+ "Request ID: " +:+ ar_request_id p in
    Ok (if is_nil (ar_resources p) then msg else msg +:+ nl +:+ "Resources:" +:+ resource_lines (ar_resources p)).

(** ** What the text is worth *)

Lemma build_head now address p text : build_siwe_message now address p = Ok text ->
  exists rest, text = ar_domain p +:+ SIWE_HEAD +:+ String lf rest.
Proof.
  unfold build_siwe_message. destruct (validate p); [|done]. cbn [result_bind]. destruct (is_empty address); [done|].
  destruct (chain_id_field _) as [cid|]; [|done]. cbn [result_bind].
  destruct (is_empty (ar_statement p)), (is_empty (ar_expiration_time p)), (is_empty (ar_request_id p)), (is_nil (ar_resources p));
    intros [= <-]; unfold nl; rewrite <- ?app_assoc_str; cbn [String.append]; eexists; reflexivity.
Qed.

(** The first line has no chain's name before "account:", which the preamble of EIP-4361
    and of CAIP-122 demands: no parser of either standard, the one of oc-siwx included,
    takes the text that the wallet signs. *)
Lemma siwe_refused `{Ext : External} now address p text :
  build_siwe_message now address p = Ok text -> contains_byte lf (ar_domain p) = false -> contains_byte " " (ar_domain p) = false ->
  is_ok (from_str text) = false.
Proof.
  intros (rest & ->)%build_head Hlf Hsp. unfold from_str. destruct (_ <? _)%Z; [done|]. destruct (contains_byte cr _); [done|].
  replace (ar_domain p +:+ SIWE_HEAD +:+ String lf rest) with ((ar_domain p +:+ SIWE_HEAD) +:+ String lf rest) by (by rewrite app_assoc_str).
  rewrite split_char_app; [|rewrite all_bytes_app; apply andb_true_iff; split; [by apply negb_false_iff|done]].
  unfold parse_lines. cbn [next result_bind]. unfold parse_preamble.
  assert (Hsplit : forall d, contains_byte " " d = false -> split_once PREAMBLE_MID (d +:+ SIWE_HEAD) = Some (d, "account:")).
  { induction d as [|c d IH]; [done|]. rewrite contains_byte_cons. intros [Hc Hd]%orb_false_iff.
    cbn [String.append split_once]. rewrite (IH Hd). unfold PREAMBLE_MID at 1. cbn [strip_prefix].
    rewrite Ascii.eqb_sym in Hc. by rewrite Hc. }
  rewrite Hsplit by done. by destruct (split_scheme_domain (ar_domain p)) as [[sc dom]|].
Qed.

(** A field is not checked for line breaks: what one request says in two fields another
    says in one. *)
Definition clean_params : AuthRequestParams := {|
  ar_type := Eip4361; ar_chain_id := "eip155:1"; ar_aud := "https://a.example"; ar_domain := "a.example"; ar_nonce := "12345678";
  ar_statement := ""; ar_resources := []; ar_version := "1"; ar_issued_at := "2026-01-01T00:00:00Z";
  ar_expiration_time := "2026-01-02T00:00:00Z"; ar_not_before := ""; ar_request_id := "" |}.

Definition folded_params : AuthRequestParams := {|
  ar_type := Eip4361; ar_chain_id := "eip155:1"; ar_aud := "https://a.example"; ar_domain := "a.example"; ar_nonce := "12345678";
  ar_statement := ""; ar_resources := []; ar_version := "1";
  ar_issued_at := "2026-01-01T00:00:00Z" +:+ nl +:+ "Expiration Time: 2026-01-02T00:00:00Z";
  ar_expiration_time := ""; ar_not_before := ""; ar_request_id := "" |}.

Lemma siwe_not_injective : build_siwe_message "" "0xabc" clean_params = build_siwe_message "" "0xabc" folded_params.
Proof. vm_compute. reflexivity. Qed.

(** What a request must hold, and what the text says of it: the text exists exactly
    when the required fields are there, the nonce has eight bytes, the address is not empty
    and an EVM chain has a number for its reference; the number is written in decimal,
    whatever leading zeros or sign the request had. *)
Theorem siwe_built_iff now address p :
  is_ok (build_siwe_message now address p) = true <->
  ar_aud p <> "" /\ ar_domain p <> "" /\ ar_version p <> "" /\ (8 <= str_len (ar_nonce p))%Z /\ address <> "" /\
  exists ns reference, split_once ":" (ar_chain_id p) = Some (ns, reference) /\
    (ns = "eip155" -> exists n, parse_unsigned u64_max reference = Some n).
Proof.
  assert (He : forall s, is_empty s = false <-> s <> "") by (intros s; split; [by intros ? ->|by destruct s]).
  unfold build_siwe_message, validate. split.
  - destruct (is_empty (ar_chain_id p)); [done|]. destruct (is_empty (ar_aud p)) eqn:H1; [done|].
    destruct (is_empty (ar_domain p)) eqn:H2; [done|]. destruct (is_empty (ar_nonce p)); [done|].
    destruct (Z.ltb_spec (str_len (ar_nonce p)) 8); [done|]. destruct (is_empty (ar_version p)) eqn:H3; [done|].
    cbn [result_bind]. destruct (is_empty address) eqn:H4; [done|]. apply He in H1, H2, H3, H4.
    unfold chain_id_field. destruct (split_once ":" (ar_chain_id p)) as [[ns reference]|]; [|done].
    intros Hok. split_and!; try done. exists ns, reference. split; [done|]. intros ->. cbn in Hok.
    destruct (parse_unsigned u64_max reference) as [n|] eqn:Hn; [|done]. by exists n.
  - intros (H1%He & H2%He & H3%He & Hn & H4%He & ns & reference & Hs & Hr).
    assert (Hc : is_empty (ar_chain_id p) = false) by (by destruct (ar_chain_id p)).
    assert (Hne : is_empty (ar_nonce p) = false) by (destruct (ar_nonce p); [unfold str_len in Hn; cbn in Hn; lia|done]).
    rewrite Hc, H1, H2, Hne, H3. destruct (Z.ltb_spec (str_len (ar_nonce p)) 8); [lia|]. cbn [result_bind]. rewrite H4.
    unfold chain_id_field. rewrite Hs. destruct (String.eqb_spec ns "eip155") as [->|]; [|done].
    destruct (Hr eq_refl) as (n & ->). done.
Qed.

Lemma siwe_built_iff_witness :
  is_ok (build_siwe_message "" "0xabc" clean_params) = true.
Proof.
  apply (siwe_built_iff "" "0xabc" clean_params). split_and!; try done.
  exists "eip155", "1". split; [vm_compute; reflexivity|]. intros _. exists 1%Z. vm_compute; reflexivity.
Defined.
