(* ===== verification/Intent.v ===== *)
(** * Intents

    crates/oc-netagent/src/intent: what a payment intent is made into (mod.rs), its
    simulation, its execution, and the RPC client they use (hot_path.rs).  The text of a
    number's parse error, which the code appends to its messages, is left out. *)

From Stdlib Require Import ZArith Lia Ascii String Bool Floats.SpecFloat.
From stdpp Require Import base list strings.
From S2P Require Import Prelude F64 Str Decimal Json Bytes Rlp Frame Proto Chain Approvals DemoText Sim Net.

Local Open Scope oc_scope.
Local Open Scope Z_scope.
Local Open Scope net_scope.

(** ** schema.rs *)

Inductive MessageEncoding := EncodingUtf8 | EncodingHex.

Inductive IntentKind :=
| Pay (amount recipient : string) (token : option string)
| SignTx (tx_hex chain_id : string)
| SignMsg (message : string) (encoding : MessageEncoding)
| CrossChainTransfer (amount asset from_chain to_chain recipient : string).

Record Intent := {
  in_id : string;
  in_kind : IntentKind;
  in_chain_id : string;
  in_session_key_id : string;
  in_created_at : Z;
  in_expires_at : Z
}.

Inductive IntentStatus := IntentPending | Simulated | Denied | Submitted | Confirmed | Failed | IntentExpired.

Inductive IntentError :=
| IntentRpc (e : RpcError)
| InvalidInput (msg : string)
| InvalidChain (msg : string)
| ExpiredIntent
| SimulationFailed (msg : string)
| ExecutionFailed (msg : string)
| UnsupportedIntent (msg : string).

Record IntentSummary := {
  sum_intent_id : string;
  sum_human_readable : string;
  sum_gas_estimate_usd : option f64;
  sum_total_cost_usd : option f64;
  sum_warnings : list string;
  sum_simulation_tx_hash : option string
}.

(** ** mod.rs: amounts, addresses and calldata *)

Definition ZERO_ADDRESS_EVM : string := "0x0000000000000000000000000000000000000000".

Definition hex_digit_value (c : ascii) : option Z :=
  if is_ascii_digit c then Some (Z.of_N (byte_of c) - 48)
  else if in_range "a" "f" c then Some (Z.of_N (byte_of c) - 87)
  else if in_range "A" "F" c then Some (Z.of_N (byte_of c) - 55)
  else None.

Fixpoint parse_hex (acc : Z) (s : string) : option Z :=
  match s with
  | EmptyString => Some acc
  | String c s' => match hex_digit_value c with Some d => parse_hex (acc * 16 + d) s' | None => None end
  end.

(** [u128::from_str_radix(s, 16)]: an optional [+] and at least one digit. *)
Definition parse_hex_u128 (s : string) : option Z :=
  let body := match s with String "+"%char s' => s' | _ => s end in
  if is_empty body then None
  else match parse_hex 0 body with Some v => if v <=? u128_max then Some v else None | None => None end.

Definition parse_amount (amount : string) : result IntentError Z :=
  let trimmed := trim amount in
  if is_empty trimmed then Err (InvalidInput "amount is empty")
  else
    match (match strip_prefix "0x" trimmed with Some h => Some h | None => strip_prefix "0X" trimmed end) with
    | Some hex_str => ok_or (InvalidInput ("invalid hex amount '" +:+ amount +:+ "'")) (parse_hex_u128 hex_str)
    | None =>
        if all_bytes is_ascii_digit trimmed then
          ok_or (InvalidInput ("invalid amount '" +:+ amount +:+ "'")) (parse_unsigned u128_max trimmed)
        else Err (InvalidInput ("amount '" +:+ amount +:+ "' is not a plain integer (0x-hex or decimal); " +:+
                                "token decimals are resolved by the caller"))
    end.

(** [trim_start_matches("0x")]: every leading one. *)
Fixpoint trim_0x (s : string) : string :=
  match s with
  | String "0"%char (String "x"%char s') => trim_0x s'
  | _ => s
  end.

(** [format!("{n:x}")]; the fuel is the number of digits of a [u128]. *)
Fixpoint hex_digits (fuel : nat) (n : Z) (acc : string) : string :=
  match fuel with
  | O => acc
  | S fuel' =>
      let acc := String (DemoText.hex_digit (n mod 16)) acc in
      if n <? 16 then acc else hex_digits fuel' (n / 16) acc
  end.

Definition fmt_hex (n : Z) : string := hex_digits 32 n "".

Section Intents.
Context {S : SerdeNumber} {H : HexCodec} {C : Caip} {Instant : Type}.
(** [Keccak256::digest]. *)
Context (keccak256 : string -> bytes).

Definition parse_address (addr : string) : result IntentError bytes :=
  let? bs := result_map_err (fun e => InvalidInput ("invalid address '" +:+ addr +:+ "': " +:+ e)) (hex_decode (trim_0x addr)) in
  if len bs =? 20 then Ok bs
  else Err (InvalidInput ("address '" +:+ addr +:+ "' is " +:+ fmt_Z (len bs) +:+ " bytes; expected 20")).

Definition parse_token_address (tok : string) : result IntentError (option string * bytes) :=
  let? '(chain, addr_str) :=
    match split_once "/" tok with
    | Some (chain_part, addr_part) =>
        let? addr := ok_or (InvalidInput ("token '" +:+ tok +:+ "' is not an erc20 asset id")) (strip_prefix "erc20:" addr_part) in
        Ok (Some chain_part, addr)
    | None => Ok (None, tok)
    end in
  let? addr := parse_address addr_str in
  Ok (chain, addr).

Definition erc20_transfer_selector : bytes := take 4 (keccak256 "transfer(address,uint256)").

Definition abi_encode_address (addr : bytes) : bytes := repeat 0 12 ++ addr.
Definition abi_encode_uint256 (value : Z) : bytes := repeat 0 16 ++ to_be_bytes 16 value.

Definition build_call_data (kind : IntentKind) (chain : string) : result IntentError CallData :=
  match kind with
  | Pay amount recipient None =>
      let? base_units := parse_amount amount in
      Ok {| cd_from := None; cd_to := recipient; cd_value := Some ("0x" +:+ fmt_hex base_units); cd_data := None |}
  | Pay amount recipient (Some tok) =>
      let? amount_value := parse_amount amount in
      let? '(token_chain, token_addr) := parse_token_address tok in
      let mismatch := match token_chain with Some tc => if String.eqb tc chain then None else Some tc | None => None end in
      match mismatch with
      | Some tc => Err (InvalidChain ("token chain '" +:+ tc +:+ "' does not match expected chain '" +:+ chain +:+ "'"))
      | None =>
          let? recipient_bytes := parse_address recipient in
          Ok {| cd_from := None; cd_to := "0x" +:+ hex_encode token_addr; cd_value := Some "0x0";
                cd_data := Some (erc20_transfer_selector ++ abi_encode_address recipient_bytes ++ abi_encode_uint256 amount_value) |}
      end
  | SignTx tx_hex _ =>
      let? data := result_map_err (fun e => InvalidInput ("invalid hex: " +:+ e)) (hex_decode (trim_0x tx_hex)) in
      Ok {| cd_from := None; cd_to := ZERO_ADDRESS_EVM; cd_value := None; cd_data := Some data |}
  | SignMsg _ _ => Ok {| cd_from := None; cd_to := ZERO_ADDRESS_EVM; cd_value := None; cd_data := None |}
  | CrossChainTransfer _ _ _ _ _ =>
      Err (UnsupportedIntent ("CrossChainTransfer requires bridge integration; refusing to sign " +:+
                              "a no-op transfer that does not move the approved asset"))
  end.

(** ** execute.rs *)

Definition parse_chain_id (chain_id : string) : result IntentError Z :=
  let? parsed := result_map_err (fun e => InvalidChain ("not a CAIP-2 id: " +:+ chain_id +:+ ": " +:+ e)) (parse_caip chain_id) in
  ok_or (InvalidChain ("not a numeric EVM chain id: " +:+ chain_id)) (evm_chain_id parsed).

Definition decode_quantity (s : string) : result IntentError bytes :=
  let digits := trim_0x s in
  let padded := if Nat.odd (String.length digits) then String "0" digits else digits in
  result_map_err (fun e => InvalidInput ("invalid hex quantity '" +:+ s +:+ "': " +:+ e)) (hex_decode padded).

(** The text of an error inside another's message: [IntentError]'s [Display]. *)
Context (show_rpc : RpcError -> string).

Definition show_intent_error (e : IntentError) : string :=
  match e with
  | IntentRpc e => "RPC error: " +:+ show_rpc e
  | InvalidInput m => "invalid input: " +:+ m
  | InvalidChain m => "invalid chain id: " +:+ m
  | ExpiredIntent => "intent expired"
  | SimulationFailed m => "simulation failed: " +:+ m
  | ExecutionFailed m => "execution failed: " +:+ m
  | UnsupportedIntent m => "unsupported intent: " +:+ m
  end.

Definition MAX_PRIORITY : Z := 1000000000.

Definition build_unsigned_eip1559_tx (chain_id : Z) (to : string) (value : option string) (data : option bytes)
    (gas_limit gas_price nonce : Z) : result IntentError bytes :=
  let? to_bytes := result_map_err (fun e => InvalidInput ("invalid recipient: " +:+ e)) (hex_decode (trim_0x to)) in
  let? value_bytes :=
    match value with
    | Some v => result_map_err (fun e => InvalidInput ("invalid value (must be hex wei): " +:+ show_intent_error e)) (decode_quantity v)
    | None => Ok []
    end in
  let data_bytes := default [] data in
  let max_fee := saturating_mul64 gas_price 2 in
  let items := encode_u64 chain_id ++ encode_u64 nonce ++ encode_u64 MAX_PRIORITY ++ encode_u64 max_fee ++ encode_u64 gas_limit ++
    encode_bytes to_bytes ++ encode_bytes value_bytes ++ encode_bytes data_bytes ++ encode_list [] in
  Ok (2 :: encode_list items).

Abbreviation Net A := (Prog Instant A).

(** [SystemTime::now()], zero when the clock is before the epoch. *)
Definition now_or_zero : Net Z := let* now := call Now in Done (default 0 now).

Definition intent_new (kind : IntentKind) (chain_id session_key_id : string) : Net Intent :=
  let* now := now_or_zero in
  let* id := call FreshId in
  Done {| in_id := id; in_kind := kind; in_chain_id := chain_id; in_session_key_id := session_key_id;
          in_created_at := now; in_expires_at := (now + 300) mod 2 ^ 64 |}.

Definition is_expired (intent : Intent) : Net bool :=
  let* now := now_or_zero in Done (in_expires_at intent <? now).

Record IntentResult := {
  ir_intent_id : string;
  ir_status : IntentStatus;
  ir_tx_hash : option string;
  ir_receipt : option Value;
  ir_error : option string
}.

(** A failed call of the client, as [IntentError::Rpc]. *)
Definition rpc {A} (e : Ev Instant (result RpcError A)) : Net (result IntentError A) :=
  let* r := call e in Done (result_map_err IntentRpc r).

Definition lift {A} (r : result IntentError A) : Net (result IntentError A) := Done r.

(** The bytes to sign. *)
Definition intent_tx (intent : Intent) (c : Client) (from_address : string) : Net (result IntentError bytes) :=
  let build :=
    try* chain_num := lift (parse_chain_id (in_chain_id intent)) in
    try* cd := lift (build_call_data (in_kind intent) (client_chain c)) in
    if is_empty (trim from_address) then Done (Err (InvalidInput "sender address is required to fetch the transaction nonce"))
    else
      try* nonce := rpc (TransactionCount c from_address) in
      try* gas_limit := rpc (EstimateGas c cd) in
      try* gas_price := rpc (GasPrice c) in
      lift (build_unsigned_eip1559_tx chain_num (cd_to cd) (cd_value cd) (cd_data cd) gas_limit gas_price nonce) in
  match in_kind intent with
  | SignTx tx_hex _ =>
      lift (result_map_err (fun e => InvalidInput ("invalid tx_hex: " +:+ e)) (hex_decode (trim_0x tx_hex)))
  | Pay _ _ _ | CrossChainTransfer _ _ _ _ _ => build
  | SignMsg _ _ => Done (Err (ExecutionFailed "SignMessage intents are not broadcastable transactions"))
  end.

(** [signer] gets the session key's id as the reference of the key. *)
Definition execute_intent (intent : Intent) (c : Client) (from_address : string)
    (signer : string -> bytes -> Net (result IntentError bytes)) : Net (result IntentError IntentResult) :=
  let* expired := is_expired intent in
  if expired : bool then
    Done (Ok {| ir_intent_id := in_id intent; ir_status := IntentExpired; ir_tx_hash := None; ir_receipt := None;
                ir_error := Some "intent expired" |})
  else
    try* tx_bytes := intent_tx intent c from_address in
    let* signed := signer (in_session_key_id intent) tx_bytes in
    try* signed_tx_bytes := lift (result_map_err (fun e => ExecutionFailed ("signing failed: " +:+ show_intent_error e)) signed) in
    let* sent := call (SendRaw c signed_tx_bytes) in
    try* tx_hash := lift (result_map_err (fun e => ExecutionFailed ("broadcast failed: " +:+ show_rpc e)) sent) in
    let* waited := call (WaitReceipt c tx_hash) in
    try* receipt := lift (result_map_err (fun e =>
      ExecutionFailed ("receipt wait failed for tx " +:+ tx_hash +:+ ": " +:+ show_rpc e)) waited) in
    Done (Ok {| ir_intent_id := in_id intent; ir_status := Confirmed; ir_tx_hash := Some tx_hash; ir_receipt := Some receipt;
                ir_error := None |}).

(** ** simulate.rs *)

(** Floats and characters as the standard library reads and prints them: [str::parse],
    [{:.2}], and the first characters of a text that has more. *)
Context (parse_f64 : string -> option f64) (fmt_2 : f64 -> string) (first_chars : nat -> string -> option string).

Fixpoint take_word (s : string) : string :=
  match s with
  | EmptyString => ""
  | String c s' => match first_some (fun w => strip_prefix w s) white_space with Some _ => "" | None => String c (take_word s') end
  end.

(** [split_whitespace().next()]. *)
Definition first_word (s : string) : option string :=
  let w := take_word (trim_start_fuel (String.length s) s) in if is_empty w then None else Some w.

Definition amount_numeric_prefix (amount : string) : option f64 :=
  v ← first_word amount ≫= parse_f64; if f64_is_finite v then Some v else None.

Definition intent_amount_usd (intent : Intent) : option f64 :=
  match in_kind intent with Pay amount _ _ => amount_numeric_prefix amount | _ => None end.

Definition truncate_display (s : string) (max_chars : nat) : string :=
  match first_chars max_chars s with Some t => t +:+ "…" | None => s end.

Definition format_usd (value : option f64) : string := match value with Some v => "$" +:+ fmt_2 v | None => "unknown" end.

Definition add_known (a b : option f64) : option f64 :=
  match a, b with Some x, Some y => Some (f64_add x y) | _, _ => None end.

Definition format_summary (intent : Intent) (gas_cost_usd amount_usd : option f64) : string :=
  match in_kind intent with
  | Pay amount recipient _ =>
      "Send " +:+ amount +:+ " to " +:+ truncate_display recipient 10 +:+ " on " +:+ in_chain_id intent +:+ " (est. gas: " +:+
        format_usd gas_cost_usd +:+ ", total: " +:+ format_usd (add_known gas_cost_usd amount_usd) +:+ ")"
  | SignTx _ _ => "Sign transaction on " +:+ in_chain_id intent +:+ " (est. gas: " +:+ format_usd gas_cost_usd +:+ ")"
  | SignMsg _ _ => "Sign message on " +:+ in_chain_id intent
  | CrossChainTransfer _ _ _ _ _ => "Cross-chain transfer is not supported"
  end.

Definition f64_div (a b : f64) : f64 := SFdiv 53 1024 a b.

Definition gas_cost (gas_estimate gas_price : Z) (price : f64) : f64 :=
  f64_mul (f64_div (f64_of_Z (gas_estimate * gas_price)) (f64_of_Z (10 ^ 18))) price.

Definition is_sign_message (k : IntentKind) : bool := match k with SignMsg _ _ => true | _ => false end.
Definition is_null (v : Value) : bool := match v with Null => true | _ => false end.

Definition sim_warnings (intent : Intent) (sim_result : Value) (gas_cost_usd : option f64) (native_price : option f64) : list string :=
  (if is_null sim_result && negb (is_sign_message (in_kind intent)) then ["simulation returned null — contract may not exist"] else []) ++
  (match gas_cost_usd with
   | Some cost => if f64_lt (f64_of_Z 5) cost then ["high gas cost: $" +:+ fmt_2 cost] else []
   | None => []
   end) ++
  (match native_price with Some _ => [] | None => ["native token price unavailable — USD cost estimates omitted"] end).

Definition simulate_intent (intent : Intent) (c : Client) : Net (result IntentError IntentSummary) :=
  try* cd := lift (build_call_data (in_kind intent) (in_chain_id intent)) in
  try* gas_estimate := rpc (EstimateGas c cd) in
  try* sim_result := rpc (EthCall c cd) in
  try* gas_price := rpc (GasPrice c) in
  let* price := call (NativePrice c) in
  let native_price := match price with Ok p => Some p | Err _ => None end in
  let gas_cost_usd := gas_cost gas_estimate gas_price <$> native_price in
  let amount_usd := intent_amount_usd intent in
  Done (Ok {| sum_intent_id := in_id intent; sum_human_readable := format_summary intent gas_cost_usd amount_usd;
              sum_gas_estimate_usd := gas_cost_usd; sum_total_cost_usd := add_known gas_cost_usd amount_usd;
              sum_warnings := sim_warnings intent sim_result gas_cost_usd native_price; sum_simulation_tx_hash := None |}).

(** ** hot_path.rs *)

Record HotPathConfig := { rpc_url : option string; allow_mock : bool }.

Definition hot_path_config (url : option string) : HotPathConfig := {| rpc_url := url; allow_mock := false |}.

Definition effective_rpc_url (cfg : HotPathConfig) : Net (option string) :=
  match rpc_url cfg with
  | Some url => Done (Some url)
  | None =>
      let* v := call (EnvRpcUrl) in
      Done (match v with Some v => if is_empty (trim v) then None else Some v | None => None end)
  end.

(** The mock, which only tests opt in to, is a client without an endpoint. *)
Definition select_rpc_client (chain_id : string) (cfg : HotPathConfig) : Net (result IntentError Client) :=
  let* url := effective_rpc_url cfg in
  match url with
  | Some url =>
      let* r := call (NewClient chain_id url) in
      Done (match r with
            | Ok _ => Ok {| client_chain := chain_id; client_url := url |}
            | Err e => Err (IntentRpc (RpcTransport e))
            end)
  | None =>
      if allow_mock cfg then Done (Ok {| client_chain := chain_id; client_url := "" |})
      else Done (Err (InvalidInput ("no RPC endpoint configured (pass rpc_url or set OC_RPC_URL); " +:+
                                    "refusing to simulate/execute against a mock on the hot path")))
  end.
End Intents.
