(* ===== verification/IntentSpec.v ===== *)
(** * What an intent's transaction does

    Theorems about Intent.v: the transaction that is built for a payment, read back by the
    decoder of the approval card (Sim.v) once oc-signer (Rlp.v) has signed it. *)

From Stdlib Require Import ZArith Lia Ascii String Bool.
From stdpp Require Import base list strings.
From S2P Require Import Prelude F64 Str Decimal Json Bytes Rlp Frame Proto Chain Approvals DemoText Sim Net Intent.

Local Open Scope oc_scope.
Local Open Scope Z_scope.

Definition is_lower_hex (c : ascii) : bool := is_ascii_digit c || in_range "a" "f" c.

(** What the hex crate documents: an even number of lower-case digits is read as bytes, of
    the value of the digits, and its own texts are such digits and read back. *)
Class HexLaws (H : HexCodec) : Prop := {
  hex_decode_digits s v : all_bytes is_lower_hex s = true -> Nat.even (String.length s) = true -> parse_hex 0 s = Some v ->
    exists bs, hex_decode s = Ok bs /\ is_bytes bs /\ (2 * length bs = String.length s)%nat /\ be_value bs = v;
  hex_encode_digits b : is_bytes b -> all_bytes is_lower_hex (hex_encode b) = true;
  hex_roundtrip b : is_bytes b -> hex_decode (hex_encode b) = Ok b
}.

(** ** Printed hexadecimal *)

Lemma hex_digit_ok d : 0 <= d < 16 -> hex_digit_value (hex_digit d) = Some d /\ is_lower_hex (hex_digit d) = true.
Proof.
  intros Hd. replace d with (Z.of_nat (Z.to_nat d)) by lia. assert (Hk : (Z.to_nat d < 16)%nat) by lia.
  revert Hk. generalize (Z.to_nat d) as k. intros k Hk. do 16 (destruct k as [|k]; [done|]). lia.
Qed.

Lemma hex_digits_spec fuel : forall n acc, (1 <= fuel)%nat -> 0 <= n < 16 ^ Z.of_nat fuel ->
  exists k, 0 <= k /\ (forall a, parse_hex a (hex_digits fuel n acc) = parse_hex (a * 16 ^ k + n) acc) /\
    all_bytes is_lower_hex (hex_digits fuel n acc) = all_bytes is_lower_hex acc /\
    (String.length (hex_digits fuel n acc) <= fuel + String.length acc)%nat /\ hex_digits fuel n acc <> "".
Proof.
  induction fuel as [|fuel IH]; intros n acc Hf Hn; [lia|]. cbn [hex_digits].
  pose proof (Z.mod_pos_bound n 16 ltac:(done)) as Hm. destruct (hex_digit_ok (n mod 16) Hm) as [Hv Hl].
  destruct (Z.ltb_spec n 16) as [Hs|Hs].
  - exists 1. split; [lia|]. rewrite Z.mod_small in * by lia. split_and!.
    + intros a. cbn [parse_hex]. rewrite Hv. f_equal; lia.
    + cbn [all_bytes]. by rewrite Hl.
    + cbn. lia.
    + done.
  - destruct fuel as [|fuel']; [change (16 ^ Z.of_nat 1) with 16 in Hn; lia|]. set (fuel := S fuel') in *.
    assert (Hdiv : 0 <= n / 16 < 16 ^ Z.of_nat fuel).
    { split; [apply Z.div_pos; lia|]. apply Z.div_lt_upper_bound; [lia|]. rewrite Nat2Z.inj_succ, Z.pow_succ_r in Hn by lia. lia. }
    destruct (IH (n / 16) (String (hex_digit (n mod 16)) acc) ltac:(lia) Hdiv) as (k & Hk & Hp & Hlo & Hlen & Hne).
    exists (k + 1). split; [lia|]. split_and!.
    + intros a. rewrite Hp. cbn [parse_hex]. rewrite Hv. f_equal. rewrite Z.pow_add_r by lia.
      rewrite (Z.div_mod n 16) at 3 by lia. change (16 ^ 1) with 16. ring.
    + rewrite Hlo. cbn [all_bytes]. by rewrite Hl.
    + etransitivity; [exact Hlen|]. cbn. lia.
    + done.
Qed.

Lemma fmt_hex_spec n : 0 <= n <= u128_max ->
  parse_hex 0 (fmt_hex n) = Some n /\ all_bytes is_lower_hex (fmt_hex n) = true /\ (String.length (fmt_hex n) <= 32)%nat /\ fmt_hex n <> "".
Proof.
  intros Hn. destruct (hex_digits_spec 32 n "") as (k & _ & Hp & Hl & Hlen & Hne); [lia|unfold u128_max in Hn; change (16 ^ Z.of_nat 32) with (2 ^ 128); lia|].
  unfold fmt_hex. split_and!; [by rewrite Hp|by rewrite Hl|cbn [String.length] in Hlen; lia|done].
Qed.

(** Digits hold no [x], so that [trim_start_matches] takes the one prefix. *)
Lemma trim_0x_digits s : all_bytes is_lower_hex s = true -> trim_0x s = s.
Proof.
  intros Hs. destruct s as [|c s]; [done|]. destruct s as [|d s].
  - cbn. by repeat (case_match; try done).
  - cbn [all_bytes] in Hs. apply andb_true_iff in Hs as [_ [Hd _]%andb_true_iff]. cbn [trim_0x].
    destruct (Ascii.eqb_spec d "x") as [->|Hne]; [done|]. by repeat (case_match; try done; simplify_eq).
Qed.

Lemma trim_0x_prefix s : trim_0x ("0x" +:+ s) = trim_0x s.
Proof. done. Qed.

(** ** Amounts *)

Lemma parse_hex_nonneg acc s v : 0 <= acc -> parse_hex acc s = Some v -> 0 <= v.
Proof.
  revert acc. induction s as [|c s IH]; intros acc Ha; cbn; [by intros [= <-]|].
  destruct (hex_digit_value c) as [d|] eqn:Hd; [|done]. apply IH.
  assert (0 <= d); [|lia]. revert Hd. unfold hex_digit_value, is_ascii_digit, in_range.
  repeat match goal with |- context [if ?b then _ else _] => destruct b eqn:? end; intros [= <-];
    repeat match goal with H : _ && _ = true |- _ => apply andb_true_iff in H as [? ?] end;
    repeat match goal with H : (_ <=? _)%N = true |- _ => apply N.leb_le in H end;
    match goal with H : (byte_of ?lo <= byte_of c)%N |- _ => change (byte_of lo) with (N_of_ascii lo) in H; cbn in H end; lia.
Qed.

Lemma parse_digits_nonneg acc s v : 0 <= acc -> parse_digits acc s = Some v -> 0 <= v.
Proof.
  revert acc. induction s as [|c s IH]; intros acc Ha; cbn; [by intros [= <-]|].
  destruct (is_ascii_digit c) eqn:Hd; [|done]. apply IH.
  unfold is_ascii_digit, in_range in Hd. apply andb_true_iff in Hd as [Hd _]. apply N.leb_le in Hd.
  change (byte_of "0") with 48%N in Hd. unfold digit_value. lia.
Qed.

Lemma parse_unsigned_nonneg max s v : parse_unsigned max s = Some v -> 0 <= v <= max.
Proof.
  intros H. split; [|by eapply parse_unsigned_range]. unfold parse_unsigned in H. destruct (is_empty _); [done|].
  destruct (parse_digits 0 _) as [x|] eqn:Hx; [|done]. destruct (x <=? max); [|done]. injection H as <-. by eapply parse_digits_nonneg.
Qed.

(** An amount that is accepted is a [u128]. *)
Lemma parse_amount_range amount n : parse_amount amount = Ok n -> 0 <= n <= u128_max.
Proof.
  unfold parse_amount. destruct (is_empty _); [done|].
  assert (Hh : forall (e : IntentError) h, ok_or e (parse_hex_u128 h) = Ok n -> 0 <= n <= u128_max).
  { intros e h. unfold parse_hex_u128. destruct (is_empty _); [done|]. destruct (parse_hex 0 _) as [v|] eqn:Hv; [|done].
    destruct (Z.leb_spec v u128_max); [|done]. intros [= <-]. split; [by eapply parse_hex_nonneg|done]. }
  destruct (strip_prefix "0x" _); [by apply Hh|]. destruct (strip_prefix "0X" _); [by apply Hh|].
  destruct (all_bytes _ _); [|done]. destruct (parse_unsigned _ _) as [v|] eqn:Hv; [|done]. intros [= <-]. by eapply parse_unsigned_nonneg.
Qed.

(** *** What a text spells

    A numeral of a base is read digit by digit, with the digits that a table lists in order;
    nothing of this is the parser's. *)

Inductive numeral (base : Z) (tables : list string) : string -> Z -> Prop :=
| numeral_empty : numeral base tables "" 0
| numeral_digit s v t k c : numeral base tables s v -> In t tables -> String.get k t = Some c ->
    numeral base tables (s +:+ String c "") (v * base + Z.of_nat k).

Definition decimal : string -> Z -> Prop := numeral 10 ["0123456789"].
Definition hexadecimal : string -> Z -> Prop := numeral 16 ["0123456789abcdef"; "0123456789ABCDEF"].

(** A text is a decimal numeral, or a hexadecimal one behind [0x] or [0X] and, as Rust has
    it, possibly a plus sign; white space around it does not count. *)
Inductive spells : string -> Z -> Prop :=
| spells_decimal s n : s <> "" -> decimal s n -> spells s n
| spells_hexadecimal p sign s n : In p ["0x"; "0X"] -> In sign [""; "+"] -> s <> "" -> hexadecimal s n -> spells (p +:+ sign +:+ s) n.

Lemma parse_hex_app acc a b : parse_hex acc (a +:+ b) = parse_hex acc a ≫= fun v => parse_hex v b.
Proof. revert acc. induction a as [|c a IH]; intros acc; [done|]. cbn. destruct (hex_digit_value c); [apply IH|done]. Qed.

Lemma hex_digit_table c d : hex_digit_value c = Some d <->
  exists t k, In t ["0123456789abcdef"; "0123456789ABCDEF"] /\ String.get k t = Some c /\ d = Z.of_nat k.
Proof.
  split.
  - intros H. assert (Hd : (String.get (Z.to_nat d) "0123456789abcdef" = Some c \/ String.get (Z.to_nat d) "0123456789ABCDEF" = Some c) /\ 0 <= d).
    { destruct c as [[] [] [] [] [] [] [] []]; vm_compute in H; try discriminate H; injection H as <-; vm_compute; (split; [by auto|discriminate]). }
    destruct Hd as [[Hg|Hg] Hd]; eexists _, (Z.to_nat d); (split; [|split; [exact Hg|lia]]); [by left|by right; left].
  - intros (t & k & [<-|[<-|[]]] & Hg & ->); do 16 (destruct k as [|k]; [by injection Hg as <-|]); done.
Qed.

Lemma dec_digit_table c : is_ascii_digit c = true <-> String.get (Z.to_nat (digit_value c)) "0123456789" = Some c /\ 0 <= digit_value c.
Proof.
  destruct c as [[] [] [] [] [] [] [] []]; vm_compute; (split; [intros H|intros [H _]]); try discriminate H; try done; (split; [done|discriminate]).
Qed.

Lemma hexadecimal_parse s n : hexadecimal s n <-> parse_hex 0 s = Some n.
Proof.
  split.
  - induction 1 as [|s v t k c _ IH Ht Hg]; [done|]. rewrite parse_hex_app, IH. cbn [mbind option_bind parse_hex].
    by rewrite (proj2 (hex_digit_table c (Z.of_nat k))) by eauto.
  - assert (H : forall p acc, hexadecimal p acc -> parse_hex acc s = Some n -> hexadecimal (p +:+ s) n).
    { induction s as [|c s IH]; intros p acc Hp; cbn [parse_hex]; [intros [= <-]; by rewrite app_nil_r_str|].
      destruct (hex_digit_value c) as [d|] eqn:Hd; [|done]. apply hex_digit_table in Hd as (t & k & Ht & Hg & ->).
      intros H. change (String c s) with (String c "" +:+ s). rewrite app_assoc_str. eapply IH; [|exact H]. by econstructor. }
    intros Hs. apply (H "" 0); [constructor|done].
Qed.

Lemma decimal_parse s n : decimal s n <-> parse_digits 0 s = Some n.
Proof.
  split.
  - induction 1 as [|s v t k c _ IH Ht Hg]; [done|]. rewrite parse_digits_app, IH. cbn [mbind option_bind parse_digits].
    destruct Ht as [<-|[]]. do 10 (destruct k as [|k]; [by injection Hg as <-|]). done.
  - assert (H : forall p acc, decimal p acc -> parse_digits acc s = Some n -> decimal (p +:+ s) n).
    { induction s as [|c s IH]; intros p acc Hp; cbn [parse_digits]; [intros [= <-]; by rewrite app_nil_r_str|].
      destruct (is_ascii_digit c) eqn:Hd; [|done]. apply dec_digit_table in Hd as [Hg Hd].
      intros H. change (String c s) with (String c "" +:+ s). rewrite app_assoc_str. eapply IH; [|exact H].
      rewrite <- (Z2Nat.id (digit_value c)) at 1 by done. econstructor; [done|by left|done]. }
    intros Hs. apply (H "" 0); [constructor|done].
Qed.

(** The number that a text spells, without a bound. *)
Definition unsigned_hex (h : string) : string := match h with String "+"%char h' => h' | _ => h end.
Definition hex_part (s : string) : option string :=
  match strip_prefix "0x" s with Some h => Some h | None => strip_prefix "0X" s end.
Definition read_amount (s : string) : option Z :=
  match hex_part s with
  | Some h => if is_empty (unsigned_hex h) then None else parse_hex 0 (unsigned_hex h)
  | None => if is_empty s then None else parse_digits 0 s
  end.

Lemma digits_no_hex s n : parse_digits 0 s = Some n -> hex_part s = None.
Proof.
  intros H. unfold hex_part. destruct (strip_prefix "0x" s) as [h|] eqn:E1; [by apply strip_prefix_some in E1 as ->|].
  destruct (strip_prefix "0X" s) as [h|] eqn:E2; [by apply strip_prefix_some in E2 as ->|done].
Qed.

Lemma hex_part_prefix p h : In p ["0x"; "0X"] -> hex_part (p +:+ h) = Some h.
Proof. by intros [<-|[<-|[]]]. Qed.

Lemma hex_part_some s h : hex_part s = Some h -> exists p, In p ["0x"; "0X"] /\ s = p +:+ h.
Proof.
  unfold hex_part. destruct (strip_prefix "0x" s) as [h'|] eqn:E; [intros [= <-]; exists "0x"|intros E2; exists "0X"].
  - split; [by left|]. by apply strip_prefix_some.
  - split; [by right; left|]. by apply strip_prefix_some.
Qed.

Lemma unsigned_hex_cases h : exists sign, In sign [""; "+"] /\ h = sign +:+ unsigned_hex h.
Proof.
  destruct h as [|c h]; [exists ""; split; [by left|done]|].
  destruct (Ascii.eqb_spec c "+") as [->|Hne]; [exists "+"; split; [by right; left|done]|].
  exists "". split; [by left|]. cbn [String.append unsigned_hex]. by repeat (case_match; try done; simplify_eq).
Qed.

Lemma unsigned_hex_signed sign s n : In sign [""; "+"] -> parse_hex 0 s = Some n -> unsigned_hex (sign +:+ s) = s.
Proof.
  intros [<-|[<-|[]]] H; [|done]. destruct s as [|c s]; [done|]. cbn [String.append].
  destruct (Ascii.eqb_spec c "+") as [->|Hne]; [done|]. cbn [unsigned_hex]. by repeat (case_match; try done; simplify_eq).
Qed.

Lemma spells_read s n : spells s n <-> read_amount s = Some n.
Proof.
  split.
  - intros [t m Ht Hm|p sign t m Hp Hsign Ht Hm]; unfold read_amount.
    + apply decimal_parse in Hm. by rewrite (digits_no_hex t m Hm), (proj2 (is_empty_false t) Ht).
    + apply hexadecimal_parse in Hm. rewrite hex_part_prefix, (unsigned_hex_signed sign t m) by done.
      by rewrite (proj2 (is_empty_false t) Ht).
  - unfold read_amount. destruct (hex_part s) as [h|] eqn:Eh.
    + destruct (is_empty (unsigned_hex h)) eqn:Ee; [done|]. intros Hm. apply hex_part_some in Eh as (p & Hp & ->).
      destruct (unsigned_hex_cases h) as (sign & Hs & E). rewrite E. constructor; [done..|by apply is_empty_false|by apply hexadecimal_parse].
    + destruct (is_empty s) eqn:Ee; [done|]. intros Hm. constructor; [by apply is_empty_false|by apply decimal_parse].
Qed.

(** A text spells one number at most. *)
Lemma spells_unique s n m : spells s n -> spells s m -> n = m.
Proof. rewrite !spells_read. congruence. Qed.

Lemma parse_digits_all acc s n : parse_digits acc s = Some n -> all_bytes is_ascii_digit s = true.
Proof. revert acc. induction s as [|c s IH]; intros acc; [done|]. cbn. destruct (is_ascii_digit c); [apply IH|done]. Qed.

(** The amounts that are accepted are the numbers that are spelled and fit. *)
Lemma parse_amount_spells amount n : parse_amount amount = Ok n <-> spells (trim amount) n /\ n <= u128_max.
Proof.
  rewrite spells_read. unfold parse_amount, read_amount. fold (hex_part (trim amount)). cbv zeta. set (s := trim amount). clearbody s.
  destruct (is_empty s) eqn:Es; [destruct s; [by split; [|intros []]|done]|].
  destruct (hex_part s) as [h|].
  - unfold parse_hex_u128. fold (unsigned_hex h). destruct (is_empty (unsigned_hex h)); [by split; [|intros []]|].
    destruct (parse_hex 0 (unsigned_hex h)) as [v|]; [|by split; [|intros []]].
    destruct (Z.leb_spec v u128_max); cbn [ok_or]; split; [by intros [= <-]|by intros [[= <-] _]|done|intros [[= <-] ?]; lia].
  - destruct (all_bytes is_ascii_digit s) eqn:Ed.
    + destruct s as [|c s]; [done|]. rewrite parse_digits_unsigned by by apply andb_true_iff in Ed as [? _].
      destruct (parse_digits 0 (String c s)) as [v|]; [|by split; [|intros []]].
      destruct (Z.leb_spec v u128_max); cbn [ok_or]; split; [by intros [= <-]|by intros [[= <-] _]|done|intros [[= <-] ?]; lia].
    + split; [done|]. intros [H _]. apply parse_digits_all in H. congruence.
Qed.

(** The bytes of a value are those of the number. *)
Lemma decode_quantity_spec {H : HexCodec} (HL : HexLaws H) n : 0 <= n <= u128_max ->
  exists bs, decode_quantity ("0x" +:+ fmt_hex n) = Ok bs /\ is_bytes bs /\ (length bs <= 16)%nat /\ be_value bs = n.
Proof.
  intros Hn. destruct (fmt_hex_spec n Hn) as (Hp & Hl & Hlen & Hne). unfold decode_quantity.
  rewrite trim_0x_prefix, trim_0x_digits by done.
  set (padded := if Nat.odd (String.length (fmt_hex n)) then String "0" (fmt_hex n) else fmt_hex n).
  assert (Hpad : all_bytes is_lower_hex padded = true /\ Nat.even (String.length padded) = true /\ parse_hex 0 padded = Some n /\
    (String.length padded <= 32)%nat).
  { unfold padded. destruct (Nat.odd (String.length (fmt_hex n))) eqn:Ho.
    - split_and!; [cbn [all_bytes]; by rewrite Hl|cbn [String.length]; by rewrite Nat.even_succ|done|].
      cbn [String.length]. destruct (Nat.eq_dec (String.length (fmt_hex n)) 32%nat) as [E|]; [by rewrite E in Ho|lia].
    - split_and!; try done. by rewrite <- Nat.negb_odd, Ho. }
  destruct Hpad as (Hpl & Hpe & Hpp & Hplen). destruct (hex_decode_digits padded n Hpl Hpe Hpp) as (bs & -> & Hb & Hl2 & Hv).
  exists bs. split_and!; try done. lia.
Qed.

(** ** Sizes *)

Lemma be_u128_value bs : is_bytes bs -> (length bs <= 16)%nat -> be_u128 bs = be_value bs.
Proof.
  intros Hb Hl. unfold be_u128. rewrite (proj2 (Z.ltb_ge _ _)) by (unfold len; lia).
  assert (Hgen : forall l v, is_bytes l -> 0 <= v -> v * 256 ^ Z.of_nat (length l) + be_value l < 2 ^ 128 ->
    fold_left (fun out b => Z.lor (Z.land (Z.shiftl out 8) (Z.ones 128)) b) l v = v * 256 ^ Z.of_nat (length l) + be_value l).
  { intros l v Hlb. revert v. induction Hlb as [|b l Hbb Hlb IH]; intros v Hv Hlt; [cbn; lia|].
    pose proof (be_value_bound l Hlb). unfold is_byte in Hbb. rewrite be_value_cons in *. cbn [length fold_left] in *.
    rewrite Nat2Z.inj_succ, Z.pow_succ_r in * by lia.
    assert (0 < 256 ^ Z.of_nat (length l)) by (apply Z.pow_pos_nonneg; lia).
    assert (Hvb : v * 256 + b < 2 ^ 128) by nia.
    assert (Hor : Z.lor (Z.land (Z.shiftl v 8) (Z.ones 128)) b = v * 256 + b).
    { rewrite Z.land_ones, Z.shiftl_mul_pow2, Z.mod_small by lia. change (2 ^ 8) with 256.
      assert (Hland : Z.land (v * 256) b = 0).
      { apply Z.bits_inj'. intros n Hn. rewrite Z.land_spec, Z.bits_0. destruct (Z.ltb_spec n 8).
        - change 256 with (2 ^ 8). by rewrite Z.mul_pow2_bits_low.
        - rewrite andb_comm. rewrite <- (Z.mod_small b (2 ^ 8)) by lia. by rewrite Z.mod_pow2_bits_high by lia. }
      rewrite <- Z.lxor_lor by done. by rewrite <- Z.add_nocarry_lxor. }
    rewrite Hor, IH by (try nia; lia). ring. }
  rewrite Hgen; [lia|done|lia|]. pose proof (be_value_bound bs Hb).
  assert (256 ^ Z.of_nat (length bs) <= 256 ^ 16) by (apply Z.pow_le_mono_r; lia). change (2 ^ 128) with (256 ^ 16). lia.
Qed.

Lemma encode_length_short n offset : 0 <= n < 2 ^ 64 -> len (encode_length n offset) <= 9.
Proof.
  intros Hn. unfold encode_length. destruct (Z.ltb_spec n 56); [done|]. rewrite len_cons.
  pose proof (be_bytes_len n ltac:(lia)). lia.
Qed.

Lemma encode_bytes_short d : len d < 2 ^ 64 -> len (encode_bytes d) <= 9 + len d.
Proof.
  intros Hd. pose proof (len_nonneg d). pose proof (encode_length_short (len d) 0x80 ltac:(lia)).
  unfold encode_bytes. destruct d as [|b [|b' d]]; [by rewrite len_app; lia| |by rewrite len_app; lia].
  destruct (b <? 0x80); [unfold len; cbn; lia|by rewrite len_app; lia].
Qed.

(** ** The transaction that is built *)

Definition unsigned_fields (chain nonce max_fee gas : Z) (to value data : bytes) : list rlp :=
  [scalar chain; scalar nonce; scalar MAX_PRIORITY; scalar max_fee; scalar gas; Str to; Str value; Str data; List []].

Lemma scalar_ok v : rlp_ok (scalar v).
Proof.
  unfold scalar. cbn [rlp_ok]. split; [apply drop_zeros_bytes, to_be_bytes_bytes|]. pose proof (drop_zeros_length (to_be_bytes 8 v)) as Hl.
  rewrite to_be_bytes_length in Hl. unfold len. lia.
Qed.

Lemma scalar_short v : len (encode (scalar v)) <= 17.
Proof.
  pose proof (drop_zeros_length (to_be_bytes 8 v)) as Hl. rewrite to_be_bytes_length in Hl.
  assert (Hd : len (drop_zeros (to_be_bytes 8 v)) <= 8) by (unfold len; lia).
  pose proof (encode_bytes_short (drop_zeros (to_be_bytes 8 v)) ltac:(lia)). cbn [encode scalar]. unfold scalar. cbn [encode]. lia.
Qed.

Lemma sig_short x : len x <= 32 -> len (encode (sig_item x)) <= 41.
Proof.
  intros Hx. pose proof (drop_zeros_length x) as Hl. assert (Hd : len (drop_zeros x) <= 32) by (unfold len in *; lia).
  pose proof (encode_bytes_short (drop_zeros x) ltac:(lia)). unfold sig_item. cbn [encode]. lia.
Qed.

Lemma fields_payload chain nonce max_fee gas to value data :
  len to <= 2 ^ 32 -> len value <= 2 ^ 32 -> len data <= 2 ^ 32 ->
  len (concat (map encode (unsigned_fields chain nonce max_fee gas to value data))) <= 2 ^ 34.
Proof.
  intros Ht Hv Hd. unfold unsigned_fields. cbn [map concat]. rewrite !len_app.
  pose proof (scalar_short chain). pose proof (scalar_short nonce). pose proof (scalar_short MAX_PRIORITY). pose proof (scalar_short max_fee).
  pose proof (scalar_short gas). pose proof (encode_bytes_short to ltac:(lia)). pose proof (encode_bytes_short value ltac:(lia)).
  pose proof (encode_bytes_short data ltac:(lia)). change (len (encode (List []))) with 1. change (encode (Str to)) with (encode_bytes to).
  change (encode (Str value)) with (encode_bytes value). change (encode (Str data)) with (encode_bytes data). unfold len at 9. cbn [length]. lia.
Qed.

Lemma list_short items n : len items <= n -> n + 9 <= isize_max -> len (encode_list items) <= isize_max.
Proof.
  intros Hi Hn. pose proof (len_nonneg items). unfold encode_list, isize_max in *. rewrite len_app.
  pose proof (encode_length_short (len items) 0xc0 ltac:(lia)). lia.
Qed.

Lemma fields_ok chain nonce max_fee gas to value data :
  is_bytes to -> is_bytes value -> is_bytes data -> len to <= 2 ^ 32 -> len value <= 2 ^ 32 -> len data <= 2 ^ 32 ->
  rlp_ok (List (unsigned_fields chain nonce max_fee gas to value data)) /\
  len (encode (List (unsigned_fields chain nonce max_fee gas to value data))) <= isize_max.
Proof.
  intros Ht Hv Hd Hlt Hlv Hld. pose proof (fields_payload chain nonce max_fee gas to value data Hlt Hlv Hld) as Hp. split.
  - split; [|lia]. cbn [unsigned_fields fold_right]. repeat (apply conj; [first [apply scalar_ok|cbn; split; [done|lia]|done]|]). exact I.
  - cbn [encode]. by eapply list_short; [exact Hp|].
Qed.

Lemma build_tx_fields {H : HexCodec} (show_rpc : RpcError -> string) chain to value data gas gas_price nonce tb vb :
  hex_decode (trim_0x to) = Ok tb ->
  match value with Some v => decode_quantity v = Ok vb | None => vb = [] end ->
  build_unsigned_eip1559_tx show_rpc chain to value data gas gas_price nonce =
    Ok (2 :: encode (List (unsigned_fields chain nonce (saturating_mul64 gas_price 2) gas tb vb (default [] data)))).
Proof.
  intros Ht Hv. unfold build_unsigned_eip1559_tx. rewrite Ht. cbn [result_map_err result_bind].
  assert (Hval : match value with
    | Some v => result_map_err (fun e => InvalidInput ("invalid value (must be hex wei): " +:+ show_intent_error show_rpc e)) (decode_quantity v)
    | None => Ok [] end = Ok vb) by (destruct value; [by rewrite Hv|by rewrite Hv]).
  rewrite Hval. cbn [result_bind encode unsigned_fields map concat]. by rewrite app_nil_r.
Qed.

(** The signed form of such a transaction, read by the decoder of the card. *)
Lemma card_reads_fields chain nonce max_fee gas to value data v r s tx :
  is_bytes to -> is_bytes value -> is_bytes data -> len to <= 2 ^ 32 -> len value <= 2 ^ 32 -> len data <= 2 ^ 32 ->
  is_byte v -> is_bytes r -> is_bytes s -> len r <= 32 -> len s <= 32 ->
  encode_signed_typed_tx (2 :: encode (List (unsigned_fields chain nonce max_fee gas to value data))) v r s = Ret (Ok tx) ->
  decode_tx_fields tx = let? o := to_field to in Ok {| tx_to := o; tx_value := be_u128 value; tx_data := data |}.
Proof.
  intros Ht Hv Hd Hlt Hlv Hld Hbv Hr Hs Hlr Hls Hsig.
  destruct (fields_ok chain nonce max_fee gas to value data Ht Hv Hd Hlt Hlv Hld) as [Hok Hl].
  assert (Hsl : len (encode (signed (unsigned_fields chain nonce max_fee gas to value data) (sig_item [v]) r s)) <= isize_max).
  { pose proof (fields_payload chain nonce max_fee gas to value data Hlt Hlv Hld) as Hp. unfold signed. cbn [encode].
    apply list_short with (n := 2 ^ 35); [|done]. rewrite map_app, concat_app, len_app. cbn [map concat]. rewrite !len_app.
    pose proof (sig_short [v] ltac:(unfold len; cbn; lia)). pose proof (sig_short r Hlr). pose proof (sig_short s Hls).
    unfold len at 5. cbn [length]. lia. }
  pose proof (signed_read 2 _ v r s tx ltac:(by right) Hok Hbv Hr Hs ltac:(lia) ltac:(lia) Hl Hsl Hsig) as Hdec.
  cbn [envelope_shape Z.eqb Pos.eqb unsigned_fields map payload_of nth length] in Hdec. apply Hdec; lia.
Qed.

Lemma to_field_address a : len a = 20 -> to_field a = Ok (Some a).
Proof. intros Ha. unfold to_field. rewrite Ha. by destruct a. Qed.

Lemma ok_inj {E A} (a b : A) : Ok (E := E) a = Ok b -> a = b.
Proof. by intros [= ->]. Qed.

Lemma zero_bytes n : is_bytes (repeat 0 n).
Proof. induction n as [|n IH]; by constructor. Qed.

(** The amount as [transfer] takes it: the last 32 bytes of its data. *)
Definition transfer_data (selector recipient : bytes) (n : Z) : bytes :=
  selector ++ (repeat 0 12 ++ recipient) ++ (repeat 0 16 ++ to_be_bytes 16 n).

Section Payments.
Context {H : HexCodec} {HL : HexLaws H} (keccak256 : string -> bytes) (show_rpc : RpcError -> string).
Hypothesis keccak_bytes : forall s, is_bytes (keccak256 s).
(** What hex reads are bytes. *)
Hypothesis hex_decode_bytes : forall s bs, hex_decode s = Ok bs -> is_bytes bs.

Lemma parse_address_bytes a bs : parse_address a = Ok bs -> is_bytes bs /\ len bs = 20 /\ hex_decode (trim_0x a) = Ok bs.
Proof.
  unfold parse_address. destruct (hex_decode (trim_0x a)) as [x|] eqn:Hx; [|done]. cbn [result_map_err result_bind].
  destruct (Z.eqb_spec (len x) 20); [|done]. intros [= <-]. split; [by eapply hex_decode_bytes|done].
Qed.

Lemma parse_token_bytes tok tc bs : parse_token_address tok = Ok (tc, bs) -> is_bytes bs /\ len bs = 20.
Proof.
  unfold parse_token_address. destruct (match split_once "/" tok with Some _ => _ | None => _ end) as [[c a]|]; [|done].
  cbn [result_bind]. destruct (parse_address a) as [x|] eqn:Hx; [|done]. cbn [result_bind]. intros [= <- <-].
  destruct (parse_address_bytes a x Hx) as (? & ? & _). done.
Qed.

(** What a native payment is to the decoder, by the bytes its recipient spells: twenty are an
    address, none are the creation of a contract, and others are not read.  (The bound keeps
    the transaction within the sizes of a slice.) *)
Definition pays_native (rb : bytes) (n : Z) (tx : bytes) : Prop :=
  if len rb =? 20 then decode_tx_fields tx = Ok {| tx_to := Some rb; tx_value := n; tx_data := [] |}
  else if len rb =? 0 then decode_tx_fields tx = Ok {| tx_to := None; tx_value := n; tx_data := [] |}
  else len rb <= 2 ^ 32 -> decode_tx_fields tx = Err "to field is not a 20-byte address".

(** What a payment means of a signed transaction, as the decoder of the card reads it, with
    [n] the number that the text of the amount spells ([spells_unique]: the only one): a
    payment of [n] in the chain's currency with no data, or, for a token, a call of the
    token's contract with no currency and the recipient and [n] as the arguments of
    [transfer]. *)
Definition pays (amount recipient : string) (tok : option string) (chain : string) (tx : bytes) : Prop :=
  exists n, spells (trim amount) n /\ n <= u128_max /\
    match tok with
    | None => exists rb, hex_decode (trim_0x recipient) = Ok rb /\ pays_native rb n tx
    | Some t => exists tc ta rb, parse_token_address t = Ok (tc, ta) /\ (tc = None \/ tc = Some chain) /\
        hex_decode (trim_0x recipient) = Ok rb /\ len rb = 20 /\
        decode_tx_fields tx =
          Ok {| tx_to := Some ta; tx_value := 0; tx_data := transfer_data (erc20_transfer_selector keccak256) rb n |}
    end.

(** The value of a token payment. *)
Lemma decode_zero_quantity : decode_quantity "0x0" = Ok [0].
Proof using HL.
  unfold decode_quantity. cbn [trim_0x String.length Nat.odd Nat.even negb].
  destruct (hex_decode_digits "00" 0 eq_refl eq_refl eq_refl) as (bs & Hd & _ & Hl & Hv). change (String "0" "0") with "00". rewrite Hd. cbn.
  destruct bs as [|x [|y bs]]; cbn in Hl; try lia. unfold be_value in Hv. cbn [fold_left] in Hv.
  assert (x = 0) as -> by lia. done.
Qed.

Lemma transfer_data_bytes rb n : is_bytes rb -> len rb = 20 ->
  is_bytes (transfer_data (erc20_transfer_selector keccak256) rb n) /\
  len (transfer_data (erc20_transfer_selector keccak256) rb n) <= 2 ^ 32.
Proof using keccak_bytes.
  intros Hb Hl. assert (Hsel : is_bytes (erc20_transfer_selector keccak256)) by (apply Forall_take, keccak_bytes). split.
  - unfold transfer_data. repeat apply Forall_app_2; try done; first [apply to_be_bytes_bytes|apply zero_bytes].
  - unfold transfer_data, erc20_transfer_selector. rewrite !len_app. unfold len in *.
    rewrite !repeat_length, to_be_bytes_length, length_take. lia.
Qed.

Lemma token_call_data amount recipient t chain cd : build_call_data keccak256 (Pay amount recipient (Some t)) chain = Ok cd ->
  exists n tc ta rb, parse_amount amount = Ok n /\ parse_token_address t = Ok (tc, ta) /\ (tc = None \/ tc = Some chain) /\
    parse_address recipient = Ok rb /\
    cd = {| cd_from := None; cd_to := "0x" +:+ hex_encode ta; cd_value := Some "0x0";
            cd_data := Some (transfer_data (erc20_transfer_selector keccak256) rb n) |}.
Proof.
  unfold build_call_data. destruct (parse_amount amount) as [n|]; [|done]. cbn [result_bind].
  destruct (parse_token_address t) as [[tc ta]|]; [|done]. cbn [result_bind]. intros Hcd. exists n, tc, ta.
  assert (Hc : (tc = None \/ tc = Some chain) /\ exists rb, parse_address recipient = Ok rb /\
    cd = {| cd_from := None; cd_to := "0x" +:+ hex_encode ta; cd_value := Some "0x0";
            cd_data := Some (transfer_data (erc20_transfer_selector keccak256) rb n) |}).
  { destruct tc as [tc|]; [destruct (String.eqb_spec tc chain) as [->|]; [|done]|];
      (split; [by auto|]); (destruct (parse_address recipient) as [rb|]; [|done]); cbn [result_bind] in Hcd; injection Hcd as <-; by exists rb. }
  destruct Hc as (? & rb & ? & ?). by exists rb.
Qed.

(** What is known of the signature. *)
Definition signature_bytes (v : Z) (r s : bytes) : Prop := is_byte v /\ is_bytes r /\ is_bytes s /\ len r <= 32 /\ len s <= 32.

Lemma build_tx_recipient chain_num to value data gas gas_price nonce utx :
  build_unsigned_eip1559_tx show_rpc chain_num to value data gas gas_price nonce = Ok utx -> exists rb, hex_decode (trim_0x to) = Ok rb.
Proof using Type. unfold build_unsigned_eip1559_tx. destruct (hex_decode (trim_0x to)) as [rb|]; [by exists rb|done]. Qed.

(** A native payment, whatever bytes its recipient spells. *)
Lemma native_paid chain nonce max_fee gas rb value n v r s tx :
  is_bytes rb -> is_bytes value -> (length value <= 16)%nat -> be_value value = n -> signature_bytes v r s ->
  encode_signed_typed_tx (2 :: encode (List (unsigned_fields chain nonce max_fee gas rb value []))) v r s = Ret (Ok tx) ->
  pays_native rb n tx.
Proof using Type.
  intros Hb Hv Hl Hn (Hbv & Hr & Hs & Hlr & Hls) Hsig.
  assert (Hread : len rb <= 2 ^ 32 -> decode_tx_fields tx = let? o := to_field rb in Ok {| tx_to := o; tx_value := n; tx_data := [] |}).
  { intros Hlb. rewrite <- Hn, <- be_u128_value by done.
    eapply card_reads_fields; try exact Hsig; try done; [constructor|unfold len; lia]. }
  unfold pays_native. destruct (Z.eqb_spec (len rb) 20) as [H20|H20]; [|destruct (Z.eqb_spec (len rb) 0) as [H0|H0]].
  - by rewrite Hread, to_field_address by lia.
  - rewrite Hread by lia. by destruct rb.
  - intros Hlb. rewrite Hread by done. unfold to_field. rewrite (proj2 (Z.eqb_neq _ _) H20). by destruct rb.
Qed.

(** C19 A payment does what the user was shown: whatever spelling of the amount is accepted,
    decimal or hexadecimal, the transaction that is built for it and signed is read back, by
    the decoder of the approval card, as the payment of exactly the number that is spelled.
    A token goes to the twenty bytes of the recipient through the token's contract.  Of a
    native payment the recipient is not checked: twenty bytes are paid, with none the amount
    goes into a new contract, and with any other number the card cannot read the
    transaction. *)
Theorem payment_moves_amount amount recipient tok chain chain_num cd gas gas_price nonce utx v r s tx :
  build_call_data keccak256 (Pay amount recipient tok) chain = Ok cd ->
  build_unsigned_eip1559_tx show_rpc chain_num (cd_to cd) (cd_value cd) (cd_data cd) gas gas_price nonce = Ok utx ->
  signature_bytes v r s -> encode_signed_typed_tx utx v r s = Ret (Ok tx) -> pays amount recipient tok chain tx.
Proof using HL keccak_bytes hex_decode_bytes.
  intros Hcd Hutx Hsb Hsig. destruct tok as [t|].
  - destruct (token_call_data amount recipient t chain cd Hcd) as (n & tc & ta & rb & Ha & Ht & Htc & Hrb & ->).
    destruct (parse_token_bytes t tc ta Ht) as [Hta Hlta]. destruct (parse_address_bytes recipient rb Hrb) as (Hb & Hlb & Hrd).
    apply parse_amount_spells in Ha as [Hsp Hmax].
    exists n. split_and!; [done..|]. exists tc, ta, rb. split_and!; try done. cbn [cd_to cd_value cd_data] in Hutx.
    rewrite (build_tx_fields show_rpc chain_num ("0x" +:+ hex_encode ta) (Some "0x0") _ gas gas_price nonce ta [0]) in Hutx; [|
      rewrite trim_0x_prefix, trim_0x_digits by (by apply hex_encode_digits); by apply hex_roundtrip|exact decode_zero_quantity].
    apply ok_inj in Hutx as <-. cbn [default] in Hsig. destruct (transfer_data_bytes rb n Hb Hlb) as [Hdb Hdl].
    destruct Hsb as (Hv & Hr & Hs & Hlr & Hls).
    pose proof (card_reads_fields chain_num nonce (saturating_mul64 gas_price 2) gas ta [0]
      (transfer_data (erc20_transfer_selector keccak256) rb n) v r s tx) as Hc.
    rewrite Hc; try done; [by rewrite to_field_address|by repeat constructor|lia].
  - unfold build_call_data in Hcd. destruct (parse_amount amount) as [n|] eqn:Ha; [|done]. cbn [result_bind] in Hcd. injection Hcd as <-.
    pose proof (parse_amount_range amount n Ha) as Hn. apply parse_amount_spells in Ha as [Hsp Hmax]. cbn [cd_to cd_value cd_data] in Hutx.
    destruct (build_tx_recipient _ _ _ _ _ _ _ _ Hutx) as [rb Hrd]. exists n. split_and!; [done..|]. exists rb. split; [done|].
    destruct (decode_quantity_spec HL n Hn) as (bs & Hd & Hb & Hlbs & Hbv).
    pose proof (build_tx_fields show_rpc chain_num recipient (Some ("0x" +:+ fmt_hex n)) None gas gas_price nonce rb bs Hrd Hd) as Hu.
    pose proof (ok_inj _ _ (eq_trans (eq_sym Hu) Hutx)) as <-. cbn [default] in Hsig.
    eapply native_paid; [by eapply hex_decode_bytes|exact Hb|exact Hlbs|exact Hbv|exact Hsb|exact Hsig].
Qed.

(** A native payment takes any recipient hex reads: with an empty one, the transaction
    creates a contract with the amount. *)
Lemma pay_to_nobody chain_num gas gas_price nonce :
  exists cd utx, build_call_data keccak256 (Pay "1000000" "0x" None) "eip155:1" = Ok cd /\
    build_unsigned_eip1559_tx show_rpc chain_num (cd_to cd) (cd_value cd) (cd_data cd) gas gas_price nonce = Ok utx /\
    exists vb, utx = 2 :: encode (List (unsigned_fields chain_num nonce (saturating_mul64 gas_price 2) gas [] vb [])).
Proof using HL.
  assert (Ha : parse_amount "1000000" = Ok 1000000) by (vm_compute; reflexivity).
  destruct (decode_quantity_spec HL 1000000 ltac:(by split)) as (vb & Hd & _).
  destruct (hex_decode_digits "" 0 eq_refl eq_refl eq_refl) as (e & He & _ & Hl & _). destruct e as [|]; [|done].
  eexists. eexists. split; [unfold build_call_data; rewrite Ha; reflexivity|]. split; [|by exists vb].
  apply (build_tx_fields show_rpc); [exact He|exact Hd].
Qed.
End Payments.

(** Every token payment writes its value of zero as the byte zero, where RLP has the empty
    string for the number zero, as [encode_u64] has it. *)
Lemma zero_value_not_canonical : encode (Str [0]) = [0] /\ encode_u64 0 = [0x80].
Proof. done. Qed.

(** The tip is one gwei whatever the price of gas: under half a gwei it is above the cap. *)
Lemma tip_above_cap gas_price : 0 <= gas_price < 500000000 -> saturating_mul64 gas_price 2 < MAX_PRIORITY.
Proof. unfold saturating_mul64, MAX_PRIORITY, u64_max. lia. Qed.

(** ** A concrete codec and a concrete payment *)

Definition plain_hex (s : string) : bool := all_bytes is_lower_hex s && Nat.even (String.length s).

#[local] Instance demo_hex : HexCodec := {|
  hex_encode := DemoText.hex;
  hex_decode s := if plain_hex s then Ok (unhex s) else Err "not hex"
|}.

Lemma lower_hex_value c : is_lower_hex c = true -> hex_digit_value c = Some (hex_value c) /\ 0 <= hex_value c < 16.
Proof. destruct c as [[] [] [] [] [] [] [] []]; vm_compute; intros H; try discriminate H; (split; [reflexivity|split; [discriminate|reflexivity]]). Qed.

Lemma parse_unhex s : all_bytes is_lower_hex s = true -> Nat.even (String.length s) = true ->
  is_bytes (unhex s) /\ (2 * length (unhex s) = String.length s)%nat /\
  forall a, parse_hex a s = Some (a * 256 ^ Z.of_nat (length (unhex s)) + be_value (unhex s)).
Proof.
  remember (String.length s) as n eqn:Hn. revert s Hn. induction n as [n IH] using lt_wf_ind. intros s Hn Hl He.
  destruct s as [|c [|d s]].
  - cbn in Hn. subst n. split_and!; [constructor|done|]. intros a. cbn. f_equal. lia.
  - cbn in Hn. by subst n.
  - cbn [all_bytes] in Hl. apply andb_true_iff in Hl as [Hc [Hd Hs]%andb_true_iff]. cbn [String.length] in Hn. subst n.
    destruct (lower_hex_value c Hc) as [Vc Rc]. destruct (lower_hex_value d Hd) as [Vd Rd].
    destruct (IH (String.length s) ltac:(lia) s eq_refl Hs) as (Ib & Il & Ip); [by cbn in He|]. cbn [unhex length]. split_and!.
    + constructor; [unfold is_byte; lia|done].
    + lia.
    + intros a. cbn [parse_hex]. rewrite Vc, Vd, Ip. f_equal. rewrite be_value_cons, Nat2Z.inj_succ, Z.pow_succ_r by lia. ring.
Qed.

Lemma demo_hex_digits b : is_bytes b -> all_bytes is_lower_hex (DemoText.hex b) = true /\ Nat.even (String.length (DemoText.hex b)) = true.
Proof.
  induction 1 as [|x l Hx _ [IH1 IH2]]; [done|]. unfold is_byte in Hx. cbn [DemoText.hex all_bytes String.length].
  pose proof (Z.mod_pos_bound x 16 ltac:(done)). assert (0 <= x / 16 < 16) by (split; [apply Z.div_pos; lia|apply Z.div_lt_upper_bound; lia]).
  destruct (hex_digit_ok (x / 16)) as [_ ->]; [done|]. destruct (hex_digit_ok (x mod 16)) as [_ ->]; [done|]. by rewrite IH1.
Qed.

#[local] Instance demo_hex_laws : HexLaws demo_hex.
Proof.
  split.
  - intros s v Hl He Hp. destruct (parse_unhex s Hl He) as (Hb & Hlen & Hv). exists (unhex s). split_and!; try done.
    + cbn. unfold plain_hex. by rewrite Hl, He.
    + rewrite Hv in Hp. injection Hp as <-. lia.
  - intros b Hb. apply (demo_hex_digits b Hb).
  - intros b Hb. destruct (demo_hex_digits b Hb) as [H1 H2]. cbn. unfold plain_hex. rewrite H1, H2. f_equal. by apply unhex_hex.
Qed.

Lemma demo_decode_bytes s bs : hex_decode s = Ok bs -> is_bytes bs.
Proof.
  cbn. unfold plain_hex. destruct (all_bytes is_lower_hex s) eqn:Hl; [|done]. destruct (Nat.even (String.length s)) eqn:He; [|done].
  intros [= <-]. apply (parse_unhex s Hl He).
Qed.

Definition demo_recipient : string := "0x3535353535353535353535353535353535353535".
Definition demo_keccak (s : string) : bytes := [0xa9; 0x05; 0x9c; 0xbb].
Lemma demo_keccak_bytes s : is_bytes (demo_keccak s).
Proof. apply (bool_decide_unpack (is_bytes _)). vm_compute. exact I. Qed.

Definition demo_utx : bytes := 2 :: encode (List (unsigned_fields 1 7 2000 21000 (repeat 0x35 20) [0x05; 0xdc] [])).

Lemma payment_moves_amount_witness :
  pays demo_keccak "1500" demo_recipient None "eip155:1"
    (2 :: encode (signed (unsigned_fields 1 7 2000 21000 (repeat 0x35 20) [0x05; 0xdc] []) (sig_item [1]) [8] [3])).
Proof.
  apply (payment_moves_amount demo_keccak (fun _ => "")
    demo_keccak_bytes demo_decode_bytes
    "1500" demo_recipient None "eip155:1" 1
    {| cd_from := None; cd_to := demo_recipient; cd_value := Some "0x5dc"; cd_data := None |} 21000 1000 7 demo_utx 1 [8] [3]).
  - vm_compute. reflexivity.
  - vm_compute. reflexivity.
  - repeat split; try discriminate; apply (bool_decide_unpack (is_bytes _)); vm_compute; exact I.
  - vm_compute. reflexivity.
Defined.
