(* ===== verification/Router.v ===== *)
(** * The router of WalletConnect methods

    crates/oc-netagent/src/wc_method_router.rs and approval.rs: a method and its JSON
    parameters become a request to the Key-Agent, behind the policy and the user's approval,
    and its response a JSON answer.  A handler is a program over the calls of [Net].  prost's
    decoders, serde on the parameters, hex and Keccak-256 are arguments. *)

From Stdlib Require Import ZArith Ascii String Bool.
From stdpp Require Import base list strings gmap.
From S2P Require Import Prelude F64 Str Decimal Json Bytes PolicyV2 AuditChain Rlp Frame Passkey Proto Chain SiwxMessage SiwxParse WcAuth Approvals Sim Net Intent.

Local Open Scope oc_scope.
Local Open Scope Z_scope.
Local Open Scope net_scope.

Inductive SignAuthMode := RequirePasskey | InternalToken (token : string).

Record CommonParams := { cp_wallet_id : string; cp_chain_id : string; cp_session_key_id : option string }.

(** Of the optional parts that are only handles, whether they are there. *)
Record Router := {
  has_approval : bool;
  approval_timeout : Z;
  has_log : bool;
  rt_policy : option PolicyV2.PolicyV2;
  block_on_danger_simulation : bool;
  has_sessions : bool;
  sign_auth_mode : SignAuthMode
}.

Definition router_new : Router := {|
  has_approval := false; approval_timeout := 300; has_log := false; rt_policy := None; block_on_danger_simulation := true;
  has_sessions := false; sign_auth_mode := RequirePasskey
|}.

Definition with_approval (timeout : Z) (log : bool) : Router := {|
  has_approval := true; approval_timeout := timeout; has_log := log; rt_policy := None; block_on_danger_simulation := true;
  has_sessions := false; sign_auth_mode := RequirePasskey
|}.

Definition with_policy_opt (policy : option PolicyV2.PolicyV2) (r : Router) : Router := {|
  has_approval := has_approval r; approval_timeout := approval_timeout r; has_log := has_log r; rt_policy := policy;
  block_on_danger_simulation := block_on_danger_simulation r; has_sessions := has_sessions r; sign_auth_mode := sign_auth_mode r
|}.

Definition with_policy (policy : PolicyV2.PolicyV2) (r : Router) : Router := with_policy_opt (Some policy) r.

Definition with_block_on_danger (block : bool) (r : Router) : Router := {|
  has_approval := has_approval r; approval_timeout := approval_timeout r; has_log := has_log r; rt_policy := rt_policy r;
  block_on_danger_simulation := block; has_sessions := has_sessions r; sign_auth_mode := sign_auth_mode r
|}.

Definition with_sessions (r : Router) : Router := {|
  has_approval := has_approval r; approval_timeout := approval_timeout r; has_log := has_log r; rt_policy := rt_policy r;
  block_on_danger_simulation := block_on_danger_simulation r; has_sessions := true; sign_auth_mode := sign_auth_mode r
|}.

Definition with_sign_auth_mode (mode : SignAuthMode) (r : Router) : Router := {|
  has_approval := has_approval r; approval_timeout := approval_timeout r; has_log := has_log r; rt_policy := rt_policy r;
  block_on_danger_simulation := block_on_danger_simulation r; has_sessions := has_sessions r; sign_auth_mode := mode
|}.

(** [eip191_prefixed_message]. *)
Definition eip191_prefixed_message (message : string) : string :=
  String (ascii_of_N 25) ("Ethereum Signed Message:" +:+ String lf (fmt_Z (str_len message) +:+ message)).

(** [ProtoDenyReason::try_from]. *)
Definition deny_reasons : list DenyReason :=
  [RateLimitMinute; RateLimitHour; BudgetExceeded; Whitelist; Proto.Expired; PasskeyForged; PolicyMissing; Cooldown; Unknown].

Definition deny_reason_to_rpc_code_from_proto (reason : Z) : JsonRpcErrorCode :=
  match List.find (fun r => deny_code r =? reason) deny_reasons with
  | Some RateLimitMinute | Some RateLimitHour => PolicyRateLimit
  | Some BudgetExceeded => PolicyBudgetExceeded
  | Some Whitelist => PolicyWhitelist
  | Some Proto.Expired => PolicyExpired
  | Some PasskeyForged => Unauthorized
  | Some PolicyMissing => CodePolicyMissing
  | Some Cooldown => PolicyCooldown
  | Some Unknown | None => Internal
  end.

Definition show_auth_error (e : AuthError) : string :=
  match e with
  | WcAuth.MissingField f => "missing required field: " +:+ f
  | WcAuth.InvalidValue f m => "invalid value for " +:+ f +:+ ": " +:+ m
  | WcAuth.UnsupportedType t => "unsupported auth type: " +:+ t
  | WcAuth.UnsupportedChain c => "unsupported chain: " +:+ c
  end.

Definition show_sim_error (e : SimError) : string :=
  match e with
  | Sim.HexDecode m => "hex decode error: " +:+ m
  | Sim.TxDecode m => "transaction decode error: " +:+ m
  | Sim.Execution m => "evm execution error: " +:+ m
  | Sim.NotAvailable m => "simulation not available: " +:+ m
  end.

(** The methods, under all their names. *)
Inductive Route :=
| RListWallets | RSignTransaction | RSolanaSignMessage | RSignMessage | RSignAuth | RSolanaSignIn | RAuthRequest
| RSignTypedData | RSignUserOp | RGenerateChallenge | RGetBalance | RIntentSimulate | RIntentExecute.

Definition routes : list (string * Route) := [
  ("onecipher_listWallets", RListWallets);
  ("eth_sendTransaction", RSignTransaction); ("eth_signTransaction", RSignTransaction);
  ("solana_signTransaction", RSignTransaction); ("cosmos_signDirect", RSignTransaction);
  ("cosmos_signAmino", RSignTransaction); ("onecipher_signTransaction", RSignTransaction);
  ("solana_signMessage", RSolanaSignMessage);
  ("personal_sign", RSignMessage); ("eth_sign", RSignMessage); ("onecipher_signMessage", RSignMessage);
  ("onecipher_signAuth", RSignAuth);
  ("solana_signIn", RSolanaSignIn);
  ("wc_authRequest", RAuthRequest);
  ("eth_signTypedData_v4", RSignTypedData); ("onecipher_signTypedData", RSignTypedData);
  ("onecipher_signUserOp", RSignUserOp);
  ("onecipher_generateChallenge", RGenerateChallenge);
  ("onecipher_getBalance", RGetBalance);
  ("onecipher_intentSimulate", RIntentSimulate);
  ("onecipher_intentExecute", RIntentExecute)
].

Definition route_of (method : string) : option Route := snd <$> List.find (fun e => String.eqb e.1 method) routes.

(** [Message::decode] of each response the router reads. *)
Class Unwire := {
  decode_list_wallets : bytes -> result string ListWalletsResponse;
  decode_sign_transaction : bytes -> result string SignTransactionResponse;
  decode_sign_message : bytes -> result string SignMessageResponse;
  decode_sign_auth : bytes -> result string SignAuthResponse;
  decode_sign_siwx : bytes -> result string SignSiwxResponse;
  decode_sign_typed_data : bytes -> result string SignTypedDataResponse;
  decode_sign_user_op : bytes -> result string SignUserOpResponse;
  decode_generate_challenge : bytes -> result string GenerateChallengeResponse
}.

(** serde_json on the parameters and answers that are structures. *)
Class ParamsJson {S : SerdeNumber} := {
  auth_params_from_json : Value -> result string AuthRequestParams;
  intent_kind_from_json : Value -> result string IntentKind;
  summary_to_json : IntentSummary -> result string Value;
  result_to_json : IntentResult -> result string Value
}.

Section Router.
Context {S : SerdeNumber} {Ext : External} {C : Caip} {L : Lowercase} {D : DynAbi} {H : HexCodec} {W : Unwire} {J : ParamsJson}.
(** [Keccak256::digest], [Value::to_string], the selector map of the ABI cache, and the
    texts and floats of Intent.v. *)
Context (keccak256 : string -> bytes) (json_text : Value -> string) (selectors : SelectorMap).
Context (debug_str : string -> string) (show_rpc : RpcError -> string).
Context (parse_f64 : string -> option f64) (fmt_2 : f64 -> string) (first_chars : nat -> string -> option string).

Abbreviation Net A := (Prog Instant A).
Abbreviation Reply A := (Net (result RpcFailure A)).

Definition pure {A} (r : result RpcFailure A) : Reply A := Done r.

Definition str_param (key : string) (params : Value) : option string := value_get key params ≫= as_str.

Definition required (key : string) (params : Value) : result RpcFailure string :=
  ok_or (UnsupportedMethod, "missing " +:+ key) (str_param key params).

Definition json_bytes (bs : bytes) : Value := Array (map json_u64 bs).
Definition json_hex (bs : bytes) : Value := VString ("0x" +:+ hex_encode bs).

Definition decoded {A} (r : result string A) : result RpcFailure A := result_map_err (fun e => (Internal, "decode: " +:+ e)) r.

(** ** Parameters *)

Definition extract_passkey_auth (params : Value) : result RpcFailure (option PasskeyAuthorization) :=
  match value_get "auth" params with
  | None | Some Null => Ok None
  | Some auth_obj =>
      let field key := ok_or (Unauthorized, "missing auth." +:+ key) (str_param key auth_obj) in
      let? challenge_hex := field "challenge_hex" in
      let? signature_hex := field "signature_hex" in
      let? credential_id := field "credential_id" in
      let? challenge := result_map_err (fun e => (Unauthorized, "invalid auth.challenge_hex: " +:+ e)) (hex_decode challenge_hex) in
      let? signature := result_map_err (fun e => (Unauthorized, "invalid auth.signature_hex: " +:+ e)) (hex_decode signature_hex) in
      Ok (Some {| challenge := challenge; auth_signature := signature; credential_id := credential_id |})
  end.

Definition need_auth (message : string) (params : Value) : result RpcFailure PasskeyAuthorization :=
  let? auth := extract_passkey_auth params in ok_or (Unauthorized, message) auth.

Definition extract_common_params (params : Value) : result RpcFailure CommonParams :=
  let? wallet_id := required "wallet_id" params in
  let? chain_id := required "chain_id" params in
  Ok {| cp_wallet_id := wallet_id; cp_chain_id := chain_id; cp_session_key_id := str_param "session_key_id" params |}.

Definition parse_intent_params (params : Value) : Reply (Intent * HotPathConfig) :=
  try* chain_id := pure (required "chain_id" params) in
  try* session_key_id := pure (required "session_key_id" params) in
  try* kind_value := pure (ok_or (UnsupportedMethod, "missing kind (IntentKind JSON)") (value_get "kind" params)) in
  try* kind := pure (result_map_err (fun e => (UnsupportedMethod, "invalid kind: " +:+ e)) (intent_kind_from_json kind_value)) in
  let* intent := intent_new kind chain_id session_key_id in
  Done (Ok (intent, hot_path_config (str_param "rpc_url" params))).

(** ** The policy *)

Definition now_unix_secs : Reply Z :=
  let* now := call Now in
  Done (ok_or (Internal, "system clock error (refusing to evaluate time-based policy): second time provided was later than self") now).

Definition chain_unspecified : RiskReason := {|
  rr_code := "policy_warn_chain_unspecified"; rr_level := Warning;
  rr_message := "request carries no chain id; chain-whitelist policy was not evaluated"; rr_source := SourcePolicy; rr_detail := None
|}.

Definition new_contract (to : string) : RiskReason := {|
  rr_code := "policy_warn_new_contract"; rr_level := Warning; rr_message := "contract " +:+ to +:+ " is not in the whitelist";
  rr_source := SourcePolicy; rr_detail := Some (json_object [("address", VString to)])
|}.

Definition contract_reasons (policy : PolicyV2.PolicyV2) (params : Value) : list RiskReason :=
  let whitelist := contract_whitelist (rules policy) in
  match str_param "to" params with
  | Some to =>
      if negb (is_nil whitelist) && negb (existsb (fun c => eq_ignore_ascii_case c to) whitelist) then [new_contract to] else []
  | None => []
  end.

Definition chain_reasons (policy : PolicyV2.PolicyV2) (chain_id : string) : result RpcFailure (list RiskReason) :=
  let whitelist := chain_whitelist (rules policy) in
  if is_nil whitelist then Ok []
  else if is_empty chain_id then Ok [chain_unspecified]
  else if existsb (fun c => String.eqb c chain_id) whitelist then Ok []
  else Err (PolicyChainNotWhitelisted, "chain " +:+ chain_id +:+ " not in policy whitelist").

Definition policy_evaluate_signing (r : Router) (params : Value) (chain_id : string) : Reply (RiskLevel * list RiskReason) :=
  match rt_policy r with
  | None => Done (Ok (Safe, []))
  | Some policy =>
      try* reasons := pure (chain_reasons policy chain_id) in
      try* now := now_unix_secs in
      if expiry_unix (rules policy) <? now then Done (Err (PolicyExpired, "policy has expired"))
      else
        let reasons := reasons ++ contract_reasons policy params in
        Done (Ok (if is_nil reasons then Safe else Warning, reasons))
  end.

(** ** The approval of the user *)

(** [ApprovalChannel::request]. *)
Definition request (a : PendingApproval) (timeout : Z) : Net ApprovalDecision :=
  let* taken := call (Submit a) in
  if negb taken then Done Timeout
  else
    let* ended := call (AwaitAnswer timeout) in
    Done (match ended with Answered d => d | SenderGone | Elapsed => Timeout end).

Definition siwx_summary_for (params : Value) : option SiwxSummary :=
  match str_param "message" params with
  | None => None
  | Some text =>
      match from_str text with
      | Err _ => None
      | Ok msg => Some {| ss_domain := domain msg; ss_address := address msg; ss_uri := uri msg; ss_chain_name := chain_name msg;
                          ss_nonce := nonce msg; ss_issued_at := original (issued_at msg);
                          ss_expiration_time := original <$> expiration_time msg; ss_resources := resources msg |}
      end
  end.

Definition log_resolution (id : string) (decision : ApprovalDecision) : Net unit :=
  match decision with
  | Approve => call (LogResolved id "approved" "")
  | Reject reason => call (LogResolved id "rejected" reason)
  | Timeout => call (LogResolved id "timeout" "")
  end.

Definition when (b : bool) (p : Net unit) : Net unit := if b then p else Done tt.

Definition maybe_gate_approval (r : Router) (method : string) (params : Value) (dapp_name dapp_origin chain_id : string)
    (risk : RiskLevel) (risk_reasons : list RiskReason) (simulation : option TxSimulation) : Reply bool :=
  let* mode := call ApprovalMode in
  if negb mode then Done (Ok true)
  else if negb (has_approval r) then
    Done (Err (Internal, "approval required but no approver connected — Web UI not running"))
  else
    try* now_secs := now_unix_secs in
    let* id := call FreshId in
    let pending := {|
      pa_id := id; pa_method := method; pa_params := params; pa_dapp_name := dapp_name; pa_dapp_origin := dapp_origin;
      pa_chain_id := chain_id; pa_risk := risk; pa_risk_reasons := risk_reasons; pa_simulation := simulation;
      pa_siwx_summary := siwx_summary_for params; pa_created_at_unix := now_secs;
      pa_expires_at_unix := (now_secs + approval_timeout r) mod 2 ^ 64 |} in
    let* _ := when (has_log r) (call (LogPending pending)) in
    let* decision := request pending (approval_timeout r) in
    let* _ := when (has_log r) (log_resolution id decision) in
    Done (match decision with
          | Approve => Ok true
          | Reject reason => Err (UserRejected, "user rejected: " +:+ reason)
          | Timeout => Err (UserRejected, "approval timeout")
          end).

(** The policy, and then the user. *)
Definition cleared (r : Router) (method : string) (params : Value) (dapp_name dapp_origin chain_id : string) : Reply bool :=
  try* '(risk, risk_reasons) := policy_evaluate_signing r params chain_id in
  maybe_gate_approval r method params dapp_name dapp_origin chain_id risk risk_reasons None.

(** ** Simulation *)

Definition approval_gating_active (r : Router) : Net bool :=
  let* mode := call ApprovalMode in Done (mode && has_approval r).

Definition maybe_block_on_danger (r : Router) (simulation_risk : RiskLevel) (simulation_reasons : list RiskReason) : Reply unit :=
  let block :=
    match simulation_risk with
    | Danger =>
        let detail := match simulation_reasons with [] => "simulation failed" | reason :: _ => rr_message reason end in
        Err (UserRejected, "transaction rejected: " +:+ detail)
    | _ => Ok tt
    end in
  if negb (block_on_danger_simulation r) then Done (Ok tt)
  else
    let* active := approval_gating_active r in
    if active : bool then Done (Ok tt) else Done block.

Definition apply_simulation_result (res : result SimError TxSimulation) : option TxSimulation * RiskLevel * list RiskReason :=
  match res with
  | Ok sim =>
      if sim_success sim then (Some sim, Safe, [])
      else (Some sim, Danger, [{|
        rr_code := "sim_revert"; rr_level := Danger;
        rr_message := "simulation indicates revert: " +:+ default "execution failed" (sim_error sim);
        rr_source := SourceSimulation; rr_detail := Some (json_object [("gas_used", json_u64 (sim_gas_used sim))]) |}])
  | Err e => (None, Warning, [{|
        rr_code := "sim_unavailable"; rr_level := Warning; rr_message := "transaction simulation was not available";
        rr_source := SourceSimulation; rr_detail := Some (json_object [("error", VString (show_sim_error e))]) |}])
  end.

Definition simulated (chain_id raw_tx_hex : string) : Net (option TxSimulation * RiskLevel * list RiskReason) :=
  match parse_caip chain_id with
  | Ok id =>
      if is_evm id then
        let* join_err := call JoinTask in
        Done (apply_simulation_result (simulate_evm_tx json_text selectors join_err raw_tx_hex chain_id))
      else Done (None, Safe, [])
  | Err _ => Done (None, Safe, [])
  end.

(** ** The Key-Agent *)

Definition forward (k : KeyAgentRequestKind) : Reply bytes :=
  let* sent := call (Send k) in
  Done (match sent with
        | Err e => Err (Internal, "key-agent wire: " +:+ e)
        | Ok resp =>
            match kind resp with
            | Some (ROk b) => Ok b
            | Some (RDeny d) => Err (deny_reason_to_rpc_code_from_proto (dr_reason d), "policy denied")
            | Some (RError msg) => Err (CodeSigner, msg)
            | None => Err (Internal, "empty key-agent response")
            end
        end).

Definition resolve_dapp_metadata (r : Router) (session_topic dapp_name dapp_origin : string) : Net (string * string) :=
  if negb (is_empty dapp_name) || negb (is_empty dapp_origin) then Done (dapp_name, dapp_origin)
  else if negb (has_sessions r) then Done ("", "")
  else
    let* s := call (SessionMeta session_topic) in
    Done (match s with Some (Some (name, origin)) => (default "" name, default "" origin) | _ => ("", "") end).

Definition default_wallet_for_chain (chain_id : string) : Reply (string * string) :=
  if is_empty chain_id then Done (Err (UnsupportedMethod, "chain_id is required when resolving a default wallet"))
  else
    try* payload := forward ListWallets in
    pure (
      let? resp := decoded (decode_list_wallets payload) in
      let? wallet := ok_or (Internal, "no wallet available for auth request") (head (lw_wallets resp)) in
      let? account := ok_or (UnsupportedMethod, "default wallet has no account for requested chain " +:+ chain_id)
        (List.find (fun a => String.eqb (wa_chain_id a) chain_id) (wi_accounts wallet)) in
      Ok (wi_id wallet, wa_address account)).

Definition wallet_or_default (params : Value) (chain_id : string) : Reply string :=
  match str_param "wallet_id" params with
  | Some w => Done (Ok w)
  | None => try* wallet := default_wallet_for_chain chain_id in Done (Ok wallet.1)
  end.

(** The authorization of an auth-class request: a passkey proof, or the daemon's token. *)
Definition auth_of_mode (r : Router) (message : string) (params : Value) : result RpcFailure (option PasskeyAuthorization) :=
  match sign_auth_mode r with
  | RequirePasskey => let? auth := need_auth message params in Ok (Some auth)
  | InternalToken _ => Ok None
  end.

Definition token_of_mode (r : Router) : string := match sign_auth_mode r with RequirePasskey => "" | InternalToken token => token end.

(** ** The answers *)

Definition account_json (a : WalletAccount) : Value :=
  json_object [("account_id", VString (wa_account_id a)); ("address", VString (wa_address a)); ("chain_id", VString (wa_chain_id a));
               ("derivation_path", VString (wa_derivation_path a))].

Definition wallet_json (w : WalletInfo) : Value :=
  json_object [("id", VString (wi_id w)); ("name", VString (wi_name w)); ("key_type", VString (wi_key_type w));
               ("created_at", json_u64 (wi_created_at w)); ("accounts", Array (map account_json (wi_accounts w)))].

Definition transaction_json (resp : SignTransactionResponse) : Value :=
  json_object [("signature", json_bytes (st_signature resp)); ("signed_tx_hex", VString (st_signed_tx_hex resp))].
Definition solana_message_json (resp : SignAuthResponse) : Value :=
  json_object [("signature", json_bytes (sa_signature resp)); ("address", VString (sa_address resp));
               ("chain_id", VString (sa_res_chain_id resp))].
Definition message_json (resp : SignMessageResponse) : Value := json_object [("signature", json_bytes (sm_signature resp))].
Definition auth_json (resp : SignAuthResponse) : Value :=
  json_object [("signature", json_hex (sa_signature resp)); ("address", VString (sa_address resp));
               ("chain_id", VString (sa_res_chain_id resp)); ("public_key", json_hex (sa_public_key resp))].
Definition siwx_json (resp : SignSiwxResponse) : Value :=
  json_object [("signature", json_hex (res_signature resp)); ("address", VString (res_address resp));
               ("chain_id", VString (res_chain_id resp)); ("public_key", json_hex (res_public_key resp))].
Definition wc_auth_json (signature hash : bytes) (params : Value) : Value :=
  json_object [("signature", json_hex signature); ("hash", json_hex hash); ("payload", params)].
Definition typed_data_json (resp : SignTypedDataResponse) : Value := json_object [("signature", json_bytes (sd_signature resp))].
Definition user_op_json (resp : SignUserOpResponse) : Value :=
  json_object [("signature", json_bytes (su_signature resp)); ("signed_user_op_hex", VString (su_signed_user_op_hex resp))].

(** Forward, decode, answer. *)
Definition forwarded {A} (k : KeyAgentRequestKind) (decode : bytes -> result string A) (json : A -> Value) : Reply Value :=
  try* payload := forward k in
  pure (let? resp := decoded (decode payload) in Ok (json resp)).

(** ** The methods *)

Definition list_wallets : Reply Value :=
  forwarded ListWallets decode_list_wallets (fun resp => json_object [("wallets", Array (map wallet_json (lw_wallets resp)))]).

Definition NO_PASSKEY : string := "missing passkey authorization".

Definition sign_transaction (r : Router) (method : string) (params : Value) (dapp_name dapp_origin : string) : Reply Value :=
  try* auth := pure (need_auth NO_PASSKEY params) in
  try* common := pure (extract_common_params params) in
  try* raw_tx_hex := pure (required "raw_tx_hex" params) in
  let chain_id := cp_chain_id common in
  try* '(risk, risk_reasons) := policy_evaluate_signing r params chain_id in
  let* '(simulation, sim_risk, sim_reasons) := simulated chain_id raw_tx_hex in
  try* _ := maybe_block_on_danger r sim_risk sim_reasons in
  try* _ := maybe_gate_approval r method params dapp_name dapp_origin chain_id (risk_max risk sim_risk) (risk_reasons ++ sim_reasons)
              simulation in
  forwarded (SignTransaction {|
    st_session_key_id := default "" (cp_session_key_id common); st_wallet_id := cp_wallet_id common; st_chain_id := chain_id;
    st_raw_tx_hex := raw_tx_hex; st_auth := Some auth |}) decode_sign_transaction transaction_json.

Definition solana_sign_message (r : Router) (method : string) (params : Value) (dapp_name dapp_origin : string) : Reply Value :=
  let chain_id := default "solana:mainnet" (str_param "chain_id" params) in
  try* wallet_id := wallet_or_default params chain_id in
  try* message := pure (required "message" params) in
  try* _ := cleared r method params dapp_name dapp_origin chain_id in
  try* auth := pure (auth_of_mode r NO_PASSKEY params) in
  forwarded (SignAuth {| sa_wallet_id := wallet_id; sa_chain_id := chain_id; sa_message := message; sa_auth := auth;
                         sa_agent_token := token_of_mode r |}) decode_sign_auth solana_message_json.

Definition sign_message (r : Router) (method : string) (params : Value) (dapp_name dapp_origin : string) : Reply Value :=
  try* auth := pure (need_auth NO_PASSKEY params) in
  try* common := pure (extract_common_params params) in
  try* message := pure (required "message" params) in
  try* _ := cleared r method params dapp_name dapp_origin "" in
  forwarded (SignMessage {| sm_session_key_id := default "" (cp_session_key_id common); sm_wallet_id := cp_wallet_id common;
                            sm_message := message; sm_auth := Some auth |}) decode_sign_message message_json.

Definition sign_auth (r : Router) (method : string) (params : Value) (dapp_name dapp_origin : string) : Reply Value :=
  try* chain_id := pure (required "chain_id" params) in
  try* wallet_id := wallet_or_default params chain_id in
  try* message := pure (required "message" params) in
  try* auth := pure (auth_of_mode r "missing auth for onecipher_signAuth" params) in
  try* _ := cleared r method params dapp_name dapp_origin chain_id in
  forwarded (SignAuth {| sa_wallet_id := wallet_id; sa_chain_id := chain_id; sa_message := message; sa_auth := auth;
                         sa_agent_token := token_of_mode r |}) decode_sign_auth auth_json.

Definition solana_sign_in (r : Router) (method : string) (params : Value) (dapp_name dapp_origin : string) : Reply Value :=
  try* chain_id := pure (required "chain_id" params) in
  try* message := pure (required "message" params) in
  try* _ := pure (result_map_err (fun e => (UnsupportedMethod, "invalid CAIP-122 message: " +:+ show_siwx_error debug_str e))
                    (from_str message)) in
  try* wallet_id := wallet_or_default params chain_id in
  try* _ := cleared r method params dapp_name dapp_origin chain_id in
  try* auth := pure (auth_of_mode r "missing auth for solana_signIn" params) in
  forwarded (SignSiwx {| req_wallet_id := wallet_id; req_chain_id := chain_id; req_message := message; req_auth := auth;
                         req_agent_token := token_of_mode r |}) decode_sign_siwx siwx_json.

(** *** [wc_authRequest] *)

Definition bad_auth {E A} (show : E -> string) (r : result E A) : result RpcFailure A :=
  result_map_err (fun e => (Internal, "invalid wc_authRequest: " +:+ show e)) r.

(** A field that is applied when it is not empty. *)
Definition applied (m : SiwxMessage) (field : string) (set : SiwxMessage -> string -> result SiwxError SiwxMessage)
  : result RpcFailure SiwxMessage :=
  if is_empty field then Ok m else bad_auth (show_siwx_error debug_str) (set m field).

Definition build_siwx_message (address : string) (p : AuthRequestParams) : Reply string :=
  try* reference := pure (bad_auth show_auth_error (chain_reference (ar_chain_id p))) in
  let* now := call NowInstant in
  pure (
    let? m := bad_auth (show_siwx_error debug_str) (SiwxMessage.new now (ar_domain p) address (ar_aud p) reference (ar_nonce p)) in
    let? m := applied m (ar_statement p) with_statement in
    let? m := if is_nil (ar_resources p) then Ok m
              else bad_auth (show_siwx_error debug_str) (with_resources m (ar_resources p)) in
    let? m := applied m (ar_issued_at p) with_issued_at_raw in
    let? m := applied m (ar_expiration_time p) with_expiration_time_raw in
    let? m := applied m (ar_not_before p) with_not_before_raw in
    let? m := applied m (ar_request_id p) with_request_id in
    Ok (to_sign_string m "Solana")).

Definition NO_DAEMON : string := "wc_authRequest requires WalletConnect daemon internal authorization".

Definition daemon_token (r : Router) : result RpcFailure string :=
  match sign_auth_mode r with RequirePasskey => Err (Unauthorized, NO_DAEMON) | InternalToken token => Ok token end.

Definition handle_wc_auth_solana (r : Router) (method : string) (params : Value) (dapp_name dapp_origin : string)
    (p : AuthRequestParams) : Reply Value :=
  try* '(wallet_id, address) := default_wallet_for_chain (ar_chain_id p) in
  try* text := build_siwx_message address p in
  try* _ := cleared r method params dapp_name dapp_origin (ar_chain_id p) in
  try* token := pure (daemon_token r) in
  forwarded (SignSiwx {| req_wallet_id := wallet_id; req_chain_id := ar_chain_id p; req_message := text; req_auth := None;
                         req_agent_token := token |}) decode_sign_siwx
    (fun resp => wc_auth_json (res_signature resp) (keccak256 text) params).

(** The text to sign, and the hash that is reported. *)
Definition wc_auth_message (address : string) (p : AuthRequestParams) (params : Value) : Reply (string * bytes) :=
  match ar_type p with
  | Eip4361 =>
      let* now := if is_empty (ar_issued_at p) then call NowText else Done "" in
      pure (let? text := result_map_err (fun e => (Internal, "siwe build: " +:+ show_auth_error e)) (build_siwe_message now address p) in
            Ok (text, keccak256 text))
  | Eip191 =>
      let raw := default (ar_aud p +:+ String lf (ar_nonce p)) (str_param "message" params) in
      Done (Ok (raw, keccak256 (eip191_prefixed_message raw)))
  end.

Definition wc_auth_request (r : Router) (method : string) (params : Value) (dapp_name dapp_origin : string) : Reply Value :=
  try* p := pure (result_map_err (fun e => (Internal, "bad wc_authRequest params: " +:+ e)) (auth_params_from_json params)) in
  try* _ := pure (bad_auth show_auth_error (validate p)) in
  let chain_id := ar_chain_id p in
  let namespace := match parse_caip chain_id with Ok id => Some id.1 | Err _ => None end in
  if bool_decide (namespace = Some "solana") then handle_wc_auth_solana r method params dapp_name dapp_origin p
  else if negb (bool_decide (namespace = Some "eip155")) then
    Done (Err (UnsupportedMethod, "wc_authRequest not supported for non-EVM chain " +:+ chain_id))
  else
    try* '(wallet_id, address) := default_wallet_for_chain chain_id in
    try* '(message, hash) := wc_auth_message address p params in
    try* _ := cleared r method params dapp_name dapp_origin chain_id in
    try* token := pure (daemon_token r) in
    forwarded (SignAuth {| sa_wallet_id := wallet_id; sa_chain_id := chain_id; sa_message := message; sa_auth := None;
                           sa_agent_token := token |}) decode_sign_auth
      (fun resp => wc_auth_json (sa_signature resp) hash params).

(** *** The others *)

Definition sign_typed_data (r : Router) (method : string) (params : Value) (dapp_name dapp_origin : string) : Reply Value :=
  try* auth := pure (need_auth NO_PASSKEY params) in
  try* common := pure (extract_common_params params) in
  try* typed_data := pure (required "typed_data_json" params) in
  try* _ := cleared r method params dapp_name dapp_origin "" in
  forwarded (SignTypedData {| sd_session_key_id := default "" (cp_session_key_id common); sd_wallet_id := cp_wallet_id common;
                              sd_typed_data_json := typed_data; sd_auth := Some auth |}) decode_sign_typed_data typed_data_json.

Definition sign_user_op (r : Router) (method : string) (params : Value) (dapp_name dapp_origin : string) : Reply Value :=
  try* auth := pure (need_auth NO_PASSKEY params) in
  try* common := pure (extract_common_params params) in
  try* user_op_hex := pure (required "user_op_hex" params) in
  try* _ := cleared r method params dapp_name dapp_origin (cp_chain_id common) in
  forwarded (SignUserOp {| su_session_key_id := default "" (cp_session_key_id common); su_wallet_id := cp_wallet_id common;
                           su_chain_id := cp_chain_id common; su_user_op_hex := user_op_hex; su_auth := Some auth |})
    decode_sign_user_op user_op_json.

Definition generate_challenge (params : Value) : Reply Value :=
  try* credential_id := pure (required "credential_id" params) in
  forwarded (GenerateChallenge {| gc_credential_id := credential_id |}) decode_generate_challenge
    (fun resp => json_object [("challenge_hex", VString (hex_encode (gc_challenge resp)))]).

Definition get_balance (params : Value) : Reply Value :=
  pure (let? _ := extract_common_params params in
        Err (UnsupportedMethod, "onecipher_getBalance is not served over WalletConnect; use the local HTTP-RPC or CLI surface")).

(** *** Intents *)

Definition show_intent : IntentError -> string := show_intent_error show_rpc.

Definition intent_client (intent : Intent) (cfg : HotPathConfig) : Reply Client :=
  let* c := select_rpc_client (in_chain_id intent) cfg in
  Done (result_map_err (fun e => (Internal, "intent RPC unavailable: " +:+ show_intent e)) c).

Definition intent_simulate (params : Value) : Reply Value :=
  try* '(intent, cfg) := parse_intent_params params in
  try* c := intent_client intent cfg in
  let* summary := simulate_intent keccak256 parse_f64 fmt_2 first_chars intent c in
  try* summary := pure (result_map_err (fun e => (Internal, "intent simulate: " +:+ show_intent e)) summary) in
  pure (result_map_err (fun e => (Internal, "summary encode: " +:+ e)) (summary_to_json summary)).

(** The closure that signs: it blocks on the Key-Agent's answer. *)
Definition intent_signer (common : CommonParams) (auth : PasskeyAuthorization) (key_ref : string) (unsigned_tx : bytes)
  : Net (result IntentError bytes) :=
  let* may := call MayBlock in
  if negb may then Crash
  else
    let* sent := call (Send (SignTransaction {|
      st_session_key_id := default "" (cp_session_key_id common); st_wallet_id := cp_wallet_id common;
      st_chain_id := cp_chain_id common; st_raw_tx_hex := "0x" +:+ hex_encode unsigned_tx; st_auth := Some auth |})) in
    Done (
      let? resp := result_map_err (fun e => ExecutionFailed ("key-agent sign: " +:+ e)) sent in
      match kind resp with
      | Some (ROk b) =>
          let? signed := result_map_err (fun e => ExecutionFailed ("sign decode: " +:+ e)) (decode_sign_transaction b) in
          result_map_err (fun e => ExecutionFailed ("signed hex: " +:+ e)) (hex_decode (trim_0x (st_signed_tx_hex signed)))
      | Some (RDeny _) => Err (ExecutionFailed "policy denied")
      | Some (RError msg) => Err (ExecutionFailed ("signer: " +:+ msg))
      | None => Err (ExecutionFailed "empty key-agent response")
      end).

Definition intent_execute (r : Router) (method : string) (params : Value) (dapp_name dapp_origin : string) : Reply Value :=
  try* auth := pure (need_auth NO_PASSKEY params) in
  try* '(intent, cfg) := parse_intent_params params in
  try* common := pure (extract_common_params params) in
  try* from_address := pure (required "from_address" params) in
  try* _ := cleared r method params dapp_name dapp_origin (cp_chain_id common) in
  try* c := intent_client intent cfg in
  let* res := execute_intent keccak256 show_rpc intent c from_address (intent_signer common auth) in
  try* res := pure (result_map_err (fun e => (Internal, "intent execute: " +:+ show_intent e)) res) in
  pure (result_map_err (fun e => (Internal, "result encode: " +:+ e)) (result_to_json res)).

(** ** [WalletMethodHandler::handle] *)

Definition dispatch (r : Router) (method : string) (params : Value) (dapp_name dapp_origin : string) : Reply Value :=
  match route_of method with
  | Some RListWallets => list_wallets
  | Some RSignTransaction => sign_transaction r method params dapp_name dapp_origin
  | Some RSolanaSignMessage => solana_sign_message r method params dapp_name dapp_origin
  | Some RSignMessage => sign_message r method params dapp_name dapp_origin
  | Some RSignAuth => sign_auth r method params dapp_name dapp_origin
  | Some RSolanaSignIn => solana_sign_in r method params dapp_name dapp_origin
  | Some RAuthRequest => wc_auth_request r method params dapp_name dapp_origin
  | Some RSignTypedData => sign_typed_data r method params dapp_name dapp_origin
  | Some RSignUserOp => sign_user_op r method params dapp_name dapp_origin
  | Some RGenerateChallenge => generate_challenge params
  | Some RGetBalance => get_balance params
  | Some RIntentSimulate => intent_simulate params
  | Some RIntentExecute => intent_execute r method params dapp_name dapp_origin
  | None => Done (Err (UnsupportedMethod, "unknown method: " +:+ method))
  end.

Definition handle (r : Router) (method : string) (params : Value) (session_topic : string) (dapp_name dapp_origin : option string)
  : Reply Value :=
  let* '(name, origin) := resolve_dapp_metadata r session_topic (default "" dapp_name) (default "" dapp_origin) in
  dispatch r method params name origin.
End Router.
