(* ===== verification/RouterSafety.v ===== *)
(** * What the router lets through

    Over every sequence of answers of the world: what was asked, and what was answered, when
    a signing request reaches the Key-Agent, and what the router's own answer is. *)

From Stdlib Require Import ZArith Lia String Bool.
From stdpp Require Import base list strings gmap.
From S2P Require Import Prelude F64 Str Decimal Json Bytes PolicyV2 AuditChain Rlp Frame Passkey Proto Chain SiwxMessage SiwxParse WcAuth Approvals Sim Net Intent Router.

Local Open Scope oc_scope.
Local Open Scope Z_scope.
Local Open Scope net_scope.

(** ** Requests *)

Definition signs (k : KeyAgentRequestKind) : bool :=
  match k with
  | SignTransaction _ | SignUserOp _ | SignMessage _ | SignTypedData _ | SignAuth _ | SignSiwx _ => true
  | _ => false
  end.

Definition proof_of (k : KeyAgentRequestKind) : option PasskeyAuthorization :=
  match k with
  | SignTransaction q => st_auth q | SignUserOp q => su_auth q | SignMessage q => sm_auth q | SignTypedData q => sd_auth q
  | SignAuth q => sa_auth q | SignSiwx q => req_auth q | _ => None
  end.

Definition token_of (k : KeyAgentRequestKind) : option string :=
  match k with SignAuth q => Some (sa_agent_token q) | SignSiwx q => Some (req_agent_token q) | _ => None end.

Definition wallet_of (k : KeyAgentRequestKind) : string :=
  match k with
  | SignTransaction q => st_wallet_id q | SignUserOp q => su_wallet_id q | SignMessage q => sm_wallet_id q
  | SignTypedData q => sd_wallet_id q | SignAuth q => sa_wallet_id q | SignSiwx q => req_wallet_id q | _ => ""
  end.

(** The chain a request names, and what is to be signed. *)
Definition chain_of (k : KeyAgentRequestKind) : option string :=
  match k with
  | SignTransaction q => Some (st_chain_id q) | SignUserOp q => Some (su_chain_id q) | SignAuth q => Some (sa_chain_id q)
  | SignSiwx q => Some (req_chain_id q) | _ => None
  end.

Definition content (k : KeyAgentRequestKind) : string :=
  match k with
  | SignTransaction q => st_raw_tx_hex q | SignUserOp q => su_user_op_hex q | SignMessage q => sm_message q
  | SignTypedData q => sd_typed_data_json q | SignAuth q => sa_message q | SignSiwx q => req_message q | _ => ""
  end.

(** The parameter that holds what is to be signed; the other methods compute it. *)
Definition content_key (route : Route) : option string :=
  match route with
  | RSignTransaction => Some "raw_tx_hex"
  | RSolanaSignMessage | RSignMessage | RSignAuth | RSolanaSignIn => Some "message"
  | RSignTypedData => Some "typed_data_json"
  | RSignUserOp => Some "user_op_hex"
  | _ => None
  end.

Section Safety.
Context {S : SerdeNumber} {Ext : External} {C : Caip} {L : Lowercase} {D : DynAbi} {H : HexCodec} {W : Unwire} {J : ParamsJson}.
Context (keccak256 : string -> bytes) (json_text : Value -> string) (selectors : SelectorMap).
Context (debug_str : string -> string) (show_rpc : RpcError -> string).
Context (parse_f64 : string -> option f64) (fmt_2 : f64 -> string) (first_chars : nat -> string -> option string).

Abbreviation Net A := (Prog Instant A).
Abbreviation Call := (@Did S Instant).

(** ** What the calls have shown *)

(** The readings of the clock; the last reading of the approval switch and, since then, the
    card that was taken and the decision on it; the signing requests sent, and the last of
    them that was answered with a payload. *)
Record Seen := {
  clocks : list Z;
  mode : option bool;
  card : option PendingApproval;
  decision : option ApprovalDecision;
  signed : list KeyAgentRequestKind;
  replied : option (KeyAgentRequestKind * bytes)
}.

Definition nothing : Seen := {| clocks := []; mode := None; card := None; decision := None; signed := []; replied := None |}.

Definition saw_clock (s : Seen) (now : option Z) : Seen :=
  {| clocks := option_list now ++ clocks s; mode := mode s; card := card s; decision := decision s; signed := signed s;
     replied := replied s |}.
Definition saw_mode (s : Seen) (m : bool) : Seen :=
  {| clocks := clocks s; mode := Some m; card := None; decision := None; signed := signed s; replied := replied s |}.
Definition saw_card (s : Seen) (a : PendingApproval) (taken : bool) : Seen :=
  {| clocks := clocks s; mode := mode s; card := if taken then Some a else None; decision := None; signed := signed s;
     replied := replied s |}.
Definition saw_decision (s : Seen) (w : WaitEnd) : Seen :=
  {| clocks := clocks s; mode := mode s; card := card s;
     decision := match w with Answered d => Some d | SenderGone | Elapsed => None end; signed := signed s; replied := replied s |}.
Definition saw_sent (s : Seen) (k : KeyAgentRequestKind) (r : result string KeyAgentResponse) : Seen :=
  if signs k then
    {| clocks := clocks s; mode := mode s; card := card s; decision := decision s; signed := signed s ++ [k];
       replied := match r with Ok resp => match kind resp with Some (ROk b) => Some (k, b) | _ => None end | Err _ => None end |}
  else s.

Definition note (s : Seen) (d : Call) : Seen :=
  match d with
  | @did _ _ B e b =>
      match e in Ev _ B return B -> Seen with
      | Now => saw_clock s
      | ApprovalMode => saw_mode s
      | Submit a => saw_card s a
      | AwaitAnswer _ => saw_decision s
      | Send k => saw_sent s k
      | _ => fun _ => s
      end b
  end.

Definition seen (tr : list Call) : Seen := fold_left note tr nothing.

(** ** When a signing request may be sent *)

(** The policy, if there is one, has the chain on its list, or no list or no chain to look
    for, and was not over at a reading of the clock. *)
Definition policy_allows (r : Router) (chain_id : string) (s : Seen) : Prop :=
  match rt_policy r with
  | None => True
  | Some p =>
      (chain_whitelist (rules p) = [] \/ chain_id = "" \/ In chain_id (chain_whitelist (rules p))) /\
      exists now, In now (clocks s) /\ now <= expiry_unix (rules p)
  end.

(** The switch was off when it was last read, or the user approved a card that shows this
    very method, with its parameters and its chain. *)
Definition user_allows (r : Router) (method : string) (params : Value) (chain_id : string) (s : Seen) : Prop :=
  mode s = Some false \/
  mode s = Some true /\ has_approval r = true /\ decision s = Some Approve /\
    exists a, card s = Some a /\ pa_method a = method /\ pa_params a = params /\ pa_chain_id a = chain_id.

(** The chain that the policy and the user see. *)
Definition checked_chain (method : string) (params : Value) : option string :=
  match route_of method with
  | Some (RSignTransaction | RSignUserOp | RSignAuth | RSolanaSignIn | RIntentExecute) => str_param "chain_id" params
  | Some RSolanaSignMessage => Some (default "solana:mainnet" (str_param "chain_id" params))
  | Some (RSignMessage | RSignTypedData) => Some ""
  | Some RAuthRequest => match auth_params_from_json params with Ok p => Some (ar_chain_id p) | Err _ => None end
  | _ => None
  end.

(** The proof of the request: a passkey's from the parameters, or, where the daemon's token
    stands for it, the token and no passkey. *)
Definition carries_authority (r : Router) (params : Value) (k : KeyAgentRequestKind) : Prop :=
  let passkey := exists a, proof_of k = Some a /\ extract_passkey_auth params = Ok (Some a) in
  match token_of k, sign_auth_mode r with
  | Some token, InternalToken t => token = t /\ proof_of k = None
  | Some token, RequirePasskey => token = "" /\ passkey
  | None, _ => passkey
  end.

(** The transaction of an intent. *)
Definition intent_bytes (intent : IntentKind) (chain_id : string) (tx : bytes) : Prop :=
  match intent with
  | SignTx tx_hex _ => hex_decode (trim_0x tx_hex) = Ok tx
  | SignMsg _ _ => False
  | Pay _ _ _ | CrossChainTransfer _ _ _ _ _ => exists num cd gas gas_price nonce,
      parse_chain_id chain_id = Ok num /\ build_call_data keccak256 intent chain_id = Ok cd /\
      build_unsigned_eip1559_tx show_rpc num (cd_to cd) (cd_value cd) (cd_data cd) gas gas_price nonce = Ok tx
  end.

Record built (method : string) (params : Value) (k : KeyAgentRequestKind) : Prop := {
  built_content route key : route_of method = Some route -> content_key route = Some key -> str_param key params = Some (content k);
  built_chain c : chain_of k = Some c -> checked_chain method params = Some c;
  built_wallet w : route_of method <> Some RAuthRequest -> str_param "wallet_id" params = Some w -> wallet_of k = w;
  built_intent : route_of method = Some RIntentExecute ->
    exists kind_value intent chain_id tx, value_get "kind" params = Some kind_value /\ intent_kind_from_json kind_value = Ok intent /\
      chain_of k = Some chain_id /\ intent_bytes intent chain_id tx /\ content k = "0x" +:+ hex_encode tx
}.

Record may_sign (r : Router) (method : string) (params : Value) (s : Seen) (k : KeyAgentRequestKind) : Prop := {
  first_signature : signed s = [];
  allowed : exists chain_id, checked_chain method params = Some chain_id /\ policy_allows r chain_id s /\
              user_allows r method params chain_id s;
  proven : carries_authority r params k;
  as_asked : built method params k
}.

(** ** What the answer says *)

(** The answer renders the Key-Agent's response to the request [k]. *)
Definition renders (method : string) (params : Value) (k : KeyAgentRequestKind) (payload : bytes) (v : Value) : Prop :=
  match k with
  | SignTransaction _ => exists resp, decode_sign_transaction payload = Ok resp /\ v = transaction_json resp
  | SignUserOp _ => exists resp, decode_sign_user_op payload = Ok resp /\ v = user_op_json resp
  | SignMessage _ => exists resp, decode_sign_message payload = Ok resp /\ v = message_json resp
  | SignTypedData _ => exists resp, decode_sign_typed_data payload = Ok resp /\ v = typed_data_json resp
  | SignAuth q => exists resp, decode_sign_auth payload = Ok resp /\
      match route_of method with
      | Some RSolanaSignMessage => v = solana_message_json resp
      | Some RAuthRequest => exists hash, v = wc_auth_json (sa_signature resp) hash params /\
          (hash = keccak256 (sa_message q) \/ hash = keccak256 (eip191_prefixed_message (sa_message q)))
      | _ => v = auth_json resp
      end
  | SignSiwx q => exists resp, decode_sign_siwx payload = Ok resp /\
      match route_of method with
      | Some RAuthRequest => v = wc_auth_json (res_signature resp) (keccak256 (req_message q)) params
      | _ => v = siwx_json resp
      end
  | _ => False
  end.

(** The methods that answer with a signature; an executed intent answers with a receipt. *)
Definition answers_signature (method : string) : bool :=
  match route_of method with
  | Some (RSignTransaction | RSolanaSignMessage | RSignMessage | RSignAuth | RSolanaSignIn | RAuthRequest | RSignTypedData | RSignUserOp) =>
      true
  | _ => false
  end.

Definition relays (method : string) (params : Value) (s : Seen) (res : result RpcFailure Value) : Prop :=
  forall v, res = Ok v -> answers_signature method = true ->
  exists k payload, signed s = [k] /\ replied s = Some (k, payload) /\ renders method params k payload v.

(** ** The handlers, step by step *)

Section Steps.
Context (r : Router) (method : string) (params : Value).

Definition guard (s : Seen) (B : Type) (e : Ev Instant B) : Prop :=
  match e with Send k => signs k = true -> may_sign r method params s k | _ => True end.

Abbreviation ok := (wp note guard).

(** What a step keeps: the signatures; and of a calm one also the switch and the card. *)
Definition later (s s' : Seen) : Prop := signed s' = signed s /\ replied s' = replied s /\ clocks s ⊆ clocks s'.
Definition calm (s s' : Seen) : Prop := later s s' /\ mode s' = mode s /\ card s' = card s /\ decision s' = decision s.

#[local] Instance later_preorder : PreOrder later.
Proof.
  split; [by intros s; repeat split|]. intros s1 s2 s3 (H1 & H2 & H3) (H4 & H5 & H6). repeat split; [congruence..|by etransitivity].
Qed.

#[local] Instance calm_preorder : PreOrder calm.
Proof.
  split; [by intros s; repeat split|]. intros s1 s2 s3 (H1 & H2 & H3 & H4) (H5 & H6 & H7 & H8). split; [by etransitivity|]. repeat split; congruence.
Qed.

Lemma policy_later s s' chain : later s s' -> policy_allows r chain s -> policy_allows r chain s'.
Proof.
  unfold policy_allows. destruct (rt_policy r); [|done]. intros (_ & _ & Hc) (Hl & now & Hn & Ht). split; [done|].
  exists now. split; [|done]. apply list_elem_of_In. apply Hc. by apply list_elem_of_In.
Qed.

Lemma user_calm s s' chain : calm s s' -> user_allows r method params chain s -> user_allows r method params chain s'.
Proof. by intros (_ & Hm & Hc & Hd); unfold user_allows; rewrite Hm, Hc, Hd. Qed.

Lemma wp_now s Q : (forall s' res, calm s s' -> (forall now, res = Ok now -> In now (clocks s')) -> Q s' res) -> ok s now_unix_secs Q.
Proof.
  intros HQ. cbn. split; [done|]. intros now. apply HQ; [|by destruct now; intros ? [= ->]; left].
  repeat split; try done. cbn. set_solver.
Qed.

Lemma wp_policy chain s Q :
  (forall s' res, calm s s' -> (forall x, res = Ok x -> policy_allows r chain s') -> Q s' res) ->
  ok s (policy_evaluate_signing r params chain) Q.
Proof.
  intros HQ. unfold policy_evaluate_signing, policy_allows in *. destruct (rt_policy r) as [p|]; [|by apply HQ].
  assert (Hc : forall l, chain_reasons p chain = Ok l ->
    chain_whitelist (rules p) = [] \/ chain = "" \/ In chain (chain_whitelist (rules p))).
  { unfold chain_reasons. destruct (chain_whitelist (rules p)) as [|c cs] eqn:Hw; [by left|]. cbn [is_nil].
    destruct chain; [by right; left|]. cbn [is_empty].
    destruct (existsb _ _) eqn:He; [|done]. intros _ _. right; right. apply existsb_exists in He as (x & Hx & Heq).
    by apply String.eqb_eq in Heq as <-. }
  destruct (chain_reasons p chain) as [l|e]; [|by apply HQ]. apply wp_bind_ok. cbn [wp pure]. apply wp_bind_ok, wp_now.
  intros s' [now|e] Hs Hn; [|by apply HQ]. destruct (Z.ltb_spec (expiry_unix (rules p)) now); apply HQ; try done.
  intros x _. split; [by eapply Hc|]. exists now. split; [by apply Hn|lia].
Qed.

Lemma wp_when (b : bool) (p : Net unit) s Q :
  (forall s' x, calm s s' -> Q s' x) -> (forall Q', (forall s' x, calm s s' -> Q' s' x) -> ok s p Q') -> ok s (when b p) Q.
Proof. intros HQ Hp. destruct b; [by apply Hp|by apply HQ]. Qed.

Lemma wp_log_resolution id d s Q : (forall s' x, calm s s' -> Q s' x) -> ok s (log_resolution id d) Q.
Proof. intros HQ. by destruct d; cbn; (split; [done|]); intros []; apply HQ. Qed.

(** What the user's wait ends with is the decision on the card that was taken. *)
Lemma wp_request a timeout s Q :
  (forall s' d, later s s' -> mode s' = mode s -> (d = Approve -> card s' = Some a /\ decision s' = Some Approve) -> Q s' d) ->
  ok s (request a timeout) Q.
Proof.
  intros HQ. cbn. split; [done|]. intros [|]; cbn; [|by apply HQ]. split; [done|].
  intros [d| |]; apply HQ; try done. by intros ->.
Qed.

Lemma wp_gate name origin chain risk reasons simulation s Q :
  (forall s' res, later s s' -> (forall x, res = Ok x -> user_allows r method params chain s') -> Q s' res) ->
  ok s (maybe_gate_approval r method params name origin chain risk reasons simulation) Q.
Proof.
  intros HQ. unfold maybe_gate_approval. apply wp_bind. cbn [wp call note guard]. split; [done|]. intros m.
  assert (Hl : later s (saw_mode s m)) by done. destruct m; cbn [negb]; [|apply HQ; [done|by intros; left]].
  destruct (has_approval r) eqn:Ha; [|by apply HQ]. cbn [negb]. apply wp_bind_ok, wp_now.
  intros s1 [now|e] (Hl1 & Hm1 & _) _; [|by apply HQ; [etransitivity|]]. apply wp_bind. cbn [wp call note guard]. split; [done|]. intros id.
  apply wp_bind, wp_when; [|intros Q' HQ'; cbn; split; [done|]; intros []; by apply HQ'].
  intros s2 _ (Hl2 & Hm2 & _). apply wp_bind, wp_request. intros s3 d Hl3 Hm3 Hd.
  assert (Hend : forall s4, calm s3 s4 -> Q s4 (match d with
    | Approve => Ok true | Reject reason => Err (UserRejected, "user rejected: " +:+ reason) | Timeout => Err (UserRejected, "approval timeout") end)).
  { intros s4 Hc. apply HQ; [by do 3 (etransitivity; [eassumption|]); apply Hc|]. intros x Hx.
    apply (user_calm s3); [done|]. destruct d; try done. destruct (Hd eq_refl) as [Hcard Hdec].
    right. split_and!; [by rewrite Hm3, Hm2, Hm1|done|done|]. eexists. by split_and!. }
  apply wp_bind, wp_when; [by intros s4 _; apply Hend|].
  intros Q' HQ'. by apply wp_log_resolution.
Qed.

Lemma wp_cleared name origin chain s Q :
  (forall s' res, later s s' -> (forall x, res = Ok x -> policy_allows r chain s' /\ user_allows r method params chain s') -> Q s' res) ->
  ok s (cleared r method params name origin chain) Q.
Proof.
  intros HQ. apply wp_bind_ok, wp_policy. intros s1 [[risk reasons]|e] Hc Hp; [|by apply HQ; [apply Hc|]].
  apply wp_gate. intros s2 res Hl Hu. apply HQ; [by etransitivity; [apply Hc|]|]. intros x Hx. split; [|by eapply Hu].
  eapply policy_later; [done|]. by eapply Hp.
Qed.

Lemma wp_danger risk reasons s Q : (forall s' res, later s s' -> Q s' res) -> ok s (maybe_block_on_danger r risk reasons) Q.
Proof.
  intros HQ. unfold maybe_block_on_danger. destruct (block_on_danger_simulation r); [|by apply HQ]. cbn. split; [done|].
  intros m. by destruct (m && has_approval r); apply HQ.
Qed.

Lemma wp_forward k s Q : signs k = false -> (forall res, Q s res) -> ok s (forward k) Q.
Proof.
  intros Hk HQ. cbn. split; [by rewrite Hk|]. intros b. unfold saw_sent. rewrite Hk. apply HQ.
Qed.

Lemma wp_default_wallet chain s Q : (forall res, Q s res) -> ok s (default_wallet_for_chain chain) Q.
Proof.
  intros HQ. unfold default_wallet_for_chain. destruct (is_empty chain); [apply HQ|].
  apply wp_bind_ok, wp_forward; [done|]. intros [b|e]; apply HQ.
Qed.

Lemma wp_wallet chain s Q :
  (forall res, (forall w w', res = Ok w -> str_param "wallet_id" params = Some w' -> w = w') -> Q s res) ->
  ok s (wallet_or_default params chain) Q.
Proof.
  intros HQ. unfold wallet_or_default. destruct (str_param "wallet_id" params) as [w|]; [by apply HQ; intros ? ? [= <-] [= <-]|].
  apply wp_bind_ok, wp_default_wallet. intros [[w a]|e]; by apply HQ.
Qed.

(** The last step of a method that signs. *)
Lemma wp_signed {A} k (decode : bytes -> result string A) json s :
  may_sign r method params s k -> signs k = true ->
  (forall payload resp, decode payload = Ok resp -> renders method params k payload (json resp)) ->
  ok s (forwarded k decode json) (relays method params).
Proof.
  intros Hm Hk Hr. apply wp_bind_ok. cbn. split; [by intros|]. intros b. unfold saw_sent. rewrite Hk.
  destruct b as [resp|]; [|by intros v]. destruct (kind resp) as [[b|d|m]|]; try (by intros v). cbn.
  destruct (decode b) as [x|] eqn:Hd; [|by intros v]. intros v [= <-] _. exists k, b. split_and!; [|done|by apply Hr].
  cbn. by rewrite (first_signature _ _ _ _ _ Hm).
Qed.

Lemma wp_other {A} k (decode : bytes -> result string A) json s : signs k = false -> answers_signature method = false ->
  ok s (forwarded k decode json) (relays method params).
Proof. intros Hk Hn. apply wp_bind_ok, wp_forward; [done|]. intros [b|e]; [|by intros v]. intros v _. by rewrite Hn. Qed.

(** ** The methods *)

Lemma required_param key x : required key params = Ok x -> str_param key params = Some x.
Proof. unfold required. by destruct (str_param key params); intros [= ->]. Qed.

Lemma need_auth_some message a : need_auth message params = Ok a -> extract_passkey_auth params = Ok (Some a).
Proof. unfold need_auth. by destruct (extract_passkey_auth params) as [[]|]; intros [= ->]. Qed.

Lemma common_params c : extract_common_params params = Ok c ->
  str_param "wallet_id" params = Some (cp_wallet_id c) /\ str_param "chain_id" params = Some (cp_chain_id c).
Proof.
  unfold extract_common_params. destruct (required "wallet_id" params) as [w|] eqn:Hw; [|done].
  destruct (required "chain_id" params) as [ch|] eqn:Hc; [|done]. intros [= <-]. by split; apply required_param.
Qed.

Lemma mode_authority message auth k : auth_of_mode r message params = Ok auth -> proof_of k = auth ->
  token_of k = Some (token_of_mode r) -> carries_authority r params k.
Proof.
  unfold auth_of_mode, token_of_mode, carries_authority. intros Ha Hk ->. rewrite Hk. destruct (sign_auth_mode r); [|by injection Ha as <-].
  destruct (need_auth message params) as [a|] eqn:Hn; [|done]. injection Ha as <-. split; [done|]. exists a.
  split; [done|]. by eapply need_auth_some.
Qed.

Lemma daemon_authority token k : daemon_token r = Ok token -> proof_of k = None -> token_of k = Some token ->
  carries_authority r params k.
Proof. unfold daemon_token, carries_authority. intros Hd Hk ->. destruct (sign_auth_mode r); [done|]. by injection Hd as ->. Qed.

Lemma wp_simulated chain raw s Q : (forall x, Q s x) -> ok s (simulated json_text selectors chain raw) Q.
Proof.
  intros HQ. unfold simulated. destruct (parse_caip chain) as [id|]; [|apply HQ]. destruct (is_evm id); [|apply HQ].
  cbn. split; [done|]. intros e. apply HQ.
Qed.

(** A parameter that is not there, or not what it should be, ends the method. *)
Ltac param x :=
  match goal with |- wp _ _ _ (bind_ok (pure ?e) _) _ =>
    let E := fresh "Hparam" in destruct e as [x|] eqn:E; apply wp_bind_ok; cbn [wp pure]; [|by intros ?] end.

Ltac chains := unfold checked_chain; match goal with Hr : route_of method = _ |- _ => rewrite Hr end.

Lemma built_of route k chain : route_of method = Some route -> route <> RIntentExecute ->
  checked_chain method params = Some chain -> chain_of k = Some chain \/ chain_of k = None ->
  (forall key, content_key route = Some key -> str_param key params = Some (content k)) ->
  (route <> RAuthRequest -> forall w, str_param "wallet_id" params = Some w -> wallet_of k = w) -> built method params k.
Proof.
  intros Hr Hi Hc Hk Ht Hw. split; rewrite ?Hr.
  - intros route' key [= <-]. apply Ht.
  - destruct Hk as [-> | ->]; [|done]. by intros c [= <-].
  - intros w Hn. apply Hw. congruence.
  - congruence.
Qed.

(** What remains of [may_sign] when the policy and the user have let the request pass. *)
Lemma pass s s' chain k : signed s = [] -> later s s' -> checked_chain method params = Some chain ->
  policy_allows r chain s' /\ user_allows r method params chain s' -> carries_authority r params k -> built method params k ->
  may_sign r method params s' k.
Proof. intros Hs (Hl & _) Hc [Hp Hu] Ha Hb. split; [congruence| |done|done]. by exists chain. Qed.

Lemma sign_transaction_ok name origin s : route_of method = Some RSignTransaction -> signed s = [] ->
  ok s (sign_transaction json_text selectors r method params name origin) (relays method params).
Proof.
  intros Hr Hs. unfold sign_transaction. param auth. param common. param raw. apply common_params in Hparam0 as [Hw Hc].
  apply wp_bind_ok, wp_policy. intros s1 [[risk reasons]|] [Hl1 _] Hp; [|by intros ?]. apply wp_bind, wp_simulated.
  intros [[simulation sim_risk] sim_reasons]. apply wp_bind_ok, wp_danger. intros s2 [[]|] Hl2; [|by intros ?].
  apply wp_bind_ok, wp_gate. intros s3 [x|] Hl3 Hu; [|by intros ?].
  assert (Hchain : checked_chain method params = Some (cp_chain_id common)) by (by chains).
  apply wp_signed; [|done|by intros payload resp Hd; exists resp].
  eapply (pass s); [done|by do 2 (etransitivity; [eassumption|])|done| | |].
  - split; [|by eapply Hu]. eapply (policy_later s1); [by etransitivity|by eapply Hp].
  - exists auth. split; [done|]. by eapply need_auth_some.
  - eapply (built_of RSignTransaction); [done..|by left| |cbn; congruence]. intros key [= <-]. by apply required_param.
Qed.

Ltac clear_with chain Hcl :=
  apply wp_bind_ok, (wp_cleared _ _ chain); intros s' [x|] Hlater Hcl; [specialize (Hcl x eq_refl)|by intros ?].

Lemma sign_message_ok name origin s : route_of method = Some RSignMessage -> signed s = [] ->
  ok s (sign_message r method params name origin) (relays method params).
Proof.
  intros Hr Hs. unfold sign_message. param auth. param common. param message. apply common_params in Hparam0 as [Hw _].
  clear_with "" Hcl. assert (Hchain : checked_chain method params = Some "") by (by chains).
  apply wp_signed; [|done|by intros payload resp Hd; exists resp]. eapply (pass s); [done..| |].
  - exists auth. split; [done|]. by eapply need_auth_some.
  - eapply (built_of RSignMessage); [done..|by right| |cbn; congruence]. intros key [= <-]. by apply required_param.
Qed.

Lemma sign_typed_data_ok name origin s : route_of method = Some RSignTypedData -> signed s = [] ->
  ok s (sign_typed_data r method params name origin) (relays method params).
Proof.
  intros Hr Hs. unfold sign_typed_data. param auth. param common. param data. apply common_params in Hparam0 as [Hw _].
  clear_with "" Hcl. assert (Hchain : checked_chain method params = Some "") by (by chains).
  apply wp_signed; [|done|by intros payload resp Hd; exists resp]. eapply (pass s); [done..| |].
  - exists auth. split; [done|]. by eapply need_auth_some.
  - eapply (built_of RSignTypedData); [done..|by right| |cbn; congruence]. intros key [= <-]. by apply required_param.
Qed.

Lemma sign_user_op_ok name origin s : route_of method = Some RSignUserOp -> signed s = [] ->
  ok s (sign_user_op r method params name origin) (relays method params).
Proof.
  intros Hr Hs. unfold sign_user_op. param auth. param common. param op. apply common_params in Hparam0 as [Hw Hc].
  clear_with (cp_chain_id common) Hcl. assert (Hchain : checked_chain method params = Some (cp_chain_id common)) by (by chains).
  apply wp_signed; [|done|by intros payload resp Hd; exists resp]. eapply (pass s); [done..| |].
  - exists auth. split; [done|]. by eapply need_auth_some.
  - eapply (built_of RSignUserOp); [done..|by left| |cbn; congruence]. intros key [= <-]. by apply required_param.
Qed.

Lemma solana_sign_message_ok name origin s : route_of method = Some RSolanaSignMessage -> signed s = [] ->
  ok s (solana_sign_message r method params name origin) (relays method params).
Proof.
  intros Hr Hs. unfold solana_sign_message. set (chain := default _ _). apply wp_bind_ok, wp_wallet. intros [wallet|] Hw; [|by intros ?].
  param message. clear_with chain Hcl. param auth. assert (Hchain : checked_chain method params = Some chain) by (by chains).
  apply wp_signed; [|done|by intros payload resp Hd; exists resp; rewrite Hr]. eapply (pass s); [done..| |].
  - by eapply mode_authority.
  - eapply (built_of RSolanaSignMessage); [done..|by left| |by intros _ w; apply Hw]. intros key [= <-]. by apply required_param.
Qed.

Lemma sign_auth_ok name origin s : route_of method = Some RSignAuth -> signed s = [] ->
  ok s (sign_auth r method params name origin) (relays method params).
Proof.
  intros Hr Hs. unfold sign_auth. param chain. apply wp_bind_ok, wp_wallet. intros [wallet|] Hw; [|by intros ?].
  param message. param auth. clear_with chain Hcl.
  assert (Hchain : checked_chain method params = Some chain) by (chains; by apply required_param).
  apply wp_signed; [|done|by intros payload resp Hd; exists resp; rewrite Hr]. eapply (pass s); [done..| |].
  - by eapply mode_authority.
  - eapply (built_of RSignAuth); [done..|by left| |by intros _ w; apply Hw]. intros key [= <-]. by apply required_param.
Qed.

Lemma solana_sign_in_ok name origin s : route_of method = Some RSolanaSignIn -> signed s = [] ->
  ok s (solana_sign_in debug_str r method params name origin) (relays method params).
Proof.
  intros Hr Hs. unfold solana_sign_in. param chain. param message. param msg. apply wp_bind_ok, wp_wallet.
  intros [wallet|] Hw; [|by intros ?]. clear_with chain Hcl. param auth.
  assert (Hchain : checked_chain method params = Some chain) by (chains; by apply required_param).
  apply wp_signed; [|done|by intros payload resp Hd; exists resp; rewrite Hr]. eapply (pass s); [done..| |].
  - by eapply mode_authority.
  - eapply (built_of RSolanaSignIn); [done..|by left| |by intros _ w; apply Hw]. intros key [= <-]. by apply required_param.
Qed.

Lemma wp_siwx_text address p s Q : (forall res, Q s res) -> ok s (build_siwx_message debug_str address p) Q.
Proof.
  intros HQ. unfold build_siwx_message. destruct (bad_auth _ _); apply wp_bind_ok; cbn [wp pure]; [|apply HQ].
  cbn. split; [done|]. intros now. apply HQ.
Qed.

Lemma wp_auth_text address p s Q :
  (forall res, (forall m h, res = Ok (m, h) -> h = keccak256 m \/ h = keccak256 (eip191_prefixed_message m)) -> Q s res) ->
  ok s (wc_auth_message keccak256 address p params) Q.
Proof.
  intros HQ. unfold wc_auth_message. destruct (ar_type p); [|by apply HQ; intros m h [= <- <-]; right].
  assert (Hend : forall now, Q s (let? text := result_map_err (fun e => (Internal, "siwe build: " +:+ show_auth_error e))
    (build_siwe_message now address p) in Ok (text, keccak256 text))).
  { intros now. apply HQ. intros m h. destruct (build_siwe_message now address p); [|done]. intros [= <- <-]. by left. }
  destruct (is_empty (ar_issued_at p)); [|apply Hend]. cbn. split; [done|]. intros now. apply Hend.
Qed.

Lemma wc_auth_solana_ok name origin p s : route_of method = Some RAuthRequest -> auth_params_from_json params = Ok p -> signed s = [] ->
  ok s (handle_wc_auth_solana keccak256 debug_str r method params name origin p) (relays method params).
Proof.
  intros Hr Hj Hs. unfold handle_wc_auth_solana. apply wp_bind_ok, wp_default_wallet. intros [[wallet address]|]; [|by intros ?].
  apply wp_bind_ok, wp_siwx_text. intros [text|]; [|by intros ?]. clear_with (ar_chain_id p) Hcl. param tok.
  assert (Hchain : checked_chain method params = Some (ar_chain_id p)) by (chains; by rewrite Hj).
  apply wp_signed; [|done|by intros payload resp Hd; exists resp; rewrite Hr]. eapply (pass s); [done..| |].
  - by eapply daemon_authority.
  - by eapply (built_of RAuthRequest); [done..|by left|done|].
Qed.

Lemma wc_auth_request_ok name origin s : route_of method = Some RAuthRequest -> signed s = [] ->
  ok s (wc_auth_request keccak256 debug_str r method params name origin) (relays method params).
Proof.
  intros Hr Hs. unfold wc_auth_request. param p. param valid.
  assert (Hj : auth_params_from_json params = Ok p) by (by destruct (auth_params_from_json params); [injection Hparam as ->|]).
  destruct (bool_decide _); [by apply wc_auth_solana_ok|]. destruct (negb _); [by intros ?|].
  apply wp_bind_ok, wp_default_wallet. intros [[wallet address]|]; [|by intros ?].
  apply wp_bind_ok, wp_auth_text. intros [[message hash]|] Hh; [|by intros ?]. clear_with (ar_chain_id p) Hcl. param tok.
  assert (Hchain : checked_chain method params = Some (ar_chain_id p)) by (chains; by rewrite Hj).
  apply wp_signed; [|done|]; [eapply (pass s); [done..| |]|].
  - by eapply daemon_authority.
  - by eapply (built_of RAuthRequest); [done..|by left|done|].
  - intros payload resp Hd. exists resp. rewrite Hr. split; [done|]. exists hash. split; [done|]. by apply Hh.
Qed.

(** ** Intents *)

Lemma wp_intent_params s Q :
  (forall s' res, calm s s' -> (forall intent cfg, res = Ok (intent, cfg) -> str_param "chain_id" params = Some (in_chain_id intent) /\
     exists kind_value, value_get "kind" params = Some kind_value /\ intent_kind_from_json kind_value = Ok (in_kind intent)) -> Q s' res) ->
  ok s (parse_intent_params params) Q.
Proof.
  intros HQ. unfold parse_intent_params.
  destruct (required "chain_id" params) as [chain|] eqn:Hc; apply wp_bind_ok; cbn [wp pure]; [|by apply HQ].
  destruct (required "session_key_id" params) as [sk|]; apply wp_bind_ok; cbn [wp pure]; [|by apply HQ].
  destruct (value_get "kind" params) as [kv|]; apply wp_bind_ok; cbn [wp pure ok_or]; [|by apply HQ].
  destruct (intent_kind_from_json kv) as [kd|] eqn:Hk; apply wp_bind_ok; cbn [wp pure result_map_err]; [|by apply HQ].
  cbn. split; [done|]. intros now. split; [done|]. intros id. apply HQ.
  - repeat split; try done. cbn. set_solver.
  - intros intent cfg [= <- <-]. split; [by apply required_param|]. by exists kv.
Qed.

Lemma wp_client intent cfg s Q :
  (forall res, (forall c, res = Ok c -> client_chain c = in_chain_id intent) -> Q s res) -> ok s (intent_client show_rpc intent cfg) Q.
Proof.
  intros HQ. unfold intent_client, select_rpc_client, effective_rpc_url.
  assert (Hurl : forall url, ok s (match url with
    | Some url => let* x := call (NewClient (in_chain_id intent) url) in
        Done (match x with Ok _ => Ok {| client_chain := in_chain_id intent; client_url := url |} | Err e => Err (IntentRpc (RpcTransport e)) end)
    | None => if allow_mock cfg then Done (Ok {| client_chain := in_chain_id intent; client_url := "" |})
              else Done (Err (InvalidInput ("no RPC endpoint configured (pass rpc_url or set OC_RPC_URL); " +:+
                                            "refusing to simulate/execute against a mock on the hot path"))) end)
    (fun s' c => Q s' (result_map_err (fun e => (Internal, "intent RPC unavailable: " +:+ show_intent show_rpc e)) c))).
  { intros [url|]; [cbn; split; [done|]; intros [?|]|destruct (allow_mock cfg)]; apply HQ; try done; by intros c [= <-]. }
  apply wp_bind. cbn [bind]. destruct (rpc_url cfg) as [url|]; cbn [bind]; [apply (Hurl (Some url))|].
  cbn [bind call wp note guard]. split; [done|]. intros v. apply Hurl.
Qed.

Lemma wp_rpc {A} (e : Ev Instant (result RpcError A)) s Q : (forall b, note s (did e b) = s) -> guard s _ e ->
  (forall res, Q s res) -> ok s (rpc e) Q.
Proof. intros He Hg HQ. unfold rpc. cbn [bind call wp]. split; [exact Hg|]. intros b. rewrite He. apply HQ. Qed.

Lemma wp_intent_tx intent c from s Q : client_chain c = in_chain_id intent ->
  (forall res, (forall tx, res = Ok tx -> intent_bytes (in_kind intent) (in_chain_id intent) tx) -> Q s res) ->
  ok s (intent_tx keccak256 show_rpc intent c from) Q.
Proof.
  intros Hc HQ. unfold intent_tx.
  match goal with |- context [match in_kind intent with Pay _ _ _ => ?p | _ => _ end] => set (build := p) end.
  assert (Hb : (exists a b d, in_kind intent = Pay a b d) \/ (exists a b d e f, in_kind intent = CrossChainTransfer a b d e f) ->
    ok s build Q).
  { intros Hkind. subst build. rewrite Hc. destruct (parse_chain_id (in_chain_id intent)) as [num|] eqn:Hn; apply wp_bind_ok; cbn [wp lift]; [|by apply HQ].
    destruct (build_call_data _ _ _) as [cd|] eqn:Hcd; apply wp_bind_ok; cbn [wp lift]; [|by apply HQ].
    destruct (is_empty (trim from)); [by apply HQ|]. apply wp_bind_ok, wp_rpc; [done..|]. intros [nonce|]; [|by apply HQ].
    apply wp_bind_ok, wp_rpc; [done..|]. intros [gas|]; [|by apply HQ]. apply wp_bind_ok, wp_rpc; [done..|].
    intros [price|]; [|by apply HQ]. apply HQ. intros tx Htx. unfold intent_bytes.
    destruct Hkind as [(a & b & d & Hk)|(a & b & d & e & f & Hk)]; rewrite Hk in *; by exists num, cd, gas, price, nonce. }
  destruct (in_kind intent) as [a b d|tx_hex ch|m e|a b d e f] eqn:Hk; [apply Hb; left; by eauto| |by apply HQ|apply Hb; right; by eauto 6].
  apply HQ. intros tx. cbn. by destruct (hex_decode _); intros [= <-].
Qed.

Definition signing_request (common : CommonParams) (auth : PasskeyAuthorization) (tx : bytes) : KeyAgentRequestKind :=
  SignTransaction {| st_session_key_id := default "" (cp_session_key_id common); st_wallet_id := cp_wallet_id common;
    st_chain_id := cp_chain_id common; st_raw_tx_hex := "0x" +:+ hex_encode tx; st_auth := Some auth |}.

Lemma wp_signer common auth key tx s Q : may_sign r method params s (signing_request common auth tx) ->
  (forall s' res, Q s' res) -> ok s (intent_signer common auth key tx) Q.
Proof.
  intros Hm HQ. unfold intent_signer. cbn [bind call wp note guard]. split; [done|]. intros [|]; [|done].
  cbn [negb bind call wp note guard]. split; [by intros _|]. intros sent. apply HQ.
Qed.

Lemma wp_expired intent s Q : (forall s' b, calm s s' -> Q s' b) -> ok s (is_expired intent) Q.
Proof. intros HQ. cbn. split; [done|]. intros now. apply HQ. repeat split; try done. cbn. set_solver. Qed.

Lemma wp_execute intent c from common auth s Q : client_chain c = in_chain_id intent ->
  (forall s' tx, calm s s' -> intent_bytes (in_kind intent) (in_chain_id intent) tx ->
     may_sign r method params s' (signing_request common auth tx)) ->
  (forall s' res, Q s' res) ->
  ok s (execute_intent keccak256 show_rpc intent c from (intent_signer common auth)) Q.
Proof.
  intros Hc Hm HQ. unfold execute_intent. apply wp_bind, wp_expired. intros s1 [|] Hs; [apply HQ|].
  apply wp_bind_ok, wp_intent_tx; [done|]. intros [tx|] Htx; [|apply HQ].
  apply wp_bind, wp_signer; [by apply Hm; [|by apply Htx]|]. intros s2 [raw|]; apply wp_bind_ok; cbn [lift wp result_map_err]; [|apply HQ].
  cbn [bind call wp]. split; [done|]. intros [hash|]; apply wp_bind_ok; cbn [lift wp result_map_err]; [|apply HQ].
  cbn [bind call wp]. split; [done|]. intros [receipt|]; apply HQ.
Qed.

Lemma intent_execute_ok name origin s : route_of method = Some RIntentExecute -> signed s = [] ->
  ok s (intent_execute keccak256 show_rpc r method params name origin) (relays method params).
Proof.
  intros Hr Hs. assert (Hno : forall s' res, relays method params s' res) by (intros s' res v _; unfold answers_signature; by rewrite Hr).
  unfold intent_execute. param auth. apply wp_bind_ok, wp_intent_params. intros s1 [[intent cfg]|] [Hl1 _] Hi; [|by intros ?].
  destruct (Hi _ _ eq_refl) as (Hch & kv & Hkv & Hkind). param common. apply common_params in Hparam0 as [Hw Hc]. param from.
  assert (Hsame : in_chain_id intent = cp_chain_id common) by congruence.
  clear_with (cp_chain_id common) Hcl. apply wp_bind_ok, wp_client. intros [c|] Hclient; [|by intros ?].
  apply wp_bind. apply wp_execute; [by apply Hclient| |intros s2 res; apply wp_bind_ok; cbn [pure wp]; destruct res; apply Hno].
  intros s2 tx Hs2 Htx. assert (Hchain : checked_chain method params = Some (cp_chain_id common)) by (by chains).
  destruct Hcl as [Hp Hu]. eapply (pass s); [done| |done| | |].
  - etransitivity; [exact Hl1|]. etransitivity; [exact Hlater|apply Hs2].
  - split; [by eapply policy_later; [apply Hs2|]|by eapply user_calm].
  - exists auth. split; [done|]. by eapply need_auth_some.
  - split; rewrite ?Hr; cbn; [by intros route key [= <-]|by intros ch [= <-]|congruence|].
    intros _. exists kv, (in_kind intent), (cp_chain_id common), tx. rewrite <- Hsame. by split_and!.
Qed.

Lemma intent_simulate_ok s : answers_signature method = false ->
  ok s (intent_simulate keccak256 show_rpc parse_f64 fmt_2 first_chars params) (relays method params).
Proof.
  intros Hn. assert (Hno : forall s' res, relays method params s' res) by (intros s' res v _; by rewrite Hn).
  unfold intent_simulate. apply wp_bind_ok, wp_intent_params. intros s1 [[intent cfg]|] _ _; [|apply Hno].
  apply wp_bind_ok, wp_client. intros [c|] _; [|apply Hno]. unfold simulate_intent. apply wp_bind.
  assert (Hend : forall s' res, ok s' (try* summary := pure (result_map_err (fun e => (Internal, "intent simulate: " +:+ show_intent show_rpc e)) res) in
    pure (result_map_err (fun e => (Internal, "summary encode: " +:+ e)) (summary_to_json summary))) (relays method params)).
  { intros s' [x|]; apply wp_bind_ok; apply Hno. }
  destruct (build_call_data _ _ _) as [cd|]; apply wp_bind_ok; cbn [lift wp]; [|apply Hend].
  apply wp_bind_ok, wp_rpc; [done..|]. intros [gas|]; [|apply Hend]. apply wp_bind_ok, wp_rpc; [done..|]. intros [sim|]; [|apply Hend].
  apply wp_bind_ok, wp_rpc; [done..|]. intros [price|]; [|apply Hend]. cbn [bind call wp]. split; [done|]. intros usd. apply Hend.
Qed.

(** ** Every method *)

Abbreviation handler := (handle keccak256 json_text selectors debug_str show_rpc parse_f64 fmt_2 first_chars).

Lemma dispatch_ok name origin s : signed s = [] ->
  ok s (dispatch keccak256 json_text selectors debug_str show_rpc parse_f64 fmt_2 first_chars r method params name origin)
    (relays method params).
Proof.
  intros Hs. unfold dispatch. destruct (route_of method) as [[]|] eqn:Hr; [..|by intros v].
  all: try match goal with Hr : route_of method = Some ?x |- _ =>
    assert (Hno : answers_signature method = false) by (unfold answers_signature; by rewrite Hr) end.
  - by apply wp_other.
  - by apply sign_transaction_ok.
  - by apply solana_sign_message_ok.
  - by apply sign_message_ok.
  - by apply sign_auth_ok.
  - by apply solana_sign_in_ok.
  - by apply wc_auth_request_ok.
  - by apply sign_typed_data_ok.
  - by apply sign_user_op_ok.
  - unfold generate_challenge. param cred. by apply wp_other.
  - intros v. unfold get_balance. by destruct (extract_common_params params).
  - by apply intent_simulate_ok.
  - by apply intent_execute_ok.
Qed.

Lemma handle_ok topic dapp_name dapp_origin :
  ok nothing (handler r method params topic dapp_name dapp_origin) (relays method params).
Proof.
  unfold handle. apply wp_bind. unfold resolve_dapp_metadata. destruct (_ || _); [by apply dispatch_ok|].
  destruct (has_sessions r); [|by apply dispatch_ok]. cbn [negb bind call wp note guard]. split; [done|].
  intros [[[name origin]|]|]; by apply dispatch_ok.
Qed.
End Steps.

(** C5 No signature without the policy, the user and the proof: whatever the world answers,
    a request to sign reaches the Key-Agent only after the loaded policy has passed the
    chain at a time before its end, and, with the approval switch on, after the user has
    approved a card that shows this very method, its parameters and its chain; it carries
    the proof from the parameters, or the daemon's token in its place; what is to be signed,
    the wallet and the chain are the ones of the parameters; and it is the only one. *)
Theorem signing_gated r method params topic dapp_name dapp_origin o tr res l k ans rest :
  run o 0 (handle keccak256 json_text selectors debug_str show_rpc parse_f64 fmt_2 first_chars
             r method params topic dapp_name dapp_origin) = (tr, res) ->
  tr = l ++ did (Send k) ans :: rest -> signs k = true ->
  may_sign r method params (seen l) k.
Proof.
  intros Hrun Htr Hk.
  pose proof (wp_run Instant note (guard r method params) _ nothing _ o 0 (handle_ok r method params topic dapp_name dapp_origin)) as H'.
  rewrite Hrun in H'. destruct H' as [_ Hg]. exact (Hg l _ (Send k) ans rest Htr Hk).
Qed.

(** What a signing method answers is what the Key-Agent said: an answer that is no error
    renders the response to the one signing request that was sent, and the hash of a
    WalletConnect login is that of the text that was sent. *)
Theorem answers_relayed r method params topic dapp_name dapp_origin o tr v :
  run o 0 (handle keccak256 json_text selectors debug_str show_rpc parse_f64 fmt_2 first_chars
             r method params topic dapp_name dapp_origin) = (tr, Ret (Ok v)) ->
  answers_signature method = true ->
  exists k payload, signed (seen tr) = [k] /\ replied (seen tr) = Some (k, payload) /\ renders method params k payload v.
Proof.
  intros Hrun Hs.
  pose proof (wp_run Instant note (guard r method params) _ nothing _ o 0 (handle_ok r method params topic dapp_name dapp_origin)) as H'.
  rewrite Hrun in H'. destruct H' as [Hq _]. by eapply Hq.
Qed.

(** What the policy says of contracts depends on the parameter [to] alone, which the
    requester writes beside the transaction: without it nothing is said. *)
Lemma contracts_from_params p params : str_param "to" params = None -> contract_reasons p params = [].
Proof. unfold contract_reasons. by intros ->. Qed.

(** With gating on and nobody to ask, no method that signs answers. *)
Lemma no_approver_refused r method params name origin chain risk reasons simulation (o : forall B, nat -> Ev Instant B -> B) :
  has_approval r = false -> o bool 0%nat ApprovalMode = true ->
  (run o 0 (maybe_gate_approval r method params name origin chain risk reasons simulation)).2 =
    Ret (Err (Internal, "approval required but no approver connected — Web UI not running")).
Proof. intros Ha Ho. unfold maybe_gate_approval. cbn. rewrite Ho. cbn. by rewrite Ha. Qed.
End Safety.
