(* ===== verification/RouterDemo.v ===== *)
(** * Concrete requests to the router

    A world that answers every call, and runs of the router in it. *)

From Stdlib Require Import ZArith Lia String Bool.
From stdpp Require Import base list strings gmap.
From S2P Require Import Prelude F64 Str Decimal Json Bytes PolicyV2 AuditChain Rlp Frame Passkey Proto Chain SiwxMessage SiwxParse WcAuth DemoText Approvals Sim Net Intent Router RouterSafety.

Local Open Scope oc_scope.
Local Open Scope Z_scope.

#[local] Instance demo_hex_codec : HexCodec := {| hex_encode := DemoText.hex; hex_decode := fun s => Ok (DemoText.unhex s) |}.
#[local] Instance demo_without_abi : DynAbi := {|
  sol_type := unit; parse_type := fun _ => None; abi_decode_params := fun _ _ => None; word_type := fun _ => false;
  abi_decode := fun _ _ => None |}.

(** Every response has the signature [1]. *)
#[local] Instance demo_unwire : Unwire := {|
  decode_list_wallets _ := Ok {| lw_wallets := [{| wi_id := "w"; wi_name := "main"; wi_key_type := "evm"; wi_created_at := 5;
    wi_accounts := [{| wa_account_id := "a"; wa_address := "0x01"; wa_chain_id := "eip155:1"; wa_derivation_path := "m" |}] |}] |};
  decode_sign_transaction _ := Ok {| st_signature := [1]; st_signed_tx_hex := "0x02" |};
  decode_sign_message _ := Ok {| sm_signature := [1] |};
  decode_sign_auth _ := Ok {| sa_signature := [1]; sa_address := "0x01"; sa_res_chain_id := "eip155:1"; sa_public_key := [2] |};
  decode_sign_siwx _ := Ok {| res_signature := [1]; res_address := "A"; res_chain_id := "solana:m"; res_public_key := [2] |};
  decode_sign_typed_data _ := Ok {| sd_signature := [1] |};
  decode_sign_user_op _ := Ok {| su_signature := [1]; su_signed_user_op_hex := "0x02" |};
  decode_generate_challenge _ := Ok {| gc_challenge := [3] |} |}.

#[local] Instance demo_params_json : ParamsJson (S := demo_number) := {|
  auth_params_from_json _ := Ok clean_params;
  intent_kind_from_json _ := Ok (Pay "1500" "0x3535353535353535353535353535353535353535" None);
  summary_to_json _ := Ok Null;
  result_to_json _ := Ok Null |}.

(** The user approves, the agent answers, and a future is blocked on where [may_block] says. *)
Definition demo_answers (may_block : bool) (B : Type) (n : nat) (e : Ev (S := demo_number) Z B) : B :=
  match e in Ev _ B return B with
  | Now => Some 100
  | NowInstant => 100
  | NowText => "2026-01-01T00:00:00Z"
  | ApprovalMode => true
  | SessionMeta _ => Some (Some (Some "dapp", Some "https://a.example"))
  | FreshId => "id"
  | LogPending _ => tt
  | LogResolved _ _ _ => tt
  | Submit _ => true
  | AwaitAnswer _ => Answered Approve
  | JoinTask => None
  | MayBlock => may_block
  | Send _ => Ok (response_ok [9])
  | EnvRpcUrl => None
  | NewClient _ _ => Ok tt
  | EstimateGas _ _ => Ok 21000
  | EthCall _ _ => Ok Null
  | SendRaw _ _ => Ok "0xhash"
  | WaitReceipt _ _ => Ok Null
  | GasPrice _ => Ok 1000
  | NativePrice _ => Ok (f64_of_Z 1)
  | TransactionCount _ _ => Ok 7
  end.

Definition demo_policy : PolicyV2.PolicyV2 := {|
  PolicyV2.version := 2; PolicyV2.pv_session_key_id := "sk"; PolicyV2.pv_device_id := "dev";
  PolicyV2.rules := {| max_single_amount_usd := f64_of_Z 10; max_daily_amount_usd := f64_of_Z 10; max_monthly_amount_usd := f64_of_Z 10;
              expiry_unix := 1000; rate_limit_per_minute := 1; rate_limit_per_hour := 1; cooldown_after_denial_sec := 0;
              asset_whitelist := []; chain_whitelist := ["eip155:1"]; contract_whitelist := []; payment_protocols := [] |};
  PolicyV2.budget_allocation := {| allocated_usd := f64_of_Z 10; allocated_at_unix := 0; parent_total_usd := f64_of_Z 10;
                          parent_session_id := "" |} |}.

Definition demo_router : Router := {|
  has_approval := true; approval_timeout := 300; has_log := true; rt_policy := Some demo_policy; block_on_danger_simulation := true;
  has_sessions := true; sign_auth_mode := RequirePasskey |}.

Definition demo_auth : Value :=
  Object [("challenge_hex", VString "0a"); ("credential_id", VString "c"); ("signature_hex", VString "0b")].

Definition demo_params : Value :=
  Object [("auth", demo_auth); ("chain_id", VString "eip155:1"); ("from_address", VString "0x01"); ("kind", Null);
          ("raw_tx_hex", VString "0xc0"); ("rpc_url", VString "http://n"); ("session_key_id", VString "sk"); ("wallet_id", VString "w")].

Definition demo_handle (may_block : bool) (method : string) : list (Did Z) * outcome (result RpcFailure Value) :=
  run (demo_answers may_block) 0
    (handle (fun _ => [7]) (fun _ => "") ∅ (fun s => s) (fun _ => "") (fun _ => None) (fun _ => "") (fun _ _ => None)
       demo_router method demo_params "topic" None None).

Definition demo_request : KeyAgentRequestKind := SignTransaction {|
  st_session_key_id := "sk"; st_wallet_id := "w"; st_chain_id := "eip155:1"; st_raw_tx_hex := "0xc0";
  st_auth := Some {| challenge := [10]; auth_signature := [11]; credential_id := "c" |} |}.

Definition demo_trace (method : string) : list (Did Z) := (demo_handle true method).1.

Lemma signing_gated_witness :
  may_sign (fun _ => [7]) (fun _ => "") demo_router "eth_sendTransaction" demo_params
    (seen (removelast (demo_trace "eth_sendTransaction"))) demo_request.
Proof.
  apply (signing_gated (Ext := demo_external) (fun _ => [7]) (fun _ => "") ∅ (fun s => s) (fun _ => "") (fun _ => None) (fun _ => "") (fun _ _ => None)
    demo_router "eth_sendTransaction" demo_params "topic" None None (demo_answers true)
    (demo_trace "eth_sendTransaction") (demo_handle true "eth_sendTransaction").2
    (removelast (demo_trace "eth_sendTransaction")) demo_request (Ok (response_ok [9])) []).
  - apply (surjective_pairing (demo_handle true "eth_sendTransaction")).
  - reflexivity.
  - reflexivity.
Defined.

Definition demo_answer : Value := transaction_json {| st_signature := [1]; st_signed_tx_hex := "0x02" |}.

Lemma answers_relayed_witness : exists k payload,
  signed (seen (demo_trace "eth_sendTransaction")) = [k] /\ replied (seen (demo_trace "eth_sendTransaction")) = Some (k, payload) /\
  renders (fun _ => [7]) "eth_sendTransaction" demo_params k payload demo_answer.
Proof.
  apply (answers_relayed (Ext := demo_external) (fun _ => [7]) (fun _ => "") ∅ (fun s => s) (fun _ => "") (fun _ => None) (fun _ => "")
    (fun _ _ => None) demo_router "eth_sendTransaction" demo_params "topic" None None (demo_answers true)); reflexivity.
Defined.

(** The signer of an intent blocks on the agent's answer inside an asynchronous context,
    which tokio forbids: the handler panics, after the user has approved, and nothing is
    signed. *)
Lemma intent_execute_panics :
  (demo_handle false "onecipher_intentExecute").2 = Panic /\ signed (seen (demo_handle false "onecipher_intentExecute").1) = [] /\
  decision (seen (demo_handle false "onecipher_intentExecute").1) = Some Approve.
Proof. repeat split; reflexivity. Qed.
