(* ===== verification/Agent.v ===== *)
(** * The state of the agent and the steps of its handlers

    [AgentContext] of crates/oc-keyagent/src/handler.rs with the process-wide state
    the handlers use (key cache, chain-id interner, telemetry buffer, disk), and
    the helpers the handlers are made of: audit records, the passkey gate, session
    keys, the in-process key and the enclave.  A helper is a computation [Ag]: it
    reads the world of one request ([World]), changes the agent, and either goes on
    or stops with the answer to the client. *)

From Stdlib Require Import ZArith Lia Bool String Ascii.
From stdpp Require Import base list strings gmap.
From S2P Require Import Prelude Str Bytes Files MapStore Json Frame Proto ChainKey.
From S2P Require Chain KeyCache Telemetry Passkey SessionKeys Nonce AuditChain Enclave Vault SiwxMessage.

Local Open Scope oc_scope.

(** What a request can stop with: an answer, an error of the dispatcher, a panic,
    or a loop of the model that ran out of fuel. *)
Inductive Stop (DE : Type) :=
| Answer (r : KeyAgentResponse)
| Failed (e : KeyAgentError DE)
| Panics
| Exhausted.
Arguments Answer {DE}.
Arguments Failed {DE}.
Arguments Panics {DE}.
Arguments Exhausted {DE}.

(** ** Computations *)

Section Monad.
Context {DE St : Type}.

Definition Ag (R : Type) : Type := St -> result (Stop DE) R * St.

Definition ret {R} (x : R) : Ag R := fun a => (Ok x, a).
Definition stop {R} (s : Stop DE) : Ag R := fun a => (Err s, a).
Definition bind {R T} (m : Ag R) (k : R -> Ag T) : Ag T := fun a =>
  match m a with
  | (Ok x, a) => k x a
  | (Err s, a) => (Err s, a)
  end.
Definition reads {R} (f : St -> R) : Ag R := fun a => (Ok (f a), a).
Definition modify (f : St -> St) : Ag unit := fun a => (Ok tt, f a).

(** A computation goes on with [x]: both parts do. *)
Lemma bind_ok {R T} (m : Ag R) (k : R -> Ag T) a y a' :
  bind m k a = (Ok y, a') <-> exists x a1, m a = (Ok x, a1) /\ k x a1 = (Ok y, a').
Proof.
  unfold bind. destruct (m a) as [[x|s] a1]; split.
  - intros H. by exists x, a1.
  - by intros (x' & a1' & [= <- <-] & H).
  - done.
  - by intros (? & ? & ? & _).
Qed.

(** [I] holds of the agent after [m] when it does before. *)
Definition pres (I : St -> Prop) {R} (m : Ag R) : Prop := forall a, I a -> I (m a).2.

Lemma pres_ret I {R} (x : R) : pres I (ret x).
Proof. by intros a. Qed.

Lemma pres_stop I {R} s : pres I (stop (R := R) s).
Proof. by intros a. Qed.

Lemma pres_reads I {R} (f : St -> R) : pres I (reads f).
Proof. by intros a. Qed.

Lemma pres_bind I {R T} (m : Ag R) (k : R -> Ag T) :
  pres I m -> (forall x, pres I (k x)) -> pres I (bind m k).
Proof.
  intros Hm Hk a Ha. unfold bind. pose proof (Hm a Ha) as H. destruct (m a) as [[x|s] a1]; [|done].
  by apply Hk.
Qed.

(** [m] turns [I] into [J]. *)
Definition takes (I J : St -> Prop) {R} (m : Ag R) : Prop := forall a, I a -> J (m a).2.

Lemma takes_pres (I J : St -> Prop) {R} (m : Ag R) : (forall a, I a -> J a) -> pres I m -> takes I J m.
Proof. intros H Hm a Ha. by apply H, Hm. Qed.

Lemma takes_later (I J : St -> Prop) {R T} (m : Ag R) (k : R -> Ag T) :
  (forall a, I a -> J a) -> pres I m -> (forall x, takes I J (k x)) -> takes I J (bind m k).
Proof.
  intros HIJ Hm Hk a Ha. unfold bind. pose proof (Hm a Ha) as H. destruct (m a) as [[x|s] a1];
    [by apply Hk|by apply HIJ].
Qed.

Lemma takes_first (I J : St -> Prop) {R T} (m : Ag R) (k : R -> Ag T) :
  takes I J m -> (forall x, pres J (k x)) -> takes I J (bind m k).
Proof.
  intros Hm Hk a Ha. unfold bind. pose proof (Hm a Ha) as H. destruct (m a) as [[x|s] a1]; [by apply Hk|done].
Qed.

(** No answer that [m] stops with satisfies [P]. *)
Definition stops_without (P : KeyAgentResponse -> Prop) {R} (m : Ag R) : Prop :=
  forall a r a', m a = (Err (Answer r), a') -> ~ P r.

Lemma stops_bind P {R T} (m : Ag R) (k : R -> Ag T) :
  stops_without P m -> (forall x, stops_without P (k x)) -> stops_without P (bind m k).
Proof.
  intros Hm Hk a r a'. unfold bind. destruct (m a) as [[x|s] a1] eqn:E; [by apply Hk|].
  intros [= -> ->]. by eapply Hm.
Qed.

Lemma stops_ret P {R} (x : R) : stops_without P (ret x).
Proof. by intros a r a'. Qed.

Lemma stops_reads P {R} (f : St -> R) : stops_without P (reads f).
Proof. by intros a r a'. Qed.

Lemma stops_modify P f : stops_without P (modify f).
Proof. by intros a r a'. Qed.
End Monad.
Arguments Ag DE St R : clear implicits.

Notation "'let*' x ':=' c 'in' k" := (bind c (fun x => k))
  (at level 10, x name, c at level 100, k at level 200) : oc_scope.
Notation "'let*' ' x ':=' c 'in' k" := (bind c (fun x => k))
  (at level 10, x strict pattern, c at level 100, k at level 200) : oc_scope.

(** Where a request may write to the audit log: a refusal, before the enclave is
    called, after it, and at the end. *)
Inductive AuditPoint := AtRefusal | AtPending | AtResolved | AtEnd.

(** [HashMap::into_values] of the session keys. *)
Class SessionIter := { map_values : SessionKeys.SessionMap -> list SessionKeys.SessionKeyRecord }.

(** [serde_json::to_string] of a batch; errors are their texts. *)
Class TelemetryJson := { batch_to_json : Telemetry.TelemetryBatch -> result string string }.

Section Agent.
Context {X : SiwxMessage.External} {S : SerdeNumber} {io_error json_error DE : Type}.
Context {A : AuditChain.AuditEnv io_error json_error} {N : Nonce.NonceEnv io_error json_error}.
Context {D : Display json_error} {L : Lowercase} {G : Signers} {W : WalletKeys} {K : Kdf}.
Context {J : Enclave.EnclaveJson json_error} {CU : Passkey.Curves}.
Context {PC : Codec io_error json_error (gmap string Passkey.StoredPasskeyPubkey)}.
Context {SC : Codec io_error json_error SessionKeys.SessionMap}.

(** [AgentContext], and the statics of the process. *)
Record Agent := {
  audit_log : lock AuditChain.AuditLog;
  audit_fail_closed : bool;
  passkey_verifiers : lock (gmap string Passkey.PasskeyVerifier);
  sign_auth_internal_token : lock (option string);
  session_keys : Path;
  nonce_store : Path;
  key_cache : KeyCache.KeyCache bytes;
  interner : Chain.Interner;
  telemetry : Telemetry.TelemetryBuffer;
  disk : FS
}.

Definition set_audit (log : AuditChain.AuditLog) (d : FS) (a : Agent) : Agent := {|
  audit_log := Held log; audit_fail_closed := audit_fail_closed a;
  passkey_verifiers := passkey_verifiers a; sign_auth_internal_token := sign_auth_internal_token a;
  session_keys := session_keys a; nonce_store := nonce_store a; key_cache := key_cache a;
  interner := interner a; telemetry := telemetry a; disk := d
|}.

Definition set_verifiers (vs : gmap string Passkey.PasskeyVerifier) (a : Agent) : Agent := {|
  audit_log := audit_log a; audit_fail_closed := audit_fail_closed a;
  passkey_verifiers := Held vs; sign_auth_internal_token := sign_auth_internal_token a;
  session_keys := session_keys a; nonce_store := nonce_store a; key_cache := key_cache a;
  interner := interner a; telemetry := telemetry a; disk := disk a
|}.

Definition set_keys (st : KeyState) (a : Agent) : Agent := {|
  audit_log := audit_log a; audit_fail_closed := audit_fail_closed a;
  passkey_verifiers := passkey_verifiers a; sign_auth_internal_token := sign_auth_internal_token a;
  session_keys := session_keys a; nonce_store := nonce_store a; key_cache := key_cache a;
  interner := st.1; telemetry := telemetry a; disk := st.2
|}.

Definition set_disk (d : FS) (a : Agent) : Agent := set_keys (interner a, d) a.

Definition set_cache (c : KeyCache.KeyCache bytes) (a : Agent) : Agent := {|
  audit_log := audit_log a; audit_fail_closed := audit_fail_closed a;
  passkey_verifiers := passkey_verifiers a; sign_auth_internal_token := sign_auth_internal_token a;
  session_keys := session_keys a; nonce_store := nonce_store a; key_cache := c;
  interner := interner a; telemetry := telemetry a; disk := disk a
|}.

Definition set_telemetry (t : Telemetry.TelemetryBuffer) (a : Agent) : Agent := {|
  audit_log := audit_log a; audit_fail_closed := audit_fail_closed a;
  passkey_verifiers := passkey_verifiers a; sign_auth_internal_token := sign_auth_internal_token a;
  session_keys := session_keys a; nonce_store := nonce_store a; key_cache := key_cache a;
  interner := interner a; telemetry := t; disk := disk a
|}.

Definition set_audit_fail_closed (fail_closed : bool) (a : Agent) : Agent := {|
  audit_log := audit_log a; audit_fail_closed := fail_closed;
  passkey_verifiers := passkey_verifiers a; sign_auth_internal_token := sign_auth_internal_token a;
  session_keys := session_keys a; nonce_store := nonce_store a; key_cache := key_cache a;
  interner := interner a; telemetry := telemetry a; disk := disk a
|}.

(** [set_sign_auth_internal_token_on]: a poisoned slot is left as it is. *)
Definition set_sign_auth_internal_token_on (token : option string) (a : Agent) : Agent :=
  match sign_auth_internal_token a with
  | Poisoned => a
  | Held _ => {|
      audit_log := audit_log a; audit_fail_closed := audit_fail_closed a;
      passkey_verifiers := passkey_verifiers a; sign_auth_internal_token := Held token;
      session_keys := session_keys a; nonce_store := nonce_store a; key_cache := key_cache a;
      interner := interner a; telemetry := telemetry a; disk := disk a |}
  end.

(** What one request reads of the world.  [passkey_store] is
    [PasskeyPubkeyStore::open_default]; clocks are in seconds unless they are an
    [Instant]. *)
Record World := {
  env : Enclave.Environment;
  audit_now : AuditPoint -> string;
  audit_io : AuditPoint -> @AuditChain.AppendIo io_error;
  passkey_store : result (Passkey.PasskeyStoreError io_error json_error) Path;
  passkey_io : StoreIo io_error;
  clock_sweep : Z;
  clock_challenge : Z;
  challenge_rng : nat -> bytes;
  session_io : StoreIo io_error;
  session_random : Z;
  clock_now : Z;
  clock_late : Z;
  clock_answer : Z;
  keys : @KeyWorld io_error json_error;
  enclave_exe : result string string;
  enclave_spawn : Enclave.Spawn;
  enclave_pid : Z; enclave_nanos : Z; enclave_counter : Z;
  latency_ms : Z;
  clock_validate : SiwxMessage.Instant;
  clock_ttl : Z; clock_load : Z; clock_consume : Z;
  nonce_io : StoreIo io_error;
  vault_io : Vault.VaultIo io_error
}.

(** An early [return Ok(KeyAgentResponse::error(coded(code, detail)))]. *)
Definition refuse (code detail : string) : KeyAgentResponse := response_error (coded code detail).
Definition refuses {R} (code detail : string) : Ag DE Agent R := stop (Answer (refuse code detail)).

(** [DenyReason::PasskeyForged]. *)
Definition deny_forged : KeyAgentResponse := response_deny (deny_code PasskeyForged).

(** The error of a step, as the answer. *)
Definition or_refuse {E R} (f : E -> KeyAgentResponse) (r : result E R) : Ag DE Agent R := fun a =>
  (result_map_err (fun e => Answer (f e)) r, a).

(** ** Audit *)

Definition log_audit (w : World) (pt : AuditPoint) (ev : AuditChain.EventType) (skid : option string)
    (payload : Value) : Ag DE Agent (result string unit) := fun a =>
  match audit_log a with
  | Poisoned => (Ok (Err "internal error: audit mutex poisoned"), a)
  | Held log =>
      let '(r, log, d) := AuditChain.append (audit_io w pt) (audit_now w pt) log ev skid payload (disk a) in
      (Ok (match r with
           | Ok _ => Ok tt
           | Err e => Err ("internal error: audit append: " +:+ show_audit_error e)
           end), set_audit log d a)
  end.

(** A failed append is only logged. *)
Definition record_audit (w : World) (pt : AuditPoint) (ev : AuditChain.EventType) (skid : option string)
    (payload : Value) : Ag DE Agent unit :=
  let* _ := log_audit w pt ev skid payload in ret tt.

Definition record_audit_strict (w : World) (pt : AuditPoint) (ev : AuditChain.EventType)
    (skid : option string) (payload : Value) : Ag DE Agent (result string unit) :=
  let* r := log_audit w pt ev skid payload in
  ret (result_map_err (fun e => coded E_AUDIT ("audit unavailable: " +:+ e)) r).

(** [Err(e) => return Ok(KeyAgentResponse::error(e))]. *)
Definition or_error {R} (r : result string R) : Ag DE Agent R := or_refuse response_error r.

(** The audit failure takes the place of the result in an agent that fails closed. *)
Definition fail_closed {R} (closed : bool) (audit : result string unit) (r : result string R) : result string R :=
  match audit with
  | Err e => if closed then Err e else r
  | Ok _ => r
  end.

(** [if ctx.audit_fail_closed && let Err(e) = audit_result { return .. }]. *)
Definition audit_gate (r : result string unit) : Ag DE Agent unit :=
  let* closed := reads audit_fail_closed in
  or_error (fail_closed closed r (Ok tt)).

(** ** Passkeys *)

Definition show_passkey_store_error (e : Passkey.PasskeyStoreError io_error json_error) : string :=
  match e with
  | Passkey.Io e => "I/O error: " +:+ AuditChain.show_io e
  | Passkey.Json e => "JSON error: " +:+ show_json e
  | Passkey.HomeNotSet => "HOME not set"
  | Passkey.Corrupt path detail =>
      "passkey store at " +:+ show_path path +:+ " is corrupt: " +:+ show_json detail +:+
      " — restore it from a backup or remove the file"
  | Passkey.UnsupportedAlgorithm name =>
      "unsupported algorithm: " +:+ name +:+ " (expected " +:+ String Names.quote ("p256" +:+
      String Names.quote (" or " +:+ String Names.quote ("ed25519" +:+ String Names.quote ")")))
  | Passkey.InvalidPublicKey m => "invalid public key: " +:+ m
  end.

(** [PasskeyPubkeyStore::open_default] and [get], with the code an error is given
    here. *)
Definition stored_passkey (w : World) (code cred : string) : Ag DE Agent Passkey.StoredPasskeyPubkey :=
  let bad e := refuse code ("passkey store: " +:+ show_passkey_store_error e) in
  let* path := or_refuse bad (passkey_store w) in
  let* d := reads disk in
  let* found := or_refuse bad (Passkey.get path (passkey_io w) cred d) in
  match found with
  | Some s => ret s
  | None => refuses E_AUTH "passkey not registered"
  end.

(** The verifier of a credential, made on first use; both callers keep it in the
    shared table. *)
Definition lazy_verifier (code cred : string) (stored : Passkey.StoredPasskeyPubkey)
  : Ag DE Agent Passkey.PasskeyVerifier :=
  let* l := reads passkey_verifiers in
  match l with
  | Poisoned => refuses E_INTERNAL "passkey verifiers mutex poisoned"
  | Held vs =>
      match vs !! cred with
      | Some v => ret v
      | None =>
          let* pubkey := or_refuse (fun e => refuse code ("passkey pubkey: " +:+ show_passkey_store_error e))
                           (Passkey.to_passkey_pubkey stored) in
          ret (Passkey.new pubkey cred)
      end
  end.

Definition keep_verifier (cred : string) (v : Passkey.PasskeyVerifier) : Ag DE Agent unit :=
  modify (fun a => match passkey_verifiers a with
                   | Held vs => set_verifiers (<[cred := v]> vs) a
                   | Poisoned => a
                   end).

(** Presents a proof to the credential's verifier. *)
Definition present (w : World) (auth : Passkey.PasskeyAuthorization) (stored : Passkey.StoredPasskeyPubkey)
  : Ag DE Agent (result Passkey.PasskeyError unit) :=
  let cred := Passkey.credential_id auth in
  let* v := lazy_verifier E_AUTH cred stored in
  let '(r, v) := Passkey.verify (clock_sweep w) (clock_challenge w) v auth in
  let* _ := keep_verifier cred v in
  ret r.

Definition verify_passkey (w : World) (auth : Passkey.PasskeyAuthorization)
  : Ag DE Agent Passkey.StoredPasskeyPubkey :=
  let cred := Passkey.credential_id auth in
  let* stored := stored_passkey w E_AUTH cred in
  let* r := present w auth stored in
  match r with
  | Ok _ => ret stored
  | Err e =>
      let* _ := record_audit w AtRefusal AuditChain.PasskeyForged None
        (AuditChain.json_object [("credential_id", VString cred); ("error", VString (Passkey.show_passkey_error e))]) in
      stop (Answer deny_forged)
  end.

Definition verify_passkey_for (w : World) (auth : Passkey.PasskeyAuthorization) (wallet_id : string)
  : Ag DE Agent Passkey.StoredPasskeyPubkey :=
  let* stored := verify_passkey w auth in
  if String.eqb (Passkey.wallet_id stored) wallet_id then ret stored
  else
    let* _ := record_audit w AtRefusal AuditChain.AuthFailed None
      (AuditChain.json_object [("reason", VString "passkey wallet binding mismatch");
                               ("bound_wallet", VString (Passkey.wallet_id stored));
                               ("requested_wallet", VString wallet_id)]) in
    refuses E_AUTH "passkey is not registered for this wallet".

(** The gate of the signing handlers and of [UnlockVault]: a proof must be there. *)
Definition require_auth (auth : option Passkey.PasskeyAuthorization) : Ag DE Agent Passkey.PasskeyAuthorization :=
  match auth with
  | Some x => ret x
  | None => refuses E_AUTH "missing passkey authorization"
  end.

(** ** Session keys *)

Definition show_session_error (e : SessionKeys.SessionKeyStoreError io_error json_error) : string :=
  match e with
  | SessionKeys.Io e => "I/O error: " +:+ AuditChain.show_io e
  | SessionKeys.Json e => "JSON error: " +:+ show_json e
  | SessionKeys.HomeNotSet => "HOME not set"
  | SessionKeys.Corrupt path detail =>
      "session-key store at " +:+ show_path path +:+ " is corrupt: " +:+ show_json detail +:+
      " — restore it from a backup or remove the file"
  | SessionKeys.AlreadyExists i => "session key already exists: " +:+ i
  | SessionKeys.NotFound i => "session key not found: " +:+ i
  end.

Definition session_refusal (e : SessionKeys.SessionKeyStoreError io_error json_error) : KeyAgentResponse :=
  refuse E_SESSION_KEY (show_session_error e).

Definition ensure_session_key_active (w : World) (id : string) : Ag DE Agent unit :=
  if is_empty id then ret tt
  else
    let* a := reads (fun a => a) in
    let* active := or_refuse session_refusal (SessionKeys.is_active (session_keys a) (session_io w) id (disk a)) in
    if (active : bool) then ret tt
    else refuses E_SESSION_KEY ("session key '" +:+ id +:+ "' is not active").

(** ** The chain key, in this process or in the enclave *)

(** Runs a computation on the interner and the disk. *)
Definition with_keys {R} (f : KeyState -> R * KeyState) : Ag DE Agent R := fun a =>
  let '(r, st) := f (interner a, disk a) in (Ok r, set_keys st a).

Record EnclaveSignArgs := {
  es_action : string;
  es_session_key_id : option string;
  es_op : string;
  es_wallet_id : string;
  es_chain_id : string;
  es_payload_hex : string;
  es_extra_json : string
}.

Record EnclaveSignOutput := {
  eo_signature : bytes;
  eo_signed_tx_hex : option string;
  eo_address : option string;
  eo_public_key : option bytes
}.

Definition enclave_request (w : World) (args : EnclaveSignArgs) : Enclave.EnclaveRequest := {|
  Enclave.oc_version := Enclave.ENCLAVE_PROTOCOL_VERSION;
  Enclave.request_id := Enclave.new_request_id (enclave_pid w) (enclave_nanos w) (enclave_counter w);
  Enclave.op := es_op args; Enclave.wallet_id := es_wallet_id args; Enclave.chain_id := es_chain_id args;
  Enclave.payload_hex := es_payload_hex args; Enclave.extra_json := es_extra_json args;
  Enclave.index := 0; Enclave.credential_hex := None; Enclave.vault_dir := None
|}.

Definition enclave_call_error (e : Enclave.EnclaveError) : string :=
  let rendered := Enclave.show_enclave_error e in
  if starts_with "E_" (Enclave.message e) then rendered else coded E_INTERNAL rendered.

(** [spawn_enclave_child] with the timeout of the environment. *)
Definition call_enclave (w : World) (exe : string) (req : Enclave.EnclaveRequest)
  : Ag DE Agent (result Enclave.EnclaveError Enclave.EnclaveResponse) := fun a =>
  let '(r, d) := Enclave.spawn_enclave_child (enclave_spawn w) exe (env w) req
                   (Enclave.enclave_timeout (env w)) (disk a) in
  (ok_or Exhausted r, set_disk d a).

Definition internal (detail : string) : string := coded E_INTERNAL detail.

(** The response's fields, decoded. *)
Definition decode_enclave_fields (resp : Enclave.EnclaveResponse) : result string (bytes * option bytes) :=
  match Enclave.signature_hex resp with
  | None => Err (internal "enclave omitted signature")
  | Some h =>
      let? sig := result_map_err (fun e => internal ("enclave bad signature hex: " +:+ e)) (AuditChain.hex_decode h) in
      let? pk := result_map_err (fun e => internal ("enclave bad public key hex: " +:+ e))
        (transpose (AuditChain.hex_decode <$> Enclave.public_key_hex resp)) in
      Ok (sig, pk)
  end.

Definition json_pid (pid : option Z) : Value := match pid with Some p => json_u64 p | None => Null end.

(** The result of the Rust function; it stops only in its caller. *)
Definition sign_via_enclave (w : World) (args : EnclaveSignArgs) : Ag DE Agent (result string EnclaveSignOutput) :=
  let req := enclave_request w args in
  let id := VString (Enclave.request_id req) in
  let action := VString (es_action args) in
  let op := VString (es_op args) in
  let* _ := record_audit w AtPending AuditChain.EnclavePending (es_session_key_id args)
    (AuditChain.json_object [("action", action); ("op", op); ("request_id", id);
                             ("wallet_id", VString (es_wallet_id args)); ("chain_id", VString (es_chain_id args))]) in
  match enclave_exe w with
  | Err e => ret (Err (internal ("enclave unavailable: " +:+ e)))
  | Ok exe =>
      let* outcome := call_enclave w exe req in
      match outcome with
      | Ok resp =>
          match decode_enclave_fields resp with
          | Err e => ret (Err e)
          | Ok (sig, pk) =>
              let* audit := record_audit_strict w AtResolved AuditChain.EnclaveResolved (es_session_key_id args)
                (AuditChain.json_object [("action", action); ("op", op); ("request_id", id);
                  ("pid", json_u64 (Enclave.resp_pid resp)); ("ok", Bool true);
                  ("sig_hash", VString (AuditChain.hex_encode (AuditChain.sha256 (Enclave.bytes_string sig))));
                  ("latency_ms", json_u64 (latency_ms w))]) in
              let* closed := reads audit_fail_closed in
              ret (fail_closed closed audit
                     (Ok {| eo_signature := sig; eo_signed_tx_hex := Enclave.signed_tx_hex resp;
                            eo_address := Enclave.address resp; eo_public_key := pk |}))
          end
      | Err e =>
          let* audit := record_audit_strict w AtResolved AuditChain.EnclaveResolved (es_session_key_id args)
            (AuditChain.json_object [("action", action); ("op", op); ("request_id", id);
              ("pid", json_pid (Enclave.error_pid e)); ("ok", Bool false);
              ("latency_ms", json_u64 (latency_ms w)); ("error", VString (Enclave.message e));
              ("alert", VString "enclave child failed mid-request")]) in
          let* closed := reads audit_fail_closed in
          ret (fail_closed closed audit (Err (enclave_call_error e)))
      end
  end.

(** [match sign_via_enclave(..) { Err(e) => return Ok(error(e)) .. }]. *)
Definition enclave_signature (w : World) (args : EnclaveSignArgs) : Ag DE Agent EnclaveSignOutput :=
  let* r := sign_via_enclave w args in or_error r.

(** ** The other stores *)

(** Runs an operation on the disk to its last state. *)
Definition with_disk {R} (f : FS -> R * list FS) : Ag DE Agent R := fun a =>
  let '(r, trace) := f (disk a) in (Ok r, set_disk (default (disk a) (last trace)) a).

Definition create_session (w : World) (record : SessionKeys.SessionKeyRecord)
  : Ag DE Agent (result (SessionKeys.SessionKeyStoreError io_error json_error) SessionKeys.SessionKeyRecord) :=
  let* path := reads session_keys in with_disk (SessionKeys.create path (session_io w) record).

Definition revoke_session (w : World) (id : string)
  : Ag DE Agent (result (SessionKeys.SessionKeyStoreError io_error json_error) SessionKeys.SessionKeyRecord) :=
  let* path := reads session_keys in with_disk (SessionKeys.revoke path (session_io w) id (clock_late w)).

Definition register_passkey (w : World) (path : Path) (cred : string) (stored : Passkey.StoredPasskeyPubkey)
  : Ag DE Agent (result (Passkey.PasskeyStoreError io_error json_error) unit) :=
  with_disk (Passkey.register path (passkey_io w) cred stored).

(** Draws a challenge from the credential's verifier. *)
Definition issue (w : World) (cred : string) (stored : Passkey.StoredPasskeyPubkey)
  : Ag DE Agent (result Passkey.PasskeyError bytes) :=
  let* v := lazy_verifier E_INTERNAL cred stored in
  match Passkey.generate_challenge (clock_sweep w) (clock_challenge w) (challenge_rng w) v with
  | None => stop Exhausted
  | Some (r, v) => let* _ := keep_verifier cred v in ret r
  end.

Definition consume_nonce (w : World) (message : string) (expires_at : Z)
  : Ag DE Agent (result (Nonce.NonceStoreError io_error json_error) unit) :=
  let* path := reads nonce_store in
  with_disk (Nonce.consume path (nonce_io w) (AuditChain.sha256 message) expires_at (clock_load w) (clock_consume w)).
End Agent.
