(* ===== verification/AgentRules.v ===== *)
(** * What the steps of a handler preserve, and how they stop

    An invariant of the agent is preserved by every handler when it is preserved by
    the few steps that change the agent ([Stable]).  The other rules say that a
    step never stops with a payload, so that a payload is always a handler's own
    answer, and what the gate of the signing handlers has checked. *)

From Stdlib Require Import ZArith Lia Bool String Ascii.
From stdpp Require Import base list strings gmap.
From S2P Require Import Prelude Str Bytes Files MapStore Json Frame Proto ChainKey Agent.
From S2P Require Chain KeyCache Telemetry Passkey SessionKeys Nonce AuditChain Enclave Vault SiwxMessage.

Local Open Scope oc_scope.

(** The answer carries a payload. *)
Definition answered (r : KeyAgentResponse) : Prop :=
  match kind r with Some (ROk _) => True | _ => False end.

Section Rules.
Context {X : SiwxMessage.External} {S : SerdeNumber} {io_error json_error DE : Type}.
Context {A : AuditChain.AuditEnv io_error json_error} {N : Nonce.NonceEnv io_error json_error}.
Context {D : Display json_error} {L : Lowercase} {G : Signers} {WK : WalletKeys} {K : Kdf}.
Context {J : Enclave.EnclaveJson json_error} {CU : Passkey.Curves}.
Context {PC : Codec io_error json_error (gmap string Passkey.StoredPasskeyPubkey)}.
Context {SC : Codec io_error json_error SessionKeys.SessionMap}.

Abbreviation World := (World (io_error := io_error) (json_error := json_error)).
Abbreviation Ag := (Ag DE Agent).

(** The invariant [I] survives each step that changes the agent, in the world [w];
    the nonce store's is dealt with apart. *)
Record Stable (w : World) (I : Agent -> Prop) : Prop := {
  stable_log pt ev skid pl : pres (DE := DE) I (log_audit w pt ev skid pl);
  stable_keys R (f : KeyState -> R * KeyState) :
    (forall st, only_key (keys w) st.2 (f st).2.2) -> pres (DE := DE) I (with_keys f);
  stable_enclave exe req : pres (DE := DE) I (call_enclave w exe req);
  stable_present auth stored : pres (DE := DE) I (present w auth stored);
  stable_issue cred stored : pres (DE := DE) I (issue w cred stored);
  stable_forget a vs : passkey_verifiers a = Held vs -> I a -> I (set_verifiers ∅ a);
  stable_create record : pres (DE := DE) I (create_session w record);
  stable_revoke id : pres (DE := DE) I (revoke_session w id);
  stable_register path cred stored :
    passkey_store w = Ok path -> pres (DE := DE) I (register_passkey w path cred stored);
  stable_cache a c : I a -> I (set_cache c a);
  stable_telemetry a t : I a -> I (set_telemetry t a)
}.

Section Preserved.
Context (w : World) (I : Agent -> Prop) (HI : Stable w I).

Abbreviation pres m := (pres (DE := DE) (St := Agent) I m).

Lemma pres_or_refuse {E R} (f : E -> KeyAgentResponse) (r : result E R) : pres (or_refuse f r).
Proof. by intros a. Qed.

Lemma pres_or_error {R} (r : result string R) : pres (or_error r).
Proof. apply pres_or_refuse. Qed.

Lemma pres_refuses {R} code detail : pres (refuses (R := R) code detail).
Proof. by intros a. Qed.

Lemma pres_record_audit pt ev skid pl : pres (record_audit w pt ev skid pl).
Proof. apply pres_bind; [apply (stable_log _ _ HI)|intros; apply pres_ret]. Qed.

Lemma pres_record_audit_strict pt ev skid pl : pres (record_audit_strict w pt ev skid pl).
Proof. apply pres_bind; [apply (stable_log _ _ HI)|intros; apply pres_ret]. Qed.

Lemma pres_audit_gate r : pres (audit_gate r).
Proof. apply pres_bind; [apply pres_reads|intros; apply pres_or_error]. Qed.

Lemma pres_stored_passkey code cred : pres (stored_passkey w code cred).
Proof.
  unfold stored_passkey. apply pres_bind; [apply pres_or_refuse|intros p].
  apply pres_bind; [apply pres_reads|intros d]. apply pres_bind; [apply pres_or_refuse|intros [s|]];
    [apply pres_ret|apply pres_refuses].
Qed.

Lemma pres_verify_passkey auth : pres (verify_passkey w auth).
Proof.
  unfold verify_passkey. apply pres_bind; [apply pres_stored_passkey|intros s].
  apply pres_bind; [apply (stable_present _ _ HI)|intros [|]]; [apply pres_ret|].
  apply pres_bind; [apply pres_record_audit|intros; apply pres_stop].
Qed.

Lemma pres_verify_passkey_for auth wid : pres (verify_passkey_for w auth wid).
Proof.
  unfold verify_passkey_for. apply pres_bind; [apply pres_verify_passkey|intros s].
  destruct (String.eqb _ _); [apply pres_ret|].
  apply pres_bind; [apply pres_record_audit|intros; apply pres_refuses].
Qed.

Lemma pres_require_auth auth : pres (require_auth auth).
Proof. destruct auth; [apply pres_ret|apply pres_refuses]. Qed.

Lemma pres_ensure_session_key_active id : pres (ensure_session_key_active w id).
Proof.
  unfold ensure_session_key_active. destruct (is_empty id); [apply pres_ret|].
  apply pres_bind; [apply pres_reads|intros a]. apply pres_bind; [apply pres_or_refuse|intros [|]];
    [apply pres_ret|apply pres_refuses].
Qed.

Lemma pres_sign_via_enclave args : pres (sign_via_enclave w args).
Proof.
  unfold sign_via_enclave. apply pres_bind; [apply pres_record_audit|intros _].
  destruct (enclave_exe w) as [exe|]; [|apply pres_ret].
  apply pres_bind; [apply (stable_enclave _ _ HI)|intros [resp|e]].
  - destruct (decode_enclave_fields resp) as [[sig pk]|]; [|apply pres_ret].
    apply pres_bind; [apply pres_record_audit_strict|intros r].
    apply pres_bind; [apply pres_reads|intros; apply pres_ret].
  - apply pres_bind; [apply pres_record_audit_strict|intros r].
    apply pres_bind; [apply pres_reads|intros; apply pres_ret].
Qed.

Lemma pres_enclave_signature args : pres (enclave_signature w args).
Proof. apply pres_bind; [apply pres_sign_via_enclave|intros; apply pres_or_error]. Qed.
End Preserved.

(** ** Payloads come from the end of a handler *)

(** What the client is told: an early answer counts as the handler's. *)
Definition respond (m : Ag KeyAgentResponse) : Ag KeyAgentResponse := fun a =>
  let '(r, a) := m a in
  (match r with Err (Answer x) => Ok x | _ => r end, a).

Lemma respond_ok (m : Ag KeyAgentResponse) a p a' :
  stops_without answered m ->
  respond m a = (Ok (response_ok p), a') <-> m a = (Ok (response_ok p), a').
Proof.
  intros Hm. unfold respond. destruct (m a) as [[r|[r|e| |]] a1] eqn:E; try by split; intros [=].
  - done.
  - split; [|done]. intros [= -> ->]. by destruct (Hm _ _ _ E).
Qed.

Abbreviation silent m := (stops_without (DE := DE) (St := Agent) answered m).

Lemma silent_stop {R} r : ~ answered r -> silent (stop (R := R) (Answer r)).
Proof. by intros Hr a r' a' [= <- <-]. Qed.

Lemma silent_or_refuse {E R} (f : E -> KeyAgentResponse) (r : result E R) :
  (forall e, ~ answered (f e)) -> silent (or_refuse f r).
Proof. intros Hf a r' a'. unfold or_refuse. destruct r as [x|e]; [done|]. intros [= <- <-]. apply Hf. Qed.

Lemma silent_or_error {R} (r : result string R) : silent (or_error r).
Proof. apply silent_or_refuse. by intros e []. Qed.

Lemma silent_refuses {R} code detail : silent (refuses (R := R) code detail).
Proof. apply silent_stop. by intros []. Qed.

Lemma silent_with_keys {R} (f : KeyState -> R * KeyState) : silent (with_keys f).
Proof. intros a r a'. unfold with_keys. by destruct (f _). Qed.

Lemma silent_with_disk {R} (f : FS -> R * list FS) : silent (with_disk f).
Proof. intros a r a'. unfold with_disk. by destruct (f _). Qed.

Lemma silent_log_audit (w : World) pt ev skid pl : silent (log_audit w pt ev skid pl).
Proof.
  intros a r a'. unfold log_audit. destruct (audit_log a); [|done].
  by destruct (AuditChain.append _ _ _ _ _ _ _) as [[? ?] ?].
Qed.

Lemma silent_call_enclave (w : World) exe req : silent (call_enclave w exe req).
Proof.
  intros a r a'. unfold call_enclave. destruct (Enclave.spawn_enclave_child _ _ _ _ _ _) as [[]]; by cbn.
Qed.
End Rules.

(** Decomposes a computation into its steps. *)
Ltac silent_step :=
  first
    [ apply stops_ret | apply stops_reads | apply stops_modify
    | apply silent_refuses | apply silent_or_error | apply silent_with_keys | apply silent_with_disk
    | apply silent_log_audit | apply silent_call_enclave
    | (apply silent_stop; by intros [])
    | (apply silent_or_refuse; by intros ? [])
    | (apply stops_bind; [|intros ?])
    | match goal with |- stops_without _ (match ?x with _ => _ end) => destruct x end ].
Ltac silently := repeat silent_step.

Section Silent.
Context {X : SiwxMessage.External} {S : SerdeNumber} {io_error json_error DE : Type}.
Context {A : AuditChain.AuditEnv io_error json_error} {N : Nonce.NonceEnv io_error json_error}.
Context {D : Display json_error} {L : Lowercase} {G : Signers} {WK : WalletKeys} {K : Kdf}.
Context {J : Enclave.EnclaveJson json_error} {CU : Passkey.Curves}.
Context {PC : Codec io_error json_error (gmap string Passkey.StoredPasskeyPubkey)}.
Context {SC : Codec io_error json_error SessionKeys.SessionMap}.

Abbreviation World := (World (io_error := io_error) (json_error := json_error)).
Abbreviation silent m := (stops_without (DE := DE) (St := Agent) answered m).

Lemma silent_record_audit (w : World) pt ev skid pl : silent (record_audit w pt ev skid pl).
Proof. unfold record_audit. silently. Qed.

Lemma silent_record_audit_strict (w : World) pt ev skid pl : silent (record_audit_strict w pt ev skid pl).
Proof. unfold record_audit_strict. silently. Qed.

Lemma silent_audit_gate r : silent (audit_gate r).
Proof. unfold audit_gate. silently. Qed.

Lemma silent_verify_passkey (w : World) auth : silent (verify_passkey w auth).
Proof.
  unfold verify_passkey, stored_passkey, present, lazy_verifier, keep_verifier, record_audit.
  silently.
Qed.

Lemma silent_verify_passkey_for (w : World) auth wid : silent (verify_passkey_for w auth wid).
Proof.
  unfold verify_passkey_for, record_audit. apply stops_bind; [apply silent_verify_passkey|intros s]. silently.
Qed.

Lemma silent_ensure_session_key_active (w : World) id : silent (ensure_session_key_active w id).
Proof. unfold ensure_session_key_active. silently. Qed.

Lemma silent_sign_via_enclave (w : World) args : silent (sign_via_enclave w args).
Proof. unfold sign_via_enclave, record_audit, record_audit_strict. silently. Qed.

Lemma silent_enclave_signature (w : World) args : silent (enclave_signature w args).
Proof. unfold enclave_signature. apply stops_bind; [apply silent_sign_via_enclave|intros; silently]. Qed.
End Silent.

(** ** What the gates have checked *)

Section Gates.
Context {X : SiwxMessage.External} {S : SerdeNumber} {io_error json_error DE : Type}.
Context {A : AuditChain.AuditEnv io_error json_error} {D : Display json_error} {CU : Passkey.Curves}.
Context {PC : Codec io_error json_error (gmap string Passkey.StoredPasskeyPubkey)}.
Context {SC : Codec io_error json_error SessionKeys.SessionMap}.

Abbreviation World := (World (io_error := io_error) (json_error := json_error)).

(** The registered passkey [stored] accepts the proof: it is in the store, its
    verifier is in the shared table, the proof passes, and the verifier forgets the
    challenge. *)
Definition accepts (w : World) (a : Agent) (auth : Passkey.PasskeyAuthorization)
    (stored : Passkey.StoredPasskeyPubkey) (a' : Agent) : Prop :=
  let cred := Passkey.credential_id auth in
  exists path vs v v',
    passkey_store w = Ok path /\ Passkey.get path (passkey_io w) cred (disk a) = Ok (Some stored) /\
    passkey_verifiers a = Held vs /\ vs !! cred = Some v /\
    Passkey.verify (clock_sweep w) (clock_challenge w) v auth = (Ok tt, v') /\
    a' = set_verifiers (<[cred := v']> vs) a.

Lemma new_rejects pk cred now now' auth : (Passkey.verify now now' (Passkey.new pk cred) auth).1 <> Ok tt.
Proof.
  destruct (Passkey.verify now now' (Passkey.new pk cred) auth) as [r v'] eqn:E. cbn. intros ->.
  apply Passkey.verify_accepts in E as (_ & _ & _ & (e & He & _) & _). cbn in He. by rewrite lookup_empty in He.
Qed.

Lemma stored_passkey_ok (w : World) code cred a stored a' :
  stored_passkey (DE := DE) w code cred a = (Ok stored, a') <->
  a' = a /\ exists path, passkey_store w = Ok path /\ Passkey.get path (passkey_io w) cred (disk a) = Ok (Some stored).
Proof.
  unfold stored_passkey, bind, or_refuse, reads. destruct (passkey_store w) as [path|e]; cbn;
    [|split; [done|by intros (_ & ? & ? & _)]].
  destruct (Passkey.get path (passkey_io w) cred (disk a)) as [[s|]|e] eqn:Hg; cbn.
  - split; [intros [= <- <-]; split; [done|by exists path]|].
    intros (-> & path' & [= <-] & H). rewrite Hg in H. by injection H as <-.
  - split; [done|]. intros (_ & path' & [= <-] & H). congruence.
  - split; [done|]. intros (_ & path' & [= <-] & H). congruence.
Qed.

Lemma verify_passkey_ok (w : World) auth a stored a' :
  verify_passkey (DE := DE) w auth a = (Ok stored, a') <-> accepts w a auth stored a'.
Proof.
  unfold verify_passkey, accepts. set (cred := Passkey.credential_id auth). rewrite bind_ok.
  setoid_rewrite stored_passkey_ok. split.
  - intros (s & a1 & (-> & path & Hp & Hg) & H). unfold present, bind, lazy_verifier, reads in H.
    fold cred in H. cbn in H. destruct (passkey_verifiers a) as [vs|] eqn:Hv; cbn in H; [|done].
    destruct (vs !! cred) as [v|] eqn:Hl; cbn in H.
    + destruct (Passkey.verify _ _ v auth) as [[[]|e] v'] eqn:Hok; cbn in H.
      * unfold keep_verifier, modify, ret in H. rewrite Hv in H. injection H as <- <-.
        by exists path, vs, v, v'.
      * unfold record_audit, log_audit, bind in H. by repeat (case_match; try done).
    + unfold or_refuse in H. destruct (Passkey.to_passkey_pubkey s) as [pk|]; cbn in H; [|done].
      pose proof (new_rejects pk cred (clock_sweep w) (clock_challenge w) auth) as Hn.
      destruct (Passkey.verify _ _ _ auth) as [[[]|e] v']; [by destruct Hn|]. cbn in H.
      unfold record_audit, log_audit, bind in H. by repeat (case_match; try done).
  - intros (path & vs & v & v' & Hp & Hg & Hv & Hl & Hok & ->). exists stored, a.
    split; [by split; [|exists path]|]. unfold present, bind, lazy_verifier, reads. fold cred.
    cbn. rewrite Hv. cbn. rewrite Hl. cbn. rewrite Hok. unfold keep_verifier, modify, ret. by rewrite Hv.
Qed.

Lemma verify_passkey_for_ok (w : World) auth wid a stored a' :
  verify_passkey_for (DE := DE) w auth wid a = (Ok stored, a') <->
  accepts w a auth stored a' /\ Passkey.wallet_id stored = wid.
Proof.
  unfold verify_passkey_for. rewrite bind_ok. setoid_rewrite verify_passkey_ok. split.
  - intros (s & a1 & Hs & H). destruct (String.eqb_spec (Passkey.wallet_id s) wid) as [<-|Hne].
    + by injection H as <- <-.
    + unfold record_audit, log_audit, bind in H. by repeat (case_match; try done).
  - intros [Hs <-]. exists stored, a'. by rewrite String.eqb_refl.
Qed.

(** No session key, or one that is active in the registry. *)
Definition session_ok (w : World) (a : Agent) (id : string) : Prop :=
  id = "" \/ SessionKeys.is_active (session_keys a) (session_io w) id (disk a) = Ok true.

Lemma ensure_session_key_active_ok (w : World) id a u a' :
  ensure_session_key_active (DE := DE) w id a = (Ok u, a') <-> a' = a /\ session_ok w a id.
Proof.
  unfold ensure_session_key_active, session_ok. destruct u.
  destruct id as [|c s]; cbn [is_empty].
  - split; [by intros [= <-]; split; [|left]|by intros [-> _]].
  - unfold bind, reads, or_refuse.
    destruct (SessionKeys.is_active _ _ _ _) as [[|]|e] eqn:H; cbn.
    + split; [by intros [= <-]; split; [|right]|by intros [-> _]].
    + split; [done|by intros (_ & [?|?])].
    + split; [done|by intros (_ & [?|?])].
Qed.

Lemma require_auth_ok auth a x a' :
  require_auth (DE := DE) auth a = (Ok x, a') <-> a' = a /\ auth = Some x.
Proof. destruct auth; cbn; split; [by intros [= <- <-]|by intros [-> [= <-]]|done|by intros [_ ?]]. Qed.

(** A log entry was written, or the agent does not insist on it. *)
Lemma audit_gate_ok r a u a' :
  audit_gate (DE := DE) r a = (Ok u, a') <-> a' = a /\ (audit_fail_closed a = true -> r = Ok tt).
Proof.
  unfold audit_gate, bind, reads, or_error, or_refuse. destruct u, r as [[]|e]; cbn.
  - split; [by intros [= <-]|by intros [-> _]].
  - destruct (audit_fail_closed a); cbn; [split; [done|intros [_ H]; by specialize (H eq_refl)]|].
    split; [by intros [= <-]|by intros [-> _]].
Qed.

Lemma log_audit_fail_closed (w : World) pt ev skid pl a :
  audit_fail_closed (log_audit (DE := DE) w pt ev skid pl a).2 = audit_fail_closed a.
Proof.
  unfold log_audit. destruct (audit_log a); [|done]. by destruct (AuditChain.append _ _ _ _ _ _ _) as [[? ?] ?].
Qed.
End Gates.
