(* ===== verification/Handlers.v ===== *)
(** * The request handlers of the Key-Agent

    The handlers of crates/oc-keyagent/src/handler.rs but [handle_sign_siwx]
    ([SignSiwx]) and the dispatch ([Dispatch]): signing behind a passkey or the
    internal token, session keys, the vault's lock, passkeys, the wallet list and
    telemetry.  A handler is a computation of [Agent]; its early returns are stops. *)

From Stdlib Require Import ZArith Lia Bool String Ascii.
From stdpp Require Import base list strings gmap.
From S2P Require Import Prelude Str Bytes Files MapStore Json DemoText Frame Proto ChainKey Agent.
From S2P Require Chain KeyCache Telemetry Passkey SessionKeys Nonce AuditChain Enclave WalletFile Vault SiwxMessage.

Local Open Scope oc_scope.

Definition DEFAULT_TELEMETRY_DRAIN : Z := 512.
Definition MAX_TELEMETRY_DRAIN : Z := 1024.

(** The chain of [SignMessage] and [SignTypedData], which name none. *)
Definition EVM_MAINNET : string := "eip155:1".

(** [{:0nx}]. *)
Fixpoint hex_padded (digits : nat) (n : Z) : string :=
  match digits with
  | O => ""
  | Datatypes.S k => hex_padded k (n / 16) +:+ String (hex_digit (n mod 16)) ""
  end.

Section Handlers.
Context {X : SiwxMessage.External} {S : SerdeNumber} {io_error json_error DE : Type}.
Context {A : AuditChain.AuditEnv io_error json_error}.
Context {D : Display json_error} {L : Lowercase} {G : Signers} {WK : WalletKeys} {K : Kdf}.
Context {J : Enclave.EnclaveJson json_error} {CU : Passkey.Curves}.
Context {PC : Codec io_error json_error (gmap string Passkey.StoredPasskeyPubkey)}.
Context {SC : Codec io_error json_error SessionKeys.SessionMap}.
Context {VJ : Vault.WalletJson io_error json_error}.
Context {WI : Wire} {SI : SessionIter} {TJ : TelemetryJson}.

Abbreviation World := (World (io_error := io_error) (json_error := json_error)).
Abbreviation Handler := (Ag DE Agent KeyAgentResponse).

Definition answer (r : Reply) : Handler := ret (response_ok (encode_reply r)).

(** ** Signing *)

(** A passkey bound to the wallet, and an active session key if one is named. *)
Definition passkey_gate (w : World) (auth : option Passkey.PasskeyAuthorization)
    (wallet_id session_key_id : string) : Ag DE Agent unit :=
  let* auth := require_auth auth in
  let* _ := verify_passkey_for w auth wallet_id in
  ensure_session_key_active w session_key_id.

(** The key and the chain type of its signer. *)
Definition chain_key (w : World) (wallet_id chain_id : string) : Ag DE Agent (bytes * Chain.ChainType) :=
  let* r := with_keys (load_chain_key (keys w) wallet_id chain_id) in or_error r.

(** Signature and signed bytes of a transaction given in hexadecimal; [what] and
    [encode_failed] are the words of the errors. *)
Definition sign_hex (what encode_failed text : string) (key : bytes) (ct : Chain.ChainType)
  : result string (bytes * string) :=
  let? tx := result_map_err (fun e => coded E_PARAM ("invalid " +:+ what +:+ " hex: " +:+ e))
    (AuditChain.hex_decode (default text (strip_prefix "0x" text))) in
  let? signable := result_map_err (fun e => coded E_PARAM ("extract signable failed: " +:+ e))
    (extract_signable_bytes ct tx) in
  let? output := result_map_err (fun e => coded E_INTERNAL ("signing failed: " +:+ e))
    (sign_transaction ct key signable) in
  let? signed := result_map_err (fun e => coded E_INTERNAL (encode_failed +:+ ": " +:+ e))
    (encode_signed_transaction ct tx output) in
  Ok (signature output, AuditChain.hex_encode signed).

Definition signed_payload (action chain_id : string) : Value :=
  AuditChain.json_object [("action", VString action); ("chain_id", VString chain_id)].

(** The audit record of a signature made in this process. *)
Definition audit_signature (w : World) (skid action chain_id : string) : Ag DE Agent unit :=
  let* r := record_audit_strict w AtEnd AuditChain.TransactionSigned (Some skid) (signed_payload action chain_id) in
  audit_gate r.

(** [if ctx.audit_fail_closed { record_audit_strict .. } else { record_audit .. }]. *)
Definition audit_signature_if (w : World) (skid action chain_id : string) : Ag DE Agent unit :=
  let* closed := reads audit_fail_closed in
  if (closed : bool) then
    let* r := record_audit_strict w AtEnd AuditChain.TransactionSigned (Some skid) (signed_payload action chain_id) in
    or_error r
  else record_audit w AtEnd AuditChain.TransactionSigned (Some skid) (signed_payload action chain_id).

Definition enclave_args (action : string) (skid : option string) (op wallet chain payload extra : string)
  : EnclaveSignArgs := {|
  es_action := action; es_session_key_id := skid; es_op := op; es_wallet_id := wallet;
  es_chain_id := chain; es_payload_hex := payload; es_extra_json := extra
|}.

(** The body [handle_sign_transaction] and [handle_sign_user_op] share: signature
    and signed bytes in hexadecimal. *)
Definition sign_transaction_with (w : World) (action op omitted what encode_failed : string)
    (skid wallet chain text : string) : Ag DE Agent (bytes * string) :=
  if Enclave.enclave_enabled (env w) then
    let* out := enclave_signature w (enclave_args action (Some skid) op wallet chain text "") in
    match eo_signed_tx_hex out with
    | Some h => ret (eo_signature out, h)
    | None => refuses E_INTERNAL omitted
    end
  else
    let* '(key, ct) := chain_key w wallet chain in
    let* out := or_error (sign_hex what encode_failed text key ct) in
    let* _ := audit_signature w skid action chain in
    ret out.

Definition handle_sign_transaction (w : World) (req : SignTransactionRequest) : Handler :=
  let* _ := passkey_gate w (st_auth req) (st_wallet_id req) (st_session_key_id req) in
  let* '(sig, signed) := sign_transaction_with w "sign_transaction" Enclave.OP_SIGN_TRANSACTION
    "enclave omitted signed tx" "tx" "encode signed tx failed"
    (st_session_key_id req) (st_wallet_id req) (st_chain_id req) (st_raw_tx_hex req) in
  answer (ReSignTransaction {| st_signature := sig; st_signed_tx_hex := signed |}).

Definition handle_sign_user_op (w : World) (req : SignUserOpRequest) : Handler :=
  let* _ := passkey_gate w (su_auth req) (su_wallet_id req) (su_session_key_id req) in
  let* '(sig, signed) := sign_transaction_with w "sign_user_op" Enclave.OP_SIGN_USER_OP
    "enclave omitted signed user op" "user op" "encode failed"
    (su_session_key_id req) (su_wallet_id req) (su_chain_id req) (su_user_op_hex req) in
  answer (ReSignUserOp {| su_signature := sig; su_signed_user_op_hex := signed |}).

(** [hex::encode] of the bytes of a message. *)
Definition hex_of (message : string) : string := AuditChain.hex_encode (Passkey.str_bytes message).

Definition handle_sign_message (w : World) (req : SignMessageRequest) : Handler :=
  let* _ := passkey_gate w (sm_auth req) (sm_wallet_id req) (sm_session_key_id req) in
  if Enclave.enclave_enabled (env w) then
    let* out := enclave_signature w (enclave_args "sign_message" (Some (sm_session_key_id req))
      Enclave.OP_SIGN_MESSAGE (sm_wallet_id req) EVM_MAINNET (hex_of (sm_message req)) "") in
    answer (ReSignMessage {| sm_signature := eo_signature out |})
  else
    let* r := with_keys (sign_message_core (keys w) (sm_wallet_id req) EVM_MAINNET (sm_message req)) in
    let* '(sig, _, _) := or_error r in
    let* _ := audit_signature_if w (sm_session_key_id req) "sign_message" EVM_MAINNET in
    answer (ReSignMessage {| sm_signature := sig |}).

Definition handle_sign_typed_data (w : World) (req : SignTypedDataRequest) : Handler :=
  let* _ := passkey_gate w (sd_auth req) (sd_wallet_id req) (sd_session_key_id req) in
  if Enclave.enclave_enabled (env w) then
    let* out := enclave_signature w (enclave_args "sign_typed_data" (Some (sd_session_key_id req))
      Enclave.OP_SIGN_TYPED_DATA (sd_wallet_id req) EVM_MAINNET "" (sd_typed_data_json req)) in
    answer (ReSignTypedData {| sd_signature := eo_signature out |})
  else
    let* '(key, _) := chain_key w (sd_wallet_id req) EVM_MAINNET in
    let* output := or_error (result_map_err (fun e => coded E_INTERNAL ("signing failed: " +:+ e))
      (sign_typed_data key (sd_typed_data_json req))) in
    let* _ := audit_signature_if w (sd_session_key_id req) "sign_typed_data" EVM_MAINNET in
    answer (ReSignTypedData {| sd_signature := signature output |}).

(** *** A passkey or the internal token *)

(** Exactly one of the two; [name] is the request's in messages and records. *)
Definition authorize (w : World) (name : string) (auth : option Passkey.PasskeyAuthorization)
    (token wallet_id : string) : Ag DE Agent string :=
  match auth with
  | Some auth =>
      if negb (is_empty token) then
        refuses E_PARAM (name +:+ " request must carry either auth or agent_token, not both")
      else
        let* _ := verify_passkey_for w auth wallet_id in ret "passkey"
  | None =>
      let* configured := reads sign_auth_internal_token in
      match configured with
      | Poisoned => refuses E_INTERNAL "sign_auth internal token mutex poisoned"
      | Held None => refuses E_AUTH "sign_auth internal token not configured"
      | Held (Some expected) =>
          if is_empty token then stop (Answer deny_forged)
          else if negb (String.eqb token expected) then
            let* _ := record_audit w AtRefusal AuditChain.AuthFailed None
              (AuditChain.json_object [("action", VString (name +:+ "_internal_token_mismatch"));
                                       ("wallet_id", VString wallet_id)]) in
            stop (Answer deny_forged)
          else ret "internal_token"
      end
  end.

(** The enclave's address and public key, which the sign-in requests need. *)
Definition enclave_identity (out : EnclaveSignOutput) : Ag DE Agent (bytes * string * bytes) :=
  match eo_address out, eo_public_key out with
  | Some a, Some p => ret (eo_signature out, a, p)
  | _, _ => refuses E_INTERNAL "enclave omitted address/public key"
  end.

Definition handle_sign_auth (w : World) (req : SignAuthRequest) : Handler :=
  if is_empty (sa_wallet_id req) then refuses E_PARAM "missing wallet_id"
  else if is_empty (sa_chain_id req) then refuses E_PARAM "missing chain_id"
  else
    let* mode := authorize w "sign_auth" (sa_auth req) (sa_agent_token req) (sa_wallet_id req) in
    if Enclave.enclave_enabled (env w) then
      let* out := enclave_signature w (enclave_args "sign_auth" None Enclave.OP_SIGN_AUTH
        (sa_wallet_id req) (sa_chain_id req) (hex_of (sa_message req)) "") in
      let* '(sig, addr, pk) := enclave_identity out in
      answer (ReSignAuth {| sa_signature := sig; sa_address := addr; sa_res_chain_id := sa_chain_id req;
                            sa_public_key := pk |})
    else
      let* r := with_keys (sign_message_core (keys w) (sa_wallet_id req) (sa_chain_id req) (sa_message req)) in
      let* '(sig, addr, pk) := or_error r in
      let* audit := record_audit_strict w AtEnd AuditChain.AuthSigned None
        (AuditChain.json_object [("chain_id", VString (sa_chain_id req));
                                 ("wallet_id", VString (sa_wallet_id req)); ("mode", VString mode)]) in
      let* _ := audit_gate audit in
      answer (ReSignAuth {| sa_signature := sig; sa_address := addr; sa_res_chain_id := sa_chain_id req;
                            sa_public_key := pk |}).

(** ** Session keys *)

Definition session_key_id_of (random : Z) : string := "sk-" +:+ hex_padded 32 random.

Definition default_policy (session_key_id : string) : Policy := {|
  po_version := 2; po_session_key_id := session_key_id; po_device_id := "keyagent";
  po_rules := None; po_budget_allocation := None
|}.

Definition handle_create_session_key (w : World) (req : CreateSessionKeyRequest) : Handler :=
  let* auth := require_auth (ck_auth req) in
  let* _ := verify_passkey w auth in
  let id := session_key_id_of (session_random w) in
  let record := {|
    SessionKeys.session_key_id := id; SessionKeys.label := ck_label req;
    SessionKeys.status := SessionKeys.Active; SessionKeys.created_at_unix := clock_now w;
    SessionKeys.revoked_at_unix := None |} in
  let* created := create_session w record in
  let* _ := or_refuse session_refusal created in
  let* _ := record_audit w AtEnd AuditChain.CreateSessionKey (Some id)
    (AuditChain.json_object [("label", VString (ck_label req)); ("status", VString "ACTIVE")]) in
  answer (ReCreateSessionKey {|
    ck_session_key_id := id; ck_created_at_unix := clock_now w;
    ck_policy := Some (default (default_policy id) (ck_rules req)) |}).

Definition handle_revoke_session_key (w : World) (req : RevokeSessionKeyRequest) : Handler :=
  let* auth := require_auth (rk_auth req) in
  let* _ := verify_passkey w auth in
  let* r := revoke_session w (rk_session_key_id req) in
  let* revoked := or_refuse session_refusal r in
  let* _ := record_audit w AtEnd AuditChain.RevokeSessionKey (Some (rk_session_key_id req))
    (AuditChain.json_object [("status", VString "REVOKED");
      ("created_at_unix", json_u64 (SessionKeys.created_at_unix revoked));
      ("revoked_at_unix", json_u64 (default (clock_now w) (SessionKeys.revoked_at_unix revoked)))]) in
  answer (ReRevokeSessionKey {|
    rk_revoked_at_unix := default (clock_answer w) (SessionKeys.revoked_at_unix revoked) |}).

Definition session_info (r : SessionKeys.SessionKeyRecord) : SessionKeyInfo := {|
  si_session_key_id := SessionKeys.session_key_id r; si_label := SessionKeys.label r;
  si_created_at_unix := SessionKeys.created_at_unix r; si_expires_at_unix := 0; si_policy := None;
  si_status := status_code (match SessionKeys.status r with
                            | SessionKeys.Active => StatusActive
                            | SessionKeys.Revoked => StatusRevoked
                            end)
|}.

Definition handle_list_session_keys (w : World) : Handler :=
  let* a := reads (fun a => a) in
  match SessionKeys.list_records map_values (session_keys a) (session_io w) (disk a) with
  | Err e => stop (Failed (KaInternal ("session key store: " +:+ show_session_error e)))
  | Ok records => answer (ReListSessionKeys {| lk_keys := map session_info records |})
  end.

(** ** The vault *)

Definition handle_lock_vault (w : World) : Handler :=
  let* _ := modify (fun a => set_cache (KeyCache.clear (key_cache a)) a) in
  let* l := reads passkey_verifiers in
  match l with
  | Poisoned => stop (Failed (KaInternal "passkey verifiers mutex poisoned"))
  | Held _ =>
      let* _ := modify (set_verifiers ∅) in
      let* _ := record_audit w AtEnd AuditChain.VaultLocked None
        (AuditChain.json_object [("cache_cleared", Bool true)]) in
      answer (ReLockVault {| lv_locked := true |})
  end.

Definition handle_unlock_vault (w : World) (req : UnlockVaultRequest) : Handler :=
  let* auth := require_auth (uv_auth req) in
  let* _ := verify_passkey_for w auth (uv_wallet_id req) in
  let* r := with_keys (fun '(i, d) => let '(r, d) := load_device_key (keys w) d in (r, (i, d))) in
  let* device_key := or_error r in
  let* token := or_error (result_map_err (fun e => coded E_DECRYPT ("token generation: " +:+ e))
    (token_new (token_clock (keys w)) (uv_wallet_id req) device_key)) in
  let* d := reads disk in
  if negb (wallet_decrypts_with_token (uv_wallet_id req) token d) then
    refuses E_DECRYPT "derivation does not unlock this wallet"
  else
    let* _ := record_audit w AtEnd AuditChain.VaultUnlocked None
      (AuditChain.json_object [("wallet_id", VString (uv_wallet_id req))]) in
    answer (ReUnlockVault {| uv_unlock_token := token_key token;
                             uv_expires_at_unix := (clock_now w + TOKEN_DEFAULT_TTL_SECS) mod 2 ^ 64 |}).

(** A listed wallet on the wire. *)
Definition wallet_info (wal : WalletFile.EncryptedWallet) : WalletInfo := {|
  wi_id := WalletFile.id wal; wi_name := WalletFile.name wal;
  wi_key_type := match WalletFile.key_type wal with
                 | WalletFile.Mnemonic => "mnemonic"
                 | WalletFile.PrivateKey => "private_key"
                 end;
  wi_created_at := match SiwxMessage.instant_parse (WalletFile.created_at wal) with
                   | Ok t => Z.max (SiwxMessage.as_second t) 0
                   | Err _ => 0%Z
                   end;
  wi_accounts := map (fun acc => {|
    wa_account_id := WalletFile.account_id acc; wa_address := WalletFile.address acc;
    wa_chain_id := WalletFile.chain_id acc; wa_derivation_path := WalletFile.derivation_path acc |})
    (WalletFile.accounts wal)
|}.

Definition handle_list_wallets (w : World) : Handler :=
  let* d := reads disk in
  match Vault.list_encrypted_wallets (vault_io w) vault_path d with
  | Err e => stop (Failed (KaInternal ("vault list failed: " +:+
               Vault.show_vault_error AuditChain.show_io show_json e)))
  | Ok wallets => answer (ReListWallets {| lw_wallets := map wallet_info wallets |})
  end.

(** ** Passkeys *)

Definition handle_register_passkey (w : World) (req : RegisterPasskeyRequest) : Handler :=
  if is_empty (rp_wallet_id req) then
    refuses E_PARAM "register_passkey requires a non-empty wallet_id (wildcard passkeys are rejected)"
  else
    let* path := or_refuse (fun e => refuse E_INTERNAL ("passkey store: " +:+ show_passkey_store_error e))
                   (passkey_store w) in
    let stored := {|
      Passkey.algorithm := rp_algorithm req; Passkey.public_key := rp_public_key req;
      Passkey.wallet_id := rp_wallet_id req; Passkey.registered_at := clock_now w;
      Passkey.rp_id := if is_empty (rp_rp_id req) then Passkey.default_rp_id else rp_rp_id req |} in
    let* r := register_passkey w path (rp_credential_id req) stored in
    let* _ := or_refuse (fun e => refuse E_INTERNAL ("register passkey: " +:+ show_passkey_store_error e)) r in
    let* _ := record_audit w AtEnd AuditChain.PasskeyRegistered None
      (AuditChain.json_object [("credential_id", VString (rp_credential_id req));
        ("wallet_id", VString (rp_wallet_id req)); ("algorithm", VString (rp_algorithm req))]) in
    answer (ReRegisterPasskey {| rp_registered := true |}).

Definition handle_generate_challenge (w : World) (req : GenerateChallengeRequest) : Handler :=
  let cred := gc_credential_id req in
  if is_empty cred then refuses E_PARAM "missing credential_id"
  else
    let* stored := stored_passkey w E_INTERNAL cred in
    let* r := issue w cred stored in
    let* challenge := or_refuse (fun e => refuse E_AUTH ("challenge rejected: " +:+ Passkey.show_passkey_error e)) r in
    let* _ := record_audit w AtEnd AuditChain.ChallengeIssued None
      (AuditChain.json_object [("credential_id", VString cred)]) in
    answer (ReGenerateChallenge {| gc_challenge := challenge |}).

(** ** Telemetry *)

Definition drain_size (req : DrainTelemetryRequest) : Z :=
  if (dt_max_records req =? 0)%Z then DEFAULT_TELEMETRY_DRAIN else Z.min (dt_max_records req) MAX_TELEMETRY_DRAIN.

(** [telemetry::drain]. *)
Definition drain_telemetry (max : nat) : Ag DE Agent Telemetry.TelemetryBatch := fun a =>
  let '(batch, t) := Telemetry.drain_at_most max (telemetry a) in (Ok batch, set_telemetry t a).

Definition handle_drain_telemetry (req : DrainTelemetryRequest) : Handler :=
  let* batch := drain_telemetry (Z.to_nat (drain_size req)) in
  let* json := or_refuse (fun e => response_error ("telemetry encode: " +:+ e)) (batch_to_json batch) in
  answer (ReDrainTelemetry {|
    dt_batch_json := json;
    dt_record_count := Z.min (Z.of_nat (length (Telemetry.records batch))) u32_max;
    dt_dropped := Telemetry.dropped batch |}).
End Handlers.
