(* ===== verification/SignSiwx.v ===== *)
(** * The agent's sign-in handler

    [handle_sign_siwx] of crates/oc-keyagent/src/handler.rs: authorization by a
    passkey or the internal token ([Handlers.authorize]), parsing and chain binding
    ([SiwxParse]), the time window ([SiwxAuth]), single use ([Nonce]), signing, and
    the audit record.  The handler is cut in two where the signer is called:
    [sign_siwx_gate] and [sign_siwx_finish]. *)

From Stdlib Require Import ZArith Lia Bool String Ascii.
From stdpp Require Import base list strings gmap.
From S2P Require Import Prelude Str Files MapStore Json Bytes Frame DemoText Passkey Proto ChainKey.
From S2P Require Import Agent AgentRules Handlers.
From S2P Require Chain KeyCache Telemetry SessionKeys Nonce AuditChain Enclave WalletFile Vault.
From S2P Require Import SiwxMessage SiwxParse SiwxAuth.

Local Open Scope oc_scope.

Definition siwx_expected_chain_name (namespace : string) : option string :=
  if String.eqb namespace "eip155" then Some EVM_CHAIN_NAME
  else if String.eqb namespace "solana" then Some SOLANA_CHAIN_NAME
  else None.

Section SignSiwx.
Context {X : External} {S : SerdeNumber} {io_error json_error DE : Type}.
Context {A : AuditChain.AuditEnv io_error json_error} {N : Nonce.NonceEnv io_error json_error}.
Context {D : Display json_error} {L : Lowercase} {G : Signers} {WK : WalletKeys} {K : Kdf}.
Context {J : Enclave.EnclaveJson json_error} {CU : Curves}.
Context {PC : Codec io_error json_error (gmap string StoredPasskeyPubkey)}.
Context {SC : Codec io_error json_error SessionKeys.SessionMap}.
Context {WI : Wire}.

Abbreviation World := (World (io_error := io_error) (json_error := json_error)).
Abbreviation Ag := (Ag DE Agent).

(** ** The handler *)

Definition show_nonce_error (e : Nonce.NonceStoreError io_error json_error) : string :=
  match e with
  | Nonce.Io e => "I/O error: " +:+ AuditChain.show_io e
  | Nonce.Json e => "JSON error: " +:+ show_json e
  | Nonce.HomeNotSet => "HOME not set"
  | Nonce.Corrupt path detail =>
      "siwx nonce store at " +:+ show_path path +:+ " is corrupt: " +:+ show_json detail +:+
      " — restore it from a backup or remove the file"
  | Nonce.Replay => "siwx message already consumed (replay detected)"
  end.

Definition debug_opt (o : option string) : string :=
  match o with Some s => "Some(" +:+ debug_str s +:+ ")" | None => "None" end.

(** UTF-8, parsing and chain binding: no state is touched. *)
Definition parse_and_bind (req : SignSiwxRequest) : result KeyAgentResponse SiwxMessage :=
  if negb (utf8 (req_message req)) then
    Err (refuse E_PARAM "sign_siwx message is not valid UTF-8")
  else
    let? msg := result_map_err
      (fun e => refuse E_PARAM ("invalid CAIP-122 message: " +:+ show_siwx_error debug_str e))
      (from_str (req_message req)) in
    match split_once ":" (req_chain_id req) with
    | None => Err (refuse E_PARAM ("chain_id '" +:+ req_chain_id req +:+ "' is not CAIP-2"))
    | Some (namespace, reference) =>
        match siwx_expected_chain_name namespace with
        | None => Err (refuse E_PARAM ("unsupported sign-in namespace: " +:+ namespace))
        | Some expected_name =>
            if negb (String.eqb reference (chain_id msg)) then
              Err (refuse E_PARAM ("chain_id mismatch: request '" +:+ req_chain_id req +:+
                                   "' != message '" +:+ chain_id msg +:+ "'"))
            else if negb (some_eqb (chain_name msg) expected_name) then
              Err (refuse E_PARAM ("chain name mismatch: expected " +:+ expected_name +:+ ", got " +:+
                                   debug_opt (chain_name msg)))
            else Ok msg
        end
    end.

Definition validation_code (e : SiwxError) : string :=
  match e with Expired | NotYetValid | StaleIssuedAt => E_AUTH | _ => E_PARAM end.

Definition validate_window (w : World) (msg : SiwxMessage) : Ag unit :=
  match validate msg (opts_new (domain msg) (nonce msg)) (clock_validate w) with
  | Panic => stop Panics
  | Ret r => or_refuse (fun e => refuse (validation_code e) ("siwx validation: " +:+ show_siwx_error debug_str e)) r
  end.

(** What the nonce store is told: the message's own expiry, or a day from now. *)
Definition nonce_expiry (w : World) (msg : SiwxMessage) : Z :=
  match expiration_time msg with
  | Some t => Z.max (as_second (parsed t)) 0
  | None => (clock_ttl w + Nonce.DEFAULT_SIWZ_TTL_SECS) mod 2 ^ 64
  end.

Definition consume_message (w : World) (req : SignSiwxRequest) (msg : SiwxMessage) : Ag unit :=
  let* r := consume_nonce w (req_message req) (nonce_expiry w msg) in
  match r with
  | Ok _ => ret tt
  | Err Nonce.Replay =>
      let* _ := record_audit w AtRefusal AuditChain.AuthFailed None
        (AuditChain.json_object [("action", VString "sign_siwx_replay");
                                 ("wallet_id", VString (req_wallet_id req));
                                 ("domain", VString (domain msg))]) in
      refuses E_AUTH "siwx message already consumed (replay detected)"
  | Err e => refuses E_INTERNAL ("siwx nonce store: " +:+ show_nonce_error e)
  end.

(** Everything before the signer is called: the message and the kind of
    authorization. *)
Definition sign_siwx_gate (w : World) (req : SignSiwxRequest) : Ag (SiwxMessage * string) :=
  if is_empty (req_wallet_id req) then refuses E_PARAM "missing wallet_id"
  else if is_empty (req_chain_id req) then refuses E_PARAM "missing chain_id"
  else if is_empty (req_message req) then refuses E_PARAM "missing message"
  else
    let* mode := authorize w "sign_siwx" (req_auth req) (req_agent_token req) (req_wallet_id req) in
    let* msg := or_refuse (fun r => r) (parse_and_bind req) in
    let* _ := validate_window w msg in
    let* _ := consume_message w req msg in
    ret (msg, mode).

(** Signature, address and public key, from the enclave or this process. *)
Definition siwx_signature (w : World) (req : SignSiwxRequest) : Ag (bytes * string * bytes) :=
  if Enclave.enclave_enabled (env w) then
    let* out := enclave_signature w (enclave_args "sign_siwx" None Enclave.OP_SIGN_AUTH
      (req_wallet_id req) (req_chain_id req) (hex_of (req_message req)) "") in
    enclave_identity out
  else
    let* r := with_keys (sign_message_core (keys w) (req_wallet_id req) (req_chain_id req) (req_message req)) in
    or_error r.

(** What the audit log is told about a signature. *)
Definition siwx_payload (req : SignSiwxRequest) (msg : SiwxMessage) (addr mode : string) : Value :=
  AuditChain.json_object [("chain_id", VString (req_chain_id req)); ("wallet_id", VString (req_wallet_id req));
                          ("domain", VString (domain msg)); ("address", VString addr);
                          ("mode", VString mode)].

(** The signer's answer, the ownership of the address and the audit record. *)
Definition sign_siwx_finish (w : World) (req : SignSiwxRequest) (msg : SiwxMessage) (mode : string)
  : Ag KeyAgentResponse :=
  let* '(sig, addr, pk) := siwx_signature w req in
  if negb (String.eqb (to_lowercase addr) (to_lowercase (address msg))) then
    refuses E_AUTH ("message address " +:+ address msg +:+ " is not owned by wallet " +:+ req_wallet_id req)
  else
    let* audit := record_audit_strict w AtEnd AuditChain.SiwxSigned None (siwx_payload req msg addr mode) in
    let* _ := audit_gate audit in
    answer (ReSignSiwx {| res_signature := sig; res_address := addr; res_chain_id := req_chain_id req;
                          res_public_key := pk |}).

Definition handle_sign_siwx (w : World) (req : SignSiwxRequest) : Ag KeyAgentResponse :=
  let* '(msg, mode) := sign_siwx_gate w req in
  sign_siwx_finish w req msg mode.

(** ** Who may sign, and what *)

(** The proof a request carries: an accepted passkey of the wallet, or the
    configured token. *)
Inductive authorized (w : World) (a : Agent) (auth : option PasskeyAuthorization) (token wallet : string)
  : string -> Agent -> Prop :=
| by_passkey proof stored a' :
    auth = Some proof -> token = "" -> accepts w a proof stored a' -> wallet_id stored = wallet ->
    authorized w a auth token wallet "passkey" a'
| by_token expected :
    auth = None -> sign_auth_internal_token a = Held (Some expected) -> expected <> "" -> token = expected ->
    authorized w a auth token wallet "internal_token" a.

Lemma authorize_ok (w : World) name auth token wallet a mode a' :
  authorize (DE := DE) w name auth token wallet a = (Ok mode, a') <-> authorized w a auth token wallet mode a'.
Proof.
  unfold authorize. split.
  - destruct auth as [auth|].
    + destruct (is_empty token) eqn:Ht; [|done]. cbn [negb].
      rewrite bind_ok. intros (stored & a1 & (Ha & Hw)%verify_passkey_for_ok & [= <- <-]).
      eapply by_passkey; [done|by apply is_empty_true|exact Ha|exact Hw].
    + unfold bind, reads. cbn. destruct (sign_auth_internal_token a) as [[expected|]|] eqn:Hs; try done.
      destruct (is_empty token) eqn:Ht; [done|].
      destruct (String.eqb_spec token expected) as [->|]; cbn [negb];
        [|unfold record_audit, log_audit, bind; by repeat (case_match; try done)].
      intros [= <- <-]. eapply by_token; [done|exact Hs| |done]. by intros ->.
  - destruct 1 as [auth' stored a' -> -> Ha Hw|expected -> Hs Hn ->].
    + cbn. apply bind_ok. exists stored, a'. split; [|done]. by apply verify_passkey_for_ok.
    + unfold bind, reads. cbn. rewrite Hs. destruct expected as [|c t]; [done|]. cbn [is_empty].
      by rewrite String.eqb_refl.
Qed.

(** The text is a message for the requested chain. *)
Definition bound_message (req : SignSiwxRequest) (msg : SiwxMessage) : Prop :=
  utf8 (req_message req) = true /\ from_str (req_message req) = Ok msg /\
  exists namespace name,
    split_once ":" (req_chain_id req) = Some (namespace, chain_id msg) /\
    siwx_expected_chain_name namespace = Some name /\ chain_name msg = Some name.

Lemma some_eqb_true o s : some_eqb o s = true <-> o = Some s.
Proof.
  destruct o as [x|]; cbn; [|done]. rewrite String.eqb_eq. split; [by intros ->|by intros [= ->]].
Qed.

Lemma parse_and_bind_ok req msg : parse_and_bind req = Ok msg <-> bound_message req msg.
Proof.
  unfold parse_and_bind, bound_message. destruct (utf8 (req_message req)); cbn [negb];
    [|split; [done|by intros [? _]]].
  destruct (from_str (req_message req)) as [m|e]; cbn [result_map_err result_bind];
    [|split; [done|by intros (_ & ? & _)]].
  destruct (split_once ":" (req_chain_id req)) as [[ns r]|];
    [|split; [done|by intros (_ & _ & ? & ? & ? & _)]].
  destruct (siwx_expected_chain_name ns) as [name|] eqn:Hn;
    [|split; [done|intros (_ & _ & ns' & name' & [= <- _] & Hn' & _); congruence]].
  destruct (String.eqb_spec r (chain_id m)) as [->|Hr]; cbn [negb];
    [|split; [done|intros (_ & [= <-] & ? & ? & [= _ ?] & _); congruence]].
  destruct (some_eqb (chain_name m) name) eqn:Hc; cbn [negb].
  - apply some_eqb_true in Hc. split; [intros [= <-]; split_and!; [done|done|by exists ns, name]|].
    by intros (_ & [= <-] & _).
  - split; [done|]. intros (_ & [= <-] & ns' & name' & [= <-] & Hn' & Hc').
    rewrite Hn' in Hn. injection Hn as <-. apply some_eqb_true in Hc'. congruence.
Qed.

Lemma validate_window_ok (w : World) msg a u a' :
  validate_window w msg a = (Ok u, a') <->
  a' = a /\ validate msg (opts_new (domain msg) (nonce msg)) (clock_validate w) = Ret (Ok tt).
Proof.
  unfold validate_window. destruct u, (validate msg _ _) as [[[]|]|]; cbn; (split; [try done|intros [-> ?]; try done]).
  by intros [= <-].
Qed.

(** The call of the nonce store that a request makes. *)
Definition consume_call (w : World) (a : Agent) (req : SignSiwxRequest) (msg : SiwxMessage)
  : result (Nonce.NonceStoreError io_error json_error) unit * list FS :=
  Nonce.consume (nonce_store a) (nonce_io w) (AuditChain.sha256 (req_message req))
    (nonce_expiry w msg) (clock_load w) (clock_consume w) (disk a).

Lemma consume_nonce_ok (w : World) req msg a r a' :
  consume_nonce (DE := DE) w (req_message req) (nonce_expiry w msg) a = (Ok r, a') <->
  r = (consume_call w a req msg).1 /\
  a' = set_disk (default (disk a) (last (consume_call w a req msg).2)) a.
Proof.
  unfold consume_nonce, with_disk, bind, reads, consume_call. cbn.
  destruct (Nonce.consume _ _ _ _ _ _ _) as [r' trace]. cbn. split; [by intros [= -> ->]|by intros [-> ->]].
Qed.

Lemma consume_message_ok (w : World) req msg a u a' :
  consume_message w req msg a = (Ok u, a') <->
  (consume_call w a req msg).1 = Ok tt /\
  a' = set_disk (default (disk a) (last (consume_call w a req msg).2)) a.
Proof.
  unfold consume_message. rewrite bind_ok. setoid_rewrite consume_nonce_ok. destruct u. split.
  - intros (r & a1 & [-> ->] & H). destruct (consume_call w a req msg) as [[[]|[]] trace]; cbn in *;
      try done; [by injection H as <-|].
    unfold record_audit, log_audit, bind in H. by repeat (case_match; try done).
  - intros [Hr ->]. eexists (Ok tt), _. split; [by split|]. cbn. reflexivity.
Qed.

(** What lets a request reach the signer, and the agent it leaves: the fields are
    there, it is authorized, the text is a message for the chain inside its time
    window, and the message is consumed. *)
Definition signable (w : World) (a : Agent) (req : SignSiwxRequest) (msg : SiwxMessage)
    (mode : string) (a' : Agent) : Prop :=
  req_wallet_id req <> "" /\ req_chain_id req <> "" /\ req_message req <> "" /\
  bound_message req msg /\
  validate msg (opts_new (domain msg) (nonce msg)) (clock_validate w) = Ret (Ok tt) /\
  exists a1, authorized w a (req_auth req) (req_agent_token req) (req_wallet_id req) mode a1 /\
    (consume_call w a1 req msg).1 = Ok tt /\
    a' = set_disk (default (disk a1) (last (consume_call w a1 req msg).2)) a1.

Lemma sign_siwx_gate_ok (w : World) req a msg mode a' :
  sign_siwx_gate w req a = (Ok (msg, mode), a') <-> signable w a req msg mode a'.
Proof.
  unfold sign_siwx_gate, signable. rewrite <- !is_empty_false, <- parse_and_bind_ok.
  destruct (is_empty (req_wallet_id req)); [by split; [|intros [? _]]|].
  destruct (is_empty (req_chain_id req)); [by split; [|intros (_ & ? & _)]|].
  destruct (is_empty (req_message req)); [by split; [|intros (_ & _ & ? & _)]|].
  rewrite bind_ok. setoid_rewrite (authorize_ok w). split.
  - intros (m & a1 & Ha & H). apply bind_ok in H as (msg' & a2 & Hp & H).
    unfold or_refuse in Hp. injection Hp as Hp <-. destruct (parse_and_bind req) as [x|]; [|done].
    injection Hp as ->. apply bind_ok in H as (u & a3 & [-> Hv]%validate_window_ok & H).
    apply bind_ok in H as (u' & a4 & [Hc ->]%consume_message_ok & [= <- <- <-]).
    split_and!; try done. by exists a1.
  - intros (_ & _ & _ & Hp & Hv & a1 & Ha & Hc & ->). exists mode, a1. split; [done|].
    apply bind_ok. exists msg, a1. split; [unfold or_refuse; by rewrite Hp|].
    apply bind_ok. exists tt, a1. split; [by apply validate_window_ok|].
    apply bind_ok. eexists tt, _. split; [by apply consume_message_ok|done].
Qed.

(** A request answered with the payload [p]. *)
Definition signs (w : World) (a : Agent) (req : SignSiwxRequest) (p : bytes) (a' : Agent) : Prop :=
  exists msg mode a1 sig addr pk a2 recorded,
    signable w a req msg mode a1 /\
    siwx_signature w req a1 = (Ok (sig, addr, pk), a2) /\
    to_lowercase addr = to_lowercase (address msg) /\
    log_audit (DE := DE) w AtEnd AuditChain.SiwxSigned None (siwx_payload req msg addr mode) a2 = (Ok recorded, a') /\
    (audit_fail_closed a2 = true -> recorded = Ok tt) /\
    p = encode_reply (ReSignSiwx {| res_signature := sig; res_address := addr; res_chain_id := req_chain_id req;
                                    res_public_key := pk |}).

Lemma record_strict_ok (w : World) pt ev skid pl a r a' :
  record_audit_strict (DE := DE) w pt ev skid pl a = (Ok r, a') <->
  exists r0, log_audit (DE := DE) w pt ev skid pl a = (Ok r0, a') /\
    r = result_map_err (fun e => coded E_AUDIT ("audit unavailable: " +:+ e)) r0.
Proof.
  unfold record_audit_strict. rewrite bind_ok. split.
  - intros (r0 & a1 & H & [= <- <-]). by exists r0.
  - intros (r0 & H & ->). by exists r0, a'.
Qed.

Lemma sign_siwx_finish_ok (w : World) req msg mode a1 p a' :
  sign_siwx_finish w req msg mode a1 = (Ok (response_ok p), a') <->
  exists sig addr pk a2 recorded,
    siwx_signature w req a1 = (Ok (sig, addr, pk), a2) /\
    to_lowercase addr = to_lowercase (address msg) /\
    log_audit (DE := DE) w AtEnd AuditChain.SiwxSigned None (siwx_payload req msg addr mode) a2 = (Ok recorded, a') /\
    (audit_fail_closed a2 = true -> recorded = Ok tt) /\
    p = encode_reply (ReSignSiwx {| res_signature := sig; res_address := addr; res_chain_id := req_chain_id req;
                                    res_public_key := pk |}).
Proof.
  unfold sign_siwx_finish. rewrite bind_ok. split.
  - intros ([[sg addr] pk] & a2 & Hs & H). destruct (String.eqb_spec (to_lowercase addr) (to_lowercase (address msg)))
      as [Ho|Ho]; cbn [negb] in H; [|done].
    apply bind_ok in H as (r & a3 & (r0 & Hl & ->)%record_strict_ok & H).
    apply bind_ok in H as (u & a4 & [-> Hg]%audit_gate_ok & [= <- <-]).
    exists sg, addr, pk, a2, r0. split_and!; try done. intros Hc.
    pose proof (log_audit_fail_closed (DE := DE) w AtEnd AuditChain.SiwxSigned None
      (siwx_payload req msg addr mode) a2) as Hf. rewrite Hl in Hf. cbn in Hf. rewrite Hf in Hg.
    specialize (Hg Hc). by destruct r0 as [[]|].
  - intros (sg & addr & pk & a2 & r0 & Hs & Ho & Hl & Hr & ->). exists (sg, addr, pk), a2. split; [done|].
    rewrite Ho, String.eqb_refl. cbn [negb]. apply bind_ok. eexists _, a'. split; [by apply record_strict_ok; exists r0|].
    apply bind_ok. exists tt, a'. split; [|done]. apply audit_gate_ok. split; [done|]. intros Hc.
    pose proof (log_audit_fail_closed (DE := DE) w AtEnd AuditChain.SiwxSigned None
      (siwx_payload req msg addr mode) a2) as Hf. rewrite Hl in Hf. cbn in Hf. rewrite Hf in Hc.
    by rewrite (Hr Hc).
Qed.

Abbreviation silent m := (stops_without (DE := DE) (St := Agent) answered m).

Lemma silent_authorize (w : World) name auth token wallet : silent (authorize w name auth token wallet).
Proof.
  unfold authorize, record_audit. destruct auth as [auth|].
  - destruct (negb _); [silently|]. apply stops_bind; [apply silent_verify_passkey_for|intros; silently].
  - silently.
Qed.

Lemma silent_parse_and_bind req : silent (or_refuse (fun r => r) (parse_and_bind req)).
Proof.
  assert (Hr : forall e, parse_and_bind req = Err e -> exists c d, e = refuse c d).
  { intros e. unfold parse_and_bind, result_bind, result_map_err.
    repeat case_match; intros He; simplify_eq; by eexists _, _. }
  intros a r a'. unfold or_refuse. destruct (parse_and_bind req) as [|e]; [done|].
  destruct (Hr e eq_refl) as (c & d & ->). intros [= <- _]. by intros [].
Qed.

Lemma silent_siwx_signature (w : World) req : silent (siwx_signature w req).
Proof.
  unfold siwx_signature, enclave_identity. destruct (Enclave.enclave_enabled _).
  - apply stops_bind; [apply silent_enclave_signature|intros; silently].
  - silently.
Qed.

Lemma silent_sign_siwx_gate (w : World) req : silent (sign_siwx_gate w req).
Proof.
  unfold sign_siwx_gate, validate_window, consume_message, consume_nonce, record_audit.
  do 3 (destruct (is_empty _); [silently|]).
  apply stops_bind; [apply silent_authorize|intros mode].
  apply stops_bind; [apply silent_parse_and_bind|intros msg]. silently. by intros a r a'.
Qed.

Lemma silent_handle_sign_siwx (w : World) req : silent (handle_sign_siwx w req).
Proof.
  unfold handle_sign_siwx. apply stops_bind; [apply silent_sign_siwx_gate|intros [msg mode]].
  unfold sign_siwx_finish. apply stops_bind; [apply silent_siwx_signature|intros [[sg addr] pk]].
  unfold record_audit_strict, audit_gate, answer. silently.
Qed.

(** C26 The sign-in handler answers with a signature exactly when the request is
    authorized by a passkey of the wallet or by the internal token, names a wallet,
    its text is a UTF-8 sign-in message for the requested chain, inside its time
    window and not consumed before, the signer succeeded with an address that is the
    message's, and, when the agent is set to fail closed, the signature is in the
    audit log. *)
Theorem handle_sign_siwx_ok (w : World) a req p a' :
  respond (handle_sign_siwx w req) a = (Ok (response_ok p), a') <-> signs w a req p a'.
Proof.
  rewrite (respond_ok _ _ _ _ (silent_handle_sign_siwx w req)). unfold handle_sign_siwx, signs. rewrite bind_ok. split.
  - intros ([msg mode] & a1 & Hg%sign_siwx_gate_ok & (sg & addr & pk & a2 & r & H)%sign_siwx_finish_ok).
    by exists msg, mode, a1, sg, addr, pk, a2, r.
  - intros (msg & mode & a1 & sg & addr & pk & a2 & r & Hg & H). exists (msg, mode), a1.
    split; [by apply sign_siwx_gate_ok|]. apply sign_siwx_finish_ok. by exists sg, addr, pk, a2, r.
Qed.
End SignSiwx.
