(* ===== verification/Dispatch.v ===== *)
(** * The dispatch of the Key-Agent and its default context

    [dispatch_with] of crates/oc-keyagent/src/handler.rs runs the handlers of
    [Handlers] and [SignSiwx] on one request; [AgentContext::open_default] opens the
    stores below the home directory.  [dispatch_pres] reduces an invariant of the
    agent to the steps of [AgentRules.Stable]. *)

From Stdlib Require Import ZArith Lia Bool String Ascii.
From stdpp Require Import base list strings gmap.
From S2P Require Import Prelude Str Bytes Files MapStore Json Frame Proto ChainKey.
From S2P Require Import Agent AgentRules Handlers SignSiwx.
From S2P Require Chain KeyCache Telemetry Names Passkey SessionKeys Nonce AuditChain Enclave Vault SiwxMessage.

Local Open Scope oc_scope.

(** [KeyAgentResponse::not_implemented]. *)
Definition not_implemented (feature : string) : KeyAgentResponse :=
  response_error ("not yet implemented: " +:+ feature).

Definition E_UNSUPPORTED : string := "E_UNSUPPORTED".

Section Dispatch.
Context {X : SiwxMessage.External} {S : SerdeNumber} {io_error json_error DE : Type}.
Context {A : AuditChain.AuditEnv io_error json_error} {N : Nonce.NonceEnv io_error json_error}.
Context {D : Display json_error} {L : Lowercase} {G : Signers} {WK : WalletKeys} {K : Kdf}.
Context {J : Enclave.EnclaveJson json_error} {CU : Passkey.Curves}.
Context {PC : Codec io_error json_error (gmap string Passkey.StoredPasskeyPubkey)}.
Context {SC : Codec io_error json_error SessionKeys.SessionMap}.
Context {VJ : Vault.WalletJson io_error json_error}.
Context {WI : Wire} {SI : SessionIter} {TJ : TelemetryJson}.

Abbreviation World := (World (io_error := io_error) (json_error := json_error)).
Abbreviation Handler := (Ag DE Agent KeyAgentResponse).

Definition unsupported (what : string) : Handler := ret (not_implemented (coded E_UNSUPPORTED what)).

(** The handler of a request. *)
Definition handle (w : World) (req : KeyAgentRequest) : Handler :=
  match request_kind req with
  | Some ListWallets => handle_list_wallets w
  | Some (SignTransaction r) => handle_sign_transaction w r
  | Some (SignMessage r) => handle_sign_message w r
  | Some (SignAuth r) => handle_sign_auth w r
  | Some (SignSiwx r) => handle_sign_siwx w r
  | Some (SignTypedData r) => handle_sign_typed_data w r
  | Some (SignUserOp r) => handle_sign_user_op w r
  | Some (CreateSessionKey r) => handle_create_session_key w r
  | Some (RevokeSessionKey r) => handle_revoke_session_key w r
  | Some ListSessionKeys => handle_list_session_keys w
  | Some (GetBalance _) =>
      unsupported "GetBalance — Net-Agent handles balance queries (R56: no network I/O in Key-Agent)"
  | Some LockVault => handle_lock_vault w
  | Some (UnlockVault r) => handle_unlock_vault w r
  | Some (RegisterPasskey r) => handle_register_passkey w r
  | Some (GenerateChallenge r) => handle_generate_challenge w r
  | Some (GetSecret _) =>
      unsupported "GetSecret — secret operations handled locally by CLI (R56: no oc-secret dep in Key-Agent)"
  | Some (ListSecrets _) =>
      unsupported "ListSecrets — secret operations handled locally by CLI (R56: no oc-secret dep in Key-Agent)"
  | Some (GenerateTotp _) =>
      unsupported "GenerateTotp — secret operations handled locally by CLI (R56: no oc-secret dep in Key-Agent)"
  | Some (DrainTelemetry r) => handle_drain_telemetry r
  | None => stop (Failed (InvalidRequest (coded E_PARAM "request kind is None (empty request)")))
  end.

Definition dispatch_with (w : World) (req : KeyAgentRequest) : Handler := respond (handle w req).

(** ** Other users of the passkey gate *)

(** [authorize_passkey], on the agent of the process; [debug_deny] is the derived
    [Debug] of a refusal. *)
Definition authorize_passkey (debug_deny : DenyReasonPayload -> string) (w : World)
    (auth : Passkey.PasskeyAuthorization) : Ag DE Agent (result string unit) := fun a =>
  match verify_passkey w auth a with
  | (Ok _, a) => (Ok (Ok tt), a)
  | (Err (Answer resp), a) =>
      (Ok (Err (match kind resp with
                | Some (RError message) => message
                | Some (RDeny reason) => "denied: " +:+ debug_deny reason
                | Some (ROk _) => "unexpected success payload"
                | None => "missing authorization response"
                end)), a)
  | (Err s, a) => (Err s, a)
  end.

(** ** The default context *)

(** What opening the stores reads of the world besides the disk. *)
Record Opening := {
  home : option string;
  opening_key : @AuditChain.KeyIo io_error;
  opening_random : string;
  opening_log : @AuditChain.OpenIo io_error
}.

(** [oc_core::paths::state_path] of a name without a directory, split into parent
    and name. *)
Definition state_file (home : option string) (dir name : string) : result string Path :=
  match Names.state_dir home with
  | Ok d => Ok (Some (if is_empty dir then d else Names.join d dir), Some name)
  | Err (Names.InvalidInput m) => Err (show_invalid_input m)
  end.

(** [open_default] of each store. *)
Definition audit_log_path (home : option string) : result string Path := state_file home "logs" "audit.jsonl".

Definition key_store_default (home : option string) : result (AuditChain.AuditError io_error json_error) Path :=
  result_map_err AuditChain.DeviceKeyError (state_file home "" "audit_device.key").

Definition session_store_default (home : option string)
  : result (SessionKeys.SessionKeyStoreError io_error json_error) Path :=
  result_map_err (fun _ => SessionKeys.HomeNotSet) (state_file home "" "session_keys.json").

Definition nonce_store_default (home : option string) : result (Nonce.NonceStoreError io_error json_error) Path :=
  result_map_err (fun _ => Nonce.HomeNotSet) (state_file home "" "siwx_nonces.json").

Definition passkey_store_default (home : option string)
  : result (Passkey.PasskeyStoreError io_error json_error) Path :=
  result_map_err (fun _ => Passkey.HomeNotSet) (state_file home "" "passkeys.json").

(** [AgentContext::open_default] in a process that has the statics [c], [i] and
    [t]. *)
Definition open_default (o : Opening) (c : KeyCache.KeyCache bytes) (i : Chain.Interner)
    (t : Telemetry.TelemetryBuffer) (d : FS) : result (KeyAgentError DE) Agent * FS :=
  match audit_log_path (home o), key_store_default (home o) with
  | Err e, _ => (Err (KaInternal e), d)
  | _, Err e => (Err (KaInternal ("failed to open device key store: " +:+ show_audit_error e)), d)
  | Ok log_path, Ok key_path =>
      let '(r, trace) := AuditChain.load_or_generate (opening_key o) (opening_random o) key_path d in
      let d := default d (last trace) in
      match r with
      | Err e => (Err (KaInternal ("failed to load/generate device key: " +:+ show_audit_error e)), d)
      | Ok key =>
          let '(r, d) := AuditChain.open (opening_log o) log_path "keyagent" key d in
          match r, session_store_default (home o), nonce_store_default (home o) with
          | Err e, _, _ => (Err (KaInternal ("failed to open audit log: " +:+ show_audit_error e)), d)
          | _, Err e, _ => (Err (KaInternal ("session key store: " +:+ show_session_error e)), d)
          | _, _, Err e => (Err (KaInternal ("siwx nonce store: " +:+ show_nonce_error e)), d)
          | Ok log, Ok sessions, Ok nonces =>
              (Ok {| audit_log := Held log; audit_fail_closed := false;
                     passkey_verifiers := Held ∅; sign_auth_internal_token := Held None;
                     session_keys := sessions; nonce_store := nonces;
                     key_cache := c; interner := i; telemetry := t; disk := d |}, d)
          end
      end
  end.
End Dispatch.

(** ** What every request preserves *)

(** Decomposes a handler into the steps of [Stable]; the invariant's hypothesis is
    [HI]. *)
Ltac pres_step HI :=
  first
    [ apply pres_ret | apply pres_stop | apply pres_reads
    | apply pres_refuses | apply pres_or_error | apply pres_or_refuse
    | apply (pres_audit_gate _) | apply (pres_record_audit _ _ HI) | apply (pres_record_audit_strict _ _ HI)
    | apply (pres_verify_passkey_for _ _ HI) | apply (pres_verify_passkey _ _ HI)
    | apply pres_stored_passkey | apply pres_require_auth | apply pres_ensure_session_key_active
    | apply (pres_enclave_signature _ _ HI)
    | apply (stable_issue _ _ HI) | apply (stable_create _ _ HI) | apply (stable_revoke _ _ HI)
    | (apply (stable_keys _ _ HI); intros ?)
    | (apply pres_bind; [|intros ?])
    | match goal with |- pres _ (match ?x with _ => _ end) => destruct x end ].
Ltac preserve HI := repeat pres_step HI.

Section DispatchPres.
Context {X : SiwxMessage.External} {S : SerdeNumber} {io_error json_error DE : Type}.
Context {A : AuditChain.AuditEnv io_error json_error} {N : Nonce.NonceEnv io_error json_error}.
Context {D : Display json_error} {L : Lowercase} {G : Signers} {WK : WalletKeys} {K : Kdf}.
Context {J : Enclave.EnclaveJson json_error} {CU : Passkey.Curves}.
Context {PC : Codec io_error json_error (gmap string Passkey.StoredPasskeyPubkey)}.
Context {SC : Codec io_error json_error SessionKeys.SessionMap}.
Context {VJ : Vault.WalletJson io_error json_error}.
Context {WI : Wire} {SI : SessionIter} {TJ : TelemetryJson}.
Context (w : World (io_error := io_error) (json_error := json_error)) (I : Agent -> Prop)
  (HI : Stable (DE := DE) w I).

Abbreviation pres m := (pres (DE := DE) (St := Agent) I m).

Lemma pres_chain_key wid cid : pres (chain_key w wid cid).
Proof. unfold chain_key. preserve HI. apply load_chain_key_frame. Qed.

Lemma pres_passkey_gate auth wid skid : pres (passkey_gate w auth wid skid).
Proof. unfold passkey_gate. preserve HI. Qed.

Lemma pres_audit_signature_if skid action cid : pres (audit_signature_if w skid action cid).
Proof. unfold audit_signature_if. preserve HI. Qed.

Lemma pres_message_core wid cid m : pres (with_keys (sign_message_core (keys w) wid cid m)).
Proof. apply (stable_keys _ _ HI). intros st. apply sign_message_core_frame. Qed.

Lemma pres_sign_transaction_with action op omitted what failed skid wid cid text :
  pres (sign_transaction_with w action op omitted what failed skid wid cid text).
Proof.
  unfold sign_transaction_with. destruct (Enclave.enclave_enabled _); [preserve HI|].
  apply pres_bind; [apply pres_chain_key|intros [key ct]]. unfold audit_signature. preserve HI.
Qed.

Lemma pres_handle_sign_transaction r : pres (handle_sign_transaction w r).
Proof.
  unfold handle_sign_transaction, answer. apply pres_bind; [apply pres_passkey_gate|intros _].
  apply pres_bind; [apply pres_sign_transaction_with|intros ?]. preserve HI.
Qed.

Lemma pres_handle_sign_user_op r : pres (handle_sign_user_op w r).
Proof.
  unfold handle_sign_user_op, answer. apply pres_bind; [apply pres_passkey_gate|intros _].
  apply pres_bind; [apply pres_sign_transaction_with|intros ?]. preserve HI.
Qed.

Lemma pres_handle_sign_message r : pres (handle_sign_message w r).
Proof.
  unfold handle_sign_message, answer. apply pres_bind; [apply pres_passkey_gate|intros _].
  destruct (Enclave.enclave_enabled _); [preserve HI|].
  apply pres_bind; [apply pres_message_core|intros ?]. unfold audit_signature_if. preserve HI.
Qed.

Lemma pres_handle_sign_typed_data r : pres (handle_sign_typed_data w r).
Proof.
  unfold handle_sign_typed_data, answer. apply pres_bind; [apply pres_passkey_gate|intros _].
  destruct (Enclave.enclave_enabled _); [preserve HI|].
  apply pres_bind; [apply pres_chain_key|intros ?]. unfold audit_signature_if. preserve HI.
Qed.

Lemma pres_authorize name auth token wid : pres (authorize w name auth token wid).
Proof. unfold authorize. preserve HI. Qed.

Lemma pres_handle_sign_auth r : pres (handle_sign_auth w r).
Proof.
  unfold handle_sign_auth, enclave_identity, answer.
  destruct (is_empty _); [preserve HI|]. destruct (is_empty _); [preserve HI|].
  apply pres_bind; [apply pres_authorize|intros mode].
  destruct (Enclave.enclave_enabled _); [preserve HI|].
  apply pres_bind; [apply pres_message_core|intros ?]. preserve HI.
Qed.

Lemma pres_sign_siwx_finish r msg mode : pres (sign_siwx_finish w r msg mode).
Proof.
  unfold sign_siwx_finish, siwx_signature, enclave_identity, answer.
  apply pres_bind; [destruct (Enclave.enclave_enabled _); [preserve HI|]|intros ?; preserve HI].
  apply pres_bind; [apply pres_message_core|intros ?; preserve HI].
Qed.

Lemma pres_handle_lock_vault : pres (handle_lock_vault w).
Proof.
  unfold handle_lock_vault. apply pres_bind; [intros a Ha; by apply (stable_cache _ _ HI)|intros _].
  intros a Ha. unfold bind at 1, reads. cbn. destruct (passkey_verifiers a) as [vs|] eqn:Hv; [|done].
  unfold bind at 1, modify. cbn. apply (pres_bind I (record_audit w AtEnd AuditChain.VaultLocked None _));
    [apply (pres_record_audit _ _ HI)|intros ?; apply pres_ret|by eapply (stable_forget _ _ HI)].
Qed.

Lemma pres_handle_unlock_vault r : pres (handle_unlock_vault w r).
Proof.
  unfold handle_unlock_vault, answer. preserve HI. destruct st as [i d].
  pose proof (load_device_key_frame (keys w) d) as H. by destruct (load_device_key (keys w) d).
Qed.

Lemma pres_handle_register_passkey r : pres (handle_register_passkey w r).
Proof.
  unfold handle_register_passkey, answer. destruct (is_empty _); [preserve HI|].
  destruct (passkey_store w) as [path|] eqn:Hp; [|by intros a].
  intros a Ha. unfold bind at 1, or_refuse. cbn [result_map_err].
  set (m := bind (register_passkey _ _ _ _) _). assert (Hm : pres m); [|by apply Hm].
  apply pres_bind; [by apply (stable_register _ _ HI)|intros r0]. preserve HI.
Qed.

Lemma pres_handle_drain_telemetry r : pres (handle_drain_telemetry r).
Proof.
  unfold handle_drain_telemetry, answer. apply pres_bind; [|intros ?; preserve HI].
  intros a Ha. unfold drain_telemetry. destruct (Telemetry.drain_at_most _ _).
  by apply (stable_telemetry _ _ HI).
Qed.

End DispatchPres.

Section DispatchTakes.
Context {X : SiwxMessage.External} {S : SerdeNumber} {io_error json_error DE : Type}.
Context {A : AuditChain.AuditEnv io_error json_error} {N : Nonce.NonceEnv io_error json_error}.
Context {D : Display json_error} {L : Lowercase} {G : Signers} {WK : WalletKeys} {K : Kdf}.
Context {J0 : Enclave.EnclaveJson json_error} {CU : Passkey.Curves}.
Context {PC : Codec io_error json_error (gmap string Passkey.StoredPasskeyPubkey)}.
Context {SC : Codec io_error json_error SessionKeys.SessionMap}.
Context {VJ : Vault.WalletJson io_error json_error}.
Context {WI : Wire} {SI : SessionIter} {TJ : TelemetryJson}.
Context (w : World (io_error := io_error) (json_error := json_error)) (I J : Agent -> Prop).
Context (HIJ : forall a, I a -> J a) (HI : Stable (DE := DE) w I) (HJ : Stable (DE := DE) w J).
Context (Hconsume : forall message expires, takes (DE := DE) I J (consume_nonce w message expires)).

Lemma takes_handle_sign_siwx r : takes (DE := DE) I J (handle_sign_siwx w r).
Proof.
  unfold handle_sign_siwx, sign_siwx_gate, validate_window, consume_message.
  apply takes_first; [|intros [msg mode]; by apply pres_sign_siwx_finish].
  do 3 (destruct (is_empty _); [by apply takes_pres; [|preserve HI]|]).
  apply takes_later; [done|by apply pres_authorize|intros mode].
  apply takes_later; [done|preserve HI|intros msg].
  apply takes_later; [done|preserve HI|intros _].
  apply takes_first; [|intros _; preserve HJ]. apply takes_first; [apply Hconsume|intros r0].
  preserve HJ.
Qed.

(** What a request does to an agent in [I]: at most one message is consumed. *)
Lemma dispatch_takes req : takes (DE := DE) I J (dispatch_with w req).
Proof.
  assert (H : takes (DE := DE) I J (handle w req)).
  { unfold handle, unsupported.
    destruct (request_kind req) as [[]|];
      match goal with
      | |- takes _ _ (handle_sign_siwx _ _) => apply takes_handle_sign_siwx
      | _ => apply takes_pres; [done|]
      end; try apply pres_ret; try apply pres_stop.
    - unfold handle_create_session_key, answer. preserve HI.
    - unfold handle_revoke_session_key, answer. preserve HI.
    - by apply pres_handle_sign_transaction.
    - by apply pres_handle_sign_user_op.
    - by apply pres_handle_sign_message.
    - by apply pres_handle_sign_typed_data.
    - unfold handle_list_wallets, answer. preserve HI.
    - by apply pres_handle_lock_vault.
    - by apply pres_handle_unlock_vault.
    - by apply pres_handle_register_passkey.
    - unfold handle_generate_challenge, answer. preserve HI.
    - by apply pres_handle_drain_telemetry with (w := w).
    - by apply pres_handle_sign_auth.
    - unfold handle_list_session_keys, answer. preserve HI. }
  intros a Ha. specialize (H a Ha). unfold dispatch_with, respond. by destruct (handle w req a).
Qed.
End DispatchTakes.
