(* ===== verification/Authority.v ===== *)
(** * Which requests the Key-Agent answers

    Every request kind with the proof it needs: a passkey bound to the wallet, an
    active session key, the internal token, a consumed sign-in message.  A payload in
    the answer means that the proof was there ([dispatch_authorized]). *)

From Stdlib Require Import ZArith Lia Bool String Ascii.
From stdpp Require Import base list strings gmap.
From S2P Require Import Prelude Str Bytes Files MapStore Json Frame Proto ChainKey.
From S2P Require Import Agent AgentRules Handlers SignSiwx Dispatch.
From S2P Require Chain KeyCache Telemetry Names Passkey SessionKeys Nonce AuditChain Enclave Vault SiwxMessage.

Local Open Scope oc_scope.

Section Authority.
Context {X : SiwxMessage.External} {S : SerdeNumber} {io_error json_error DE : Type}.
Context {A : AuditChain.AuditEnv io_error json_error} {N : Nonce.NonceEnv io_error json_error}.
Context {D : Display json_error} {L : Lowercase} {G : Signers} {WK : WalletKeys} {K : Kdf}.
Context {J : Enclave.EnclaveJson json_error} {CU : Passkey.Curves}.
Context {PC : Codec io_error json_error (gmap string Passkey.StoredPasskeyPubkey)}.
Context {SC : Codec io_error json_error SessionKeys.SessionMap}.
Context {VJ : Vault.WalletJson io_error json_error}.
Context {WI : Wire} {SI : SessionIter} {TJ : TelemetryJson}.

Abbreviation World := (World (io_error := io_error) (json_error := json_error)).
Abbreviation Ag := (Ag DE Agent).

(** ** The proofs *)

(** The request carries a proof that a passkey of the store accepts. *)
Definition passkey_shown (w : World) (a : Agent) (auth : option Passkey.PasskeyAuthorization) : Prop :=
  exists proof stored a', auth = Some proof /\ accepts w a proof stored a'.

(** And the passkey is bound to the wallet. *)
Definition wallet_passkey (w : World) (a : Agent) (auth : option Passkey.PasskeyAuthorization) (wallet : string)
  : Prop :=
  exists proof stored a', auth = Some proof /\ accepts w a proof stored a' /\ Passkey.wallet_id stored = wallet.

(** What a request of each kind must come with. *)
Definition authority (w : World) (a : Agent) (req : KeyAgentRequestKind) : Prop :=
  match req with
  | SignTransaction r =>
      wallet_passkey w a (st_auth r) (st_wallet_id r) /\ session_ok w a (st_session_key_id r)
  | SignUserOp r =>
      wallet_passkey w a (su_auth r) (su_wallet_id r) /\ session_ok w a (su_session_key_id r)
  | SignMessage r =>
      wallet_passkey w a (sm_auth r) (sm_wallet_id r) /\ session_ok w a (sm_session_key_id r)
  | SignTypedData r =>
      wallet_passkey w a (sd_auth r) (sd_wallet_id r) /\ session_ok w a (sd_session_key_id r)
  | SignAuth r => exists mode a', authorized w a (sa_auth r) (sa_agent_token r) (sa_wallet_id r) mode a'
  | SignSiwx r => exists msg mode a', signable w a r msg mode a'
  | UnlockVault r => wallet_passkey w a (uv_auth r) (uv_wallet_id r)
  | CreateSessionKey r => passkey_shown w a (ck_auth r)
  | RevokeSessionKey r => passkey_shown w a (rk_auth r)
  | RegisterPasskey r => rp_wallet_id r <> ""
  | GenerateChallenge r =>
      exists path stored, passkey_store w = Ok path /\
        Passkey.get path (passkey_io w) (gc_credential_id r) (disk a) = Ok (Some stored)
  | GetBalance _ | GetSecret _ | ListSecrets _ | GenerateTotp _ => False
  | ListWallets | ListSessionKeys | LockVault | DrainTelemetry _ => True
  end.

(** ** Gates *)

(** A handler that has answered went through its first step. *)
Lemma answered_first {R T} (m : Ag R) (k : R -> Ag T) a y a' :
  bind m k a = (Ok y, a') -> exists x a1, m a = (Ok x, a1).
Proof. intros (x & a1 & H & _)%bind_ok. by exists x, a1. Qed.

Lemma shown_ok (w : World) auth {R} (k : Passkey.StoredPasskeyPubkey -> Ag R) a y a' :
  bind (require_auth auth) (fun p => bind (verify_passkey w p) k) a = (Ok y, a') -> passkey_shown w a auth.
Proof.
  intros (p & a1 & [-> ->]%require_auth_ok & H)%bind_ok.
  apply answered_first in H as (s & a2 & H%verify_passkey_ok). by exists p, s, a2.
Qed.

Lemma wallet_ok (w : World) auth wid {R} (k : Passkey.StoredPasskeyPubkey -> Ag R) a y a' :
  bind (require_auth auth) (fun p => bind (verify_passkey_for w p wid) k) a = (Ok y, a') ->
  wallet_passkey w a auth wid.
Proof.
  intros (p & a1 & [-> ->]%require_auth_ok & H)%bind_ok.
  apply answered_first in H as (s & a2 & [H Hw]%verify_passkey_for_ok). by exists p, s, a2.
Qed.

(** The gate of the signing handlers; the session key is read after the passkey
    check, which does not change the disk. *)
Lemma passkey_gate_ok (w : World) auth wid skid a u a' :
  passkey_gate (DE := DE) w auth wid skid a = (Ok u, a') ->
  wallet_passkey w a auth wid /\ session_ok w a skid.
Proof.
  intros H. split; [by eapply wallet_ok|].
  apply bind_ok in H as (p & a1 & [-> ->]%require_auth_ok & H).
  apply bind_ok in H as (s & a2 & [Ha _]%verify_passkey_for_ok & H).
  apply ensure_session_key_active_ok in H as [_ H].
  destruct Ha as (path & vs & v & v' & _ & _ & _ & _ & _ & ->). exact H.
Qed.

(** ** Only the end of a handler answers *)

Abbreviation silent m := (stops_without (DE := DE) (St := Agent) answered m).

Lemma silent_require_auth auth : silent (require_auth auth).
Proof. unfold require_auth. silently. Qed.

Lemma silent_stored_passkey (w : World) code cred : silent (stored_passkey w code cred).
Proof. unfold stored_passkey. silently. Qed.

Lemma silent_issue (w : World) cred stored : silent (issue w cred stored).
Proof.
  unfold issue, lazy_verifier, keep_verifier. silently; try by intros a r a'.
Qed.

Lemma silent_passkey_gate (w : World) auth wid skid : silent (passkey_gate w auth wid skid).
Proof.
  unfold passkey_gate. apply stops_bind; [apply silent_require_auth|intros p].
  apply stops_bind; [apply silent_verify_passkey_for|intros _]. apply silent_ensure_session_key_active.
Qed.
End Authority.

(** [silently] with the gates and the enclave. *)
Ltac answer_last :=
  repeat first
    [ apply silent_passkey_gate | apply silent_require_auth | apply silent_verify_passkey_for
    | apply silent_verify_passkey | apply silent_stored_passkey | apply silent_issue
    | apply silent_authorize | apply silent_enclave_signature
    | apply silent_record_audit | apply silent_record_audit_strict | apply silent_audit_gate
    | silent_step ].

Section Answers.
Context {X : SiwxMessage.External} {S : SerdeNumber} {io_error json_error DE : Type}.
Context {A : AuditChain.AuditEnv io_error json_error} {N : Nonce.NonceEnv io_error json_error}.
Context {D : Display json_error} {L : Lowercase} {G : Signers} {WK : WalletKeys} {K : Kdf}.
Context {J : Enclave.EnclaveJson json_error} {CU : Passkey.Curves}.
Context {PC : Codec io_error json_error (gmap string Passkey.StoredPasskeyPubkey)}.
Context {SC : Codec io_error json_error SessionKeys.SessionMap}.
Context {VJ : Vault.WalletJson io_error json_error}.
Context {WI : Wire} {SI : SessionIter} {TJ : TelemetryJson}.

Abbreviation World := (World (io_error := io_error) (json_error := json_error)).
Abbreviation silent m := (stops_without (DE := DE) (St := Agent) answered m).

Lemma silent_handle (w : World) req : silent (handle w req).
Proof.
  unfold handle, unsupported. destruct (request_kind req) as [[]|].
  - unfold handle_create_session_key, create_session, answer. answer_last.
  - unfold handle_revoke_session_key, revoke_session, answer. answer_last.
  - unfold handle_sign_transaction, sign_transaction_with, chain_key, audit_signature, answer. answer_last.
  - unfold handle_sign_user_op, sign_transaction_with, chain_key, audit_signature, answer. answer_last.
  - unfold handle_sign_message, audit_signature_if, answer. answer_last.
  - unfold handle_sign_typed_data, chain_key, audit_signature_if, answer. answer_last.
  - answer_last.
  - unfold handle_list_wallets, answer. answer_last; by intros a r' a'.
  - unfold handle_lock_vault, answer. answer_last; by intros a r' a'.
  - unfold handle_unlock_vault, answer. answer_last.
  - unfold handle_register_passkey, register_passkey, answer. answer_last.
  - unfold handle_generate_challenge, answer. answer_last.
  - answer_last.
  - answer_last.
  - answer_last.
  - unfold handle_drain_telemetry, drain_telemetry, answer. answer_last.
    intros a r' a'. by destruct (Telemetry.drain_at_most _ _).
  - unfold handle_sign_auth, enclave_identity, answer. answer_last.
  - unfold handle_list_session_keys, answer. answer_last; by intros a r' a'.
  - apply silent_handle_sign_siwx.
  - by intros a r' a'.
Qed.

Abbreviation dispatch_with := (dispatch_with (DE := DE)).

Lemma dispatch_answer (w : World) req a p a' :
  dispatch_with w req a = (Ok (response_ok p), a') <->
  handle (DE := DE) w req a = (Ok (response_ok p), a').
Proof. apply respond_ok, silent_handle. Qed.

(** An answer shows the authority of its request. *)
Lemma dispatch_authority (w : World) req a p a' :
  dispatch_with w req a = (Ok (response_ok p), a') ->
  exists k, request_kind req = Some k /\ authority w a k.
Proof.
  rewrite dispatch_answer. unfold handle, unsupported.
  destruct (request_kind req) as [k|]; [|done]. intros H. exists k. split; [done|].
  destruct k; cbn [authority]; try done.
  - by eapply shown_ok.
  - by eapply shown_ok.
  - apply answered_first in H as ([] & a1 & H). by eapply passkey_gate_ok.
  - apply answered_first in H as ([] & a1 & H). by eapply passkey_gate_ok.
  - apply answered_first in H as ([] & a1 & H). by eapply passkey_gate_ok.
  - apply answered_first in H as ([] & a1 & H). by eapply passkey_gate_ok.
  - by eapply wallet_ok.
  - unfold handle_register_passkey in H. apply is_empty_false. by destruct (is_empty _).
  - unfold handle_generate_challenge in H. destruct (is_empty _); [done|].
    apply answered_first in H as (s & a1 & [-> (path & H)]%stored_passkey_ok). by exists path, s.
  - unfold handle_sign_auth in H. do 2 (destruct (is_empty _); [done|]).
    apply answered_first in H as (mode & a1 & H%authorize_ok). by exists mode, a1.
  - unfold handle_sign_siwx in H. apply answered_first in H as ([msg mode] & a1 & H%sign_siwx_gate_ok).
    by exists msg, mode, a1.
Qed.

(** C1 No request is answered with a payload without its proof: a transaction, a
    user operation, a message or typed data are signed only behind an accepted
    passkey bound to the wallet and, when a session key is named, an active one; a
    login text behind such a passkey or the internal token; a sign-in message when
    it is moreover well formed, current and not consumed; session keys are created
    and revoked behind an accepted passkey; the secrets' requests are never answered. *)
Theorem dispatch_authorized (w : World) req a p a' :
  dispatch_with w req a = (Ok (response_ok p), a') ->
  exists k, request_kind req = Some k /\ authority w a k.
Proof. apply dispatch_authority. Qed.

(** ** Signatures of an agent that fails closed *)

Definition signing (k : KeyAgentRequestKind) : bool :=
  match k with
  | SignTransaction _ | SignUserOp _ | SignMessage _ | SignTypedData _ | SignAuth _ | SignSiwx _ => true
  | _ => false
  end.

Definition records_signature (ev : AuditChain.EventType) : bool :=
  match ev with
  | AuditChain.TransactionSigned | AuditChain.AuthSigned | AuditChain.SiwxSigned | AuditChain.EnclaveResolved => true
  | _ => false
  end.

(** The last thing that happened to the agent: an entry about a signature was
    appended to the audit log. *)
Definition logged (w : World) (a' : Agent) : Prop :=
  exists pt ev skid pl a, records_signature ev = true /\
    log_audit (DE := DE) w pt ev skid pl a = (Ok (Ok tt), a').

Definition closed (a : Agent) : Prop := audit_fail_closed a = true.

Lemma closed_stable (w : World) : Stable (DE := DE) w closed.
Proof.
  split; unfold closed.
  - intros pt ev skid pl a Ha. by rewrite log_audit_fail_closed.
  - intros R f _ a Ha. unfold with_keys. by destruct (f _).
  - intros exe req a Ha. unfold call_enclave. by destruct (Enclave.spawn_enclave_child _ _ _ _ _ _).
  - intros auth stored a Ha. unfold present, lazy_verifier, keep_verifier, bind, reads, or_refuse, modify, ret.
    cbn. destruct (passkey_verifiers a) as [vs|] eqn:Hv; cbn; [|done].
    destruct (vs !! _); cbn; [|destruct (Passkey.to_passkey_pubkey stored); cbn; [|done]];
      destruct (Passkey.verify _ _ _ _); cbn; by rewrite Hv.
  - intros cred stored a Ha. unfold issue, lazy_verifier, keep_verifier, bind, reads, or_refuse, modify, ret.
    cbn. destruct (passkey_verifiers a) as [vs|] eqn:Hv; cbn; [|done].
    destruct (vs !! _); cbn; [|destruct (Passkey.to_passkey_pubkey stored); cbn; [|done]];
      destruct (Passkey.generate_challenge _ _ _ _) as [[]|]; cbn; by rewrite ?Hv.
  - done.
  - intros record a Ha. unfold create_session, with_disk, bind, reads. cbn. by destruct (SessionKeys.create _ _ _ _).
  - intros id a Ha. unfold revoke_session, with_disk, bind, reads. cbn. by destruct (SessionKeys.revoke _ _ _ _ _).
  - intros path cred stored _ a Ha. unfold register_passkey, with_disk. by destruct (Passkey.register _ _ _ _ _).
  - done.
  - done.
Qed.

Lemma pres_run (I : Agent -> Prop) {R} (m : Ag DE Agent R) a r a' :
  pres (DE := DE) I m -> m a = (r, a') -> I a -> I a'.
Proof. intros Hm H Ha. specialize (Hm a Ha). by rewrite H in Hm. Qed.

(** The audit step of an agent that fails closed is an append that succeeded. *)
Lemma strict_logged (w : World) pt ev skid pl a r a' :
  records_signature ev = true ->
  record_audit_strict (DE := DE) w pt ev skid pl a = (Ok r, a') -> r = Ok tt -> logged w a'.
Proof.
  intros He (r0 & Hl & Hr)%record_strict_ok ->. destruct r0 as [[]|]; [|done].
  by exists pt, ev, skid, pl, a.
Qed.

Lemma gated_logged (w : World) pt ev skid pl {R} (k : unit -> Ag DE Agent R) a y a' :
  closed a -> records_signature ev = true -> (forall u b, (k u b).2 = b) ->
  bind (record_audit_strict w pt ev skid pl) (fun r => bind (audit_gate r) k) a = (Ok y, a') -> logged w a'.
Proof.
  intros Hc He Hk (r & a1 & Hr & H)%bind_ok. apply bind_ok in H as (u & a2 & [-> Hg]%audit_gate_ok & H).
  assert (a' = a1) as -> by (specialize (Hk u a1); by rewrite H in Hk).
  eapply strict_logged; [done|exact Hr|]. apply Hg.
  apply (pres_run closed _ _ _ _ (pres_record_audit_strict w closed (closed_stable w) _ _ _ _) Hr Hc).
Qed.

Lemma enclave_logged (w : World) args a out a' :
  closed a -> enclave_signature (DE := DE) w args a = (Ok out, a') -> logged w a'.
Proof.
  intros Hc (r & a1 & H & Ho)%bind_ok. unfold or_error, or_refuse in Ho. destruct r as [o|]; [|done].
  injection Ho as <- <-. unfold sign_via_enclave in H.
  apply bind_ok in H as (u & a2 & Hp & H).
  assert (Hc2 : closed a2) by (eapply (pres_run closed); [apply (pres_record_audit w closed (closed_stable w))|exact Hp|done]).
  destruct (enclave_exe w) as [exe|]; [|done]. apply bind_ok in H as (r & a3 & He & H).
  assert (Hc3 : closed a3) by (eapply (pres_run closed); [apply (stable_enclave _ _ (closed_stable w))|exact He|done]).
  destruct r as [resp|e].
  - destruct (decode_enclave_fields resp) as [[sg pk]|]; [|done].
    apply bind_ok in H as (r & a4 & Hr & H). cbn in H. injection H as Hf <-.
    eapply strict_logged; [|exact Hr|]; [done|].
    assert (closed a4) as Hc4.
    { apply (pres_run closed _ _ _ _ (pres_record_audit_strict w closed (closed_stable w) _ _ _ _) Hr Hc3). }
    unfold closed in Hc4. rewrite Hc4 in Hf. by destruct r as [[]|].
  - apply bind_ok in H as (r & a4 & Hr & H). cbn in H. injection H as Hf <-.
    unfold fail_closed in Hf. destruct r; [done|]. by destruct (audit_fail_closed a4).
Qed.

Lemma signature_logged (w : World) skid action cid a u a' :
  closed a -> audit_signature (DE := DE) w skid action cid a = (Ok u, a') -> logged w a'.
Proof.
  intros Hc H. unfold audit_signature in H. apply bind_ok in H as (r & a1 & Hr & [-> Hg]%audit_gate_ok).
  eapply strict_logged; [|exact Hr|]; [done|]. apply Hg.
  apply (pres_run closed _ _ _ _ (pres_record_audit_strict w closed (closed_stable w) _ _ _ _) Hr Hc).
Qed.

Lemma signature_if_logged (w : World) skid action cid a u a' :
  closed a -> audit_signature_if (DE := DE) w skid action cid a = (Ok u, a') -> logged w a'.
Proof.
  intros Hc H. unfold audit_signature_if, bind at 1, reads in H. cbn in H. unfold closed in Hc. rewrite Hc in H.
  apply bind_ok in H as (r & a1 & Hr & H). unfold or_error, or_refuse in H. injection H as H <-.
  eapply strict_logged; [|exact Hr|]; [done|]. by destruct r as [[]|].
Qed.

(** [closed] goes through the steps before the signature. *)
Ltac closes H := match type of H with
  | ?m ?a = (_, ?b) => assert (closed b) by
      (eapply (pres_run closed m); [|exact H|done];
       first [ apply (pres_passkey_gate _ closed (closed_stable _)) | apply (pres_chain_key _ closed (closed_stable _))
             | apply (pres_message_core _ closed (closed_stable _)) | apply (pres_authorize _ closed (closed_stable _))
             | apply pres_or_error
             | apply (pres_enclave_signature _ closed (closed_stable _)) ])
  end.

Lemma sign_transaction_with_logged (w : World) action op omitted what failed skid wid cid text a out a' :
  closed a -> sign_transaction_with (DE := DE) w action op omitted what failed skid wid cid text a = (Ok out, a') ->
  logged w a'.
Proof.
  intros Hc. unfold sign_transaction_with. destruct (Enclave.enclave_enabled _).
  - intros (o & a1 & He & H)%bind_ok. destruct (eo_signed_tx_hex o); [|done]. injection H as _ <-.
    by eapply enclave_logged.
  - intros ([key ct] & a1 & Hk & H)%bind_ok. closes Hk.
    apply bind_ok in H as (o & a2 & Ho & H). closes Ho.
    apply bind_ok in H as (u & a3 & Hl & [= _ <-]). by eapply signature_logged.
Qed.

Lemma enclave_identity_ok out a r a' :
  enclave_identity (DE := DE) out a = (Ok r, a') -> a' = a.
Proof. unfold enclave_identity. destruct (eo_address out), (eo_public_key out); by intros [=]. Qed.

(** C16 An agent that fails closed gives out no signature that is not in its audit
    log: when it answers a signing request with a payload, the last thing it did was
    to append, successfully, an entry about that signature. *)
Theorem signature_recorded (w : World) req k a p a' :
  request_kind req = Some k -> signing k = true -> audit_fail_closed a = true ->
  dispatch_with w req a = (Ok (response_ok p), a') -> logged w a'.
Proof.
  intros Hk Hs Hc. rewrite dispatch_answer. unfold handle. rewrite Hk. change (closed a) in Hc.
  destruct k; try done; cbn [signing] in Hs; clear Hs Hk.
  - intros ([] & a1 & Hg & H)%bind_ok. closes Hg.
    apply bind_ok in H as ([sg signed] & a2 & H & [= _ <-]). by eapply sign_transaction_with_logged.
  - intros ([] & a1 & Hg & H)%bind_ok. closes Hg.
    apply bind_ok in H as ([sg signed] & a2 & H & [= _ <-]). by eapply sign_transaction_with_logged.
  - intros ([] & a1 & Hg & H)%bind_ok. closes Hg. destruct (Enclave.enclave_enabled _).
    + apply bind_ok in H as (o & a2 & He & [= _ <-]). by eapply enclave_logged.
    + apply bind_ok in H as (x & a2 & Hm & H). closes Hm.
      apply bind_ok in H as ([[sg ad] pk] & a3 & Ho & H). closes Ho.
      apply bind_ok in H as (u & a4 & Hl & [= _ <-]). by eapply signature_if_logged.
  - intros ([] & a1 & Hg & H)%bind_ok. closes Hg. destruct (Enclave.enclave_enabled _).
    + apply bind_ok in H as (o & a2 & He & [= _ <-]). by eapply enclave_logged.
    + apply bind_ok in H as ([key ct] & a2 & Hm & H). closes Hm.
      apply bind_ok in H as (o & a3 & Ho & H). closes Ho.
      apply bind_ok in H as (u & a4 & Hl & [= _ <-]). by eapply signature_if_logged.
  - unfold handle_sign_auth. do 2 (destruct (is_empty _); [done|]).
    intros (mode & a1 & Hg & H)%bind_ok. closes Hg. destruct (Enclave.enclave_enabled _).
    + apply bind_ok in H as (o & a2 & He & H). apply bind_ok in H as ([[sg ad] pk] & a3 & ->%enclave_identity_ok & [= _ <-]).
      by eapply enclave_logged.
    + apply bind_ok in H as (x & a2 & Hm & H). closes Hm.
      apply bind_ok in H as ([[sg ad] pk] & a3 & Ho & H). closes Ho.
      eapply (gated_logged _ _ _ _ _ (fun _ => answer _)); [done| |done|exact H]. done.
  - unfold handle_sign_siwx. intros ([msg mode] & a1 & Hg & H)%bind_ok.
    apply sign_siwx_gate_ok in Hg as (_ & _ & _ & _ & _ & a0 & Ha & _ & ->).
    apply (authorize_ok (DE := DE) w "sign_siwx") in Ha. closes Ha.
    set (b := set_disk _ a0) in H. assert (Hb : closed b) by done. clearbody b.
    unfold sign_siwx_finish in H. apply bind_ok in H as ([[sg ad] pk] & a2 & Hsg & H).
    destruct (negb _); [done|]. eapply (gated_logged _ _ _ _ _ (fun _ => answer _)); [..|exact H]; [|done|done].
    revert Hsg. unfold siwx_signature. destruct (Enclave.enclave_enabled _).
    + intros (o & a3 & He & ->%enclave_identity_ok)%bind_ok. by closes He.
    + intros (x & a3 & Hm & Ho)%bind_ok. closes Hm. by closes Ho.
Qed.
End Answers.
