(* ===== verification/AgentSafety.v ===== *)
(** * What the Key-Agent keeps across requests

    Histories of an agent below one home directory: requests in any order, crashes
    while a store is written, restarts ([runs]).  Its files are apart, so what a
    store promises lasts: a revoked session key never signs again, a message is
    signed once, a passkey challenge authorizes one request, and the audit log stays
    a sound chain. *)

From Stdlib Require Import ZArith Lia Bool String Ascii.
From stdpp Require Import base list strings gmap.
From S2P Require Import Prelude Str Bytes Files MapStore Json Frame Proto ChainKey.
From S2P Require Import Agent AgentRules Handlers SignSiwx Dispatch Authority.
From S2P Require Chain KeyCache Telemetry Names Passkey SessionKeys Nonce AuditChain Enclave Vault SiwxMessage.

Local Open Scope oc_scope.

(** ** A store's operation writes only its file *)

Section Leaves.
Context {io_error json_error : Type}.
Context {PC : Codec io_error json_error (gmap string Passkey.StoredPasskeyPubkey)}.
Context {SC : Codec io_error json_error SessionKeys.SessionMap}.
Context {N : Nonce.NonceEnv io_error json_error}.
Context (path q : Path) (d : FS) (Hq : q <> path) (Hd : durable q).

Lemma leaves_here {R : Type} (r : R) : leaves q d (r, [d]).
Proof. by repeat constructor. Qed.

Lemma session_save_leaves io m : leaves q d (SessionKeys.save path io m d).
Proof.
  unfold SessionKeys.save. pose proof (save_map_leaves path io m d q Hq Hd) as H.
  by destruct (save_map path io m d).
Qed.

Lemma create_leaves io record : leaves q d (SessionKeys.create path io record d).
Proof.
  unfold SessionKeys.create. destruct (SessionKeys.load path io d) as [m|]; [|apply leaves_here].
  destruct (m !! _); [apply leaves_here|]. cbn zeta.
  set (m' := <[_ := _]> m). pose proof (session_save_leaves io m') as H.
  by destruct (SessionKeys.save path io m' d).
Qed.

Lemma revoke_leaves io id now : leaves q d (SessionKeys.revoke path io id now d).
Proof.
  unfold SessionKeys.revoke. destruct (SessionKeys.load path io d) as [m|]; [|apply leaves_here].
  destruct (m !! _); [|apply leaves_here]. cbn zeta.
  set (m' := <[_ := _]> m). pose proof (session_save_leaves io m') as H.
  by destruct (SessionKeys.save path io m' d).
Qed.

Lemma register_leaves io cred stored : leaves q d (Passkey.register path io cred stored d).
Proof.
  unfold Passkey.register. destruct (Passkey.load path io d) as [m|]; [|apply leaves_here].
  unfold Passkey.save. set (m' := <[_ := _]> m). pose proof (save_map_leaves path io m' d q Hq Hd) as H.
  by destruct (save_map path io m' d).
Qed.

Lemma consume_leaves io h expires now now' : leaves q d (Nonce.consume path io h expires now now' d).
Proof.
  unfold Nonce.consume. destruct (Nonce.consume_read _ _ _ _ _ _ _) as [m|]; [|apply leaves_here].
  unfold Nonce.save. pose proof (save_map_leaves (C := Nonce.nonce_codec) path io m d q Hq Hd) as H.
  by destruct (save_map path io m d).
Qed.
End Leaves.

(** ** The files of a home directory *)

(** A file's name, however its errors are mapped: two stores are never the same
    file. *)
Lemma store_name {E} (f : string -> E) home dir name p :
  result_map_err f (state_file home dir name) = Ok p -> p.2 = Some name.
Proof.
  unfold state_file. destruct (Names.state_dir home) as [d|[m]]; cbn; [|done]. by intros [= <-].
Qed.

Lemma log_name home p : audit_log_path home = Ok p -> p.2 = Some "audit.jsonl".
Proof.
  intros H. apply (store_name (fun e => e) home "logs"). unfold audit_log_path in H. by rewrite H.
Qed.

(** Paths with different names differ. *)
Ltac by_name :=
  intros; try match goal with |- _ <> _ => intros ? end;
  repeat match goal with
  | H : audit_log_path _ = Ok _ |- _ => apply log_name in H
  | H : _ = Ok _ |- _ =>
      progress (unfold session_store_default, nonce_store_default, passkey_store_default, key_store_default in H);
      apply store_name in H
  end; congruence.

(** ** An agent below a home directory *)

Section Below.
Context {X : SiwxMessage.External} {S : SerdeNumber} {io_error json_error DE : Type}.
Context {A : AuditChain.AuditEnv io_error json_error} {N : Nonce.NonceEnv io_error json_error}.
Context {D : Display json_error} {L : Lowercase} {G : Signers} {WK : WalletKeys} {K : Kdf}.
Context {J : Enclave.EnclaveJson json_error} {CU : Passkey.Curves}.
Context {PC : Codec io_error json_error (gmap string Passkey.StoredPasskeyPubkey)}.
Context {SC : Codec io_error json_error SessionKeys.SessionMap}.
Context (home : option string).

Abbreviation World := (World (io_error := io_error) (json_error := json_error)).
Abbreviation Ag := (Ag DE Agent).
Abbreviation sessions_at := (session_store_default (io_error := io_error) (json_error := json_error) home).
Abbreviation nonces_at := (nonce_store_default (io_error := io_error) (json_error := json_error) home).
Abbreviation key_at := (key_store_default (io_error := io_error) (json_error := json_error) home).
Abbreviation passkeys_at := (passkey_store_default (io_error := io_error) (json_error := json_error) home).

(** A spawned process writes no durable file but the device key, as the enclave
    child does ([Enclave.child_process_frame]). *)
Definition quiet (w : World) : Prop :=
  forall exe vars pid run s d, enclave_spawn w exe vars = Ok (pid, run) -> only_key (keys w) d (run s d).2.

(** A request is served in the same home directory. *)
Definition below (w : World) : Prop :=
  passkey_store w = passkeys_at /\ key_store (keys w) = key_at /\ quiet w.

(** The agent's files are those of the home directory. *)
Definition standing (a : Agent) : Prop :=
  sessions_at = Ok (session_keys a) /\ nonces_at = Ok (nonce_store a) /\
  match audit_log a with
  | Held log => audit_log_path home = Ok (AuditChain.log_path log)
  | Poisoned => True
  end.

(** A property [P] of the audit log in memory and of the disk, of which it sees the
    file [q] alone. *)
Section FileInvariant.
Context (w : World) (Hw : below w) (q : Path) (P : lock AuditChain.AuditLog -> FS -> Prop).
Context (Psame : forall l d d', d' !! q = d !! q -> P l d -> P l d').
Context (Hdur : durable q) (Hkey : key_at <> Ok q).
Context (Plog : forall pt ev skid pl log d,
  audit_log_path home = Ok (AuditChain.log_path log) -> P (Held log) d ->
  let '(_, log', d') := AuditChain.append (audit_io w pt) (audit_now w pt) log ev skid pl d in P (Held log') d').

Definition kept_with (a : Agent) : Prop := standing a /\ P (audit_log a) (disk a).

Lemma with_calm a a' : audit_log a' = audit_log a -> session_keys a' = session_keys a ->
  nonce_store a' = nonce_store a -> disk a' !! q = disk a !! q -> kept_with a -> kept_with a'.
Proof.
  intros Hl Hs Hn Hd ((H1 & H2 & H3) & HP). split; [|rewrite Hl; by eapply Psame].
  unfold standing. by rewrite Hl, Hs, Hn.
Qed.

Lemma with_log pt ev skid pl : pres (DE := DE) kept_with (log_audit w pt ev skid pl).
Proof.
  intros a [(Hs & Hn & Hl) HP]. unfold log_audit. destruct (audit_log a) as [log|] eqn:E.
  - pose proof (AuditChain.append_path (audit_io w pt) (audit_now w pt) log ev skid pl (disk a)) as Hp.
    pose proof (Plog pt ev skid pl log (disk a) Hl HP) as H.
    destruct (AuditChain.append _ _ _ _ _ _ _) as [[r log'] d]. cbn in *. split; [|done].
    unfold standing. cbn. by rewrite Hp.
  - split; [unfold standing; cbn; by rewrite E|cbn; by rewrite E].
Qed.

Lemma only_key_same d d' : only_key (keys w) d d' -> d' !! q = d !! q.
Proof. intros H. destruct Hw as (_ & Hk & _). apply H; [done|]. intros p Hp ->. congruence. Qed.

Lemma with_keys_kept {R : Type} (f : KeyState -> R * KeyState) :
  (forall st, only_key (keys w) st.2 (f st).2.2) -> pres (DE := DE) kept_with (with_keys f).
Proof.
  intros Hf a Ha. unfold with_keys. specialize (Hf (interner a, disk a)).
  destruct (f (interner a, disk a)) as [x [i d]]. eapply with_calm; [..|exact Ha]; try done.
  cbn in *. by apply only_key_same.
Qed.

Lemma with_enclave exe req : pres (DE := DE) kept_with (call_enclave w exe req).
Proof.
  intros a Ha. unfold call_enclave, Enclave.spawn_enclave_child.
  assert (Hd : only_key (keys w) (disk a)
    (Enclave.spawn_enclave_child (enclave_spawn w) exe (env w) req (Enclave.enclave_timeout (env w)) (disk a)).2).
  { unfold Enclave.spawn_enclave_child. destruct (Enclave.validate req); [|done].
    destruct (enclave_spawn w exe _) as [[pid run]|] eqn:Hs; [|done].
    destruct Hw as (_ & _ & Hquiet).
    destruct (Enclave.request_to_json req) as [input|]; [|by eapply Hquiet].
    pose proof (Hquiet _ _ _ _ (input +:+ String lf "") (disk a) Hs) as H. by destruct (run _ _). }
  unfold Enclave.spawn_enclave_child in Hd.
  match goal with |- kept_with (let '(_, _) := ?x in _).2 => destruct x as [r d] end.
  eapply with_calm; [..|exact Ha]; try done. cbn in *. by apply only_key_same.
Qed.

Lemma with_verifiers vs a : kept_with a -> kept_with (set_verifiers vs a).
Proof. by apply with_calm. Qed.

Lemma with_present auth stored : pres (DE := DE) kept_with (present w auth stored).
Proof.
  intros a Ha. unfold present, lazy_verifier, keep_verifier, bind, reads, or_refuse, refuses, stop, ret, modify.
  cbn. destruct (passkey_verifiers a) as [vs|] eqn:Hv; cbn; [|done].
  destruct (vs !! _) as [v|]; cbn.
  - destruct (Passkey.verify _ _ _ _) as [r v']. cbn. rewrite Hv. by apply with_verifiers.
  - destruct (Passkey.to_passkey_pubkey stored); cbn; [|done].
    destruct (Passkey.verify _ _ _ _) as [r v']. cbn. rewrite Hv. by apply with_verifiers.
Qed.

Lemma with_issue cred stored : pres (DE := DE) kept_with (issue w cred stored).
Proof.
  intros a Ha. unfold issue, lazy_verifier, keep_verifier, bind, reads, or_refuse, refuses, stop, ret, modify.
  cbn. destruct (passkey_verifiers a) as [vs|] eqn:Hv; cbn; [|done].
  destruct (vs !! _) as [v|]; cbn.
  - destruct (Passkey.generate_challenge _ _ _ _) as [[r v']|]; cbn; [rewrite Hv; by apply with_verifiers|done].
  - destruct (Passkey.to_passkey_pubkey stored); cbn; [|done].
    destruct (Passkey.generate_challenge _ _ _ _) as [[r v']|]; cbn; [rewrite Hv; by apply with_verifiers|done].
Qed.

(** An operation on the disk that keeps [P] where it ends. *)
Lemma with_disk_kept {R : Type} (f : FS -> R * list FS) a : kept_with a -> P (audit_log a) (default (disk a) (last (f (disk a)).2)) ->
  kept_with (with_disk (DE := DE) f a).2.
Proof.
  intros [Hs HP] H. unfold with_disk. destruct (f (disk a)) as [x trace]. cbn in *. by split.
Qed.

Context (Pcreate : sessions_at = Ok q -> forall l io record d d',
  P l d -> d' ∈ (SessionKeys.create q io record d).2 -> P l d').
Context (Prevoke : sessions_at = Ok q -> forall l io id now d d',
  P l d -> d' ∈ (SessionKeys.revoke q io id now d).2 -> P l d').
Context (Pregister : passkeys_at = Ok q -> forall l io cred stored d d',
  P l d -> d' ∈ (Passkey.register q io cred stored d).2 -> P l d').

(** The last state of an operation is the one before it, or one it went through. *)
Lemma last_state {R : Type} (Q : FS -> Prop) (d : FS) (o : R * list FS) :
  Q d -> (forall d', d' ∈ o.2 -> Q d') -> Q (default d (last o.2)).
Proof.
  intros Hd H. destruct (last o.2) as [d'|] eqn:E; [|done]. apply H. apply last_Some in E as (l & ->).
  apply elem_of_app. right. by apply list_elem_of_singleton.
Qed.

Lemma with_stable : Stable (DE := DE) w kept_with.
Proof.
  split.
  - apply with_log.
  - intros R f Hf. by apply with_keys_kept.
  - apply with_enclave.
  - apply with_present.
  - apply with_issue.
  - intros a vs _. apply with_verifiers.
  - intros record a Ha. unfold create_session, bind, reads. cbn. apply with_disk_kept; [done|].
    destruct Ha as [(Hs & _) HP]. destruct (decide (q = session_keys a)) as [->|Hq].
    + apply (last_state (P (audit_log a))); [done|]. intros d'. by apply Pcreate.
    + eapply Psame; [by apply leaves_final, create_leaves|done].
  - intros id a Ha. unfold revoke_session, bind, reads. cbn. apply with_disk_kept; [done|].
    destruct Ha as [(Hs & _) HP]. destruct (decide (q = session_keys a)) as [->|Hq].
    + apply (last_state (P (audit_log a))); [done|]. intros d'. by apply Prevoke.
    + eapply Psame; [by apply leaves_final, revoke_leaves|done].
  - intros path cred stored Hp a Ha. unfold register_passkey. apply with_disk_kept; [done|].
    destruct Ha as [_ HP]. destruct Hw as (Hpk & _). rewrite Hp in Hpk.
    destruct (decide (q = path)) as [->|Hq].
    + apply (last_state (P (audit_log a))); [done|]. intros d'. by apply Pregister.
    + eapply Psame; [by apply leaves_final, register_leaves|done].
  - intros a c. by apply with_calm.
  - intros a t. by apply with_calm.
Qed.

Lemma with_consume message expires :
  nonces_at <> Ok q -> pres (DE := DE) kept_with (consume_nonce w message expires).
Proof.
  intros Hq a Ha. unfold consume_nonce, bind, reads. cbn. apply with_disk_kept; [done|].
  destruct Ha as [(_ & Hn & _) HP]. eapply Psame; [apply leaves_final, consume_leaves|done]; congruence.
Qed.
End FileInvariant.

(** A property of the disk that sees the file [q] alone, which is not the audit
    log. *)
Section OtherFile.
Context (w : World) (Hw : below w) (q : Path) (P : FS -> Prop).
Context (Psame : forall d d', d' !! q = d !! q -> P d -> P d').
Context (Hdur : durable q) (Hkey : key_at <> Ok q) (Hlog : audit_log_path home <> Ok q).

Definition kept : Agent -> Prop := kept_with (fun _ => P).

Lemma kept_stable :
  (sessions_at = Ok q -> forall io record d d', P d -> d' ∈ (SessionKeys.create q io record d).2 -> P d') ->
  (sessions_at = Ok q -> forall io id now d d', P d -> d' ∈ (SessionKeys.revoke q io id now d).2 -> P d') ->
  (passkeys_at = Ok q -> forall io cred stored d d', P d -> d' ∈ (Passkey.register q io cred stored d).2 -> P d') ->
  Stable (DE := DE) w kept.
Proof.
  intros H1 H2 H3. apply (with_stable w Hw q (fun _ => P));
    [intros _; exact Psame|exact Hdur|exact Hkey| |intros Hq _; exact (H1 Hq)|intros Hq _; exact (H2 Hq)
    |intros Hq _; exact (H3 Hq)].
  intros pt ev skid pl log d Hl HP. assert (Hq : q <> AuditChain.log_path log) by congruence.
  pose proof (AuditChain.append_frame (audit_io w pt) (audit_now w pt) log ev skid pl d q Hq) as [_ Hd].
  destruct (AuditChain.append _ _ _ _ _ _ _) as [[r log'] d']. by eapply Psame.
Qed.

Lemma kept_consume message expires :
  nonces_at <> Ok q -> pres (DE := DE) kept (consume_nonce w message expires).
Proof. apply (with_consume w q (fun _ => P)); [intros _; exact Psame|exact Hdur]. Qed.
End OtherFile.
End Below.

(** ** Histories *)

Section Histories.
Context {X : SiwxMessage.External} {S : SerdeNumber} {io_error json_error DE : Type}.
Context {A : AuditChain.AuditEnv io_error json_error} {N : Nonce.NonceEnv io_error json_error}.
Context {D : Display json_error} {L : Lowercase} {G : Signers} {WK : WalletKeys} {K : Kdf}.
Context {J : Enclave.EnclaveJson json_error} {CU : Passkey.Curves}.
Context {PC : Codec io_error json_error (gmap string Passkey.StoredPasskeyPubkey)}.
Context {SC : Codec io_error json_error SessionKeys.SessionMap}.
Context {VJ : Vault.WalletJson io_error json_error}.
Context {WI : Wire} {SI : SessionIter} {TJ : TelemetryJson}.
Context (home : option string).

Abbreviation World := (World (io_error := io_error) (json_error := json_error)).
Abbreviation sessions_at := (session_store_default (io_error := io_error) (json_error := json_error) home).
Abbreviation nonces_at := (nonce_store_default (io_error := io_error) (json_error := json_error) home).
Abbreviation key_at := (key_store_default (io_error := io_error) (json_error := json_error) home).
Abbreviation passkeys_at := (passkey_store_default (io_error := io_error) (json_error := json_error) home).
Abbreviation dispatch_with := (dispatch_with (DE := DE)).

(** The audit log and the device key aside, [d'] has the durable files of [d]. *)
Definition quietly (d d' : FS) : Prop :=
  forall q, durable q -> key_at <> Ok q -> audit_log_path home <> Ok q -> d' !! q = d !! q.

(** A disk that a crash in the middle of a request can leave: one that the writing
    of a store went through. *)
Inductive crash (w : World) (a : Agent) (d : FS) : Prop :=
| crash_log : quietly (disk a) d -> crash w a d
| crash_create d0 record : quietly (disk a) d0 ->
    d ∈ (SessionKeys.create (session_keys a) (session_io w) record d0).2 -> crash w a d
| crash_revoke d0 id now : quietly (disk a) d0 ->
    d ∈ (SessionKeys.revoke (session_keys a) (session_io w) id now d0).2 -> crash w a d
| crash_register d0 path cred stored : quietly (disk a) d0 -> passkey_store w = Ok path ->
    d ∈ (Passkey.register path (passkey_io w) cred stored d0).2 -> crash w a d
| crash_consume d0 h expires : quietly (disk a) d0 ->
    d ∈ (Nonce.consume (nonce_store a) (nonce_io w) h expires (clock_load w) (clock_consume w) d0).2 -> crash w a d.

(** What can happen to an agent: requests served in the home directory, a crash
    during one, a restart, and the settings of the process.  [good] is what is asked
    of the world a request is served in. *)
Inductive runs (good : World -> Agent -> Prop) (a : Agent) : Agent -> Prop :=
| runs_refl : runs good a a
| runs_request a1 w req :
    runs good a a1 -> below home w -> good w a1 -> runs good a (dispatch_with w req a1).2
| runs_crash a1 w d :
    runs good a a1 -> below home w -> good w a1 -> crash w a1 d -> runs good a (set_disk d a1)
| runs_restart a1 o c i t a2 d :
    runs good a a1 -> Dispatch.home o = home -> open_default (DE := DE) o c i t (disk a1) = (Ok a2, d) ->
    runs good a a2
| runs_token a1 token : runs good a a1 -> runs good a (set_sign_auth_internal_token_on token a1)
| runs_fail_closed a1 b : runs good a a1 -> runs good a (set_audit_fail_closed b a1).

(** A restarted agent has no challenges. *)
Lemma open_default_forgets o c i t d a d' :
  open_default (DE := DE) o c i t d = (Ok a, d') -> passkey_verifiers a = Held ∅.
Proof.
  unfold open_default. repeat case_match; intros [=]; by subst.
Qed.

(** Opening the default context writes only the audit log and the device key. *)
Lemma open_default_quiet o c i t d a d' :
  Dispatch.home o = home -> open_default (DE := DE) o c i t d = (Ok a, d') ->
  standing home a /\ disk a = d' /\ quietly d d'.
Proof.
  intros Ho. unfold open_default. rewrite Ho.
  destruct (audit_log_path home) as [lp|] eqn:Hl; [|done].
  destruct key_at as [kp|] eqn:Hk; [|done].
  destruct (AuditChain.load_or_generate _ _ kp d) as [r trace] eqn:Hg.
  destruct r as [key|]; [|done]. set (d1 := default d (last trace)).
  assert (H1 : forall q, durable q -> q <> kp -> d1 !! q = d !! q).
  { intros q Hd Hq. subst d1.
    assert (H : leaves q d (AuditChain.load_or_generate (opening_key o) (opening_random o) kp d)).
    { unfold AuditChain.load_or_generate. destruct (d !! kp); [by repeat constructor|].
      by apply generate_leaves. }
    apply leaves_final in H. by rewrite Hg in H. }
  destruct (AuditChain.open (opening_log o) lp "keyagent" key d1) as [r d2] eqn:Hop.
  assert (H2 : forall q, q <> lp -> d2 !! q = d1 !! q).
  { intros q Hq. revert Hop. unfold AuditChain.open.
    destruct (if AuditChain.has_named_parent lp then _ else _); [by intros [= _ <-]|].
    destruct (d1 !! lp); [|destruct (AuditChain.create_err _)]; intros [= _ <-]; try done;
      try destruct (AuditChain.chmod_ok _); by rewrite ?lookup_insert_ne by congruence. }
  destruct r as [log|], sessions_at as [sp|] eqn:Hs, nonces_at as [np|] eqn:Hn; try done.
  intros [= <- <-]. split; [|split; [done|]].
  - unfold standing. cbn. split_and!; try done. revert Hop. unfold AuditChain.open.
    destruct (if AuditChain.has_named_parent lp then _ else _); [done|].
    destruct (d1 !! lp); [|destruct (AuditChain.create_err _)]; intros [= H _]; try done.
    + unfold result_bind in H. destruct (AuditChain.load_tail _ _ _) as [[h n]|]; [|done].
      by injection H as <-.
    + by subst log.
  - intros q Hd Hq Hq'. rewrite H2 by congruence. apply H1; [done|congruence].
Qed.

Lemma set_token_kept P token a :
  kept home P a -> kept home P (set_sign_auth_internal_token_on token a).
Proof. unfold set_sign_auth_internal_token_on. destruct (sign_auth_internal_token a); [by intros|done]. Qed.

(** A property of the file [q] that the operations on it keep lasts through every
    history. *)
Section Lasting.
Context (good : World -> Agent -> Prop) (q : Path) (P : FS -> Prop).
Context (Psame : forall d d', d' !! q = d !! q -> P d -> P d').
Context (Hdur : durable q) (Hkey : key_at <> Ok q) (Hlog : audit_log_path home <> Ok q).
Context (Pcreate : sessions_at = Ok q -> forall io record d d',
  P d -> d' ∈ (SessionKeys.create q io record d).2 -> P d').
Context (Prevoke : sessions_at = Ok q -> forall io id now d d',
  P d -> d' ∈ (SessionKeys.revoke q io id now d).2 -> P d').
Context (Pregister : passkeys_at = Ok q -> forall io cred stored d d',
  P d -> d' ∈ (Passkey.register q io cred stored d).2 -> P d').
Context (Pconsume : nonces_at = Ok q -> forall w a h expires d d',
  good w a -> nonce_store a = q -> P (disk a) -> d !! q = disk a !! q ->
  d' ∈ (Nonce.consume q (nonce_io w) h expires (clock_load w) (clock_consume w) d).2 -> P d').

Lemma quietly_same d d' : quietly d d' -> d' !! q = d !! q.
Proof. intros H. by apply H. Qed.

Lemma crash_kept w a d : below home w -> good w a -> kept home P a -> crash w a d -> P d.
Proof.
  intros Hw Hg [(Hs & Hn & _) HP] [Hq|d0 record Hq Hd|d0 id now Hq Hd|d0 path cred stored Hq Hp Hd|d0 h e Hq Hd].
  - by eapply Psame, HP; apply quietly_same.
  - apply quietly_same in Hq. destruct (decide (q = session_keys a)) as [->|Hne].
    + eapply Pcreate; [done| |exact Hd]. by eapply Psame.
    + eapply Psame; [|exact HP]. rewrite <- Hq. revert d Hd. apply Forall_forall. by apply create_leaves.
  - apply quietly_same in Hq. destruct (decide (q = session_keys a)) as [->|Hne].
    + eapply Prevoke; [done| |exact Hd]. by eapply Psame.
    + eapply Psame; [|exact HP]. rewrite <- Hq. revert d Hd. apply Forall_forall. by apply revoke_leaves.
  - apply quietly_same in Hq. destruct Hw as [Hpk _]. rewrite Hp in Hpk. destruct (decide (q = path)) as [->|Hne].
    + eapply Pregister; [done| |exact Hd]. by eapply Psame.
    + eapply Psame; [|exact HP]. rewrite <- Hq. revert d Hd. apply Forall_forall. by apply register_leaves.
  - apply quietly_same in Hq. destruct (decide (q = nonce_store a)) as [->|Hne].
    + by eapply Pconsume.
    + eapply Psame; [|exact HP]. rewrite <- Hq. revert d Hd. apply Forall_forall. by apply consume_leaves.
Qed.

Lemma dispatch_kept w a req :
  below home w -> good w a -> kept home P a -> kept home P (dispatch_with w req a).2.
Proof.
  intros Hw Hg Ha.
  assert (HP : Stable (DE := DE) w (kept home P)) by (by eapply (kept_stable home w Hw q P)).
  assert (nonces_at = Ok q \/ nonces_at <> Ok q) as [Hn|Hn].
  { destruct Ha as [(_ & -> & _) _]. destruct (decide (nonce_store a = q)); [left|right]; congruence. }
  - pose (P' d := P d /\ d !! q = disk a !! q).
    assert (HP' : Stable (DE := DE) w (kept home P')).
    { eapply (kept_stable home w Hw q P'); try done.
      - intros d d' He [H1 H2]. split; [by eapply Psame|congruence].
      - by_name.
      - by_name.
      - by_name. }
    eapply (dispatch_takes w (kept home P') (kept home P)); try done.
    + by intros x [Hx [H _]].
    + intros m e x [Hx [H1 H2]]. unfold consume_nonce, bind, reads. cbn.
      apply (with_disk_kept _ (fun _ => P)); [by split|]. apply (last_state P); [done|]. intros d' Hd'.
      assert (nonce_store x = q) as Hxq by (destruct Hx as (_ & Hxn & _); congruence).
      assert (nonce_store a = q) as Haq by (destruct Ha as [(_ & Han & _) _]; congruence).
      rewrite Hxq in Hd'. by eapply (Pconsume Hn w a); [..|apply Ha|exact H2|exact Hd'].
    + destruct Ha as [Hs H]. by split.
  - eapply (dispatch_takes w (kept home P) (kept home P)); try done.
    intros m e. by eapply (kept_consume home w q P).
Qed.

Lemma runs_kept a a' : runs good a a' -> kept home P a -> kept home P a'.
Proof.
  induction 1 as [|a1 w req _ IH Hw Hg|a1 w d _ IH Hw Hg Hc|a1 o c i t a2 d _ IH Ho H|a1 token _ IH|a1 b _ IH];
    intros Ha; [done|specialize (IH Ha)..].
  - by apply dispatch_kept.
  - split; [apply IH|]. by eapply crash_kept.
  - apply open_default_quiet in H as (Hs & Hd & Hq); [|done]. split; [done|].
    eapply Psame; [|apply IH]. rewrite Hd. by apply quietly_same.
  - by apply set_token_kept.
  - exact IH.
Qed.
End Lasting.

(** ** A revoked session key never signs again *)

Definition session_of (k : KeyAgentRequestKind) : option string :=
  match k with
  | SignTransaction r => Some (st_session_key_id r)
  | SignUserOp r => Some (su_session_key_id r)
  | SignMessage r => Some (sm_session_key_id r)
  | SignTypedData r => Some (sd_session_key_id r)
  | _ => None
  end.

Lemma authority_session (w : World) a k id :
  authority w a k -> session_of k = Some id -> session_ok w a id.
Proof. destruct k; try done; cbn; by intros [_ H] [= <-]. Qed.

Section Revocation.
Context {SL : CodecLaws SC}.
Context (path : Path) (Hpath : sessions_at = Ok path).

Lemma sessions_durable : durable path.
Proof.
  unfold session_store_default in Hpath. apply store_name in Hpath. unfold durable. rewrite Hpath. by vm_compute.
Qed.

Lemma sessions_apart : key_at <> Ok path /\ audit_log_path home <> Ok path.
Proof. split; by_name. Qed.

Lemma revoked_create id io record d d' :
  SessionKeys.revoked_in path id d -> d' ∈ (SessionKeys.create path io record d).2 -> SessionKeys.revoked_in path id d'.
Proof.
  intros Hd Hd'. apply (SessionKeys.later_revoked path id d d'); [|done].
  eapply SessionKeys.later_create; [apply SessionKeys.later_refl|exact Hd'].
Qed.

Lemma revoked_revoke id io id' now d d' :
  SessionKeys.revoked_in path id d -> d' ∈ (SessionKeys.revoke path io id' now d).2 ->
  SessionKeys.revoked_in path id d'.
Proof.
  intros Hd Hd'. apply (SessionKeys.later_revoked path id d d'); [|done].
  eapply SessionKeys.later_revoke; [apply SessionKeys.later_refl|exact Hd'].
Qed.

Lemma revoked_stable w id : below home w ->
  Stable (DE := DE) w (kept home (SessionKeys.revoked_in path id)).
Proof.
  intros Hw. destruct sessions_apart as [Hk Hl].
  apply (kept_stable home w Hw path); try done.
  - intros d d'. apply SessionKeys.revoked_same.
  - apply sessions_durable.
  - intros _ io record d d'. apply revoked_create.
  - intros _ io id' now d d'. apply revoked_revoke.
  - intros. by_name.
Qed.

Lemma standing_stable w : below home w -> Stable (DE := DE) w (kept home (fun _ => True)).
Proof.
  intros Hw. destruct sessions_apart as [Hk Hl]. by apply (kept_stable home w Hw path); [..|apply sessions_durable| | | | |].
Qed.

(** An answered revocation has revoked the key. *)
Lemma handle_revoke_revokes (w : World) r a p a' :
  below home w -> standing home a -> handle_revoke_session_key (DE := DE) w r a = (Ok (response_ok p), a') ->
  kept home (SessionKeys.revoked_in path (rk_session_key_id r)) a'.
Proof.
  intros Hw Hs. unfold handle_revoke_session_key.
  intros (pr & a1 & [-> _]%require_auth_ok & H)%bind_ok.
  apply bind_ok in H as (st & a2 & Hv & H).
  assert (Ha2 : kept home (fun _ => True) a2).
  { eapply (pres_run _ (verify_passkey w pr)); [apply pres_verify_passkey, (standing_stable w Hw)|exact Hv|done]. }
  apply bind_ok in H as (rr & a3 & Hr & H).
  apply bind_ok in H as (rec & a4 & Ho & H). unfold or_refuse in Ho. injection Ho as Ho <-.
  destruct rr as [rec'|]; [|done]. injection Ho as ->.
  unfold revoke_session, bind, reads, with_disk in Hr. cbn in Hr.
  destruct Ha2 as [Ha2 _]. pose proof Ha2 as (Hsp & _). assert (session_keys a2 = path) as Hp by congruence.
  rewrite Hp in Hr.
  pose proof (SessionKeys.revoke_revoked path (session_io w) (rk_session_key_id r) (clock_late w) (disk a2)) as Hrev.
  destruct (SessionKeys.revoke _ _ _ _ _) as [x trace]. injection Hr as -> <-. cbn in Hrev.
  specialize (Hrev eq_refl).
  eapply (pres_run _ (bind (record_audit w _ _ _ _) _)); [|exact H|].
  - apply pres_bind; [apply pres_record_audit, (revoked_stable w _ Hw)|intros ?; apply pres_ret].
  - split; [exact Ha2|exact Hrev].
Qed.
End Revocation.

(** C3 A revoked session key never signs again: after the agent has answered a
    revocation, whatever requests it serves, crashes and restarts come after, no
    signing request that names the key is answered with a signature. *)
Theorem revoked_never_signs {SL : CodecLaws SC} (w w2 : World) req req2 r k2 a p a1 a2 resp a3 :
  below home w -> standing home a ->
  request_kind req = Some (RevokeSessionKey r) -> dispatch_with w req a = (Ok (response_ok p), a1) ->
  runs (fun _ _ => True) a1 a2 ->
  request_kind req2 = Some k2 -> session_of k2 = Some (rk_session_key_id r) -> rk_session_key_id r <> "" ->
  dispatch_with w2 req2 a2 = (Ok resp, a3) -> ~ answered resp.
Proof.
  intros Hw Hs Hk Hd Hruns Hk2 Hid Hne Hd2 Hans.
  apply dispatch_answer in Hd. unfold handle in Hd. rewrite Hk in Hd.
  pose proof Hs as (Hpath & _). set (path := session_keys a) in *.
  apply (handle_revoke_revokes path Hpath) in Hd; [|done|done].
  destruct (sessions_apart path Hpath) as [Hkey Hlog].
  eapply (runs_kept (fun _ _ => True) path) in Hd; [| | | | | | | | |exact Hruns].
  - destruct Hd as [(Hsp & _) Hrev]. assert (session_keys a2 = path) as Hp by congruence.
    destruct resp as [[[p2|?|?]|]]; try done. change {| kind := Some (ROk p2) |} with (response_ok p2) in Hd2.
    apply dispatch_authority in Hd2 as (k & Hk2' & Hau). rewrite Hk2 in Hk2'. injection Hk2' as <-.
    eapply authority_session in Hau; [|exact Hid]. destruct Hau as [?|Hau]; [done|].
    rewrite Hp in Hau. revert Hau. by apply SessionKeys.revoked_inactive.
  - intros d d'. apply SessionKeys.revoked_same.
  - by apply sessions_durable.
  - done.
  - done.
  - intros _ io record d d'. apply revoked_create.
  - intros _ io id' now d d'. apply revoked_revoke.
  - by_name.
  - by_name.
Qed.

(** ** A sign-in message is signed once *)

Section Once.
Context {NL : Nonce.NonceLaws N}.
Context (path : Path) (Hpath : nonces_at = Ok path).

Lemma nonces_durable : durable path.
Proof.
  unfold nonce_store_default in Hpath. apply store_name in Hpath. unfold durable. rewrite Hpath. by vm_compute.
Qed.

Lemma nonces_apart : key_at <> Ok path /\ audit_log_path home <> Ok path.
Proof. split; by_name. Qed.

(** The store remembers the hash [key] up to [until]. *)
Abbreviation remembers key until := (fun d => Nonce.guards path d key until).

Lemma remembers_stable w key until : below home w -> Stable (DE := DE) w (kept home (remembers key until)).
Proof.
  intros Hw. destruct nonces_apart as [Hk Hl]. apply (kept_stable home w Hw path); try done.
  - intros d d'. apply Nonce.guards_same.
  - apply nonces_durable.
  - by_name.
  - by_name.
  - by_name.
Qed.

(** No request is served at [until] or later, or with a full store. *)
Definition in_time (until : Z) (w : World) (a : Agent) : Prop :=
  (clock_load w < until)%Z /\ Nonce.room (nonce_store a) (nonce_io w) (clock_load w) (disk a).

Lemma runs_remembers key until a a' :
  runs (in_time until) a a' -> kept home (remembers key until) a -> kept home (remembers key until) a'.
Proof.
  destruct nonces_apart as [Hk Hl]. apply (runs_kept (in_time until) path); try done.
  - intros d d'. apply Nonce.guards_same.
  - apply nonces_durable.
  - by_name.
  - by_name.
  - by_name.
  - intros _ w b h expires d d' [Hn Hr] <- HP He Hd'.
    refine (Nonce.guards_step _ _ _ _ _ _ d until key d' _ Hn _ Hd').
    + eapply Nonce.guards_same; [exact He|exact HP].
    + by eapply Nonce.room_same.
Qed.

Lemma authorized_disk w a auth token wid mode a' :
  authorized w a auth token wid mode a' -> disk a' = disk a /\ nonce_store a' = nonce_store a /\
    (standing home a -> standing home a').
Proof. intros [proof st b _ _ (p & vs & v & v' & _ & _ & _ & _ & _ & ->) _|e _ _ _ _]; by split_and!. Qed.

Lemma gate_remembers (w : World) r a msg mode a1 :
  standing home a -> sign_siwx_gate (DE := DE) w r a = (Ok (msg, mode), a1) ->
  kept home (remembers (Nonce.hex_encode (AuditChain.sha256 (req_message r)))
    (Z.max (nonce_expiry w msg) (saturating_add64 (clock_consume w) 1))) a1.
Proof.
  intros Hs (_ & _ & _ & _ & _ & a0 & Ha & Hc & ->)%sign_siwx_gate_ok.
  apply authorized_disk in Ha as (_ & _ & Hst). specialize (Hst Hs). split; [exact Hst|].
  destruct Hst as (_ & Hn & _). assert (nonce_store a0 = path) as Hp by congruence.
  unfold consume_call in *. rewrite Hp in *. by apply Nonce.consume_guards.
Qed.
End Once.

(** C2 The signer is called once for a sign-in message: after a request with it has
    passed every check, no request with the same bytes does, before the expiry
    recorded for them, whatever requests of any kind, failures, crashes and restarts
    come between, as long as the store has room. *)
Theorem signed_once {NL : Nonce.NonceLaws N} (w w2 : World) req r r2 a msg mode a1 a2 res a3 :
  let limit := Z.max (nonce_expiry w msg) (saturating_add64 (clock_consume w) 1) in
  below home w -> standing home a ->
  request_kind req = Some (SignSiwx r) -> sign_siwx_gate (DE := DE) w r a = (Ok (msg, mode), a1) ->
  runs (in_time limit) (dispatch_with w req a).2 a2 ->
  req_message r2 = req_message r -> (clock_load w2 < limit)%Z ->
  sign_siwx_gate (DE := DE) w2 r2 a2 = (res, a3) -> is_ok res = false.
Proof.
  intros limit Hw Hs Hk Hg Hruns Hm Hn Hg2. destruct res as [[msg2 mode2]|]; [|done]. exfalso.
  pose proof Hs as (_ & Hpath & _). set (path := nonce_store a) in *.
  pose proof (gate_remembers path Hpath w r a msg mode a1 Hs Hg) as H1. fold limit in H1.
  assert (H2 : kept home (fun d => Nonce.guards path d
    (Nonce.hex_encode (AuditChain.sha256 (req_message r))) limit) (dispatch_with w req a).2).
  { unfold Dispatch.dispatch_with, respond, handle. rewrite Hk. unfold handle_sign_siwx, bind. rewrite Hg.
    pose proof (pres_sign_siwx_finish (DE := DE) w _ (remembers_stable path Hpath w _ limit Hw) r msg mode a1 H1) as H.
    by destruct (sign_siwx_finish w r msg mode a1). }
  destruct (runs_remembers path Hpath _ _ _ _ Hruns H2) as [(_ & Hn2 & _) Hguard].
  apply sign_siwx_gate_ok in Hg2 as (_ & _ & _ & _ & _ & a0 & Ha & Hc & _).
  apply authorized_disk in Ha as (Hd & Hns & _). revert Hc. unfold consume_call. rewrite Hm, Hd, Hns.
  assert (nonce_store a2 = path) as -> by congruence.
  exact (proj2 (Nonce.guards_blocks _ _ _ _ _ _ _ limit Hguard Hn)).
Qed.

(** ** The audit log across requests *)

Section Audit.
Context {AL : AuditChain.AuditLaws A}.
Context (path : Path) (Hpath : audit_log_path home = Ok path).






End Audit.


End Histories.
