(* ===== verification/Challenges.v ===== *)
(** * A passkey proof authorizes one request

    A challenge leaves the shared table of verifiers when a proof for it is accepted
    ([Passkey.verify]).  Here it stays away through every later request, crash and
    restart ([AgentSafety.runs]), unless the generator draws it again. *)

From Stdlib Require Import ZArith Lia Bool String Ascii.
From stdpp Require Import base list strings gmap.
From S2P Require Import Prelude Str Bytes Files MapStore Json Frame Proto ChainKey.
From S2P Require Import Agent AgentRules Handlers SignSiwx Dispatch Authority AgentSafety.
From S2P Require Chain KeyCache Telemetry Names Passkey SessionKeys Nonce AuditChain Enclave Vault SiwxMessage.

Local Open Scope oc_scope.

Section Verifier.
Context {CU : Passkey.Curves}.

Lemma draws_from_rng fuel rng p e c : c ∈ Passkey.draws fuel rng p e -> exists i, c = rng i.
Proof.
  revert rng p. induction fuel as [|fuel IH]; intros rng p; cbn; [by intros ?%not_elem_of_nil|].
  destruct (p !! rng O); [|by intros ->%list_elem_of_singleton; exists O].
  rewrite elem_of_cons. intros [->|[i ->]%IH]; [by exists O|by exists (Datatypes.S i)].
Qed.

(** A verification brings no challenge back, and neither does a generation that
    does not draw it. *)
Lemma verify_pending now now' v auth c e :
  Passkey.pending_challenges (Passkey.verify now now' v auth).2 !! c = Some e ->
  Passkey.pending_challenges v !! c = Some e.
Proof.
  destruct (Passkey.verify now now' v auth) as [r v'] eqn:H. apply Passkey.verify_state in H. cbn [snd].
  destruct r as [[]|].
  - subst v'. cbn. rewrite lookup_delete_Some. by intros [_ [? _]%Passkey.sweep_lookup].
  - destruct H as [->| ->]; [done|]. by intros [? _]%Passkey.sweep_lookup.
Qed.

Lemma generate_pending now now' rng v r v' c e :
  Passkey.generate_challenge now now' rng v = Some (r, v') -> (forall i, rng i <> c) ->
  Passkey.pending_challenges v' !! c = Some e -> Passkey.pending_challenges v !! c = Some e.
Proof.
  unfold Passkey.generate_challenge. intros H Hr.
  destruct (_ <=? _)%nat; [injection H as <- <-; by intros [? _]%Passkey.sweep_lookup|].
  destruct (Passkey.draw_challenge _ _ _ _) as [[n p]|] eqn:Hd; [|done]. injection H as <- <-. cbn.
  intros Hc. eapply Passkey.draw_challenge_lookup in Hd as [[Hin _]|Hp]; [| |exact Hc].
  - apply draws_from_rng in Hin as [i ->]. by destruct (Hr i).
  - by apply Passkey.sweep_lookup in Hp as [? _].
Qed.
End Verifier.

Section Challenges.
Context {X : SiwxMessage.External} {S : SerdeNumber} {io_error json_error DE : Type}.
Context {A : AuditChain.AuditEnv io_error json_error} {N : Nonce.NonceEnv io_error json_error}.
Context {D : Display json_error} {L : Lowercase} {G : Signers} {WK : WalletKeys} {K : Kdf}.
Context {J : Enclave.EnclaveJson json_error} {CU : Passkey.Curves}.
Context {PC : Codec io_error json_error (gmap string Passkey.StoredPasskeyPubkey)}.
Context {SC : Codec io_error json_error SessionKeys.SessionMap}.
Context {VJ : Vault.WalletJson io_error json_error}.
Context {WI : Wire} {SI : SessionIter} {TJ : TelemetryJson}.
Context (home : option string) (cred : string) (c : bytes).

Abbreviation World := (World (io_error := io_error) (json_error := json_error)).
Abbreviation dispatch_with := (dispatch_with (DE := DE)).

(** The challenge [c] is not pending for the credential [cred]. *)
Definition spent (a : Agent) : Prop :=
  forall vs v e, passkey_verifiers a = Held vs -> vs !! cred = Some v ->
    Passkey.pending_challenges v !! c <> Some e.

(** The generator does not draw [c] while serving the request. *)
Definition fresh (w : World) : Prop := forall i, challenge_rng w i <> c.

Lemma spent_same a a' : passkey_verifiers a' = passkey_verifiers a -> spent a -> spent a'.
Proof. intros H Ha vs v e. rewrite H. apply Ha. Qed.

(** Another verifier in its place that has no more challenges. *)
Lemma spent_keep a cred' v v' vs :
  passkey_verifiers a = Held vs ->
  (forall e, Passkey.pending_challenges v' !! c = Some e -> Passkey.pending_challenges v !! c = Some e) ->
  (vs !! cred' = Some v \/ Passkey.pending_challenges v = ∅) ->
  spent a -> spent (set_verifiers (<[cred' := v']> vs) a).
Proof.
  intros Hv Hsub Hold Ha vs' x e [= <-]. rewrite lookup_insert_Some.
  intros [[-> ->]|[_ Hx]]; [|by eapply Ha]. intros He%Hsub.
  destruct Hold as [Ho|Ho]; [by eapply Ha|]. by rewrite Ho, lookup_empty in He.
Qed.

Lemma spent_present w auth stored : pres (DE := DE) spent (present w auth stored).
Proof.
  intros a Ha. unfold present, lazy_verifier, keep_verifier, bind, reads, or_refuse, refuses, stop, ret, modify.
  cbn. destruct (passkey_verifiers a) as [vs|] eqn:Hv; cbn; [|done].
  destruct (vs !! Passkey.credential_id auth) as [v|] eqn:Hl; cbn.
  - pose proof (fun e => verify_pending (clock_sweep w) (clock_challenge w) v auth c e) as Hp.
    destruct (Passkey.verify _ _ _ _) as [r v']. cbn in *. rewrite Hv.
    apply (spent_keep a _ v v' vs Hv Hp); auto.
  - destruct (Passkey.to_passkey_pubkey stored) as [pk|]; cbn; [|done].
    pose proof (fun e => verify_pending (clock_sweep w) (clock_challenge w)
      (Passkey.new pk (Passkey.credential_id auth)) auth c e) as Hp.
    destruct (Passkey.verify _ _ _ _) as [r v']. cbn in *. rewrite Hv.
    apply (spent_keep a _ (Passkey.new pk (Passkey.credential_id auth)) v' vs Hv Hp); auto.
Qed.

Lemma spent_issue w cred' stored : fresh w -> pres (DE := DE) spent (issue w cred' stored).
Proof.
  intros Hf a Ha.
  unfold issue, lazy_verifier, keep_verifier, bind, reads, or_refuse, refuses, stop, ret, modify.
  cbn. destruct (passkey_verifiers a) as [vs|] eqn:Hv; cbn; [|done].
  destruct (vs !! cred') as [v|] eqn:Hl; cbn.
  - destruct (Passkey.generate_challenge _ _ _ _) as [[r v']|] eqn:Hg; cbn; [|done]. rewrite Hv.
    apply (spent_keep a _ v v' vs Hv); auto. intros e. by eapply generate_pending.
  - destruct (Passkey.to_passkey_pubkey stored) as [pk|]; cbn; [|done].
    destruct (Passkey.generate_challenge _ _ _ _) as [[r v']|] eqn:Hg; cbn; [|done]. rewrite Hv.
    apply (spent_keep a _ (Passkey.new pk cred') v' vs Hv); auto. intros e. by eapply generate_pending.
Qed.

Lemma spent_stable w : fresh w -> Stable (DE := DE) w spent.
Proof.
  intros Hf. split.
  - intros pt ev skid pl a. unfold log_audit. destruct (audit_log a); [|done].
    destruct (AuditChain.append _ _ _ _ _ _ _) as [[r log] d]. by apply spent_same.
  - intros R f _ a. unfold with_keys. destruct (f _). by apply spent_same.
  - intros exe req a. unfold call_enclave. destruct (Enclave.spawn_enclave_child _ _ _ _ _ _). by apply spent_same.
  - apply spent_present.
  - intros cred' stored. by apply spent_issue.
  - intros a vs _ _ vs' v e [= <-]. by rewrite lookup_empty.
  - intros record a. unfold create_session, with_disk, bind, reads. cbn. destruct (SessionKeys.create _ _ _ _). by apply spent_same.
  - intros id a. unfold revoke_session, with_disk, bind, reads. cbn. destruct (SessionKeys.revoke _ _ _ _ _). by apply spent_same.
  - intros path cr stored _ a. unfold register_passkey, with_disk. destruct (Passkey.register _ _ _ _ _). by apply spent_same.
  - intros a k. by apply spent_same.
  - intros a t. by apply spent_same.
Qed.

Lemma spent_consume w message expires : pres (DE := DE) spent (consume_nonce w message expires).
Proof.
  intros a. unfold consume_nonce, with_disk, bind, reads. cbn. destruct (Nonce.consume _ _ _ _ _ _ _).
  by apply spent_same.
Qed.

Lemma spent_dispatch w req : fresh w -> pres (DE := DE) spent (dispatch_with w req).
Proof.
  intros Hf. apply (dispatch_takes w spent spent); auto using spent_stable, spent_consume.
  intros m e. apply spent_consume.
Qed.

Lemma spent_runs a a' : runs (DE := DE) home (fun w _ => fresh w) a a' -> spent a -> spent a'.
Proof.
  induction 1 as [|a1 w req _ IH _ Hf|a1 w d _ IH _ _ _|a1 o ca i t a2 d _ _ _ H|a1 token _ IH|a1 b _ IH];
    intros Ha; try specialize (IH Ha).
  - done.
  - by apply spent_dispatch.
  - by apply (spent_same a1).
  - apply open_default_forgets in H. intros vs v e. rewrite H. intros [= <-]. by rewrite lookup_empty.
  - revert IH. apply spent_same. unfold set_sign_auth_internal_token_on. by destruct (sign_auth_internal_token a1).
  - by apply (spent_same a1).
Qed.

(** An accepted proof spends its challenge. *)
Lemma accepts_spends w a proof stored a' :
  accepts w a proof stored a' -> Passkey.credential_id proof = cred -> Passkey.challenge proof = c -> spent a'.
Proof.
  intros (path & vs & v & v' & _ & _ & _ & _ & (_ & _ & _ & _ & _ & ->)%Passkey.verify_accepts & ->) Hcr Hc.
  intros vs' x e [= <-]. rewrite lookup_insert_Some. rewrite Hcr. intros [[_ <-]|[? _]]; [|done]. cbn.
  by rewrite Hc, lookup_delete_eq.
Qed.

Lemma spent_rejects w a proof stored a' :
  spent a -> Passkey.credential_id proof = cred -> Passkey.challenge proof = c -> ~ accepts w a proof stored a'.
Proof.
  intros Hs Hcr Hc (path & vs & v & v' & _ & _ & Hv & Hl & (_ & _ & _ & (e & He & _) & _)%Passkey.verify_accepts & _).
  apply (Hs vs v e); congruence.
Qed.

(** The handlers from their gate on. *)
Section Rest.
Context (w : World) (Hf : fresh w) (proof : Passkey.PasskeyAuthorization).
Context (Hcred : Passkey.credential_id proof = cred) (Hc : Passkey.challenge proof = c).

Abbreviation spends m := (forall a y a', m a = (Ok y, a') -> spent a').

Lemma spends_shown {R} (k : Passkey.StoredPasskeyPubkey -> Ag DE Agent R) :
  (forall s, pres (DE := DE) spent (k s)) ->
  spends (bind (require_auth (Some proof)) (fun p => bind (verify_passkey w p) k)).
Proof.
  intros Hk a y a' (p & a1 & [-> [= <-]]%require_auth_ok & H)%bind_ok.
  apply bind_ok in H as (s & a2 & Ha%verify_passkey_ok & H).
  eapply (pres_run spent (k s)); [apply Hk|exact H|]. by eapply accepts_spends.
Qed.

Lemma spends_wallet {R} wid (k : Passkey.StoredPasskeyPubkey -> Ag DE Agent R) :
  (forall s, pres (DE := DE) spent (k s)) ->
  spends (bind (require_auth (Some proof)) (fun p => bind (verify_passkey_for w p wid) k)).
Proof.
  intros Hk a y a' (p & a1 & [-> [= <-]]%require_auth_ok & H)%bind_ok.
  apply bind_ok in H as (s & a2 & [Ha _]%verify_passkey_for_ok & H).
  eapply (pres_run spent (k s)); [apply Hk|exact H|]. by eapply accepts_spends.
Qed.

Lemma spends_gate {R} wid skid (k : unit -> Ag DE Agent R) :
  (forall u, pres (DE := DE) spent (k u)) -> spends (bind (passkey_gate w (Some proof) wid skid) k).
Proof.
  intros Hk a y a' (u & a1 & Hg & H)%bind_ok. eapply (pres_run spent (k u)); [apply Hk|exact H|].
  revert Hg. apply spends_wallet. intros s. apply pres_ensure_session_key_active.
Qed.

Lemma spends_authorize {R} name token wid (k : string -> Ag DE Agent R) :
  (forall m, pres (DE := DE) spent (k m)) -> spends (bind (authorize w name (Some proof) token wid) k).
Proof.
  intros Hk a y a' (m & a1 & Hg%authorize_ok & H)%bind_ok. eapply (pres_run spent (k m)); [apply Hk|exact H|].
  destruct Hg as [p st b [= <-] _ Ha _|e [=] _ _ _]. by eapply accepts_spends.
Qed.
End Rest.

(** The proof a request carries. *)
Definition proof_of (k : KeyAgentRequestKind) : option Passkey.PasskeyAuthorization :=
  match k with
  | SignTransaction r => st_auth r
  | SignUserOp r => su_auth r
  | SignMessage r => sm_auth r
  | SignTypedData r => sd_auth r
  | SignAuth r => sa_auth r
  | SignSiwx r => req_auth r
  | UnlockVault r => uv_auth r
  | CreateSessionKey r => ck_auth r
  | RevokeSessionKey r => rk_auth r
  | _ => None
  end.

(** A request that carries a proof is answered only if the proof is accepted. *)
Lemma authority_accepts w a k proof :
  authority w a k -> proof_of k = Some proof -> exists stored a', accepts w a proof stored a'.
Proof.
  destruct k; cbn; try done; intros H Hp; rewrite ?Hp in H.
  1,2: by destruct H as (p & s & a' & [= <-] & H); eauto.
  1,2,3,4: by destruct H as [(p & s & a' & [= <-] & H & _) _]; eauto.
  - by destruct H as (p & s & a' & [= <-] & H & _); eauto.
  - destruct H as (m & a' & H). destruct H as [p s b [= <-] _ H _|e [=] _ _ _]; eauto.
  - destruct H as (msg & m & a' & _ & _ & _ & _ & _ & b & H & _).
    destruct H as [p s b' He _ H _|e He _ _ _]; rewrite Hp in He; [|done]. injection He as <-. eauto.
Qed.

(** An answered request has spent its proof. *)
Lemma handle_spends (w : World) req k a p a' proof :
  fresh w -> request_kind req = Some k -> proof_of k = Some proof ->
  Passkey.credential_id proof = cred -> Passkey.challenge proof = c ->
  handle (DE := DE) w req a = (Ok (response_ok p), a') -> spent a'.
Proof.
  intros Hf Hk Hp Hcr Hc. unfold handle. rewrite Hk. pose proof (spent_stable w Hf) as Hst.
  destruct k; try done; cbn [proof_of] in Hp.
  - unfold handle_create_session_key, answer. rewrite Hp. apply spends_shown; try done. intros s. preserve Hst.
  - unfold handle_revoke_session_key, answer. rewrite Hp. apply spends_shown; try done. intros s. preserve Hst.
  - unfold handle_sign_transaction, answer. rewrite Hp. apply spends_gate; try done. intros _.
    apply pres_bind; [by apply pres_sign_transaction_with|intros ?]. preserve Hst.
  - unfold handle_sign_user_op, answer. rewrite Hp. apply spends_gate; try done. intros _.
    apply pres_bind; [by apply pres_sign_transaction_with|intros ?]. preserve Hst.
  - unfold handle_sign_message, audit_signature_if, answer. rewrite Hp. apply spends_gate; try done. intros _.
    destruct (Enclave.enclave_enabled _); [preserve Hst|].
    apply pres_bind; [by apply pres_message_core|intros ?]. preserve Hst.
  - unfold handle_sign_typed_data, audit_signature_if, answer. rewrite Hp. apply spends_gate; try done. intros _.
    destruct (Enclave.enclave_enabled _); [preserve Hst|].
    apply pres_bind; [by apply pres_chain_key|intros ?]. preserve Hst.
  - unfold handle_unlock_vault, answer. rewrite Hp. apply spends_wallet; try done. intros s. preserve Hst.
    destruct st as [i d]. pose proof (load_device_key_frame (keys w) d) as H. by destruct (load_device_key (keys w) d).
  - unfold handle_sign_auth, enclave_identity, answer. rewrite Hp. do 2 (destruct (is_empty _); [done|]).
    apply spends_authorize; try done. intros mode. destruct (Enclave.enclave_enabled _); [preserve Hst|].
    apply pres_bind; [by apply pres_message_core|intros ?]. preserve Hst.
  - unfold handle_sign_siwx. intros (x & a1 & Hg & H)%bind_ok. destruct x as [msg mode].
    eapply (pres_run spent (sign_siwx_finish w r msg mode)); [by apply pres_sign_siwx_finish|exact H|].
    revert Hg. unfold sign_siwx_gate. rewrite Hp. do 3 (destruct (is_empty _); [done|]).
    apply spends_authorize; try done. intros m. unfold validate_window, consume_message.
    apply pres_bind; [apply pres_or_refuse|intros msg'].
    apply pres_bind; [preserve Hst|intros _]. apply pres_bind; [|intros _; preserve Hst].
    apply pres_bind; [apply spent_consume|intros r0]. preserve Hst.
Qed.
End Challenges.

Section Once.
Context {X : SiwxMessage.External} {S : SerdeNumber} {io_error json_error DE : Type}.
Context {A : AuditChain.AuditEnv io_error json_error} {N : Nonce.NonceEnv io_error json_error}.
Context {D : Display json_error} {L : Lowercase} {G : Signers} {WK : WalletKeys} {K : Kdf}.
Context {J : Enclave.EnclaveJson json_error} {CU : Passkey.Curves}.
Context {PC : Codec io_error json_error (gmap string Passkey.StoredPasskeyPubkey)}.
Context {SC : Codec io_error json_error SessionKeys.SessionMap}.
Context {VJ : Vault.WalletJson io_error json_error}.
Context {WI : Wire} {SI : SessionIter} {TJ : TelemetryJson}.
Context (home : option string).

Abbreviation World := (World (io_error := io_error) (json_error := json_error)).
Abbreviation dispatch_with := (dispatch_with (DE := DE)).

(** C4 A passkey proof authorizes one request: after a request of any kind has been
    answered on a proof, no request of any kind is answered on a proof with the same
    credential and challenge, whatever requests, crashes and restarts come between,
    as long as the generator does not draw that challenge again. *)
Theorem proof_used_once (w w2 : World) req req2 k k2 proof proof2 a p a1 a2 resp a3 :
  let c := Passkey.challenge proof in
  fresh c w -> request_kind req = Some k -> proof_of k = Some proof ->
  dispatch_with w req a = (Ok (response_ok p), a1) ->
  runs (DE := DE) home (fun w _ => fresh c w) a1 a2 ->
  request_kind req2 = Some k2 -> proof_of k2 = Some proof2 ->
  Passkey.credential_id proof2 = Passkey.credential_id proof -> Passkey.challenge proof2 = c ->
  dispatch_with w2 req2 a2 = (Ok resp, a3) -> ~ answered resp.
Proof.
  intros c Hf Hk Hp Hd Hruns Hk2 Hp2 Hcred Hc Hd2 Hans.
  apply dispatch_answer in Hd. eapply (handle_spends (Passkey.credential_id proof) c) in Hd; try done.
  eapply (spent_runs home (Passkey.credential_id proof) c) in Hd; [|exact Hruns].
  destruct resp as [[[p2|?|?]|]]; try done. change {| kind := Some (ROk p2) |} with (response_ok p2) in Hd2.
  apply dispatch_authority in Hd2 as (k' & Hk' & Hau). rewrite Hk2 in Hk'. injection Hk' as <-.
  eapply authority_accepts in Hau as (stored & a' & Ha); [|exact Hp2].
  by eapply spent_rejects in Ha.
Qed.
End Once.
