(* ===== verification/Ends.v ===== *)
(** * Every request gets an answer

    The loops of the agent are the polling of an enclave child and the drawing of a
    challenge.  Neither runs out when time passes between polls and the generator
    does not repeat itself, so a request ends in an answer, an error of the
    dispatcher, or the panic of the sign-in validation ([SiwxAuth]). *)

From Stdlib Require Import ZArith Lia Bool String Ascii.
From stdpp Require Import base list strings gmap.
From S2P Require Import Prelude Str Bytes Files MapStore Json Frame Proto ChainKey.
From S2P Require Import Agent AgentRules Handlers SignSiwx Dispatch.
From S2P Require Chain KeyCache Telemetry Names Passkey SessionKeys Nonce AuditChain Enclave Vault SiwxMessage.

Local Open Scope oc_scope.

Section Ends.
Context {X : SiwxMessage.External} {S : SerdeNumber} {io_error json_error DE : Type}.
Context {A : AuditChain.AuditEnv io_error json_error} {N : Nonce.NonceEnv io_error json_error}.
Context {D : Display json_error} {L : Lowercase} {G : Signers} {WK : WalletKeys} {K : Kdf}.
Context {J : Enclave.EnclaveJson json_error} {CU : Passkey.Curves}.
Context {PC : Codec io_error json_error (gmap string Passkey.StoredPasskeyPubkey)}.
Context {SC : Codec io_error json_error SessionKeys.SessionMap}.
Context {VJ : Vault.WalletJson io_error json_error}.
Context {WI : Wire} {SI : SessionIter} {TJ : TelemetryJson}.

Abbreviation World := (World (io_error := io_error) (json_error := json_error)).
Abbreviation Ag := (Ag DE Agent).

(** The computation does not run out of fuel. *)
Definition ends {R : Type} (m : Ag R) : Prop := forall a, (m a).1 <> Err Exhausted.

Lemma ends_bind {R T : Type} (m : Ag R) (k : R -> Ag T) : ends m -> (forall x, ends (k x)) -> ends (bind m k).
Proof.
  intros Hm Hk a. unfold bind. specialize (Hm a). destruct (m a) as [[x|s] a1]; [apply Hk|].
  cbn in *. congruence.
Qed.

Lemma ends_ret {R : Type} (x : R) : ends (ret x).
Proof. by intros a. Qed.

Lemma ends_reads {R : Type} (f : Agent -> R) : ends (reads f).
Proof. by intros a. Qed.

Lemma ends_modify f : ends (modify f).
Proof. by intros a. Qed.

Lemma ends_answer {R : Type} r : ends (stop (R := R) (Answer r)).
Proof. by intros a. Qed.

Lemma ends_failed {R : Type} e : ends (stop (R := R) (Failed e)).
Proof. by intros a. Qed.

Lemma ends_panics {R : Type} : ends (stop (R := R) Panics).
Proof. by intros a. Qed.

Lemma ends_or_refuse {E R : Type} (f : E -> KeyAgentResponse) (r : result E R) : ends (or_refuse f r).
Proof. intros a. unfold or_refuse. by destruct r. Qed.

Lemma ends_with_keys {R : Type} (f : KeyState -> R * KeyState) : ends (with_keys f).
Proof. intros a. unfold with_keys. by destruct (f _). Qed.

Lemma ends_with_disk {R : Type} (f : FS -> R * list FS) : ends (with_disk f).
Proof. intros a. unfold with_disk. by destruct (f _). Qed.

Lemma ends_log (w : World) pt ev skid pl : ends (log_audit w pt ev skid pl).
Proof.
  intros a. unfold log_audit. destruct (audit_log a); [|done].
  by destruct (AuditChain.append _ _ _ _ _ _ _) as [[? ?] ?].
Qed.

Lemma ends_drain n : ends (drain_telemetry n).
Proof. intros a. unfold drain_telemetry. by destruct (Telemetry.drain_at_most _ _). Qed.

(** What the world must do for the loops to end: a child's polls are 10 ms apart,
    and 256 random challenges are different. *)
Definition lively (w : World) : Prop :=
  (forall exe vars pid run s d, enclave_spawn w exe vars = Ok (pid, run) -> Enclave.paced (run s d).1) /\
  NoDup (map (challenge_rng w) (List.seq 0 Passkey.MAX_PENDING_CHALLENGES)).

Lemma timeout_positive vars : (0 <= Enclave.enclave_timeout vars)%Z.
Proof.
  unfold Enclave.enclave_timeout. assert (0 <= Enclave.ENCLAVE_DEFAULT_TIMEOUT)%Z by by vm_compute.
  destruct (vars !! _) as [v|]; [|done]. destruct (parse_unsigned _ _) as [s|]; [|done].
  destruct (Z.ltb_spec 0 s); lia.
Qed.

Section Lively.
Context (w : World) (Hw : lively w).

Lemma ends_call exe req : ends (call_enclave w exe req).
Proof.
  intros a. unfold call_enclave.
  pose proof (Enclave.spawn_enclave_child_total (enclave_spawn w) exe (env w) req
    (Enclave.enclave_timeout (env w)) (disk a)) as H.
  destruct (Enclave.spawn_enclave_child _ _ _ _ _ _) as [r d]. cbn in *.
  destruct r as [r|]; [done|]. exfalso. apply H; [|apply timeout_positive|done].
  intros pid run Hs s d'. by eapply (proj1 Hw).
Qed.

Lemma ends_issue cred stored : ends (issue w cred stored).
Proof.
  unfold issue, lazy_verifier. apply ends_bind.
  - apply ends_bind; [apply ends_reads|intros [vs|]; [|apply ends_answer]].
    destruct (vs !! cred); [apply ends_ret|]. apply ends_bind; [apply ends_or_refuse|intros; apply ends_ret].
  - intros v. destruct (Passkey.generate_challenge_ends (clock_sweep w) (clock_challenge w) (challenge_rng w) v)
      as (r & v' & -> & _); [apply Hw|]. apply ends_bind; [apply ends_modify|intros; apply ends_ret].
Qed.
End Lively.
End Ends.

(** Decomposes a handler into its steps. *)
Ltac end_step :=
  first
    [ apply ends_ret | apply ends_reads | apply ends_modify | apply ends_answer | apply ends_failed
    | apply ends_panics | apply ends_or_refuse | apply ends_with_keys | apply ends_with_disk | apply ends_log
    | apply ends_drain | (apply ends_call; assumption) | (apply ends_issue; assumption)
    | (apply ends_bind; [|intros ?])
    | match goal with |- ends (match ?x with _ => _ end) => destruct x end ].

Section Dispatched.
Context {X : SiwxMessage.External} {S : SerdeNumber} {io_error json_error DE : Type}.
Context {A : AuditChain.AuditEnv io_error json_error} {N : Nonce.NonceEnv io_error json_error}.
Context {D : Display json_error} {L : Lowercase} {G : Signers} {WK : WalletKeys} {K : Kdf}.
Context {J : Enclave.EnclaveJson json_error} {CU : Passkey.Curves}.
Context {PC : Codec io_error json_error (gmap string Passkey.StoredPasskeyPubkey)}.
Context {SC : Codec io_error json_error SessionKeys.SessionMap}.
Context {VJ : Vault.WalletJson io_error json_error}.
Context {WI : Wire} {SI : SessionIter} {TJ : TelemetryJson}.
Context (w : World (io_error := io_error) (json_error := json_error)) (Hw : lively w).

Abbreviation ends m := (ends (DE := DE) m).

Lemma ends_verify auth wid : ends (verify_passkey_for w auth wid).
Proof.
  unfold verify_passkey_for, verify_passkey, stored_passkey, present, lazy_verifier, keep_verifier, record_audit.
  repeat end_step.
Qed.

Lemma ends_gate auth wid skid : ends (passkey_gate w auth wid skid).
Proof.
  unfold passkey_gate, require_auth, ensure_session_key_active.
  apply ends_bind; [repeat end_step|intros p]. apply ends_bind; [apply ends_verify|intros _]. repeat end_step.
Qed.

Lemma ends_enclave args : ends (enclave_signature w args).
Proof. unfold enclave_signature, sign_via_enclave, record_audit, record_audit_strict. repeat end_step. Qed.

Lemma ends_authorize name auth token wid : ends (authorize w name auth token wid).
Proof.
  unfold authorize, record_audit. destruct auth as [p|]; [|repeat end_step].
  destruct (negb _); [apply ends_answer|]. apply ends_bind; [apply ends_verify|intros; apply ends_ret].
Qed.

Ltac ending := repeat first [ apply ends_gate | apply ends_enclave | apply ends_authorize | apply ends_verify | end_step ].

(** C24 Every request is served to the end: when the polls of an enclave child are
    10 ms apart and the generator does not repeat a challenge, no request of any kind
    leaves the agent looping. *)
Theorem dispatch_ends req : ends (dispatch_with w req).
Proof.
  assert (H : ends (handle w req)).
  { unfold handle, unsupported. destruct (request_kind req) as [[]|].
    - unfold handle_create_session_key, require_auth, verify_passkey, stored_passkey, present, lazy_verifier,
        keep_verifier, create_session, record_audit, answer. ending.
    - unfold handle_revoke_session_key, require_auth, verify_passkey, stored_passkey, present, lazy_verifier,
        keep_verifier, revoke_session, record_audit, answer. ending.
    - unfold handle_sign_transaction, sign_transaction_with, chain_key, audit_signature, record_audit_strict,
        audit_gate, answer. ending.
    - unfold handle_sign_user_op, sign_transaction_with, chain_key, audit_signature, record_audit_strict,
        audit_gate, answer. ending.
    - unfold handle_sign_message, audit_signature_if, record_audit, record_audit_strict, answer. ending.
    - unfold handle_sign_typed_data, chain_key, audit_signature_if, record_audit, record_audit_strict, answer. ending.
    - ending.
    - unfold handle_list_wallets, answer. ending.
    - unfold handle_lock_vault, record_audit, answer. ending.
    - unfold handle_unlock_vault, require_auth, record_audit, answer. ending.
    - unfold handle_register_passkey, register_passkey, record_audit, answer. ending.
    - unfold handle_generate_challenge, stored_passkey, record_audit, answer. ending.
    - ending.
    - ending.
    - ending.
    - unfold handle_drain_telemetry, answer. ending.
    - unfold handle_sign_auth, enclave_identity, record_audit_strict, audit_gate, answer. ending.
    - unfold handle_list_session_keys, answer. ending.
    - unfold handle_sign_siwx, sign_siwx_gate, sign_siwx_finish, siwx_signature, enclave_identity,
        validate_window, consume_message, consume_nonce, record_audit, record_audit_strict, audit_gate, answer. ending.
    - ending. }
  intros a. specialize (H a). unfold dispatch_with, respond. destruct (handle w req a) as [[r|[r|e| |]] a']; cbn in *; congruence.
Qed.
End Dispatched.
