(* ===== verification/AgentDemo.v ===== *)
(** * Concrete runs of the Key-Agent

    An agent opened below /home/a, with one wallet and one passkey, and requests
    served in turn: the instances of the theorems on the agent, and what its
    registration of passkeys allows. *)

From Stdlib Require Import ZArith Lia Bool String Ascii.
From stdpp Require Import base list strings gmap.
From S2P Require Import Prelude Str Bytes Files MapStore Json DemoText Frame Passkey Proto ChainKey.
From S2P Require Import Agent AgentRules Handlers SignSiwx Dispatch Authority AgentSafety Challenges Ends.
From S2P Require Chain KeyCache Telemetry Names SessionKeys Nonce AuditChain Enclave WalletFile Vault.
From S2P Require Import SiwxMessage SiwxParse SiwxAuth.

Local Open Scope oc_scope.

(** ** The libraries *)

#[local] Existing Instances AuditChain.demo_audit_env AuditChain.demo_audit_laws Nonce.demo_nonce_env
  Nonce.demo_nonce_laws Chain.demo_lowercase Enclave.demo_enclave_json SessionKeys.demo_session_codec
  SessionKeys.demo_session_laws Vault.demo_wallet_json.

(** A payload is the signature or the challenge in the answer. *)
#[export] Instance demo_wire : Wire := {|
  encode_reply r := match r with
    | ReSignTransaction r => st_signature r
    | ReSignMessage r => sm_signature r
    | ReSignSiwx r => res_signature r
    | ReGenerateChallenge r => gc_challenge r
    | ReCreateSessionKey r => str_bytes (ck_session_key_id r)
    | _ => []
    end
|}.

#[export] Instance demo_session_iter : SessionIter := {| map_values m := (map_to_list m).*2 |}.
#[export] Instance demo_telemetry_json : TelemetryJson := {| batch_to_json _ := Ok "batch" |}.

Abbreviation DemoAgent := (@Agent demo_number string unit AuditChain.demo_audit_env demo_curves).
Abbreviation DemoWorld := (@World demo_external string unit).

Definition demo_home : option string := Some "/home/a".

(** Instants are in nanoseconds. *)
Definition demo_key_world : @KeyWorld string unit := {|
  key_store := key_store_default demo_home;
  key_io := AuditChain.demo_key_io;
  key_random := "0123456789abcdef0123456789abcdef";
  token_clock := 0
|}.

(** A request served at [n] seconds; challenges are drawn from [i] on. *)
Definition demo_world (n : Z) (i : nat) : DemoWorld := {|
  env := {["OC_ENCLAVE" := "off"]};
  audit_now _ := "t"; audit_io _ := AuditChain.demo_append_io;
  passkey_store := passkey_store_default demo_home; passkey_io := demo_io;
  clock_sweep := n; clock_challenge := n; challenge_rng k := demo_rng (i + k);
  session_io := demo_io; session_random := n; clock_now := n; clock_late := n; clock_answer := n;
  keys := demo_key_world;
  enclave_exe := Ok "oc"; enclave_spawn _ _ := Err "no such file";
  enclave_pid := 7; enclave_nanos := 0; enclave_counter := 0; latency_ms := 1;
  clock_validate := (n * 1000000000)%Z : @Instant demo_external;
  clock_ttl := n; clock_load := n; clock_consume := n;
  nonce_io := demo_io; vault_io := Vault.demo_vault_io
|}.

Definition demo_opening : Opening := {|
  home := demo_home; opening_key := AuditChain.demo_key_io;
  opening_random := "0123456789abcdef0123456789abcdef"; opening_log := AuditChain.demo_open_io
|}.

Definition demo_opened (d : FS) :=
  open_default (DE := unit) (S := demo_number) demo_opening (KeyCache.new 100 2) (Held ∅)
    (Telemetry.with_capacity 4) d.

(** What is left when nothing could be opened. *)
Definition demo_poisoned : DemoAgent := {|
  audit_log := Poisoned; audit_fail_closed := true; passkey_verifiers := Poisoned;
  sign_auth_internal_token := Poisoned; session_keys := (None, None); nonce_store := (None, None);
  key_cache := KeyCache.new 100 2; interner := Poisoned; telemetry := Telemetry.with_capacity 4; disk := ∅
|}.

Definition or_poisoned {E : Type} (r : result E DemoAgent) : DemoAgent :=
  match r with Ok a => a | Err _ => demo_poisoned end.

(** The agent, failing closed, with a token for sign-ins. *)
Definition demo_agent : DemoAgent :=
  set_sign_auth_internal_token_on (Some "token") (set_audit_fail_closed true (or_poisoned (demo_opened ∅).1)).

Definition demo_dispatch (n : Z) (i : nat) (k : KeyAgentRequestKind) (a : DemoAgent) :=
  dispatch_with (DE := unit) (demo_world n i) {| request_kind := Some k |} a.

Definition demo_serve (n : Z) (i : nat) (k : KeyAgentRequestKind) (a : DemoAgent) : DemoAgent :=
  (demo_dispatch n i k a).2.

(** ** Requests *)

Definition demo_register (wallet : string) (key : Z) : KeyAgentRequestKind :=
  RegisterPasskey {| rp_wallet_id := wallet; rp_credential_id := "cred"; rp_algorithm := "ed25519";
                     rp_public_key := repeat key 32; rp_rp_id := "" |}.

Definition demo_challenge : KeyAgentRequestKind := GenerateChallenge {| gc_credential_id := "cred" |}.

(** The proof of the holder of [key] for the challenge drawn at [i]. *)
Definition demo_passkey (key : Z) (i : nat) : PasskeyAuthorization := {|
  challenge := demo_rng i; auth_signature := repeat key 32 ++ demo_rng i ++ str_bytes "cred";
  credential_id := "cred"
|}.

Definition demo_sign (skid : string) (auth : PasskeyAuthorization) : KeyAgentRequestKind :=
  SignMessage {| sm_session_key_id := skid; sm_wallet_id := "w"; sm_message := "hello"; sm_auth := Some auth |}.

(** Registered, and challenged with the first draw. *)
Definition demo_ready : DemoAgent :=
  demo_serve 1001 0 demo_challenge (demo_serve 1000 0 (demo_register "w" 5) demo_agent).

Lemma demo_signs : (demo_dispatch 1002 1 (demo_sign "" (demo_passkey 5 0)) demo_ready).1 = Ok (response_ok [1]%Z).
Proof. runs. Qed.

(** ** The world and the agent fit the theorems *)

Lemma demo_below n i : below demo_home (demo_world n i).
Proof. split; [reflexivity|]. split; [reflexivity|]. intros exe vars pid run s d [=]. Defined.

Lemma demo_lively n i : bool_decide (NoDup (map (challenge_rng (demo_world n i)) (List.seq 0 MAX_PENDING_CHALLENGES))) = true ->
  lively (demo_world n i).
Proof. intros H. split; [intros exe vars pid run s d [=]|by apply bool_decide_eq_true in H]. Defined.


Lemma demo_outcome n i k a r : (demo_dispatch n i k a).1 = r -> demo_dispatch n i k a = (r, demo_serve n i k a).
Proof. unfold demo_serve. destruct (demo_dispatch n i k a). cbn. congruence. Defined.

Lemma demo_run good n i k a a1 :
  runs (DE := unit) demo_home good a a1 -> good (demo_world n i) a1 ->
  runs (DE := unit) demo_home good a (demo_serve n i k a1).
Proof. intros Ha Hg. unfold demo_serve, demo_dispatch. apply runs_request; [done|apply demo_below|done]. Defined.

(** ** Authority *)

Lemma dispatch_authorized_witness :
  exists k, request_kind {| request_kind := Some (demo_sign "" (demo_passkey 5 0)) |} = Some k /\ Authority.authority (demo_world 1002 1) demo_ready k.
Proof.
  apply (dispatch_authorized (DE := unit) (demo_world 1002 1) {| request_kind := Some (demo_sign "" (demo_passkey 5 0)) |}
    demo_ready [1]%Z (demo_serve 1002 1 (demo_sign "" (demo_passkey 5 0)) demo_ready)).
  exact (demo_outcome 1002 1 (demo_sign "" (demo_passkey 5 0)) demo_ready _ demo_signs).
Defined.

Lemma signature_recorded_witness :
  logged (DE := unit) (demo_world 1002 1) (demo_serve 1002 1 (demo_sign "" (demo_passkey 5 0)) demo_ready).
Proof.
  apply (signature_recorded (DE := unit) (demo_world 1002 1) {| request_kind := Some (demo_sign "" (demo_passkey 5 0)) |}
    (demo_sign "" (demo_passkey 5 0)) demo_ready [1]%Z).
  - reflexivity.
  - reflexivity.
  - runs.
  - exact (demo_outcome 1002 1 (demo_sign "" (demo_passkey 5 0)) demo_ready _ demo_signs).
Defined.

(** ** Revocation *)

(** The session key made at 1010, its identifier from the generator. *)
Definition demo_session_id : string := session_key_id_of 1010.

Definition demo_create (auth : PasskeyAuthorization) : KeyAgentRequestKind :=
  CreateSessionKey {| ck_label := "bot"; ck_rules := None; ck_budget := None; ck_auth := Some auth |}.
Definition demo_revoke (auth : PasskeyAuthorization) : KeyAgentRequestKind :=
  RevokeSessionKey {| rk_session_key_id := demo_session_id; rk_auth := Some auth |}.

(** A session key is made; it signs; it is revoked.  Challenges are drawn at 0 to 3. *)
Definition demo_keyed : DemoAgent :=
  demo_serve 1011 1 demo_challenge (demo_serve 1010 1 (demo_create (demo_passkey 5 0)) demo_ready).
Definition demo_revoking : DemoAgent :=
  demo_serve 1013 2 demo_challenge (demo_serve 1012 2 (demo_sign demo_session_id (demo_passkey 5 1)) demo_keyed).
Definition demo_revoked_agent : DemoAgent := demo_serve 1020 3 (demo_revoke (demo_passkey 5 2)) demo_revoking.
Definition demo_after : DemoAgent := demo_serve 1021 3 demo_challenge demo_revoked_agent.

Lemma demo_session_signs :
  (demo_dispatch 1012 2 (demo_sign demo_session_id (demo_passkey 5 1)) demo_keyed).1 = Ok (response_ok [1]%Z) /\
  (demo_dispatch 1020 3 (demo_revoke (demo_passkey 5 2)) demo_revoking).1 = Ok (response_ok []).
Proof. split; runs. Qed.

Lemma revoked_never_signs_witness :
  exists resp, (demo_dispatch 1022 4 (demo_sign demo_session_id (demo_passkey 5 3)) demo_after).1 = Ok resp /\
    ~ answered resp.
Proof.
  set (out := (demo_dispatch 1022 4 (demo_sign demo_session_id (demo_passkey 5 3)) demo_after).1).
  assert (E : out = Ok (refuse E_SESSION_KEY ("session key '" +:+ demo_session_id +:+ "' is not active")))
    by (runs).
  eexists. split; [exact E|].
  apply (revoked_never_signs (DE := unit) demo_home (demo_world 1020 3) (demo_world 1022 4)
    {| request_kind := Some (demo_revoke (demo_passkey 5 2)) |}
    {| request_kind := Some (demo_sign demo_session_id (demo_passkey 5 3)) |}
    {| rk_session_key_id := demo_session_id; rk_auth := Some (demo_passkey 5 2) |}
    (demo_sign demo_session_id (demo_passkey 5 3)) demo_revoking [] demo_revoked_agent demo_after _
    (demo_serve 1022 4 (demo_sign demo_session_id (demo_passkey 5 3)) demo_after)).
  - apply demo_below.
  - split_and!; vm_compute; reflexivity.
  - reflexivity.
  - exact (demo_outcome 1020 3 (demo_revoke (demo_passkey 5 2)) demo_revoking _ (proj2 demo_session_signs)).
  - exact (demo_run _ 1021 3 demo_challenge demo_revoked_agent demo_revoked_agent (runs_refl _ _ _) Logic.I).
  - reflexivity.
  - reflexivity.
  - vm_compute. discriminate.
  - exact (demo_outcome 1022 4 (demo_sign demo_session_id (demo_passkey 5 3)) demo_after _ E).
Defined.

(** ** Sign-in messages *)

(** Expires at 1000 s. *)
Definition demo_sign_in : string := join_char lf
  ["example.com wants you to sign in with your Ethereum account:"; "0xAbC"; ""; "";
   "URI: https://example.com/login"; "Version: 1"; "Chain ID: 1"; "Nonce: abcdefgh1";
   "Issued At: T7Z"; "Expiration Time: T1000000000000Z"].

(** Signed with the token. *)
Definition demo_siwx : SignSiwxRequest := {|
  req_wallet_id := "w"; req_chain_id := "eip155:1"; req_message := demo_sign_in;
  req_auth := None; req_agent_token := "token"
|}.

Definition demo_gate (n : Z) (a : DemoAgent) := sign_siwx_gate (DE := unit) (demo_world n 0) demo_siwx a.

Lemma demo_gated n a r : (demo_gate n a).1 = r ->
  sign_siwx_gate (DE := unit) (demo_world n 0) demo_siwx a = (r, (demo_gate n a).2).
Proof. unfold demo_gate. destruct (sign_siwx_gate _ _ _). cbn. congruence. Defined.

Definition demo_bound : SiwxMessage := match from_str demo_sign_in with Ok m => m | Err _ => demo_parsed end.

Definition demo_size (n : Z) (a : DemoAgent) : option nat :=
  match Nonce.load (nonce_store a) demo_io n (disk a) with
  | Ok m => Some (size m)
  | Err _ => None
  end.

Lemma demo_in_time until n i a m :
  (n <? until)%Z = true -> demo_size n a = Some m -> (m <? Nonce.MAX_NONCE_ENTRIES)%nat = true ->
  in_time until (demo_world n i) a.
Proof.
  intros Hn%Z.ltb_lt. unfold demo_size. intros H Hm. split; [exact Hn|]. intros x Hx. cbn in Hx. rewrite Hx in H.
  injection H as ->. by apply Nat.ltb_lt.
Defined.

(** Signed at 500 s; the passkey is registered and challenged, and the message is
    sent again at 600 s and 900 s. *)
Definition demo_signed : DemoAgent := demo_serve 500 0 (SignSiwx demo_siwx) demo_agent.
Definition demo_between : DemoAgent :=
  demo_serve 600 0 (SignSiwx demo_siwx) (demo_serve 550 0 (demo_register "w" 5) demo_signed).

Lemma demo_signed_in :
  (demo_dispatch 500 0 (SignSiwx demo_siwx) demo_agent).1 = Ok (response_ok [1]%Z) /\
  (demo_gate 500 demo_agent).1 = Ok (demo_bound, "internal_token").
Proof. split; runs. Qed.

Lemma signed_once_witness : is_ok (demo_gate 900 demo_between).1 = false.
Proof.
  set (a1 := demo_serve 550 0 (demo_register "w" 5) demo_signed).
  refine (signed_once (DE := unit) demo_home (demo_world 500 0) (demo_world 900 0)
    {| request_kind := Some (SignSiwx demo_siwx) |} demo_siwx demo_siwx demo_agent demo_bound "internal_token"
    (demo_gate 500 demo_agent).2 demo_between (demo_gate 900 demo_between).1 (demo_gate 900 demo_between).2
    (demo_below 500 0) _ eq_refl (demo_gated 500 demo_agent _ (proj2 demo_signed_in)) _ eq_refl _
    (demo_gated 900 demo_between _ eq_refl)).
  - split_and!; vm_compute; reflexivity.
  - refine (demo_run _ 600 0 (SignSiwx demo_siwx) demo_signed a1
      (demo_run _ 550 0 (demo_register "w" 5) demo_signed demo_signed (runs_refl _ _ _) _) _).
    + refine (demo_in_time _ 550 0 demo_signed 1 _ _ _); runs.
    + refine (demo_in_time _ 600 0 a1 1 _ _ _); runs.
  - vm_compute. reflexivity.
Defined.

(** A message is still accepted within the clock skew after its expiry, when the
    store has forgotten it: it is signed at 1010 s and again at 1030 s, though it
    expired at 1000 s. *)
Lemma expired_message_signed_twice :
  let a1 := demo_serve 1010 0 (SignSiwx demo_siwx) demo_agent in
  result_map (fun m => from_option (fun t => as_second (parsed t)) 0%Z (expiration_time m))
    (from_str demo_sign_in) = Ok 1000%Z /\
  (demo_dispatch 1010 0 (SignSiwx demo_siwx) demo_agent).1 = Ok (response_ok [1]%Z) /\
  (demo_dispatch 1030 0 (SignSiwx demo_siwx) a1).1 = Ok (response_ok [1]%Z).
Proof. intros a1. split_and!; runs. Qed.

(** ** Proofs *)

(** The proof for the first challenge, after another challenge was drawn. *)
Definition demo_replayed : DemoAgent :=
  demo_serve 1003 1 demo_challenge (demo_serve 1002 1 (demo_sign "" (demo_passkey 5 0)) demo_ready).

Lemma demo_replay_denied : (demo_dispatch 1004 2 (demo_sign "" (demo_passkey 5 0)) demo_replayed).1 = Ok deny_forged.
Proof. runs. Qed.

Lemma proof_used_once_witness :
  exists resp, (demo_dispatch 1004 2 (demo_sign "" (demo_passkey 5 0)) demo_replayed).1 = Ok resp /\ ~ answered resp.
Proof.
  exists deny_forged. split; [exact demo_replay_denied|].
  refine (proof_used_once (DE := unit) demo_home (demo_world 1002 1) (demo_world 1004 2)
    {| request_kind := Some (demo_sign "" (demo_passkey 5 0)) |} {| request_kind := Some (demo_sign "" (demo_passkey 5 0)) |}
    (demo_sign "" (demo_passkey 5 0)) (demo_sign "" (demo_passkey 5 0)) (demo_passkey 5 0) (demo_passkey 5 0)
    demo_ready [1]%Z (demo_serve 1002 1 (demo_sign "" (demo_passkey 5 0)) demo_ready) demo_replayed deny_forged
    (demo_serve 1004 2 (demo_sign "" (demo_passkey 5 0)) demo_replayed)
    _ eq_refl eq_refl (demo_outcome 1002 1 (demo_sign "" (demo_passkey 5 0)) demo_ready _ demo_signs)
    (demo_run _ 1003 1 demo_challenge _ _ (runs_refl _ _ _) _) eq_refl eq_refl eq_refl eq_refl
    (demo_outcome 1004 2 (demo_sign "" (demo_passkey 5 0)) demo_replayed _ demo_replay_denied));
    intros i H; apply (f_equal (hd 0%Z)) in H; cbn in H; lia.
Defined.

(** ** Ends *)

Lemma dispatch_ends_witness : (demo_dispatch 1001 0 demo_challenge demo_agent).1 <> Err Exhausted.
Proof.
  refine (dispatch_ends (DE := unit) (demo_world 1001 0) (demo_lively 1001 0 _)
    {| request_kind := Some demo_challenge |} demo_agent). runs.
Defined.

(** ** The audit log *)








(** ** Registration *)

(** Whoever reaches the socket registers a passkey of its own under the credential of
    the wallet's owner, without any proof, and signs with it. *)
Lemma registration_takes_over :
  let a1 := demo_serve 1000 0 (demo_register "w" 5) demo_agent in
  let a2 := demo_serve 2000 0 demo_challenge (demo_serve 1990 0 (demo_register "w" 6) a1) in
  (demo_dispatch 1990 0 (demo_register "w" 6) a1).1 = Ok (response_ok []) /\
  (demo_dispatch 2001 1 (demo_sign "" (demo_passkey 6 0)) a2).1 = Ok (response_ok [1]%Z).
Proof. intros a1 a2. split; runs. Qed.

(** The verifier of a credential outlives its registration: after the credential has
    been registered again with another key and wallet, the old key still signs, for
    the new wallet, until the vault is locked; the new key does not. *)
Lemma verifier_outlives_registration :
  let first := demo_serve 1001 0 demo_challenge (demo_serve 1000 0 (demo_register "x" 5) demo_agent) in
  let again := demo_serve 1002 1 (demo_register "w" 6) first in
  let locked := demo_serve 1004 1 demo_challenge (demo_serve 1003 1 LockVault again) in
  (demo_dispatch 1005 2 (demo_sign "" (demo_passkey 5 0)) again).1 = Ok (response_ok [1]%Z) /\
  (demo_dispatch 1005 2 (demo_sign "" (demo_passkey 6 0)) again).1 = Ok deny_forged /\
  (demo_dispatch 1005 2 (demo_sign "" (demo_passkey 5 1)) locked).1 = Ok deny_forged /\
  (demo_dispatch 1005 2 (demo_sign "" (demo_passkey 6 1)) locked).1 = Ok (response_ok [1]%Z).
Proof. intros first again locked. split_and!; runs. Qed.
